(* ===== verification/_CoqProject ===== *)
-Q . S2P
Prelude.v
SmallVector.v
BufferQueue.v
BufferedIOStream.v
BinaryWriter.v
Rpc.v
Geometry.v
Bridge.v
Wm.v
Renderer.v
Viewport.v
Strategy.v
Composer.v
Qemud.v
QemuServices.v
Gsm.v
Network.v
Pipe.v
Adb.v
AdbPool.v
Input.v
Device.v
Memory.v
Sdl.v
InitRc.v
Image.v
Lxc.v
Container.v
Mounts.v
RenderControl.v
RenderThread.v
Service.v
Audio.v
SdlWindow.v
Gfxstream.v
