(* ===== verification/Prelude.v ===== *)
(** * Anbox Reboxed: verification development

    Anbox Reboxed runs Android in a container on a Linux desktop. The host
    daemon (src/anbox/src/anbox, "anbox/" below; file names are relative to
    it) serves the guest over sockets and shows its windows. This development
    models the logic of the host daemon in Rocq, translated from the C++
    source, and proves what makes it correct.

    ** The parts and how they interact

    A guest process opens /dev/qemu_pipe. [Pipe] (qemu/pipe_connection_creator,
    qemu/refcount_message_processor) reads which service it wants and gives the
    connection a message processor: a qemud service ([Qemud], [QemuServices],
    [Gsm]), the adb proxy ([Adb]), or the rendering pipes. Connections, their
    table and the connectors that accept them are [Network] (network/), generic
    in the processor (class [MessageProcessor], and class [Resource] for a
    processor that owns something). A rendering pipe carries GL commands through
    [BufferedIOStream], over a bounded queue of [SmallVector]s (class
    [BoundedQueue], implemented by [BufferQueue]), to a render thread
    ([RenderThread]), which cuts them into packets; a decoder (generated, a
    parameter) turns a packet into a call of [RenderControl], and these calls use
    the operations of [Renderer] (graphics/emugl/Renderer.cpp): color buffers,
    surfaces, contexts under reference counts and budgets. The frames that they
    submit go to [Composer] (graphics/layer_composer),
    which freezes them through the interface [frame_store] (kept by the model
    of [Renderer]), assigns them to windows by a strategy ([Strategy]) and draws
    them from a worker thread into the host windows of [Viewport]. What a draw
    shows decides how input coordinates are mapped ([Geometry]). Host input goes
    through the state machines and the dispatcher of [Input] to the uinput
    devices of [Device] (class [EventSink]); [Sdl] is the event thread that
    drives it, with the touch screen and the callbacks of the windows, and
    [SdlWindow] puts the windows on the screen beside it. Sound of the guest
    comes over a socket of [Network] into the player of [Audio]. A newer guest
    draws through a library instead of the decoders; [Gfxstream] lends it the
    host windows of [Viewport] and its pipes. The control path is the RPC of [Rpc] (rpc/) with the calls of [Bridge] (bridge/, application/) on top, whose
    window updates drive [Wm] (wm/). [BinaryWriter] lays out the network
    configuration file of the guest. The container is made by [Lxc]
    (container/lxc_container), on request of the session through
    container/management_api_skeleton: it asks [Memory] for the memory limits
    and the swap file, [BinaryWriter] for the network file, [InitRc] for the
    init files, and for a modern image has the views and copies of [Image] made.
    [Service] is the connection between the session and the manager. Before
    that, the container manager ([Mounts]) has mounted the images on the
    directories that become the root file system.

    ** The files

    - [Prelude]: bytes, machine integers with their wrap-around, printing and
      scanning of numbers, outcomes ([Ret], [Throw], [Aborted], [Undef] for
      undefined behaviour), the state monad [M] of a member function with the
      rules [keeps] and [returns], loops with fuel, tactics, hint database.
    - [SmallVector] (common/small_vector.h): the object, its in-place array and
      a heap of blocks; refinement of a list by [SmallFixedVector], no leak, no
      double free, no access outside a block.
    - [BufferQueue] (graphics/buffer_queue, common/message_channel): ring buffer
      as laid out; every interleaving of a producer, a consumer and close.
    - [BufferedIOStream] (graphics/buffered_io_stream): reading and writing over
      any queue that satisfies [BoundedQueue].
    - [BinaryWriter] (common/binary_writer, android/ip_config_builder): layout,
      bounds and reading back.
    - [Rpc] (rpc/): framing of the byte stream, calls with their responses, the
      closures of pending calls; protobuf is the class [Protobuf].
    - [Geometry] (graphics/rect, density, coordinate_transform,
      rendered_viewport, platform/sdl/window_geometry): [double] as IEEE
      binary64 ([SpecFloat]).
    - [Bridge] (bridge/, application/database, application/launcher_storage,
      common/wait_handle): errors of calls, launchers on disk.
    - [Wm] (wm/): window updates against the set of tasks, native windows.
    - [Renderer] (graphics/emugl/Renderer): reference counts, budgets, deferred
      destruction, snapshots. [Viewport]: its host windows, EGL surfaces,
      published viewports, external frames.
    - [Strategy], [Composer] (graphics/..._composer...): layers of a window; the
      pipeline of frames, its snapshots, its worker, and the composition with
      [Renderer].
    - [Qemud], [QemuServices], [Gsm] (qemu/): framing independent of the reads,
      the services, the modem against a table of its dialogue.
    - [Network] (network/, rpc/connection_creator), [Pipe]: connections and
      what their processors own, released exactly once.
    - [Adb] (qemu/adb_message_processor): all processors and the static lock,
      one handler at a time. [AdbPool] (runtime): the threads that run the
      handlers, several at a time; what each touches, and what is undefined.
    - [Input] (input/dispatcher, keyboard, pointer): held keys against what
      each device was told, accounting, order and progress of the queue.
    - [Sdl] (platform/sdl/platform, keycode_converter): the event thread over
      [Input], what it sends past them, touch slots against a reader of the
      multi-touch protocol.
      [SdlWindow] (platform/sdl/window, the windows of platform): construction,
      hit test, own buttons and events of a window, and the desktop as a
      transition system that refines the platform of [Sdl].
    - [Audio] (audio/server, platform/sdl/audio_sink): the queue between the
      guest and the player, every interleaving of writer, player and shutdown.
    - [Gfxstream] (graphics/gfxstream_backend, gfxstream_message_processor): the
      life of the backend, posted frames, events of a pipe with its response
      thread.
    - [Device] (input/device): capability set-up that fails closed, with the
      requests made on its descriptor, records.
    - [Memory] (memory_manager): sizes, the configuration file, the limits given
      to LXC, the swap file.
    - [InitRc] (container/lxc_container, add_container_service_labels): the rc
      files line by line, and the texts that replace or end them, against a
      grammar of statements and sections as init reads them.
    - [Image] (container/lxc_container): patched executables, the framework view
      with its hard links, the view of decompressed APEX packages.
    - [Lxc] (container/lxc_container, common/binder_device_allocator,
      container/management_api_skeleton): every call of the system and of liblxc
      in its order, each answer a function of all that happened before; the
      judgement [runs_with] follows what a call adds to the trace. [Container]:
      the theorems about it.
    - [Service] (container/service, client, management_api_stub and
      management_api_message_processor): the session's threads, the messages in
      both directions and the container as one transition system, which gives
      each call the answer of [Lxc].
    - [RenderControl] (graphics/emugl/RenderControl, RendererConfig): each call
      of a guest on a state that the render threads share, frames of layers,
      strings and configurations; the host's EGL and GL are the record
      [host_gl]. The ghost field [calls_made] ties it to the calls of
      [Renderer], whose accounting it inherits.
    - [RenderThread] (graphics/emugl/RenderThread, ReadBuffer): the buffer, the
      packets, the calls of newer guests, the end of a thread; turns of several
      threads.
    - [Mounts] (cmds/container_manager, common/mount_entry, common/loop_device,
      common/loop_device_allocator): what is mounted where and who owns it; the
      judgement [does] carries who accounts for each mount, loop device and
      descriptor of the history.

    ** Conventions

    An operation is a function on its state: [M St A] where it can throw or
    be undefined, plain state passing elsewhere. Threads are transition
    relations whose steps are the critical sections of the mutexes; condition
    variables are an [asleep] flag with explicit and spurious wake-ups, so a lost
    wake-up is a reachable state that the theorems exclude. What is not under
    src/ (EGL, GL, protobuf, boost::asio, the kernel, udev, the file system) is a
    parameter: an argument, a class with its laws, or answers of the
    environment that a theorem quantifies over. Ghost fields ([delivered],
    [refused], [written], the EGL trace) record what left the program and are
    not read by the code.

    ** What the theorems show

    Each theorem that states a property of the program is preceded by a comment
    with its number (C1 to C40). In groups: resources are exact and released
    ([composer_on_renderer], [references_exact], [composer_snapshots],
    [published_viewports], [pipe_resources], [small_vector_refines],
    [color_buffer_accounting], [render_books]); streams are handled
    independently of how reads split them ([rpc_stream], [qemud_stream],
    [gsm_stream], [render_stream], [audio_stream], [adb_session]); threads
    neither lose work nor wake-ups ([buffer_queue_system], [composer_progress],
    [input_dispatcher], [gfx_responses]); exclusion and fail-closed set-up
    ([adb_exclusive], [uinput_fails_closed], [platform_input], [container_start],
    [mounts_released], [frame_batches]);
    the container ([container_lifecycle], [manager_answers], [container_ids],
    [init_services_labelled], [framework_view], [cleanup_terminates]); functional
    behaviour and round trips ([wm_update], [rpc_call_roundtrip],
    [modern_protocol], [touch_protocol], [desktop_windows]); error paths
    ([pending_calls_once], [memory_configuration],
    [swap_file_safe]). Further theorems have no number: [io_stream_reads],
    [io_stream_writes], [image_patches], [pipe_accepts], [control_click],
    [backend_lifecycle],
    [multi_window_layers], [apex_view_complete], [device_delivery],
    [ip_config_roundtrip], [gl_strings], [choose_config]. Lemmas at the end of a
    file show where the code does not do what it means to.

    ** Bounds and fuel

    The loops with fuel ([loop], [read_records], [print_digits]) are given a
    bound on what they consume (bytes left, digits of a 64-bit number), and
    the theorems that use them show that it is not reached. Loops whose end
    depends on the environment ([write_all], the send and receive loops) recurse
    on the answers; a theorem says how many answers are enough. The loop that
    unmounts a path gets the length of the table of mounts as fuel, which is
    enough for any system whose unmounts take a mount away. The packet loops of
    a render thread get the number of bytes there are, each turn takes eight or
    more; [render_stream] says that this is enough. Counters that the
    code keeps in 64 bits are not wrapped; 32-bit handles, sizes and coordinates
    are, or their overflow is [Undef].

    ** Not modelled

    What unzip and debugfs extract for the container, session start-up and the
    command lines, GL drawing, the decoders of the render thread and the
    library of [Gfxstream] (generated or not under src/, parameters), the hint
    about window decorations for X11, path and mode of the audio socket, D-Bus
    servers, telephony client, logging and utilities: I/O, wiring or calls into
    libraries. Nothing calls the functions that pass descriptors
    (network/fd_socket_transmission), and network/stream_socket_transport is
    not compiled. The guest's GL encoders are generated; the guest's hardware
    modules, the kernel modules and src/anbox/external are third-party code. *)

From Stdlib Require Export ZArith Lia Strings.Byte.
From stdpp Require Export base list gmap strings numbers option sorting.

(** * Bytes, machine integers and byte strings *)

(** [std::uint8_t] and [char] values are [Byte.byte]; [std::vector<uint8_t>],
    [std::string] contents and raw buffers are lists of them. *)
Abbreviation byte := Init.Byte.byte.
Abbreviation bytes := (list byte).

#[global] Instance byte_eq_dec : EqDecision byte.
Proof. intros a b. destruct (Byte.byte_eq_dec a b); [left | right]; done. Defined.

(** The value of a byte. *)
Definition bval (b : byte) : Z := Z.of_N (Byte.to_N b).

(** Truncation to a byte, as [static_cast<std::uint8_t>] does. *)
Definition to_byte (z : Z) : byte :=
  match Byte.of_N (Z.to_N (z `mod` 256)) with
  | Some b => b
  | None => x00
  end.

#[global] Instance byte_countable : Countable byte.
Proof.
  apply (inj_countable Byte.to_N Byte.of_N). intros b. apply Byte.of_to_N.
Defined.

(** A C string literal as bytes (without the terminating NUL). *)
Definition str (s : string) : bytes := String.list_byte_of_string s.

Definition is_empty (s : bytes) : bool := match s with [] => true | _ => false end.

(** [std::getline] until the end of a file; [cur] is the line read so far. *)
Fixpoint getlines (cur s : bytes) : list bytes :=
  match s with
  | [] => if is_empty cur then [] else [cur]
  | b :: s' => if Byte.eqb b x0a then cur :: getlines [] s' else getlines (cur ++ [b]) s'
  end.

(** [utils::string_split]: a run of separators is one. [run] says that the
    last character was a separator. *)
Fixpoint split_run (sep : byte) (run : bool) (cur s : bytes) : list bytes :=
  match s with
  | [] => [cur]
  | b :: s' =>
      if Byte.eqb b sep then
        if run then split_run sep true cur s' else cur :: split_run sep true [] s'
      else split_run sep false (cur ++ [b]) s'
  end.
Definition string_split (s : bytes) (sep : byte) : list bytes := split_run sep false [] s.

(** Wrap-around of the fixed width unsigned and signed integer types. *)
Definition u8 (z : Z) : Z := z `mod` 2 ^ 8.
Definition u16 (z : Z) : Z := z `mod` 2 ^ 16.
Definition u32 (z : Z) : Z := z `mod` 2 ^ 32.
Definition u64 (z : Z) : Z := z `mod` 2 ^ 64.
Definition i32 (z : Z) : Z := (z + 2 ^ 31) `mod` 2 ^ 32 - 2 ^ 31.

Definition in_u32 (z : Z) : Prop := (0 <= z < 2 ^ 32)%Z.
Definition in_i32 (z : Z) : Prop := (- 2 ^ 31 <= z < 2 ^ 31)%Z.

(** Little-endian and big-endian layouts of an [n] byte integer. *)
Fixpoint le_bytes (n : nat) (z : Z) : bytes :=
  match n with
  | O => []
  | S n' => to_byte z :: le_bytes n' (z `div` 256)
  end.
Definition be_bytes (n : nat) (z : Z) : bytes := reverse (le_bytes n z).
Fixpoint le_value (l : bytes) : Z :=
  match l with
  | [] => 0
  | b :: l' => bval b + 256 * le_value l'
  end%Z.
Definition be_value (l : bytes) : Z := le_value (reverse l).

(** [utils::string_starts_with] and [memcmp] style prefix tests are on bytes. *)
Fixpoint starts_with (l p : bytes) : bool :=
  match p, l with
  | [], _ => true
  | b :: p', c :: l' => Byte.eqb c b && starts_with l' p'
  | _ :: _, [] => false
  end.

Definition bytes_eqb (a b : bytes) : bool := bool_decide (a = b).

(** [std::isspace] and [std::isdigit] in the C locale. *)
Definition is_space (b : byte) : bool :=
  Byte.eqb b x20 || ((9 <=? bval b) && (bval b <=? 13))%Z.
Definition is_digit (b : byte) : bool := ((48 <=? bval b) && (bval b <=? 57))%Z.
Definition digit_value (b : byte) : Z := bval b - 48.

Fixpoint skip_spaces (l : bytes) : bytes :=
  match l with b :: l' => if is_space b then skip_spaces l' else l | [] => [] end.
Fixpoint span_digits (l : bytes) : bytes * bytes :=
  match l with
  | b :: l' => if is_digit b then let (ds, r) := span_digits l' in (b :: ds, r) else ([], l)
  | [] => ([], [])
  end.
Definition digits_value (ds : bytes) : Z :=
  fold_left (fun v d => 10 * v + digit_value d)%Z ds 0%Z.

(** The [%d] conversion of [sscanf]: optional spaces, a sign and digits; glibc
    converts with [strtol] (which saturates) and truncates to [int]. *)
Definition long_saturate (z : Z) : Z := Z.max (- 2 ^ 63) (Z.min (2 ^ 63 - 1) z).
Definition scan_d (l : bytes) : option Z :=
  let l := skip_spaces l in
  let (neg, l) := match l with
                  | b :: l' => if Byte.eqb b x2d then (true, l')
                               else if Byte.eqb b x2b then (false, l') else (false, l)
                  | [] => (false, [])
                  end in
  match (span_digits l).1 with
  | [] => None
  | ds => let v := digits_value ds in
          Some (i32 (long_saturate (if neg then - v else v)%Z))
  end.

(** The entries of a [std::map] with integer keys in the order of iteration. *)
Definition key_le {A} (a b : Z * A) : Prop := (a.1 <= b.1)%Z.
#[global] Instance key_le_dec {A} (a b : Z * A) : Decision (key_le a b) := Z_le_dec a.1 b.1.
Definition by_key {A} (p : gmap Z A) : list (Z * A) := merge_sort key_le (map_to_list p).

(** ** Printing integers *)

(** The digit characters of [printf]'s [%d] and [%x]. *)
Definition digit_char (d : Z) : byte := to_byte (if d <? 10 then 48 + d else 87 + d)%Z.
Fixpoint print_digits (base : Z) (fuel : nat) (n : Z) : bytes :=
  match fuel with
  | O => []
  | S fuel' =>
      (if n <? base then [] else print_digits base fuel' (n `div` base))%Z
      ++ [digit_char (n `mod` base)]
  end.
(** Sixty-four digits are enough for every 64-bit number. *)
Definition print_u (base n : Z) : bytes := print_digits base 64 n.
Definition print_d (z : Z) : bytes :=
  if (z <? 0)%Z then x2d :: print_u 10 (- z) else print_u 10 z.
(** Zero padding to a minimal width, [%0<w>x]. *)
Definition zero_pad (w : nat) (s : bytes) : bytes := replicate (w - length s) x30 ++ s.

(** * Outcomes of fallible code *)

(** C++ exceptions that the modelled code throws or lets escape. *)
Inductive exn :=
  | OutOfRange      (* std::out_of_range *)
  | RuntimeError    (* std::runtime_error *)
  | LogicError      (* std::logic_error *)
  | SystemError     (* std::system_error *)
  | BadLexicalCast. (* boost::bad_lexical_cast *)

(** A call returns, throws, calls [abort()], or has undefined behaviour (an
    access outside an object, from which the model never continues). *)
Inductive outcome (A : Type) :=
  | Ret (a : A)
  | Throw (e : exn)
  | Aborted
  | Undef.
Arguments Ret {A} a.
Arguments Throw {A} e.
Arguments Aborted {A}.
Arguments Undef {A}.

#[global] Instance exn_eq_dec : EqDecision exn.
Proof. solve_decision. Defined.

Definition obind {A B} (o : outcome A) (f : A -> outcome B) : outcome B :=
  match o with
  | Ret a => f a
  | Throw e => Throw e
  | Aborted => Aborted
  | Undef => Undef
  end.

Declare Scope anbox_scope.
Delimit Scope anbox_scope with anbox.
Notation "x <-! c ; k" := (obind c (fun x => k))
  (at level 100, c at next level, right associativity) : anbox_scope.
Open Scope anbox_scope.

(** Weakest precondition of a call that must neither throw nor be undefined;
    [abort()] satisfies every postcondition. *)
Definition wp {A} (o : outcome A) (P : A -> Prop) : Prop :=
  match o with
  | Ret a => P a
  | Aborted => True
  | Throw _ | Undef => False
  end.

(** * Stateful calls *)

(** A member function over an object state [St]: the effects made before an
    exception stay. *)
Definition M (St A : Type) : Type := St -> St * outcome A.
#[global] Instance M_ret St : MRet (M St) := fun A a s => (s, Ret a).
#[global] Instance M_bind St : MBind (M St) := fun A B f c s =>
  match c s with
  | (s', Ret a) => f a s'
  | (s', Throw e) => (s', Throw e)
  | (s', Aborted) => (s', Aborted)
  | (s', Undef) => (s', Undef)
  end.
Definition get {St} : M St St := fun s => (s, Ret s).
Definition modify {St} (f : St -> St) : M St unit := fun s => (f s, Ret tt).
Definition lift {St A} (o : outcome A) : M St A := fun s => (s, o).
Definition throw {St A} (e : exn) : M St A := lift (Throw e).

(** [for (x : l) f(x)] *)
Fixpoint for_each {St A} (f : A -> M St unit) (l : list A) : M St unit :=
  match l with
  | [] => mret tt
  | x :: l' => f x ≫= fun _ => for_each f l'
  end.

(** * Loops *)

(** A [while]/[for] loop is a step function: [inl s'] runs the body again,
    [inr r] leaves the loop with [r].  [loop fuel] is [None] only when the fuel
    runs out, which [loop_spec] excludes for every loop of the development. *)
Fixpoint loop {S R : Type} (fuel : nat) (step : S -> S + R) (s : S) : option R :=
  match fuel with
  | O => None
  | Datatypes.S fuel' =>
      match step s with
      | inl s' => loop fuel' step s'
      | inr r => Some r
      end
  end.

(** * Automation *)

Create HintDb anbox.

(** Rewrites the length of a list expression to arithmetic, everywhere. *)
Ltac len :=
  repeat match goal with
    | |- context [length (_ ++ _)] => rewrite length_app
    | H : context [length (_ ++ _)] |- _ => rewrite length_app in H
    | |- context [length (take _ _)] => rewrite length_take
    | H : context [length (take _ _)] |- _ => rewrite length_take in H
    | |- context [length (drop _ _)] => rewrite length_drop
    | H : context [length (drop _ _)] |- _ => rewrite length_drop in H
    | |- context [length (replicate _ _)] => rewrite length_replicate
    | H : context [length (replicate _ _)] |- _ => rewrite length_replicate in H
    | |- context [length (reverse _)] => rewrite length_reverse
    | H : context [length (reverse _)] |- _ => rewrite length_reverse in H
    | |- context [length (<[_:=_]> _)] => rewrite length_insert
    | H : context [length (<[_:=_]> _)] |- _ => rewrite length_insert in H
    | |- context [length (_ <$> _)] => rewrite length_fmap
    | H : context [length (_ <$> _)] |- _ => rewrite length_fmap in H
    | |- context [length (seq _ _)] => rewrite length_seq
    | H : context [length (seq _ _)] |- _ => rewrite length_seq in H
    end; cbn [length] in *.
Ltac slen := simpl in *; len; simpl in *; lia.

(** Case analysis on every [if]/[match] of the goal or of a hypothesis. *)
Ltac cases := repeat (case_match; simplify_eq/=).
Ltac bdestruct_all :=
  repeat match goal with
    | H : (_ && _) = true |- _ => apply andb_prop in H; destruct H
    | H : (_ || _) = false |- _ => apply orb_false_elim in H; destruct H
    | H : negb _ = true |- _ => apply negb_true_iff in H
    | H : negb _ = false |- _ => apply negb_false_iff in H
    | H : bool_decide _ = true |- _ => apply bool_decide_eq_true in H
    | H : bool_decide _ = false |- _ => apply bool_decide_eq_false in H
    | H : (_ <? _)%nat = true |- _ => apply Nat.ltb_lt in H
    | H : (_ <? _)%nat = false |- _ => apply Nat.ltb_ge in H
    | H : (_ <=? _)%nat = true |- _ => apply Nat.leb_le in H
    | H : (_ <=? _)%nat = false |- _ => apply Nat.leb_gt in H
    | H : (_ =? _)%nat = true |- _ => apply Nat.eqb_eq in H
    | H : (_ =? _)%nat = false |- _ => apply Nat.eqb_neq in H
    | H : (_ <? _)%Z = true |- _ => apply Z.ltb_lt in H
    | H : (_ <? _)%Z = false |- _ => apply Z.ltb_ge in H
    | H : (_ <=? _)%Z = true |- _ => apply Z.leb_le in H
    | H : (_ <=? _)%Z = false |- _ => apply Z.leb_gt in H
    | H : (_ =? _)%Z = true |- _ => apply Z.eqb_eq in H
    | H : (_ =? _)%Z = false |- _ => apply Z.eqb_neq in H
    end.

(** * Lemmas: bytes and integers *)

Lemma bval_range (b : byte) : (0 <= bval b < 256)%Z.
Proof. unfold bval. pose proof (Byte.to_N_bounded b). lia. Qed.

Lemma to_byte_bval (b : byte) : to_byte (bval b) = b.
Proof.
  unfold to_byte. rewrite Z.mod_small by apply bval_range.
  unfold bval. rewrite N2Z.id, Byte.of_to_N. done.
Qed.

Lemma bval_to_byte (z : Z) : bval (to_byte z) = (z `mod` 256)%Z.
Proof.
  unfold to_byte, bval.
  pose proof (Z.mod_pos_bound z 256 eq_refl) as Hz.
  destruct (Byte.of_N (Z.to_N (z `mod` 256))) as [b|] eqn:E.
  - apply Byte.to_of_N in E. lia.
  - apply Byte.of_N_None_iff in E. lia.
Qed.

Lemma to_byte_mod (z : Z) : to_byte (z `mod` 256) = to_byte z.
Proof. unfold to_byte. rewrite Z.mod_mod by lia. done. Qed.

Lemma length_le_bytes n z : length (le_bytes n z) = n.
Proof. revert z; induction n as [|n IH]; intros z; simpl; congruence. Qed.

Lemma length_be_bytes n z : length (be_bytes n z) = n.
Proof. unfold be_bytes. rewrite length_reverse. apply length_le_bytes. Qed.

Lemma le_value_bytes n z : le_value (le_bytes n z) = (z `mod` 2 ^ (8 * Z.of_nat n))%Z.
Proof.
  revert z; induction n as [|n IH]; intros z; simpl le_bytes; simpl le_value.
  - rewrite Z.mod_1_r. done.
  - rewrite IH, bval_to_byte.
    replace (8 * Z.of_nat (S n))%Z with (8 + 8 * Z.of_nat n)%Z by lia.
    rewrite Z.pow_add_r by lia. change (2 ^ 8)%Z with 256%Z.
    rewrite Z.rem_mul_r by lia. lia.
Qed.

Lemma be_value_bytes n z : be_value (be_bytes n z) = (z `mod` 2 ^ (8 * Z.of_nat n))%Z.
Proof. unfold be_value, be_bytes. rewrite reverse_involutive. apply le_value_bytes. Qed.

Lemma le_value_range l : (0 <= le_value l < 2 ^ (8 * Z.of_nat (length l)))%Z.
Proof.
  induction l as [|b l IH]; simpl le_value; [simpl; lia|].
  pose proof (bval_range b).
  replace (8 * Z.of_nat (length (b :: l)))%Z with (8 + 8 * Z.of_nat (length l))%Z
    by (simpl length; lia).
  rewrite Z.pow_add_r by lia. change (2 ^ 8)%Z with 256%Z. lia.
Qed.

Lemma le_bytes_value l : le_bytes (length l) (le_value l) = l.
Proof.
  induction l as [|b l IH]; [done|]. simpl le_bytes; simpl le_value.
  pose proof (bval_range b). f_equal.
  - rewrite <- to_byte_mod, (Z.mul_comm 256), Z.mod_add, Z.mod_small by lia.
    apply to_byte_bval.
  - rewrite (Z.mul_comm 256), Z.div_add, Z.div_small, Z.add_0_l by lia. apply IH.
Qed.

(** The digits of a number, most significant first. *)
Fixpoint base_value (base : Z) (ds : list Z) (v : Z) : Z :=
  match ds with
  | [] => v
  | d :: ds' => base_value base ds' (base * v + d)
  end%Z.

Lemma base_value_app base ds es v :
  base_value base (ds ++ es) v = base_value base es (base_value base ds v).
Proof. revert v; induction ds as [|d ds IH]; intros v; simpl; [done|apply IH]. Qed.

(** Printing in a base gives the characters of digits that denote the number,
    as many as its size asks for. *)
Lemma print_digits_spec base fuel n k :
  (1 < base)%Z -> (0 < k <= fuel)%nat -> (0 <= n < base ^ Z.of_nat k)%Z ->
  exists ds, print_digits base fuel n = digit_char <$> ds /\
    Forall (fun d => 0 <= d < base)%Z ds /\ base_value base ds 0 = n /\
    (0 < length ds <= k)%nat.
Proof.
  intros Hb. revert n k; induction fuel as [|fuel IH]; intros n k Hk Hn; [lia|].
  pose proof (Z.mod_pos_bound n base ltac:(lia)) as Hm.
  pose proof (Z.div_mod n base ltac:(lia)) as Hd. cbn [print_digits].
  destruct (n <? base)%Z eqn:E; bdestruct_all.
  - exists [n `mod` base]%Z. rewrite Z.mod_small by lia. simpl. split_and!; try done; try lia.
    constructor; [lia|done].
  - destruct k as [|k]; [lia|]. destruct k as [|k]; [simpl in Hn; lia|].
    destruct (IH (n `div` base)%Z (S k)) as (ds & -> & Hds & Hv & Hl); [lia| |].
    { split; [apply Z.div_pos; lia|]. apply Z.div_lt_upper_bound; [lia|].
      rewrite <- Z.pow_succ_r by lia. replace (Z.succ (Z.of_nat (S k))) with (Z.of_nat (S (S k))) by lia. lia. }
    exists (ds ++ [n `mod` base]%Z). rewrite fmap_app, length_app. split_and!; try (simpl; lia); [done| |].
    + apply Forall_app_2; [done|]. by apply Forall_singleton.
    + rewrite base_value_app, Hv. simpl. lia.
Qed.

Lemma u32_id z : in_u32 z -> u32 z = z.
Proof. unfold in_u32, u32. apply Z.mod_small. Qed.

Lemma u32_range z : in_u32 (u32 z).
Proof. unfold in_u32, u32. apply Z.mod_pos_bound. lia. Qed.

Lemma i32_id z : in_i32 z -> i32 z = z.
Proof. unfold in_i32, i32. intros H. rewrite Z.mod_small by lia. lia. Qed.

Lemma i32_range z : in_i32 (i32 z).
Proof. unfold in_i32, i32. pose proof (Z.mod_pos_bound (z + 2 ^ 31) (2 ^ 32)). lia. Qed.

Lemma digit_char_decimal d : (0 <= d < 10)%Z ->
  is_digit (digit_char d) = true /\ is_space (digit_char d) = false /\
  digit_value (digit_char d) = d /\
  Byte.eqb (digit_char d) x2d = false /\ Byte.eqb (digit_char d) x2b = false.
Proof.
  intros H. assert (d = 0 \/ d = 1 \/ d = 2 \/ d = 3 \/ d = 4 \/ d = 5 \/ d = 6 \/ d = 7 \/ d = 8 \/ d = 9)%Z
    as Hd by lia.
  repeat destruct Hd as [->|Hd]; try subst d; vm_compute; tauto.
Qed.

(** A run of decimal digits is read back. *)
Lemma span_digits_rest ds r : Forall (fun d => 0 <= d < 10)%Z ds ->
  match r with b :: _ => is_digit b = false | [] => True end ->
  span_digits ((digit_char <$> ds) ++ r) = (digit_char <$> ds, r).
Proof.
  intros Hds Hr. unfold fmap. induction Hds as [|d ds Hd _ IH]; simpl.
  - destruct r as [|b r]; [done|]. simpl. by rewrite Hr.
  - destruct (digit_char_decimal d Hd) as [-> _]. by rewrite IH.
Qed.
Lemma span_digits_spec ds : Forall (fun d => 0 <= d < 10)%Z ds ->
  span_digits (digit_char <$> ds) = (digit_char <$> ds, []).
Proof. intros Hds. rewrite <- (app_nil_r (digit_char <$> ds)) at 1. by apply span_digits_rest. Qed.
Lemma digits_value_spec ds : Forall (fun d => 0 <= d < 10)%Z ds ->
  digits_value (digit_char <$> ds) = base_value 10 ds 0.
Proof.
  intros Hds. unfold digits_value. generalize 0%Z. induction Hds as [|d ds Hd _ IH]; intros v; [done|].
  simpl. destruct (digit_char_decimal d Hd) as (_ & _ & -> & _). apply IH.
Qed.

Lemma print_decimal z : (0 <= z < 10 ^ 64)%Z ->
  exists d ds, print_u 10 z = digit_char <$> (d :: ds) /\
    Forall (fun d => 0 <= d < 10)%Z (d :: ds) /\ base_value 10 (d :: ds) 0 = z.
Proof.
  intros Hz. destruct (print_digits_spec 10 64 z 64) as ([|d ds] & He & Hds & Hv & Hl).
  - lia.
  - lia.
  - done.
  - simpl in Hl. lia.
  - by exists d, ds.
Qed.

(** What [printf("%d")] writes, [scanf("%d")] reads. *)
Lemma scan_print_d z : in_i32 z -> scan_d (print_d z) = Some z.
Proof.
  unfold in_i32. intros Hz. unfold print_d. destruct (z <? 0)%Z eqn:E; bdestruct_all.
  - destruct (print_decimal (- z)) as (d & ds & -> & Hds & Hv); [lia|].
    unfold scan_d. change (skip_spaces (x2d :: _)) with (x2d :: (digit_char <$> d :: ds)).
    cbv beta iota zeta. change (Byte.eqb x2d x2d) with true. cbv iota.
    rewrite span_digits_spec by done. cbn [fst fmap list_fmap].
    pose proof (digits_value_spec (d :: ds) Hds) as Hdv. cbn [fmap list_fmap] in Hdv.
    rewrite Hdv, Hv. unfold long_saturate. f_equal. rewrite i32_id; unfold in_i32; lia.
  - destruct (print_decimal z) as (d & ds & -> & Hds & Hv); [lia|].
    destruct (digit_char_decimal d (Forall_inv Hds)) as (_ & Hs & _ & Hm & Hp).
    unfold scan_d. cbn [fmap list_fmap skip_spaces]. rewrite Hs, Hm, Hp.
    pose proof (span_digits_spec (d :: ds) Hds) as Hsp. pose proof (digits_value_spec (d :: ds) Hds) as Hdv.
    cbn [fmap list_fmap] in Hsp, Hdv. rewrite Hsp. cbn [fst].
    rewrite Hdv, Hv. unfold long_saturate. f_equal. rewrite i32_id; unfold in_i32; lia.
Qed.

#[export] Hint Resolve bval_range u32_range i32_range : anbox.


Lemma starts_with_spec l p : starts_with l p = true <-> exists k, l = p ++ k.
Proof.
  revert l; induction p as [|b p IH]; intros [|c l]; simpl.
  - split; [by exists []|done].
  - split; [by exists (c :: l)|done].
  - split; [done|]. intros [k ?]; simplify_eq.
  - rewrite andb_true_iff, IH. split.
    + intros [Hb [k ->]]. apply Byte.byte_dec_bl in Hb as ->. by exists k.
    + intros [k ?]; simplify_eq. split; [by apply Byte.byte_dec_lb|by exists k].
Qed.

Lemma starts_with_app p k : starts_with (p ++ k) p = true.
Proof. apply starts_with_spec. by exists k. Qed.

Lemma by_key_perm {A} (p : gmap Z A) : by_key p ≡ₚ map_to_list p.
Proof. apply merge_sort_Permutation. Qed.

Lemma elem_of_by_key {A} (p : gmap Z A) k a : (k, a) ∈ by_key p <-> p !! k = Some a.
Proof. by rewrite by_key_perm, elem_of_map_to_list. Qed.

(** * Lemmas: outcomes *)

Lemma obind_ret {A B} (o : outcome A) (f : A -> outcome B) b :
  obind o f = Ret b <-> exists a, o = Ret a /\ f a = Ret b.
Proof.
  destruct o; simpl; split; try (intros (a' & ? & ?); simplify_eq; done); try done; eauto.
Qed.

Lemma obind_assoc {A B C} (o : outcome A) (f : A -> outcome B) (g : B -> outcome C) :
  obind (obind o f) g = obind o (fun a => obind (f a) g).
Proof. by destruct o. Qed.

Lemma wp_bind {A B} (o : outcome A) (f : A -> outcome B) P :
  wp o (fun a => wp (f a) P) -> wp (obind o f) P.
Proof. by destruct o. Qed.

Lemma wp_mono {A} (o : outcome A) (P Q : A -> Prop) :
  wp o P -> (forall a, P a -> Q a) -> wp o Q.
Proof. destruct o; simpl; naive_solver. Qed.

Lemma wp_ret {A} (a : A) (P : A -> Prop) : P a -> wp (Ret a) P.
Proof. done. Qed.

(** * Lemmas: stateful calls *)

Lemma M_bind_ret {St A B} (c : M St A) (f : A -> M St B) s s' a :
  c s = (s', Ret a) -> (c ≫= f) s = f a s'.
Proof. intros H. unfold mbind, M_bind. by rewrite H. Qed.

Lemma M_bind_ret_inv {St A B} (c : M St A) (f : A -> M St B) s s' b :
  (c ≫= f) s = (s', Ret b) -> exists s1 a, c s = (s1, Ret a) /\ f a s1 = (s', Ret b).
Proof. unfold mbind, M_bind. destruct (c s) as [s1 []]; intros; simplify_eq; eauto. Qed.

(** Preservation of a state predicate by a call, whatever its outcome. *)
Definition keeps {St A} (P : St -> Prop) (c : M St A) : Prop := forall s, P s -> P (c s).1.

Lemma keeps_ret {St A} (P : St -> Prop) (a : A) : keeps P (mret a).
Proof. by intros s. Qed.
Lemma keeps_lift {St A} (P : St -> Prop) (o : outcome A) : keeps P (lift o).
Proof. by intros s. Qed.
Lemma keeps_get {St} (P : St -> Prop) : keeps P get.
Proof. by intros s. Qed.
Lemma keeps_modify {St} (P : St -> Prop) f : (forall s, P s -> P (f s)) -> keeps P (modify f).
Proof. intros H s. apply H. Qed.
Lemma keeps_bind {St A B} (P : St -> Prop) (c : M St A) (f : A -> M St B) :
  keeps P c -> (forall a, keeps P (f a)) -> keeps P (c ≫= f).
Proof.
  intros Hc Hf s Hs. specialize (Hc s Hs). unfold mbind, M_bind.
  destruct (c s) as [s' []]; simpl in *; try done. by apply Hf.
Qed.
Lemma keeps_for_each {St A} (P : St -> Prop) (f : A -> M St unit) l :
  (forall x, keeps P (f x)) -> keeps P (for_each f l).
Proof.
  intros Hf. induction l; simpl; [apply keeps_ret|]. apply keeps_bind; [apply Hf|done].
Qed.
(** Total correctness of a call: from [P] it returns, with a value and a state
    satisfying [Q]. *)
Definition returns {St A} (P : St -> Prop) (c : M St A) (Q : A -> St -> Prop) : Prop :=
  forall s, P s -> exists s' a, c s = (s', Ret a) /\ Q a s'.

Lemma returns_ret {St A} (P : St -> Prop) (Q : A -> St -> Prop) a :
  (forall s, P s -> Q a s) -> returns P (mret a) Q.
Proof. intros H s Hs. exists s, a. auto. Qed.
Lemma returns_get {St} (P : St -> Prop) (Q : St -> St -> Prop) :
  (forall s, P s -> Q s s) -> returns P get Q.
Proof. intros H s Hs. exists s, s. auto. Qed.
Lemma returns_modify {St} (P : St -> Prop) (Q : unit -> St -> Prop) f :
  (forall s, P s -> Q tt (f s)) -> returns P (modify f) Q.
Proof. intros H s Hs. exists (f s), tt. auto. Qed.
Lemma returns_bind {St A B} (P : St -> Prop) (R : A -> St -> Prop) (Q : B -> St -> Prop) c f :
  returns P c R -> (forall a, returns (R a) (f a) Q) -> returns P (c ≫= f) Q.
Proof.
  intros Hc Hf s Hs. destruct (Hc s Hs) as (s1 & a & H1 & Ha).
  destruct (Hf a s1 Ha) as (s' & b & H2 & Hb). exists s', b. split; [|done].
  by rewrite (M_bind_ret c f s s1 a).
Qed.
Lemma returns_pure {St A} (P : St -> Prop) (Q : A -> St -> Prop) c (X : Prop) :
  returns P c Q -> returns (fun s => P s /\ X) c (fun a s => Q a s /\ X).
Proof. intros H s [Hs HX]. destruct (H s Hs) as (s' & a & ? & ?). by exists s', a. Qed.
Lemma returns_weaken {St A} (P P' : St -> Prop) (Q Q' : A -> St -> Prop) c :
  returns P' c Q' -> (forall s, P s -> P' s) -> (forall a s, Q' a s -> Q a s) -> returns P c Q.
Proof.
  intros H HP HQ s Hs. destruct (H s (HP s Hs)) as (s' & a & Hc & Hq). exists s', a. auto.
Qed.

#[export] Hint Resolve keeps_ret keeps_lift keeps_get keeps_bind keeps_for_each : anbox.

(** * Lemmas: loops *)

Section loops.
Context {S R : Type} (step : S -> S + R) (mu : S -> nat).

Lemma loop_mono n m s r : (n <= m)%nat -> loop n step s = Some r -> loop m step s = Some r.
Proof.
  revert m s; induction n as [|n IH]; intros [|m] s Hle; simpl; try done; [lia|].
  destruct (step s); [|done]. apply IH. lia.
Qed.

(** Total correctness of a loop: the body keeps [I] and decreases [mu], or
    leaves the loop with a result satisfying [Q]; enough fuel is more than
    the initial measure. *)
Lemma loop_spec (I : S -> Prop) (Q : R -> Prop) n s :
  (forall s, I s -> match step s with
                    | inl s' => I s' /\ (mu s' < mu s)%nat
                    | inr r => Q r
                    end) ->
  I s -> (mu s < n)%nat -> exists r, loop n step s = Some r /\ Q r.
Proof.
  intros Hb. revert s; induction n as [|n IH]; intros s HI Hn; [lia|]. simpl.
  pose proof (Hb s HI) as Hs. destruct (step s) as [s'|r]; [|by eauto].
  destruct Hs. apply IH; [done|lia].
Qed.
End loops.
