(* ===== verification/SmallVector.v ===== *)
(** [anbox::common::SmallVector] and [SmallFixedVector]
    (common/small_vector.h): the small-buffer vector behind every data buffer
    of the host.  The object, its in-place array and the malloc'ed blocks are
    modelled as they are laid out, for element types that are trivially
    destructible and whose moved-from value is unchanged (the only
    instantiations are [SmallFixedVector<char, 512>]), so the theorems speak
    about leaks, double frees and out-of-bounds writes as well as about
    contents. *)

From S2P Require Import Prelude.

Section small_vector.
Context {T : Type} (dflt : T) (kSmallSize : nat).

(** [malloc]: the address of a block that is not in use, or null. *)
Abbreviation cells := (list (option T)).
Abbreviation heap := (gmap nat cells).
Context (malloc : heap -> nat -> option nat).

(** [mBegin] points to the in-place array or to a malloc'ed block; [mEnd] is
    kept as its offset from [mBegin]; [mData] is the union's array.  A cell
    holding no constructed element is [None]. *)
Inductive storage := InPlace | OnHeap (p : nat).
#[global] Instance storage_eq_dec : EqDecision storage.
Proof. solve_decision. Defined.

Record vec := Vec {
  mBegin : storage;
  mEnd : nat;
  mCapacity : nat;
  mData : cells
}.

(** The block [mBegin] points to; a dangling pointer is undefined. *)
Definition block (h : heap) (v : vec) : outcome cells :=
  match mBegin v with
  | InPlace => Ret (mData v)
  | OnHeap p => match h !! p with Some b => Ret b | None => Undef end
  end.

Definition set_block (h : heap) (v : vec) (b : cells) : heap * vec :=
  match mBegin v with
  | InPlace => (h, Vec InPlace (mEnd v) (mCapacity v) b)
  | OnHeap p => (<[p:=b]> h, v)
  end.

(** [std::uninitialized_copy] of [src] to offset [i] of a block. *)
Definition blit (b : cells) (i : nat) (src : cells) : outcome cells :=
  if (i + length src <=? length b)%nat
  then Ret (take i b ++ src ++ drop (i + length src) b)
  else Undef.

(** The elements [begin() .. end()]. *)
Definition elems (h : heap) (v : vec) : outcome cells :=
  b <-! block h v;
  if (mEnd v <=? length b)%nat then Ret (take (mEnd v) b) else Undef.

Definition size (v : vec) : nat := mEnd v.
Definition capacity (v : vec) : nat := mCapacity v.
Definition empty (v : vec) : bool := (mEnd v =? 0)%nat.

Definition isAllocated (v : vec) : bool :=
  match mBegin v with InPlace => false | OnHeap _ => true end.

Definition free (h : heap) (p : nat) : outcome heap :=
  match h !! p with Some _ => Ret (delete p h) | None => Undef end.

(** Destructors of trivially destructible elements do nothing. *)
Definition dtor (h : heap) (v : vec) : outcome heap :=
  match mBegin v with
  | InPlace => Ret h
  | OnHeap p => free h p
  end.

Definition set_capacity (h : heap) (v : vec) (newCap : nat) : outcome (heap * vec) :=
  match malloc h newCap with
  | None => Aborted
  | Some p =>
      es <-! elems h v;
      b <-! blit (replicate newCap None) 0 es;
      h' <-! dtor (<[p:=b]> h) v;
      Ret (h', Vec (OnHeap p) (length es) newCap (mData v))
  end.

Definition grow_for_size (h : heap) (v : vec) (newSize : nat) : outcome (heap * vec) :=
  if (capacity v <? newSize)%nat
  then set_capacity h v (newSize `max` (capacity v + capacity v `div` 2))
  else Ret (h, v).

Definition with_end (v : vec) (n : nat) : vec :=
  Vec (mBegin v) n (mCapacity v) (mData v).

(** Constructs [src] at [mEnd] and moves [mEnd] past it. *)
Definition append (h : heap) (v : vec) (src : cells) : outcome (heap * vec) :=
  b <-! block h v;
  b' <-! blit b (mEnd v) src;
  let '(h', v') := set_block h v b' in
  Ret (h', with_end v' (mEnd v + length src)).

Definition emplace_back (h : heap) (v : vec) (x : T) : outcome (heap * vec) :=
  hv <-! grow_for_size h v (size v + 1);
  append hv.1 hv.2 [Some x].

Definition clear (h : heap) (v : vec) : outcome (heap * vec) :=
  Ret (h, with_end v 0).

Definition reserve (h : heap) (v : vec) (newCap : nat) : outcome (heap * vec) :=
  if (newCap <=? capacity v)%nat then Ret (h, v) else set_capacity h v newCap.

(** [resize_impl<init>]: without [init] the new elements are whatever the
    block holds there. *)
Definition resize_impl (init : bool) (h : heap) (v : vec) (newSize : nat)
    : outcome (heap * vec) :=
  if (newSize <? size v)%nat then Ret (h, with_end v newSize)
  else if (size v <? newSize)%nat then
    hv <-! grow_for_size h v newSize;
    if init then append hv.1 hv.2 (replicate (newSize - size v) (Some dflt))
    else Ret (hv.1, with_end hv.2 newSize)
  else Ret (h, v).

Definition insert_back (h : heap) (v : vec) (src : cells) : outcome (heap * vec) :=
  match src with
  | [] => Ret (h, v)
  | _ => hv <-! grow_for_size h v (size v + length src); append hv.1 hv.2 src
  end.

(** [SmallFixedVector]: constructors and assignments. *)
Definition init_inplace (v : vec) : vec := Vec InPlace 0 kSmallSize (mData v).

Definition ctor_default : vec := Vec InPlace 0 kSmallSize (replicate kSmallSize None).

Definition ctor_range (h : heap) (src : cells) : outcome (heap * vec) :=
  insert_back h ctor_default src.

Definition ctor_copy (h : heap) (other : vec) : outcome (heap * vec) :=
  es <-! elems h other; ctor_range h es.

(** Returns the heap, the new object and what is left in [other]. *)
Definition ctor_move (h : heap) (other : vec) : outcome (heap * vec * vec) :=
  if isAllocated other then
    Ret (h, Vec (mBegin other) (mEnd other) (mCapacity other) (replicate kSmallSize None),
         init_inplace other)
  else
    es <-! elems h other;
    b <-! blit (replicate kSmallSize None) 0 es;
    Ret (h, Vec InPlace (length es) kSmallSize b, other).

(** Copy assignment from a different object. *)
Definition assign_copy (h : heap) (this other : vec) : outcome (heap * vec) :=
  hv <-! clear h this;
  es <-! elems hv.1 other;
  insert_back hv.1 hv.2 es.

(** Move assignment from a different object. *)
Definition assign_move (h : heap) (this other : vec) : outcome (heap * vec * vec) :=
  if isAllocated other then
    h' <-! dtor h this;
    Ret (h', Vec (mBegin other) (mEnd other) (mCapacity other) (mData this),
         init_inplace other)
  else
    hv <-! (if isAllocated this && (mCapacity this <? size other)%nat
            then h' <-! dtor h this; Ret (h', init_inplace this)
            else Ret (h, this));
    es <-! elems hv.1 other;
    hv' <-! append hv.1 (with_end hv.2 0) es;
    Ret (hv'.1, hv'.2, other).

(** * Objects sharing one heap *)

Inductive op :=
  | OpNew (a : nat)
  | OpRange (a : nat) (src : list T)
  | OpCopyNew (a b : nat)
  | OpMoveNew (a b : nat)
  | OpPush (a : nat) (x : T)
  | OpClear (a : nat)
  | OpReserve (a n : nat)
  | OpResize (init : bool) (a n : nat)
  | OpInsert (a : nat) (src : list T)
  | OpAssign (a b : nat)
  | OpMoveAssign (a b : nat)
  | OpDestroy (a : nat).

Record pool := Pool { objs : gmap nat vec; hp : heap }.

Definition live (s : pool) (a : nat) : outcome vec :=
  match objs s !! a with Some v => Ret v | None => Undef end.
Definition dead (s : pool) (a : nat) : outcome unit :=
  match objs s !! a with Some _ => Undef | None => Ret tt end.
Definition put (s : pool) (a : nat) (hv : heap * vec) : pool :=
  Pool (<[a:=hv.2]> (objs s)) hv.1.
Definition distinct (a b : nat) : outcome unit := if decide (a = b) then Undef else Ret tt.

Definition run (s : pool) (o : op) : outcome pool :=
  match o with
  | OpNew a => _ <-! dead s a; Ret (put s a (hp s, ctor_default))
  | OpRange a src =>
      _ <-! dead s a; r <-! ctor_range (hp s) (Some <$> src); Ret (put s a r)
  | OpCopyNew a b =>
      _ <-! dead s a; w <-! live s b; r <-! ctor_copy (hp s) w; Ret (put s a r)
  | OpMoveNew a b =>
      _ <-! dead s a; w <-! live s b;
      r <-! ctor_move (hp s) w;
      Ret (Pool (<[a:=r.1.2]> (<[b:=r.2]> (objs s))) r.1.1)
  | OpPush a x => v <-! live s a; r <-! emplace_back (hp s) v x; Ret (put s a r)
  | OpClear a => v <-! live s a; r <-! clear (hp s) v; Ret (put s a r)
  | OpReserve a n => v <-! live s a; r <-! reserve (hp s) v n; Ret (put s a r)
  | OpResize i a n => v <-! live s a; r <-! resize_impl i (hp s) v n; Ret (put s a r)
  | OpInsert a src =>
      v <-! live s a; r <-! insert_back (hp s) v (Some <$> src); Ret (put s a r)
  | OpAssign a b =>
      v <-! live s a; w <-! live s b; _ <-! distinct a b;
      r <-! assign_copy (hp s) v w; Ret (put s a r)
  | OpMoveAssign a b =>
      v <-! live s a; w <-! live s b; _ <-! distinct a b;
      r <-! assign_move (hp s) v w;
      Ret (Pool (<[a:=r.1.2]> (<[b:=r.2]> (objs s))) r.1.1)
  | OpDestroy a => v <-! live s a; h <-! dtor (hp s) v; Ret (Pool (delete a (objs s)) h)
  end.
End small_vector.

(** * Representation of a vector by the list of its elements *)

Section proofs.
Context {T : Type} (dflt : T) (kSmallSize : nat).
Abbreviation cells := (list (option T)).
Abbreviation heap := (gmap nat cells).
Context (malloc : heap -> nat -> option nat).
Hypothesis malloc_fresh : forall h n p, malloc h n = Some p -> h !! p = None.

Implicit Types (h : heap) (v : vec (T := T)) (l b src : cells) (p : nat).

(** [v] is well formed in [h] and holds the elements [l]. *)
Definition rep h v l : Prop :=
  length (mData v) = kSmallSize /\
  (mBegin v = InPlace -> mCapacity v = kSmallSize) /\
  exists b, block h v = Ret b /\ length b = mCapacity v /\
            mEnd v <= mCapacity v /\ l = take (mEnd v) b.

(** The block that an object (if it exists) owns. *)
Definition owns (ov : option (vec (T := T))) p : Prop :=
  exists v, ov = Some v /\ mBegin v = OnHeap p.

(** An operation turned one object's [ov] into [ov']: only blocks it owns, or
    that were free, changed, and what it no longer owns was freed. *)
Definition upd h ov h' ov' : Prop :=
  forall p,
    (owns ov p \/ owns ov' p \/ h' !! p = h !! p) /\
    (owns ov' p -> owns ov p \/ h !! p = None) /\
    (owns ov p -> owns ov' p \/ h' !! p = None).

Lemma blit_wp b i src (P : cells -> Prop) :
  i + length src <= length b ->
  (forall b', length b' = length b -> take (i + length src) b' = take i b ++ src -> P b') ->
  wp (blit b i src) P.
Proof.
  intros Hle HP. unfold blit. destruct (Nat.leb_spec (i + length src) (length b)); [|lia].
  apply HP; [slen|].
  rewrite (app_assoc (take i b) src), take_app_length'; [done|slen].
Qed.

Lemma rep_intro h v b l :
  length (mData v) = kSmallSize -> (mBegin v = InPlace -> mCapacity v = kSmallSize) ->
  block h v = Ret b -> length b = mCapacity v -> mEnd v <= mCapacity v ->
  take (mEnd v) b = l -> rep h v l.
Proof. intros ? ? ? ? ? <-. split; [done|]. split; [done|]. by exists b. Qed.

Lemma elems_wp h v l (P : cells -> Prop) : rep h v l -> P l -> wp (elems h v) P.
Proof.
  intros (_ & _ & b & Hb & Hlen & Hle & ->) HP. unfold elems. rewrite Hb. simpl.
  destruct (Nat.leb_spec (mEnd v) (length b)); [done|lia].
Qed.

Lemma rep_length h v l : rep h v l -> length l = mEnd v.
Proof. intros (_ & _ & b & _ & ? & ? & ->). slen. Qed.

Lemma upd_refl h v v' : mBegin v' = mBegin v -> upd h (Some v) h (Some v').
Proof.
  intros Hv p. unfold owns.
  split; [by auto|]. split; intros (w & ? & ?); simplify_eq; left; eexists; split; eauto;
    congruence.
Qed.

Lemma owns_some v p : owns (Some v) p <-> mBegin v = OnHeap p.
Proof. unfold owns. naive_solver. Qed.
Lemma owns_none p : owns None p <-> False.
Proof. unfold owns. naive_solver. Qed.

Lemma owns_dec ov p : {owns ov p} + {~ owns ov p}.
Proof.
  destruct ov as [v|]; [|right; by intros ?%owns_none].
  destruct (decide (mBegin v = OnHeap p)); [left|right]; by rewrite owns_some.
Qed.

Lemma dtor_wp h v l : rep h v l -> wp (dtor h v) (fun h' => upd h (Some v) h' None).
Proof.
  intros (_ & _ & b & Hb & _). unfold dtor, block in *.
  destruct (mBegin v) as [|p] eqn:Ev; simpl.
  - intros q. rewrite owns_some, owns_none, Ev. naive_solver.
  - unfold free. destruct (h !! p) as [c|] eqn:Ep; [|done]. simpl.
    intros q. rewrite owns_some, owns_none, Ev.
    destruct (decide (p = q)) as [->|Hne].
    + rewrite lookup_delete_eq. naive_solver.
    + rewrite lookup_delete_ne by done. naive_solver.
Qed.

(** Postcondition of an operation on one object. *)
Definition becomes h v (Q : cells -> Prop) (r : heap * vec (T := T)) : Prop :=
  exists l', rep r.1 r.2 l' /\ Q l' /\ upd h (Some v) r.1 (Some r.2).

Lemma set_capacity_wp h v l n :
  rep h v l -> length l <= n ->
  wp (set_capacity malloc h v n)
    (fun r => becomes h v (fun l' => l' = l) r /\ mCapacity r.2 = n).
Proof.
  intros Hrep Hle. unfold set_capacity.
  destruct (malloc h n) as [p|] eqn:Em; [|done].
  apply malloc_fresh in Em.
  apply wp_bind, (elems_wp _ _ _ _ Hrep), wp_bind, blit_wp; [slen|].
  intros b Hb Htk. apply wp_bind. simpl in Htk.
  assert (Hp : mBegin v <> OnHeap p).
  { destruct Hrep as (_ & _ & c & Hc & _). unfold block in Hc. intros E.
    rewrite E, Em in Hc. done. }
  assert (Hrep' : rep (<[p:=b]> h) v l).
  { destruct Hrep as (? & ? & c & Hc & ?). split; [done|]. split; [done|].
    exists c. split; [|done]. unfold block in *.
    destruct (mBegin v) as [|q]; [done|].
    rewrite lookup_insert_ne by congruence. done. }
  eapply wp_mono; [apply (dtor_wp _ _ _ Hrep')|].
  intros h' Hupd. simpl. split; [|done]. exists l. split; [|split; [done|]].
  - destruct Hrep as (? & _). split; [done|]. split; [done|]. exists b.
    split; [|split; [slen|split; [done|]]].
    + unfold block; simpl. destruct (Hupd p) as ([Ho|[Ho|Ho]] & _).
      * apply owns_some in Ho. congruence.
      * by apply owns_none in Ho.
      * rewrite Ho, lookup_insert_eq. done.
    + simpl. rewrite Htk. done.
  - intros q. destruct (Hupd q) as (HA & HB & HC). rewrite !owns_some, ?owns_none in *. simpl.
    destruct (decide (p = q)) as [->|Hne]; [naive_solver|].
    rewrite lookup_insert_ne in HA by done. naive_solver.
Qed.

Lemma grow_wp h v l n :
  rep h v l -> length l <= n ->
  wp (grow_for_size malloc h v n)
    (fun r => becomes h v (fun l' => l' = l) r /\ n <= mCapacity r.2).
Proof.
  intros Hrep Hle. unfold grow_for_size, capacity.
  destruct (Nat.ltb_spec (mCapacity v) n).
  - eapply wp_mono; [apply (set_capacity_wp _ _ _ _ Hrep); lia|].
    intros r [? ->]. split; [done|lia].
  - simpl. split; [|done]. exists l. split; [done|]. split; [done|]. by apply upd_refl.
Qed.

Lemma becomes_trans h v Q (r r' : heap * vec) :
  upd h (Some v) r.1 (Some r.2) -> becomes r.1 r.2 Q r' -> becomes h v Q r'.
Proof.
  intros H1 (l' & ? & ? & H2). exists l'. split; [done|]. split; [done|].
  intros p. destruct (H1 p) as (A1 & A2 & A3), (H2 p) as (B1 & B2 & B3).
  destruct (decide (mBegin v = OnHeap p)) as [E1|E1];
    destruct (decide (mBegin r.2 = OnHeap p)) as [E2|E2];
    destruct (decide (mBegin r'.2 = OnHeap p)) as [E3|E3];
    rewrite !owns_some in *; intuition congruence.
Qed.

Lemma rep_with_end h v l n : rep h v l -> n <= length l -> rep h (with_end v n) (take n l).
Proof.
  intros Hrep Hn. pose proof (rep_length _ _ _ Hrep).
  destruct Hrep as (? & ? & b & Hb & ? & ? & ->). split; [done|]. split; [done|].
  exists b. split; [done|]. split; [done|]. split; [simpl; lia|].
  rewrite take_take. f_equal. simpl. lia.
Qed.

Lemma append_wp h v l src :
  rep h v l -> length l + length src <= mCapacity v ->
  wp (append h v src) (becomes h v (fun l' => l' = l ++ src)).
Proof.
  intros Hrep Hle. pose proof (rep_length _ _ _ Hrep) as Hl.
  destruct Hrep as (Hd & Hc & b & Hb & Hlb & Hend & ->). unfold append.
  rewrite Hb. cbn [obind]. apply wp_bind, blit_wp; [lia|]. intros b' Hb' Htk.
  unfold set_block, block in *. destruct (mBegin v) as [|p] eqn:Ev; simpl.
  - simplify_eq. eexists. split; [|split; [reflexivity|by apply upd_refl]].
    apply (rep_intro _ _ b'); simpl; try done; try lia; congruence.
  - destruct (h !! p) as [c|] eqn:Ep; simplify_eq.
    eexists. split; [|split; [reflexivity|]].
    + apply (rep_intro _ _ b'); simpl; try done; try lia; try congruence.
      unfold block; simpl. by rewrite Ev, lookup_insert_eq.
    + intros q. rewrite !owns_some. simpl. rewrite Ev. split; [|by auto].
      destruct (decide (p = q)) as [->|]; [by auto|]. rewrite lookup_insert_ne by done. auto.
Qed.

(** Growing and appending is [l ++ src]. *)
Lemma grow_append_wp h v l src n :
  rep h v l -> n = length l + length src ->
  wp (hv <-! grow_for_size malloc h v n; append hv.1 hv.2 src)
    (becomes h v (fun l' => l' = l ++ src)).
Proof.
  intros Hrep ->. apply wp_bind. eapply wp_mono; [apply (grow_wp _ _ _ _ Hrep); lia|].
  intros r [(l1 & Hr & -> & Hu) Hcap].
  eapply wp_mono; [apply (append_wp _ _ _ _ Hr Hcap)|].
  intros r'. by apply becomes_trans.
Qed.

Lemma rep_grow_end h v l n :
  rep h v l -> length l <= n <= mCapacity v ->
  exists junk, length junk = n - length l /\ rep h (with_end v n) (l ++ junk).
Proof.
  intros Hrep Hn. pose proof (rep_length _ _ _ Hrep).
  destruct Hrep as (? & ? & b & ? & ? & ? & ->).
  exists (take (n - mEnd v) (drop (mEnd v) b)). split; [slen|].
  apply (rep_intro _ _ b); simpl; try done; try lia.
  rewrite take_take_drop. f_equal. slen.
Qed.

(** What [resize]/[resize_noinit] does to the contents. *)
Definition resized (init : bool) (n : nat) l l' : Prop :=
  if (n <? length l) then l' = take n l
  else exists junk, l' = l ++ junk /\ length junk = n - length l /\
                    (init = true -> junk = replicate (n - length l) (Some dflt)).

Lemma becomes_same h v l : rep h v l -> becomes h v (fun l' => l' = l) (h, v).
Proof. intros. exists l. split; [done|]. split; [done|]. by apply upd_refl. Qed.

Lemma resize_wp init h v l n :
  rep h v l -> wp (resize_impl dflt malloc init h v n) (becomes h v (resized init n l)).
Proof.
  intros Hrep. pose proof (rep_length _ _ _ Hrep) as Hl.
  unfold resize_impl, size, resized. rewrite <- Hl.
  destruct (Nat.ltb_spec n (length l)) as [|Hge].
  { exists (take n l). split; [by apply rep_with_end; [|lia]|]. split; [done|].
    by apply upd_refl. }
  destruct (Nat.ltb_spec (length l) n).
  - apply wp_bind. eapply wp_mono; [apply (grow_wp _ _ _ _ Hrep); lia|].
    intros r [(l1 & Hr & -> & Hu) Hcap]. destruct init.
    + eapply wp_mono; [apply (append_wp _ _ _ _ Hr); slen|]. intros r' Hr'.
      eapply becomes_trans; [done|]. destruct Hr' as (l' & ? & -> & ?).
      eexists. split; [done|]. split; [|done]. eexists. split; [done|]. split; [slen|done].
    + destruct (rep_grow_end _ _ _ n Hr) as (junk & ? & ?); [lia|].
      eapply becomes_trans; [done|]. exists (l ++ junk). simpl.
      split; [done|]. split; [by exists junk|]. by apply upd_refl.
  - apply wp_ret. exists l. split; [done|]. split; [|by apply upd_refl].
    exists []. rewrite app_nil_r. split; [done|]. simpl. split; [lia|].
    intros _. by replace (n - length l) with 0 by lia.
Qed.

Lemma reserve_wp h v l n :
  rep h v l -> wp (reserve malloc h v n) (becomes h v (fun l' => l' = l)).
Proof.
  intros Hrep. unfold reserve, capacity.
  destruct (Nat.leb_spec n (mCapacity v)); [by apply becomes_same|].
  eapply wp_mono; [apply (set_capacity_wp _ _ _ _ Hrep)|naive_solver].
  rewrite (rep_length _ _ _ Hrep). destruct Hrep as (_ & _ & b & _ & ? & ? & _). lia.
Qed.

Lemma insert_back_wp h v l src :
  rep h v l -> wp (insert_back malloc h v src) (becomes h v (fun l' => l' = l ++ src)).
Proof.
  intros Hrep. destruct src as [|x src]; unfold insert_back.
  - rewrite app_nil_r. by apply becomes_same.
  - apply (grow_append_wp _ _ _ _ _ Hrep). unfold size. by rewrite (rep_length _ _ _ Hrep).
Qed.

Lemma emplace_back_wp h v l x :
  rep h v l -> wp (emplace_back malloc h v x) (becomes h v (fun l' => l' = l ++ [Some x])).
Proof.
  intros Hrep. apply (grow_append_wp _ _ _ _ _ Hrep).
  unfold size. by rewrite (rep_length _ _ _ Hrep).
Qed.

Lemma clear_wp h v l : rep h v l -> wp (clear h v) (becomes h v (fun l' => l' = [])).
Proof.
  intros Hrep. exists (take 0 l). split; [apply rep_with_end; [done|lia]|].
  split; [done|]. by apply upd_refl.
Qed.

Lemma assign_copy_wp h v w l lw :
  rep h v l -> rep h w lw -> wp (assign_copy malloc h v w) (becomes h v (fun l' => l' = lw)).
Proof.
  intros Hv Hw. unfold assign_copy, clear. cbn [obind fst snd].
  apply wp_bind, (elems_wp _ _ _ _ Hw).
  eapply wp_mono.
  - apply (insert_back_wp _ _ (take 0 l)). apply rep_with_end; [done|lia].
  - intros r. apply (becomes_trans h v _ (h, with_end v 0)). by apply upd_refl.
Qed.

(** ** Inline objects own no block *)

Lemma upd_inline h h' ov v ov' :
  mBegin v = InPlace -> upd h (Some v) h' ov' -> ov = None -> upd h ov h' ov'.
Proof.
  intros Ev Hu -> p. destruct (Hu p) as (A & B & C).
  rewrite owns_some, ?owns_none, Ev in *. intuition congruence.
Qed.

Lemma rep_default h : rep h (ctor_default kSmallSize) [].
Proof. apply (rep_intro _ _ (replicate kSmallSize None)); simpl; slen || done. Qed.

Definition born h (Q : cells -> Prop) (r : heap * vec (T := T)) : Prop :=
  exists l', rep r.1 r.2 l' /\ Q l' /\ upd h None r.1 (Some r.2).

Lemma born_becomes h v Q r : mBegin v = InPlace -> becomes h v Q r -> born h Q r.
Proof.
  intros Ev (l' & ? & ? & ?). exists l'. split; [done|]. split; [done|].
  by eapply upd_inline.
Qed.

Lemma ctor_range_wp h src :
  wp (ctor_range kSmallSize malloc h src) (born h (fun l' => l' = src)).
Proof.
  eapply wp_mono; [apply (insert_back_wp _ _ _ _ (rep_default h))|].
  intros r. by apply born_becomes.
Qed.

Lemma ctor_copy_wp h w lw :
  rep h w lw -> wp (ctor_copy kSmallSize malloc h w) (born h (fun l' => l' = lw)).
Proof. intros Hw. apply wp_bind, (elems_wp _ _ _ _ Hw), ctor_range_wp. Qed.

(** * The pool of objects refines a map of lists *)

Definition rep_opt h (ov : option (vec (T := T))) (ol : option cells) : Prop :=
  match ov, ol with
  | Some v, Some l => rep h v l
  | None, None => True
  | _, _ => False
  end.

(** Every object is well formed, no block has two owners, and every block of
    the heap has an owner (nothing has leaked). *)
Record pool_inv (s : pool (T := T)) (m : gmap nat cells) : Prop := {
  inv_rep : forall a, rep_opt (hp s) (objs s !! a) (m !! a);
  inv_uniq : forall (a b : nat) p, owns (objs s !! a) p -> owns (objs s !! b) p -> a = b;
  inv_noleak : forall p, is_Some (hp s !! p) -> exists a, owns (objs s !! a) p
}.

Lemma owns_allocated s m a p : pool_inv s m -> owns (objs s !! a) p -> is_Some (hp s !! p).
Proof.
  intros Hinv (v & Ev & Ep). pose proof (inv_rep _ _ Hinv a) as Hr. rewrite Ev in Hr.
  destruct (m !! a); [|done]. destruct Hr as (_ & _ & b & Hb & _).
  unfold block in Hb. rewrite Ep in Hb. destruct (hp s !! p); [by eauto|done].
Qed.

Lemma rep_frame h h' v l :
  rep h v l -> (forall p, mBegin v = OnHeap p -> h' !! p = h !! p) -> rep h' v l.
Proof.
  intros (? & ? & b & Hb & ?) Hf. split; [done|]. split; [done|]. exists b. split; [|done].
  unfold block in *. destruct (mBegin v) as [|p]; [done|]. by rewrite Hf.
Qed.

Lemma pool_upd s m a h' ov' ol' :
  pool_inv s m -> upd (hp s) (objs s !! a) h' ov' -> rep_opt h' ov' ol' ->
  pool_inv (Pool (partial_alter (fun _ => ov') a (objs s)) h')
           (partial_alter (fun _ => ol') a m).
Proof.
  intros Hinv Hu Hr.
  assert (Hother : forall c p, c <> a -> owns (objs s !! c) p ->
            h' !! p = hp s !! p /\ ~ owns ov' p).
  { intros c p Hc Ho. pose proof (owns_allocated _ _ _ _ Hinv Ho) as [b Hb].
    assert (~ owns (objs s !! a) p) by (intros ?; apply Hc; by eapply inv_uniq).
    destruct (Hu p) as (A & B & _). rewrite Hb in B. split; [|naive_solver].
    destruct A as [?|[?|?]]; [done|naive_solver|done]. }
  split; simpl.
  - intros c. destruct (decide (c = a)) as [->|Hc].
    + by rewrite !lookup_partial_alter_eq.
    + rewrite !lookup_partial_alter_ne by done. pose proof (inv_rep _ _ Hinv c) as Hrc.
      destruct (objs s !! c) as [v|] eqn:Ec, (m !! c); simpl in *; try done.
      eapply rep_frame; [done|]. intros p Hp.
      apply (Hother c p Hc). rewrite Ec. by apply owns_some.
  - intros c d p. destruct (decide (c = a)) as [->|Hc], (decide (d = a)) as [->|Hd];
      rewrite ?lookup_partial_alter_eq, ?lookup_partial_alter_ne by done; intros Ho1 Ho2.
    + done.
    + by destruct (Hother _ _ Hd Ho2).
    + by destruct (Hother _ _ Hc Ho1).
    + by eapply inv_uniq.
  - intros p Hp. destruct (Hu p) as (A & B & C).
    destruct (owns_dec ov' p) as [Ho|Ho].
    { exists a. by rewrite lookup_partial_alter_eq. }
    destruct Hp as [b Hb].
    assert (~ owns (objs s !! a) p) by naive_solver.
    assert (Heq : h' !! p = hp s !! p) by naive_solver.
    destruct (inv_noleak _ _ Hinv p) as [c Hc]; [rewrite <- Heq; by eauto|].
    exists c. rewrite lookup_partial_alter_ne; [done|]. by intros ->.
Qed.

Lemma init_inplace_rep h v :
  length (mData v) = kSmallSize -> rep h (init_inplace kSmallSize v) [].
Proof. intros Hd. apply (rep_intro _ _ (mData v)); simpl; done || lia. Qed.

Lemma pool_transfer s m (a b : nat) w l dat :
  pool_inv s m -> objs s !! a = None -> objs s !! b = Some w -> m !! b = Some l ->
  isAllocated w = true -> length dat = kSmallSize ->
  pool_inv (Pool (<[a:=Vec (mBegin w) (mEnd w) (mCapacity w) dat]>
                   (<[b:=init_inplace kSmallSize w]> (objs s))) (hp s))
           (<[a:=l]> (<[b:=[]]> m)).
Proof.
  intros Hinv Ha Hb Hl Hw Hdat.
  assert (Hab : a <> b) by congruence.
  assert (Hr : rep (hp s) w l).
  { pose proof (inv_rep _ _ Hinv b) as Hr. by rewrite Hb, Hl in Hr. }
  assert (Hown : forall c p, owns (<[a:=Vec (mBegin w) (mEnd w) (mCapacity w) dat]>
                   (<[b:=init_inplace kSmallSize w]> (objs s)) !! c) p <->
                 (c = a /\ owns (objs s !! b) p) \/ (c <> a /\ c <> b /\ owns (objs s !! c) p)).
  { intros c p. destruct (decide (c = a)) as [->|Hca]; [|destruct (decide (c = b)) as [->|Hcb]].
    - rewrite lookup_insert_eq, Hb, !owns_some. naive_solver.
    - rewrite lookup_insert_ne, lookup_insert_eq, owns_some by done. naive_solver.
    - rewrite !lookup_insert_ne by done. naive_solver. }
  split; simpl.
  - intros c. destruct (decide (c = a)) as [->|Hca]; [|destruct (decide (c = b)) as [->|Hcb]].
    + rewrite !lookup_insert_eq. destruct Hr as (_ & Hc & blk & Hblk & ? & ? & ->).
      apply (rep_intro _ _ blk); simpl; try done. unfold isAllocated, block in *. simpl.
      by destruct (mBegin w).
    + rewrite !(lookup_insert_ne _ a b), !lookup_insert_eq by done. simpl.
      destruct Hr as (Hd & _). by apply init_inplace_rep.
    + rewrite !lookup_insert_ne by done. apply (inv_rep _ _ Hinv).
  - intros c d p. rewrite !Hown. intros [[-> H1]|(? & ? & H1)] [[-> H2]|(? & ? & H2)]; try done.
    + exfalso. by pose proof (inv_uniq _ _ Hinv _ _ _ H1 H2).
    + exfalso. by pose proof (inv_uniq _ _ Hinv _ _ _ H1 H2).
    + by eapply inv_uniq.
  - intros p Hp. destruct (inv_noleak _ _ Hinv p Hp) as [c Hc].
    destruct (decide (c = b)) as [->|].
    + exists a. apply Hown. by left.
    + exists c. apply Hown. right. split; [|done]. intros ->.
      rewrite Ha in Hc. by apply owns_none in Hc.
Qed.

(** Move assignment from an object whose elements are in place. *)
Lemma assign_move_inplace_wp h v w l lw :
  rep h v l -> rep h w lw -> isAllocated w = false ->
  wp (assign_move kSmallSize h v w)
    (fun r => becomes h v (fun l' => l' = lw) r.1 /\ r.2 = w).
Proof.
  intros Hv Hw Ew. unfold assign_move. rewrite Ew.
  assert (Hwe : mBegin w = InPlace) by (unfold isAllocated in Ew; by destruct (mBegin w)).
  pose proof (rep_length _ _ _ Hw) as Hlw.
  assert (Hcap : mEnd w <= kSmallSize).
  { destruct Hw as (_ & Hc & ? & _ & _ & ? & _). rewrite <- Hc; done. }
  apply wp_bind.
  assert (Hclean : wp (if isAllocated v && (mCapacity v <? size w)%nat
            then h' <-! dtor h v; Ret (h', init_inplace kSmallSize v) else Ret (h, v))
    (fun r => length lw <= mCapacity r.2 /\ upd h (Some v) r.1 (Some r.2) /\
              exists l2, rep r.1 r.2 l2)).
  { destruct (isAllocated v) eqn:Ev; simpl;
      [destruct (Nat.ltb_spec (mCapacity v) (size w)); simpl|].
    - apply wp_bind. eapply wp_mono; [apply (dtor_wp _ _ _ Hv)|]. intros h' Hu. simpl.
      split; [lia|]. split; [|exists []; apply init_inplace_rep; by destruct Hv].
      intros p. destruct (Hu p) as (A & B & C). rewrite owns_some, ?owns_none in *.
      rewrite owns_some. simpl. naive_solver.
    - split; [unfold size in *; lia|]. split; [by apply upd_refl|by exists l].
    - split; [|split; [by apply upd_refl|by exists l]].
      destruct Hv as (_ & Hc & _). rewrite Hc; [lia|]. unfold isAllocated in Ev.
      by destruct (mBegin v). }
  eapply wp_mono; [exact Hclean|]. intros [h1 v1] (Hc1 & Hu1 & l2 & Hr1). simpl in *.
  assert (Hw1 : rep h1 w lw) by (eapply rep_frame; [done|]; congruence).
  apply wp_bind, (elems_wp _ _ _ _ Hw1), wp_bind.
  assert (Hr0 : rep h1 (with_end v1 0) (take 0 l2)) by (apply rep_with_end; [done|lia]).
  eapply wp_mono; [apply (append_wp _ _ _ lw Hr0); simpl; lia|].
  intros r Hr. simpl. split; [|done]. destruct r as [h2 v2]. simpl.
  apply (becomes_trans h v _ (h1, v1)); [done|].
  apply (becomes_trans h1 v1 _ (h1, with_end v1 0)); [by apply upd_refl|done].
Qed.

Lemma ctor_move_inplace_wp h w lw :
  rep h w lw -> isAllocated w = false ->
  wp (ctor_move kSmallSize h w) (fun r => born h (fun l' => l' = lw) r.1 /\ r.2 = w).
Proof.
  intros Hw Ew. unfold ctor_move. rewrite Ew.
  assert (Hwe : mBegin w = InPlace) by (unfold isAllocated in Ew; by destruct (mBegin w)).
  pose proof (rep_length _ _ _ Hw) as Hlw.
  assert (length lw <= kSmallSize).
  { destruct Hw as (_ & Hc & ? & _ & _ & ? & _). rewrite <- Hc, Hlw; done. }
  apply wp_bind, (elems_wp _ _ _ _ Hw), wp_bind, blit_wp; [slen|].
  intros blk Hlen Htk. rewrite length_replicate in Hlen. simpl in Htk. simpl.
  split; [|done]. exists lw. split; [|split; [done|]].
  - apply (rep_intro _ _ blk); simpl; try done.
  - intros p. rewrite owns_none, owns_some. simpl. naive_solver.
Qed.

(** Which calls the C++ types allow, from the set of live objects. *)
Definition enabled (lv : gset nat) (o : op (T := T)) : bool :=
  match o with
  | OpNew a | OpRange a _ => bool_decide (a ∉ lv)
  | OpCopyNew a b | OpMoveNew a b => bool_decide (a ∉ lv) && bool_decide (b ∈ lv)
  | OpPush a _ | OpClear a | OpReserve a _ | OpResize _ a _ | OpInsert a _ | OpDestroy a =>
      bool_decide (a ∈ lv)
  | OpAssign a b | OpMoveAssign a b =>
      bool_decide (a ∈ lv) && bool_decide (b ∈ lv) && bool_decide (a <> b)
  end.

Definition live_after (lv : gset nat) (o : op (T := T)) : gset nat :=
  match o with
  | OpNew a | OpRange a _ | OpCopyNew a _ | OpMoveNew a _ => {[a]} ∪ lv
  | OpDestroy a => lv ∖ {[a]}
  | _ => lv
  end.

(** The [std::vector] reading of each operation; a moved-from object is left
    empty or unchanged, elements added by [resize_noinit] are unspecified. *)
Definition spec (m : gmap nat cells) (o : op (T := T)) (m' : gmap nat cells) : Prop :=
  match o with
  | OpNew a => m' = <[a:=[]]> m
  | OpRange a src => m' = <[a:=Some <$> src]> m
  | OpCopyNew a b | OpAssign a b => exists l, m !! b = Some l /\ m' = <[a:=l]> m
  | OpMoveNew a b | OpMoveAssign a b =>
      exists l, m !! b = Some l /\ (m' = <[a:=l]> m \/ m' = <[a:=l]> (<[b:=[]]> m))
  | OpPush a x => exists l, m !! a = Some l /\ m' = <[a:=l ++ [Some x]]> m
  | OpClear a => m' = <[a:=[]]> m
  | OpReserve a _ => m' = m
  | OpResize i a n => exists l l', m !! a = Some l /\ resized i n l l' /\ m' = <[a:=l']> m
  | OpInsert a src => exists l, m !! a = Some l /\ m' = <[a:=l ++ (Some <$> src)]> m
  | OpDestroy a => m' = delete a m
  end.

Lemma pool_dom s m a : pool_inv s m -> is_Some (objs s !! a) <-> a ∈ dom m.
Proof.
  intros Hinv. rewrite elem_of_dom. pose proof (inv_rep _ _ Hinv a) as Hr.
  destruct (objs s !! a), (m !! a); simpl in Hr; try done; split; intros []; eauto; done.
Qed.

Lemma live_wp s m a (P : vec (T := T) -> Prop) :
  pool_inv s m -> a ∈ dom m ->
  (forall v l, objs s !! a = Some v -> m !! a = Some l -> rep (hp s) v l -> P v) ->
  wp (live s a) P.
Proof.
  intros Hinv Ha HP. apply (pool_dom _ _ _ Hinv) in Ha as [v Hv].
  pose proof (inv_rep _ _ Hinv a) as Hr. rewrite Hv in Hr.
  destruct (m !! a) as [l|] eqn:El; [|done]. unfold live. rewrite Hv. by apply (HP v l).
Qed.

Lemma dead_wp s m a P :
  pool_inv s m -> a ∉ dom m -> (objs s !! a = None -> P tt) -> wp (dead s a) P.
Proof.
  intros Hinv Ha HP. unfold dead. destruct (objs s !! a) eqn:E; [|by apply HP].
  exfalso. apply Ha, (pool_dom _ _ _ Hinv). by eauto.
Qed.

Lemma put_becomes s m a v l Q (r : heap * vec (T := T)) :
  pool_inv s m -> objs s !! a = Some v -> m !! a = Some l -> becomes (hp s) v Q r ->
  exists l', Q l' /\ pool_inv (put s a r) (<[a:=l']> m).
Proof.
  intros Hinv Hv Hl (l' & Hr & HQ & Hu). exists l'. split; [done|].
  apply (pool_upd s m a r.1 (Some r.2) (Some l')); [done| |done]. by rewrite Hv.
Qed.

Lemma put_born s m a Q (r : heap * vec (T := T)) :
  pool_inv s m -> objs s !! a = None -> born (hp s) Q r ->
  exists l', Q l' /\ pool_inv (put s a r) (<[a:=l']> m).
Proof.
  intros Hinv Hv (l' & Hr & HQ & Hu). exists l'. split; [done|].
  apply (pool_upd s m a r.1 (Some r.2) (Some l')); [done| |done]. by rewrite Hv.
Qed.

Definition refined (m : gmap nat cells) o (s' : pool) : Prop :=
  exists m', spec m o m' /\ pool_inv s' m'.

Lemma move_new_refines s m (a b : nat) :
  pool_inv s m -> a ∉ dom m -> b ∈ dom m ->
  wp (run dflt kSmallSize malloc s (OpMoveNew a b)) (refined m (OpMoveNew a b)).
Proof.
  intros Hinv Ha Hb. simpl. apply wp_bind, (dead_wp _ _ _ _ Hinv Ha). intros Ea.
  apply wp_bind, (live_wp _ _ _ _ Hinv Hb). intros w l Ew El Hr.
  destruct (isAllocated w) eqn:Eal.
  - unfold ctor_move. rewrite Eal. simpl.
    exists (<[a:=l]> (<[b:=[]]> m)). split; [exists l; auto|].
    apply (pool_transfer s m); try done. slen.
  - apply wp_bind. eapply wp_mono; [apply (ctor_move_inplace_wp _ _ _ Hr Eal)|].
    intros r [Hborn ->]. simpl. rewrite (insert_id (objs s) b w) by done.
    destruct (put_born s m a _ r.1 Hinv Ea Hborn) as (l' & -> & Hinv').
    exists (<[a:=l]> m). split; [exists l; auto|]. by destruct r as [[? ?] ?].
Qed.

Lemma move_assign_refines s m (a b : nat) :
  pool_inv s m -> a ∈ dom m -> b ∈ dom m -> a <> b ->
  wp (run dflt kSmallSize malloc s (OpMoveAssign a b)) (refined m (OpMoveAssign a b)).
Proof.
  intros Hinv Ha Hb Hab. simpl.
  apply wp_bind, (live_wp _ _ _ _ Hinv Ha). intros v lv Ev Elv Hv.
  apply wp_bind, (live_wp _ _ _ _ Hinv Hb). intros w l Ew El Hr.
  unfold distinct. rewrite decide_False by done. cbn [obind].
  destruct (isAllocated w) eqn:Eal.
  - unfold assign_move. rewrite Eal. apply wp_bind, wp_bind.
    eapply wp_mono; [apply (dtor_wp _ _ _ Hv)|]. intros h' Hu. simpl.
    exists (<[a:=l]> (<[b:=[]]> m)). split; [exists l; auto|].
    assert (Hdel : pool_inv (Pool (delete a (objs s)) h') (delete a m)).
    { apply (pool_upd s m a h' None None); [done| |done]. by rewrite Ev. }
    apply (pool_transfer _ _ a b w l (mData v)) in Hdel; simpl.
    + simpl in Hdel. rewrite <- !(delete_insert_ne _ a b) in Hdel by done.
      by rewrite !insert_delete_eq in Hdel.
    + apply lookup_delete_eq.
    + by rewrite lookup_delete_ne.
    + by rewrite lookup_delete_ne.
    + done.
    + by destruct Hv.
  - apply wp_bind. eapply wp_mono; [apply (assign_move_inplace_wp _ _ _ _ _ Hv Hr Eal)|].
    intros r [Hbec ->]. simpl. rewrite (insert_id (objs s) b w) by done.
    destruct (put_becomes s m a v lv _ r.1 Hinv Ev Elv Hbec) as (l' & -> & Hinv').
    exists (<[a:=l]> m). split; [exists l; auto|]. by destruct r as [[? ?] ?].
Qed.

Ltac solve_new Hinv Ea :=
  intros ? Hborn; destruct (put_born _ _ _ _ _ Hinv Ea Hborn) as (? & -> & ?);
  eexists; split; [|eassumption]; simpl; eauto.
Ltac solve_upd Hinv Ev El :=
  intros ? Hbec; destruct (put_becomes _ _ _ _ _ _ _ Hinv Ev El Hbec) as (? & ? & ?);
  simplify_eq; eexists; split; [|eassumption]; simpl; eauto.

Lemma run_wp s m o :
  pool_inv s m -> enabled (dom m) o = true ->
  wp (run dflt kSmallSize malloc s o) (refined m o).
Proof.
  intros Hinv Hen.
  destruct o as [a|a src|a b|a b|a x|a|a n|i a n|a src|a b|a b|a]; simpl in Hen;
    bdestruct_all;
    try (by apply move_new_refines); try (by apply move_assign_refines); simpl;
    try (apply wp_bind, (dead_wp _ _ _ _ Hinv); [done|]; intros Ea);
    try (apply wp_bind, (live_wp _ _ a _ Hinv); [done|]; intros v lv Ev El Hr).
  - assert (Hb : born (hp s) (fun l' => l' = []) (hp s, ctor_default kSmallSize)).
    { eapply (born_becomes _ (ctor_default kSmallSize)); [done|].
      apply becomes_same, rep_default. }
    revert Hb. generalize (hp s, ctor_default (T := T) kSmallSize). solve_new Hinv Ea.
  - apply wp_bind. eapply wp_mono; [apply ctor_range_wp|]. solve_new Hinv Ea.
  - apply wp_bind, (live_wp _ _ _ _ Hinv); [done|]. intros w l Ew El Hr.
    apply wp_bind. eapply wp_mono; [apply (ctor_copy_wp _ _ _ Hr)|]. solve_new Hinv Ea.
  - apply wp_bind. eapply wp_mono; [apply (emplace_back_wp _ _ _ _ Hr)|]. solve_upd Hinv Ev El.
  - pose proof (clear_wp _ _ _ Hr) as Hb. simpl in Hb. revert Hb.
    generalize (hp s, with_end v 0). solve_upd Hinv Ev El.
  - apply wp_bind. eapply wp_mono; [apply (reserve_wp _ _ _ _ Hr)|].
    intros r Hbec. destruct (put_becomes _ _ _ _ _ _ _ Hinv Ev El Hbec) as (? & -> & ?).
    exists m. split; [done|]. by rewrite (insert_id m) in * by done.
  - apply wp_bind. eapply wp_mono; [apply (resize_wp _ _ _ _ _ Hr)|]. solve_upd Hinv Ev El.
  - apply wp_bind. eapply wp_mono; [apply (insert_back_wp _ _ _ _ Hr)|]. solve_upd Hinv Ev El.
  - apply wp_bind, (live_wp _ _ _ _ Hinv); [done|]. intros w l Ew Elw Hrw.
    unfold distinct. rewrite decide_False by done. cbn [obind].
    apply wp_bind. eapply wp_mono; [apply (assign_copy_wp _ _ _ _ _ Hr Hrw)|].
    solve_upd Hinv Ev El.
  - apply wp_bind. eapply wp_mono; [apply (dtor_wp _ _ _ Hr)|]. intros h' Hu.
    exists (delete a m). split; [done|].
    apply (pool_upd s m a h' None None); [done| |done]. by rewrite Ev.
Qed.

(** * Sequences of operations *)

Fixpoint run_all (s : pool) (os : list (op (T := T))) : outcome pool :=
  match os with
  | [] => Ret s
  | o :: os' => s' <-! run dflt kSmallSize malloc s o; run_all s' os'
  end.

Fixpoint well_used (lv : gset nat) (os : list (op (T := T))) : bool :=
  match os with
  | [] => true
  | o :: os' => enabled lv o && well_used (live_after lv o) os'
  end.

Definition live_end (lv : gset nat) (os : list (op (T := T))) : gset nat :=
  fold_left live_after os lv.

Inductive spec_all : gmap nat cells -> list (op (T := T)) -> gmap nat cells -> Prop :=
  | spec_nil m : spec_all m [] m
  | spec_cons m o m1 os m2 : spec m o m1 -> spec_all m1 os m2 -> spec_all m (o :: os) m2.

Lemma spec_dom m o m' :
  spec m o m' -> enabled (dom m) o = true -> dom m' = live_after (dom m) o.
Proof.
  destruct o; simpl; intros Hs Hen; bdestruct_all; destruct_and?;
    repeat match goal with
      | H : exists _, _ |- _ => destruct H
      | H : _ /\ _ |- _ => destruct H
      | H : _ \/ _ |- _ => destruct H
      end; subst; rewrite ?dom_insert_L, ?dom_delete_L; set_solver.
Qed.

Lemma pool_empty_inv : pool_inv (Pool ∅ ∅) ∅.
Proof.
  split; simpl.
  - intros a. by rewrite !lookup_empty.
  - intros a b p. rewrite lookup_empty, owns_none. done.
  - intros p. rewrite lookup_empty. by intros [].
Qed.

Lemma run_all_wp s m os :
  pool_inv s m -> well_used (dom m) os = true ->
  wp (run_all s os) (fun s' => exists m', spec_all m os m' /\ pool_inv s' m' /\
                                 dom m' = live_end (dom m) os).
Proof.
  revert s m; induction os as [|o os IH]; intros s m Hinv Hw; simpl in *.
  - exists m. split; [constructor|done].
  - bdestruct_all. apply wp_bind. eapply wp_mono; [by apply run_wp|].
    intros s1 (m1 & Hs1 & Hinv1). pose proof (spec_dom _ _ _ Hs1 ltac:(done)) as Hd.
    eapply wp_mono; [apply (IH s1 m1); [done|by rewrite Hd]|].
    intros s2 (m2 & ? & ? & Hd2). exists m2. split; [by econstructor|].
    split; [done|]. by rewrite Hd2, Hd.
Qed.

(** C8: any sequence of constructions, mutations, copies, moves and
    destructions that uses live objects runs without out-of-bounds access,
    dangling pointer or double free (it returns, or aborts when malloc fails),
    acts on the contents as on [std::vector]s, and when every object has been
    destroyed has released every heap block. *)
Theorem small_vector_refines os :
  well_used ∅ os = true ->
  wp (run_all (Pool ∅ ∅) os)
    (fun s' => (exists m', spec_all ∅ os m' /\ (forall a, rep_opt (hp s') (objs s' !! a) (m' !! a)))
               /\ (live_end ∅ os = ∅ -> hp s' = ∅)).
Proof.
  intros Hw. assert (Hd : dom (∅ : gmap nat cells) = ∅) by apply dom_empty_L.
  rewrite <- Hd in Hw. eapply wp_mono; [apply (run_all_wp _ _ _ pool_empty_inv Hw)|].
  intros s' (m' & Hs & Hinv & Hdom). split.
  - exists m'. split; [done|]. apply (inv_rep _ _ Hinv).
  - intros Hend. rewrite Hd, Hend in Hdom. apply dom_empty_iff_L in Hdom as ->.
    apply map_eq. intros p. rewrite lookup_empty. apply eq_None_not_Some. intros Hp.
    destruct (inv_noleak _ _ Hinv p Hp) as (a & v & Hv & _).
    pose proof (inv_rep _ _ Hinv a) as Hr. by rewrite Hv, lookup_empty in Hr.
Qed.
End proofs.

(** An allocator for concrete runs: a fresh address every time. *)
Definition fresh_malloc {T} (h : gmap nat (list (option T))) (n : nat) : option nat :=
  Some (fresh (dom h : gset nat)).

Lemma fresh_malloc_fresh {T} (h : gmap nat (list (option T))) n p :
  fresh_malloc h n = Some p -> h !! p = None.
Proof.
  intros H. injection H as <-. apply (not_elem_of_dom (D := gset nat)).
  apply (is_fresh (dom h : gset nat)).
Qed.

Definition demo_ops : list (op (T := nat)) :=
  [OpNew 0; OpPush 0 7; OpInsert 0 [1; 2; 3; 4; 5]; OpRange 1 [9]; OpMoveAssign 1 0;
   OpResize true 1 8; OpCopyNew 2 1; OpDestroy 0; OpDestroy 1; OpDestroy 2].

Lemma small_vector_refines_witness :
  exists s', run_all 0 4 fresh_malloc (Pool ∅ ∅) demo_ops = Ret s' /\ hp s' = ∅.
Proof.
  pose proof (small_vector_refines 0 4 fresh_malloc (@fresh_malloc_fresh nat) demo_ops
                ltac:(vm_compute; reflexivity)) as H.
  destruct (run_all 0 4 fresh_malloc (Pool ∅ ∅) demo_ops) as [s'| | |] eqn:E;
    [|vm_compute in E; discriminate E..].
  exists s'. split; [reflexivity|]. apply H. vm_compute. reflexivity.
Defined.
