(* ===== verification/BufferQueue.v ===== *)
(** Bounded queues: [anbox::graphics::BufferQueue] (graphics/buffer_queue.cpp)
    and [anbox::common::MessageChannel] (common/message_channel.cpp, .h), both
    ring buffers guarded by a mutex and two condition variables.  The class
    [BoundedQueue] is what they promise to their clients; [System] runs one
    producer and one consumer thread over a queue, with sleeping and waking. *)

From S2P Require Import Prelude.

Local Open Scope nat_scope.

Definition EIO : Z := 5.
Definition EAGAIN : Z := 11.

(** Wake-ups a call hands to the condition variables. *)
Inductive notification := WakePop | WakePush | WakeAllPop | WakeAllPush.

(** * BufferQueue *)

Section buffer_queue.
(** [moved_from b] is what a move leaves in the slot it moved from. *)
Context {B : Type} (moved_from : B -> B).

Record buffer_queue := BQ {
  capacity_ : nat;
  pos_ : nat;
  count_ : nat;
  closed_ : bool;
  buffers_ : list B
}.

Definition BufferQueue (capacity : nat) (fill : B) : buffer_queue :=
  BQ capacity 0 0 false (replicate capacity fill).

Definition can_push_locked (q : buffer_queue) : bool :=
  negb (closed_ q) && (count_ q <? capacity_ q).
Definition can_pop_locked (q : buffer_queue) : bool := 0 <? count_ q.
Definition is_closed_locked (q : buffer_queue) : bool := closed_ q.

Definition try_push_locked (q : buffer_queue) (buffer : B)
    : outcome (Z * buffer_queue * list notification) :=
  if closed_ q then Ret ((- EIO)%Z, q, [])
  else if capacity_ q <=? count_ q then Ret ((- EAGAIN)%Z, q, [])
  else
    let pos := pos_ q + count_ q in
    let pos := if capacity_ q <=? pos then pos - capacity_ q else pos in
    if pos <? length (buffers_ q) then
      Ret (0%Z, BQ (capacity_ q) (pos_ q) (count_ q + 1) (closed_ q)
                   (<[pos:=buffer]> (buffers_ q)),
           if count_ q =? 0 then [WakePop] else [])
    else Undef.

Definition try_pop_locked (q : buffer_queue)
    : outcome (Z * option B * buffer_queue * list notification) :=
  if count_ q =? 0 then
    Ret (if closed_ q then (- EIO)%Z else (- EAGAIN)%Z, None, q, [])
  else
    match buffers_ q !! pos_ q with
    | None => Undef
    | Some b =>
        let pos := pos_ q + 1 in
        let pos := if capacity_ q <=? pos then pos - capacity_ q else pos in
        Ret (0%Z, Some b,
             BQ (capacity_ q) pos (count_ q - 1) (closed_ q)
                (<[pos_ q:=moved_from b]> (buffers_ q)),
             if count_ q =? capacity_ q then [WakePush] else [])
    end.

Definition close_locked (q : buffer_queue) : buffer_queue * list notification :=
  (BQ (capacity_ q) (pos_ q) (count_ q) true (buffers_ q),
   (if count_ q =? capacity_ q then [WakeAllPush] else []) ++
   (if count_ q =? 0 then [WakeAllPop] else [])).

(** One turn of the wait loops: [None] means the thread goes to sleep. *)
Definition push_locked (q : buffer_queue) (buffer : B)
    : option (outcome (Z * buffer_queue * list notification)) :=
  if count_ q =? capacity_ q then
    if closed_ q then Some (Ret ((- EIO)%Z, q, [])) else None
  else Some (try_push_locked q buffer).

Definition pop_locked (q : buffer_queue)
    : option (outcome (Z * option B * buffer_queue * list notification)) :=
  if count_ q =? 0 then
    if closed_ q then Some (Ret ((- EIO)%Z, None, q, [])) else None
  else Some (try_pop_locked q).
End buffer_queue.
Arguments buffer_queue B : clear implicits.

(** * MessageChannel *)

Section message_channel.
Context {B : Type}.

Record message_channel := MC {
  mc_pos : nat;
  mc_count : nat;
  mc_capacity : nat;
  mItems : list B
}.

Definition MessageChannel (capacity : nat) (fill : B) : message_channel :=
  MC 0 0 capacity (replicate capacity fill).

(** [before_write]: [None] while the channel is full, else the free slot.  The
    source waits on a [unique_lock] that does not own the mutex, which it has
    locked by hand: [wait] requires that it does, so the wait is undefined by
    the standard.  It is modelled as what it does in the usual libraries, which
    take the mutex of the lock without looking; [before_read] is the same. *)
Definition before_write (c : message_channel) : option nat :=
  if mc_capacity c <=? mc_count c then None
  else
    let result := mc_pos c + mc_count c in
    Some (if mc_capacity c <=? result then result - mc_capacity c else result).

Definition after_write (c : message_channel) : message_channel * list notification :=
  (MC (mc_pos c) (mc_count c + 1) (mc_capacity c) (mItems c), [WakePop]).

Definition before_read (c : message_channel) : option nat :=
  if mc_count c =? 0 then None else Some (mc_pos c).

Definition after_read (c : message_channel) : message_channel * list notification :=
  (MC (if mc_pos c + 1 =? mc_capacity c then 0 else mc_pos c + 1)
      (mc_count c - 1) (mc_capacity c) (mItems c), [WakePush]).

Definition send (c : message_channel) (msg : B)
    : option (outcome (message_channel * list notification)) :=
  match before_write c with
  | None => None
  | Some pos =>
      Some (if pos <? length (mItems c) then
              Ret (after_write (MC (mc_pos c) (mc_count c) (mc_capacity c)
                                   (<[pos:=msg]> (mItems c))))
            else Undef)
  end.

Definition receive (c : message_channel)
    : option (outcome (B * message_channel * list notification)) :=
  match before_read c with
  | None => None
  | Some pos =>
      Some (match mItems c !! pos with
            | Some msg => let '(c', n) := after_read c in Ret (msg, c', n)
            | None => Undef
            end)
  end.
End message_channel.
Arguments message_channel B : clear implicits.

(** * The interface of a bounded queue *)

(** What [BufferQueue] and [MessageChannel] promise: a FIFO list of at most
    [bq_cap] items; a push waits while it is full, a pop while it is empty
    ([None]), and a closed queue fails them instead. *)
Class BoundedQueue (Q B : Type) := {
  bq_wf : Q -> Prop;
  bq_items : Q -> list B;
  bq_cap : Q -> nat;
  bq_closed : Q -> bool;
  bq_push : Q -> B -> option (outcome (Z * Q * list notification));
  bq_pop : Q -> option (outcome (Z * option B * Q * list notification))
}.

Class BoundedQueueLaws (Q B : Type) `{BoundedQueue Q B} := {
  bq_bound : forall q : Q, bq_wf q -> length (bq_items q) <= bq_cap q;
  bq_push_full : forall (q : Q) b, bq_wf q -> length (bq_items q) = bq_cap q ->
    bq_push q b = if bq_closed q then Some (Ret ((- EIO)%Z, q, [])) else None;
  bq_push_closed : forall (q : Q) b, bq_wf q -> bq_closed q = true ->
    bq_push q b = Some (Ret ((- EIO)%Z, q, []));
  bq_push_ok : forall (q : Q) b, bq_wf q -> length (bq_items q) < bq_cap q ->
    bq_closed q = false ->
    exists q' ns, bq_push q b = Some (Ret (0%Z, q', ns)) /\ bq_wf q' /\
      bq_items q' = bq_items q ++ [b] /\ bq_cap q' = bq_cap q /\
      bq_closed q' = false /\ (bq_items q = [] -> WakePop ∈ ns);
  bq_pop_empty : forall q : Q, bq_wf q -> bq_items q = [] ->
    bq_pop q = if bq_closed q then Some (Ret ((- EIO)%Z, None, q, [])) else None;
  bq_pop_ok : forall (q : Q) b rest, bq_wf q -> bq_items q = b :: rest ->
    exists q' ns, bq_pop q = Some (Ret (0%Z, Some b, q', ns)) /\ bq_wf q' /\
      bq_items q' = rest /\ bq_cap q' = bq_cap q /\ bq_closed q' = bq_closed q /\
      (length (bq_items q) = bq_cap q -> WakePush ∈ ns)
}.

(** A queue that can be closed wakes every thread that waits on it. *)
Class ClosableQueue (Q B : Type) `{BoundedQueue Q B} := {
  bq_close : Q -> Q * list notification;
  bq_close_spec : forall q : Q, bq_wf q ->
    bq_wf (bq_close q).1 /\ bq_items (bq_close q).1 = bq_items q /\
    bq_cap (bq_close q).1 = bq_cap q /\ bq_closed (bq_close q).1 = true /\
    (bq_items q = [] -> WakeAllPop ∈ (bq_close q).2) /\
    (length (bq_items q) = bq_cap q -> WakeAllPush ∈ (bq_close q).2)
}.

(** A queue that can also be polled: what would wait fails with EAGAIN. *)
Class PollableQueue (Q B : Type) `{BoundedQueue Q B} := {
  bq_try_pop : Q -> outcome (Z * option B * Q * list notification);
  bq_try_pop_spec : forall q : Q, bq_wf q ->
    bq_try_pop q = match bq_pop q with
                   | Some o => o
                   | None => Ret ((- EAGAIN)%Z, None, q, [])
                   end;
  bq_can_pop : Q -> bool;
  bq_can_pop_spec : forall q : Q, bq_wf q -> bq_can_pop q = (0 <? length (bq_items q))
}.

(** * The items of a ring *)

Section ring.
Context {B : Type}.
Implicit Types (l : list B) (b : B).

(** The [n] items of the ring [l] starting at position [pos]. *)
Definition ring_items l (pos n : nat) : list B := take n (drop pos l ++ take pos l).

Definition ring_wf l (cap pos n : nat) : Prop :=
  length l = cap /\ n <= cap /\ (pos < cap \/ (cap = 0 /\ pos = 0)).

Definition wrap (cap pos : nat) : nat := if cap <=? pos then pos - cap else pos.

Lemma ring_items_length l cap pos n : ring_wf l cap pos n -> length (ring_items l pos n) = n.
Proof. unfold ring_items. intros (? & ? & ?). slen. Qed.

Lemma wrap_lt cap pos n : pos < cap -> n < cap -> wrap cap (pos + n) < cap.
Proof. unfold wrap. destruct (Nat.leb_spec cap (pos + n)); lia. Qed.

Lemma ring_push l cap pos n b :
  ring_wf l cap pos n -> n < cap ->
  ring_items (<[wrap cap (pos + n):=b]> l) pos (n + 1) = ring_items l pos n ++ [b].
Proof.
  unfold ring_items, wrap. intros (Hl & ? & ?) Hn.
  set (r := drop pos l ++ take pos l).
  assert (Hr : length r = cap) by (unfold r; slen).
  assert (Hrot : forall i, i = (if cap <=? pos + n then pos + n - cap else pos + n) ->
            drop pos (<[i:=b]> l) ++ take pos (<[i:=b]> l) = <[n:=b]> r).
  { intros i ->. unfold r. destruct (Nat.leb_spec cap (pos + n)).
    - rewrite drop_insert_lt, take_insert_lt by lia.
      rewrite insert_app_r_alt by slen. do 2 f_equal. slen.
    - rewrite drop_insert_ge, take_insert_ge by lia.
      rewrite insert_app_l by slen. do 2 f_equal. lia. }
  rewrite (Hrot _ eq_refl). rewrite Nat.add_1_r, (take_S_r _ _ b).
  - by rewrite take_insert_ge by lia.
  - apply list_lookup_insert_eq. lia.
Qed.

Lemma ring_pop l cap pos n b b' :
  ring_wf l cap pos n -> 0 < n -> l !! pos = Some b ->
  ring_items l pos n = b :: ring_items (<[pos:=b']> l) (wrap cap (pos + 1)) (n - 1).
Proof.
  unfold ring_items, wrap. intros (Hl & ? & ?) Hn Hb. destruct n as [|n]; [lia|].
  pose proof (lookup_lt_Some _ _ _ Hb).
  rewrite (drop_S _ _ _ Hb). simpl. f_equal. rewrite Nat.sub_0_r.
  destruct (Nat.leb_spec cap (pos + 1)).
  - replace (pos + 1 - cap) with 0 by lia. rewrite drop_0, take_0, app_nil_r.
    rewrite (drop_ge l (S pos)) by lia. simpl. rewrite take_take.
    rewrite insert_take_drop, take_app_le by slen. rewrite take_take. f_equal; lia.
  - rewrite Nat.add_1_r, drop_insert_lt by lia.
    rewrite (take_S_r (<[pos:=b']> l) pos b') by (apply list_lookup_insert_eq; lia).
    rewrite take_insert_ge by lia. rewrite app_assoc, (take_app_le (_ ++ _)) by slen. done.
Qed.
End ring.

(** * BufferQueue implements the interface *)

Section buffer_queue_laws.
Context {B : Type} (moved_from : B -> B).
Implicit Types (q : buffer_queue B) (b : B).

Definition bq_ring_wf q : Prop := ring_wf (buffers_ q) (capacity_ q) (pos_ q) (count_ q).
Definition queue_items q : list B := ring_items (buffers_ q) (pos_ q) (count_ q).

#[global] Instance buffer_queue_bounded : BoundedQueue (buffer_queue B) B := {
  bq_wf := bq_ring_wf;
  bq_items := queue_items;
  bq_cap := capacity_;
  bq_closed := closed_;
  bq_push := push_locked;
  bq_pop := pop_locked moved_from
}.

Lemma queue_items_length q : bq_ring_wf q -> length (queue_items q) = count_ q.
Proof. apply ring_items_length. Qed.

Lemma try_push_ok q b :
  bq_ring_wf q -> closed_ q = false -> count_ q < capacity_ q ->
  exists q', try_push_locked q b = Ret (0%Z, q', if count_ q =? 0 then [WakePop] else []) /\
    bq_ring_wf q' /\ queue_items q' = queue_items q ++ [b] /\
    capacity_ q' = capacity_ q /\ closed_ q' = false.
Proof.
  intros Hwf Hc Hn. unfold try_push_locked. rewrite Hc.
  destruct (Nat.leb_spec (capacity_ q) (count_ q)); [lia|].
  change (if capacity_ q <=? pos_ q + count_ q then pos_ q + count_ q - capacity_ q
          else pos_ q + count_ q) with (wrap (capacity_ q) (pos_ q + count_ q)).
  pose proof Hwf as (Hl & ? & ?).
  pose proof (wrap_lt (capacity_ q) (pos_ q) (count_ q) ltac:(lia) ltac:(lia)).
  destruct (Nat.ltb_spec (wrap (capacity_ q) (pos_ q + count_ q)) (length (buffers_ q))); [|lia].
  eexists. split; [reflexivity|]. split; [|split; [|done]].
  - split; simpl; [slen|split; [lia|done]].
  - unfold queue_items. simpl. by apply ring_push.
Qed.

Lemma try_pop_ok q b rest :
  bq_ring_wf q -> queue_items q = b :: rest ->
  exists q', try_pop_locked moved_from q =
      Ret (0%Z, Some b, q', if count_ q =? capacity_ q then [WakePush] else []) /\
    bq_ring_wf q' /\ queue_items q' = rest /\
    capacity_ q' = capacity_ q /\ closed_ q' = closed_ q.
Proof.
  intros Hwf Hq. pose proof (queue_items_length q Hwf) as Hlen. rewrite Hq in Hlen.
  pose proof Hwf as (Hl & ? & Hp). simpl in Hlen. unfold try_pop_locked.
  destruct (Nat.eqb_spec (count_ q) 0); [lia|].
  destruct (lookup_lt_is_Some_2 (buffers_ q) (pos_ q)) as [b' Hb']; [lia|].
  rewrite Hb'. unfold queue_items in Hq.
  rewrite (ring_pop _ (capacity_ q) _ _ _ (moved_from b') Hwf) in Hq by (done || lia).
  injection Hq as -> Hrest.
  eexists. split; [reflexivity|]. split; [|split; [exact Hrest|done]].
  split; simpl; [slen|split; [lia|]]. destruct (Nat.leb_spec (capacity_ q) (pos_ q + 1)); lia.
Qed.

#[global] Instance buffer_queue_laws : BoundedQueueLaws (buffer_queue B) B.
Proof.
  split; simpl; intros q.
  - intros Hwf. rewrite queue_items_length by done. by destruct Hwf as (? & ? & ?).
  - intros b Hwf. rewrite queue_items_length by done. intros Hn.
    unfold push_locked. by rewrite Hn, Nat.eqb_refl.
  - intros b Hwf Hc. unfold push_locked, try_push_locked. rewrite Hc. by case_match.
  - intros b Hwf. rewrite queue_items_length by done. intros Hn Hc.
    destruct (try_push_ok q b Hwf Hc Hn) as (q' & He & ? & ? & ? & ?).
    unfold push_locked. destruct (Nat.eqb_spec (count_ q) (capacity_ q)); [lia|].
    rewrite He. do 2 eexists. split; [reflexivity|]. do 4 (split; [done|]).
    intros Hnil. pose proof (queue_items_length q Hwf) as Hlen. rewrite Hnil in Hlen.
    simpl in Hlen. rewrite <- Hlen. simpl. left.
  - intros Hwf Hnil. pose proof (queue_items_length q Hwf) as Hlen. rewrite Hnil in Hlen.
    unfold pop_locked. by rewrite <- Hlen.
  - intros b rest Hwf Hq. pose proof (queue_items_length q Hwf) as Hlen.
    rewrite Hlen. rewrite Hq in Hlen. simpl in Hlen.
    destruct (try_pop_ok q b rest Hwf Hq) as (q' & He & ? & ? & ? & ?).
    unfold pop_locked. destruct (Nat.eqb_spec (count_ q) 0); [lia|].
    rewrite He. do 2 eexists. split; [reflexivity|]. do 4 (split; [done|]).
    intros ->. rewrite Nat.eqb_refl. left.
Qed.

Lemma close_locked_spec q :
  bq_ring_wf q ->
  bq_ring_wf (close_locked q).1 /\ queue_items (close_locked q).1 = queue_items q /\
  capacity_ (close_locked q).1 = capacity_ q /\ closed_ (close_locked q).1 = true /\
  (queue_items q = [] -> WakeAllPop ∈ (close_locked q).2) /\
  (length (queue_items q) = capacity_ q -> WakeAllPush ∈ (close_locked q).2).
Proof.
  intros Hwf. pose proof (queue_items_length q Hwf) as Hlen.
  do 4 (split; [done|]). rewrite Hlen. unfold close_locked. simpl. split.
  - intros Hnil. rewrite Hnil in Hlen. simpl in Hlen. rewrite <- Hlen. set_solver.
  - intros ->. rewrite Nat.eqb_refl. set_solver.
Qed.

#[global] Instance buffer_queue_closable : ClosableQueue (buffer_queue B) B := {
  bq_close := close_locked;
  bq_close_spec := close_locked_spec
}.

Lemma try_pop_locked_spec q :
  try_pop_locked moved_from q =
  match pop_locked moved_from q with Some o => o | None => Ret ((- EAGAIN)%Z, None, q, []) end.
Proof.
  unfold pop_locked, try_pop_locked. destruct (count_ q =? 0); [|done]. by destruct (closed_ q).
Qed.

Lemma can_pop_locked_spec q :
  bq_ring_wf q -> can_pop_locked q = (0 <? length (queue_items q)).
Proof. intros Hwf. unfold can_pop_locked. by rewrite queue_items_length. Qed.

#[global] Instance buffer_queue_pollable : PollableQueue (buffer_queue B) B := {
  bq_try_pop := try_pop_locked moved_from;
  bq_try_pop_spec := fun q _ => try_pop_locked_spec q;
  bq_can_pop := can_pop_locked;
  bq_can_pop_spec := can_pop_locked_spec
}.

Lemma queue_empty_wf capacity (fill : B) : bq_ring_wf (BufferQueue capacity fill).
Proof. split; simpl; [slen|split; lia]. Qed.
End buffer_queue_laws.

(** * MessageChannel implements the interface *)

Section message_channel_laws.
Context {B : Type}.
Implicit Types (c : message_channel B) (b : B).

Definition mc_wf c : Prop := ring_wf (mItems c) (mc_capacity c) (mc_pos c) (mc_count c).
Definition mc_items c : list B := ring_items (mItems c) (mc_pos c) (mc_count c).

(** [send] and [receive] report success as 0. *)
Definition mc_push c b : option (outcome (Z * message_channel B * list notification)) :=
  (fun o => r <-! o; Ret (0%Z, r.1, r.2)) <$> send c b.
Definition mc_pop c : option (outcome (Z * option B * message_channel B * list notification)) :=
  (fun o => r <-! o; Ret (0%Z, Some r.1.1, r.1.2, r.2)) <$> receive c.

#[global] Instance message_channel_bounded : BoundedQueue (message_channel B) B := {
  bq_wf := mc_wf;
  bq_items := mc_items;
  bq_cap := mc_capacity;
  bq_closed := fun _ => false;
  bq_push := mc_push;
  bq_pop := mc_pop
}.

Lemma mc_items_length c : mc_wf c -> length (mc_items c) = mc_count c.
Proof. apply ring_items_length. Qed.

#[global] Instance message_channel_laws : BoundedQueueLaws (message_channel B) B.
Proof.
  split; simpl; intros c.
  - intros Hwf. rewrite mc_items_length by done. by destruct Hwf as (? & ? & ?).
  - intros b Hwf. rewrite mc_items_length by done. intros Hn.
    unfold mc_push, send, before_write. by rewrite Hn, Nat.leb_refl.
  - done.
  - intros b Hwf. rewrite mc_items_length by done. intros Hn _.
    unfold mc_push, send, before_write.
    destruct (Nat.leb_spec (mc_capacity c) (mc_count c)); [lia|].
    change (if mc_capacity c <=? mc_pos c + mc_count c
            then mc_pos c + mc_count c - mc_capacity c else mc_pos c + mc_count c)
      with (wrap (mc_capacity c) (mc_pos c + mc_count c)).
    pose proof Hwf as (Hl & ? & ?).
    pose proof (wrap_lt (mc_capacity c) (mc_pos c) (mc_count c) ltac:(lia) ltac:(lia)).
    destruct (Nat.ltb_spec (wrap (mc_capacity c) (mc_pos c + mc_count c)) (length (mItems c)));
      [|lia].
    do 2 eexists. split; [reflexivity|]. split; [split; simpl; [slen|split; [lia|done]]|].
    split; [unfold mc_items; simpl; by apply ring_push|]. do 2 (split; [done|]).
    intros _. left.
  - intros Hwf Hnil. pose proof (mc_items_length c Hwf) as Hlen. rewrite Hnil in Hlen.
    unfold mc_pop, receive, before_read. by rewrite <- Hlen.
  - intros b rest Hwf Hq. pose proof (mc_items_length c Hwf) as Hlen.
    rewrite Hq in Hlen. simpl in Hlen. pose proof Hwf as (Hl & ? & Hp).
    unfold mc_pop, receive, before_read. destruct (Nat.eqb_spec (mc_count c) 0); [lia|].
    destruct (lookup_lt_is_Some_2 (mItems c) (mc_pos c)) as [b' Hb']; [lia|].
    rewrite Hb'. unfold mc_items in Hq.
    rewrite (ring_pop _ (mc_capacity c) _ _ _ b' Hwf) in Hq by (done || lia).
    injection Hq as -> Hrest. rewrite list_insert_id in Hrest by done. simpl.
    do 2 eexists. split; [reflexivity|]. split; [|split; [|do 2 (split; [done|]); intros; left]].
    + split; simpl; [done|split; [lia|]].
      destruct (Nat.eqb_spec (mc_pos c + 1) (mc_capacity c)); lia.
    + unfold mc_items, wrap in *. simpl.
      destruct (Nat.eqb_spec (mc_pos c + 1) (mc_capacity c)) as [He|];
        destruct (Nat.leb_spec (mc_capacity c) (mc_pos c + 1)); try lia; [|done].
      by rewrite He, Nat.sub_diag in Hrest.
Qed.
End message_channel_laws.

(** * One producer and one consumer thread *)

(** A thread is outside the queue, about to take the lock and run one turn of
    its wait loop, or asleep on its condition variable. *)
Inductive producer (B : Type) := PIdle | PReady (b : B) | PAsleep (b : B).
Arguments PIdle {B}.
Arguments PReady {B} b.
Arguments PAsleep {B} b.
Inductive consumer := CIdle | CReady | CAsleep.

Definition wake_producer {B} (ns : list notification) (p : producer B) : producer B :=
  match p with
  | PAsleep b =>
      if existsb (fun n => match n with WakePush | WakeAllPush => true | _ => false end) ns
      then PReady b else p
  | _ => p
  end.

Definition wake_consumer (ns : list notification) (c : consumer) : consumer :=
  match c with
  | CAsleep =>
      if existsb (fun n => match n with WakePop | WakeAllPop => true | _ => false end) ns
      then CReady else c
  | _ => c
  end.

Section system.
Context {Q B : Type} `{Hq : BoundedQueue Q B}.
(** [close_locked], for the queues that have it. *)
Context (close : option (Q -> Q * list notification)).

Record system := Sys {
  queue : Q;
  prod : producer B;
  cons_ : consumer;
  pushed : list B;  (* accepted by the queue, in order *)
  popped : list B   (* handed to the consumer, in order *)
}.

Definition start (q : Q) : system := Sys q PIdle CIdle [] [].

Inductive step : system -> system -> Prop :=
  | push_call q c sent got b :
      step (Sys q PIdle c sent got) (Sys q (PReady b) c sent got)
  | push_sleep q c sent got b :
      bq_push q b = None ->
      step (Sys q (PReady b) c sent got) (Sys q (PAsleep b) c sent got)
  | push_turn q c sent got b rc q' ns :
      bq_push q b = Some (Ret (rc, q', ns)) ->
      step (Sys q (PReady b) c sent got)
           (Sys q' PIdle (wake_consumer ns c) (if (rc =? 0)%Z then sent ++ [b] else sent) got)
  | pop_call q p sent got :
      step (Sys q p CIdle sent got) (Sys q p CReady sent got)
  | pop_sleep q p sent got :
      bq_pop q = None ->
      step (Sys q p CReady sent got) (Sys q p CAsleep sent got)
  | pop_turn q p sent got rc ob q' ns :
      bq_pop q = Some (Ret (rc, ob, q', ns)) ->
      step (Sys q p CReady sent got)
           (Sys q' (wake_producer ns p) CIdle sent
                (match ob with Some b => got ++ [b] | None => got end))
  | push_spurious q c sent got b :
      step (Sys q (PAsleep b) c sent got) (Sys q (PReady b) c sent got)
  | pop_spurious q p sent got :
      step (Sys q p CAsleep sent got) (Sys q p CReady sent got)
  | close_call f q p c sent got :
      close = Some f ->
      step (Sys q p c sent got)
           (Sys (f q).1 (wake_producer (f q).2 p) (wake_consumer (f q).2 c) sent got).

(** FIFO without loss or duplication, and nobody sleeps while it could run. *)
Record sys_inv (cap : nat) (s : system) : Prop := {
  si_wf : bq_wf (queue s);
  si_cap : bq_cap (queue s) = cap;
  si_fifo : pushed s = popped s ++ bq_items (queue s);
  si_cons : cons_ s = CAsleep -> bq_items (queue s) = [] /\ bq_closed (queue s) = false;
  si_prod : forall b, prod s = PAsleep b ->
    length (bq_items (queue s)) = cap /\ bq_closed (queue s) = false
}.

Context `{!BoundedQueueLaws Q B}.
Hypothesis close_ok : forall f, close = Some f -> forall q, bq_wf q ->
  bq_wf (f q).1 /\ bq_items (f q).1 = bq_items q /\ bq_cap (f q).1 = bq_cap q /\
  bq_closed (f q).1 = true /\ (bq_items q = [] -> WakeAllPop ∈ (f q).2) /\
  (length (bq_items q) = bq_cap q -> WakeAllPush ∈ (f q).2).

Lemma wake_consumer_asleep ns c :
  WakePop ∈ ns \/ WakeAllPop ∈ ns -> wake_consumer ns c <> CAsleep.
Proof.
  intros Hin. destruct c; simpl; try done.
  destruct (existsb _ ns) eqn:E; [done|]. exfalso.
  apply not_true_iff_false in E. apply E, existsb_exists.
  destruct Hin as [Hin|Hin]; eexists; (split; [by apply list_elem_of_In|done]).
Qed.

Lemma wake_producer_asleep ns (p : producer B) b :
  WakePush ∈ ns \/ WakeAllPush ∈ ns -> wake_producer ns p <> PAsleep b.
Proof.
  intros Hin. destruct p; simpl; try done.
  destruct (existsb _ ns) eqn:E; [done|]. exfalso.
  apply not_true_iff_false in E. apply E, existsb_exists.
  destruct Hin as [Hin|Hin]; eexists; (split; [by apply list_elem_of_In|done]).
Qed.

Lemma wake_consumer_was ns c : wake_consumer ns c = CAsleep -> c = CAsleep.
Proof. destruct c; simpl; by try case_match. Qed.
Lemma wake_producer_was ns (p : producer B) b : wake_producer ns p = PAsleep b -> p = PAsleep b.
Proof. destruct p; simpl; try done. case_match; [done|]. by intros [= ->]. Qed.

(** What a turn of the wait loop can do. *)
Lemma push_cases (q : Q) b o : bq_wf q -> bq_push q b = Some o ->
  (o = Ret ((- EIO)%Z, q, []) /\ bq_closed q = true) \/
  exists q' ns, o = Ret (0%Z, q', ns) /\ bq_wf q' /\ length (bq_items q) < bq_cap q /\
    bq_items q' = bq_items q ++ [b] /\ bq_cap q' = bq_cap q /\
    bq_closed q' = false /\ (bq_items q = [] -> WakePop ∈ ns).
Proof.
  intros Hwf Ho. destruct (bq_closed q) eqn:Hc.
  { rewrite bq_push_closed in Ho by done. simplify_eq. by left. }
  pose proof (bq_bound q Hwf). right.
  destruct (decide (length (bq_items q) = bq_cap q)) as [Hf|Hf].
  { by rewrite bq_push_full, Hc in Ho. }
  destruct (bq_push_ok q b Hwf) as (q' & ns & Hp & ? & ? & ? & ? & ?); [lia|done|].
  rewrite Hp in Ho. simplify_eq. exists q', ns. by repeat (split; [done || lia|]).
Qed.

Lemma pop_cases (q : Q) o : bq_wf q -> bq_pop q = Some o ->
  (o = Ret ((- EIO)%Z, None, q, []) /\ bq_closed q = true) \/
  exists b q' ns, o = Ret (0%Z, Some b, q', ns) /\ bq_wf q' /\
    bq_items q = b :: bq_items q' /\ bq_cap q' = bq_cap q /\ bq_closed q' = bq_closed q /\
    (length (bq_items q) = bq_cap q -> WakePush ∈ ns).
Proof.
  intros Hwf Ho. destruct (bq_items q) as [|b rest] eqn:Hi.
  - rewrite bq_pop_empty in Ho by done. destruct (bq_closed q); [|done].
    simplify_eq. by left.
  - destruct (bq_pop_ok q b rest Hwf Hi) as (q' & ns & Hp & ? & Hi' & ? & ? & Hn).
    rewrite Hp in Ho. simplify_eq. right. exists b, q', ns.
    split; [done|]. split; [done|]. split; [done|]. split; [done|].
    split; [done|]. by rewrite <- Hi.
Qed.

Lemma step_inv cap s s' : sys_inv cap s -> step s s' -> sys_inv cap s'.
Proof.
  intros [Hwf Hcap Hf Hc Hp] Hstep.
  destruct Hstep as [q c sent got b|q c sent got b Hr|q c sent got b rc q' ns Hr|q p sent got
                    |q p sent got Hr|q p sent got rc ob q' ns Hr|q c sent got b|q p sent got
                    |f q p c sent got Hcl]; simpl in *.
  - by split.
  - split; simpl; try done. intros b' [= <-].
    destruct (bq_closed q) eqn:E; [by rewrite bq_push_closed in Hr|]. split; [|done].
    pose proof (bq_bound q Hwf). destruct (decide (length (bq_items q) = bq_cap q)); [lia|].
    destruct (bq_push_ok q b Hwf) as (? & ? & Hok & _); [lia|done|]. by rewrite Hok in Hr.
  - destruct (push_cases q b _ Hwf Hr) as [[He Hcl]|(q1 & n1 & He & ? & ? & Hi & ? & ? & Hn)];
      simplify_eq.
    + split; simpl; try done. intros Hs%wake_consumer_was. naive_solver.
    + split; simpl; try done; [by rewrite Hi, app_assoc|].
      intros Hs. destruct (Hc (wake_consumer_was _ _ Hs)) as [Hnil _].
      by apply wake_consumer_asleep in Hs; [|left; by apply Hn].
  - by split.
  - split; simpl; try done. intros _. destruct (bq_items q) as [|b rest] eqn:Hi.
    + rewrite bq_pop_empty in Hr by done. by destruct (bq_closed q).
    + destruct (bq_pop_ok q b rest Hwf Hi) as (? & ? & Hok & _). by rewrite Hok in Hr.
  - destruct (pop_cases q _ Hwf Hr) as [[He Hcl]|(b & q1 & n1 & He & ? & Hi & ? & ? & Hn)];
      simplify_eq.
    + split; simpl; try done. intros b Hs%wake_producer_was. naive_solver.
    + split; simpl; try done; [by rewrite Hi, <- app_assoc|].
      intros b' Hs. destruct (Hp _ (wake_producer_was _ _ _ Hs)) as [Hfull _].
      by apply wake_producer_asleep in Hs; [|left; by apply Hn].
  - by split.
  - by split.
  - destruct (close_ok f Hcl q Hwf) as (? & Hi & ? & ? & Hw1 & Hw2).
    split; simpl; [done|congruence|by rewrite Hi| |].
    + intros Hs. destruct (Hc (wake_consumer_was _ _ Hs)) as [Hnil _].
      by apply (wake_consumer_asleep (f q).2 c) in Hs; [|right; by apply Hw1].
    + intros b Hs. destruct (Hp _ (wake_producer_was _ _ _ Hs)) as [Hfull _].
      apply (wake_producer_asleep (f q).2 p) in Hs; [done|right; apply Hw2; congruence].
Qed.

Lemma reachable_inv q s :
  bq_wf q -> bq_items q = [] -> rtc step (start q) s -> sys_inv (bq_cap q) s.
Proof.
  intros Hwf Hnil. revert s.
  apply (rtc_ind_r (fun s => sys_inv (bq_cap q) s)); [by split|].
  intros s s' _ Hs Hinv. by eapply step_inv.
Qed.

(** What the invariant says about a reachable state. *)
Definition healthy (cap : nat) (s : system) : Prop :=
  pushed s = popped s ++ bq_items (queue s) /\
  length (bq_items (queue s)) <= cap /\
  (forall b o, bq_push (queue s) b = Some o -> exists r, o = Ret r) /\
  (forall o, bq_pop (queue s) = Some o -> exists r, o = Ret r) /\
  (cons_ s = CAsleep -> bq_items (queue s) = [] /\ bq_closed (queue s) = false) /\
  (forall b, prod s = PAsleep b ->
     length (bq_items (queue s)) = cap /\ bq_closed (queue s) = false) /\
  (0 < cap -> ~ (cons_ s = CAsleep /\ exists b, prod s = PAsleep b)).

Lemma inv_healthy cap s : sys_inv cap s -> healthy cap s.
Proof.
  intros [Hwf Hcap Hf Hc Hp]. split; [done|]. split; [rewrite <- Hcap; by apply bq_bound|].
  split; [|split; [|split; [done|split; [done|]]]].
  - intros b o Ho. destruct (push_cases _ _ _ Hwf Ho) as [[-> _]|(? & ? & -> & _)]; eauto.
  - intros o Ho. destruct (pop_cases _ _ Hwf Ho) as [[-> _]|(? & ? & ? & -> & _)]; eauto.
  - intros Hpos [Ha [b Hb]]. destruct (Hc Ha) as [Hn _], (Hp _ Hb) as [Hl _].
    rewrite Hn in Hl. simpl in Hl. lia.
Qed.
End system.

Lemma buffer_queue_close_ok {B} f :
  Some close_locked = Some f -> forall q : buffer_queue B, bq_ring_wf q ->
    bq_ring_wf (f q).1 /\ queue_items (f q).1 = queue_items q /\
    capacity_ (f q).1 = capacity_ q /\ closed_ (f q).1 = true /\
    (queue_items q = [] -> WakeAllPop ∈ (f q).2) /\
    (length (queue_items q) = capacity_ q -> WakeAllPush ∈ (f q).2).
Proof. intros [= <-] q. apply close_locked_spec. Qed.

(** C6: under every interleaving of a producer and a consumer thread (blocking
    pushes and pops, sleeping, spurious wake-ups and [close_locked] at any
    moment) a [BufferQueue] never indexes outside its array, hands out exactly
    the accepted buffers in order with at most [capacity] in flight, and never
    leaves a thread asleep that could proceed: a sleeping consumer faces an
    empty open queue, a sleeping producer a full open one, so they are never
    both asleep. *)
Theorem buffer_queue_system {B} (moved_from : B -> B) cap (fill : B) s :
  rtc (step (Hq := buffer_queue_bounded moved_from) (Some close_locked))
      (start (BufferQueue cap fill)) s ->
  healthy (Hq := buffer_queue_bounded moved_from) cap s.
Proof.
  intros Hs. apply inv_healthy. apply (reachable_inv (Hq := buffer_queue_bounded moved_from)
    (Some close_locked) buffer_queue_close_ok) in Hs; [done| |done].
  apply queue_empty_wf.
Qed.

(** A [MessageChannel] under the same interleavings (it cannot be closed)
    delivers the sent messages in order, without loss, within its capacity,
    and without a lost wake-up. *)
Theorem message_channel_system {B} cap (fill : B) s :
  rtc (step (Hq := message_channel_bounded) None) (start (MessageChannel cap fill)) s ->
  healthy (Hq := message_channel_bounded) cap s.
Proof.
  intros Hs. apply inv_healthy.
  apply (reachable_inv (Hq := message_channel_bounded) None) in Hs; [done|done| |done].
  split; simpl; [slen|split; lia].
Qed.

Lemma buffer_queue_system_witness :
  exists s : system (Q := buffer_queue nat) (B := nat),
    pushed s = [7] /\ prod s = PAsleep 8 /\
    healthy (Hq := buffer_queue_bounded (fun b : nat => b)) 1 s.
Proof.
  exists (Sys (BQ 1 0 1 false [7]) (PAsleep 8) CIdle [7] []).
  split; [reflexivity|split; [reflexivity|]].
  apply (buffer_queue_system (fun b : nat => b) 1 0).
  eapply rtc_l; [apply (push_call _ _ _ _ _ 7)|].
  eapply rtc_l; [eapply push_turn; reflexivity|].
  eapply rtc_l; [apply (push_call _ _ _ _ _ 8)|].
  eapply rtc_l; [apply push_sleep; reflexivity|]. apply rtc_refl.
Defined.

Lemma message_channel_system_witness :
  exists s : system (Q := message_channel nat) (B := nat),
    pushed s = [7] /\ popped s = [7] /\ cons_ s = CAsleep /\
    healthy (Hq := message_channel_bounded) 2 s.
Proof.
  exists (Sys (MC 1 0 2 [7; 0]) PIdle CAsleep [7] [7]).
  split; [reflexivity|split; [reflexivity|split; [reflexivity|]]].
  apply (message_channel_system 2 0).
  eapply rtc_l; [apply (push_call _ _ _ _ _ 7)|].
  eapply rtc_l; [eapply push_turn; reflexivity|].
  eapply rtc_l; [apply pop_call|].
  eapply rtc_l; [eapply pop_turn; reflexivity|].
  eapply rtc_l; [apply pop_call|].
  eapply rtc_l; [apply pop_sleep; reflexivity|]. apply rtc_refl.
Defined.
