(* ===== verification/BufferedIOStream.v ===== *)
(** [anbox::graphics::BufferedIOStream] (graphics/buffered_io_stream.cpp): the
    byte stream between a guest's GL pipe and its render thread.  It is a client
    of the bounded-queue interface: the theorems below hold for any queue that
    satisfies it and are instantiated at [BufferQueue]. *)

From S2P Require Import Prelude BufferQueue.

Local Open Scope nat_scope.

Definition EINTR : Z := 4.

(** What one [send_raw] on the messenger does: it takes [n] of the offered bytes
    (at most all of them) or fails with [errno]. *)
Inductive send_result := Sent (n : nat) | Failed (errno : Z).

Section stream.
Context {Q : Type} `{BoundedQueue Q bytes} `{!PollableQueue Q bytes} `{!ClosableQueue Q bytes}.

(** [uninit n] are the [n] bytes that [resize_noinit] exposes; [small] is the
    in-place size of a [Buffer]. *)
Context (uninit : nat -> bytes) (small : nat).

Record stream := Stream {
  in_queue_ : Q;
  read_buffer_ : bytes;
  read_buffer_left_ : nat;
  out_queue_ : Q;
  write_buffer_ : bytes;
  write_allocated : bool;         (* write_buffer_.isAllocated() *)
  notified : list notification;   (* wake-ups issued by the queues *)
  request_sequence_ : Z;
  response_sequence_ : Z;
  sent_sequence_ : Z;
  current_opcode_ : Z;
  current_request_size_ : Z
}.

Definition resize_noinit (l : bytes) (n : nat) : bytes :=
  take n l ++ uninit (n - length l).

Definition BufferedIOStream (inq outq : Q) (buffer_size : nat) : stream :=
  Stream inq [] 0 outq (resize_noinit [] buffer_size) (small <? buffer_size) [] 0 0 0 0 0.

Definition set_read (st : stream) q buf nleft ns : stream :=
  Stream q buf nleft (out_queue_ st) (write_buffer_ st) (write_allocated st)
    (notified st ++ ns) (request_sequence_ st) (response_sequence_ st) (sent_sequence_ st)
    (current_opcode_ st) (current_request_size_ st).

Definition set_write (st : stream) q buf alloc ns seq : stream :=
  Stream (in_queue_ st) (read_buffer_ st) (read_buffer_left_ st) q buf alloc
    (notified st ++ ns) (request_sequence_ st) seq (sent_sequence_ st)
    (current_opcode_ st) (current_request_size_ st).

Definition allocBuffer (st : stream) (min_size : nat) : stream :=
  if length (write_buffer_ st) <? min_size then
    set_write st (out_queue_ st) (resize_noinit (write_buffer_ st) min_size)
      (write_allocated st || (small <? min_size)) [] (response_sequence_ st)
  else st.

(** The caller writes [data] through the pointer [allocBuffer] returned. *)
Definition fill (st : stream) (data : bytes) : outcome stream :=
  if length data <=? length (write_buffer_ st) then
    Ret (set_write st (out_queue_ st) (data ++ drop (length data) (write_buffer_ st))
           (write_allocated st) [] (response_sequence_ st))
  else Undef.

(** [None]: the thread sleeps in [push_locked] and will retry. *)
Definition commitBuffer (st : stream) (size : nat) : option (outcome (nat * stream)) :=
  if length (write_buffer_ st) <? size then Some Aborted   (* assert *)
  else
    let seq := u64 (response_sequence_ st + 1) in
    let data := take size (write_buffer_ st) in
    match bq_push (out_queue_ st) data with
    | None => None
    | Some o => Some (
        r <-! o;
        let '(rc, q, ns) := r in
        let '(buf, alloc) :=
          if write_allocated st
          then if (rc =? 0)%Z then ([], false) else (data, true)
          else (write_buffer_ st, false) in
        Ret (size, set_write st q buf alloc ns seq))
    end.

(** * read *)

Inductive read_result :=
  | RData (data : bytes) (st : stream)
  | RNull (st : stream)
  | RBlocked (st : stream).  (* asleep in pop_locked; retried when woken *)

Definition after_pop (st : stream) (count : nat) (dst : bytes)
    (o : outcome (Z * option bytes * Q * list notification))
    : (stream * bytes) + outcome read_result :=
  match o with
  | Ret (rc, ob, q, ns) =>
      if (rc =? 0)%Z then
        match ob with
        | Some b => inl (set_read st q b (length b) ns, dst)
        | None => inr Undef
        end
      else
        let st' := set_read st q (read_buffer_ st) (read_buffer_left_ st) ns in
        if 0 <? count then inr (Ret (RData dst st')) else inr (Ret (RNull st'))
  | Throw e => inr (Throw e)
  | Aborted => inr Aborted
  | Undef => inr Undef
  end.

Definition read_body (wanted : nat) (s : stream * bytes)
    : (stream * bytes) + outcome read_result :=
  let '(st, dst) := s in
  let count := length dst in
  if count <? wanted then
    if 0 <? read_buffer_left_ st then
      let avail := (wanted - count) `min` read_buffer_left_ st in
      if length (read_buffer_ st) <? read_buffer_left_ st then inr Undef
      else
        let chunk := take avail (drop (length (read_buffer_ st) - read_buffer_left_ st)
                                      (read_buffer_ st)) in
        inl (set_read st (in_queue_ st) (read_buffer_ st) (read_buffer_left_ st - avail) [],
             dst ++ chunk)
    else if count =? 0 then
      match bq_pop (in_queue_ st) with
      | None => inr (Ret (RBlocked st))
      | Some o => after_pop st count dst o
      end
    else after_pop st count dst (bq_try_pop (in_queue_ st))
  else inr (Ret (RData dst st)).

(** Every turn copies a byte or takes an item off the queue. *)
Definition read_fuel (st : stream) (wanted : nat) : nat :=
  S (wanted + length (bq_items (in_queue_ st))).

Definition read (st : stream) (wanted : nat) : option (outcome read_result) :=
  loop (read_fuel st wanted) (read_body wanted) (st, []).

Definition post_data (st : stream) (data : bytes) : option (outcome stream) :=
  match bq_push (in_queue_ st) data with
  | None => None
  | Some o => Some (
      r <-! o;
      let '(rc, q, ns) := r in
      Ret (set_read st q (read_buffer_ st) (read_buffer_left_ st) ns))
  end.

Definition needs_data (st : stream) : bool :=
  negb (bq_can_pop (in_queue_ st)).

Definition forceStop (st : stream) : stream :=
  let '(qi, n1) := bq_close (in_queue_ st) in
  let '(qo, n2) := bq_close (out_queue_ st) in
  let st1 := set_read st qi (read_buffer_ st) (read_buffer_left_ st) n1 in
  set_write st1 qo (write_buffer_ st1) (write_allocated st1) n2 (response_sequence_ st1).

Definition trace_request (st : stream) (opcode request_size : Z) : stream :=
  Stream (in_queue_ st) (read_buffer_ st) (read_buffer_left_ st) (out_queue_ st)
    (write_buffer_ st) (write_allocated st) (notified st)
    (u64 (request_sequence_ st + 1)) (response_sequence_ st) (sent_sequence_ st)
    opcode request_size.

(** * The worker thread *)

(** The inner loop of [thread_main] on one buffer: what reached the wire, the
    bytes still to send when the messenger's answers run out, and the answers
    left. *)
Fixpoint send_loop (buffer : bytes) (bytes_left : nat) (net : list send_result)
    : bytes * nat * list send_result :=
  if bytes_left =? 0 then ([], 0, net)
  else
    match net with
    | [] => ([], bytes_left, [])
    | Sent n :: net' =>
        let written := n `min` bytes_left in
        let chunk := take written (drop (length buffer - bytes_left) buffer) in
        let '(w, l, rest) := send_loop buffer (bytes_left - written) net' in
        (chunk ++ w, l, rest)
    | Failed e :: net' =>
        if (e =? EINTR)%Z || (e =? EAGAIN)%Z then send_loop buffer bytes_left net'
        else ([], 0, net')
    end.

Inductive worker_stop :=
  | WAsleep            (* waiting in pop_locked *)
  | WExited            (* the queue was closed and is empty *)
  | WSending (n : nat) (* inside the inner loop, n bytes to go *).

Definition worker_body (s : stream * list send_result * bytes)
    : (stream * list send_result * bytes) + outcome (stream * bytes * worker_stop) :=
  let '(st, net, wire) := s in
  match bq_pop (out_queue_ st) with
  | None => inr (Ret (st, wire, WAsleep))
  | Some (Ret (rc, ob, q, ns)) =>
      let st1 := set_write st q (write_buffer_ st) (write_allocated st) ns
                   (response_sequence_ st) in
      if negb (rc =? 0)%Z && negb (rc =? - EAGAIN)%Z then inr (Ret (st1, wire, WExited))
      else
        let buffer := match ob with Some b => b | None => [] end in
        let st2 := Stream (in_queue_ st1) (read_buffer_ st1) (read_buffer_left_ st1)
          (out_queue_ st1) (write_buffer_ st1) (write_allocated st1) (notified st1)
          (request_sequence_ st1) (response_sequence_ st1) (u64 (sent_sequence_ st1 + 1))
          (current_opcode_ st1) (current_request_size_ st1) in
        let '(w, todo, net') := send_loop buffer (length buffer) net in
        if todo =? 0 then inl (st2, net', wire ++ w)
        else inr (Ret (st2, wire ++ w, WSending todo))
  | Some (Throw e) => inr (Throw e)
  | Some Aborted => inr Aborted
  | Some Undef => inr Undef
  end.

Definition thread_main (st : stream) (net : list send_result)
    : option (outcome (stream * bytes * worker_stop)) :=
  loop (S (length (bq_items (out_queue_ st)))) worker_body (st, net, []).
End stream.

Arguments stream Q : clear implicits.
Arguments read_result Q : clear implicits.

Section proofs.
Context {Q : Type} `{BoundedQueueLaws Q bytes} `{!PollableQueue Q bytes} `{!ClosableQueue Q bytes}.
Context (uninit : nat -> bytes) (small : nat).
Implicit Types (st : stream Q).

(** * read *)

(** The bytes posted but not yet read, in order. *)
Definition pending st : bytes :=
  drop (length (read_buffer_ st) - read_buffer_left_ st) (read_buffer_ st) ++
  concat (bq_items (in_queue_ st)).

Definition stream_wf st : Prop :=
  bq_wf (in_queue_ st) /\ bq_wf (out_queue_ st) /\
  read_buffer_left_ st <= length (read_buffer_ st).

(** The outcome of [read] on a stream whose unread bytes are [P]. *)
Definition read_post (wanted : nat) (P : bytes) (r : outcome (read_result Q)) : Prop :=
  match r with
  | Ret (RData d st') => d = take wanted P /\ (0 < wanted -> d <> []) /\
                         pending st' = drop wanted P /\ stream_wf st'
  | Ret (RNull st') => 0 < wanted /\ P = [] /\ pending st' = [] /\ stream_wf st' /\
                       bq_closed (in_queue_ st') = true
  | Ret (RBlocked st') => 0 < wanted /\ P = [] /\ pending st' = [] /\ stream_wf st' /\
                          bq_closed (in_queue_ st') = false
  | _ => False
  end.

Definition read_inv (wanted : nat) (P : bytes) (s : stream Q * bytes) : Prop :=
  stream_wf s.1 /\ P = s.2 ++ pending s.1 /\ length s.2 <= wanted.

Definition read_measure (wanted : nat) (s : stream Q * bytes) : nat :=
  (wanted - length s.2) + length (bq_items (in_queue_ s.1)).

Lemma read_done wanted P st dst :
  read_inv wanted P (st, dst) -> length dst = wanted \/ pending st = [] ->
  (0 < wanted -> 0 < length dst) -> read_post wanted P (Ret (RData dst st)).
Proof.
  intros (Hwf & -> & Hle) Hor Hpos. simpl in *.
  assert (Hd : dst = take wanted (dst ++ pending st) /\
               pending st = drop wanted (dst ++ pending st)).
  { destruct Hor as [<-|Hp].
    - by rewrite take_app_length, drop_app_length.
    - rewrite Hp, app_nil_r. by rewrite take_ge, drop_ge by done. }
  destruct Hd as [Hd1 Hd2]. split; [done|]. split; [|by split].
  intros Hw ->. simpl in Hpos. lia.
Qed.

Lemma after_pop_spec wanted P st dst o :
  read_inv wanted P (st, dst) -> length dst < wanted -> read_buffer_left_ st = 0 ->
  (bq_pop (in_queue_ st) = Some o \/
   (o = Ret ((- EAGAIN)%Z, None, in_queue_ st, []) /\ bq_items (in_queue_ st) = [] /\
    0 < length dst)) ->
  match after_pop st (length dst) dst o with
  | inl s' => read_inv wanted P s' /\ read_measure wanted s' < read_measure wanted (st, dst)
  | inr r => read_post wanted P r
  end.
Proof.
  intros Hinv Hlt Hleft Ho. pose proof Hinv as (Hwf & -> & Hle). pose proof Hwf as (Hq & Hq' & _).
  simpl in Hle, Hq, Hq'.
  assert (Hpend : pending st = concat (bq_items (in_queue_ st))).
  { unfold pending. by rewrite Hleft, Nat.sub_0_r, drop_all. }
  destruct (bq_items (in_queue_ st)) as [|b rest] eqn:Hi.
  - assert (Hrc : exists rc, o = Ret (rc, None, in_queue_ st, []) /\ (rc =? 0)%Z = false /\
                   (bq_closed (in_queue_ st) = true \/ 0 < length dst)).
    { destruct Ho as [Ho|(-> & _ & ?)]; [|by eauto].
      rewrite bq_pop_empty in Ho by done. destruct (bq_closed (in_queue_ st)) eqn:Hc; [|done].
      simplify_eq. eauto. }
    destruct Hrc as (rc & -> & Hrc & Hcl). unfold after_pop. rewrite Hrc.
    assert (Hsame : stream_wf (set_read st (in_queue_ st) (read_buffer_ st)
               (read_buffer_left_ st) [])) by done.
    destruct (Nat.ltb_spec 0 (length dst)).
    + apply read_done; [by split|right; exact Hpend|lia].
    + destruct dst; [|simpl in *; lia]. destruct Hcl as [Hcl|]; [|simpl in *; lia].
      simpl. split; [simpl in Hlt; lia|]. split; [exact Hpend|]. split; [exact Hpend|]. by split.
  - destruct (bq_pop_ok (in_queue_ st) b rest Hq Hi) as (q' & ns & Hp & ? & Hi' & ? & ? & _).
    destruct Ho as [Ho|(_ & ? & _)]; [|done]. rewrite Hp in Ho. simplify_eq. simpl.
    split; [|unfold read_measure; simpl; rewrite Hi; simpl; lia].
    split; [split; [done|split; [done|simpl; lia]]|]. split; [|simpl; lia].
    rewrite Hpend. unfold pending. simpl. by rewrite Nat.sub_diag.
Qed.

Lemma read_body_spec wanted P s :
  read_inv wanted P s ->
  match read_body wanted s with
  | inl s' => read_inv wanted P s' /\ read_measure wanted s' < read_measure wanted s
  | inr r => read_post wanted P r
  end.
Proof.
  destruct s as [st dst]. intros Hinv. pose proof Hinv as ((Hq & Hq' & Hl) & -> & Hle).
  simpl in *. unfold read_body.
  destruct (Nat.ltb_spec (length dst) wanted); [|apply read_done; [done|left; lia|lia]].
  destruct (Nat.ltb_spec 0 (read_buffer_left_ st)).
  - destruct (Nat.ltb_spec (length (read_buffer_ st)) (read_buffer_left_ st)); [lia|].
    set (n := (wanted - length dst) `min` read_buffer_left_ st).
    split; [|unfold read_measure; slen].
    split; [split; [done|split; [done|slen]]|]. split; [|slen].
    unfold pending. simpl. rewrite <- !app_assoc. f_equal. rewrite app_assoc. f_equal.
    rewrite <- (take_drop n (drop _ (read_buffer_ st))) at 1. f_equal.
    rewrite drop_drop. f_equal. lia.
  - assert (Hz : read_buffer_left_ st = 0) by lia.
    destruct (Nat.eqb_spec (length dst) 0) as [Hd|Hd].
    + destruct (bq_pop (in_queue_ st)) as [o|] eqn:Ep.
      * apply after_pop_spec; auto.
      * destruct (bq_items (in_queue_ st)) as [|b rest] eqn:Hi.
        -- rewrite bq_pop_empty in Ep by done.
           destruct (bq_closed (in_queue_ st)) eqn:Hc; [done|]. destruct dst; [|done].
           assert (Hp : pending st = []).
           { unfold pending. by rewrite Hz, Nat.sub_0_r, drop_all, Hi. }
           simpl in *. by repeat (split; [done || lia|]).
        -- destruct (bq_pop_ok _ b rest Hq Hi) as (? & ? & Hp & _). by rewrite Hp in Ep.
    + apply after_pop_spec; [done|done|done|]. rewrite bq_try_pop_spec by done.
      destruct (bq_pop (in_queue_ st)) as [o|] eqn:Ep; [by left|right].
      split; [done|]. split; [|lia].
      destruct (bq_items (in_queue_ st)) as [|b rest] eqn:Hi; [done|].
      destruct (bq_pop_ok _ b rest Hq Hi) as (? & ? & Hp & _). by rewrite Hp in Ep.
Qed.

Lemma read_spec st wanted :
  stream_wf st -> exists r, read st wanted = Some r /\ read_post wanted (pending st) r.
Proof.
  intros Hwf. unfold read. apply (loop_spec _ (read_measure wanted) (read_inv wanted (pending st))).
  - apply read_body_spec.
  - split; [done|]. split; [done|simpl; lia].
  - unfold read_measure, read_fuel. simpl. lia.
Qed.

(** * The worker *)

(** The socket was only busy, never broken. *)
Definition transient (r : send_result) : Prop :=
  match r with Failed e => e = EINTR \/ e = EAGAIN | Sent _ => True end.

Lemma send_loop_spec buffer todo net w rest_n rest :
  todo <= length buffer -> send_loop buffer todo net = (w, rest_n, rest) ->
  Forall transient net ->
  Forall transient rest /\
  drop (length buffer - todo) buffer = w ++ drop (length buffer - rest_n) buffer /\
  rest_n <= todo.
Proof.
  revert todo w rest_n rest; induction net as [|r net IH]; intros todo w rest_n rest Hle;
    simpl; destruct (Nat.eqb_spec todo 0) as [->|Hz]; intros Hs Hf; simplify_eq;
    try (by repeat split; auto).
  inversion Hf as [|? ? Hr Hf']; subst. destruct r as [n|e].
  - destruct (send_loop buffer (todo - n `min` todo) net) as [[w' l'] r'] eqn:E. simplify_eq.
    assert (Hle' : todo - n `min` todo <= length buffer) by lia.
    destruct (IH _ _ _ _ Hle' E Hf') as (? & Hd & ?). split; [done|]. split; [|lia].
    rewrite <- app_assoc, <- Hd, <- (take_drop (n `min` todo) (drop _ buffer)) at 1.
    rewrite drop_drop. do 2 f_equal. lia.
  - assert (He : ((e =? EINTR) || (e =? EAGAIN))%Z = true) by (destruct Hr; subst; done).
    rewrite He in Hs. by eapply IH.
Qed.

(** The worker's bytes on the wire, for a queue holding [P] in total. *)
Definition worker_post (c : bool) (P : bytes) (r : outcome (stream Q * bytes * worker_stop)) : Prop :=
  match r with
  | Ret (st', wire, WAsleep) => wire = P /\ bq_items (out_queue_ st') = [] /\ stream_wf st'
  | Ret (st', wire, WExited) => wire = P /\ c = true /\ stream_wf st'
  | Ret (st', wire, WSending n) =>
      exists last, P = wire ++ last ++ concat (bq_items (out_queue_ st')) /\ length last = n /\
                   0 < n /\ stream_wf st'
  | _ => False
  end.

Definition worker_inv (c : bool) (P : bytes) (s : stream Q * list send_result * bytes) : Prop :=
  stream_wf s.1.1 /\ Forall transient s.1.2 /\
  P = s.2 ++ concat (bq_items (out_queue_ s.1.1)) /\ bq_closed (out_queue_ s.1.1) = c.

Lemma worker_body_spec c P s :
  worker_inv c P s ->
  match worker_body s with
  | inl s' => worker_inv c P s' /\
              length (bq_items (out_queue_ s'.1.1)) < length (bq_items (out_queue_ s.1.1))
  | inr r => worker_post c P r
  end.
Proof.
  destruct s as [[st net] wire]. intros ((Hqi & Hq & Hl) & Hnet & -> & Hc). simpl in *.
  destruct (bq_items (out_queue_ st)) as [|b rest] eqn:Hi.
  - rewrite bq_pop_empty by done. rewrite Hc. destruct c; simpl; by rewrite app_nil_r.
  - destruct (bq_pop_ok (out_queue_ st) b rest Hq Hi) as (q' & ns & -> & Hq1 & Hi' & ? & ? & _).
    cbn [negb andb Z.eqb].
    destruct (send_loop b (length b) net) as [[w todo] net'] eqn:E.
    destruct (send_loop_spec _ _ _ _ _ _ (Nat.le_refl _) E Hnet) as (? & Hd & Hle).
    rewrite Nat.sub_diag, drop_0 in Hd.
    destruct (Nat.eqb_spec todo 0) as [->|Hz]; simpl.
    + rewrite Nat.sub_0_r, drop_all, app_nil_r in Hd. subst b. rewrite Hi'.
      split; [|simpl; lia]. split; [done|]. split; [done|]. simpl. rewrite Hi', app_assoc. split; [done|congruence].
    + exists (drop (length b - todo) b). rewrite Hi'. split.
      * rewrite Hd at 1. by rewrite <- !app_assoc.
      * split; [slen|]. split; [lia|done].
Qed.

Lemma thread_main_spec st net :
  stream_wf st -> Forall transient net ->
  exists r, thread_main st net = Some r /\ worker_post (bq_closed (out_queue_ st)) (concat (bq_items (out_queue_ st))) r.
Proof.
  intros Hwf Hnet. unfold thread_main.
  apply (loop_spec _ (fun s => length (bq_items (out_queue_ s.1.1)))
           (worker_inv (bq_closed (out_queue_ st)) (concat (bq_items (out_queue_ st))))).
  - apply worker_body_spec.
  - by split.
  - simpl. lia.
Qed.

(** What [allocBuffer; write; commitBuffer] adds to the output queue. *)
Lemma commit_spec st data :
  stream_wf st -> length (bq_items (out_queue_ st)) < bq_cap (out_queue_ st) ->
  bq_closed (out_queue_ st) = false -> (forall n, length (uninit n) = n) ->
  exists st1 st2,
    fill (allocBuffer uninit small st (length data)) data = Ret st1 /\
    commitBuffer st1 (length data) = Some (Ret (length data, st2)) /\ stream_wf st2 /\
    bq_items (out_queue_ st2) = bq_items (out_queue_ st) ++ [data] /\
    bq_cap (out_queue_ st2) = bq_cap (out_queue_ st) /\
    bq_closed (out_queue_ st2) = false.
Proof.
  intros (Hqi & Hq & Hl) Hroom Hopen Hun.
  set (st0 := allocBuffer uninit small st (length data)).
  assert (Hst0 : length data <= length (write_buffer_ st0) /\ out_queue_ st0 = out_queue_ st /\
                 in_queue_ st0 = in_queue_ st /\ read_buffer_ st0 = read_buffer_ st /\
                 read_buffer_left_ st0 = read_buffer_left_ st).
  { unfold st0, allocBuffer. destruct (Nat.ltb_spec (length (write_buffer_ st)) (length data));
      simpl; [|by repeat split].
    unfold resize_noinit. rewrite length_app, Hun. split; [slen|by repeat split]. }
  destruct Hst0 as (Hlen & Ho & Hin & Hrb & Hrl).
  unfold fill. destruct (Nat.leb_spec (length data) (length (write_buffer_ st0))); [|lia].
  destruct (bq_push_ok (out_queue_ st) data Hq Hroom Hopen) as (q' & ns & Hp & ? & ? & ? & ? & _).
  destruct (write_allocated st0) eqn:Ha; do 2 eexists; (split; [reflexivity|]);
  unfold commitBuffer; simpl;
  (destruct (Nat.ltb_spec (length (data ++ drop (length data) (write_buffer_ st0)))
              (length data)); [slen|]);
  rewrite take_app_length, Ho, Hp; simpl; (split; [reflexivity|]);
    (split; [unfold stream_wf; simpl; by rewrite Hin, Hrl, Hrb|by repeat split]).
Qed.
End proofs.

(** * The stream over [BufferQueue] *)

Section io_stream.
(** Buffers are moved into and out of the queue's slots; [moved_from] is what
    a slot holds afterwards. *)
Context (moved_from : bytes -> bytes) (uninit : nat -> bytes).
#[local] Instance queue_bounded : BoundedQueue (buffer_queue bytes) bytes :=
  buffer_queue_bounded moved_from.
#[local] Instance queue_bounded_laws : BoundedQueueLaws (buffer_queue bytes) bytes :=
  buffer_queue_laws moved_from.
#[local] Instance queue_pollable : PollableQueue (buffer_queue bytes) bytes :=
  buffer_queue_pollable moved_from.

Definition io_stream : Type := stream (buffer_queue bytes).

(** The constructor's queues: 1024 buffers in, 16 out. *)
Definition open_stream (buffer_size : nat) : io_stream :=
  BufferedIOStream uninit 512 (BufferQueue 1024 []) (BufferQueue 16 []) buffer_size.

(** A render thread's reads, ending when one blocks or fails. *)
Fixpoint reads (st : io_stream) (ws : list nat) : option (list bytes * io_stream) :=
  match ws with
  | [] => Some ([], st)
  | w :: ws' =>
      match read st w with
      | Some (Ret (RData d st')) =>
          match reads st' ws' with Some (ds, st2) => Some (d :: ds, st2) | None => None end
      | Some (Ret (RNull st')) | Some (Ret (RBlocked st')) => Some ([], st')
      | _ => None
      end
  end.

(** reading splits the posted bytes, whatever the sizes of the posted
    buffers and of the reads: from a stream with unread bytes [P], the reads
    return, never touch memory outside a buffer, and their results followed by
    what is still unread are exactly [P], in order; each result is as long as
    it was asked to be unless it took everything there was. *)
Theorem io_stream_reads st ws :
  stream_wf st ->
  exists ds st', reads st ws = Some (ds, st') /\ stream_wf st' /\
    concat ds ++ pending st' = pending st /\
    Forall2 (fun d w => length d <= w) ds (take (length ds) ws) /\
    (length ds < length ws -> pending st' = []) /\
    (concat ds = take (sum_list ws) (pending st)).
Proof.
  revert st; induction ws as [|w ws IH]; intros st Hwf; simpl.
  - exists [], st. split_and!; auto; simpl; lia.
  - destruct (read_spec st w Hwf) as (r & Hr & Hpost). rewrite Hr.
    destruct r as [[d st1|st1|st1]| | |]; simpl in Hpost; try done.
    + destruct Hpost as (-> & Hne & Hp1 & Hwf1).
      destruct (IH st1 Hwf1) as (ds & st' & Hrs & Hwf' & Hc & Hf & Hlt & Hsum). rewrite Hrs.
      exists (take w (pending st) :: ds), st'. split; [done|]. split; [done|].
      split; [simpl; by rewrite <- app_assoc, Hc, Hp1, take_drop|].
      split; [simpl; constructor; [rewrite length_take; lia|done]|].
      split; [simpl; intros; apply Hlt; lia|].
      simpl. rewrite Hsum, Hp1. apply take_take_drop.
    + destruct Hpost as (? & Hp & Hp1 & Hwf1 & _). exists [], st1.
      split_and!; auto; simpl; [by rewrite Hp, Hp1|by rewrite Hp, take_nil].
    + destruct Hpost as (? & Hp & Hp1 & Hwf1 & _). exists [], st1.
      split_and!; auto; simpl; [by rewrite Hp, Hp1|by rewrite Hp, take_nil].
Qed.

(** [allocBuffer], write, [commitBuffer] for each message of [msgs]. *)
Fixpoint commit_all (st : io_stream) (msgs : list bytes) : option (outcome io_stream) :=
  match msgs with
  | [] => Some (Ret st)
  | data :: msgs' =>
      match fill (allocBuffer uninit 512 st (length data)) data with
      | Ret st1 =>
          match commitBuffer st1 (length data) with
          | Some (Ret (_, st2)) => commit_all st2 msgs'
          | Some _ => Some Undef
          | None => None
          end
      | _ => Some Undef
      end
  end.

Lemma commit_all_spec st msgs :
  (forall n, length (uninit n) = n) -> stream_wf st ->
  closed_ (out_queue_ st) = false ->
  length (queue_items (out_queue_ st)) + length msgs <= capacity_ (out_queue_ st) ->
  exists st', commit_all st msgs = Some (Ret st') /\ stream_wf st' /\
    queue_items (out_queue_ st') = queue_items (out_queue_ st) ++ msgs /\
    closed_ (out_queue_ st') = false.
Proof.
  intros Hun. revert st; induction msgs as [|data msgs IH]; intros st Hwf Hopen Hroom; simpl in *.
  - exists st. by rewrite app_nil_r.
  - destruct (commit_spec uninit 512 st data Hwf) as (st1 & st2 & -> & -> & ? & Hi & Hcap & Hcl);
      simpl in *; [lia|done|done|].
    destruct (IH st2) as (st' & -> & ? & Hi' & ?); [done|done|rewrite Hi, Hcap; slen|].
    exists st'. split; [done|]. split; [done|]. rewrite Hi', Hi. by rewrite <- app_assoc.
Qed.

(** The messages a render thread commits reach the socket in order and
    complete: if the socket is at worst busy (short writes, EINTR, EAGAIN),
    the worker thread returns to its wait with the wire holding exactly the
    concatenation of the committed messages, or is still sending with only a
    suffix of it missing. *)
Theorem io_stream_writes msgs net buffer_size :
  (forall n, length (uninit n) = n) -> length msgs <= 16 -> Forall transient net ->
  exists st, commit_all (open_stream buffer_size) msgs = Some (Ret st) /\
    exists st' wire stop, thread_main st net = Some (Ret (st', wire, stop)) /\
      match stop with
      | WAsleep => wire = concat msgs
      | WSending n => 0 < n /\ exists missing, concat msgs = wire ++ missing /\ n <= length missing
      | WExited => False
      end.
Proof.
  intros Hun Hlen Hnet.
  assert (Hwf : stream_wf (open_stream buffer_size)).
  { split; [apply queue_empty_wf|]. split; [apply queue_empty_wf|simpl; lia]. }
  destruct (commit_all_spec (open_stream buffer_size) msgs Hun Hwf eq_refl) as (st & Hst & Hwf' & Hi & Hcl).
  { simpl. lia. }
  exists st. split; [done|].
  destruct (thread_main_spec st net Hwf' Hnet) as (r & Hr & Hpost).
  simpl in Hpost, Hi. rewrite Hi, Hcl in Hpost.
  destruct r as [[[st' wire] stop]| | |]; try done.
  exists st', wire, stop. split; [done|]. destruct stop as [| |n]; simpl in Hpost.
  - by destruct Hpost.
  - by destruct Hpost as (_ & ? & _).
  - destruct Hpost as (last & Hp & Hl & ? & _). split; [done|].
    exists (last ++ concat (queue_items (out_queue_ st'))). split; [done|]. slen.
Qed.
End io_stream.

(** A stream with two posted buffers; reads of 1, 3 and 9 bytes. *)
Definition demo_uninit (n : nat) : bytes := replicate n x00.
Definition demo_post (st : io_stream) (d : bytes) : io_stream :=
  match post_data (H := buffer_queue_bounded (fun b => b)) st d with
  | Some (Ret st') => st'
  | _ => st
  end.
Definition demo_stream : io_stream :=
  demo_post (demo_post (open_stream demo_uninit 4) (str "ab")) (str "cde").

Lemma io_stream_reads_witness :
  exists ds st', reads (fun b => b) demo_stream [1; 3; 9] = Some (ds, st') /\
    ds = [str "a"; str "bcd"; str "e"] /\ concat ds = str "abcde".
Proof.
  assert (Hwf : stream_wf (H := buffer_queue_bounded (fun b => b)) demo_stream).
  { repeat split; try (vm_compute; lia); try (left; vm_compute; lia). }
  destruct (io_stream_reads (fun b => b) demo_stream [1; 3; 9] Hwf)
    as (ds & st' & Hr & _ & _ & _ & _ & Hsum).
  exists ds, st'. split; [exact Hr|].
  assert (Hc : exists x, reads (fun b => b) demo_stream [1; 3; 9] = Some x /\
            x.1 = [str "a"; str "bcd"; str "e"]).
  { eexists. split; [vm_compute; reflexivity|reflexivity]. }
  destruct Hc as ([ds0 st0] & Hc & Hds). rewrite Hc in Hr. injection Hr as <- <-.
  simpl in Hds. subst ds0. split; reflexivity.
Defined.

Definition demo_net : list send_result := [Sent 2; Failed EAGAIN; Sent 9; Sent 9].
Definition demo_wire : option (bytes * bool) :=
  match commit_all (fun b => b) demo_uninit (open_stream demo_uninit 4) [str "hello"; str "x"] with
  | Some (Ret st) =>
      match thread_main (H := queue_bounded (fun b => b)) st demo_net with
      | Some (Ret (_, wire, WAsleep)) => Some (wire, true)
      | Some (Ret (_, wire, _)) => Some (wire, false)
      | _ => None
      end
  | _ => None
  end.

Lemma io_stream_writes_witness : demo_wire = Some (concat [str "hello"; str "x"], true).
Proof.
  destruct (io_stream_writes (fun b => b) demo_uninit [str "hello"; str "x"] demo_net 4)
    as (st & Hst & st' & wire & stop & Hr & Hpost).
  - intros n. apply length_replicate.
  - simpl. lia.
  - repeat (constructor; [first [exact I | right; reflexivity]|]). constructor.
  - assert (Hb : exists w, demo_wire = Some (w, true)) by (eexists; vm_compute; reflexivity).
    destruct Hb as [w Hb]. unfold demo_wire in *. rewrite Hst, Hr in Hb. rewrite Hst, Hr.
    destruct stop; [|discriminate Hb..]. subst wire. reflexivity.
Defined.
