(* ===== verification/BinaryWriter.v ===== *)
(** [anbox::common::BinaryWriter] (common/binary_writer.cpp) and its client
    [anbox::android::IpConfigBuilder] (android/ip_config_builder.cpp), which
    writes the guest's network configuration file. *)

From S2P Require Import Prelude.

Local Open Scope nat_scope.

(** * BinaryWriter *)

Inductive order := Big | Little.

(** The region [begin_ .. end_) of the vector, and [current_ - begin_]. *)
Record writer := Writer {
  buf : bytes;
  current : nat;
  byte_order_ : order
}.

(** A 16 or 32 bit integer in the memory of the host. *)
Definition native_bytes (little : bool) (n : nat) (v : Z) : bytes :=
  if little then le_bytes n v else be_bytes n v.
Definition native_value (little : bool) (l : bytes) : Z :=
  if little then le_value l else be_value l.

(** boost::endian conversions: the identity or a byte swap of the value. *)
Definition native_to_big (little : bool) (n : nat) (v : Z) : Z :=
  if little then be_value (le_bytes n v) else v.
Definition native_to_little (little : bool) (n : nat) (v : Z) : Z :=
  if little then v else be_value (le_bytes n v).

Definition make_writer (little : bool) (region : bytes) : writer :=
  Writer region 0 (if little then Little else Big).

Definition set_byte_order (w : writer) (o : order) : writer := Writer (buf w) (current w) o.

Definition write_at (w : writer) (bs : bytes) : writer :=
  Writer (take (current w) (buf w) ++ bs ++ drop (current w + length bs) (buf w))
    (current w + length bs) (byte_order_ w).

Definition write_int (little : bool) (n : nat) (w : writer) (value : Z) : outcome writer :=
  if length (buf w) <? current w + n then Throw OutOfRange
  else
    let v := match byte_order_ w with
             | Big => native_to_big little n value
             | Little => native_to_little little n value
             end in
    Ret (write_at w (native_bytes little n v)).

Definition write_uint16 (little : bool) (w : writer) (value : Z) : outcome writer :=
  write_int little 2 w value.
Definition write_uint32 (little : bool) (w : writer) (value : Z) : outcome writer :=
  write_int little 4 w value.

Definition write_string (w : writer) (s : bytes) : outcome writer :=
  if length (buf w) <? current w + length s then Throw OutOfRange
  else Ret (write_at w s).

(** The size is converted to [std::uint16_t]. *)
Definition write_string_with_size (little : bool) (w : writer) (s : bytes) : outcome writer :=
  w1 <-! write_uint16 little w (u16 (Z.of_nat (length s))); write_string w1 s.

Definition bytes_written (w : writer) : nat := current w.

(** * IpConfigBuilder *)

Inductive version := Version1 | Version2.
Inductive assignment := Static | DHCP.

Record ip_config := IpConfig {
  version_ : version;
  assignment_ : assignment;
  link_address : bytes;
  link_prefix_length : Z;
  gateway_ : bytes;
  dns_servers_ : list bytes;
  id_ : Z
}.

Definition set_version (c : ip_config) v := IpConfig v (assignment_ c) (link_address c)
  (link_prefix_length c) (gateway_ c) (dns_servers_ c) (id_ c).
Definition set_assignment (c : ip_config) a := IpConfig (version_ c) a (link_address c)
  (link_prefix_length c) (gateway_ c) (dns_servers_ c) (id_ c).
Definition set_link_address (c : ip_config) a p := IpConfig (version_ c) (assignment_ c) a p
  (gateway_ c) (dns_servers_ c) (id_ c).
Definition set_gateway (c : ip_config) g := IpConfig (version_ c) (assignment_ c)
  (link_address c) (link_prefix_length c) g (dns_servers_ c) (id_ c).
Definition set_dns_servers (c : ip_config) ds := IpConfig (version_ c) (assignment_ c)
  (link_address c) (link_prefix_length c) (gateway_ c) ds (id_ c).
Definition set_id (c : ip_config) i := IpConfig (version_ c) (assignment_ c) (link_address c)
  (link_prefix_length c) (gateway_ c) (dns_servers_ c) i.

Definition version_value (v : version) : Z := match v with Version1 => 1 | Version2 => 2 end.
Definition assignment_to_string (a : assignment) : bytes :=
  match a with Static => str "STATIC" | DHCP => str "DHCP" end.

Definition is_default_gateway : Z := 0.
Definition gateway_is_present : Z := 1.

Fixpoint write_strings (little : bool) (w : writer) (ss : list bytes) : outcome writer :=
  match ss with
  | [] => Ret w
  | s :: ss' => w1 <-! write_string_with_size little w s; write_strings little w1 ss'
  end.

(** [IpConfigBuilder::write]: the writer afterwards and [bytes_written()]. *)
Definition ip_config_write (little : bool) (c : ip_config) (w : writer) : outcome (writer * nat) :=
  let w := set_byte_order w Big in
  w <-! write_uint32 little w (version_value (version_ c));
  w <-! write_string_with_size little w (str "ipAssignment");
  w <-! write_string_with_size little w (assignment_to_string (assignment_ c));
  w <-! write_string_with_size little w (str "linkAddress");
  w <-! write_string_with_size little w (link_address c);
  w <-! write_uint32 little w (link_prefix_length c);
  w <-! write_string_with_size little w (str "gateway");
  w <-! write_uint32 little w is_default_gateway;
  w <-! write_uint32 little w gateway_is_present;
  w <-! write_string_with_size little w (gateway_ c);
  w <-! write_string_with_size little w (str "dns");
  w <-! write_strings little w (dns_servers_ c);
  w <-! write_string_with_size little w (str "id");
  w <-! write_uint32 little w (id_ c);
  w <-! write_string_with_size little w (str "eos");
  Ret (w, bytes_written w).

(** * Specification: the byte layout *)

Definition enc_int (o : order) (n : nat) (v : Z) : bytes :=
  match o with Big => be_bytes n v | Little => le_bytes n v end.
Definition enc_string (o : order) (s : bytes) : bytes :=
  enc_int o 2 (u16 (Z.of_nat (length s))) ++ s.

(** All or nothing: [bs] is written after what was there, or the buffer is
    exhausted. *)
Definition put (w : writer) (bs : bytes) : outcome writer :=
  if length (buf w) <? current w + length bs then Throw OutOfRange else Ret (write_at w bs).

Definition layout (c : ip_config) : bytes :=
  enc_int Big 4 (version_value (version_ c)) ++
  enc_string Big (str "ipAssignment") ++
  enc_string Big (assignment_to_string (assignment_ c)) ++
  enc_string Big (str "linkAddress") ++
  enc_string Big (link_address c) ++
  enc_int Big 4 (link_prefix_length c) ++
  enc_string Big (str "gateway") ++
  enc_int Big 4 is_default_gateway ++
  enc_int Big 4 gateway_is_present ++
  enc_string Big (gateway_ c) ++
  enc_string Big (str "dns") ++
  concat (enc_string Big <$> dns_servers_ c) ++
  enc_string Big (str "id") ++
  enc_int Big 4 (id_ c) ++
  enc_string Big (str "eos").

(** A reader of the layout: integers, counted strings, fixed keys. *)
Definition get_int (n : nat) (l : bytes) : option (Z * bytes) :=
  if length l <? n then None else Some (be_value (take n l), drop n l).
Definition get_string (l : bytes) : option (bytes * bytes) :=
  r ← get_int 2 l;
  let n := Z.to_nat r.1 in
  if length r.2 <? n then None else Some (take n r.2, drop n r.2).
Definition get_key (k : bytes) (l : bytes) : option bytes :=
  r ← get_string l; if bytes_eqb r.1 k then Some r.2 else None.

(** The servers end at the key "id". *)
Fixpoint get_servers (fuel : nat) (l : bytes) : option (list bytes * bytes) :=
  match fuel with
  | O => None
  | S fuel' =>
      r ← get_string l;
      if bytes_eqb r.1 (str "id") then Some ([], r.2)
      else r' ← get_servers fuel' r.2; Some (r.1 :: r'.1, r'.2)
  end.

Definition parse_ip_config (l : bytes) : option ip_config :=
  v ← get_int 4 l;
  l1 ← get_key (str "ipAssignment") v.2;
  a ← get_string l1;
  l2 ← get_key (str "linkAddress") a.2;
  addr ← get_string l2;
  plen ← get_int 4 addr.2;
  l3 ← get_key (str "gateway") plen.2;
  dflt ← get_int 4 l3;
  present ← get_int 4 dflt.2;
  gw ← get_string present.2;
  l4 ← get_key (str "dns") gw.2;
  ds ← get_servers (length l4) l4;
  i ← get_int 4 ds.2;
  l5 ← get_key (str "eos") i.2;
  match l5 with
  | [] => Some (IpConfig (if (v.1 =? 1)%Z then Version1 else Version2)
                  (if bytes_eqb a.1 (str "STATIC") then Static else DHCP)
                  addr.1 plen.1 gw.1 ds.1 i.1)
  | _ => None
  end.

(** * Proofs *)

Lemma native_roundtrip little o n v :
  native_bytes little n (match o with
                         | Big => native_to_big little n v
                         | Little => native_to_little little n v
                         end) = enc_int o n v.
Proof.
  assert (Hswap : le_bytes n (be_value (le_bytes n v)) = be_bytes n v).
  { unfold be_value, be_bytes. rewrite <- (length_le_bytes n v) at 1.
    rewrite <- length_reverse. apply le_bytes_value. }
  destruct little, o; simpl; try done.
  unfold be_bytes at 1. rewrite Hswap. unfold be_bytes. apply reverse_involutive.
Qed.

Lemma length_enc_int o n v : length (enc_int o n v) = n.
Proof. destruct o; [apply length_be_bytes|apply length_le_bytes]. Qed.

Lemma write_int_put little n w v : write_int little n w v = put w (enc_int (byte_order_ w) n v).
Proof. unfold write_int, put. by rewrite native_roundtrip, length_enc_int. Qed.

Lemma put_put w a b : (w' <-! put w a; put w' b) = put w (a ++ b).
Proof.
  unfold put. rewrite length_app.
  destruct (Nat.ltb_spec (length (buf w)) (current w + length a)); simpl.
  { by destruct (Nat.ltb_spec (length (buf w)) (current w + (length a + length b))); [|lia]. }
  assert (Hl : length (take (current w) (buf w) ++ a ++ drop (current w + length a) (buf w)) =
               length (buf w)) by slen.
  rewrite Hl, Nat.add_assoc. destruct (Nat.ltb_spec (length (buf w))
    (current w + length a + length b)); [done|].
  unfold write_at. simpl. rewrite length_app. f_equal. f_equal; [|lia].
  rewrite (app_assoc (take (current w) (buf w))), take_app_length' by slen.
  rewrite <- !app_assoc. do 3 f_equal.
  rewrite drop_app_ge by slen. rewrite drop_app_ge by slen. rewrite drop_drop. f_equal. slen.
Qed.

Lemma put_order w bs w' : put w bs = Ret w' -> byte_order_ w' = byte_order_ w.
Proof. unfold put. case_match; [done|]. by intros [= <-]. Qed.

Lemma write_string_put w s : write_string w s = put w s.
Proof. done. Qed.

Lemma write_string_with_size_put little w s :
  write_string_with_size little w s = put w (enc_string (byte_order_ w) s).
Proof.
  unfold write_string_with_size, write_uint16. rewrite write_int_put. apply put_put.
Qed.

Definition wf (w : writer) : Prop := current w <= length (buf w).

Lemma put_nil w : wf w -> put w [] = Ret w.
Proof.
  intros Hw. unfold put, write_at. simpl. rewrite Nat.add_0_r.
  destruct (Nat.ltb_spec (length (buf w)) (current w)); [unfold wf in Hw; lia|].
  rewrite take_drop. by destruct w.
Qed.

Lemma put_wf w bs w' : put w bs = Ret w' -> wf w'.
Proof. unfold put, wf. case_match; [done|]. bdestruct_all. intros [= <-]. slen. Qed.

(** A continuation of a [put] may use that the writer is well formed and that
    its byte order is unchanged. *)
Lemma put_bind w bs {B} (f g : writer -> outcome B) :
  (forall w', wf w' -> byte_order_ w' = byte_order_ w -> f w' = g w') ->
  obind (put w bs) f = obind (put w bs) g.
Proof.
  intros Hfg. destruct (put w bs) eqn:E; simpl; try done.
  apply Hfg; [by eapply put_wf | by eapply put_order].
Qed.

Lemma write_strings_put little w ss :
  wf w -> write_strings little w ss = put w (concat (enc_string (byte_order_ w) <$> ss)).
Proof.
  revert w; induction ss as [|s ss IH]; intros w Hw; simpl; [by rewrite put_nil|].
  rewrite write_string_with_size_put, <- put_put. apply put_bind. intros w' Hw' Ho.
  by rewrite IH, Ho.
Qed.

(** Fuses two writes that follow each other in a longer sequence. *)
Lemma put_fuse w a b {B} (f : writer -> outcome B) :
  (w1 <-! put w a; w2 <-! put w1 b; f w2) = (w2 <-! put w (a ++ b); f w2).
Proof. rewrite <- put_put, obind_assoc. done. Qed.

(** The write of the whole configuration is one [put] of its layout. *)
Lemma ip_config_write_put little c w :
  wf w ->
  ip_config_write little c w =
    (w' <-! put (set_byte_order w Big) (layout c); Ret (w', bytes_written w')).
Proof.
  intros Hw. unfold ip_config_write, write_uint32. cbv zeta.
  rewrite write_int_put. simpl byte_order_.
  unfold layout. rewrite <- put_fuse. apply put_bind. intros w1 _ Ho1.
  repeat first
    [ rewrite <- put_fuse
    | rewrite write_int_put | rewrite write_string_with_size_put
    | rewrite write_strings_put by done
    | match goal with
      | H : byte_order_ ?w = byte_order_ (set_byte_order _ Big) |- _ => simpl in H
      | H : byte_order_ ?w = Big |- context [byte_order_ ?w] => rewrite H
      | H : byte_order_ ?w' = byte_order_ ?w, H' : byte_order_ ?w = Big |- _ => rewrite H' in H
      end
    | apply put_bind; intros ? ? ? ].
  done.
Qed.

(** ** Reading the layout back *)

Lemma get_int_enc n v k :
  (0 <= v < 2 ^ (8 * Z.of_nat n))%Z -> get_int n (enc_int Big n v ++ k) = Some (v, k).
Proof.
  intros Hv. unfold get_int, enc_int. rewrite length_app, length_be_bytes.
  destruct (Nat.ltb_spec (n + length k) n); [lia|].
  rewrite take_app_length', drop_app_length' by (by rewrite length_be_bytes).
  by rewrite be_value_bytes, Z.mod_small.
Qed.

#[local] Arguments enc_string : simpl never.
#[local] Arguments str : simpl never.

(** A string whose length fits the 16 bit counter. *)
Definition short (s : bytes) : Prop := (Z.of_nat (length s) < 2 ^ 16)%Z.

Lemma get_string_enc s k : short s -> get_string (enc_string Big s ++ k) = Some (s, k).
Proof.
  unfold short. intros Hs. unfold get_string, enc_string.
  assert (Hn : u16 (Z.of_nat (length s)) = Z.of_nat (length s)).
  { unfold u16. apply Z.mod_small. lia. }
  rewrite Hn, <- app_assoc, get_int_enc by (simpl; lia). simpl.
  rewrite Nat2Z.id, length_app. destruct (Nat.ltb_spec (length s + length k) (length s)); [lia|].
  by rewrite take_app_length, drop_app_length.
Qed.

Lemma get_key_enc s k : short s -> get_key s (enc_string Big s ++ k) = Some k.
Proof.
  intros Hs. unfold get_key, bytes_eqb. rewrite get_string_enc by done. simpl.
  by rewrite bool_decide_eq_true_2.
Qed.

Lemma get_servers_S fuel l :
  get_servers (S fuel) l =
    r ← get_string l;
    if bytes_eqb r.1 (str "id") then Some ([], r.2)
    else r' ← get_servers fuel r.2; Some (r.1 :: r'.1, r'.2).
Proof. done. Qed.

Lemma get_servers_enc ss k fuel :
  Forall short ss -> Forall (fun s => s <> str "id") ss -> length ss < fuel ->
  get_servers fuel (concat (enc_string Big <$> ss) ++ enc_string Big (str "id") ++ k) =
    Some (ss, k).
Proof.
  revert fuel; induction ss as [|s ss IH]; intros [|fuel] H1 H2 Hf; cbn [length] in Hf; try lia.
  - change (concat (enc_string Big <$> []) ++ ?l) with l. rewrite get_servers_S.
    rewrite get_string_enc by (by vm_compute). done.
  - apply Forall_cons in H1 as [Hs H1]. apply Forall_cons in H2 as [Hi H2].
    rewrite fmap_cons, concat_cons, <- app_assoc, get_servers_S, get_string_enc by done.
    cbn [fst snd mbind option_bind]. unfold bytes_eqb.
    rewrite bool_decide_eq_false_2, IH by (done || lia). done.
Qed.

Lemma length_enc_string s : length (enc_string Big s) = 2 + length s.
Proof. unfold enc_string. by rewrite length_app, length_enc_int. Qed.

Lemma length_servers ss k :
  length ss < length (concat (enc_string Big <$> ss) ++ enc_string Big (str "id") ++ k).
Proof.
  induction ss as [|s ss IH]; cbn [fmap list_fmap concat].
  - change (concat []) with (@nil byte). rewrite app_nil_l, length_app, length_enc_string. cbn. lia.
  - simpl length at 1. rewrite <- app_assoc, length_app, length_enc_string. lia.
Qed.

(** What the file format can carry: counted strings and 32 bit integers, and
    no server that reads like the key that ends the list. *)
Record encodable (c : ip_config) : Prop := {
  enc_address : short (link_address c);
  enc_gateway : short (gateway_ c);
  enc_servers : Forall short (dns_servers_ c);
  enc_servers_id : Forall (fun s => s <> str "id") (dns_servers_ c);
  enc_prefix : in_u32 (link_prefix_length c);
  enc_id : in_u32 (id_ c)
}.

Lemma parse_layout c : encodable c -> parse_ip_config (layout c) = Some c.
Proof.
  intros []. unfold in_u32 in *. unfold parse_ip_config, layout.
  rewrite get_int_enc by (destruct (version_ c); simpl; lia). cbn [mbind option_bind snd fst].
  assert (Hs : forall s, length s < 20 -> short s) by (unfold short; intros; lia).
  repeat (first [rewrite get_key_enc by (apply Hs; vm_compute; lia)
    | rewrite get_string_enc by (done || (apply Hs; destruct (assignment_ c); vm_compute; lia))
    | rewrite get_int_enc by (done || (unfold is_default_gateway, gateway_is_present; simpl; lia))
    | rewrite get_servers_enc by (done || apply length_servers)]; cbn [mbind option_bind snd fst]).
  rewrite <- (app_nil_r (enc_string Big (str "eos"))).
  rewrite get_key_enc by (apply Hs; vm_compute; lia). cbn [mbind option_bind snd fst].
  destruct c as [[] [] ? ? ? ? ?]; done.
Qed.

(** [IpConfigBuilder::write] on a fresh writer either throws
    [std::out_of_range], exactly when the region is smaller than the encoding,
    or lays out the whole configuration at the start of the region and reports
    its length; the rest of the region is unchanged.  The bytes do not depend
    on the host's endianness, and reading them back gives the configuration. *)
Theorem ip_config_roundtrip (little : bool) (c : ip_config) (region : bytes) :
  encodable c ->
  let n := length (layout c) in
  ip_config_write little c (make_writer little region) =
    (if length region <? n then Throw OutOfRange
     else Ret (Writer (layout c ++ drop n region) n Big, n)) /\
  parse_ip_config (take n (layout c ++ drop n region)) = Some c.
Proof.
  intros Hc n. split; [|by subst n; rewrite take_app_length, parse_layout].
  rewrite ip_config_write_put by (unfold wf; simpl; lia).
  unfold put, write_at, make_writer, set_byte_order. cbn [buf current byte_order_].
  fold n. rewrite take_0, Nat.add_0_l. by destruct (length region <? n).
Qed.

Definition example_config : ip_config :=
  IpConfig Version2 Static (str "192.168.250.2") 24 (str "192.168.250.1") [str "8.8.8.8"] 0.

Lemma ip_config_roundtrip_witness :
  encodable example_config /\
  ip_config_write true example_config (make_writer true (replicate 20 x00)) = Throw OutOfRange.
Proof.
  assert (H : encodable example_config).
  { split; unfold short, in_u32; simpl; repeat constructor; try lia; done. }
  split; [done|]. rewrite (proj1 (ip_config_roundtrip true _ (replicate 20 x00) H)). reflexivity.
Defined.

(** The counter wraps: a string of 65536 bytes is announced as empty, so the
    reader of the layout gets the empty string back. *)
Lemma long_string_truncated (s k : bytes) :
  length s = Z.to_nat 65536 -> get_string (enc_string Big s ++ k) = Some ([], s ++ k).
Proof.
  intros Hs. unfold get_string, enc_string.
  assert (Hn : u16 (Z.of_nat (length s)) = 0%Z).
  { rewrite Hs, Z2Nat.id by lia. reflexivity. }
  rewrite Hn, <- app_assoc, get_int_enc by (simpl; lia). simpl.
  by rewrite take_0, drop_0.
Qed.
