(* ===== verification/Rpc.v ===== *)
(** The RPC layer between the host and the Android container (src rpc/):
    [PendingCallCache], [Channel] and [MessageProcessor].  A channel and the
    processor of the same connection share one cache; [state] holds both.
    Protobuf is the class [Protobuf]: the generated classes' serialisers and
    parsers, with the round trip as its law. *)

From S2P Require Import Prelude.

Local Open Scope nat_scope.

(** * Messages *)

(** anbox_rpc.proto *)
Record invocation := Invocation {
  id : Z;
  method_name : bytes;
  parameters : bytes;
  protocol_version : Z
}.
Record result := Result {
  result_id : option Z;
  response : option bytes;
  events : list bytes
}.

Definition header_size : nat := 4.
Definition type_invocation : byte := x00.
Definition type_response : byte := x01.

(** Serialisation ([SerializeToArray] of a complete message) and parsing
    ([ParseFromArray]); [parse_into o] is [ParseFromString] of the generated
    class of the response object [o]. *)
Class Protobuf := {
  ser_invocation : invocation -> bytes;
  parse_invocation : bytes -> option invocation;
  ser_result : result -> bytes;
  parse_result : bytes -> option result;
  parse_into : nat -> bytes -> bool
}.

Definition int_max : Z := 2 ^ 31 - 1.
Definition size_fits_protobuf_int (size : nat) : bool := (Z.of_nat size <=? int_max)%Z.

Definition in_range (i : option Z) : Prop := match i with Some z => in_u32 z | None => True end.

Class ProtobufLaws `{Protobuf} := {
  parse_ser_invocation i : in_u32 (id i) -> in_u32 (protocol_version i) ->
    size_fits_protobuf_int (length (ser_invocation i)) = true ->
    parse_invocation (ser_invocation i) = Some i;
  parse_ser_result r : in_range (result_id r) ->
    size_fits_protobuf_int (length (ser_result r)) = true ->
    parse_result (ser_result r) = Some r
}.

(** * State *)

(** [PendingCallCache::PendingCall]: a response object and a closure (null
    when none is set). *)
Record pending_call := PendingCall { resp : nat; complete : option nat }.

(** What the layer does to its surroundings. *)
Inductive effect :=
  | Sent (data : bytes)               (* sender_->send *)
  | Run (closure : nat)               (* complete->Run() *)
  | Dispatch (i : invocation)         (* dispatch(Invocation(..)) *)
  | EventSequence (raw : bytes).      (* process_event_sequence *)

Record state := State {
  buffer_ : bytes;                    (* MessageProcessor::buffer_ *)
  pending_calls_ : gmap Z pending_call; (* std::map<int, PendingCall> *)
  objects : gmap nat bytes;           (* what response objects were parsed from *)
  next_message_id : Z;                (* static uint32 in Channel::next_id *)
  log : list effect
}.

Definition init : state := State [] ∅ ∅ 0 [].

Definition set_buffer (b : bytes) (s : state) : state :=
  State b (pending_calls_ s) (objects s) (next_message_id s) (log s).
Definition set_pending (p : gmap Z pending_call) (s : state) : state :=
  State (buffer_ s) p (objects s) (next_message_id s) (log s).
Definition set_objects (o : gmap nat bytes) (s : state) : state :=
  State (buffer_ s) (pending_calls_ s) o (next_message_id s) (log s).
Definition set_next_id (n : Z) (s : state) : state :=
  State (buffer_ s) (pending_calls_ s) (objects s) n (log s).
Definition emit (e : effect) : M state unit := modify (fun s =>
  State (buffer_ s) (pending_calls_ s) (objects s) (next_message_id s) (log s ++ [e])).

(** * PendingCallCache *)

(** A [uint32] id indexes a [std::map<int, ..>]: it is converted. *)
Definition save_completion_details (i : invocation) (response : nat) (complete : option nat)
    : M state unit :=
  modify (fun s => set_pending
    (<[i32 (id i) := PendingCall response complete]> (pending_calls_ s)) s).

Definition populate_message_for_result {A} (rid : Z) (populator : nat -> M state A) : M state A :=
  s ← get;
  match pending_calls_ s !! i32 rid with
  | Some c => populator (resp c)
  | None => throw OutOfRange
  end.

Definition complete_response (rid : Z) : M state unit :=
  s ← get;
  match pending_calls_ s !! i32 rid with
  | Some c =>
      modify (set_pending (delete (i32 rid) (pending_calls_ s))) ≫= fun _ =>
      match complete c with Some f => emit (Run f) | None => mret tt end
  | None => mret tt
  end.

(** [force_completion] runs each closure without the null check. *)
Definition force_completion : M state unit :=
  s ← get;
  _ ← for_each (fun kc : Z * pending_call =>
        match complete kc.2 with Some f => emit (Run f) | None => lift Undef end)
      (by_key (pending_calls_ s));
  modify (set_pending ∅).

Definition cache_empty (s : state) : bool := bool_decide (pending_calls_ s = ∅).

Section rpc.
Context `{Protobuf}.

(** * Channel *)

(** The counter is a static variable: one for all channels, and not atomic.  It
    is a part of the connection's state here, so what is proved is of one
    channel whose calls nothing else numbers. *)
Definition next_id : M state Z :=
  s ← get; _ ← modify (set_next_id (u32 (next_message_id s + 1))); mret (next_message_id s).

(** A message handed to the layer: its serialisation, or [None] when
    [SerializeToArray] fails. *)
Definition serialize_to_array_or_throw (m : option bytes) : M state bytes :=
  match m with
  | Some b => if size_fits_protobuf_int (length b) then mret b else throw RuntimeError
  | None => throw RuntimeError
  end.

Definition invocation_for (method : bytes) (request : option bytes) : M state invocation :=
  b ← serialize_to_array_or_throw request;
  n ← next_id;
  mret (Invocation n method b 1).

Definition header (type : byte) (size : nat) : bytes :=
  let z := Z.of_nat size in
  [to_byte (Z.land (Z.shiftr z 16) 255); to_byte (Z.land (Z.shiftr z 8) 255);
   to_byte (Z.land (Z.shiftr z 0) 255); type].

Definition notify_disconnected : M state unit := force_completion.

(** [sent] is the answer of [sender_->send]: whether it returned. *)
Definition send_message (sent : bool) (type : byte) (body : bytes) : M state unit :=
  b ← serialize_to_array_or_throw (Some body);
  if sent then emit (Sent (header type (length b) ++ b))
  else _ ← notify_disconnected; throw SystemError.

Definition call_method (sent : bool) (method : bytes) (request : option bytes)
    (response : nat) (complete : option nat) : M state unit :=
  i ← invocation_for method request;
  _ ← save_completion_details i response complete;
  send_message sent type_invocation (ser_invocation i).

Definition send_event (sent : bool) (event : option bytes) : M state unit :=
  b ← serialize_to_array_or_throw event;
  send_message sent type_response (ser_result (Result None None [b])).

(** * MessageProcessor *)

(** The outcome of the subclass's virtual [dispatch]. *)
Context (dispatched : invocation -> outcome unit).

Definition dispatch (i : invocation) : M state unit :=
  _ ← emit (Dispatch i); lift (dispatched i).

Definition process_event_sequence (raw : bytes) : M state unit := emit (EventSequence raw).

(** The body of [process_data]'s loop for one complete message: [false] when it
    returns [false]. *)
Definition handle_response (r : result) : M state bool :=
  parsed_response ← match result_id r with
    | Some rid =>
        ok ← populate_message_for_result rid (fun o =>
               let raw := default [] (response r) in
               _ ← modify (fun s => set_objects (<[o := raw]> (objects s)) s);
               mret (parse_into o raw));
        if ok : bool then _ ← complete_response rid; mret true else mret false
    | None => mret true
    end;
  if parsed_response : bool then _ ← for_each process_event_sequence (events r); mret true
  else mret false.

Definition handle_message (type : byte) (body : bytes) : M state bool :=
  if Byte.eqb type type_invocation then
    match (if size_fits_protobuf_int (length body) then parse_invocation body else None) with
    | Some i => _ ← dispatch i; mret true
    | None => mret false
    end
  else if Byte.eqb type type_response then
    match (if size_fits_protobuf_int (length body) then parse_result body else None) with
    | Some r => handle_response r
    | None => mret false
    end
  else mret true.

Definition message_size (high medium low : byte) : nat :=
  Z.to_nat (Z.shiftl (bval high) 16 + Z.shiftl (bval medium) 8 + bval low).

(** One turn of [while (buffer_.size() > 0)]. *)
Definition process_step (s : state) : state + state * outcome bool :=
  match buffer_ s with
  | high :: medium :: low :: type :: rest =>
      let size := message_size high medium low in
      if length (buffer_ s) <? size + header_size then inr (s, Ret true)
      else match handle_message type (take size rest) s with
           | (s', Ret true) => inl (set_buffer (drop (header_size + size) (buffer_ s')) s')
           | (s', o) => inr (s', o)
           end
  | _ => inr (s, Ret true)
  end.

Definition process_data (data : bytes) (s : state) : option (state * outcome bool) :=
  let s := set_buffer (buffer_ s ++ data) s in
  loop (S (length (buffer_ s))) process_step s.

Definition send_response (sent : bool) (rid : Z) (response : option bytes) : M state unit :=
  match response with
  | Some b =>
      if size_fits_protobuf_int (length b) then
        let r := ser_result (Result (Some rid) (Some b) []) in
        if size_fits_protobuf_int (length r) then
          if sent then emit (Sent (header type_response (length r) ++ r)) else throw SystemError
        else mret tt
      else mret tt
  | None => mret tt
  end.

(** * Specification *)

(** Messages as (type, body) pairs; their wire format. *)
Definition frame (m : byte * bytes) : bytes := header m.1 (length m.2) ++ m.2.

(** Splits a byte stream into its complete messages and the rest. *)
Fixpoint decode (fuel : nat) (l : bytes) : list (byte * bytes) * bytes :=
  match fuel, l with
  | S fuel', high :: medium :: low :: type :: rest =>
      let size := message_size high medium low in
      if length rest <? size then ([], l)
      else let (ms, r) := decode fuel' (drop size rest) in ((type, take size rest) :: ms, r)
  | _, _ => ([], l)
  end.
Definition split_stream (l : bytes) : list (byte * bytes) * bytes := decode (length l) l.

(** Handles messages one after the other until one fails. *)
Fixpoint handle_all (ms : list (byte * bytes)) : M state bool :=
  match ms with
  | [] => mret true
  | m :: ms' => ok ← handle_message m.1 m.2; if ok : bool then handle_all ms' else mret false
  end.

(** The connection's reads: each chunk goes to [process_data] until it fails. *)
Fixpoint feed (chunks : list bytes) (s : state) : option (state * outcome bool) :=
  match chunks with
  | [] => Some (s, Ret true)
  | c :: cs =>
      r ← process_data c s;
      match r with
      | (s', Ret true) => feed cs s'
      | _ => Some r
      end
  end.

(** * Proofs: the stream *)

Create HintDb rpc.

(** A stream whose first message is not complete. *)
Definition waiting (l : bytes) : Prop :=
  forall h m w t r, l = h :: m :: w :: t :: r -> length r < message_size h m w.

#[global] Instance waiting_dec l : Decision (waiting l).
Proof.
  destruct l as [|h [|m [|w [|t r]]]]; try (left; unfold waiting; intros; discriminate).
  destruct (decide (length r < message_size h m w)); [left|right].
  - unfold waiting. intros. by simplify_eq.
  - intros Hw. by specialize (Hw _ _ _ _ _ eq_refl).
Defined.

Lemma process_step_wait s l :
  buffer_ s = l -> waiting l -> process_step s = inr (s, Ret true).
Proof.
  intros <- Hl. unfold process_step. destruct (buffer_ s) as [|h [|m [|w [|t r]]]]; try done.
  specialize (Hl h m w t r eq_refl). unfold header_size. simpl length.
  by destruct (Nat.ltb_spec (S (S (S (S (length r))))) (message_size h m w + 4)); [|lia].
Qed.

(** [handle_message] depends neither on [buffer_] nor changes it. *)
Definition frameable {A} (c : M state A) : Prop :=
  forall b s, c (set_buffer b s) = (set_buffer b (c s).1, (c s).2).

Lemma set_buffer_set b b' s : set_buffer b (set_buffer b' s) = set_buffer b s.
Proof. done. Qed.
Lemma set_buffer_id s : set_buffer (buffer_ s) s = s.
Proof. by destruct s. Qed.

Lemma set_buffer_nil s : buffer_ s = [] -> set_buffer [] s = s.
Proof. intros <-. apply set_buffer_id. Qed.

Lemma frameable_ret {A} (a : A) : frameable (mret a).
Proof. done. Qed.
Lemma frameable_lift {A} (o : outcome A) : frameable (lift o).
Proof. done. Qed.
Lemma frameable_emit e : frameable (emit e).
Proof. done. Qed.
Lemma frameable_bind {A B} (c : M state A) (f : A -> M state B) :
  frameable c -> (forall a, frameable (f a)) -> frameable (c ≫= f).
Proof.
  intros Hc Hf b s. unfold mbind, M_bind. rewrite Hc. destruct (c s) as [s' []]; simpl; try done.
  apply Hf.
Qed.
Lemma frameable_for_each {A} (f : A -> M state unit) l :
  (forall x, frameable (f x)) -> frameable (for_each f l).
Proof. intros Hf. induction l; simpl; [done|]. by apply frameable_bind. Qed.
(** Reading the state without its buffer. *)
Lemma frameable_get {A} (f : state -> M state A) :
  (forall b s, f (set_buffer b s) = f s) -> (forall s, frameable (f s)) -> frameable (s ← get; f s).
Proof. intros H1 H2 b s. unfold mbind, M_bind, get. simpl. rewrite H1. apply H2. Qed.
Hint Resolve frameable_ret frameable_lift frameable_emit frameable_bind frameable_for_each : rpc.

Lemma frameable_populate {A} rid (f : nat -> M state A) :
  (forall o, frameable (f o)) -> frameable (populate_message_for_result rid f).
Proof. intros Hf. apply frameable_get; [done|]. intros s. case_match; auto with rpc. done. Qed.

Lemma frameable_complete rid : frameable (complete_response rid).
Proof.
  apply frameable_get; [done|]. intros s. case_match; [|done]. apply frameable_bind; [done|].
  intros _. by case_match.
Qed.

Lemma frameable_handle_response r : frameable (handle_response r).
Proof.
  unfold handle_response. apply frameable_bind.
  - case_match; [|done]. apply frameable_bind.
    + apply frameable_populate. intros o. by apply frameable_bind.
    + intros []; [|done]. apply frameable_bind; [apply frameable_complete|done].
  - intros []; [|done]. apply frameable_bind; [|done]. by apply frameable_for_each.
Qed.

Lemma frameable_handle type body : frameable (handle_message type body).
Proof.
  unfold handle_message. repeat case_match; try done.
  - apply frameable_bind; [|done]. by apply frameable_bind.
  - apply frameable_handle_response.
Qed.

(** ** One pass over the buffer *)

Lemma frameable_handle_all ms : frameable (handle_all ms).
Proof.
  induction ms as [|m ms IH]; simpl; [done|]. apply frameable_bind; [apply frameable_handle|].
  by intros [].
Qed.

#[local] Arguments decode : simpl never.

Lemma decode_S_wait n l : waiting l -> decode (S n) l = ([], l).
Proof.
  intros Hl. destruct l as [|h [|m [|w [|t r]]]]; try done.
  specialize (Hl _ _ _ _ _ eq_refl). unfold decode.
  by destruct (Nat.ltb_spec (length r) (message_size h m w)); [|lia].
Qed.

Lemma decode_S_more n h m w t r :
  message_size h m w <= length r ->
  decode (S n) (h :: m :: w :: t :: r) =
    ((t, take (message_size h m w) r) :: (decode n (drop (message_size h m w) r)).1,
     (decode n (drop (message_size h m w) r)).2).
Proof.
  intros Hr. unfold decode at 1; fold decode.
  destruct (Nat.ltb_spec (length r) (message_size h m w)); [lia|].
  by destruct (decode n (drop _ r)).
Qed.

(** A stream waits for data or starts with a complete message. *)
Lemma stream_cases l :
  waiting l \/ exists h m w t r, l = h :: m :: w :: t :: r /\ message_size h m w <= length r.
Proof.
  destruct (decide (waiting l)) as [|Hw]; [by left|right].
  destruct l as [|h [|m [|w [|t r]]]]; try (destruct Hw; unfold waiting; intros; discriminate).
  exists h, m, w, t, r. split; [done|]. apply Nat.nlt_ge. intros Hr. apply Hw.
  unfold waiting. intros. by simplify_eq.
Qed.

(** Enough fuel for [decode] is the length of the stream. *)
Lemma decode_fuel n m l : length l <= n -> length l <= m -> decode n l = decode m l.
Proof.
  revert m l; induction n as [|n IH]; intros [|m] l Hn Hm;
    try (destruct l; [done|simpl in *; lia]).
  destruct (stream_cases l) as [Hw|(h & me & w & t & r & -> & Hr)].
  - by rewrite !decode_S_wait.
  - rewrite !decode_S_more by done. by rewrite (IH m) by slen.
Qed.

Lemma split_stream_more h m w t r :
  message_size h m w <= length r ->
  split_stream (h :: m :: w :: t :: r) =
    ((t, take (message_size h m w) r) :: (split_stream (drop (message_size h m w) r)).1,
     (split_stream (drop (message_size h m w) r)).2).
Proof.
  intros Hr. unfold split_stream. simpl length. rewrite decode_S_more by done.
  by rewrite (decode_fuel _ (length (drop (message_size h m w) r))) by slen.
Qed.

Lemma split_stream_waiting l : waiting l -> split_stream l = ([], l).
Proof. unfold split_stream. destruct l; [done|]. apply decode_S_wait. Qed.

Lemma decode_rest n l : length l <= n ->
  length (decode n l).2 <= length l /\ waiting (decode n l).2.
Proof.
  revert l; induction n as [|n IH]; intros l Hn; [by destruct l; [|simpl in Hn; lia]|].
  destruct (stream_cases l) as [Hw|(h & m & w & t & r & -> & Hr)].
  - rewrite decode_S_wait by done. simpl. split; [lia|done].
  - rewrite decode_S_more by done. cbn [fst snd].
    destruct (IH (drop (message_size h m w) r)) as [H1 H2]; [slen|]. split; [slen|done].
Qed.

(** The loop of [process_data] on a buffer is [handle_all] on its messages. *)
Lemma process_loop n l s :
  buffer_ s = l -> length l < n ->
  exists s' o, loop n process_step s = Some (s', o) /\
    handle_all (split_stream l).1 (set_buffer [] s) = (set_buffer [] s', o) /\
    (o = Ret true -> buffer_ s' = (split_stream l).2).
Proof.
  revert l s; induction n as [|n IH]; intros l s Hl Hn; [lia|]. simpl loop.
  destruct (stream_cases l) as [Hw|(h & m & w & t & r & -> & Hr)].
  { rewrite process_step_wait with (l := l) by done. rewrite split_stream_waiting by done. eauto. }
  rewrite split_stream_more by done. unfold process_step. rewrite Hl. cbn zeta.
  set (size := message_size h m w) in *. unfold header_size in *.
  destruct (Nat.ltb_spec (length (h :: m :: w :: t :: r)) (size + 4)); [simpl in *; lia|].
  pose proof (frameable_handle t (take size r) [] s) as Hf.
  pose proof (frameable_handle t (take size r) (buffer_ s) s) as Hb.
  rewrite set_buffer_id in Hb. cbn [handle_all fst snd]. unfold mbind, M_bind. rewrite Hf.
  destruct (handle_message t (take size r) s) as [s1 [[]| | |]]; try by eexists _, _.
  cbn [fst snd] in *. injection Hb as Hb.
  destruct (IH (drop size r) (set_buffer (drop (4 + size) (buffer_ s1)) s1)) as (s2 & o & ? & ? & ?).
  { rewrite Hb. cbn [buffer_ set_buffer]. by rewrite Hl. }
  { simpl in Hn. slen. }
  by exists s2, o.
Qed.

(** ** Splitting a stream into chunks *)

Lemma decode_app a b n : length (a ++ b) <= n ->
  decode n (a ++ b) =
    ((decode n a).1 ++ (decode n ((decode n a).2 ++ b)).1, (decode n ((decode n a).2 ++ b)).2).
Proof.
  revert a; induction n as [|n IH]; intros a Hn; [by destruct a, b; simpl in Hn; try lia|].
  destruct (stream_cases a) as [Hw|(h & m & w & t & r & -> & Hr)].
  { rewrite (decode_S_wait _ a) by done. cbn [fst snd app]. by destruct (decode (S n) _). }
  rewrite (decode_S_more _ h m w t r) by done. cbn [fst snd app].
  rewrite decode_S_more by slen. rewrite drop_app_le, take_app_le by lia.
  simpl in Hn. rewrite length_app in Hn. rewrite IH by slen. cbn [fst snd].
  pose proof (decode_rest n (drop (message_size h m w) r)) as [Hle _]; [slen|].
  set (rest := (decode n (drop _ r)).2) in *.
  by rewrite (decode_fuel (S n) n (rest ++ b)) by slen.
Qed.

Lemma split_stream_app a b :
  split_stream (a ++ b) =
    ((split_stream a).1 ++ (split_stream ((split_stream a).2 ++ b)).1,
     (split_stream ((split_stream a).2 ++ b)).2).
Proof.
  unfold split_stream. rewrite decode_app by done.
  rewrite (decode_fuel (length (a ++ b)) (length a)) by slen.
  pose proof (decode_rest (length a) a) as [Hle _]; [done|].
  by rewrite (decode_fuel (length (a ++ b)) (length ((decode (length a) a).2 ++ b))) by slen.
Qed.

Lemma handle_all_app a b :
  forall s, handle_all (a ++ b) s =
    (ok ← handle_all a; if ok : bool then handle_all b else mret false) s.
Proof.
  induction a as [|m a IH]; intros s; simpl; [done|].
  unfold mbind, M_bind in *. destruct (handle_message m.1 m.2 s) as [s1 [[]| | |]]; done || apply IH.
Qed.

Lemma feed_handle chunks s :
  waiting (buffer_ s) ->
  exists s' o, feed chunks s = Some (s', o) /\
    handle_all (split_stream (buffer_ s ++ concat chunks)).1 (set_buffer [] s) =
      (set_buffer [] s', o) /\
    (o = Ret true -> buffer_ s' = (split_stream (buffer_ s ++ concat chunks)).2).
Proof.
  revert s; induction chunks as [|c cs IH]; intros s Hw; simpl.
  { exists s, (Ret true). rewrite app_nil_r, split_stream_waiting by done. done. }
  unfold process_data.
  destruct (process_loop (S (length (buffer_ s ++ c))) (buffer_ s ++ c)
    (set_buffer (buffer_ s ++ c) s)) as (s1 & o & Hl & Hh & Hb); [done|lia|].
  cbn [buffer_ set_buffer]. rewrite Hl. simpl.
  rewrite app_assoc, split_stream_app. cbn [fst snd].
  rewrite handle_all_app. rewrite set_buffer_set in Hh. unfold mbind, M_bind. rewrite Hh.
  destruct o as [[]| | |]; try (eexists _, _; done).
  specialize (Hb eq_refl). rewrite <- Hb.
  apply IH. rewrite Hb. by apply decode_rest.
Qed.

(** ** Frames *)

#[local] Arguments frame : simpl never.

(** A body whose length fits the three size bytes of the header. *)
Definition fits (m : byte * bytes) : Prop := (Z.of_nat (length m.2) < 2 ^ 24)%Z.

Lemma land_255 z : Z.land z 255 = (z `mod` 256)%Z.
Proof. change 255%Z with (Z.ones 8). by rewrite Z.land_ones by lia. Qed.

Lemma message_size_header n type :
  (Z.of_nat n < 2 ^ 24)%Z ->
  exists h m w, header type n = [h; m; w; type] /\ message_size h m w = n.
Proof.
  intros Hn. unfold header. do 3 eexists. split; [done|]. unfold message_size.
  rewrite !land_255, !bval_to_byte, !Z.mod_mod by lia.
  rewrite !Z.shiftl_mul_pow2, !Z.shiftr_div_pow2 by lia.
  set (z := Z.of_nat n) in *. assert (0 <= z)%Z by lia.
  change (2 ^ 16)%Z with (256 * 256)%Z. change (2 ^ 8)%Z with 256%Z. change (2 ^ 0)%Z with 1%Z.
  rewrite Z.div_1_r, <- Z.div_div by lia.
  pose proof (Z.div_mod z 256). pose proof (Z.div_mod (z `div` 256) 256).
  rewrite (Z.mod_small ((z `div` 256) `div` 256)) by
    (split; [apply Z.div_pos; [apply Z.div_pos|]; lia|
             rewrite Z.div_div by lia; apply Z.div_lt_upper_bound; lia]).
  lia.
Qed.

Lemma div_mod_wrap (z k c : Z) :
  (0 < k)%Z -> (2 ^ 24 = k * 256 * c)%Z ->
  (((z `mod` 2 ^ 24) `div` k) `mod` 256 = (z `div` k) `mod` 256)%Z.
Proof.
  intros Hk Hc. rewrite (Z.div_mod z (2 ^ 24)) at 2 by lia. rewrite Hc at 2.
  replace (k * 256 * c * (z `div` 2 ^ 24) + z `mod` 2 ^ 24)%Z with
    (z `mod` 2 ^ 24 + 256 * c * (z `div` 2 ^ 24) * k)%Z by lia.
  rewrite Z.div_add by lia.
  replace (256 * c * (z `div` 2 ^ 24))%Z with (c * (z `div` 2 ^ 24) * 256)%Z by lia.
  by rewrite Z.mod_add by lia.
Qed.

(** A longer body is announced with its length modulo 2^24. *)
Lemma header_wraps n m type :
  (Z.of_nat m = Z.of_nat n `mod` 2 ^ 24)%Z -> header type n = header type m.
Proof.
  intros Hm. unfold header. rewrite !land_255, Hm, !Z.shiftr_div_pow2 by lia.
  rewrite (div_mod_wrap _ (2 ^ 16) 1), (div_mod_wrap _ (2 ^ 8) 256),
    (div_mod_wrap _ (2 ^ 0) 65536) by lia. done.
Qed.

Lemma split_stream_frame m l :
  fits m -> split_stream (frame m ++ l) = (m :: (split_stream l).1, (split_stream l).2).
Proof.
  intros Hm. unfold frame.
  destruct (message_size_header (length m.2) m.1 Hm) as (h & me & w & -> & Hs). simpl app.
  rewrite split_stream_more by (rewrite Hs; slen).
  rewrite Hs, take_app_length, drop_app_length. by destruct m.
Qed.

Lemma split_stream_frames ms rest :
  Forall fits ms -> waiting rest -> split_stream (concat (frame <$> ms) ++ rest) = (ms, rest).
Proof.
  intros Hms Hr. induction Hms as [|m ms Hm Hms IH].
  - by apply split_stream_waiting.
  - rewrite fmap_cons, concat_cons, <- app_assoc, split_stream_frame by done. by rewrite IH.
Qed.

Lemma waiting_nil : waiting [].
Proof. unfold waiting. intros. discriminate. Qed.

(** C5: [MessageProcessor::process_data] handles a byte stream independently of
    how the socket splits it: for any messages below 2^24 bytes and any
    chunks that carry their frames and an incomplete rest, the reads
    terminate, the messages are handled once each and in order until one
    fails (parse error, unknown call, exception), with the same outcome and
    the same effects as handling them directly, and on success exactly the
    incomplete rest stays in [buffer_]. *)
Theorem rpc_stream (ms : list (byte * bytes)) (rest : bytes) (chunks : list bytes) (s : state) :
  Forall fits ms -> waiting rest -> buffer_ s = [] ->
  concat chunks = concat (frame <$> ms) ++ rest ->
  exists s' o, feed chunks s = Some (s', o) /\
    handle_all ms s = (set_buffer [] s', o) /\
    (o = Ret true -> buffer_ s' = rest).
Proof.
  intros Hms Hr Hb Hc. destruct (feed_handle chunks s) as (s' & o & Hf & Hh & Ho).
  { rewrite Hb. apply waiting_nil. }
  rewrite Hb in Hh, Ho. cbn [app] in *. rewrite Hc, split_stream_frames in Hh, Ho by done.
  rewrite set_buffer_nil in Hh by done. by exists s', o.
Qed.

(** A single message. *)
Lemma feed_frame m chunks s s' :
  fits m -> buffer_ s = [] -> concat chunks = frame m ->
  handle_message m.1 m.2 s = (s', Ret true) -> feed chunks s = Some (s', Ret true).
Proof.
  intros Hm Hb Hc Hh. destruct (feed_handle chunks s) as (s1 & o & Hf & Ha & Ho).
  { rewrite Hb. apply waiting_nil. }
  rewrite Hb, Hc in Ha, Ho. cbn [app] in *.
  rewrite <- (app_nil_r (frame m)), split_stream_frame in Ha, Ho by done.
  rewrite set_buffer_nil in Ha by done. change (split_stream []) with (@nil (byte * bytes), @nil byte) in *.
  cbn [fst snd handle_all] in *. unfold mbind, M_bind in Ha. rewrite Hh in Ha.
  injection Ha as Hs <-. rewrite Hf, Hs. by rewrite set_buffer_nil by auto.
Qed.

(** ** A call and its response *)

(** The sizes at both ends of a call fit the header. *)
Definition small (b : bytes) : Prop := (Z.of_nat (length b) < 2 ^ 24)%Z.

Lemma small_fits b : small b -> size_fits_protobuf_int (length b) = true.
Proof. unfold small, size_fits_protobuf_int, int_max. intros. apply Z.leb_le. lia. Qed.

(** The state after a call has been sent, and after its response. *)
Definition called (i : invocation) (o : nat) (f : nat) (wire : bytes) (s : state) : state :=
  State (buffer_ s) (<[i32 (id i) := PendingCall o (Some f)]> (pending_calls_ s)) (objects s)
    (u32 (next_message_id s + 1)) (log s ++ [Sent wire]).
Definition answered (rid : Z) (o : nat) (f : nat) (raw : bytes) (s : state) : state :=
  State (buffer_ s) (delete (i32 rid) (pending_calls_ s)) (<[o := raw]> (objects s))
    (next_message_id s) (log s ++ [Run f]).

Lemma call_method_ok method params o f s :
  let i := Invocation (next_message_id s) method params 1 in
  small params -> small (ser_invocation i) ->
  call_method true method (Some params) o (Some f) s =
    (called i o f (frame (type_invocation, ser_invocation i)) s, Ret tt).
Proof.
  intros i Hp Hi. unfold call_method.
  rewrite (M_bind_ret _ _ s (set_next_id (u32 (next_message_id s + 1)) s) i).
  2: { unfold invocation_for, serialize_to_array_or_throw. by rewrite small_fits. }
  erewrite M_bind_ret by done. unfold send_message, serialize_to_array_or_throw.
  by rewrite small_fits.
Qed.

Lemma send_response_ok rid raw s :
  let r := ser_result (Result (Some rid) (Some raw) []) in
  small raw -> small r ->
  send_response true rid (Some raw) s = emit (Sent (frame (type_response, r))) s.
Proof. intros r Hp Hr. unfold send_response. fold r. by rewrite !small_fits by done. Qed.

Context `{!ProtobufLaws}.

Lemma handle_invocation i s :
  in_u32 (id i) -> in_u32 (protocol_version i) -> small (ser_invocation i) ->
  dispatched i = Ret tt ->
  handle_message type_invocation (ser_invocation i) s = ((emit (Dispatch i) s).1, Ret true).
Proof.
  intros Hi Hv Hs Hd. pose proof (small_fits _ Hs) as Hf. unfold handle_message. simpl Byte.eqb.
  rewrite Hf, parse_ser_invocation by done. unfold mbind, M_bind, dispatch. simpl.
  by rewrite Hd.
Qed.

Lemma handle_result rid raw o f s :
  in_u32 rid -> small (ser_result (Result (Some rid) (Some raw) [])) ->
  pending_calls_ s !! i32 rid = Some (PendingCall o (Some f)) -> parse_into o raw = true ->
  handle_message type_response (ser_result (Result (Some rid) (Some raw) [])) s =
    (answered rid o f raw s, Ret true).
Proof.
  intros Hi Hs Hp Ho. pose proof (small_fits _ Hs) as Hf. unfold handle_message. simpl Byte.eqb.
  rewrite Hf, parse_ser_result by done.
  change (Byte.eqb type_response type_invocation) with false.
  change (Byte.eqb type_response type_response) with true. cbn iota. unfold handle_response.
  rewrite (M_bind_ret _ _ s (answered rid o f raw s) true); [done|]. cbn [result_id].
  rewrite (M_bind_ret _ _ s (set_objects (<[o := raw]> (objects s)) s) true).
  - rewrite (M_bind_ret _ _ _ (answered rid o f raw s) tt); [done|].
    unfold complete_response. erewrite M_bind_ret by done. cbn [pending_calls_ set_objects].
    by rewrite Hp.
  - unfold populate_message_for_result. erewrite M_bind_ret by done. rewrite Hp.
    unfold mbind, M_bind, modify, mret, M_ret. simpl. by rewrite Ho.
Qed.

(** C25: A remote call round trip through [Channel::call_method],
    [MessageProcessor::process_data] and [MessageProcessor::send_response].
    Whatever chunks the two sockets deliver, the callee dispatches exactly
    the caller's invocation; its response populates exactly the caller's
    response object, removes the pending call and runs its closure once;
    every other pending call and object is unchanged. *)
Theorem rpc_call_roundtrip (caller callee : state) (method params raw : bytes) (o f : nat)
    (there back : list bytes) :
  let i := Invocation (next_message_id caller) method params 1 in
  let request := ser_invocation i in
  let reply := ser_result (Result (Some (id i)) (Some raw) []) in
  in_u32 (next_message_id caller) -> buffer_ caller = [] -> buffer_ callee = [] ->
  Forall small [params; request; raw; reply] ->
  dispatched i = Ret tt -> parse_into o raw = true ->
  concat there = frame (type_invocation, request) -> concat back = frame (type_response, reply) ->
  let caller1 := called i o f (concat there) caller in
  call_method true method (Some params) o (Some f) caller = (caller1, Ret tt) /\
  feed there callee = Some ((emit (Dispatch i) callee).1, Ret true) /\
  send_response true (id i) (Some raw) (emit (Dispatch i) callee).1 =
    emit (Sent (concat back)) (emit (Dispatch i) callee).1 /\
  feed back caller1 = Some (answered (id i) o f raw caller1, Ret true).
Proof.
  intros i request reply Hid Hb1 Hb2 Hs Hd Hp Ht Hk caller1.
  rewrite !Forall_cons in Hs. destruct Hs as (? & ? & ? & ? & _).
  split; [|split; [|split]].
  - unfold caller1. rewrite Ht. by apply call_method_ok.
  - apply (feed_frame (type_invocation, request)); try done. apply handle_invocation; try done.
  - rewrite Hk. by apply send_response_ok.
  - apply (feed_frame (type_response, reply)); try done.
    apply handle_result; try done. unfold caller1, called. cbn [pending_calls_].
    by rewrite lookup_insert_eq.
Qed.

End rpc.

(** ** Pending calls *)

Section pending.
Context `{Protobuf} (dispatched : invocation -> outcome unit).

(** What the owner of a channel and its processor may do, with the answers of
    the socket. *)
Inductive op :=
  | CallMethod (sent : bool) (method : bytes) (request : option bytes) (o f : nat)
  | SendEvent (sent : bool) (event : option bytes)
  | Receive (data : bytes)
  | Disconnect.

Definition exec (c : op) (s : state) : state :=
  match c with
  | CallMethod sent method request o f => (call_method sent method request o (Some f) s).1
  | SendEvent sent event => (send_event sent event s).1
  | Receive data => match process_data dispatched data s with Some r => r.1 | None => s end
  | Disconnect => (notify_disconnected s).1
  end.

(** The closure a call hands over: none when its parameters do not serialise. *)
Definition saved_by (c : op) : list nat :=
  match c with
  | CallMethod _ _ (Some b) _ f => if size_fits_protobuf_int (length b) then [f] else []
  | _ => []
  end.
Definition saved (ops : list op) : list nat := ops ≫= saved_by.

Definition run_of (e : effect) : list nat := match e with Run f => [f] | _ => [] end.
Definition runs (s : state) : list nat := log s ≫= run_of.
Definition closures (p : gmap Z pending_call) : list nat :=
  map_to_list p ≫= fun kc => option_list (complete kc.2).

(** The invariant: ids come from a counter that has not wrapped, every pending
    call has a closure, and no closure is lost or run twice. *)
Record pinv (n : Z) (fs : list nat) (s : state) : Prop := {
  pinv_n : (0 <= n <= 2 ^ 32)%Z;
  pinv_id : next_message_id s = u32 n;
  pinv_keys k : is_Some (pending_calls_ s !! k) -> exists j, (0 <= j < n)%Z /\ k = i32 j;
  pinv_closure k c : pending_calls_ s !! k = Some c -> is_Some (complete c);
  pinv_once : runs s ++ closures (pending_calls_ s) ≡ₚ fs
}.

Lemma pinv_init : pinv 0 [] init.
Proof.
  split; simpl; try done.
  - intros k. rewrite lookup_empty. by intros [? ?].
Qed.

Lemma i32_inj a b : in_u32 a -> in_u32 b -> i32 a = i32 b -> a = b.
Proof.
  unfold in_u32, i32. intros Ha Hb Heq.
  assert (Hm : ((a + 2 ^ 31) `mod` 2 ^ 32 = (b + 2 ^ 31) `mod` 2 ^ 32)%Z) by lia.
  pose proof (Z.div_mod (a + 2 ^ 31) (2 ^ 32) ltac:(lia)).
  pose proof (Z.div_mod (b + 2 ^ 31) (2 ^ 32) ltac:(lia)). nia.
Qed.

Lemma closures_insert k c p :
  p !! k = None -> closures (<[k := c]> p) ≡ₚ option_list (complete c) ++ closures p.
Proof. intros Hk. unfold closures. by rewrite map_to_list_insert. Qed.

Lemma closures_delete k c p :
  p !! k = Some c -> closures p ≡ₚ option_list (complete c) ++ closures (delete k p).
Proof.
  intros Hk. rewrite <- closures_insert by apply lookup_delete_eq.
  by rewrite insert_delete_eq, insert_id.
Qed.

(** The log grows at its end. *)
Lemma runs_emit e s : runs (emit e s).1 = runs s ++ run_of e.
Proof. unfold runs. simpl. rewrite bind_app. simpl. by rewrite app_nil_r. Qed.

Lemma pinv_emit n fs e : run_of e = [] -> keeps (pinv n fs) (emit e).
Proof.
  intros He s []. split; try done. rewrite runs_emit, He, app_nil_r. done.
Qed.

Lemma pinv_save n fs s i o f :
  pinv n fs s -> (n < 2 ^ 32)%Z -> id i = next_message_id s ->
  pinv (n + 1) (f :: fs)
    (save_completion_details i o (Some f) (set_next_id (u32 (next_message_id s + 1)) s)).1.
Proof.
  intros [Hn Hid Hk Hc Ho] Hlt Hi.
  assert (Hu : next_message_id s = n). { rewrite Hid. apply u32_id. unfold in_u32. lia. }
  assert (Hin : id i = n) by congruence.
  assert (Hfresh : pending_calls_ s !! i32 n = None).
  { apply eq_None_not_Some. intros (j & Hj & Heq)%Hk.
    apply i32_inj in Heq; unfold in_u32; lia. }
  split; simpl; try rewrite Hin.
  - lia.
  - by rewrite Hu.
  - intros k. destruct (decide (k = i32 n)) as [->|]; [exists n; split; [lia|done]|].
    rewrite lookup_insert_ne by done. intros (j & ? & ->)%Hk. exists j. split; [lia|done].
  - intros k c. destruct (decide (k = i32 n)) as [->|].
    + rewrite lookup_insert_eq. by intros [= <-].
    + rewrite lookup_insert_ne by done. apply Hc.
  - rewrite closures_insert by done. simpl. rewrite <- Ho.
    symmetry. apply Permutation_middle.
Qed.

Lemma pinv_force n fs s :
  pinv n fs s ->
  pinv n fs (force_completion s).1 /\ (force_completion s).2 = Ret tt /\
  pending_calls_ (force_completion s).1 = ∅ /\ runs (force_completion s).1 ≡ₚ fs.
Proof.
  intros [Hn Hid Hk Hc Ho]. unfold force_completion.
  assert (Hl : forall l s, (forall kc, kc ∈ l -> is_Some (complete kc.2)) -> exists s',
    for_each (fun kc : Z * pending_call =>
      match complete kc.2 with Some f => emit (Run f) | None => lift Undef end) l s = (s', Ret tt) /\
    runs s' = runs s ++ (l ≫= fun kc => option_list (complete kc.2)) /\
    next_message_id s' = next_message_id s).
  { clear. induction l as [|[k c] l IH]; intros s Hl; simpl.
    { exists s. by rewrite app_nil_r. }
    destruct (Hl (k, c)) as [f Hf]; [left|]. simpl in Hf. rewrite Hf. erewrite M_bind_ret by done.
    destruct (IH (emit (Run f) s).1) as (s' & H1 & H2 & H3); [intros; apply Hl; by right|].
    exists s'. split; [done|]. rewrite H2, H3, runs_emit. by rewrite <- app_assoc. }
  pose proof (by_key_perm (pending_calls_ s)) as Hperm.
  destruct (Hl (by_key (pending_calls_ s)) s) as (s' & H1 & H2 & H3).
  { intros [k c]. rewrite Hperm, elem_of_map_to_list. apply Hc. }
  erewrite M_bind_ret by done. erewrite M_bind_ret by done. simpl.
  assert (Hr : runs (set_pending ∅ s') ≡ₚ fs).
  { change (runs (set_pending ∅ s')) with (runs s'). rewrite H2, Hperm. exact Ho. }
  split; [|done]. split; try done; simpl.
  - by rewrite H3.
  - intros k. rewrite lookup_empty. by intros [].
  - by rewrite app_nil_r.
Qed.

Lemma pinv_complete n fs rid : keeps (pinv n fs) (complete_response rid).
Proof.
  intros s Hs. unfold complete_response. erewrite M_bind_ret by done.
  destruct (pending_calls_ s !! i32 rid) as [c|] eqn:E; [|done].
  destruct Hs as [Hn Hid Hk Hc Ho]. destruct (Hc _ _ E) as [f Hf]. rewrite Hf.
  erewrite M_bind_ret by done. rewrite (closures_delete _ _ _ E), Hf in Ho.
  split; rewrite ?runs_emit; cbn [emit modify fst pending_calls_ set_pending]; try done.
  - intros k [? [? ?]%lookup_delete_Some]. by apply Hk.
  - intros k c' [? ?]%lookup_delete_Some. by eapply Hc.
  - by rewrite <- app_assoc.
Qed.

Lemma pinv_objects n fs s o : pinv n fs s -> pinv n fs (set_objects o s).
Proof. by intros []. Qed.

Lemma pinv_buffer n fs s b : pinv n fs (set_buffer b s) <-> pinv n fs s.
Proof. split; intros []; done. Qed.

Lemma pinv_handle_response n fs r : keeps (pinv n fs) (handle_response r).
Proof.
  unfold handle_response, populate_message_for_result. apply keeps_bind.
  - case_match; [|auto with anbox]. apply keeps_bind.
    + apply keeps_bind; [auto with anbox|]. intros s. case_match; [|apply keeps_lift].
      apply keeps_bind; [|auto with anbox]. apply keeps_modify. intros ? ?. by apply pinv_objects.
    + intros []; [|auto with anbox]. apply keeps_bind; auto using pinv_complete with anbox.
  - intros []; [|auto with anbox]. apply keeps_bind; [|auto with anbox].
    apply keeps_for_each. intros raw. by apply pinv_emit.
Qed.

Lemma pinv_handle n fs type body : keeps (pinv n fs) (handle_message dispatched type body).
Proof.
  unfold handle_message, dispatch.
  repeat case_match; simplify_eq; try apply keeps_ret; try apply pinv_handle_response.
  apply keeps_bind; [|intros; apply keeps_ret].
  apply keeps_bind; [by apply pinv_emit|intros; apply keeps_lift].
Qed.

Lemma pinv_receive n fs data s : pinv n fs s -> pinv n fs (exec (Receive data) s).
Proof.
  intros Hs. unfold exec, process_data.
  set (s0 := set_buffer (buffer_ s ++ data) s).
  destruct (process_loop dispatched (S (length (buffer_ s0))) (buffer_ s0) s0)
    as (s' & o & -> & Ha & _); [done|lia|]. simpl.
  apply (pinv_buffer _ _ _ []). change s' with (s', o).1.
  assert (Hk : keeps (pinv n fs) (handle_all dispatched (split_stream (buffer_ s0)).1)).
  { clear Ha. induction (split_stream (buffer_ s0)).1 as [|m ms IH]; simpl; [apply keeps_ret|].
    apply keeps_bind; [apply pinv_handle|]. intros []; [apply IH|apply keeps_ret]. }
  specialize (Hk (set_buffer [] s0)). rewrite Ha in Hk. apply Hk. unfold s0. by rewrite !pinv_buffer.
Qed.

Lemma pinv_send n fs sent type body : keeps (pinv n fs) (send_message sent type body).
Proof.
  unfold send_message, serialize_to_array_or_throw. apply keeps_bind.
  { case_match; auto using keeps_lift with anbox. apply keeps_lift. }
  intros b. destruct sent; [by apply pinv_emit|]. apply keeps_bind; [|intros; apply keeps_lift].
  intros s Hs. by apply pinv_force.
Qed.

Lemma pinv_exec n fs c s :
  pinv n fs s -> (n < 2 ^ 32)%Z ->
  exists n', (n <= n' <= n + 1)%Z /\ pinv n' (saved_by c ++ fs) (exec c s).
Proof.
  intros Hs Hn. destruct c as [sent method [b|] o f|sent [b|]|data|].
  - simpl. unfold call_method, invocation_for, serialize_to_array_or_throw.
    destruct (size_fits_protobuf_int (length b)) eqn:E.
    + exists (n + 1)%Z. split; [lia|].
      set (s1 := set_next_id (u32 (next_message_id s + 1)) s).
      rewrite (M_bind_ret _ _ s s1 (Invocation (next_message_id s) method b 1)) by done.
      erewrite M_bind_ret by done. apply pinv_send. by apply pinv_save.
    + exists n. split; [lia|done].
  - exists n. split; [lia|done].
  - exists n. split; [lia|]. simpl. unfold send_event, serialize_to_array_or_throw.
    assert (Hk : keeps (pinv n fs) (send_event sent (Some b))).
    { unfold send_event, serialize_to_array_or_throw. apply keeps_bind.
      - case_match; [auto with anbox|apply keeps_lift].
      - intros. apply pinv_send. }
    by apply Hk.
  - exists n. split; [lia|done].
  - exists n. split; [lia|]. by apply pinv_receive.
  - exists n. split; [lia|]. by apply pinv_force.
Qed.

Lemma pinv_run ops n fs s :
  pinv n fs s -> (n + Z.of_nat (length ops) <= 2 ^ 32)%Z ->
  exists n', pinv n' (saved ops ++ fs) (fold_left (fun s c => exec c s) ops s).
Proof.
  revert n fs s; induction ops as [|c ops IH]; intros n fs s Hs Hn; simpl in *; [by exists n|].
  destruct (pinv_exec n fs c s Hs) as (n1 & H1 & Hp); [lia|].
  destruct (IH n1 _ _ Hp) as (n2 & H2); [lia|]. exists n2. destruct H2. split; try done.
  rewrite pinv_once0, !app_assoc. f_equiv. apply Permutation_app_comm.
Qed.

(** C26: No completion of a remote call is lost or duplicated.  After any
    sequence of at most 2^32 calls, events, received data and disconnections
    on a connection (with any answers of the socket, any bytes received and
    any dispatch outcomes), the closures that ran together with those still
    pending are exactly those handed over by the calls, each once; and
    disconnecting then runs exactly the remaining ones and leaves the cache
    empty, without dereferencing a null closure. *)
Theorem pending_calls_once (ops : list op) :
  (Z.of_nat (length ops) <= 2 ^ 32)%Z ->
  let s := fold_left (fun s c => exec c s) ops init in
  let d := notify_disconnected s in
  runs s ++ closures (pending_calls_ s) ≡ₚ saved ops /\
  d.2 = Ret tt /\ cache_empty d.1 = true /\ runs d.1 ≡ₚ saved ops.
Proof.
  intros Hn s. destruct (pinv_run ops 0 [] init pinv_init) as (n & Hp); [lia|]. fold s in Hp.
  rewrite app_nil_r in Hp. destruct (pinv_force n _ s Hp) as (_ & H2 & H3 & H4).
  intros d. unfold d, notify_disconnected.
  split; [apply Hp|]. split; [done|]. split; [|done]. unfold cache_empty. by rewrite H3.
Qed.
End pending.

(** ** A concrete instance of protobuf *)

(** Any injective coding will do for the examples: one byte per bit of the
    element's code. *)
Fixpoint bits_of (p : positive) : bytes :=
  match p with xH => [] | xO p' => x00 :: bits_of p' | xI p' => x01 :: bits_of p' end.
Fixpoint of_bits (l : bytes) : positive :=
  match l with
  | [] => xH
  | b :: l' => if Byte.eqb b x00 then xO (of_bits l') else xI (of_bits l')
  end.
Lemma of_bits_of p : of_bits (bits_of p) = p.
Proof. induction p; simpl; by f_equal. Qed.

#[global] Instance example_protobuf : Protobuf := {
  ser_invocation i := bits_of (encode (id i, method_name i, parameters i, protocol_version i));
  parse_invocation b :=
    (fun p : Z * bytes * bytes * Z => Invocation p.1.1.1 p.1.1.2 p.1.2 p.2) <$> countable.decode (of_bits b);
  ser_result r := bits_of (encode (result_id r, response r, events r));
  parse_result b :=
    (fun p : option Z * option bytes * list bytes => Result p.1.1 p.1.2 p.2) <$> countable.decode (of_bits b);
  parse_into _ _ := true
}.

#[global] Instance example_protobuf_laws : ProtobufLaws.
Proof.
  split; intros; simpl; rewrite of_bits_of, countable.decode_encode; simpl; f_equal;
    by match goal with |- _ = ?x => destruct x end.
Qed.

Lemma rpc_stream_witness :
  exists s' o, feed (fun _ => Ret tt) [[x00; x00]; [x01; x05; x41; x00]] init = Some (s', o) /\
    handle_all (fun _ => Ret tt) [(x05, [x41])] init = (set_buffer [] s', o) /\
    (o = Ret true -> buffer_ s' = [x00]).
Proof.
  apply (rpc_stream _ [(x05, [x41])] [x00]); try reflexivity.
  - repeat constructor.
  - unfold waiting. intros. discriminate.
Defined.

Definition example_call := Invocation 0 (str "m") [x41] 1.
Lemma rpc_call_roundtrip_witness :
  feed (fun _ => Ret tt) [frame (type_response, ser_result (Result (Some 0%Z) (Some [x42]) []))]
    (called example_call 7 9 (concat [frame (type_invocation, ser_invocation example_call)]) init)
  = Some (answered 0 7 9 [x42] (called example_call 7 9
      (concat [frame (type_invocation, ser_invocation example_call)]) init), Ret true).
Proof.
  apply (rpc_call_roundtrip (fun _ => Ret tt) init init (str "m") [x41] [x42] 7 9
    [frame (type_invocation, ser_invocation example_call)]
    [frame (type_response, ser_result (Result (Some 0%Z) (Some [x42]) []))]);
    try reflexivity; try (unfold in_u32; cbn; lia); try apply app_nil_r.
  repeat constructor.
Defined.

Lemma pending_calls_once_witness :
  runs (notify_disconnected (fold_left (fun s c => exec (fun _ => Ret tt) c s)
    [CallMethod true [] (Some []) 1 5; CallMethod false [] (Some []) 2 6] init)).1 ≡ₚ [5; 6].
Proof.
  apply (pending_calls_once (fun _ => Ret tt)
    [CallMethod true [] (Some []) 1 5; CallMethod false [] (Some []) 2 6]).
  cbn. lia.
Defined.
