(* ===== verification/Geometry.v ===== *)
(** Integer and floating-point geometry: [graphics::Rect] (graphics/rect.h,
    rect.cpp), densities (graphics/density.cpp), the letterboxing and the
    host/Android coordinate mapping (graphics/coordinate_transform.cpp,
    graphics/rendered_viewport.cpp) and the placement of the single window
    (platform/sdl/window_geometry.cpp).

    [int] values are [Z]; [static_cast<int>] of a wider integer is [i32].
    [double] is IEEE 754 binary64, as Stdlib's [SpecFloat] specifies it. *)

From Stdlib Require Import Floats.SpecFloat.
From S2P Require Import Prelude.

Local Open Scope Z_scope.

(** * Rect *)

Record rect := Rect { left_ : Z; top_ : Z; right_ : Z; bottom_ : Z }.

#[global] Instance rect_eq_dec : EqDecision rect.
Proof. solve_decision. Defined.

Definition Invalid : rect := Rect (-1) (-1) (-1) (-1).
Definition Empty : rect := Rect 0 0 0 0.
Definition rect_of_size (w h : Z) : rect := Rect 0 0 w h.
Definition width (r : rect) : Z := right_ r - left_ r.
Definition height (r : rect) : Z := bottom_ r - top_ r.
Definition valid (r : rect) : bool := (0 <=? width r) && (0 <=? height r).
Definition rect_eqb (a b : rect) : bool :=
  (left_ a =? left_ b) && (top_ a =? top_ b) && (right_ a =? right_ b) && (bottom_ a =? bottom_ b).

Definition merge (a b : rect) : rect :=
  Rect (Z.min (left_ a) (left_ b)) (Z.min (top_ a) (top_ b))
    (Z.max (right_ a) (right_ b)) (Z.max (bottom_ a) (bottom_ b)).
Definition translate (r : rect) (x y : Z) : rect := Rect x y (x + width r) (y + height r).
Definition resize (r : rect) (w h : Z) : rect :=
  Rect (left_ r) (top_ r) (left_ r + w) (top_ r + h).

(** [std::clamp] *)
Definition clamp (v lo hi : Z) : Z := if v <? lo then lo else if hi <? v then hi else v.

(** * Density *)

Definition DensityType_medium : Z := 160.
Definition initial_density : Z := 320.
(** Unsigned 32 bit arithmetic, the quotient converted back to [int]. *)
Definition dp_to_pixel (density dp : Z) : Z :=
  i32 (u32 (u32 dp * u32 density) / DensityType_medium).

(** * Binary64 *)

Definition double := spec_float.
Definition prec : Z := 53.
Definition emax : Z := 1024.
Definition of_int (z : Z) : double := binary_normalize prec emax z 0 false.
Definition dmul : double -> double -> double := SFmul prec emax.
Definition ddiv : double -> double -> double := SFdiv prec emax.
Definition dsub : double -> double -> double := SFsub prec emax.
Definition one : double := of_int 1.

(** [std::floor], [std::ceil] and [std::lround] as integers; a NaN or an
    infinity has no integer value. *)
Definition signed (s : bool) (m : Z) : Z := if s then - m else m.
Definition floor (d : double) : option Z :=
  match d with
  | S754_zero _ => Some 0
  | S754_finite s m e =>
      Some (if 0 <=? e then signed s (Zpos m) * 2 ^ e else (signed s (Zpos m)) / 2 ^ (- e))
  | _ => None
  end.
Definition ceil (d : double) : option Z := Z.opp <$> floor (SFopp d).
Definition lround (d : double) : option Z :=
  match d with
  | S754_zero _ => Some 0
  | S754_finite s m e =>
      Some (if 0 <=? e then signed s (Zpos m) * 2 ^ e
            else signed s ((2 * Zpos m + 2 ^ (- e)) / (2 * 2 ^ (- e))))
  | _ => None
  end.

Section geometry.

(** What a conversion of an unrepresentable value to [int] yields; the standard
    leaves it unspecified, and every theorem holds for any choice. *)
Context (unrepresentable : Z).

Definition long_to_int (z : option Z) : Z :=
  match z with
  | Some z => if (- 2 ^ 63 <=? z) && (z <? 2 ^ 63) then i32 z else unrepresentable
  | None => unrepresentable
  end.
Definition to_int (z : option Z) : Z :=
  match z with
  | Some z => if (- 2 ^ 31 <=? z) && (z <? 2 ^ 31) then z else unrepresentable
  | None => unrepresentable
  end.

(** * CoordinateTransform *)

Inductive rotation := R0 | R90 | R180 | R270.

Record transform := Transform {
  android_width_ : Z;
  android_height_ : Z;
  rotation_ : rotation;
  viewport_ : rect;
  valid_ : bool
}.

Definition quarter_turn (r : rotation) : bool :=
  match r with R90 | R270 => true | _ => false end.

(** The renderer's constructor: the letterboxed viewport in the host. *)
Definition fit_transform (host_width host_height android_width android_height : Z)
    (rot : rotation) : transform :=
  if (host_width <=? 0) || (host_height <=? 0) || (android_width <=? 0) || (android_height <=? 0)
  then Transform android_width android_height rot Empty false
  else
    let source_width := if quarter_turn rot then android_height else android_width in
    let source_height := if quarter_turn rot then android_width else android_height in
    let height0 := Z.max 1 (i32 (Z.quot (host_width * source_height) source_width)) in
    let (w, h) :=
      if host_height <? height0
      then (Z.max 1 (i32 (Z.quot (host_height * source_width) source_height)), host_height)
      else (host_width, height0) in
    let left := Z.quot (host_width - w) 2 in
    let top := Z.quot (host_height - h) 2 in
    Transform android_width android_height rot (Rect left top (left + w) (top + h)) true.

(** The input side's constructor: a viewport chosen by the renderer. *)
Definition viewport_transform (v : rect) (android_width android_height : Z) (rot : rotation)
    : transform :=
  Transform android_width android_height rot v
    ((0 <? width v) && (0 <? height v) && (0 <? android_width) && (0 <? android_height)).

Definition ratio (a b : Z) : double :=
  if b <=? 1 then of_int 0 else ddiv (of_int a) (of_int (b - 1)).

Definition map_absolute (t : transform) (host_x host_y : Z) : option (Z * Z) :=
  let v := viewport_ t in
  if negb (valid_ t) || (host_x <? left_ v) || (right_ v <=? host_x) || (host_y <? top_ v) ||
     (bottom_ v <=? host_y)
  then None
  else
    let u := ratio (host_x - left_ v) (width v) in
    let w := ratio (host_y - top_ v) (height v) in
    let (x, y) := match rotation_ t with
                  | R0 => (u, w)
                  | R90 => (w, dsub one u)
                  | R180 => (dsub one u, dsub one w)
                  | R270 => (dsub one w, u)
                  end in
    Some (clamp (long_to_int (lround (dmul x (of_int (android_width_ t - 1))))) 0 (android_width_ t - 1),
          clamp (long_to_int (lround (dmul y (of_int (android_height_ t - 1))))) 0 (android_height_ t - 1)).

Definition map_relative (t : transform) (dx dy : Z) : option (Z * Z) :=
  if negb (valid_ t) then None
  else
    let sx := ddiv (of_int (android_width_ t)) (of_int (Z.max 1 (width (viewport_ t)))) in
    let sy := ddiv (of_int (android_height_ t)) (of_int (Z.max 1 (height (viewport_ t)))) in
    let scaled z s := long_to_int (lround (dmul (of_int z) s)) in
    Some (match rotation_ t with
          | R0 => (scaled dx sx, scaled dy sy)
          | R90 => (scaled dy sx, scaled (- dx) sy)
          | R180 => (scaled (- dx) sx, scaled (- dy) sy)
          | R270 => (scaled (- dy) sx, scaled dx sy)
          end).

(** * RenderedViewport *)

Record rendered_viewport := RenderedViewport {
  rv_valid : bool;
  window_width : Z;
  window_height : Z;
  drawable_width : Z;
  drawable_height : Z;
  rv_viewport : rect;
  rv_android_width : Z;
  rv_android_height : Z;
  rv_rotation : rotation;
  generation : Z
}.

Definition project_start (value logical drawable : Z) : Z :=
  if (logical <=? 1) || (drawable <=? 1) then 0
  else to_int (ceil (ddiv (dmul (of_int value) (of_int (logical - 1))) (of_int (drawable - 1)))).
Definition project_end (value logical drawable : Z) : Z :=
  if (logical <=? 1) || (drawable <=? 1) then logical
  else to_int (floor (ddiv (dmul (of_int (value - 1)) (of_int (logical - 1)))
                        (of_int (drawable - 1)))) + 1.

Definition logical_viewport (s : rendered_viewport) : rect :=
  if (window_width s <=? 0) || (window_height s <=? 0) || (drawable_width s <=? 0) ||
     (drawable_height s <=? 0)
  then Empty
  else
    Rect (clamp (project_start (left_ (rv_viewport s)) (window_width s) (drawable_width s))
            0 (window_width s))
         (clamp (project_start (top_ (rv_viewport s)) (window_height s) (drawable_height s))
            0 (window_height s))
         (clamp (project_end (right_ (rv_viewport s)) (window_width s) (drawable_width s))
            0 (window_width s))
         (clamp (project_end (bottom_ (rv_viewport s)) (window_height s) (drawable_height s))
            0 (window_height s)).

Definition rv_transform (s : rendered_viewport) : transform :=
  viewport_transform (logical_viewport s) (rv_android_width s) (rv_android_height s)
    (rv_rotation s).

Definition rv_map_absolute (s : rendered_viewport) (x y : Z) : option (Z * Z) :=
  if negb (rv_valid s) || (window_width s <=? 0) || (window_height s <=? 0) ||
     (drawable_width s <=? 0) || (drawable_height s <=? 0) || (x <? 0) || (y <? 0) ||
     (window_width s <=? x) || (window_height s <=? y)
  then None else map_absolute (rv_transform s) x y.

Definition rv_map_relative (s : rendered_viewport) (dx dy : Z) : option (Z * Z) :=
  if negb (rv_valid s) || (window_width s <=? 0) || (window_height s <=? 0) ||
     (drawable_width s <=? 0) || (drawable_height s <=? 0)
  then None else map_relative (rv_transform s) dx dy.

End geometry.

(** * Single window placement *)

Record constraints := Constraints {
  minimum_width : Z; minimum_height : Z; maximum_width : Z; maximum_height : Z
}.

Definition usable (r : rect) : bool :=
  negb (rect_eqb r Invalid) && (0 <? width r) && (0 <? height r).

Definition select_window_work_area (usable_area fallback : rect) : rect :=
  if usable usable_area then usable_area else fallback.

Definition calculate_single_window_frame (requested work_area : rect) : rect :=
  if negb (usable work_area) then Invalid
  else
    let explicit_size := negb (rect_eqb requested Invalid) in
    let (w, h) :=
      if explicit_size then (width requested, height requested)
      else
        let h := i32 (Z.quot (height work_area * 9) 10) in
        let w := i32 (Z.quot (h * 9 + 10) 20) in
        (Z.max 1 (Z.min w (width work_area)), Z.max 1 (Z.min h (height work_area))) in
    let left := left_ work_area + Z.quot (width work_area - w) 2 in
    let top := top_ work_area + Z.quot (height work_area - h) 2 in
    let left := if explicit_size then left else Z.max (left_ work_area) left in
    let top := if explicit_size then top else Z.max (top_ work_area) top in
    Rect left top (left + w) (top + h).

Definition fixed_size_constraints (frame : rect) : constraints :=
  Constraints (width frame) (height frame) (width frame) (height frame).

(** * Proofs: exact binary64 values *)

Fixpoint sh (m : positive) (n : nat) : positive :=
  match n with O => m | S n' => xO (sh m n') end.

Lemma sh_iter m p : Pos.iter xO m p = sh m (Pos.to_nat p).
Proof. rewrite Pos2Nat.inj_iter. induction (Pos.to_nat p); simpl; congruence. Qed.

Lemma sh_value m n : Zpos (sh m n) = Zpos m * 2 ^ Z.of_nat n.
Proof.
  induction n as [|n IH]; [simpl; lia|].
  rewrite Nat2Z.inj_succ, Z.pow_succ_r by lia. simpl sh. lia.
Qed.

Lemma digits_sh m n : Zpos (digits2_pos (sh m n)) = Zpos (digits2_pos m) + Z.of_nat n.
Proof. induction n as [|n IH]; simpl sh; simpl digits2_pos; lia. Qed.

Lemma iter_pos_nat {A} (f : A -> A) p x : SpecFloat.iter_pos f p x = Nat.iter (Pos.to_nat p) f x.
Proof.
  revert x; induction p as [p IH|p IH|]; intros x; simpl SpecFloat.iter_pos; try done; rewrite !IH.
  - rewrite Pos2Nat.inj_xI. simpl. rewrite <- Nat.iter_add, Nat.add_0_r. by rewrite Nat.iter_swap.
  - rewrite Pos2Nat.inj_xO. simpl. by rewrite <- Nat.iter_add, Nat.add_0_r.
Qed.

Lemma shr_sh m n e :
  shr {| shr_m := Zpos (sh m n); shr_r := false; shr_s := false |} e (Z.of_nat n) =
    ({| shr_m := Zpos m; shr_r := false; shr_s := false |}, e + Z.of_nat n).
Proof.
  destruct n as [|n]; simpl; [f_equal; lia|]. f_equal.
  rewrite iter_pos_nat, SuccNat2Pos.id_succ, Nat.iter_succ_r. simpl.
  induction n as [|n IH]; [done|]. by rewrite Nat.iter_succ_r.
Qed.

(** A mantissa of 53 digits, possibly followed by zeros, rounds to itself. *)
Lemma round_exact m n e :
  Zpos (digits2_pos m) = 53 -> -1074 <= e + Z.of_nat n <= 971 ->
  binary_round_aux prec emax false (Zpos (sh m n)) e loc_Exact =
    S754_finite false m (e + Z.of_nat n).
Proof.
  intros Hd He. unfold binary_round_aux, shr_fexp. simpl Zdigits2. simpl shr_record_of_loc.
  rewrite digits_sh, Hd.
  replace (fexp prec emax (53 + Z.of_nat n + e) - e) with (Z.of_nat n)
    by (unfold fexp, SpecFloat.emin, prec, emax; lia).
  rewrite shr_sh. simpl loc_of_shr_record. simpl shr_m. simpl round_nearest_even.
  simpl Zdigits2. rewrite Hd.
  replace (fexp prec emax (53 + (e + Z.of_nat n)) - (e + Z.of_nat n)) with 0
    by (unfold fexp, SpecFloat.emin, prec, emax; lia).
  simpl. destruct (Z.leb_spec (e + Z.of_nat n) (emax - prec)) as [|Hc]; [done|].
  unfold emax, prec in Hc. lia.
Qed.

(** Integers of at most 53 digits are exact. *)
Lemma of_int_exact p :
  Zpos (digits2_pos p) <= 53 ->
  exists n, Z.of_nat n = 53 - Zpos (digits2_pos p) /\
    Zpos (digits2_pos (sh p n)) = 53 /\ of_int (Zpos p) = S754_finite false (sh p n) (- Z.of_nat n).
Proof.
  intros Hd. exists (Z.to_nat (53 - Zpos (digits2_pos p))).
  set (n := Z.to_nat _). assert (Hn : Z.of_nat n = 53 - Zpos (digits2_pos p)) by lia.
  assert (Hs : Zpos (digits2_pos (sh p n)) = 53) by (rewrite digits_sh; lia).
  split; [done|]. split; [done|]. unfold of_int, binary_normalize, binary_round.
  assert (He : fexp prec emax (Zpos (digits2_pos p) + 0) = - Z.of_nat n)
    by (unfold fexp, SpecFloat.emin, prec, emax; lia).
  rewrite He. unfold shl_align. rewrite Z.sub_0_r.
  assert (Hr : binary_round_aux prec emax false (Zpos (sh p n)) (- Z.of_nat n) loc_Exact =
    S754_finite false (sh p n) (- Z.of_nat n)).
  { etransitivity; [apply (round_exact (sh p n) 0)|f_equal]; lia || done. }
  clearbody n. destruct n as [|n]; [done|].
  change (- Z.of_nat (S n)) with (Zneg (Pos.of_succ_nat n)) in *. cbn iota beta.
  rewrite sh_iter, SuccNat2Pos.id_succ. done.
Qed.

Lemma digits_bound p k : Zpos p < 2 ^ Z.of_nat k -> Zpos (digits2_pos p) <= Z.of_nat k.
Proof.
  revert p; induction k as [|k IH]; intros p Hp; [simpl in Hp; lia|].
  rewrite Nat2Z.inj_succ, Z.pow_succ_r in Hp by lia.
  destruct p as [p|p|]; simpl; [| |lia]; specialize (IH p); lia.
Qed.

Lemma ratio_end n : 1 < n <= 2 ^ 31 -> ratio (n - 1) n = one.
Proof.
  intros Hn. unfold ratio. destruct (Z.leb_spec n 1); [lia|].
  destruct (n - 1) as [|p|p] eqn:E; try lia.
  destruct (of_int_exact p) as (k & _ & Hd & ->).
  { transitivity (Z.of_nat 31); [apply digits_bound|]; lia. }
  set (m := sh p k) in *. set (e := - Z.of_nat k). unfold ddiv, SFdiv, SFdiv_core_binary.
  simpl Zdigits2. rewrite Hd.
  replace (fexp prec emax (53 + e - (53 + e))) with (-53)
    by (rewrite Z.sub_diag; reflexivity).
  replace (Z.min (-53) (e - e)) with (-53) by lia.
  replace (e - e - -53) with 53 by lia. cbn iota.
  assert (Hq : Z.div_eucl (Z.shiftl (Zpos m) 53) (Zpos m) = (2 ^ 53, 0)).
  { rewrite Z.shiftl_mul_pow2 by lia.
    pose proof (Z.div_mul (2 ^ 53) (Zpos m) ltac:(lia)) as Hq.
    pose proof (Z.mod_mul (2 ^ 53) (Zpos m) ltac:(lia)) as Hr.
    rewrite (Z.mul_comm (Zpos m)). unfold Z.div, Z.modulo in *.
    destruct (Z.div_eucl _ _). congruence. }
  rewrite Hq. unfold new_location, new_location_even, new_location_odd. simpl Z.eqb. cbn iota.
  destruct (Z.even (Zpos m)); reflexivity.
Qed.

Lemma ratio_start n : 1 < n <= 2 ^ 31 -> ratio 0 n = S754_zero false.
Proof.
  intros Hn. unfold ratio. destruct (Z.leb_spec n 1); [lia|].
  destruct (n - 1) as [|p|p] eqn:E; try lia.
  destruct (of_int_exact p) as (k & _ & Hd & ->); [|done].
  transitivity (Z.of_nat 31); [apply digits_bound|]; lia.
Qed.

(** The image of an end of the unit interval on [n] pixels. *)
Definition unit_end (b : bool) : double := if b then one else S754_zero false.
Definition extreme (n : Z) (b : bool) : Z := if b then n - 1 else 0.

Lemma one_minus_unit b : dsub one (unit_end b) = unit_end (negb b).
Proof. by destruct b. Qed.

Lemma lround_unit n b : 0 < n <= 2 ^ 31 -> lround (dmul (unit_end b) (of_int (n - 1))) = Some (extreme n b).
Proof.
  intros Hn. destruct (n - 1) as [|p|p] eqn:E; [|..|lia].
  { destruct b; simpl; [rewrite E|]; done. }
  destruct (of_int_exact p) as (k & Hk & Hd & ->).
  { transitivity (Z.of_nat 31); [apply digits_bound|]; lia. }
  destruct b; simpl extreme; [|done].
  change (unit_end true) with (S754_finite false (2 ^ 52) (-52)).
  change (dmul (S754_finite false (2 ^ 52) (-52)) (S754_finite false (sh p k) (- Z.of_nat k)))
    with (binary_round_aux prec emax false (Zpos (sh (sh p k) 52)) (-52 + - Z.of_nat k) loc_Exact).
  rewrite round_exact by (done || lia). unfold lround.
  replace (-52 + - Z.of_nat k + Z.of_nat 52) with (- Z.of_nat k) by lia.
  rewrite sh_value, E, Z.opp_involutive. f_equal.
  destruct (Z.leb_spec 0 (- Z.of_nat k)).
  - replace (Z.of_nat k) with 0 by lia. simpl. lia.
  - simpl signed. set (q := 2 ^ Z.of_nat k). assert (0 < q) by (apply Z.pow_pos_nonneg; lia).
    replace (2 * (Zpos p * q) + q) with (q + Zpos p * (2 * q)) by lia.
    rewrite Z.div_add by lia. rewrite Z.div_small by lia. lia.
Qed.

(** * Properties *)

Lemma quot_div_pos a b : 0 <= a -> 0 < b -> Z.quot a b = a / b.
Proof. intros. by apply Z.quot_div_nonneg. Qed.

Lemma clamp_range v lo hi : lo <= hi -> lo <= clamp v lo hi <= hi.
Proof.
  intros. unfold clamp. destruct (Z.ltb_spec v lo); [lia|]. destruct (Z.ltb_spec hi v); lia.
Qed.

Lemma clamp_id v lo hi : lo <= v <= hi -> clamp v lo hi = v.
Proof.
  intros. unfold clamp. destruct (Z.ltb_spec v lo); [lia|]. destruct (Z.ltb_spec hi v); lia.
Qed.

(** A wrapped positive quotient below 2^31 is the quotient. *)
Lemma i32_small z : 0 <= z < 2 ^ 31 -> i32 z = z.
Proof. intros. apply i32_id. unfold in_i32. lia. Qed.

(** ** The letterboxed viewport *)

(** [(w, h)] is the largest size of the source's aspect ratio in the host, up to
    rounding down. *)
Definition aspect_fit (host_width host_height source_width source_height w h : Z) : Prop :=
  (w = host_width /\ h <= host_height /\
   h = Z.max 1 (host_width * source_height / source_width)) \/
  (h = host_height /\ w <= host_width /\
   w = Z.max 1 (host_height * source_width / source_height)).

Lemma div_le_swap hw hh sw sh :
  0 < hw -> 0 < hh -> 0 < sw -> 0 < sh -> hh < hw * sh / sw -> hh * sw / sh < hw.
Proof.
  intros. apply Z.div_lt_upper_bound; [lia|].
  assert (sw * (hw * sh / sw) <= hw * sh) by (apply Z.mul_div_le; lia). nia.
Qed.

(** The letterboxed viewport of [CoordinateTransform] (the constructor the
    renderer uses) for positive sizes whose scaled height fits an [int]: it is
    valid, non-empty, inside the host area, the aspect fit of the (for
    quarter turns swapped) Android size, and centred within one pixel. *)
Theorem letterbox_fit (hw hh aw ah : Z) (rot : rotation) :
  let sw := if quarter_turn rot then ah else aw in
  let sh := if quarter_turn rot then aw else ah in
  let t := fit_transform hw hh aw ah rot in
  let v := viewport_ t in
  0 < hw < 2 ^ 31 -> 0 < hh < 2 ^ 31 -> 0 < aw -> 0 < ah -> hw * sh / sw < 2 ^ 31 ->
  valid_ t = true /\ 0 < width v /\ 0 < height v /\
  0 <= left_ v /\ right_ v <= hw /\ 0 <= top_ v /\ bottom_ v <= hh /\
  aspect_fit hw hh sw sh (width v) (height v) /\
  0 <= (hw - right_ v) - left_ v <= 1 /\ 0 <= (hh - bottom_ v) - top_ v <= 1.
Proof.
  intros sw sh t v Hhw Hhh Haw Hah Hfit. unfold v, t, fit_transform.
  destruct (Z.leb_spec hw 0), (Z.leb_spec hh 0), (Z.leb_spec aw 0), (Z.leb_spec ah 0); try lia.
  cbn [orb]. fold sw sh.
  assert (0 < sw /\ 0 < sh) as [] by (unfold sw, sh; destruct (quarter_turn rot); lia).
  assert (Hq : 0 <= hw * sh / sw) by (apply Z.div_pos; nia).
  rewrite (quot_div_pos (hw * sh)), (quot_div_pos (hh * sw)), (i32_small (hw * sh / sw)) by nia.
  unfold aspect_fit. destruct (Z.ltb_spec hh (Z.max 1 (hw * sh / sw))) as [Hlt|Hle].
  - assert (Hw : hh * sw / sh < hw) by (apply div_le_swap; lia).
    assert (0 <= hh * sw / sh) by (apply Z.div_pos; nia).
    rewrite i32_small by lia. cbn [viewport_ valid_ width height left_ right_ top_ bottom_].
    unfold width, height. cbn [left_ right_ top_ bottom_].
    rewrite Z.sub_diag, !quot_div_pos by lia.
    pose proof (Z.div_mod (hw - Z.max 1 (hh * sw / sh)) 2 ltac:(lia)).
    pose proof (Z.mod_pos_bound (hw - Z.max 1 (hh * sw / sh)) 2 ltac:(lia)).
    change (0 / 2) with 0. split; [done|]. repeat split; try lia.
  - cbn [viewport_ valid_]. unfold width, height. cbn [left_ right_ top_ bottom_].
    rewrite Z.sub_diag, !quot_div_pos by lia.
    pose proof (Z.div_mod (hh - Z.max 1 (hw * sh / sw)) 2 ltac:(lia)).
    pose proof (Z.mod_pos_bound (hh - Z.max 1 (hw * sh / sw)) 2 ltac:(lia)).
    change (0 / 2) with 0. split; [done|]. repeat split; try lia.
Qed.

Lemma letterbox_fit_witness :
  valid_ (fit_transform 1024 768 720 1600 R0) = true /\
  viewport_ (fit_transform 1024 768 720 1600 R0) = Rect 339 0 684 768.
Proof. split; [apply (letterbox_fit 1024 768 720 1600 R0); reflexivity || lia|reflexivity]. Defined.

(** ** Mapping input to Android coordinates *)

Section mapping.
Context (junk : Z).

Definition inside (v : rect) (x y : Z) : Prop :=
  left_ v <= x < right_ v /\ top_ v <= y < bottom_ v.

Lemma map_absolute_some t x y :
  is_Some (map_absolute junk t x y) <-> valid_ t = true /\ inside (viewport_ t) x y.
Proof.
  unfold map_absolute, inside. destruct (valid_ t); simpl; [|split; [by intros []|by intros []]].
  destruct (Z.ltb_spec x (left_ (viewport_ t))), (Z.leb_spec (right_ (viewport_ t)) x),
    (Z.ltb_spec y (top_ (viewport_ t))), (Z.leb_spec (bottom_ (viewport_ t)) y); simpl;
    try (split; [by intros []|lia]).
  destruct (match rotation_ t with R0 => _ | _ => _ end). split; [lia|eauto].
Qed.

Lemma map_absolute_range t x y ax ay :
  map_absolute junk t x y = Some (ax, ay) -> 0 < android_width_ t -> 0 < android_height_ t ->
  0 <= ax < android_width_ t /\ 0 <= ay < android_height_ t.
Proof.
  unfold map_absolute. case_match; [done|].
  destruct (match rotation_ t with R0 => _ | _ => _ end). intros [= <- <-] Hw Hh.
  pose proof (clamp_range (long_to_int junk (lround (dmul d (of_int (android_width_ t - 1)))))
    0 (android_width_ t - 1)).
  pose proof (clamp_range (long_to_int junk (lround (dmul d0 (of_int (android_height_ t - 1)))))
    0 (android_height_ t - 1)). lia.
Qed.

Lemma logical_viewport_inside s :
  0 < window_width s -> 0 < window_height s ->
  let v := logical_viewport junk s in
  0 <= left_ v /\ right_ v <= window_width s /\ 0 <= top_ v /\ bottom_ v <= window_height s.
Proof.
  intros Hw Hh v. unfold v, logical_viewport. case_match; [simpl; lia|]. cbn [left_ right_ top_ bottom_].
  repeat match goal with |- context [clamp ?a ?b ?c] =>
    lazymatch goal with H : b <= clamp a b c <= c |- _ => fail | _ => idtac end;
    pose proof (clamp_range a b c ltac:(lia)); generalize dependent (clamp a b c); intros end. lia.
Qed.

(** Input through the published viewport ([RenderedViewport::map_absolute]):
    for a valid publication with positive sizes a window position is mapped
    exactly when it lies in the logical viewport (in particular never in the
    letterbox bars or outside the window), the mapped position is always
    on the Android screen, and an invalid publication maps nothing. *)
Theorem rendered_viewport_mapping (s : rendered_viewport) (x y : Z) :
  0 < window_width s -> 0 < window_height s -> 0 < drawable_width s -> 0 < drawable_height s ->
  0 < rv_android_width s -> 0 < rv_android_height s ->
  let v := logical_viewport junk s in
  (is_Some (rv_map_absolute junk s x y) <-> rv_valid s = true /\ inside v x y) /\
  (forall ax ay, rv_map_absolute junk s x y = Some (ax, ay) ->
     0 <= x < window_width s /\ 0 <= y < window_height s /\
     0 <= ax < rv_android_width s /\ 0 <= ay < rv_android_height s).
Proof.
  intros Hw Hh Hdw Hdh Haw Hah v. pose proof (logical_viewport_inside s Hw Hh) as Hin. fold v in Hin.
  unfold rv_map_absolute. destruct (rv_valid s); cbn [negb orb]; [|split; [|done]; split; by intros [] || done].
  destruct (Z.leb_spec (window_width s) 0), (Z.leb_spec (window_height s) 0),
    (Z.leb_spec (drawable_width s) 0), (Z.leb_spec (drawable_height s) 0); try lia.
  pose proof (map_absolute_some (rv_transform junk s) x y) as Hsome.
  pose proof (map_absolute_range (rv_transform junk s) x y) as Hrange.
  unfold rv_transform, viewport_transform in *. cbn [valid_ viewport_ android_width_ android_height_] in *.
  fold v in Hsome, Hrange |- *. unfold inside in *.
  destruct (Z.ltb_spec x 0), (Z.ltb_spec y 0), (Z.leb_spec (window_width s) x),
    (Z.leb_spec (window_height s) y); cbn [orb];
    try (split; [split; [by intros []|lia]|done]).
  split; [|intros ax ay Hm; specialize (Hrange ax ay Hm Haw Hah); lia].
  rewrite Hsome, !andb_true_iff, !Z.ltb_lt. unfold width, height. split; [tauto|lia].
Qed.

(** The corners of a rectangle, and how a rotation permutes them. *)
Definition corner (v : rect) (right bottom : bool) : Z * Z :=
  (if right then right_ v - 1 else left_ v, if bottom then bottom_ v - 1 else top_ v).
Definition rotated (r : rotation) (right bottom : bool) : bool * bool :=
  match r with
  | R0 => (right, bottom)
  | R90 => (bottom, negb right)
  | R180 => (negb right, negb bottom)
  | R270 => (negb bottom, right)
  end.

Lemma ratio_corner l r b :
  1 < r - l <= 2 ^ 31 -> ratio ((if b : bool then r - 1 else l) - l) (r - l) = unit_end b.
Proof.
  intros H. destruct b; simpl.
  - replace (r - 1 - l) with (r - l - 1) by lia. by apply ratio_end.
  - rewrite Z.sub_diag. by apply ratio_start.
Qed.

Lemma long_to_int_extreme n b : 0 < n < 2 ^ 31 -> long_to_int junk (Some (extreme n b)) = extreme n b.
Proof.
  intros Hn. assert (0 <= extreme n b < 2 ^ 31) by (destruct b; simpl; lia).
  unfold long_to_int. destruct (Z.leb_spec (- 2 ^ 63) (extreme n b)), (Z.ltb_spec (extreme n b) (2 ^ 63));
    try lia. simpl. apply i32_id. unfold in_i32. lia.
Qed.

Lemma map_unit n b :
  0 < n < 2 ^ 31 ->
  clamp (long_to_int junk (lround (dmul (unit_end b) (of_int (n - 1))))) 0 (n - 1) = extreme n b.
Proof.
  intros Hn. rewrite lround_unit, long_to_int_extreme by lia. apply clamp_id.
  destruct b; simpl; lia.
Qed.

(** Absolute positions are exact at the corners, in every rotation: for any
    viewport of at least two by two pixels and any Android screen the
    binary64 computation of [CoordinateTransform::map_absolute] takes the
    four corner pixels of the viewport to the corner pixels of the screen
    that the rotation gives, so the whole screen can be reached. *)
Theorem map_absolute_corners (t : transform) (right bottom : bool) :
  valid_ t = true -> 1 < width (viewport_ t) < 2 ^ 31 -> 1 < height (viewport_ t) < 2 ^ 31 ->
  0 < android_width_ t < 2 ^ 31 -> 0 < android_height_ t < 2 ^ 31 ->
  let p := corner (viewport_ t) right bottom in
  let q := rotated (rotation_ t) right bottom in
  map_absolute junk t p.1 p.2 = Some (extreme (android_width_ t) q.1, extreme (android_height_ t) q.2).
Proof.
  intros Ht Hw Hh Haw Hah p q. unfold map_absolute. rewrite Ht. unfold width, height in *.
  set (v := viewport_ t) in *. unfold p, corner. cbn [fst snd negb orb].
  rewrite !ratio_corner by lia.
  assert (Hx : forall b : bool, let x := if b then right_ v - 1 else left_ v in
    (x <? left_ v) = false /\ (right_ v <=? x) = false).
  { intros []; simpl; split; lia. }
  assert (Hy : forall b : bool, let y := if b then bottom_ v - 1 else top_ v in
    (y <? top_ v) = false /\ (bottom_ v <=? y) = false).
  { intros []; simpl; split; lia. }
  destruct (Hx right) as [-> ->], (Hy bottom) as [-> ->]. cbn [orb].
  unfold q. destruct (rotation_ t); cbn [rotated fst snd];
    rewrite ?one_minus_unit; by rewrite !map_unit by done.
Qed.
End mapping.

Lemma rendered_viewport_mapping_witness :
  let s := RenderedViewport true 800 600 1600 1200 (Rect 530 0 1070 1200) 720 1600 R0 42 in
  rv_map_absolute 0 s 265 0 = Some (0, 0) /\ rv_map_absolute 0 s 534 599 = Some (719, 1599) /\
  rv_map_absolute 0 s 200 300 = None /\
  (is_Some (rv_map_absolute 0 s 265 0) <-> true = true /\ inside (logical_viewport 0 s) 265 0).
Proof.
  intros s. split; [reflexivity|]. split; [reflexivity|]. split; [reflexivity|].
  apply (rendered_viewport_mapping 0 s 265 0); reflexivity.
Defined.

Lemma map_absolute_corners_witness :
  map_absolute 0 (fit_transform 1600 720 720 1600 R90) 0 0 = Some (0, 1599).
Proof. apply (map_absolute_corners 0 (fit_transform 1600 720 720 1600 R90) false false); vm_compute; auto. Defined.

(** Relative motion uses the horizontal scale of the viewport for the rotated
    axis: sweeping the whole height of this quarter-turned viewport moves the
    pointer by 324 pixels, while the absolute mapping of its ends is 719 apart. *)
Lemma quarter_turn_relative :
  let t := fit_transform 1600 720 720 1600 R90 in
  map_relative 0 t 0 719 = Some (324, 0) /\
  map_absolute 0 t 0 0 = Some (0, 1599) /\ map_absolute 0 t 0 719 = Some (719, 1599).
Proof. vm_compute. auto. Qed.

(** ** The single window *)

Lemma rect_eqb_eq a b : rect_eqb a b = true <-> a = b.
Proof.
  unfold rect_eqb. destruct a, b; simpl. rewrite !andb_true_iff, !Z.eqb_eq.
  split; [intros [[[-> ->] ->] ->]; done|intros [= -> -> -> ->]; done].
Qed.

(** Centring a length in another one. *)
Lemma centred n w : w <= n -> 0 <= (n - w) - 2 * Z.quot (n - w) 2 <= 1.
Proof.
  intros. rewrite quot_div_pos by lia.
  pose proof (Z.div_mod (n - w) 2 ltac:(lia)). pose proof (Z.mod_pos_bound (n - w) 2 ltac:(lia)). lia.
Qed.

(** The automatic size. *)
Lemma automatic_size H :
  0 < H < 2 ^ 31 ->
  i32 (Z.quot (H * 9) 10) = 9 * H / 10 /\
  i32 (Z.quot (9 * H / 10 * 9 + 10) 20) = (9 * (9 * H / 10) + 10) / 20.
Proof.
  intros HH. rewrite (Z.mul_comm H). set (h := 9 * H / 10).
  assert (0 <= h < H + 1) by (unfold h; split; [apply Z.div_pos|apply Z.div_lt_upper_bound]; lia).
  rewrite !quot_div_pos by lia. fold h. rewrite i32_small by lia. split; [done|].
  rewrite (Z.mul_comm h). apply i32_small.
  split; [apply Z.div_pos|apply Z.div_lt_upper_bound]; lia.
Qed.

(** [calculate_single_window_frame] on a usable work area.  Without a
    requested size the frame is non-empty and lies inside the work area, at
    most 90% of its height high and with a 20:9 width unless clipped.  A
    requested size is kept, and the frame is centred within one pixel
    whenever it fits. *)
Theorem single_window_frame (requested work_area : rect) :
  usable work_area = true -> 0 < width work_area < 2 ^ 31 -> 0 < height work_area < 2 ^ 31 ->
  let f := calculate_single_window_frame requested work_area in
  (requested = Invalid ->
     0 < width f /\ 0 < height f /\
     left_ work_area <= left_ f /\ right_ f <= right_ work_area /\
     top_ work_area <= top_ f /\ bottom_ f <= bottom_ work_area /\
     height f = Z.max 1 (9 * height work_area / 10) /\
     width f = Z.max 1 (Z.min (width work_area) ((9 * (9 * height work_area / 10) + 10) / 20))) /\
  (requested <> Invalid -> width f = width requested /\ height f = height requested) /\
  (width f <= width work_area ->
     0 <= (right_ work_area - right_ f) - (left_ f - left_ work_area) <= 1) /\
  (height f <= height work_area ->
     0 <= (bottom_ work_area - bottom_ f) - (top_ f - top_ work_area) <= 1).
Proof.
  intros Hu Hw Hh f. unfold f, calculate_single_window_frame. rewrite Hu. cbn [negb].
  destruct (automatic_size (height work_area)) as [-> ->]; [done|].
  destruct (rect_eqb requested Invalid) eqn:E; cbn [negb].
  - set (w := Z.max 1 (Z.min _ _)). set (h := Z.max 1 (Z.min (9 * _ / 10) _)).
    pose proof (centred (width work_area) w ltac:(lia)) as Hcw.
    assert (9 * height work_area / 10 <= height work_area) by (apply Z.div_le_upper_bound; lia).
    pose proof (centred (height work_area) h ltac:(lia)) as Hch.
    apply rect_eqb_eq in E. unfold width, height in *. cbn [left_ right_ top_ bottom_] in *.
    split; [intros _|split; [done|]]; lia.
  - set (w := width requested). set (h := height requested).
    pose proof (centred (width work_area) w) as Hcw. pose proof (centred (height work_area) h) as Hch.
    assert (requested <> Invalid) by (intros Hr%rect_eqb_eq; congruence).
    unfold width, height in *. cbn [left_ right_ top_ bottom_] in *.
    split; [done|]. split; [lia|]. split; lia.
Qed.

Lemma single_window_frame_witness :
  calculate_single_window_frame Invalid (Rect 20 30 320 1030) = Rect 20 80 320 980 /\
  20 <= left_ (calculate_single_window_frame Invalid (Rect 20 30 320 1030)).
Proof.
  split; [reflexivity|].
  destruct (single_window_frame Invalid (Rect 20 30 320 1030)) as [H _];
    [reflexivity|split; reflexivity|split; reflexivity|].
  apply H. reflexivity.
Defined.
