(* ===== verification/Bridge.v ===== *)
(** The host side of the bridge to Android (src bridge/): [AndroidApiStub], the
    calls into the container, and [PlatformApiSkeleton] with
    [PlatformMessageProcessor], what the container asks of the host; with
    [common::WaitHandle], [application::Database] and
    [application::LauncherStorage], which they drive. *)

From S2P Require Import Prelude Geometry.

Local Open Scope nat_scope.

(** * WaitHandle (common/wait_handle.cpp) *)

Record wait_handle := WaitHandle { expecting : Z; received : Z }.
Definition wait_handle_init : wait_handle := WaitHandle 0 0.
Definition expect_result (h : wait_handle) : wait_handle := WaitHandle (expecting h + 1) (received h).
Definition result_received (h : wait_handle) : wait_handle := WaitHandle (expecting h) (received h + 1).
Definition has_result (h : wait_handle) : bool := (0 <? received h)%Z.
Definition is_pending (h : wait_handle) : bool :=
  (0 <? expecting h)%Z && negb (received h =? expecting h)%Z.

(** The waits: [None] while the predicate of the condition variable is false.
    [wait_for_pending] returns at the deadline too and changes nothing. *)
Definition wait_for_all (h : wait_handle) : option wait_handle :=
  if (received h =? expecting h)%Z then Some (WaitHandle 0 0) else None.
Definition wait_for_one (h : wait_handle) : option wait_handle :=
  if (received h =? 0)%Z then None else Some (WaitHandle (expecting h - 1) (received h - 1)).
Definition wait_for_pending (h : wait_handle) : wait_handle := h.

(** * Intents and applications *)

Record intent := Intent {
  action : bytes;
  uri : bytes;
  type : bytes;
  package : bytes;
  component : bytes;
  categories : list bytes
}.

#[global] Instance intent_eq_dec : EqDecision intent.
Proof. solve_decision. Defined.

Definition intent_valid (i : intent) : bool := negb (is_empty (component i) && is_empty (package i)).

(** * AndroidApiStub *)

(** [wm::Stack::Id], an [int] that the container may set to any value. *)
Definition Stack_Invalid : Z := -1.
Definition Stack_Default : Z := 0.
Definition Stack_Fullscreen : Z := 1.
Definition Stack_Freeform : Z := 2.
Inductive stack_message := DEFAULT | FULLSCREEN | FREEFORM.

(** protobuf::bridge::Intent: an unset field is [None]. *)
Record intent_message := IntentMessage {
  m_action : option bytes;
  m_uri : option bytes;
  m_type : option bytes;
  m_package : option bytes;
  m_component : option bytes;
  m_categories : list bytes
}.

Inductive request :=
  | LaunchApplication (i : intent_message) (bounds : option rect) (s : option stack_message)
  | SetFocusedTask (id : Z)
  | RemoveTask (id : Z)
  | ResizeTask (id resize_mode : Z) (r : rect).

Inductive handle := Launch | SetFocused | Remove | Resize.
#[global] Instance handle_eq_dec : EqDecision handle.
Proof. solve_decision. Defined.

Record stub := Stub {
  channel : bool;                       (* whether channel_ is set *)
  handles : handle -> wait_handle;
  launch_bounds_ : rect;
  calls : list (bytes * request)        (* what went to Channel::call_method *)
}.

Definition stub_init : stub := Stub false (fun _ => wait_handle_init) Geometry.Invalid [].
Definition set_rpc_channel (s : stub) : stub := Stub true (handles s) (launch_bounds_ s) (calls s).
Definition reset_rpc_channel (s : stub) : stub := Stub false (handles s) (launch_bounds_ s) (calls s).

Definition on_handle (h : handle) (f : wait_handle -> wait_handle) (s : stub) : stub :=
  Stub (channel s) (fun h' => if decide (h = h') then f (handles s h') else handles s h')
    (launch_bounds_ s) (calls s).

(** The answer of the container: what [call_method] did, how many completions
    of this kind of call ran until the wait ended, and the error of the
    response. *)
Record answer := Answer {
  call_outcome : outcome unit;
  completions : nat;
  error : option bytes
}.

Definition ensure_rpc_channel : M stub unit :=
  s ← get; if channel s then mret tt else throw RuntimeError.

(** The part the four calls share, from [expect_result] on. *)
Definition perform (h : handle) (method : bytes) (message : request) (a : answer) : M stub unit :=
  _ ← modify (on_handle h expect_result);
  _ ← modify (fun s => Stub (channel s) (handles s) (launch_bounds_ s)
                         (calls s ++ [(method, message)]));
  _ ← lift (call_outcome a);
  _ ← modify (on_handle h (Nat.iter (completions a) result_received));
  _ ← modify (on_handle h wait_for_pending);
  s ← get;
  if negb (has_result (handles s h)) then throw RuntimeError
  else match error a with Some _ => throw RuntimeError | None => mret tt end.

Definition set_if_nonempty (s : bytes) : option bytes := if is_empty s then None else Some s.
Definition intent_to_message (i : intent) : intent_message :=
  IntentMessage (set_if_nonempty (action i)) (set_if_nonempty (uri i)) (set_if_nonempty (type i))
    (set_if_nonempty (package i)) (set_if_nonempty (component i)) (categories i).
Definition stack_to_message (s : Z) : option stack_message :=
  if (s =? Stack_Default)%Z then Some DEFAULT
  else if (s =? Stack_Fullscreen)%Z then Some FULLSCREEN
  else if (s =? Stack_Freeform)%Z then Some FREEFORM
  else None.

(** The launch message is built from the member [launch_bounds_], not from the
    argument. *)
Definition launch (i : intent) (launch_bounds : rect) (st : Z) (a : answer) : M stub unit :=
  _ ← ensure_rpc_channel;
  s ← get;
  let bounds := if rect_eqb launch_bounds Geometry.Invalid then None else Some (launch_bounds_ s) in
  perform Launch (str "launch_application")
    (LaunchApplication (intent_to_message i) bounds (stack_to_message st)) a.
Definition set_focused_task (id : Z) (a : answer) : M stub unit :=
  _ ← ensure_rpc_channel; perform SetFocused (str "set_focused_task") (SetFocusedTask id) a.
Definition remove_task (id : Z) (a : answer) : M stub unit :=
  _ ← ensure_rpc_channel; perform Remove (str "remove_task") (RemoveTask id) a.
Definition resize_task (id : Z) (r : rect) (resize_mode : Z) (a : answer) : M stub unit :=
  _ ← ensure_rpc_channel; perform Resize (str "resize_task") (ResizeTask id resize_mode r) a.

(** * LauncherStorage *)

Record item := Item {
  name : bytes;
  item_package : bytes;
  launch_intent : intent;
  icon : bytes
}.
Definition Unknown : item := Item [] [] (Intent [] [] [] [] [] []) [].
Definition item_valid (i : item) : bool := 0 <? length (item_package i).

(** The regular files of [path_], or [None] while it does not exist. *)
Definition directory := option (gmap bytes bytes).

Definition dot : byte := x2e.
Definition dash : byte := x2d.
Definition newline : bytes := [x0a].
Definition clean_package_name (p : bytes) : bytes :=
  (fun b => if Byte.eqb b dot then dash else b) <$> p.
Definition anbox_prefix : bytes := str "anbox-".
Definition path_for_item (clean : bytes) : bytes := anbox_prefix ++ clean ++ str ".desktop".
Definition path_for_item_icon (clean : bytes) : bytes := anbox_prefix ++ clean ++ str ".png".

Section storage.

(** The storage path as a string, the executable put into the launchers (the
    snap's or the process's own), and which files can be created. *)
Context (path : bytes) (exe_path : bytes) (creatable : bytes -> bool).

Definition reset (d : directory) : directory :=
  (fun m => filter (fun kv : bytes * bytes => starts_with kv.1 anbox_prefix = false) m) <$> d.

Definition option_arg (flag v : bytes) : bytes := if is_empty v then [] else flag ++ v ++ str " ".
Definition exec_line (i : intent) : bytes :=
  exe_path ++ str " launch " ++
  option_arg (str "--action=") (action i) ++ option_arg (str "--type=") (type i) ++
  option_arg (str "--uri=") (uri i) ++ option_arg (str "--package=") (package i) ++
  option_arg (str "--component=") (component i).

Definition desktop_item (i : item) : bytes :=
  str "[Desktop Entry]" ++ newline ++ str "Type=Application" ++ newline ++
  str "Name=" ++ name i ++ newline ++
  str "Exec=" ++ exec_line (launch_intent i) ++ newline ++
  str "Terminal=false" ++ newline ++ str "Categories=Anbox;" ++ newline ++
  str "Icon=" ++ path ++ str "/" ++ path_for_item_icon (clean_package_name (item_package i)) ++ newline.

(** [std::ofstream(file)] and the writes to it.  Nothing looks at the stream
    after it is open: a write that fails, on a full disk say, leaves a shorter
    file and is not noticed.  Here the writes succeed. *)
Definition write_file (file content : bytes) : M directory unit :=
  if creatable file then modify (fmap (M := option) (<[file := content]>)) else throw RuntimeError.

Definition add_or_update (i : item) : M directory unit :=
  _ ← modify (fun d => Some (default ∅ d));
  let p := clean_package_name (item_package i) in
  _ ← write_file (path_for_item p) (desktop_item i);
  write_file (path_for_item_icon p) (icon i).

Definition storage_remove (i : item) (d : directory) : directory :=
  let p := clean_package_name (item_package i) in
  (fun m => delete (path_for_item_icon p) (delete (path_for_item p) m)) <$> d.

(** * Database *)

Record database := Database {
  storage_ : directory;
  items_ : gmap bytes item;
  done_reset : bool
}.

Definition on_storage {A} (c : M directory A) : M database A := fun db =>
  let (d, o) := c (storage_ db) in (Database d (items_ db) (done_reset db), o).
Definition clear_icon (i : item) : item := Item (name i) (item_package i) (launch_intent i) [].

Definition store_or_update (i : item) : M database unit :=
  db ← get;
  _ ← (if done_reset db then mret tt
       else _ ← on_storage (modify reset);
            modify (fun db => Database (storage_ db) (items_ db) true));
  _ ← on_storage (add_or_update i);
  modify (fun db => Database (storage_ db) (<[item_package i := clear_icon i]> (items_ db)) (done_reset db)).

Definition remove (i : item) : M database unit :=
  db ← get;
  match items_ db !! item_package i with
  | None => mret tt
  | Some _ =>
      modify (fun db => Database (storage_remove i (storage_ db))
                          (delete (item_package i) (items_ db)) (done_reset db))
  end.

Definition find_by_package (db : database) (p : bytes) : item := default Unknown (items_ db !! p).

(** * PlatformApiSkeleton *)

(** protobuf::bridge::ApplicationListUpdateEvent.Application; unset strings
    read as empty. *)
Record application := Application {
  a_name : bytes;
  a_package : bytes;
  a_intent : intent;
  a_icon : bytes
}.

Definition removed_item (a : application) : item :=
  Item [] (a_package a) (launch_intent Unknown) [].

(** The launch intent's type is read from the uri field. *)
Definition added_item (a : application) : item :=
  let li := a_intent a in
  Item (a_name a) (a_package a)
    (Intent (action li) (uri li) (uri li) (package li) (component li) (categories li)) (a_icon a).

Definition handle_application_list_update_event (removed added : list application)
    : M database unit :=
  _ ← for_each (fun a => if is_empty (a_package a) then mret tt else remove (removed_item a)) removed;
  for_each (fun a => if is_empty (a_package a) then mret tt else store_or_update (added_item a)) added.
End storage.

(** * Proofs: the stub *)

(** The four requests as one type. *)
Inductive task_request :=
  | RLaunch (i : intent) (b : rect) (st : Z)
  | RFocus (id : Z)
  | RRemove (id : Z)
  | RResize (id : Z) (r : rect) (mode : Z).
Definition request_handle (r : task_request) : handle :=
  match r with RLaunch _ _ _ => Launch | RFocus _ => SetFocused | RRemove _ => Remove
  | RResize _ _ _ => Resize end.
Definition perform_request (r : task_request) (a : answer) : M stub unit :=
  match r with
  | RLaunch i b st => launch i b st a
  | RFocus id => set_focused_task id a
  | RRemove id => remove_task id a
  | RResize id rc mode => resize_task id rc mode a
  end.

(** What a request that reached the container should give. *)
Definition expected_outcome (a : answer) : outcome unit :=
  match call_outcome a with
  | Ret _ => if (completions a =? 0)%nat then Throw RuntimeError
             else match error a with Some _ => Throw RuntimeError | None => Ret tt end
  | o => o
  end.

Lemma iter_received n h :
  received (Nat.iter n result_received h) = (received h + Z.of_nat n)%Z.
Proof. induction n as [|n IH]; simpl; [lia|]. rewrite IH. lia. Qed.

Definition with_call (m : bytes * request) (s : stub) : stub :=
  Stub (channel s) (handles s) (launch_bounds_ s) (calls s ++ [m]).

Lemma handles_on h f s : handles (on_handle h f s) h = f (handles s h).
Proof. unfold on_handle. simpl. by rewrite decide_True. Qed.

(** [perform] in full: the call that is made, the counters and the outcome. *)
Lemma perform_spec h method m a s :
  exists s', (perform h method m a s).1 = s' /\
    calls s' = calls s ++ [(method, m)] /\ channel s' = channel s /\
    (perform h method m a s).2 =
      match call_outcome a with
      | Ret _ => if (received (handles s h) + Z.of_nat (completions a) <=? 0)%Z then Throw RuntimeError
                 else match error a with Some _ => Throw RuntimeError | None => Ret tt end
      | o => o
      end /\
    received (handles s' h) = (received (handles s h) +
      match call_outcome a with Ret _ => Z.of_nat (completions a) | _ => 0 end)%Z /\
    (forall h', h' <> h -> handles s' h' = handles s h').
Proof.
  eexists. split; [done|]. unfold perform. erewrite !M_bind_ret by done.
  set (s1 := with_call (method, m) (on_handle h expect_result s)).
  change (Stub _ _ _ _) with s1.
  assert (Hother : forall f s h', h' <> h -> handles (on_handle h f s) h' = handles s h').
  { intros f s0 h' Hne. unfold on_handle. simpl. by rewrite decide_False. }
  destruct (call_outcome a) as [[]| | |] eqn:E.
  2-4: unfold mbind, M_bind, lift; simpl; rewrite decide_True by done; simpl;
    repeat split; try lia; intros; by apply Hother.
  erewrite M_bind_ret by done. erewrite M_bind_ret by done. erewrite M_bind_ret by done.
  unfold get. erewrite M_bind_ret by done.
  set (s2 := on_handle h wait_for_pending _).
  assert (Hr : received (handles s2 h) = (received (handles s h) + Z.of_nat (completions a))%Z).
  { unfold s2, wait_for_pending. rewrite !handles_on, iter_received. unfold s1, with_call. cbn [handles].
    by rewrite handles_on. }
  assert (Ho : forall h', h' <> h -> handles s2 h' = handles s h').
  { intros. unfold s2. rewrite !Hother by done. unfold s1, with_call. cbn [handles]. by apply Hother. }
  unfold has_result. rewrite Hr. rewrite Z.leb_antisym.
  destruct (0 <? _)%Z; simpl; [destruct (error a); simpl|]; repeat split; try done; exact Hr.
Qed.

(** A request without a channel is refused. *)
Lemma perform_request_no_channel r a s :
  channel s = false -> perform_request r a s = (s, Throw RuntimeError).
Proof.
  intros Hc. destruct r; simpl; unfold launch, set_focused_task, remove_task, resize_task,
    ensure_rpc_channel, mbind, M_bind, get, throw, lift; by rewrite Hc.
Qed.

(** With one, it is a [perform] of its message. *)
Definition request_message (s : stub) (r : task_request) : bytes * request :=
  match r with
  | RLaunch i b st => (str "launch_application",
      LaunchApplication (intent_to_message i)
        (if rect_eqb b Geometry.Invalid then None else Some (launch_bounds_ s)) (stack_to_message st))
  | RFocus id => (str "set_focused_task", SetFocusedTask id)
  | RRemove id => (str "remove_task", RemoveTask id)
  | RResize id rc mode => (str "resize_task", ResizeTask id mode rc)
  end.
Lemma perform_request_channel r a s :
  channel s = true ->
  perform_request r a s =
    perform (request_handle r) (request_message s r).1 (request_message s r).2 a s.
Proof.
  intros Hc. destruct r; simpl; unfold launch, set_focused_task, remove_task, resize_task;
    (erewrite M_bind_ret by (unfold ensure_rpc_channel; erewrite M_bind_ret by done; by rewrite Hc));
    done.
Qed.

(** A call into the container through [AndroidApiStub], for each of the
    four calls.  Without a channel it throws and calls nothing.  With one it
    makes exactly one remote call with the request's method, and, when no
    result of this kind was received before, it returns exactly when the
    remote call was made, a completion arrived before the deadline and the
    response carries no error; otherwise it throws. *)
Theorem stub_request (r : task_request) (a : answer) (s : stub) :
  (channel s = false -> perform_request r a s = (s, Throw RuntimeError)) /\
  (channel s = true ->
     calls (perform_request r a s).1 = calls s ++ [request_message s r] /\
     (received (handles s (request_handle r)) = 0%Z ->
      (perform_request r a s).2 = expected_outcome a)).
Proof.
  split; [apply perform_request_no_channel|]. intros Hc. rewrite perform_request_channel by done.
  destruct (perform_spec (request_handle r) (request_message s r).1 (request_message s r).2 a s)
    as (s' & -> & Hcalls & _ & Ho & _).
  split; [rewrite Hcalls; by destruct (request_message s r)|]. intros Hr. rewrite Ho, Hr.
  unfold expected_outcome. destruct (call_outcome a); try done.
  by destruct (completions a).
Qed.

Lemma stub_request_witness :
  (perform_request (RFocus 3) (Answer (Ret tt) 0 None) (set_rpc_channel stub_init)).2 = Throw RuntimeError /\
  (perform_request (RFocus 3) (Answer (Ret tt) 1 None) (set_rpc_channel stub_init)).2 = Ret tt.
Proof.
  split.
  - apply (proj2 (proj2 (stub_request (RFocus 3) (Answer (Ret tt) 0 None)
      (set_rpc_channel stub_init)) eq_refl)). reflexivity.
  - apply (proj2 (proj2 (stub_request (RFocus 3) (Answer (Ret tt) 1 None)
      (set_rpc_channel stub_init)) eq_refl)). reflexivity.
Defined.

(** The counters are never reset: after one completed call of a kind, a later
    one that gets no answer at all returns as if it had succeeded. *)
Lemma timeout_undetected (r1 r2 : task_request) (s : stub) :
  channel s = true -> request_handle r1 = request_handle r2 ->
  received (handles s (request_handle r1)) = 0%Z ->
  (perform_request r2 (Answer (Ret tt) 0 None)
     (perform_request r1 (Answer (Ret tt) 1 None) s).1).2 = Ret tt.
Proof.
  intros Hc Hh Hr. rewrite (perform_request_channel r1) by done.
  destruct (perform_spec (request_handle r1) (request_message s r1).1 (request_message s r1).2
    (Answer (Ret tt) 1 None) s) as (s' & -> & _ & Hc' & _ & Hr' & _).
  rewrite perform_request_channel by congruence. rewrite <- Hh.
  destruct (perform_spec (request_handle r1) (request_message s' r2).1 (request_message s' r2).2
    (Answer (Ret tt) 0 None) s') as (_ & _ & _ & _ & Ho & _).
  rewrite Ho, Hr', Hr. reflexivity.
Qed.

(** The launch bounds of the caller never reach the container. *)
Lemma launch_bounds_ignored i b st a :
  b <> Geometry.Invalid ->
  calls (launch i b st a (set_rpc_channel stub_init)).1 =
    [(str "launch_application",
      LaunchApplication (intent_to_message i) (Some Geometry.Invalid) (stack_to_message st))].
Proof.
  intros Hb. change (launch i b st a) with (perform_request (RLaunch i b st) a).
  rewrite perform_request_channel by done.
  match goal with |- context [perform ?h ?m ?r ?a ?s] =>
    destruct (perform_spec h m r a s) as (s' & -> & -> & _) end.
  simpl. destruct (rect_eqb b Geometry.Invalid) eqn:E; [|done]. by apply rect_eqb_eq in E.
Qed.

(** * Proofs: the launchers *)

Section launchers.
Context (path : bytes) (exe_path : bytes) (creatable : bytes -> bool).

(** Android package names have no dash, so that their file names differ. *)
Definition clean_ok (p : bytes) : Prop := dash ∉ p.

Lemma clean_inj p q : clean_ok p -> clean_ok q -> clean_package_name p = clean_package_name q -> p = q.
Proof.
  unfold clean_ok, clean_package_name. revert q; induction p as [|b p IH]; intros [|c q] Hp Hq Heq;
    simplify_eq/=; [done|]. apply not_elem_of_cons in Hp as [Hb Hp], Hq as [Hc Hq].
  f_equal; [|by apply IH].
  destruct (Byte.eqb b dot) eqn:E1, (Byte.eqb c dot) eqn:E2; simplify_eq; try done.
  apply Byte.byte_dec_bl in E1, E2. congruence.
Qed.

Lemma app_suffix_inj (a b s : bytes) : a ++ s = b ++ s -> a = b.
Proof. apply app_inv_tail. Qed.

Lemma item_paths_differ a b : path_for_item a <> path_for_item_icon b.
Proof.
  unfold path_for_item, path_for_item_icon. intros Heq%app_inv_head.
  apply (f_equal reverse) in Heq. rewrite !reverse_app in Heq. discriminate.
Qed.

Lemma path_for_item_inj a b : path_for_item a = path_for_item b -> a = b.
Proof. unfold path_for_item. by intros ?%app_inv_head%app_inv_tail. Qed.
Lemma path_for_item_icon_inj a b : path_for_item_icon a = path_for_item_icon b -> a = b.
Proof. unfold path_for_item_icon. by intros ?%app_inv_head%app_inv_tail. Qed.

Lemma item_prefix a : starts_with (path_for_item a) anbox_prefix = true.
Proof. apply starts_with_app. Qed.
Lemma icon_prefix a : starts_with (path_for_item_icon a) anbox_prefix = true.
Proof. apply starts_with_app. Qed.

(** The specification: the applications with their icons, by package. *)
Abbreviation apps := (gmap bytes item).

(** What should be in the directory for [m]. *)
Definition launcher_file (m : apps) (n content : bytes) : Prop :=
  exists p i, m !! p = Some i /\
    ((n = path_for_item (clean_package_name p) /\ content = desktop_item path exe_path i) \/
     (n = path_for_item_icon (clean_package_name p) /\ content = icon i)).

(** The directory and the database agree with [m]: exactly its launchers carry
    the anbox prefix (once the stale ones are gone), and the files of
    others, [files0], are left alone. *)
Record consistent (files0 : gmap bytes bytes) (m : apps) (db : database) : Prop := {
  cons_items : items_ db = clear_icon <$> m;
  cons_keys p i : m !! p = Some i -> item_package i = p /\ clean_ok p;
  cons_files n c : starts_with n anbox_prefix = true -> done_reset db = true ->
    (default ∅ (storage_ db) !! n = Some c <-> launcher_file m n c);
  cons_others n : starts_with n anbox_prefix = false ->
    default ∅ (storage_ db) !! n = files0 !! n;
  cons_reset : done_reset db = false -> m = ∅
}.

Definition fresh (files0 : directory) : database := Database files0 ∅ false.

Lemma consistent_fresh files0 : consistent (default ∅ files0) ∅ (fresh files0).
Proof. by split. Qed.

Lemma launcher_file_insert m p i n c :
  (forall q j, m !! q = Some j -> clean_ok q) -> clean_ok p ->
  launcher_file (<[p := i]> m) n c <->
    (n = path_for_item_icon (clean_package_name p) /\ c = icon i) \/
    (n <> path_for_item_icon (clean_package_name p) /\
     ((n = path_for_item (clean_package_name p) /\ c = desktop_item path exe_path i) \/
      (n <> path_for_item (clean_package_name p) /\ launcher_file m n c))).
Proof.
  intros Hm Hp. unfold launcher_file. split.
  - intros (q & j & Hq & Hn). apply lookup_insert_Some in Hq as [[<- <-]|[Hne Hq]].
    + destruct Hn as [[-> ->]|[-> ->]]; [|by left]. right.
      split; [apply item_paths_differ|by left].
    + assert (clean_package_name p <> clean_package_name q).
      { intros ?%clean_inj; [done|done|by eapply Hm]. }
      right. destruct Hn as [[-> ->]|[-> ->]].
      * split; [apply item_paths_differ|]. right. split; [by intros ?%path_for_item_inj|].
        exists q, j. eauto.
      * split; [by intros ?%path_for_item_icon_inj|]. right.
        split; [by intros ?%eq_sym%item_paths_differ|]. exists q, j. eauto.
  - intros [[-> ->]|[Hi [[-> ->]|[Hn (q & j & Hq & Hd)]]]].
    1-2: exists p, i; rewrite lookup_insert_eq; eauto.
    exists q, j. rewrite lookup_insert_ne; [eauto|]. intros <-. by destruct Hd as [[? _]|[? _]].
Qed.

Lemma launcher_file_delete m p n c :
  (forall q j, m !! q = Some j -> clean_ok q) -> clean_ok p ->
  launcher_file (delete p m) n c <->
    n <> path_for_item_icon (clean_package_name p) /\ n <> path_for_item (clean_package_name p) /\
    launcher_file m n c.
Proof.
  intros Hm Hp. unfold launcher_file. split.
  - intros (q & j & [Hne Hq]%lookup_delete_Some & Hd).
    assert (clean_package_name p <> clean_package_name q).
    { intros ?%clean_inj; [done|done|by eapply Hm]. }
    split; [|split; [|by exists q, j]]; destruct Hd as [[-> ->]|[-> ->]]; intros Heq.
    + by apply item_paths_differ in Heq.
    + by apply path_for_item_icon_inj in Heq.
    + by apply path_for_item_inj in Heq.
    + by apply eq_sym, item_paths_differ in Heq.
  - intros (H1 & H2 & q & j & Hq & Hd). exists q, j. rewrite lookup_delete_ne; [eauto|].
    intros <-. by destruct Hd as [[? _]|[? _]].
Qed.

(** [store_or_update] when every file can be created. *)
Definition stored (i : item) (db : database) : database :=
  let d := if done_reset db then storage_ db else reset (storage_ db) in
  let p := clean_package_name (item_package i) in
  Database (Some (<[path_for_item_icon p := icon i]>
      (<[path_for_item p := desktop_item path exe_path i]> (default ∅ d))))
    (<[item_package i := clear_icon i]> (items_ db)) true.

Lemma store_or_update_ok i db :
  (forall n, creatable n = true) ->
  store_or_update path exe_path creatable i db = (stored i db, Ret tt).
Proof.
  intros Hc. unfold store_or_update. erewrite M_bind_ret by done.
  set (db1 := Database (if done_reset db then storage_ db else reset (storage_ db)) (items_ db) true).
  rewrite (M_bind_ret _ _ db db1 tt).
  2: { unfold db1. destruct db as [st it []]; done. }
  set (p := clean_package_name (item_package i)).
  rewrite (M_bind_ret _ _ db1 (Database (Some (<[path_for_item_icon p := icon i]>
      (<[path_for_item p := desktop_item path exe_path i]> (default ∅ (storage_ db1)))))
      (items_ db) true) tt).
  - done.
  - unfold on_storage, add_or_update. cbv zeta. erewrite M_bind_ret by done. fold p.
    unfold write_file. rewrite !Hc. done.
Qed.

Lemma reset_lookup d n :
  default ∅ (reset d) !! n = if starts_with n anbox_prefix then None else default ∅ d !! n.
Proof.
  destruct d as [m|]; simpl; [|rewrite lookup_empty; by case_match].
  destruct (starts_with n anbox_prefix) eqn:Es.
  - apply map_lookup_filter_None. right. simpl. intros ? _. congruence.
  - destruct (m !! n) as [c|] eqn:E.
    + by apply map_lookup_filter_Some.
    + apply map_lookup_filter_None. by left.
Qed.

Lemma consistent_stored files0 m db i :
  consistent files0 m db -> clean_ok (item_package i) ->
  consistent files0 (<[item_package i := i]> m) (stored i db).
Proof.
  intros [Hi Hk Hf Ho Hr] Hp. split.
  - simpl. by rewrite Hi, fmap_insert.
  - intros p j. rewrite lookup_insert_Some. intros [[<- <-]|[_ Hj]]; [done|by apply Hk].
  - intros n c Hn _. simpl. rewrite launcher_file_insert by (done || (intros ? ? ?%Hk; tauto)).
    rewrite !lookup_insert_Some.
    assert (Hd : default ∅ (if done_reset db then storage_ db else reset (storage_ db)) !! n = Some c <->
      launcher_file m n c).
    { destruct (done_reset db) eqn:E; [by apply Hf|]. rewrite reset_lookup, Hn.
      split; [done|]. rewrite Hr by done. intros (? & ? & Hl & _). by rewrite lookup_empty in Hl. }
    rewrite Hd. naive_solver.
  - intros n Hn. simpl.
    rewrite !lookup_insert_ne by (intros <-; by rewrite ?item_prefix, ?icon_prefix in Hn).
    rewrite <- Ho by done. destruct (done_reset db); [done|]. by rewrite reset_lookup, Hn.
  - done.
Qed.

Lemma consistent_removed files0 m db i :
  consistent files0 m db -> clean_ok (item_package i) ->
  exists db', remove i db = (db', Ret tt) /\ consistent files0 (delete (item_package i) m) db'.
Proof.
  intros [Hi Hk Hf Ho Hr] Hp. unfold remove. erewrite M_bind_ret by done.
  destruct (items_ db !! item_package i) as [j|] eqn:E.
  2: { exists db. split; [done|]. rewrite delete_id; [by split|].
       rewrite Hi, lookup_fmap, fmap_None in E. done. }
  eexists. split; [done|]. split; simpl.
  - by rewrite Hi, fmap_delete.
  - intros p k [_ Hj]%lookup_delete_Some. by apply Hk.
  - intros n c Hn Hd. rewrite launcher_file_delete by (done || (intros ? ? ?%Hk; tauto)).
    rewrite <- (Hf n c Hn Hd). destruct (storage_ db) as [d|]; simpl; [|rewrite lookup_empty; naive_solver].
    rewrite !lookup_delete_Some. naive_solver.
  - intros n Hn. rewrite <- Ho by done. destruct (storage_ db) as [d|]; [|done]. simpl.
    by rewrite !lookup_delete_ne by (intros <-; by rewrite ?item_prefix, ?icon_prefix in Hn).
  - intros Hd. rewrite Hr by done. apply delete_empty.
Qed.

(** The specification of an event: removals first, then additions; entries
    without a package are ignored. *)
Definition spec_remove (m : apps) (a : application) : apps :=
  if is_empty (a_package a) then m else delete (a_package a) m.
Definition spec_add (m : apps) (a : application) : apps :=
  if is_empty (a_package a) then m else <[a_package a := added_item a]> m.
Definition spec_event (m : apps) (e : list application * list application) : apps :=
  fold_left spec_add e.2 (fold_left spec_remove e.1 m).

Definition event_ok (e : list application * list application) : Prop :=
  Forall (fun a => clean_ok (a_package a)) (e.1 ++ e.2).

Lemma consistent_removals files0 removed m db :
  consistent files0 m db -> Forall (fun a => clean_ok (a_package a)) removed ->
  exists db', for_each (fun a => if is_empty (a_package a) then mret tt else remove (removed_item a))
      removed db = (db', Ret tt) /\ consistent files0 (fold_left spec_remove removed m) db'.
Proof.
  intros Hc Hok. revert m db Hc; induction Hok as [|a l Ha Hl IH]; intros m db Hc; simpl; [eauto|].
  unfold spec_remove at 2. destruct (is_empty (a_package a)).
  { erewrite M_bind_ret by done. by apply IH. }
  destruct (consistent_removed files0 m db (removed_item a) Hc Ha) as (db' & Hr & Hc').
  rewrite (M_bind_ret _ _ _ _ _ Hr). by apply IH.
Qed.

Lemma consistent_additions files0 added m db :
  (forall n, creatable n = true) ->
  consistent files0 m db -> Forall (fun a => clean_ok (a_package a)) added ->
  exists db', for_each (fun a => if is_empty (a_package a) then mret tt
        else store_or_update path exe_path creatable (added_item a)) added db = (db', Ret tt) /\
    consistent files0 (fold_left spec_add added m) db'.
Proof.
  intros Hcr Hc Hok. revert m db Hc; induction Hok as [|a l Ha Hl IH]; intros m db Hc; simpl; [eauto|].
  unfold spec_add at 2. destruct (is_empty (a_package a)).
  { erewrite M_bind_ret by done. by apply IH. }
  rewrite (M_bind_ret _ _ _ _ _ (store_or_update_ok (added_item a) db Hcr)).
  apply IH. by apply (consistent_stored files0 m db (added_item a)).
Qed.

Lemma consistent_event files0 m db e :
  (forall n, creatable n = true) -> consistent files0 m db -> event_ok e ->
  exists db', handle_application_list_update_event path exe_path creatable e.1 e.2 db = (db', Ret tt) /\
    consistent files0 (spec_event m e) db'.
Proof.
  intros Hcr Hc [Hok1 Hok2]%Forall_app. unfold handle_application_list_update_event.
  destruct (consistent_removals files0 e.1 m db Hc Hok1) as (db1 & H1 & Hc1).
  rewrite (M_bind_ret _ _ _ _ _ H1). by apply consistent_additions.
Qed.

(** C39: The application list updates of the container and the launchers on the
    host agree.  From any launcher directory, after any sequence of updates
    whose packages are Android package names (no dash), with all launcher
    files creatable: every update succeeds, the database answers each
    package with its last update (without the icon), the files with the
    anbox prefix are exactly the launchers and icons of the applications
    present (stale ones of an earlier run are gone after the first
    addition), and no other file of the directory changes. *)
Theorem launchers_consistent (files0 : directory) (es : list (list application * list application)) :
  (forall n, creatable n = true) -> Forall event_ok es ->
  exists db, for_each (fun e => handle_application_list_update_event path exe_path creatable e.1 e.2) es
      (fresh files0) = (db, Ret tt) /\
    let m := fold_left spec_event es ∅ in
    consistent (default ∅ files0) m db /\
    forall p, find_by_package db p = match m !! p with Some i => clear_icon i | None => Unknown end.
Proof.
  intros Hcr Hok.
  assert (Hgen : forall m db, consistent (default ∅ files0) m db -> exists db',
    for_each (fun e => handle_application_list_update_event path exe_path creatable e.1 e.2) es db =
      (db', Ret tt) /\ consistent (default ∅ files0) (fold_left spec_event es m) db').
  { induction Hok as [|e es He Hes IH]; intros m db Hc; simpl; [eauto|].
    destruct (consistent_event _ _ _ _ Hcr Hc He) as (db1 & H1 & Hc1).
    rewrite (M_bind_ret _ _ _ _ _ H1). by apply IH. }
  destruct (Hgen ∅ _ (consistent_fresh files0)) as (db & Hd & Hc). exists db.
  split; [done|]. split; [done|]. intros p. unfold find_by_package. destruct Hc as [-> _ _ _ _].
  rewrite lookup_fmap. by destruct (_ !! p).
Qed.
End launchers.

Definition example_app : application :=
  Application (str "App") (str "org.app") (Intent [] (str "u") (str "t") (str "org.app") [] []) [x01].
Lemma launchers_consistent_witness :
  exists db, for_each (fun e => handle_application_list_update_event [] (str "anbox")
      (fun _ => true) e.1 e.2) [([], [example_app])] (fresh (Some {[ str "anbox-old.png" := [] ]}))
    = (db, Ret tt) /\
    find_by_package db (str "org.app") = clear_icon (added_item example_app).
Proof.
  destruct (launchers_consistent [] (str "anbox") (fun _ => true)
    (Some {[ str "anbox-old.png" := [] ]}) [([], [example_app])]) as (db & Hd & _ & Hf); [done| |].
  - repeat constructor. unfold clean_ok. vm_compute. intros Hin.
    repeat (apply elem_of_cons in Hin as [Hin|Hin]; [discriminate|]). by apply elem_of_nil in Hin.
  - exists db. split; [exact Hd|]. rewrite Hf. reflexivity.
Defined.

(** The type of an application's launch intent is lost: the uri is stored. *)
Lemma added_item_type a : type (launch_intent (added_item a)) = uri (a_intent a).
Proof. done. Qed.
