(* ===== verification/Wm.v ===== *)
(** Window management (src wm/): [Window], [MultiWindowManager],
    [SingleWindowManager]; the events of the container that drive it
    (bridge/platform_message_processor.cpp, the window part of
    bridge/platform_api_skeleton.cpp). *)

From S2P Require Import Prelude Geometry Bridge.

Local Open Scope nat_scope.

(** * Window states *)

(** [wm::WindowState] *)
Record window_state := WindowState {
  display : Z;
  has_surface : bool;
  frame : rect;
  package_name : bytes;
  task : Z;
  ws_stack : Z
}.

(** protobuf::bridge::WindowStateUpdateEvent.WindowState *)
Record window_message := WindowMessage {
  display_id : Z;
  m_has_surface : bool;
  m_package_name : bytes;
  frame_left : Z;
  frame_top : Z;
  frame_right : Z;
  frame_bottom : Z;
  task_id : Z;
  stack_id : Z
}.

Definition convert_window_state (m : window_message) : window_state :=
  WindowState (display_id m) (m_has_surface m)
    (Rect (frame_left m) (frame_top m) (frame_right m) (frame_bottom m))
    (m_package_name m) (task_id m) (stack_id m).

(** * Window *)

Record window := Window {
  w_task : Z;
  w_frame : rect;
  w_title : bytes;
  attached_ : bool
}.

Definition update_frame (w : window) (f : rect) : window :=
  if rect_eqb f (w_frame w) then w else Window (w_task w) f (w_title w) (attached_ w).

#[global] Instance window_state_eq_dec : EqDecision window_state.
Proof. solve_decision. Defined.

(** What the managers do to the platform, the renderer and the container. *)
Inductive wm_effect :=
  | CreateWindow (t : Z) (f : rect) (title : bytes)
  | CreateNative (t : Z)          (* renderer_->createNativeWindow succeeded *)
  | DestroyNative (t : Z)
  | UpdateState (t : Z) (states : list window_state)
  | RemoveTaskCall (t : Z)        (* android_api_stub_->remove_task *)
  | ResizeTaskCall (t : Z) (r : rect) (mode : Z)
  | SetFocusedTaskCall (t : Z)
  | Terminate.                    (* kill(getpid(), SIGTERM) *)

#[global] Instance wm_effect_eq_dec : EqDecision wm_effect.
Proof. solve_decision. Defined.

(** * MultiWindowManager *)

Record wm := Wm {
  windows_ : gmap Z window;
  wm_log : list wm_effect
}.
Definition wm_init : wm := Wm ∅ [].

Definition wm_emit (e : wm_effect) : M wm unit := modify (fun s => Wm (windows_ s) (wm_log s ++ [e])).
Definition set_windows (f : gmap Z window -> gmap Z window) : M wm unit :=
  modify (fun s => Wm (f (windows_ s)) (wm_log s)).

(** The surroundings: whether the platform is alive and creates a window for a
    task, whether the renderer creates its native window, the outcome of the
    remote calls, and the application database. *)
Record env := Env {
  platform_alive : bool;
  creates : Z -> bool;
  attaches : Z -> bool;
  call_outcome : Z -> outcome unit;
  app_db : database
}.

Section manager.
Context (e : env).

Definition attach (w : window) : M wm window :=
  if attaches e (w_task w)
  then _ ← wm_emit (CreateNative (w_task w)); mret (Window (w_task w) (w_frame w) (w_title w) true)
  else mret (Window (w_task w) (w_frame w) (w_title w) false).

Definition release (w : window) : M wm window :=
  if attached_ w
  then _ ← wm_emit (DestroyNative (w_task w)); mret (Window (w_task w) (w_frame w) (w_title w) false)
  else mret w.

Definition remove_task (t : Z) : M wm unit := _ ← wm_emit (RemoveTaskCall t); lift (call_outcome e t).
Definition resize_task (t : Z) (r : rect) (mode : Z) : M wm unit :=
  _ ← wm_emit (ResizeTaskCall t r mode); lift (call_outcome e t).
Definition set_focused_task (t : Z) : M wm unit :=
  _ ← wm_emit (SetFocusedTaskCall t); lift (call_outcome e t).

Definition title_for (w : window_state) : bytes :=
  let app := find_by_package (app_db e) (package_name w) in
  if item_valid app then name app else package_name w.

(** Windows of the freeform stack with a mapped surface. *)
Definition eligible (w : window_state) : bool := (ws_stack w =? Stack_Freeform)%Z && has_surface w.

Abbreviation updates := (gmap Z (list window_state)).

(** The body of the loop over [updated]. *)
Definition process_updated (w : window_state) (task_updates : updates) : M wm updates :=
  if negb (eligible w) then mret task_updates
  else
    s ← get;
    match windows_ s !! task w with
    | Some _ =>
        mret (match task_updates !! task w with
              | None => <[task w := [w]]> task_updates
              | Some l => <[task w := l ++ [w]]> task_updates
              end)
    | None =>
        if platform_alive e then
          _ ← wm_emit (CreateWindow (task w) (frame w) (title_for w));
          if creates e (task w) then
            w' ← attach (Window (task w) (frame w) (title_for w) false);
            _ ← set_windows (<[task w := w']>);
            mret task_updates
          else _ ← remove_task (task w); mret task_updates
        else mret task_updates
    end.

Fixpoint process_all_updated (ws : list window_state) (tu : updates) : M wm updates :=
  match ws with
  | [] => mret tu
  | w :: ws' => tu' ← process_updated w tu; process_all_updated ws' tu'
  end.

Definition send_update (u : Z * list window_state) : M wm unit :=
  s ← get;
  match windows_ s !! u.1 with
  | Some _ => wm_emit (UpdateState u.1 u.2)
  | None => mret tt
  end.

Definition process_removed (tu : updates) (w : window_state) : M wm unit :=
  s ← get;
  match windows_ s !! task w with
  | None => mret tt
  | Some pw =>
      match tu !! task w with
      | None => _ ← release pw; set_windows (delete (task w))
      | Some _ => mret tt
      end
  end.

Definition apply_window_state_update (updated removed : list window_state) : M wm unit :=
  tu ← process_all_updated updated ∅;
  _ ← for_each send_update (by_key tu);
  for_each (process_removed tu) removed.

Definition find_window_for_task (t : Z) (s : wm) : option window :=
  snd <$> head (filter (fun kw : Z * window => w_task kw.2 = t) (by_key (windows_ s))).

(** [PlatformApiSkeleton::handle_window_state_update_event] *)
Definition handle_window_state_update_event (windows removed : list window_message) : M wm unit :=
  apply_window_state_update (convert_window_state <$> windows) (convert_window_state <$> removed).
End manager.

(** * SingleWindowManager *)

Record single_wm := SingleWm {
  window_size_ : rect;
  window_ : option window;
  single_log : list wm_effect
}.

(** [created] and [attached]: what [create_window] and [attach] answer; a null
    window is dereferenced. *)
Definition setup (alive created attached : bool) : M single_wm unit :=
  if alive then
    s ← get;
    let w := Window 0 (window_size_ s) (str "Anbox Reboxed") attached in
    _ ← modify (fun s => SingleWm (window_size_ s) (if created then Some w else None)
          (single_log s ++ [CreateWindow 0 (window_size_ s) (str "Anbox Reboxed")]));
    if created then
      modify (fun s => SingleWm (window_size_ s) (window_ s)
        (single_log s ++ (if attached then [CreateNative 0] else [])))
    else lift Undef
  else throw RuntimeError.

Definition single_find_window_for_task (t : Z) (s : single_wm) : option window := window_ s.
Definition single_remove_task (t : Z) : M single_wm unit :=
  if (t =? 0)%Z
  then modify (fun s => SingleWm (window_size_ s) (window_ s) (single_log s ++ [Terminate]))
  else mret tt.

(** * PlatformMessageProcessor *)

(** A parsed EventSequence: the parts that are set. *)
Record event_sequence := EventSequence {
  boot_finished : bool;
  window_state_update : option (list window_message * list window_message);
  application_list_update : option (list application * list application)
}.

(** The host's state behind the skeleton: window manager, application database,
    clipboard, and how often the boot handler ran. *)
Record platform := Platform {
  p_wm : wm;
  p_db : database;
  clipboard : bytes;
  boot_handled : nat
}.

Section processor.
Context (path exe_path : bytes) (creatable : bytes -> bool).
Context (alive : bool) (wm_creates wm_attaches : Z -> bool) (calls_outcome : Z -> outcome unit).
Context (boot_handler : bool).

Definition on_wm {A} (c : env -> M wm A) : M platform A := fun p =>
  let (w, o) := c (Env alive wm_creates wm_attaches calls_outcome (p_db p)) (p_wm p) in
  (Platform w (p_db p) (clipboard p) (boot_handled p), o).
Definition on_db {A} (c : M database A) : M platform A := fun p =>
  let (d, o) := c (p_db p) in (Platform (p_wm p) d (clipboard p) (boot_handled p), o).

Definition handle_boot_finished_event : M platform unit :=
  if boot_handler
  then modify (fun p => Platform (p_wm p) (p_db p) (clipboard p) (S (boot_handled p)))
  else mret tt.

(** [process_event_sequence] on what the parser made of the raw events. *)
Definition process_event_sequence (seq : option event_sequence) : M platform unit :=
  match seq with
  | None => mret tt
  | Some seq =>
      _ ← (if boot_finished seq then handle_boot_finished_event else mret tt);
      _ ← (match window_state_update seq with
           | Some (ws, removed) => on_wm (fun e => handle_window_state_update_event e ws removed)
           | None => mret tt
           end);
      match application_list_update seq with
      | Some (removed, added) =>
          on_db (handle_application_list_update_event path exe_path creatable removed added)
      | None => mret tt
      end
  end.

(** The two methods of [dispatch]: [request] is the parsed ClipboardData's text,
    and the result the response's text ([done->Run()] sends it). *)
Definition set_clipboard_data (request : option bytes) : M platform unit :=
  match request with
  | Some text => modify (fun p => Platform (p_wm p) (p_db p) text (boot_handled p))
  | None => mret tt
  end.
Definition get_clipboard_data : M platform (option bytes) :=
  p ← get; mret (if is_empty (clipboard p) then None else Some (clipboard p)).

(** [dispatch]: [None] when the method is unknown and nothing is answered;
    otherwise the text of the response.  [parsed] is the outcome of parsing the
    parameters: [None] throws. *)
Definition dispatch (method : bytes) (parsed : option (option bytes)) : M platform (option (option bytes)) :=
  if bytes_eqb method (str "set_clipboard_data") then
    match parsed with
    | Some request => _ ← set_clipboard_data request; mret (Some None)
    | None => throw RuntimeError
    end
  else if bytes_eqb method (str "get_clipboard_data") then
    match parsed with
    | Some _ => r ← get_clipboard_data; mret (Some r)
    | None => throw RuntimeError
    end
  else mret None.
End processor.

(** * Proofs *)

(** The task an effect is about, and what was done for task [t], in order. *)
Definition about (x : wm_effect) : option Z :=
  match x with
  | CreateWindow t _ _ | CreateNative t | DestroyNative t | UpdateState t _ | RemoveTaskCall t
  | ResizeTaskCall t _ _ | SetFocusedTaskCall t => Some t
  | Terminate => None
  end.
Definition effects_of (t : Z) (l : list wm_effect) : list wm_effect := filter (fun x => about x = Some t) l.
(** Its native windows. *)
Definition created (t : Z) (l : list wm_effect) : nat :=
  length (filter (fun x => x = CreateNative t) l).
Definition destroyed (t : Z) (l : list wm_effect) : nat :=
  length (filter (fun x => x = DestroyNative t) l).

Section proofs.
Context (e : env) (Hcalls : forall t, call_outcome e t = Ret tt).

Definition creatable_window (t : Z) : bool := platform_alive e && creates e t.

(** The eligible updates of a task, in order. *)
Definition of_task (t : Z) (ws : list window_state) : list window_state :=
  filter (fun w => eligible w = true /\ task w = t) ws.

(** The window that the first update of an unknown task creates. *)
Definition new_window (w : window_state) : window :=
  Window (task w) (frame w) (title_for e w) (attaches e (task w)).

(** The updates that reach an existing window: all of them when the task was
    known, all but the first, which creates the window, otherwise. *)
Definition reported (known : bool) (t : Z) (ws : list window_state) : list window_state :=
  if known then of_task t ws else if creatable_window t then tail (of_task t ws) else [].

Definition window_after (old : option window) (t : Z) (ws : list window_state) : option window :=
  match old with
  | Some w => Some w
  | None => match of_task t ws with
            | w :: _ => if creatable_window t then Some (new_window w) else None
            | [] => None
            end
  end.

(** What is asked for a task without a window: the window of its first eligible
    update and its native window; or, where the platform refuses, one attempt
    for every eligible update, each followed by the task's removal. *)
Definition creations (old : option window) (t : Z) (ws : list window_state) : list wm_effect :=
  match old with
  | Some _ => []
  | None =>
      if negb (platform_alive e) then []
      else if creates e t then
        match of_task t ws with
        | w :: _ => CreateWindow t (frame w) (title_for e w) :: (if attaches e t then [CreateNative t] else [])
        | [] => []
        end
      else concat ((fun w => [CreateWindow t (frame w) (title_for e w); RemoveTaskCall t]) <$> of_task t ws)
  end.
(** What a window that is taken away gives back. *)
Definition released (w : option window) (t : Z) : list wm_effect :=
  match w with Some w => if attached_ w then [DestroyNative t] else [] | None => [] end.
(** Every window is filed under its own task. *)
Definition filed (s : wm) : Prop := forall t w, windows_ s !! t = Some w -> w_task w = t.

Lemma effects_of_app t a b : effects_of t (a ++ b) = effects_of t a ++ effects_of t b.
Proof. apply filter_app. Qed.
Lemma effects_of_other t l : Forall (fun x => about x <> Some t) l -> effects_of t l = [].
Proof. induction 1 as [|x l Hx _ IH]; [done|]. unfold effects_of. by rewrite filter_cons_False. Qed.
Lemma effects_of_all t l : Forall (fun x => about x = Some t) l -> effects_of t l = l.
Proof.
  induction 1 as [|x l Hx _ IH]; [done|]. unfold effects_of in *. by rewrite filter_cons_True, IH.
Qed.

Lemma of_task_cons t w ws :
  of_task t (w :: ws) =
    if eligible w && bool_decide (task w = t) then w :: of_task t ws else of_task t ws.
Proof.
  unfold of_task. rewrite filter_cons.
  destruct (eligible w) eqn:E, (decide (task w = t)); simpl;
    rewrite ?bool_decide_eq_true_2, ?bool_decide_eq_false_2 by done; simpl;
    by rewrite ?decide_True, ?decide_False by naive_solver.
Qed.

Definition known (old : option window) : bool := match old with Some _ => true | None => false end.

Lemma window_after_cons old t w ws :
  window_after old t (w :: ws) = window_after (window_after old t [w]) t ws.
Proof.
  unfold window_after. destruct old; [done|]. rewrite !of_task_cons. change (of_task t []) with (@nil window_state).
  destruct (eligible w && bool_decide (task w = t)); [|done].
  destruct (creatable_window t) eqn:E; [done|]. by destruct (of_task t ws).
Qed.

Lemma creations_cons old t w ws :
  creations old t (w :: ws) = creations old t [w] ++ creations (window_after old t [w]) t ws.
Proof.
  unfold creations, window_after, creatable_window. rewrite !of_task_cons. change (of_task t []) with (@nil window_state).
  destruct old; [done|].
  destruct (eligible w && bool_decide (task w = t)), (platform_alive e), (creates e t); simpl; by rewrite ?app_nil_r.
Qed.

Lemma reported_cons old t w ws :
  reported (known old) t (w :: ws) =
    reported (known old) t [w] ++ reported (known (window_after old t [w])) t ws.
Proof.
  unfold reported, window_after. rewrite !of_task_cons. change (of_task t []) with (@nil window_state).
  destruct (eligible w && bool_decide (task w = t)), old; simpl; try done;
    destruct (creatable_window t); simpl; done.
Qed.

(** The collected updates of a task, if there are any. *)
Definition as_update (l : list window_state) : option (list window_state) :=
  match l with [] => None | _ => Some l end.

(** A run of the update loop, task by task: the windows and what is collected
    for the known ones; nothing is delivered yet. *)
Definition loop_spec (ws : list window_state) (s s' : wm) (tu tu' : gmap Z (list window_state)) : Prop :=
  (forall t, effects_of t (wm_log s') = effects_of t (wm_log s) ++ creations (windows_ s !! t) t ws) /\
  (forall t, windows_ s' !! t = window_after (windows_ s !! t) t ws) /\
  (forall t c, tu !! t = as_update c ->
     tu' !! t = as_update (c ++ reported (known (windows_ s !! t)) t ws)).

Lemma of_task_self w : eligible w = true -> of_task (task w) [w] = [w].
Proof. intros E. by rewrite of_task_cons, E, bool_decide_eq_true_2. Qed.
Lemma of_task_other w t : eligible w = false \/ task w <> t -> of_task t [w] = [].
Proof.
  intros H. rewrite of_task_cons. destruct H as [->|H]; [done|].
  by rewrite bool_decide_eq_false_2, andb_false_r.
Qed.

(** A task the update is not about. *)
Lemma other_window old w t : of_task t [w] = [] -> window_after old t [w] = old.
Proof. unfold window_after. intros ->. by destruct old. Qed.
Lemma other_reported b w t : of_task t [w] = [] -> reported b t [w] = [].
Proof. unfold reported. intros ->. by destruct b, (creatable_window t). Qed.
Lemma other_creations old w t : of_task t [w] = [] -> creations old t [w] = [].
Proof. unfold creations. intros ->. by destruct old, (platform_alive e), (creates e t). Qed.

(** A step that concerns only the task of [w]. *)
Lemma loop_spec_one w s s' tu tu' :
  (exists l, wm_log s' = wm_log s ++ l /\ Forall (fun x => about x = Some (task w)) l /\
     l = if eligible w then creations (windows_ s !! task w) (task w) [w] else []) ->
  (forall t, of_task t [w] = [] -> windows_ s' !! t = windows_ s !! t /\ tu' !! t = tu !! t) ->
  (eligible w = true -> windows_ s' !! task w = window_after (windows_ s !! task w) (task w) [w] /\
    forall c, tu !! task w = as_update c ->
      tu' !! task w = as_update (c ++ reported (known (windows_ s !! task w)) (task w) [w])) ->
  loop_spec [w] s s' tu tu'.
Proof.
  intros (l & Hl & Hall & Hcr) Ho Hw. split; [|split].
  - intros t. rewrite Hl, effects_of_app. f_equal.
    destruct (decide (eligible w = true /\ task w = t)) as [[He <-]|Hne].
    { rewrite effects_of_all by done. by rewrite Hcr, He. }
    assert (Hn : of_task t [w] = []).
    { apply of_task_other. destruct (eligible w); [right|by left]. intros ?. by apply Hne. }
    rewrite other_creations by done. destruct (eligible w); [|by rewrite Hcr]. apply effects_of_other.
    eapply Forall_impl; [exact Hall|]. cbn. intros x -> [= Hx]. by apply Hne.
  - intros t. destruct (decide (eligible w = true /\ task w = t)) as [[He <-]|Hne]; [by apply Hw|].
    assert (Hn : of_task t [w] = []).
    { apply of_task_other. destruct (eligible w); [right|by left]. intros ?. by apply Hne. }
    rewrite other_window by done. by apply Ho.
  - intros t c Hc. destruct (decide (eligible w = true /\ task w = t)) as [[He <-]|Hne]; [by apply Hw|].
    assert (Hn : of_task t [w] = []).
    { apply of_task_other. destruct (eligible w); [right|by left]. intros ?. by apply Hne. }
    rewrite other_reported, app_nil_r by done. rewrite <- Hc. by apply Ho.
Qed.

Lemma process_updated_spec w tu s :
  exists s' tu', process_updated e w tu s = (s', Ret tu') /\ loop_spec [w] s s' tu tu'.
Proof.
  unfold process_updated. destruct (eligible w) eqn:Ew; cbn [negb].
  2: { exists s, tu. split; [done|]. apply loop_spec_one; rewrite ?Ew; [|done|done].
       exists []. by rewrite app_nil_r. }
  erewrite M_bind_ret by done.
  assert (Hself : forall t, of_task t [w] = [] -> task w <> t).
  { intros t Hn <-. by rewrite of_task_self in Hn. }
  destruct (windows_ s !! task w) as [w0|] eqn:E0.
  - eexists s, _. split; [done|]. apply loop_spec_one.
    + exists []. by rewrite app_nil_r, Ew, E0.
    + intros t Ht%Hself. split; [done|]. by case_match; rewrite lookup_insert_ne.
    + intros _. rewrite E0. split; [done|]. intros c Hc. simpl known. unfold reported.
      rewrite of_task_self, Hc by done. destruct c as [|x c]; simpl; by rewrite lookup_insert_eq.
  - assert (Hcr : creations None (task w) [w] =
      if negb (platform_alive e) then []
      else CreateWindow (task w) (frame w) (title_for e w) ::
        (if creates e (task w) then if attaches e (task w) then [CreateNative (task w)] else []
         else [RemoveTaskCall (task w)])).
    { unfold creations. rewrite of_task_self by done. by destruct (platform_alive e), (creates e (task w)). }
    destruct (platform_alive e) eqn:Ea.
    2: { exists s, tu. split; [done|]. apply loop_spec_one; [|done|].
         - exists []. by rewrite app_nil_r, Ew, E0, Hcr.
         - intros _. rewrite E0. unfold window_after, reported, creatable_window. rewrite of_task_self, Ea by done.
           split; [done|]. intros c. simpl. by rewrite app_nil_r. }
    erewrite M_bind_ret by done. destruct (creates e (task w)) eqn:Ec.
    + set (s1 := (wm_emit (CreateWindow (task w) (frame w) (title_for e w)) s).1).
      set (s2 := if attaches e (task w) then (wm_emit (CreateNative (task w)) s1).1 else s1).
      rewrite (M_bind_ret _ _ s1 s2 (new_window w)).
      2: { unfold attach, s2, new_window. cbn [w_task w_frame w_title]. by destruct (attaches e (task w)). }
      erewrite M_bind_ret by done. eexists _, tu. split; [done|].
      assert (Hwin : windows_ s2 = windows_ s).
      { unfold s2. by destruct (attaches e (task w)). }
      apply loop_spec_one.
      * eexists. split; [|split; [|rewrite Ew, E0; exact (eq_sym Hcr)]].
        -- cbn. unfold s2, s1. destruct (attaches e (task w)); cbn; by rewrite <- ?app_assoc.
        -- cbn. destruct (attaches e (task w)); by repeat constructor.
      * intros t Ht%Hself. simpl. rewrite lookup_insert_ne, Hwin by done. done.
      * intros _. simpl. rewrite lookup_insert_eq, E0. unfold window_after, reported, creatable_window.
        rewrite of_task_self, Ea, Ec by done. split; [done|]. intros c. by rewrite app_nil_r.
    + rewrite (M_bind_ret _ _ _ (wm_emit (RemoveTaskCall (task w)) (wm_emit
        (CreateWindow (task w) (frame w) (title_for e w)) s).1).1 tt).
      2: { unfold remove_task. erewrite M_bind_ret by done. unfold lift. by rewrite Hcalls. }
      eexists _, tu. split; [done|]. apply loop_spec_one.
      * eexists. split; [|split; [|rewrite Ew, E0; exact (eq_sym Hcr)]]; [cbn; by rewrite <- app_assoc|by repeat constructor].
      * done.
      * intros _. simpl. rewrite E0. unfold window_after, reported, creatable_window.
        rewrite of_task_self, Ea, Ec by done. split; [done|]. intros c. by rewrite app_nil_r.
Qed.

Lemma process_all_updated_spec ws tu s :
  exists s' tu', process_all_updated e ws tu s = (s', Ret tu') /\ loop_spec ws s s' tu tu'.
Proof.
  revert tu s; induction ws as [|w ws IH]; intros tu s; simpl.
  - exists s, tu. split; [done|]. unfold loop_spec, window_after, reported, creations.
    change (of_task ?t []) with (@nil window_state). split; [|split].
    + intros t. simpl. destruct (windows_ s !! t), (platform_alive e), (creates e t); by rewrite app_nil_r.
    + intros t. by destruct (windows_ s !! t).
    + intros t c ->. destruct (windows_ s !! t); simpl; [by rewrite app_nil_r|].
      destruct (creatable_window t); simpl; by rewrite app_nil_r.
  - destruct (process_updated_spec w tu s) as (s1 & tu1 & H1 & Hd1 & Hw1 & Ht1).
    rewrite (M_bind_ret _ _ _ _ _ H1).
    destruct (IH tu1 s1) as (s2 & tu2 & H2 & Hd2 & Hw2 & Ht2).
    exists s2, tu2. split; [done|]. split; [|split].
    + intros t. by rewrite Hd2, Hd1, Hw1, (creations_cons _ _ w ws), app_assoc.
    + intros t. by rewrite Hw2, Hw1, (window_after_cons _ _ w ws).
    + intros t c Hc. rewrite reported_cons, app_assoc, <- Hw1. apply Ht2, Ht1, Hc.
Qed.

(** ** Deliveries *)

Lemma send_updates_spec us s :
  NoDup us.*1 -> (forall k, k ∈ us.*1 -> is_Some (windows_ s !! k)) ->
  exists s', for_each send_update us s = (s', Ret tt) /\ windows_ s' = windows_ s /\
    forall t, effects_of t (wm_log s') = effects_of t (wm_log s) ++
      (UpdateState t <$> match list_find (fun u : Z * list window_state => u.1 = t) us with
       | Some (_, u) => [u.2] | None => [] end).
Proof.
  revert s; induction us as [|[k l] us IH]; intros s Hnd Hin; simpl.
  { exists s. split; [done|]. split; [done|]. intros t. by rewrite app_nil_r. }
  inversion_clear Hnd as [|? ? Hk Hnd']. destruct (Hin k) as [w Hw]; [by left|].
  rewrite (M_bind_ret _ _ s (wm_emit (UpdateState k l) s).1 tt).
  2: { unfold send_update. erewrite M_bind_ret by done. simpl. by rewrite Hw. }
  destruct (IH (wm_emit (UpdateState k l) s).1) as (s' & H1 & H2 & H3); [done| |].
  { intros k' ?. simpl. apply Hin. by right. }
  exists s'. split; [done|]. split; [done|]. intros t. rewrite H3. simpl. rewrite effects_of_app. unfold effects_of at 2.
  destruct (decide (t = k)) as [->|Hne].
  - rewrite filter_cons_True by done. rewrite decide_True by done. rewrite <- app_assoc. simpl.
    destruct (list_find _ us) as [[i [k' l']]|] eqn:E; [|done].
    apply list_find_Some in E as (Hi & ? & _). simpl in *. subst.
    exfalso. apply Hk. apply list_elem_of_lookup_2 in Hi. apply list_elem_of_fmap. by exists (k, l').
  - rewrite filter_cons_False by (cbn; congruence). rewrite decide_False by done. rewrite app_nil_r. f_equal.
    by destruct (list_find _ us) as [[]|].
Qed.

(** The collected updates in the order of iteration deliver each task's once. *)
Lemma find_by_key (m : gmap Z (list window_state)) t :
  (match list_find (fun u : Z * list window_state => u.1 = t) (by_key m) with
   | Some (_, u) => [u.2] | None => [] end) = option_list (m !! t).
Proof.
  destruct (list_find _ (by_key m)) as [[i [k l]]|] eqn:E.
  - apply list_find_Some in E as (Hi & Hk & _). simpl in Hk. subst.
    apply list_elem_of_lookup_2, elem_of_by_key in Hi. by rewrite Hi.
  - apply list_find_None in E. destruct (m !! t) as [l|] eqn:Em; [|done].
    rewrite Forall_forall in E. apply elem_of_by_key in Em. by destruct (E _ Em).
Qed.

Lemma by_key_keys (m : gmap Z (list window_state)) :
  NoDup (by_key m).*1 /\ forall k, k ∈ (by_key m).*1 <-> is_Some (m !! k).
Proof.
  split.
  - rewrite by_key_perm. apply NoDup_fst_map_to_list.
  - intros k. rewrite list_elem_of_fmap. split.
    + intros ([k' l] & -> & Hin). exists l. by apply elem_of_by_key.
    + intros [l Hl]. exists (k, l). split; [done|]. by apply elem_of_by_key.
Qed.

(** ** Removals *)

Lemma process_removed_spec tu removed s :
  filed s ->
  exists s', for_each (process_removed tu) removed s = (s', Ret tt) /\ filed s' /\
    forall t,
      let gone := bool_decide (t ∈ task <$> removed) && negb (bool_decide (is_Some (tu !! t))) in
      windows_ s' !! t = (if gone then None else windows_ s !! t) /\
      effects_of t (wm_log s') = effects_of t (wm_log s) ++ (if gone then released (windows_ s !! t) t else []).
Proof.
  revert s; induction removed as [|w removed IH]; intros s Hf; cbn zeta.
  { exists s. split; [done|]. split; [done|]. intros t. by rewrite app_nil_r. }
  assert (Hstep : exists s1, process_removed tu w s = (s1, Ret tt) /\ filed s1 /\
    forall t, let gone := bool_decide (t = task w) && negb (bool_decide (is_Some (tu !! t))) in
      windows_ s1 !! t = (if gone then None else windows_ s !! t) /\
      effects_of t (wm_log s1) = effects_of t (wm_log s) ++ (if gone then released (windows_ s !! t) t else [])).
  { unfold process_removed. destruct (windows_ s !! task w) as [pw|] eqn:Ew.
    2: { exists s. erewrite M_bind_ret by done. rewrite Ew. split; [done|]. split; [done|]. cbv zeta.
         intros t. case_bool_decide as Heq; [|by rewrite app_nil_r]. subst t. rewrite Ew.
         destruct (bool_decide _); by rewrite app_nil_r. }
    destruct (tu !! task w) as [l|] eqn:Et.
    { exists s. erewrite M_bind_ret by done. rewrite Ew. split; [done|]. split; [done|]. cbv zeta.
      intros t. case_bool_decide as Heq; [|by rewrite app_nil_r]. subst t. by rewrite Et, app_nil_r. }
    exists (Wm (delete (task w) (windows_ s)) (wm_log s ++ released (Some pw) (task w))).
    erewrite M_bind_ret by done. rewrite Ew. rewrite <- (Hf _ _ Ew). split; [|split].
    - unfold release, released, mbind, M_bind. destruct (attached_ pw); cbn; [done|]. by rewrite app_nil_r.
    - intros t x Hx. cbn in Hx. apply lookup_delete_Some in Hx as [_ Hx]. by apply Hf.
    - cbv zeta. intros t. cbn [windows_ wm_log]. rewrite effects_of_app. rewrite (Hf _ _ Ew).
      case_bool_decide as Heq; cbn [andb].
      + subst t. rewrite Et, lookup_delete_eq, Ew. split; [done|]. f_equal. apply effects_of_all.
        cbn. destruct (attached_ pw); by repeat constructor.
      + rewrite lookup_delete_ne by done. split; [done|]. f_equal. apply effects_of_other.
        cbn. destruct (attached_ pw); repeat constructor; cbn; congruence. }
  destruct Hstep as (s1 & H1 & Hf1 & Hw1). cbn [for_each]. rewrite (M_bind_ret _ _ _ _ _ H1).
  destruct (IH s1 Hf1) as (s2 & H2 & Hf2 & Hw2). exists s2. split; [done|]. split; [done|].
  intros t. destruct (Hw1 t) as [Ha1 Hb1], (Hw2 t) as [Ha2 Hb2]. cbv zeta in *. rewrite Ha2, Hb2, Ha1, Hb1.
  rewrite fmap_cons, (bool_decide_ext (t ∈ task w :: (task <$> removed)) (t = task w \/ t ∈ task <$> removed))
    by apply elem_of_cons.
  destruct (bool_decide (is_Some (tu !! t))); cbn [negb]; [by rewrite !andb_false_r, !app_nil_r|].
  rewrite !andb_true_r. repeat case_bool_decide; rewrite ?app_nil_r; try done; tauto || naive_solver.
Qed.

(** C9: What [MultiWindowManager::apply_window_state_update] does to each task,
    when every window is filed under its own task (an update keeps it so) and
    no remote call fails.  A task keeps or gets a window exactly as follows: a
    known one keeps its window; an unknown one gets the window that its first
    eligible update (freeform stack, surface mapped) describes, with a native
    window if the renderer attaches one; where the platform refuses, each
    eligible update is tried and the task removed; a removal then takes the
    window away, and destroys its native window, exactly when no update was
    reported to it in the same call, which includes a window that the call
    itself created.  A window gets all its updates of the call in one delivery,
    in order; and nothing else is done for the task. *)
Theorem wm_update (updated removed : list window_state) (s : wm) :
  filed s ->
  exists s', apply_window_state_update e updated removed s = (s', Ret tt) /\ filed s' /\
    forall t,
      let r := reported (known (windows_ s !! t)) t updated in
      let w := window_after (windows_ s !! t) t updated in
      let gone := bool_decide (t ∈ task <$> removed) && bool_decide (r = []) in
      windows_ s' !! t = (if gone then None else w) /\
      effects_of t (wm_log s') = effects_of t (wm_log s) ++
        creations (windows_ s !! t) t updated ++
        (if bool_decide (r = []) then [] else [UpdateState t r]) ++
        (if gone then released w t else []).
Proof.
  intros Hf. unfold apply_window_state_update.
  destruct (process_all_updated_spec updated ∅ s) as (s1 & tu & H1 & Hd1 & Hw1 & Ht1).
  rewrite (M_bind_ret _ _ _ _ _ H1).
  assert (Htu : forall t, tu !! t = as_update (reported (known (windows_ s !! t)) t updated)).
  { intros t. apply (Ht1 t []). by rewrite lookup_empty. }
  assert (Hsome : forall t, bool_decide (is_Some (tu !! t)) =
    negb (bool_decide (reported (known (windows_ s !! t)) t updated = []))).
  { intros t. rewrite Htu. by destruct (reported _ t updated). }
  destruct (by_key_keys tu) as [Hnd Hkeys].
  destruct (send_updates_spec (by_key tu) s1) as (s2 & H2 & Hwin2 & Hd2); [done| |].
  { intros k Hk%Hkeys. rewrite Hw1. rewrite Htu in Hk. unfold reported, window_after in *.
    destruct (windows_ s !! k); simpl in *; [done|].
    destruct (creatable_window k); [|by destruct Hk].
    destruct (of_task k updated); [by destruct Hk|done]. }
  rewrite (M_bind_ret _ _ _ _ _ H2).
  destruct (process_removed_spec tu removed s2) as (s3 & H3 & Hf3 & Hw3).
  { intros t w Hw. rewrite Hwin2, Hw1 in Hw. unfold window_after in Hw.
    destruct (windows_ s !! t) as [w0|] eqn:E0; [injection Hw as <-; by apply Hf|].
    destruct (of_task t updated) as [|x l] eqn:Ex; [done|]. destruct (creatable_window t); [|done].
    injection Hw as <-. assert (x ∈ of_task t updated) as Hx by (rewrite Ex; left).
    by apply list_elem_of_filter in Hx as [[_ Hx] _]. }
  exists s3. split; [done|]. split; [done|]. intros t. cbv zeta. destruct (Hw3 t) as [Ha Hb].
  rewrite Ha, Hb, Hwin2, Hw1, Hsome, negb_involutive, Hd2, Hd1, find_by_key, Htu, <- !app_assoc.
  split; [done|]. do 3 f_equal. by destruct (reported _ _ _).
Qed.

End proofs.

(** ** Native windows *)

Definition natives (o : option window) : nat :=
  match o with Some w => if attached_ w then 1 else 0 | None => 0 end.

(** Every native window created is destroyed or belongs to the window of its
    task, and a window is filed under its own task. *)
Record balanced (s : wm) : Prop := {
  bal_count t : created t (wm_log s) = destroyed t (wm_log s) + natives (windows_ s !! t);
  bal_task t w : windows_ s !! t = Some w -> w_task w = t
}.

Section balance.
Context (e : env).

Lemma created_app t a b : created t (a ++ b) = created t a + created t b.
Proof. unfold created. by rewrite filter_app, length_app. Qed.
Lemma destroyed_app t a b : destroyed t (a ++ b) = destroyed t a + destroyed t b.
Proof. unfold destroyed. by rewrite filter_app, length_app. Qed.

Lemma created_one t x : created t [x] = if decide (x = CreateNative t) then 1 else 0.
Proof. unfold created. rewrite filter_cons, filter_nil. by destruct (decide _). Qed.
Lemma destroyed_one t x : destroyed t [x] = if decide (x = DestroyNative t) then 1 else 0.
Proof. unfold destroyed. rewrite filter_cons, filter_nil. by destruct (decide _). Qed.

Lemma balanced_emit x :
  (forall t, x <> CreateNative t) -> (forall t, x <> DestroyNative t) -> keeps balanced (wm_emit x).
Proof.
  intros H1 H2 s [Hb Ht]. split; [|done]. intros t. simpl.
  rewrite created_app, destroyed_app, created_one, destroyed_one, !decide_False by done.
  rewrite Hb. lia.
Qed.

(** Creating a window for a task that has none, and releasing one. *)
Lemma balanced_create t f title s :
  balanced s -> windows_ s !! t = None ->
  balanced ((w ← attach e (Window t f title false); set_windows (<[t := w]>)) s).1.
Proof.
  intros [Hb Ht] Hn. unfold attach. cbn [w_task w_frame w_title].
  destruct (attaches e t); (erewrite M_bind_ret by done); split; simpl.
  - intros t'. rewrite created_app, destroyed_app, created_one, destroyed_one.
    rewrite (decide_False (P := CreateNative t = DestroyNative t')) by done.
    destruct (decide (t = t')) as [<-|Hne].
    + rewrite decide_True, lookup_insert_eq, Hb, Hn by done. simpl. lia.
    + rewrite decide_False, lookup_insert_ne, Hb by congruence. lia.
  - intros t' w. rewrite lookup_insert_Some. intros [[<- <-]|[_ Hw]]; [done|by apply Ht].
  - intros t'. destruct (decide (t = t')) as [<-|Hne].
    + rewrite lookup_insert_eq, Hb, Hn. done.
    + by rewrite lookup_insert_ne.
  - intros t' w. rewrite lookup_insert_Some. intros [[<- <-]|[_ Hw]]; [done|by apply Ht].
Qed.

Lemma balanced_release t w s :
  balanced s -> windows_ s !! t = Some w ->
  balanced ((_ ← release w; set_windows (delete t)) s).1.
Proof.
  intros [Hb Ht] Hw. unfold release. pose proof (Ht _ _ Hw) as <-.
  destruct (attached_ w) eqn:Ea; (erewrite M_bind_ret by done); split; simpl.
  - intros t'. rewrite created_app, destroyed_app, created_one, destroyed_one.
    rewrite (decide_False (P := DestroyNative (w_task w) = CreateNative t')) by done.
    destruct (decide (w_task w = t')) as [<-|Hne].
    + rewrite decide_True, lookup_delete_eq, Hb, Hw by done. simpl. rewrite Ea. lia.
    + rewrite decide_False, lookup_delete_ne, Hb by congruence. lia.
  - intros t' w' [_ Hw']%lookup_delete_Some. by apply Ht.
  - intros t'. destruct (decide (w_task w = t')) as [<-|Hne].
    + rewrite lookup_delete_eq, Hb, Hw. simpl. by rewrite Ea.
    + by rewrite lookup_delete_ne.
  - intros t' w' [_ Hw']%lookup_delete_Some. by apply Ht.
Qed.

Lemma balanced_process_updated w tu : keeps balanced (process_updated e w tu).
Proof.
  unfold process_updated. destruct (eligible w); cbn [negb]; [|apply keeps_ret].
  intros s Hs. erewrite M_bind_ret by done. destruct (windows_ s !! task w) eqn:Ew; [done|].
  destruct (platform_alive e); [|done]. erewrite M_bind_ret by done.
  set (s1 := (wm_emit (CreateWindow (task w) (frame w) (title_for e w)) s).1). assert (Hs1 : balanced s1) by (by apply balanced_emit).
  destruct (creates e (task w)).
  - pose proof (balanced_create (task w) (frame w) (title_for e w) s1 Hs1 Ew) as Hc. revert Hc.
    unfold attach. cbn [w_task w_frame w_title]. by destruct (attaches e (task w)).
  - change (balanced (((_ ← remove_task e (task w); mret tu) : M wm _) s1).1).
    apply (keeps_bind balanced); [|intros; apply keeps_ret|done]. unfold remove_task.
    apply keeps_bind; [by apply balanced_emit|intros; apply keeps_lift].
Qed.

Lemma balanced_apply updated removed : keeps balanced (apply_window_state_update e updated removed).
Proof.
  unfold apply_window_state_update. apply keeps_bind.
  - generalize (∅ : gmap Z (list window_state)). induction updated as [|w ws IH]; intros tu; simpl.
    + apply keeps_ret.
    + apply keeps_bind; [apply balanced_process_updated|done].
  - intros tu. apply keeps_bind.
    + apply keeps_for_each. intros u. apply keeps_bind; [apply keeps_get|]. intros s.
      case_match; [by apply balanced_emit|apply keeps_ret].
    + intros _. apply keeps_for_each. intros w s Hs. unfold process_removed.
      erewrite M_bind_ret by done. destruct (windows_ s !! task w) eqn:Ew; [|done].
      destruct (tu !! task w); [done|]. by apply balanced_release.
Qed.
End balance.

(** No native window leaks or is destroyed twice.  Through any sequence of
    window updates, whatever the platform, the renderer and the container
    answer (failing remote calls included), each task's native windows
    created and destroyed differ by exactly the one its tracked window
    holds, each tracked window is filed under its own task, and
    [find_window_for_task] finds exactly the tracked window. *)
Theorem wm_native_windows (es : list (env * list window_state * list window_state)) :
  let s := fold_left (fun s x => (apply_window_state_update x.1.1 x.1.2 x.2 s).1) es wm_init in
  balanced s /\ forall t, find_window_for_task t s = windows_ s !! t.
Proof.
  intros s. assert (Hb : balanced s).
  { unfold s. assert (H0 : balanced wm_init).
    { by split. }
    revert H0. generalize wm_init. induction es as [|x es IH]; intros s0 H0; simpl; [done|].
    apply IH. by apply balanced_apply. }
  split; [done|]. intros t. unfold find_window_for_task.
  destruct (filter _ _) as [|[k w] l] eqn:E; simpl.
  - destruct (windows_ s !! t) as [w|] eqn:Ew; [|done]. exfalso.
    assert (Hin : (t, w) ∈ filter (fun kw : Z * window => w_task kw.2 = t) (by_key (windows_ s))).
    { apply list_elem_of_filter. split; [by apply (bal_task _ Hb) in Ew|by apply elem_of_by_key]. }
    rewrite E in Hin. by apply elem_of_nil in Hin.
  - assert (Hin : (k, w) ∈ filter (fun kw : Z * window => w_task kw.2 = t) (by_key (windows_ s)))
      by (rewrite E; left).
    apply list_elem_of_filter in Hin as [Ht Hin]. apply elem_of_by_key in Hin. simpl in Ht.
    rewrite (bal_task _ Hb _ _ Hin) in Ht. by subst.
Qed.

Definition example_env : env :=
  Env true (fun _ => true) (fun _ => true) (fun _ => Ret tt) (fresh None).
Definition example_state (t : Z) : window_state :=
  WindowState 0 true (Rect 0 0 10 10) (str "org.app") t Stack_Freeform.
Lemma wm_update_witness :
  exists s', apply_window_state_update example_env [example_state 3; example_state 3; example_state 4]
      [example_state 3; example_state 4] wm_init = (s', Ret tt) /\
    windows_ s' !! 3%Z = Some (new_window example_env (example_state 3)) /\
    effects_of 3 (wm_log s') = [CreateWindow 3 (Rect 0 0 10 10) (str "org.app"); CreateNative 3; UpdateState 3 [example_state 3]] /\
    windows_ s' !! 4%Z = None /\
    effects_of 4 (wm_log s') = [CreateWindow 4 (Rect 0 0 10 10) (str "org.app"); CreateNative 4; DestroyNative 4].
Proof.
  destruct (wm_update example_env (fun _ => eq_refl) [example_state 3; example_state 3; example_state 4]
    [example_state 3; example_state 4] wm_init) as (s' & Hs & _ & Ht); [intros t w Hw; cbn in Hw; by rewrite lookup_empty in Hw|].
  exists s'. split; [exact Hs|]. destruct (Ht 3%Z) as [H1 H2], (Ht 4%Z) as [H3 H4]. rewrite H1, H2, H3, H4.
  repeat split; reflexivity.
Defined.

(** A window created for an unknown task does not survive a removal of another
    window of the same task in the same update, although the update shows the
    task in use. *)
Lemma new_window_removed :
  windows_ (apply_window_state_update example_env [example_state 3] [example_state 3] wm_init).1 !! 3%Z = None.
Proof. vm_compute. reflexivity. Qed.
