(* ===== verification/Renderer.v ===== *)
(** The host renderer's resources (graphics/emugl/Renderer.cpp): handles,
    reference-counted color buffers under a count and a byte budget, window
    surfaces and contexts, their deferred destruction when a render thread's
    pipe closes, posted buffers and frame snapshots.  The GL and EGL objects
    behind the handles are external: whether their creation succeeds is an
    argument of the operations. *)

From S2P Require Import Prelude Geometry.

Local Open Scope Z_scope.

(** * Renderable (graphics/emugl/Renderable.h) *)

(** Alpha and transformation are carried along unchanged ([style]). *)
Record renderable := Renderable {
  r_name : bytes;
  buffer : Z;
  screen_position : rect;
  crop : rect;
  style : Z
}.
#[global] Instance renderable_eq_dec : EqDecision renderable.
Proof. solve_decision. Defined.
Definition set_buffer (r : renderable) (b : Z) : renderable :=
  Renderable (r_name r) b (screen_position r) (crop r) (style r).
Definition set_screen_position (r : renderable) (p : rect) : renderable :=
  Renderable (r_name r) (buffer r) p (crop r) (style r).

(** * State *)

Record color_buffer := ColorBufferRef {
  refcount : Z;
  allocation_bytes : Z;
  cb_width : Z;
  cb_height : Z;
  cb_format : Z
}.
Definition with_refcount (c : color_buffer) (n : Z) : color_buffer :=
  ColorBufferRef n (allocation_bytes c) (cb_width c) (cb_height c) (cb_format c).

(** [RenderThreadInfo]'s sets of what a render thread created. *)
Record thread_info := ThreadInfo {
  m_contextSet : gset Z;
  m_windowSet : gset Z
}.

Record renderer := Renderer {
  m_colorbuffers : gmap Z color_buffer;
  m_colorBufferBytes : Z;
  m_windows : gmap Z Z;              (* window surface -> attached color buffer *)
  m_contexts : gset Z;
  m_deferredContexts : gmap Z Z;     (* handle -> expiry *)
  m_deferredWindows : gmap Z Z;
  m_lastPostedColorBuffer : Z;
  s_nextHandle : Z;
  threads : nat -> thread_info
}.

Definition renderer_init : renderer :=
  Renderer ∅ 0 ∅ ∅ ∅ ∅ 0 0 (fun _ => ThreadInfo ∅ ∅).

Definition upd_colorbuffers (r : renderer) m b := Renderer m b (m_windows r) (m_contexts r)
  (m_deferredContexts r) (m_deferredWindows r) (m_lastPostedColorBuffer r) (s_nextHandle r) (threads r).
Definition upd_windows (r : renderer) m := Renderer (m_colorbuffers r) (m_colorBufferBytes r) m
  (m_contexts r) (m_deferredContexts r) (m_deferredWindows r) (m_lastPostedColorBuffer r)
  (s_nextHandle r) (threads r).
Definition upd_contexts (r : renderer) m := Renderer (m_colorbuffers r) (m_colorBufferBytes r)
  (m_windows r) m (m_deferredContexts r) (m_deferredWindows r) (m_lastPostedColorBuffer r)
  (s_nextHandle r) (threads r).
Definition upd_deferred (r : renderer) c w := Renderer (m_colorbuffers r) (m_colorBufferBytes r)
  (m_windows r) (m_contexts r) c w (m_lastPostedColorBuffer r) (s_nextHandle r) (threads r).
Definition upd_posted (r : renderer) h := Renderer (m_colorbuffers r) (m_colorBufferBytes r)
  (m_windows r) (m_contexts r) (m_deferredContexts r) (m_deferredWindows r) h (s_nextHandle r) (threads r).
Definition upd_next (r : renderer) n := Renderer (m_colorbuffers r) (m_colorBufferBytes r)
  (m_windows r) (m_contexts r) (m_deferredContexts r) (m_deferredWindows r)
  (m_lastPostedColorBuffer r) n (threads r).
Definition upd_thread (r : renderer) (t : nat) (i : thread_info) := Renderer (m_colorbuffers r)
  (m_colorBufferBytes r) (m_windows r) (m_contexts r) (m_deferredContexts r) (m_deferredWindows r)
  (m_lastPostedColorBuffer r) (s_nextHandle r) (fun t' => if decide (t = t') then i else threads r t').

(** * Limits *)

Definition max_color_buffer_bytes : Z := 2048 * 1024 * 1024.
Definition max_color_buffers : Z := 128.
Definition max_uint32 : Z := 2 ^ 32 - 1.
Definition max_size_t : Z := 2 ^ 64 - 1.
Definition kMaxDeferred : Z := 64.
Definition kDeferredLifetime : Z := 2.
Definition GL_RGBA : Z := 6408.

(** * Handles *)

Definition gen_step (r : renderer) (n : Z) : Z + Z :=
  let id := u32 (n + 1) in
  if (id =? 0) || bool_decide (id ∈ m_contexts r) || bool_decide (is_Some (m_windows r !! id))
  then inl id else inr id.

(** Enough turns to pass zero and every used handle once. *)
Definition gen_fuel (r : renderer) : nat := (2 + size (m_contexts r) + size (m_windows r))%nat.

Definition genHandle (r : renderer) : option (renderer * Z) :=
  id ← loop (gen_fuel r) (gen_step r) (s_nextHandle r); Some (upd_next r id, id).

(** * Color buffers *)

Definition count (r : renderer) : Z := Z.of_nat (size (m_colorbuffers r)).

(** Records a new buffer under [h] and accounts for it. *)
Definition add_colorbuffer (r : renderer) (h w ht f bytes : Z) : renderer :=
  upd_colorbuffers r (<[h := ColorBufferRef 1 bytes w ht f]> (m_colorbuffers r))
    (m_colorBufferBytes r + bytes).

Definition over_budget (r : renderer) (bytes : Z) : bool :=
  (max_color_buffer_bytes <? bytes) || (max_color_buffer_bytes - bytes <? m_colorBufferBytes r).

(** [created]: whether [ColorBuffer::create] succeeds. *)
Definition createColorBuffer (created : bool) (w h f : Z) (r : renderer) : option (renderer * Z) :=
  if (w <=? 0) || (h <=? 0) then Some (r, 0)
  else if max_color_buffers <=? count r then Some (r, 0)
  else if max_size_t / h / 8 <? w then Some (r, 0)
  else
    let bytes := w * h * 8 in
    if over_budget r bytes then Some (r, 0)
    else if created then
      x ← genHandle r; Some (add_colorbuffer x.1 x.2 w h f bytes, x.2)
    else Some (r, 0).

(** Drops one reference, and the buffer with the last one. *)
Definition drop_reference (r : renderer) (h : Z) (c : color_buffer) : renderer :=
  if refcount c - 1 =? 0
  then upd_colorbuffers r (delete h (m_colorbuffers r)) (m_colorBufferBytes r - allocation_bytes c)
  else upd_colorbuffers r (<[h := with_refcount c (refcount c - 1)]> (m_colorbuffers r))
         (m_colorBufferBytes r).

Definition releaseWindowSurfaceColorBuffer (r : renderer) (h : Z) : renderer * bool :=
  if h =? 0 then (r, true)
  else match m_colorbuffers r !! h with
       | None => (r, false)
       | Some c => if refcount c =? 0 then (r, false) else (drop_reference r h c, true)
       end.

Definition add_reference (r : renderer) (h : Z) (c : color_buffer) : renderer :=
  upd_colorbuffers r (<[h := with_refcount c (refcount c + 1)]> (m_colorbuffers r)) (m_colorBufferBytes r).

Definition openColorBuffer (h : Z) (r : renderer) : renderer * Z :=
  match m_colorbuffers r !! h with
  | None => (r, -1)
  | Some c => if refcount c =? max_uint32 then (r, -1) else (add_reference r h c, 0)
  end.

Definition closeColorBuffer (h : Z) (r : renderer) : renderer :=
  match m_colorbuffers r !! h with
  | None => r
  | Some c => if refcount c =? 0 then r else drop_reference r h c
  end.

(** * Deferred destruction *)

Definition destroyDeferredWindow (r : renderer) (h : Z) : renderer :=
  match m_windows r !! h with
  | None => r
  | Some cb =>
      let r := (releaseWindowSurfaceColorBuffer r cb).1 in
      upd_windows r (delete h (m_windows r))
  end.

Definition reap_window (now : Z) (r : renderer) (e : Z * Z) : renderer :=
  if now <? e.2 then r
  else destroyDeferredWindow (upd_deferred r (m_deferredContexts r) (delete e.1 (m_deferredWindows r))) e.1.
Definition reap_context (now : Z) (r : renderer) (e : Z * Z) : renderer :=
  if now <? e.2 then r
  else
    let r := upd_deferred r (delete e.1 (m_deferredContexts r)) (m_deferredWindows r) in
    upd_contexts r (m_contexts r ∖ {[e.1]}).

Definition reapDeferredResources (now : Z) (r : renderer) : renderer :=
  let r := fold_left (reap_window now) (by_key (m_deferredWindows r)) r in
  fold_left (reap_context now) (by_key (m_deferredContexts r)) r.

Definition cancelDeferredContext (h : Z) (r : renderer) : renderer :=
  upd_deferred r (delete h (m_deferredContexts r)) (m_deferredWindows r).
Definition cancelDeferredWindow (h : Z) (r : renderer) : renderer :=
  upd_deferred r (m_deferredContexts r) (delete h (m_deferredWindows r)).

(** A [std::set] of handles in ascending order. *)
Definition ascending (s : gset Z) : list Z := merge_sort Z.le (elements s).

Definition defer_context (expiry : Z) (r : renderer) (h : Z) : renderer :=
  if bool_decide (h ∈ m_contexts r) then
    if (kMaxDeferred <=? Z.of_nat (size (m_deferredContexts r))) &&
       negb (bool_decide (is_Some (m_deferredContexts r !! h)))
    then upd_contexts r (m_contexts r ∖ {[h]})
    else upd_deferred r (<[h := expiry]> (m_deferredContexts r)) (m_deferredWindows r)
  else r.
Definition defer_window (expiry : Z) (r : renderer) (h : Z) : renderer :=
  if bool_decide (is_Some (m_windows r !! h)) then
    if (kMaxDeferred <=? Z.of_nat (size (m_deferredWindows r))) &&
       negb (bool_decide (is_Some (m_deferredWindows r !! h)))
    then destroyDeferredWindow r h
    else upd_deferred r (m_deferredContexts r) (<[h := expiry]> (m_deferredWindows r))
  else r.

Definition deferCurrentThreadResources (t : nat) (now : Z) (r : renderer) : renderer :=
  let r := reapDeferredResources now r in
  let expiry := now + kDeferredLifetime in
  let i := threads r t in
  let r := fold_left (defer_context expiry) (ascending (m_contextSet i)) r in
  let r := fold_left (defer_window expiry) (ascending (m_windowSet i)) r in
  upd_thread r t (ThreadInfo ∅ ∅).

(** * Contexts and window surfaces *)

(** [config] and [created]: whether the configuration exists and the object's
    creation succeeds. *)
Definition createRenderContext (t : nat) (config created : bool) (share : Z) (r : renderer)
    : option (renderer * Z) :=
  if negb config then Some (r, 0)
  else if negb (share =? 0) && negb (bool_decide (share ∈ m_contexts r)) then Some (r, 0)
  else if created then
    x ← genHandle r;
    let r := upd_contexts x.1 (m_contexts x.1 ∪ {[x.2]}) in
    let i := threads r t in
    Some (upd_thread r t (ThreadInfo (m_contextSet i ∪ {[x.2]}) (m_windowSet i)), x.2)
  else Some (r, 0).

Definition createWindowSurface (t : nat) (config created : bool) (r : renderer)
    : option (renderer * Z) :=
  if negb config then Some (r, 0)
  else if created then
    x ← genHandle r;
    let r := upd_windows x.1 (<[x.2 := 0]> (m_windows x.1)) in
    let i := threads r t in
    Some (upd_thread r t (ThreadInfo (m_contextSet i) (m_windowSet i ∪ {[x.2]})), x.2)
  else Some (r, 0).

Definition drainRenderContext (t : nat) (r : renderer) : renderer :=
  let i := threads r t in
  let r := upd_contexts r (m_contexts r ∖ m_contextSet i) in
  upd_thread r t (ThreadInfo ∅ (m_windowSet i)).

Definition drainWindowSurface (t : nat) (r : renderer) : renderer :=
  let i := threads r t in
  let r := fold_left destroyDeferredWindow (ascending (m_windowSet i)) r in
  upd_thread r t (ThreadInfo (m_contextSet i) ∅).

Definition DestroyRenderContext (t : nat) (now h : Z) (r : renderer) : renderer :=
  let r := cancelDeferredContext h (reapDeferredResources now r) in
  let r := upd_contexts r (m_contexts r ∖ {[h]}) in
  let i := threads r t in
  upd_thread r t (ThreadInfo (m_contextSet i ∖ {[h]}) (m_windowSet i)).

Definition DestroyWindowSurface (t : nat) (now h : Z) (r : renderer) : renderer :=
  let r := cancelDeferredWindow h (reapDeferredResources now r) in
  match m_windows r !! h with
  | None => r
  | Some cb =>
      let r := (releaseWindowSurfaceColorBuffer r cb).1 in
      let r := upd_windows r (delete h (m_windows r)) in
      let i := threads r t in
      upd_thread r t (ThreadInfo (m_contextSet i) (m_windowSet i ∖ {[h]}))
  end.

Definition setWindowSurfaceColorBuffer (now surface cb : Z) (r : renderer) : renderer * bool :=
  let r := cancelDeferredWindow surface (reapDeferredResources now r) in
  match m_windows r !! surface with
  | None => (r, false)
  | Some old =>
      if negb (cb =? 0) && negb (bool_decide (is_Some (m_colorbuffers r !! cb))) then (r, false)
      else if old =? cb then (r, true)
      else if negb (cb =? 0) &&
              bool_decide (refcount <$> m_colorbuffers r !! cb = Some max_uint32) then (r, false)
      else
        let r := (releaseWindowSurfaceColorBuffer r old).1 in
        let r := if cb =? 0 then r
                 else match m_colorbuffers r !! cb with
                      | Some c => add_reference r cb c
                      | None => r
                      end in
        (upd_windows r (<[surface := cb]> (m_windows r)), true)
  end.

(** The size of the posted buffer, or [None] when it is refused. *)
Definition retainPostedColorBuffer (now cb : Z) (r : renderer) : renderer * option (Z * Z) :=
  let r := reapDeferredResources now r in
  match m_colorbuffers r !! cb with
  | None => (r, None)
  | Some c =>
      if m_lastPostedColorBuffer r =? cb then (r, Some (cb_width c, cb_height c))
      else if refcount c =? max_uint32 then (r, None)
      else
        let previous := m_lastPostedColorBuffer r in
        let r := upd_posted (add_reference r cb c) cb in
        (if previous =? 0 then r else (releaseWindowSurfaceColorBuffer r previous).1,
         Some (cb_width c, cb_height c))
  end.

(** [bindContext]: [current] is whether [eglMakeCurrent] succeeds; only the
    bookkeeping of deferred resources is state here. *)
Definition bindContext (current : bool) (now context draw read : Z) (r : renderer) : renderer * bool :=
  let r := reapDeferredResources now r in
  if (context =? 0) && (draw =? 0) && (read =? 0) then (r, current)
  else if negb (bool_decide (context ∈ m_contexts r)) then (r, false)
  else
    let r := cancelDeferredContext context r in
    if negb (bool_decide (is_Some (m_windows r !! draw))) then (r, false)
    else
      let r := cancelDeferredWindow draw r in
      if read =? draw then (r, current)
      else if negb (bool_decide (is_Some (m_windows r !! read))) then (r, false)
      else (cancelDeferredWindow read r, current).

(** * Frame snapshots *)

(** [rollback]: the snapshots made so far are dropped whatever their count. *)
Definition rollback (created : list Z) (r : renderer) : renderer :=
  fold_left (fun r h =>
    match m_colorbuffers r !! h with
    | None => r
    | Some c => upd_colorbuffers r (delete h (m_colorbuffers r)) (m_colorBufferBytes r - allocation_bytes c)
    end) created r.

(** The loop over the renderables; [frozen h] is whether the copy of buffer [h]
    succeeds.  [None] in the result is the failure after the rollback. *)
Fixpoint snapshot_all (frozen : Z -> bool) (rs : list renderable) (snapshots : gmap Z Z)
    (created : list Z) (r : renderer) : option (renderer * option (gmap Z Z)) :=
  match rs with
  | [] => Some (r, Some snapshots)
  | x :: rs' =>
      match snapshots !! buffer x with
      | Some _ => snapshot_all frozen rs' snapshots created r
      | None =>
          match m_colorbuffers r !! buffer x with
          | None => Some (rollback created r, None)
          | Some c =>
              if max_size_t / cb_height c / 8 <? cb_width c then Some (rollback created r, None)
              else
                let bytes := cb_width c * cb_height c * 8 in
                if (max_color_buffers <=? count r) || over_budget r bytes
                then Some (rollback created r, None)
                else if negb (frozen (buffer x)) then Some (rollback created r, None)
                else
                  g ← genHandle r;
                  snapshot_all frozen rs' (<[buffer x := g.2]> snapshots) (created ++ [g.2])
                    (add_colorbuffer g.1 g.2 (cb_width c) (cb_height c) (cb_format c) bytes)
          end
      end
  end.

Definition with_snapshot (snapshots : gmap Z Z) (x : renderable) : renderable :=
  set_buffer x (default 0 (snapshots !! buffer x)).

(** [retain_frame]: the renderables with their buffers replaced, or [None]. *)
Definition retain_frame (frozen : Z -> bool) (rs : list renderable) (r : renderer)
    : option (renderer * option (list renderable)) :=
  match snapshot_all frozen rs ∅ [] r with
  | Some (r', Some snapshots) =>
      Some (r', Some (with_snapshot snapshots <$> rs))
  | Some (r', None) => Some (r', None)
  | None => None
  end.

Fixpoint release_frame_from (released : gset Z) (rs : list renderable) (r : renderer) : renderer :=
  match rs with
  | [] => r
  | x :: rs' =>
      if bool_decide (buffer x ∈ released) then release_frame_from released rs' r
      else release_frame_from (released ∪ {[buffer x]}) rs' (closeColorBuffer (buffer x) r)
  end.
Definition release_frame (rs : list renderable) (r : renderer) : renderer := release_frame_from ∅ rs r.

(** * Proofs: accounting *)

Create HintDb racc.

(** The bytes of the live buffers. *)
Definition total (m : gmap Z color_buffer) : Z :=
  foldr Z.add 0 (allocation_bytes ∘ snd <$> map_to_list m).

Lemma sum_perm (l l' : list Z) : l ≡ₚ l' -> foldr Z.add 0 l = foldr Z.add 0 l'.
Proof. induction 1; simpl; lia. Qed.

Lemma total_insert m h c : m !! h = None -> total (<[h := c]> m) = allocation_bytes c + total m.
Proof.
  intros Hn. unfold total.
  rewrite (sum_perm _ (allocation_bytes ∘ snd <$> ((h, c) :: map_to_list m))); [done|].
  by rewrite map_to_list_insert.
Qed.

Lemma total_delete m h c : m !! h = Some c -> total m = allocation_bytes c + total (delete h m).
Proof.
  intros Hs. rewrite <- (total_insert (delete h m) h c) by apply lookup_delete_eq.
  by rewrite insert_delete_eq, insert_id.
Qed.

Lemma total_update m h c c' :
  m !! h = Some c -> allocation_bytes c' = allocation_bytes c -> total (<[h := c']> m) = total m.
Proof.
  intros Hs Ha. rewrite (total_delete m h c), <- insert_delete_eq, total_insert by
    (done || apply lookup_delete_eq). lia.
Qed.

(** Every operation keeps the books: the byte count is the sum over the live
    buffers and within budget, the number of buffers is bounded, every
    reference count is a positive [uint32], and no handle is ahead of the
    counter. *)
Record racc (r : renderer) : Prop := {
  acc_bytes : m_colorBufferBytes r = total (m_colorbuffers r);
  acc_budget : m_colorBufferBytes r <= max_color_buffer_bytes;
  acc_count : count r <= max_color_buffers;
  acc_cb h c : m_colorbuffers r !! h = Some c ->
    0 < h <= s_nextHandle r /\ 1 <= refcount c <= max_uint32 /\
    0 < cb_width c /\ 0 < cb_height c /\ allocation_bytes c = cb_width c * cb_height c * 8;
  acc_windows h : is_Some (m_windows r !! h) -> 0 < h <= s_nextHandle r;
  acc_contexts h : h ∈ m_contexts r -> 0 < h <= s_nextHandle r
}.

Lemma racc_init : racc renderer_init.
Proof.
  split; try done. intros h. simpl. rewrite lookup_empty. by intros [].
Qed.

Definition at_most (n : Z) (r : renderer) : Prop := racc r /\ s_nextHandle r = n.

(** ** Handles *)

Lemma genHandle_fresh r n :
  at_most n r -> 0 <= n < 2 ^ 32 - 1 -> genHandle r = Some (upd_next r (n + 1), n + 1).
Proof.
  intros [Hr Hn] Hlt. unfold genHandle, gen_fuel. simpl loop.
  replace (gen_step r (s_nextHandle r)) with (@inr Z Z (n + 1)); [done|].
  unfold gen_step. rewrite Hn, u32_id by (unfold in_u32; lia).
  destruct (Z.eqb_spec (n + 1) 0); [lia|].
  rewrite !bool_decide_eq_false_2; [done| |].
  - intros Hw%(acc_windows _ Hr). lia.
  - intros Hc%(acc_contexts _ Hr). lia.
Qed.

Lemma at_most_next n r : at_most n r -> at_most (n + 1) (upd_next r (n + 1)).
Proof.
  intros [[] Hn]. split; [|done]. split; simpl; try done.
  - intros h c Hc. specialize (acc_cb0 h c Hc). lia.
  - intros h Hw. specialize (acc_windows0 h Hw). lia.
  - intros h Hc. specialize (acc_contexts0 h Hc). lia.
Qed.

(** ** References *)

Lemma racc_drop n r h c :
  at_most n r -> m_colorbuffers r !! h = Some c -> at_most n (drop_reference r h c).
Proof.
  intros [[] Hn] Hc. split; [|by unfold drop_reference; case_match].
  pose proof (acc_cb0 h c Hc) as Hcb. unfold drop_reference.
  destruct (Z.eqb_spec (refcount c - 1) 0); split; simpl; try done.
  - rewrite acc_bytes0, (total_delete _ _ _ Hc). lia.
  - pose proof (total_delete _ _ _ Hc). nia.
  - unfold count in *. simpl. rewrite map_size_delete_Some by done. lia.
  - intros h' c' [_ Hc']%lookup_delete_Some. by apply acc_cb0.
  - by rewrite (total_update _ _ c).
  - unfold count in *. simpl. by rewrite map_size_insert_Some.
  - intros h' c' [[<- <-]|[_ Hc']]%lookup_insert_Some; [simpl; lia|by apply acc_cb0].
Qed.

Lemma racc_add n r h c :
  at_most n r -> m_colorbuffers r !! h = Some c -> refcount c <> max_uint32 ->
  at_most n (add_reference r h c).
Proof.
  intros [[] Hn] Hc Hmax. split; [|done].
  pose proof (acc_cb0 h c Hc) as Hcb. split; simpl; try done.
  - by rewrite (total_update _ _ c).
  - unfold count in *. simpl. by rewrite map_size_insert_Some.
  - intros h' c' [[<- <-]|[_ Hc']]%lookup_insert_Some; [simpl; lia|by apply acc_cb0].
Qed.

Lemma racc_release n r h : at_most n r -> at_most n (releaseWindowSurfaceColorBuffer r h).1.
Proof.
  intros Hr. unfold releaseWindowSurfaceColorBuffer. destruct (h =? 0); [done|].
  destruct (m_colorbuffers r !! h) eqn:E; [|done]. destruct (refcount c =? 0); [done|].
  by apply racc_drop.
Qed.

Lemma racc_close n r h : at_most n r -> at_most n (closeColorBuffer h r).
Proof.
  intros Hr. unfold closeColorBuffer. destruct (m_colorbuffers r !! h) eqn:E; [|done].
  destruct (refcount c =? 0); [done|]. by apply racc_drop.
Qed.

(** A new buffer that fits the budgets. *)
Lemma racc_new n r w h f :
  at_most n r -> count r < max_color_buffers -> over_budget r (w * h * 8) = false ->
  0 < w -> 0 < h -> 0 <= n ->
  at_most (n + 1) (add_colorbuffer (upd_next r (n + 1)) (n + 1) w h f (w * h * 8)).
Proof.
  intros Hr Hc Hb Hw Hh Hn0. pose proof (at_most_next n r Hr) as [[] Hn]. simpl in Hn.
  destruct Hr as [Hr Hnr]. split; [|done].
  assert (Hfresh : m_colorbuffers r !! (n + 1) = None).
  { apply eq_None_not_Some. intros [c Hcb]. apply (acc_cb _ Hr) in Hcb. lia. }
  unfold over_budget in Hb. apply orb_false_elim in Hb as [Hb1%Z.ltb_ge Hb2%Z.ltb_ge].
  split; simpl in *; try done.
  - rewrite total_insert by done. simpl. lia.
  - lia.
  - unfold count in *. simpl. rewrite map_size_insert_None by done. lia.
  - intros h' c' [[<- <-]|[_ Hc']]%lookup_insert_Some; [|by apply acc_cb0].
    simpl. unfold max_uint32. lia.
Qed.

(** ** Operations that only destroy and defer *)

(** A predicate that these building blocks keep is kept by every operation made
    of them, however long their loops are. *)
Section stable.
Context (P : renderer -> Prop).
Context (Hdestroy : forall r h, P r -> P (destroyDeferredWindow r h)).
Context (Hdeferred : forall r c w, P r -> P (upd_deferred r c w)).
Context (Hcontexts : forall r s, s ⊆ m_contexts r -> P r -> P (upd_contexts r s)).
Context (Hthread : forall r t i, P r -> P (upd_thread r t i)).

Lemma stable_fold {A} (f : renderer -> A -> renderer) l r :
  (forall r x, P r -> P (f r x)) -> P r -> P (fold_left f l r).
Proof using. intros Hf. revert r; induction l; simpl; auto. Qed.

Lemma stable_reap now r : P r -> P (reapDeferredResources now r).
Proof using Hdestroy Hdeferred Hcontexts.
  intros Hr. unfold reapDeferredResources. apply stable_fold.
  - intros r' x Hr'. unfold reap_context. destruct (now <? x.2); [done|].
    apply Hcontexts; [clear; set_solver|]. by apply Hdeferred.
  - apply stable_fold; [|done]. intros r' x Hr'. unfold reap_window.
    destruct (now <? x.2); [done|]. by apply Hdestroy, Hdeferred.
Qed.

Lemma stable_defer t now r : P r -> P (deferCurrentThreadResources t now r).
Proof.
  intros Hr. unfold deferCurrentThreadResources. apply Hthread. apply stable_fold.
  - intros r' h Hr'. unfold defer_window. repeat case_match; auto.
  - apply stable_fold; [|by apply stable_reap].
    intros r' h Hr'. unfold defer_context. repeat case_match; auto.
    apply Hcontexts; [set_solver|done].
Qed.

Lemma stable_drain_contexts t r : P r -> P (drainRenderContext t r).
Proof. intros Hr. apply Hthread, Hcontexts; [set_solver|done]. Qed.

Lemma stable_drain_windows t r : P r -> P (drainWindowSurface t r).
Proof. intros Hr. apply Hthread. by apply stable_fold. Qed.

Lemma stable_destroy_context t now h r : P r -> P (DestroyRenderContext t now h r).
Proof.
  intros Hr. apply Hthread. apply Hcontexts; [set_solver|]. by apply Hdeferred, stable_reap.
Qed.

Lemma stable_destroy_window t now h r : P r -> P (DestroyWindowSurface t now h r).
Proof.
  intros Hr. unfold DestroyWindowSurface. cbv zeta.
  set (r1 := cancelDeferredWindow h _).
  assert (H1 : P r1) by (by apply Hdeferred, stable_reap).
  pose proof (Hdestroy r1 h H1) as Hd. unfold destroyDeferredWindow in Hd.
  destruct (m_windows r1 !! h); [|done]. by apply Hthread.
Qed.

Lemma stable_bind current now c d rd r : P r -> P (bindContext current now c d rd r).1.
Proof using Hdestroy Hdeferred Hcontexts.
  intros Hr. unfold bindContext, cancelDeferredContext, cancelDeferredWindow. cbv zeta.
  pose proof (stable_reap now r Hr). repeat case_match; simpl; auto.
Qed.
End stable.

Lemma racc_destroy n r h : at_most n r -> at_most n (destroyDeferredWindow r h).
Proof.
  intros Hr. unfold destroyDeferredWindow. destruct (m_windows r !! h); [|done].
  cbv zeta. pose proof (racc_release n r z Hr) as [[] Hn]. split; [|done]. split; simpl; try done.
  intros h' [cb [_ Hw]%lookup_delete_Some]. apply acc_windows0. by rewrite Hw.
Qed.
Lemma racc_deferred n r c w : at_most n r -> at_most n (upd_deferred r c w).
Proof. intros [[] Hn]. by split. Qed.
Lemma racc_contexts n r s : s ⊆ m_contexts r -> at_most n r -> at_most n (upd_contexts r s).
Proof. intros Hs [[] Hn]. split; [|done]. split; simpl; try done. intros h Hh. apply acc_contexts0. set_solver. Qed.
Lemma racc_thread n r t i : at_most n r -> at_most n (upd_thread r t i).
Proof. intros [[] Hn]. by split. Qed.
Hint Resolve racc_destroy racc_deferred racc_contexts racc_thread : racc.

Lemma racc_set n now s cb r : at_most n r -> at_most n (setWindowSurfaceColorBuffer now s cb r).1.
Proof.
  intros Hr. unfold setWindowSurfaceColorBuffer. cbv zeta.
  set (r1 := cancelDeferredWindow s _).
  assert (H1 : at_most n r1).
  { apply racc_deferred. by apply stable_reap; auto with racc. }
  clearbody r1. destruct (m_windows r1 !! s) as [old|] eqn:Ew; [|done].
  destruct (_ && _); [done|]. destruct (old =? cb); [done|].
  destruct (negb (cb =? 0) && bool_decide (refcount <$> m_colorbuffers r1 !! cb = Some max_uint32)) eqn:Eo;
    [done|].
  set (r2 := (releaseWindowSurfaceColorBuffer r1 old).1).
  assert (H2 : at_most n r2) by (by apply racc_release).
  assert (Hw2 : m_windows r2 = m_windows r1).
  { unfold r2, releaseWindowSurfaceColorBuffer, drop_reference. by repeat case_match. }
  assert (Hmax : forall c, m_colorbuffers r2 !! cb = Some c -> cb <> 0 -> refcount c <> max_uint32).
  { intros c Hc Hne Hmx. destruct (Z.eqb_spec cb 0); [done|]. simpl in Eo.
    apply bool_decide_eq_false in Eo. apply Eo. clear Eo.
    unfold r2, releaseWindowSurfaceColorBuffer in Hc. destruct (old =? 0); [by (simpl in Hc; rewrite Hc, <- Hmx)|].
    destruct (m_colorbuffers r1 !! old) as [co|] eqn:Eold; [|by (simpl in Hc; rewrite Hc, <- Hmx)].
    destruct (refcount co =? 0); [by (simpl in Hc; rewrite Hc, <- Hmx)|].
    unfold drop_reference in Hc. destruct (refcount co - 1 =? 0); simpl in Hc.
    - apply lookup_delete_Some in Hc as [_ Hc]. by (simpl in Hc; rewrite Hc, <- Hmx).
    - apply lookup_insert_Some in Hc as [[-> <-]|[_ Hc]]; [|by (simpl in Hc; rewrite Hc, <- Hmx)].
      exfalso. destruct H1 as [H1 _]. apply (acc_cb _ H1) in Eold. simpl in Hmx. lia. }
  assert (Hin : 0 < s <= n).
  { destruct H1 as [H1 <-]. apply (acc_windows _ H1). by rewrite Ew. }
  simpl. set (r3 := if cb =? 0 then r2 else _).
  assert (H3 : at_most n r3 /\ m_windows r3 = m_windows r2).
  { unfold r3. destruct (Z.eqb_spec cb 0); [done|].
    destruct (m_colorbuffers r2 !! cb) as [c|] eqn:Ec; [|done].
    split; [|done]. apply racc_add; auto. }
  destruct H3 as [[[] Hn] Hw3]. split; [|done]. split; simpl; try done.
  intros h' [c [[<- _]|[_ Hl]]%lookup_insert_Some]; [lia|]. apply acc_windows0. by rewrite Hl.
Qed.

Lemma racc_posted n r h : at_most n r -> at_most n (upd_posted r h).
Proof. intros [[] Hn]. by split. Qed.

Lemma racc_post n now cb r : at_most n r -> at_most n (retainPostedColorBuffer now cb r).1.
Proof.
  intros Hr. unfold retainPostedColorBuffer. cbv zeta.
  assert (H1 : at_most n (reapDeferredResources now r)) by (by apply stable_reap; auto with racc).
  set (r1 := reapDeferredResources now r) in *. clearbody r1.
  destruct (m_colorbuffers r1 !! cb) as [c|] eqn:Ec; [|done].
  destruct (m_lastPostedColorBuffer r1 =? cb); [done|].
  destruct (Z.eqb_spec (refcount c) max_uint32); [done|]. simpl.
  assert (H2 : at_most n (upd_posted (add_reference r1 cb c) cb)).
  { apply racc_posted. by apply racc_add. }
  case_match; [done|]. by apply racc_release.
Qed.

(** Dropping a buffer whatever its count. *)
Lemma racc_delete n r h c :
  at_most n r -> m_colorbuffers r !! h = Some c ->
  at_most n (upd_colorbuffers r (delete h (m_colorbuffers r)) (m_colorBufferBytes r - allocation_bytes c)).
Proof.
  intros [[] Hn] Hc. split; [|done]. pose proof (acc_cb0 h c Hc).
  pose proof (total_delete _ _ _ Hc). split; simpl; try done.
  - lia.
  - nia.
  - unfold count in *. simpl. rewrite map_size_delete_Some by done. lia.
  - intros h' c' [_ Hc']%lookup_delete_Some. by apply acc_cb0.
Qed.

Lemma racc_rollback n created r : at_most n r -> at_most n (rollback created r).
Proof.
  intros Hr. unfold rollback. apply stable_fold; [|done]. intros r' h Hr'.
  destruct (m_colorbuffers r' !! h) eqn:E; [|done]. by apply racc_delete.
Qed.

(** A snapshot loop makes at most one handle per renderable. *)
Lemma racc_snapshot_all frozen rs snaps created n r :
  at_most n r -> 0 <= n -> n + Z.of_nat (length rs) < 2 ^ 32 ->
  exists r' o n', snapshot_all frozen rs snaps created r = Some (r', o) /\
    at_most n' r' /\ n <= n' <= n + Z.of_nat (length rs).
Proof.
  revert snaps created n r; induction rs as [|x rs IH]; intros snaps created n r Hr Hn Hb.
  { exists r, (Some snaps), n. simpl. split; [done|]. split; [done|]. lia. }
  cbn [snapshot_all]. simpl length in Hb. rewrite Nat2Z.inj_succ in Hb.
  destruct (snaps !! buffer x).
  { destruct (IH snaps created n r) as (r' & o & n' & ? & ? & ?); [done|lia|lia|].
    exists r', o, n'. split; [done|]. split; [done|]. simpl length. lia. }
  assert (Hroll : exists r' o n', Some (rollback created r, @None (gmap Z Z)) = Some (r', o) /\
    at_most n' r' /\ n <= n' <= n + Z.of_nat (length (x :: rs))).
  { exists (rollback created r), None, n. split; [done|]. split; [by apply racc_rollback|]. lia. }
  destruct (m_colorbuffers r !! buffer x) as [c|] eqn:Ec; [|exact Hroll].
  destruct (_ <? cb_width c); [exact Hroll|]. cbv zeta.
  destruct ((max_color_buffers <=? count r) || _) eqn:Eb; [exact Hroll|].
  destruct (negb (frozen (buffer x))); [exact Hroll|].
  rewrite (genHandle_fresh r n Hr) by lia. cbn [mbind option_bind fst snd].
  apply orb_false_elim in Eb as [Hc%Z.leb_gt Ho]. pose proof (acc_cb _ (proj1 Hr) _ _ Ec) as Hcb.
  destruct (IH (<[buffer x := n + 1]> snaps) (created ++ [n + 1]) (n + 1)
    (add_colorbuffer (upd_next r (n + 1)) (n + 1) (cb_width c) (cb_height c) (cb_format c)
       (cb_width c * cb_height c * 8))) as (r' & o & n' & ? & ? & ?); [|lia|lia|].
  { apply racc_new; lia || done. }
  exists r', o, n'. split; [done|]. split; [done|]. simpl length. lia.
Qed.

(** ** Everything the guest and the composer can ask for *)

Inductive call :=
  | CreateColorBuffer (created : bool) (w h f : Z)
  | OpenColorBuffer (h : Z)
  | CloseColorBuffer (h : Z)
  | CreateContext (t : nat) (config created : bool) (share : Z)
  | CreateWindow (t : nat) (config created : bool)
  | DrainContexts (t : nat)
  | DrainWindows (t : nat)
  | Defer (t : nat) (now : Z)
  | DestroyContext (t : nat) (now h : Z)
  | DestroyWindow (t : nat) (now h : Z)
  | SetWindowColorBuffer (now surface cb : Z)
  | Post (now cb : Z)
  | Bind (current : bool) (now context draw read : Z)
  | RetainFrame (frozen : Z -> bool) (rs : list renderable)
  | ReleaseFrame (rs : list renderable).

(** The result of a call: a handle or status, or the frame with its snapshots. *)
Inductive answer := Unit | Handle (h : Z) | Frame (rs : option (list renderable)).

Definition exec (c : call) (r : renderer) : option (renderer * answer) :=
  match c with
  | CreateColorBuffer cr w h f => x ← createColorBuffer cr w h f r; Some (x.1, Handle x.2)
  | OpenColorBuffer h => let x := openColorBuffer h r in Some (x.1, Handle x.2)
  | CloseColorBuffer h => Some (closeColorBuffer h r, Unit)
  | CreateContext t cf cr sh => x ← createRenderContext t cf cr sh r; Some (x.1, Handle x.2)
  | CreateWindow t cf cr => x ← createWindowSurface t cf cr r; Some (x.1, Handle x.2)
  | DrainContexts t => Some (drainRenderContext t r, Unit)
  | DrainWindows t => Some (drainWindowSurface t r, Unit)
  | Defer t now => Some (deferCurrentThreadResources t now r, Unit)
  | DestroyContext t now h => Some (DestroyRenderContext t now h r, Unit)
  | DestroyWindow t now h => Some (DestroyWindowSurface t now h r, Unit)
  | SetWindowColorBuffer now s cb => Some ((setWindowSurfaceColorBuffer now s cb r).1, Unit)
  | Post now cb => Some ((retainPostedColorBuffer now cb r).1, Unit)
  | Bind cur now c d rd => Some ((bindContext cur now c d rd r).1, Unit)
  | RetainFrame fr rs =>
      match retain_frame fr rs r with Some (r', o) => Some (r', Frame o) | None => None end
  | ReleaseFrame rs => Some (release_frame rs r, Unit)
  end.

(** The most handles a call can take. *)
Definition handles_of (c : call) : Z :=
  match c with
  | CreateColorBuffer _ _ _ _ | CreateContext _ _ _ _ | CreateWindow _ _ _ => 1
  | RetainFrame _ rs => Z.of_nat (length rs)
  | _ => 0
  end.

Fixpoint run (cs : list call) (r : renderer) : option renderer :=
  match cs with
  | [] => Some r
  | c :: cs' => x ← exec c r; run cs' x.1
  end.

Lemma racc_release_frame n rs r : at_most n r -> at_most n (release_frame rs r).
Proof.
  unfold release_frame. generalize (∅ : gset Z). revert r.
  induction rs as [|x rs IH]; intros r rel Hr; simpl; [done|]. case_bool_decide; [by apply IH|].
  by apply IH, racc_close.
Qed.

Lemma racc_create n cr w h f r :
  at_most n r -> 0 <= n < 2 ^ 32 - 1 -> exists r' o n', createColorBuffer cr w h f r = Some (r', o) /\
    at_most n' r' /\ n <= n' <= n + 1.
Proof.
  intros Hr Hn. unfold createColorBuffer.
  assert (Hno : exists r' o n', Some (r, 0) = Some (r', o) /\ at_most n' r' /\ n <= n' <= n + 1).
  { exists r, 0, n. split; [done|]. split; [done|]. lia. }
  destruct (_ || _) eqn:E1; [exact Hno|]. destruct (max_color_buffers <=? count r) eqn:E2; [exact Hno|].
  destruct (_ <? w); [exact Hno|]. cbv zeta. destruct (over_budget r (w * h * 8)) eqn:E3; [exact Hno|].
  destruct cr; [|exact Hno]. rewrite (genHandle_fresh r n Hr) by lia. cbn [mbind option_bind fst snd].
  eexists _, _, (n + 1). split; [done|]. split; [|lia]. bdestruct_all. by apply racc_new; try lia.
Qed.

Lemma exec_racc c n r :
  at_most n r -> 0 <= n -> n + handles_of c < 2 ^ 32 ->
  exists r' a n', exec c r = Some (r', a) /\ at_most n' r' /\ n <= n' <= n + handles_of c.
Proof.
  intros Hr Hn Hb.
  assert (Hstay : forall r' (a : answer), at_most n r' -> exists r'' a' n', Some (r', a) = Some (r'', a') /\
    at_most n' r'' /\ n <= n' <= n + 0).
  { intros r' a Hr'. exists r', a, n. split; [done|]. split; [done|]. lia. }
  destruct c as [cr w h f|h|h|t cf cr sh|t cf cr|t|t|t now|t now h|t now h|now s cb|now cb|cur now c d rd|fr rs|rs];
    cbn [exec handles_of] in *; cbv zeta; try apply Hstay;
    try by (apply racc_close || apply racc_set || apply racc_post || apply racc_release_frame).
  all: try by ((apply (stable_drain_contexts (at_most n)) || apply (stable_drain_windows (at_most n)) ||
    apply (stable_defer (at_most n)) || apply (stable_destroy_context (at_most n)) ||
    apply (stable_destroy_window (at_most n)) || apply (stable_bind (at_most n))); auto with racc).
  - destruct (racc_create n cr w h f r Hr) as (r' & o & n' & -> & ? & ?); [lia|].
    by exists r', (Handle o), n'.
  - unfold openColorBuffer. destruct (m_colorbuffers r !! h) eqn:E; [|done].
    destruct (Z.eqb_spec (refcount c) max_uint32); [done|]. by apply racc_add.
  - unfold createRenderContext. destruct cf; simpl; [|exists r, (Handle 0), n; split; [done|split; [done|lia]]].
    destruct (_ && _); [exists r, (Handle 0), n; split; [done|split; [done|lia]]|].
    destruct cr; [|exists r, (Handle 0), n; split; [done|split; [done|lia]]].
    rewrite (genHandle_fresh r n Hr) by lia. cbn [mbind option_bind fst snd].
    eexists _, _, (n + 1). split; [done|]. split; [|lia]. apply racc_thread.
    destruct (at_most_next n r Hr) as [[] Hn']. split; [|done]. split; simpl; try done.
    intros h [Hh|Hh%elem_of_singleton]%elem_of_union; [by apply acc_contexts0|lia].
  - unfold createWindowSurface. destruct cf; simpl; [|exists r, (Handle 0), n; split; [done|split; [done|lia]]].
    destruct cr; [|exists r, (Handle 0), n; split; [done|split; [done|lia]]].
    rewrite (genHandle_fresh r n Hr) by lia. cbn [mbind option_bind fst snd].
    eexists _, _, (n + 1). split; [done|]. split; [|lia]. apply racc_thread.
    destruct (at_most_next n r Hr) as [[] Hn']. split; [|done]. split; simpl; try done.
    intros h [cb [[<- _]|[_ Hh]]%lookup_insert_Some]; [lia|]. apply acc_windows0. by exists cb.
  - unfold retain_frame.
    destruct (racc_snapshot_all fr rs ∅ [] n r Hr Hn Hb) as (r' & [snaps|] & n' & -> & ? & ?).
    + by eexists r', _, n'.
    + by exists r', (Frame None), n'.
Qed.

Fixpoint handles_needed (cs : list call) : Z :=
  match cs with [] => 0 | c :: cs' => handles_of c + handles_needed cs' end.

Lemma handles_of_nonneg c : 0 <= handles_of c.
Proof. destruct c; simpl; lia. Qed.
Lemma handles_needed_nonneg cs : 0 <= handles_needed cs.
Proof.
  induction cs as [|c cs IH]; simpl; [lia|].
  pose proof (handles_of_nonneg c). lia.
Qed.

Lemma run_racc cs n r :
  at_most n r -> 0 <= n -> n + handles_needed cs < 2 ^ 32 -> exists r' n', run cs r = Some r' /\ at_most n' r'.
Proof.
  revert n r; induction cs as [|c cs IH]; intros n r Hr Hn Hb; [by exists r, n|].
  simpl in Hb.
  pose proof (handles_needed_nonneg cs).
  destruct (exec_racc c n r Hr Hn) as (r1 & a & n1 & H1 & Hr1 & Hle); [lia|].
  simpl. rewrite H1. cbn [mbind option_bind fst]. destruct (IH n1 r1 Hr1) as (r' & n' & ? & ?); [lia|lia|].
  by exists r', n'.
Qed.

(** C18: The renderer's books balance under every guest.  For any sequence of
    calls of guest threads, the composer and the transport (with any
    arguments, valid or not, and any outcome of the GL calls) that asks for
    fewer than 2^32 handles: no handle generation runs forever, the recorded
    bytes are exactly those of the live buffers and never exceed the 2 GiB
    budget, at most 128 buffers live, every reference count is between 1 and
    2^32 - 1, and no live handle is ahead of the handle counter. *)
Theorem color_buffer_accounting (cs : list call) :
  handles_needed cs < 2 ^ 32 -> exists r, run cs renderer_init = Some r /\ racc r.
Proof.
  intros Hb. destruct (run_racc cs 0 renderer_init) as (r & n & Hr & [Ha _]); [|lia|lia|by exists r].
  split; [apply racc_init|done].
Qed.

Lemma color_buffer_accounting_witness :
  exists r, run [CreateColorBuffer true 16384 16384 GL_RGBA; CreateColorBuffer true 1 1 GL_RGBA;
      CreateWindow 0 true true; SetWindowColorBuffer 0 2 1; CloseColorBuffer 1] renderer_init = Some r /\
    racc r /\ m_colorBufferBytes r = max_color_buffer_bytes.
Proof.
  destruct (color_buffer_accounting [CreateColorBuffer true 16384 16384 GL_RGBA;
    CreateColorBuffer true 1 1 GL_RGBA; CreateWindow 0 true true; SetWindowColorBuffer 0 2 1;
    CloseColorBuffer 1]) as (r & Hr & Ha); [reflexivity|].
  exists r. split; [exact Hr|]. split; [exact Ha|].
  vm_compute in Hr. injection Hr as <-. reflexivity.
Defined.

(** * Proofs: references *)

(** Windows showing a buffer, and whether it is the posted one. *)
Definition attached (r : renderer) (h : Z) : Z :=
  Z.of_nat (length (filter (fun kv : Z * Z => kv.2 = h) (map_to_list (m_windows r)))).
Definition posted (r : renderer) (h : Z) : Z :=
  if m_lastPostedColorBuffer r =? h then 1 else 0.
Definition references (r : renderer) (h : Z) : Z :=
  match m_colorbuffers r !! h with Some c => refcount c | None => 0 end.

(** The references held outside, by the guest and by queued frames, are what
    the windows and the posted slot leave. *)
Record exact (g : Z -> Z) (n : Z) (r : renderer) : Prop := {
  ex_racc : at_most n r;
  ex_refs h : h <> 0 -> references r h = g h + attached r h + posted r h;
  ex_outside h : 0 <= g h
}.

Lemma attached_nonneg r h : 0 <= attached r h.
Proof. unfold attached. lia. Qed.
Lemma posted_range r h : 0 <= posted r h <= 1.
Proof. unfold posted. case_match; lia. Qed.

Definition one_if (b : bool) : Z := if b then 1 else 0.
Lemma one_if_eqb a b : (if a =? b then 1 else 0) = one_if (bool_decide (a = b)).
Proof. by destruct (Z.eqb_spec a b); case_bool_decide. Qed.

Lemma attached_delete r w cb h :
  m_windows r !! w = Some cb ->
  attached (upd_windows r (delete w (m_windows r))) h = attached r h - one_if (bool_decide (cb = h)).
Proof.
  intros Hw. unfold attached. cbn [m_windows upd_windows].
  rewrite <- (map_to_list_delete (m_windows r) w cb Hw). rewrite filter_cons. simpl.
  case_bool_decide; [rewrite decide_True by done|rewrite decide_False by done]; simpl; lia.
Qed.

Lemma attached_insert_new r w cb h :
  m_windows r !! w = None ->
  attached (upd_windows r (<[w := cb]> (m_windows r))) h = attached r h + one_if (bool_decide (cb = h)).
Proof.
  intros Hw. unfold attached. cbn [m_windows upd_windows].
  rewrite map_to_list_insert by done. rewrite filter_cons. simpl.
  case_bool_decide; [rewrite decide_True by done|rewrite decide_False by done]; simpl; lia.
Qed.

Lemma attached_insert r w old cb h :
  m_windows r !! w = Some old ->
  attached (upd_windows r (<[w := cb]> (m_windows r))) h =
    attached r h - one_if (bool_decide (old = h)) + one_if (bool_decide (cb = h)).
Proof.
  intros Hw. rewrite <- (attached_delete r w old h Hw).
  rewrite <- (attached_insert_new (upd_windows r (delete w (m_windows r))) w cb h)
    by apply lookup_delete_eq.
  unfold attached. cbn [m_windows upd_windows]. by rewrite insert_delete_eq.
Qed.

Lemma references_drop r h c h' :
  m_colorbuffers r !! h = Some c ->
  references (drop_reference r h c) h' = references r h' - one_if (bool_decide (h = h')).
Proof.
  intros Hc. unfold references, drop_reference.
  destruct (Z.eqb_spec (refcount c - 1) 0); simpl; case_bool_decide as Hh.
  - subst h'. rewrite lookup_delete_eq, Hc. simpl. lia.
  - rewrite lookup_delete_ne by done. simpl. lia.
  - subst h'. rewrite lookup_insert_eq, Hc. simpl. lia.
  - rewrite lookup_insert_ne by done. simpl. lia.
Qed.

Lemma references_add r h c h' :
  m_colorbuffers r !! h = Some c ->
  references (add_reference r h c) h' = references r h' + one_if (bool_decide (h = h')).
Proof.
  intros Hc. unfold references, add_reference. simpl. case_bool_decide as Hh.
  - subst h'. rewrite lookup_insert_eq, Hc. simpl. lia.
  - rewrite lookup_insert_ne by done. simpl. lia.
Qed.

(** A reference that is counted is there to be released. *)
Lemma references_release n r h h' :
  at_most n r -> h <> 0 -> 0 < references r h ->
  references (releaseWindowSurfaceColorBuffer r h).1 h' =
    references r h' - one_if (bool_decide (h = h')).
Proof.
  intros [Hr _] Hh Hp. unfold releaseWindowSurfaceColorBuffer.
  destruct (Z.eqb_spec h 0); [done|]. unfold references in Hp.
  destruct (m_colorbuffers r !! h) as [c|] eqn:E; [|lia].
  apply (acc_cb _ Hr) in E as Hcb. destruct (Z.eqb_spec (refcount c) 0); [lia|].
  by apply references_drop.
Qed.

Lemma release_windows r h : m_windows (releaseWindowSurfaceColorBuffer r h).1 = m_windows r.
Proof. unfold releaseWindowSurfaceColorBuffer, drop_reference. by repeat case_match. Qed.
Lemma release_posted r h :
  m_lastPostedColorBuffer (releaseWindowSurfaceColorBuffer r h).1 = m_lastPostedColorBuffer r.
Proof. unfold releaseWindowSurfaceColorBuffer, drop_reference. by repeat case_match. Qed.

Lemma exact_destroy g n r h : exact g n r -> exact g n (destroyDeferredWindow r h).
Proof.
  intros He. pose proof He as [Hr Hrefs Hg]. split; [by apply racc_destroy| |done].
  intros h' Hh'. unfold destroyDeferredWindow.
  destruct (m_windows r !! h) as [cb|] eqn:Ew; [|by apply Hrefs]. cbv zeta.
  set (r1 := (releaseWindowSurfaceColorBuffer r cb).1).
  assert (Hw1 : m_windows r1 !! h = Some cb) by (unfold r1; by rewrite release_windows).
  rewrite (attached_delete r1 h cb h' Hw1).
  assert (Ha : attached r1 h' = attached r h') by (unfold attached, r1; by rewrite release_windows).
  assert (Hp : posted (upd_windows r1 (delete h (m_windows r1))) h' = posted r h').
  { unfold posted. simpl. unfold r1. by rewrite release_posted. }
  rewrite Ha, Hp. change (references (upd_windows r1 _) h') with (references r1 h').
  destruct (decide (cb = 0)) as [->|Hcb].
  - unfold r1, releaseWindowSurfaceColorBuffer. simpl. rewrite bool_decide_eq_false_2 by done.
    rewrite Hrefs by done. simpl. lia.
  - unfold r1. rewrite (references_release n r cb h' Hr Hcb).
    + rewrite Hrefs by done. lia.
    + rewrite Hrefs by done. pose proof (attached_delete r h cb cb Ew) as Hd.
      rewrite bool_decide_eq_true_2 in Hd by done. simpl in Hd.
      pose proof (attached_nonneg (upd_windows r (delete h (m_windows r))) cb).
      pose proof (posted_range r cb). specialize (Hg cb). lia.
Qed.

Lemma exact_deferred g n r c w : exact g n r -> exact g n (upd_deferred r c w).
Proof. intros []. split; [by apply racc_deferred|done..]. Qed.
Lemma exact_contexts g n r s : s ⊆ m_contexts r -> exact g n r -> exact g n (upd_contexts r s).
Proof. intros Hs []. split; [by apply racc_contexts|done..]. Qed.
Lemma exact_thread g n r t i : exact g n r -> exact g n (upd_thread r t i).
Proof. intros []. split; [by apply racc_thread|done..]. Qed.
Hint Resolve exact_destroy exact_deferred exact_contexts exact_thread : racc.

Definition bump (g : Z -> Z) (h d : Z) : Z -> Z := fun h' => if h =? h' then g h' + d else g h'.

Lemma bump_eq g h d h' : bump g h d h' = g h' + d * one_if (bool_decide (h = h')).
Proof. unfold bump. destruct (Z.eqb_spec h h'); case_bool_decide; simpl; try done; lia. Qed.

(** The outside takes or gives back a reference to a live buffer. *)
Lemma exact_add g n r h c :
  exact g n r -> m_colorbuffers r !! h = Some c -> refcount c <> max_uint32 ->
  exact (bump g h 1) n (add_reference r h c).
Proof.
  intros [Hr Hrefs Hg] Hc Hm. split; [by apply racc_add| |].
  - intros h' Hh'. rewrite (references_add _ _ _ _ Hc), Hrefs, bump_eq by done.
    change (attached (add_reference r h c) h') with (attached r h').
    change (posted (add_reference r h c) h') with (posted r h'). lia.
  - intros h'. rewrite bump_eq. specialize (Hg h'). case_bool_decide; simpl; lia.
Qed.

Lemma exact_close g n r h :
  exact g n r -> 0 < g h -> h <> 0 -> exact (bump g h (-1)) n (closeColorBuffer h r).
Proof.
  intros [Hr Hrefs Hg] Hpos Hh. split; [by apply racc_close| |].
  - intros h' Hh'. pose proof (Hrefs h Hh) as Href. unfold references in Href at 1.
    pose proof (attached_nonneg r h). pose proof (posted_range r h).
    unfold closeColorBuffer. destruct (m_colorbuffers r !! h) as [c|] eqn:Ec; [|lia].
    pose proof (acc_cb _ (proj1 Hr) _ _ Ec). destruct (Z.eqb_spec (refcount c) 0); [lia|].
    rewrite (references_drop _ _ _ _ Ec), Hrefs, bump_eq by done.
    assert (attached (drop_reference r h c) h' = attached r h' /\
            posted (drop_reference r h c) h' = posted r h') as [-> ->]
      by (unfold drop_reference; by case_match). lia.
  - intros h'. rewrite bump_eq. specialize (Hg h'). case_bool_decide; subst; simpl; lia.
Qed.

(** A fresh buffer belongs to the outside. *)
Lemma exact_new g n r w h f :
  exact g n r -> count r < max_color_buffers -> over_budget r (w * h * 8) = false ->
  0 < w -> 0 < h -> 0 <= n ->
  exact (bump g (n + 1) 1) (n + 1) (add_colorbuffer (upd_next r (n + 1)) (n + 1) w h f (w * h * 8)).
Proof.
  intros [Hr Hrefs Hg] Hc Ho Hw Hh Hn. split; [by apply racc_new| |].
  - intros h' Hh'. rewrite bump_eq. unfold references, add_colorbuffer. simpl.
    change (attached (upd_colorbuffers (upd_next r (n + 1)) _ _) h') with (attached r h').
    change (posted (upd_colorbuffers (upd_next r (n + 1)) _ _) h') with (posted r h').
    specialize (Hrefs h' Hh'). unfold references in Hrefs.
    destruct (m_colorbuffers r !! (n + 1)) as [c|] eqn:Ec.
    { apply (acc_cb _ (proj1 Hr)) in Ec. destruct Hr as [_ <-]. lia. }
    case_bool_decide as Heq.
    + subst h'. rewrite lookup_insert_eq. rewrite Ec in Hrefs. simpl. lia.
    + rewrite lookup_insert_ne by done. simpl. lia.
  - intros h'. rewrite bump_eq. specialize (Hg h'). case_bool_decide; simpl; lia.
Qed.

Lemma exact_set g n now s cb r : exact g n r -> exact g n (setWindowSurfaceColorBuffer now s cb r).1.
Proof.
  intros He. pose proof (racc_set n now s cb r (ex_racc _ _ _ He)) as Hrset.
  split; [done| |apply He]. clear Hrset. intros h Hh.
  unfold setWindowSurfaceColorBuffer. cbv zeta.
  set (r1 := cancelDeferredWindow s _).
  assert (H1 : exact g n r1).
  { apply exact_deferred. by apply (stable_reap (exact g n)); auto with racc. }
  clearbody r1. clear He r now. destruct H1 as [Hr Hrefs Hg].
  destruct (m_windows r1 !! s) as [old|] eqn:Ew; [|by apply Hrefs].
  destruct (negb (cb =? 0) && negb (bool_decide (is_Some (m_colorbuffers r1 !! cb)))) eqn:Ecb;
    [by apply Hrefs|].
  destruct (Z.eqb_spec old cb) as [|Hoc]; [by apply Hrefs|].
  destruct (negb (cb =? 0) && bool_decide (refcount <$> m_colorbuffers r1 !! cb = Some max_uint32));
    [by apply Hrefs|]. cbn [fst].
  set (r2 := (releaseWindowSurfaceColorBuffer r1 old).1).
  assert (Hold : forall h', references r2 h' =
    references r1 h' - (if old =? 0 then 0 else one_if (bool_decide (old = h')))).
  { intros h'. destruct (Z.eqb_spec old 0) as [->|Hne].
    - unfold r2, releaseWindowSurfaceColorBuffer. simpl. lia.
    - apply (references_release n); [done|done|]. rewrite Hrefs by done.
      pose proof (attached_delete r1 s old old Ew) as Hd. rewrite bool_decide_eq_true_2 in Hd by done.
      simpl in Hd. pose proof (attached_nonneg (upd_windows r1 (delete s (m_windows r1))) old).
      pose proof (posted_range r1 old). specialize (Hg old). lia. }
  set (r3 := if cb =? 0 then r2 else _).
  assert (Hnew : references r3 h = references r2 h + (if cb =? 0 then 0 else one_if (bool_decide (cb = h)))).
  { unfold r3. destruct (Z.eqb_spec cb 0) as [|Hne]; [lia|].
    destruct (m_colorbuffers r2 !! cb) as [c|] eqn:Ec; [by apply references_add|].
    exfalso. simpl in Ecb. apply negb_false_iff, bool_decide_eq_true in Ecb as [c Hc].
    assert (Hz : references r2 cb = 0) by (unfold references; by rewrite Ec).
    rewrite Hold in Hz. unfold references in Hz. rewrite Hc in Hz.
    pose proof (acc_cb _ (proj1 Hr) _ _ Hc).
    destruct (old =? 0); [lia|]. rewrite bool_decide_eq_false_2 in Hz by done. simpl in Hz. lia. }
  assert (Hw3 : m_windows r3 = m_windows r1 /\ m_lastPostedColorBuffer r3 = m_lastPostedColorBuffer r1).
  { assert (m_windows r2 = m_windows r1 /\ m_lastPostedColorBuffer r2 = m_lastPostedColorBuffer r1)
      by (unfold r2; by rewrite release_windows, release_posted).
    unfold r3. destruct (cb =? 0); [done|]. by destruct (m_colorbuffers r2 !! cb). }
  destruct Hw3 as [Hw3 Hp3]. change (references (upd_windows r3 _) h) with (references r3 h).
  rewrite (attached_insert r3 s old cb h) by (by rewrite Hw3).
  assert (attached r3 h = attached r1 h) as -> by (unfold attached; by rewrite Hw3).
  assert (posted (upd_windows r3 (<[s := cb]> (m_windows r3))) h = posted r1 h) as ->
    by (unfold posted; simpl; by rewrite Hp3).
  rewrite Hnew, Hold, Hrefs by done.
  destruct (Z.eqb_spec old 0), (Z.eqb_spec cb 0); subst; repeat case_bool_decide; simpl; lia.
Qed.

Lemma exact_post g n now cb r :
  exact g n r -> exact g n (retainPostedColorBuffer now cb r).1.
Proof.
  intros He. pose proof (racc_post n now cb r (ex_racc _ _ _ He)) as Hrpost.
  split; [done| |apply He]. clear Hrpost. intros h Hh.
  unfold retainPostedColorBuffer. cbv zeta.
  assert (H1 : exact g n (reapDeferredResources now r))
    by (by apply (stable_reap (exact g n)); auto with racc).
  set (r1 := reapDeferredResources now r) in *. clearbody r1. clear He r now.
  destruct H1 as [Hr Hrefs Hg].
  destruct (m_colorbuffers r1 !! cb) as [c|] eqn:Ec; [|by apply Hrefs].
  destruct (Z.eqb_spec (m_lastPostedColorBuffer r1) cb) as [|Hne]; [by apply Hrefs|].
  destruct (Z.eqb_spec (refcount c) max_uint32) as [|Hm]; [by apply Hrefs|]. simpl.
  set (prev := m_lastPostedColorBuffer r1) in *.
  set (r2 := upd_posted (add_reference r1 cb c) cb).
  assert (Hr2 : at_most n r2) by (by apply racc_posted, racc_add).
  assert (Href2 : forall h', references r2 h' = references r1 h' + one_if (bool_decide (cb = h'))).
  { intros h'. by apply (references_add r1 cb c h'). }
  assert (Hres : references (if prev =? 0 then r2 else (releaseWindowSurfaceColorBuffer r2 prev).1) h =
    references r2 h - (if prev =? 0 then 0 else one_if (bool_decide (prev = h)))).
  { destruct (Z.eqb_spec prev 0); [lia|]. apply (references_release n); [done|done|].
    rewrite Href2, Hrefs by done. unfold posted. fold prev. rewrite Z.eqb_refl.
    pose proof (attached_nonneg r1 prev). specialize (Hg prev). case_bool_decide; simpl; lia. }
  rewrite Hres, Href2, Hrefs by done.
  assert (Ha : attached (if prev =? 0 then r2 else (releaseWindowSurfaceColorBuffer r2 prev).1) h =
    attached r1 h).
  { destruct (prev =? 0); [done|]. unfold attached. by rewrite release_windows. }
  assert (Hp : posted (if prev =? 0 then r2 else (releaseWindowSurfaceColorBuffer r2 prev).1) h =
    one_if (bool_decide (cb = h))).
  { transitivity (posted r2 h); [|apply one_if_eqb].
    destruct (prev =? 0); [done|]. unfold posted. by rewrite release_posted. }
  rewrite Ha, Hp. unfold posted. fold prev.
  destruct (Z.eqb_spec prev 0), (Z.eqb_spec prev h); repeat case_bool_decide; subst; simpl; try done; lia.
Qed.

Lemma exact_next g n r : exact g n r -> exact g (n + 1) (upd_next r (n + 1)).
Proof. intros []. split; [by apply at_most_next|done..]. Qed.

(** A pointwise change of what is owed. *)
Lemma exact_owed g g' n r : (forall h, g h = g' h) -> exact g n r -> exact g' n r.
Proof.
  intros Hg [Hr Hrefs Hpos]. split; [done| |].
  - intros h Hh. rewrite <- Hg. by apply Hrefs.
  - intros h. by rewrite <- Hg.
Qed.

(** Nothing refers to a handle that has not been given out. *)
Lemma exact_unused g n r h : exact g n r -> n < h -> h <> 0 ->
  g h = 0 /\ attached r h = 0 /\ posted r h = 0.
Proof.
  intros [Hr Hrefs Hg] Hn Hh. specialize (Hrefs h Hh). specialize (Hg h).
  pose proof (attached_nonneg r h). pose proof (posted_range r h).
  unfold references in Hrefs. destruct (m_colorbuffers r !! h) eqn:E; [|lia].
  apply (acc_cb _ (proj1 Hr)) in E. destruct Hr as [_ <-]. lia.
Qed.

(** ** Snapshots *)

Definition bump_all (g : Z -> Z) (l : list Z) (d : Z) : Z -> Z :=
  fun h => if bool_decide (h ∈ l) then g h + d else g h.

Lemma bump_all_eq g l d h : bump_all g l d h = g h + d * one_if (bool_decide (h ∈ l)).
Proof. unfold bump_all. case_bool_decide; simpl; lia. Qed.

(** What the snapshot loop holds on the way: the snapshots it made are owed to
    it and to nobody else. *)
Record snapping (g : Z -> Z) (n0 n : Z) (snaps : gmap Z Z) (created : list Z) (r : renderer) : Prop := {
  sn_exact : exact (bump_all g created 1) n r;
  sn_unused h : n0 < h -> g h = 0 /\ attached r h = 0 /\ posted r h = 0;
  sn_created h : h ∈ created -> n0 < h <= n;
  sn_nodup : NoDup created;
  sn_start : 0 <= n0;
  sn_image h : h ∈ created <-> exists b, snaps !! b = Some h
}.

Lemma snapping_init g n r : exact g n r -> 0 <= n -> snapping g n n ∅ [] r.
Proof.
  intros He Hn. split; try done.
  - intros h Hh. apply (exact_unused g n); [done|lia|lia].
  - intros h []%not_elem_of_nil.
  - constructor.
  - intros h. split; [by intros []%not_elem_of_nil|]. intros [b Hb]. by rewrite lookup_empty in Hb.
Qed.

Lemma snapping_new g n0 n snaps created r b w h f :
  snapping g n0 n snaps created r -> n0 <= n -> snaps !! b = None ->
  count r < max_color_buffers -> over_budget r (w * h * 8) = false -> 0 < w -> 0 < h ->
  snapping g n0 (n + 1) (<[b := n + 1]> snaps) (created ++ [n + 1])
    (add_colorbuffer (upd_next r (n + 1)) (n + 1) w h f (w * h * 8)).
Proof.
  intros [He Hu Hc Hnd H0 Hi] Hn Hb Hcnt Ho Hw Hh.
  assert (Hout : n + 1 ∉ created) by (intros ?%Hc; lia).
  split; try done.
  - eapply exact_owed; [|by apply exact_new; [exact He|..]; lia || done].
    intros h'. rewrite bump_eq, !bump_all_eq.
    rewrite (bool_decide_ext (h' ∈ created ++ [n + 1]) (h' ∈ created \/ n + 1 = h')) by set_solver.
    destruct (decide (n + 1 = h')) as [<-|]; repeat case_bool_decide; simpl; tauto || lia.
  - intros h' [?%Hc| ->%list_elem_of_singleton]%elem_of_app; lia.
  - apply NoDup_app. split; [done|]. split; [|apply NoDup_singleton].
    by intros x Hx ->%list_elem_of_singleton.
  - intros h'. rewrite elem_of_app, list_elem_of_singleton, Hi. split.
    + intros [[b' Hb']| ->]; [|by exists b; rewrite lookup_insert_eq].
      exists b'. rewrite lookup_insert_ne; [done|]. intros ->. by rewrite Hb in Hb'.
    + intros [b' [[_ <-]|[_ Hb']]%lookup_insert_Some]; [by right|]. left. by exists b'.
Qed.

Lemma bump_all_nil g h d : bump_all g [] d h = g h.
Proof. unfold bump_all. by rewrite bool_decide_eq_false_2 by apply not_elem_of_nil. Qed.

Lemma exact_rollback g n created r :
  exact (bump_all g created 1) n r -> NoDup created ->
  (forall h, h ∈ created -> 0 < h /\ g h = 0 /\ attached r h = 0 /\ posted r h = 0) ->
  exact g n (rollback created r).
Proof.
  unfold rollback. revert r; induction created as [|h created IH]; intros r He Hnd Hc.
  { simpl. eapply exact_owed; [|exact He]. intros h. apply bump_all_nil. }
  apply NoDup_cons in Hnd as [Hout Hnd]. simpl.
  destruct (Hc h) as (Hh & Hg0 & Ha & Hp); [by left|].
  destruct He as [Hr Hrefs Hg]. pose proof (Hrefs h) as Href.
  unfold bump_all in Href. rewrite bool_decide_eq_true_2 in Href by by left.
  rewrite Hg0, Ha, Hp in Href. unfold references in Href.
  destruct (m_colorbuffers r !! h) as [c|] eqn:Ec; [|lia].
  apply IH; [|done|].
  - split; [by apply racc_delete| |].
    + intros h' Hh'. specialize (Hrefs h' Hh'). unfold references in *. simpl.
      unfold bump_all in *. destruct (decide (h = h')) as [<-|Hne].
      * rewrite lookup_delete_eq. rewrite bool_decide_eq_false_2 by done. rewrite Hg0.
        change (attached (upd_colorbuffers r _ _) h) with (attached r h).
        change (posted (upd_colorbuffers r _ _) h) with (posted r h). lia.
      * rewrite lookup_delete_ne by done. rewrite Hrefs.
        rewrite (bool_decide_ext (h' ∈ h :: created) (h' ∈ created)) by set_solver. done.
    + intros h'. specialize (Hg h'). unfold bump_all in *. destruct (decide (h' ∈ created)).
      * rewrite bool_decide_eq_true_2 by done. by rewrite bool_decide_eq_true_2 in Hg by by right.
      * rewrite bool_decide_eq_false_2 by done. destruct (decide (h = h')) as [<-|]; [lia|].
        by rewrite bool_decide_eq_false_2 in Hg by set_solver.
  - intros h' Hh'. apply Hc. by right.
Qed.

Lemma snapping_rollback g n0 n snaps created r :
  snapping g n0 n snaps created r -> exact g n (rollback created r).
Proof.
  intros [He Hu Hc Hnd H0 _]. apply exact_rollback; [done..|].
  intros h Hh. specialize (Hc h Hh). split; [lia|]. apply Hu. lia.
Qed.

Definition snapped (g : Z -> Z) (n0 n : Z) (rs : list renderable) (snaps : gmap Z Z)
    (r' : renderer) (o : option (gmap Z Z)) : Prop :=
  match o with
  | None => exact g n r'
  | Some snaps' => (exists created, snapping g n0 n snaps' created r') /\ snaps ⊆ snaps' /\
      (forall b h, snaps' !! b = Some h -> snaps !! b = Some h \/ exists x, x ∈ rs /\ buffer x = b) /\
      (forall x, x ∈ rs -> is_Some (snaps' !! buffer x))
  end.

Lemma snapshot_all_exact frozen g n0 rs n snaps created r :
  snapping g n0 n snaps created r -> n0 <= n -> n + Z.of_nat (length rs) < 2 ^ 32 ->
  exists r' o n', snapshot_all frozen rs snaps created r = Some (r', o) /\
    n <= n' <= n + Z.of_nat (length rs) /\ snapped g n0 n' rs snaps r' o.
Proof.
  revert n snaps created r; induction rs as [|x rs IH]; intros n snaps created r Hs Hn Hb.
  { exists r, (Some snaps), n. simpl. split; [done|]. split; [lia|]. split; [by exists created|].
    split; [done|]. split; [by left|]. by intros x ?%not_elem_of_nil. }
  cbn [snapshot_all]. simpl length in Hb |- *. rewrite Nat2Z.inj_succ in Hb |- *.
  destruct (snaps !! buffer x) as [h|] eqn:Ex.
  { destruct (IH n snaps created r) as (r' & o & n' & -> & ? & Ho); [done|lia|lia|].
    exists r', o, n'. split; [done|]. split; [lia|]. destruct o as [snaps'|]; [|done].
    destruct Ho as (Hc & Hsub & Hfrom & Hall). split; [done|]. split; [done|]. split.
    - intros b h' [|(y & Hy & <-)]%Hfrom; [by left|]. right. exists y. split; [by right|done].
    - intros y [->|Hy]%elem_of_cons; [|by apply Hall]. exists h. by eapply lookup_weaken. }
  assert (Hroll : exists r' o n', Some (rollback created r, @None (gmap Z Z)) = Some (r', o) /\
    n <= n' <= n + Z.succ (Z.of_nat (length rs)) /\ snapped g n0 n' (x :: rs) snaps r' o).
  { exists (rollback created r), None, n. split; [done|]. split; [lia|]. by eapply snapping_rollback. }
  destruct (m_colorbuffers r !! buffer x) as [c|] eqn:Ec; [|exact Hroll].
  destruct (_ <? cb_width c); [exact Hroll|]. cbv zeta.
  destruct ((max_color_buffers <=? count r) || _) eqn:Eb; [exact Hroll|].
  destruct (negb (frozen (buffer x))); [exact Hroll|].
  pose proof (ex_racc _ _ _ (sn_exact _ _ _ _ _ _ Hs)) as Hr. pose proof (sn_start _ _ _ _ _ _ Hs).
  rewrite (genHandle_fresh r n Hr) by lia. cbn [mbind option_bind fst snd].
  apply orb_false_elim in Eb as [Hc%Z.leb_gt Ho]. pose proof (acc_cb _ (proj1 Hr) _ _ Ec) as Hcb.
  destruct (IH (n + 1) (<[buffer x := n + 1]> snaps) (created ++ [n + 1])
    (add_colorbuffer (upd_next r (n + 1)) (n + 1) (cb_width c) (cb_height c) (cb_format c)
       (cb_width c * cb_height c * 8))) as (r' & o & n' & -> & ? & Hsn); [|lia|lia|].
  { apply snapping_new; lia || done. }
  exists r', o, n'. split; [done|]. split; [lia|]. destruct o as [snaps'|]; [|done].
  destruct Hsn as (Hcr & Hsub & Hfrom & Hall). split; [done|]. split; [|split].
  - etrans; [|exact Hsub]. by apply insert_subseteq.
  - intros b h' [[[<- _]|[_ Hl]]%lookup_insert_Some|(y & Hy & <-)]%Hfrom; [|by left|].
    + right. exists x. split; [by left|done].
    + right. exists y. split; [by right|done].
  - intros y [->|Hy]%elem_of_cons; [|by apply Hall]. exists (n + 1).
    eapply lookup_weaken; [|exact Hsub]. apply lookup_insert_eq.
Qed.

(** The renderables of a frame with their buffers replaced by snapshots. *)
Lemma retain_frame_exact frozen g n rs r :
  exact g n r -> 0 <= n -> n + Z.of_nat (length rs) < 2 ^ 32 ->
  exists r' o n', retain_frame frozen rs r = Some (r', o) /\ n <= n' <= n + Z.of_nat (length rs) /\
    exact (match o with Some f => bump_all g (buffer <$> f) 1 | None => g end) n' r' /\
    (forall f, o = Some f -> length f = length rs /\ forall h, h ∈ buffer <$> f -> n < h).
Proof.
  intros He Hn Hb. unfold retain_frame.
  destruct (snapshot_all_exact frozen g n rs n ∅ [] r) as (r' & [snaps|] & n' & -> & ? & Ho);
    [by apply snapping_init|lia|done| |].
  - eexists r', _, n'. split; [done|]. split; [done|].
    destruct Ho as ([created Hs] & _ & Hfrom & Hall).
    assert (Him : forall h, h ∈ created <-> h ∈ buffer <$> (with_snapshot snaps <$> rs)).
    { intros h. rewrite (sn_image _ _ _ _ _ _ Hs h), <- list_fmap_compose, list_elem_of_fmap. split.
      + intros [b Hbh]. destruct (Hfrom b h Hbh) as [He0|(x & Hx & <-)]; [by rewrite lookup_empty in He0|].
        exists x. simpl. by rewrite Hbh.
      + intros (x & -> & Hx). exists (buffer x). simpl. by destruct (Hall x Hx) as [h' ->]. }
    split.
    + eapply exact_owed; [|apply (sn_exact _ _ _ _ _ _ Hs)]. intros h. rewrite !bump_all_eq.
      by rewrite (bool_decide_ext (h ∈ created) (h ∈ buffer <$> (with_snapshot snaps <$> rs))).
    + intros f [= <-]. split; [by rewrite length_fmap|]. intros h Hh%Him.
      by apply (sn_created _ _ _ _ _ _ Hs).
  - exists r', None, n'. done.
Qed.

Lemma release_frame_exact n rs released g r :
  exact g n r -> (forall x, x ∈ rs -> buffer x ∉ released -> buffer x <> 0 /\ 0 < g (buffer x)) ->
  exact (fun h => if bool_decide (h ∈ released) then g h else bump_all g (buffer <$> rs) (-1) h) n
    (release_frame_from released rs r).
Proof.
  revert released g r; induction rs as [|x rs IH]; intros released g r He Hown; cbn [release_frame_from].
  { eapply exact_owed; [|exact He]. intros h. simpl. rewrite bump_all_nil. by case_bool_decide. }
  case_bool_decide as Hx.
  - eapply exact_owed; [|apply IH; [exact He|]].
    + intros h. rewrite !bump_all_eq. rewrite fmap_cons. case_bool_decide as Hh; [done|].
      rewrite (bool_decide_ext (h ∈ buffer x :: (buffer <$> rs)) (h ∈ buffer <$> rs)); [done|].
      rewrite elem_of_cons. naive_solver.
    + intros y Hy. apply Hown. by right.
  - destruct (Hown x) as [H0 Hpos]; [by left|done|].
    eapply exact_owed; [|apply IH; [apply exact_close; [exact He|done..]|]].
    + intros h. cbv beta. rewrite !bump_all_eq, !bump_eq, fmap_cons.
      rewrite (bool_decide_ext (h ∈ buffer x :: (buffer <$> rs)) (buffer x = h \/ h ∈ buffer <$> rs))
        by (rewrite elem_of_cons; naive_solver).
      rewrite (bool_decide_ext (h ∈ released ∪ {[buffer x]}) (h ∈ released \/ buffer x = h)) by set_solver.
      destruct (decide (buffer x = h)) as [<-|].
      * rewrite (bool_decide_eq_true_2 (buffer x ∈ released \/ _)) by by right.
        rewrite (bool_decide_eq_true_2 (buffer x = buffer x)) by done.
        rewrite (bool_decide_eq_false_2 (buffer x ∈ released)) by done.
        rewrite bool_decide_eq_true_2 by by left. simpl. lia.
      * repeat case_bool_decide; simpl; tauto || lia.
    + intros y Hy Hny. destruct (Hown y) as [Hy0 Hyp]; [by right|set_solver|].
      split; [done|]. rewrite bump_eq. rewrite bool_decide_eq_false_2 by set_solver. simpl. lia.
Qed.

(** ** Runs *)

(** A call may only give back what the outside holds. *)
Definition owns (g : Z -> Z) (c : call) : Prop :=
  match c with
  | CloseColorBuffer h => h <> 0 /\ 0 < g h
  | ReleaseFrame rs => forall x, x ∈ rs -> buffer x <> 0 /\ 0 < g (buffer x)
  | _ => True
  end.

(** The references the outside holds after a call's answer. *)
Definition owed (c : call) (a : answer) (g : Z -> Z) : Z -> Z :=
  match c, a with
  | CreateColorBuffer _ _ _ _, Handle h => if h =? 0 then g else bump g h 1
  | OpenColorBuffer h, Handle e => if e =? 0 then bump g h 1 else g
  | CloseColorBuffer h, _ => bump g h (-1)
  | RetainFrame _ _, Frame (Some rs) => bump_all g (buffer <$> rs) 1
  | ReleaseFrame rs, _ => bump_all g (buffer <$> rs) (-1)
  | _, _ => g
  end.

(** The runs of a guest that closes only what it opened and a composer that
    releases only the frames it retained, while handles last. *)
Inductive reach : (Z -> Z) -> renderer -> Prop :=
  | reach_init : reach (fun _ => 0) renderer_init
  | reach_call g r c r' a :
      reach g r -> owns g c -> s_nextHandle r + handles_of c < 2 ^ 32 ->
      exec c r = Some (r', a) -> reach (owed c a g) r'.

Lemma exact_stable g n c r :
  exact g n r ->
  match c with
  | DrainContexts t => exact g n (drainRenderContext t r)
  | DrainWindows t => exact g n (drainWindowSurface t r)
  | Defer t now => exact g n (deferCurrentThreadResources t now r)
  | DestroyContext t now h => exact g n (DestroyRenderContext t now h r)
  | DestroyWindow t now h => exact g n (DestroyWindowSurface t now h r)
  | Bind current now x d rd => exact g n (bindContext current now x d rd r).1
  | _ => True
  end.
Proof.
  intros He. destruct c; try done;
    [apply (stable_drain_contexts (exact g n))|apply (stable_drain_windows (exact g n))
    |apply (stable_defer (exact g n))|apply (stable_destroy_context (exact g n))
    |apply (stable_destroy_window (exact g n))|apply (stable_bind (exact g n))]; auto with racc.
Qed.

Lemma exact_create g n cr w h f r :
  exact g n r -> 0 <= n < 2 ^ 32 - 1 -> exists r' x n', createColorBuffer cr w h f r = Some (r', x) /\
    n <= n' /\ exact (if x =? 0 then g else bump g x 1) n' r'.
Proof.
  intros He Hn. pose proof (ex_racc _ _ _ He) as Hr. unfold createColorBuffer.
  assert (Hno : exists r' x n', Some (r, 0) = Some (r', x) /\ n <= n' /\
    exact (if x =? 0 then g else bump g x 1) n' r').
  { exists r, 0, n. split; [done|]. split; [lia|done]. }
  destruct (_ || _) eqn:E1; [exact Hno|]. destruct (max_color_buffers <=? count r) eqn:E2; [exact Hno|].
  destruct (_ <? w); [exact Hno|]. cbv zeta. destruct (over_budget r (w * h * 8)) eqn:E3; [exact Hno|].
  destruct cr; [|exact Hno]. rewrite (genHandle_fresh r n Hr) by lia. cbn [mbind option_bind fst snd].
  eexists _, _, (n + 1). split; [done|]. split; [lia|].
  destruct (Z.eqb_spec (n + 1) 0); [lia|]. bdestruct_all. by apply exact_new; try lia.
Qed.

Lemma exact_create_context g n t cf cr sh r :
  exact g n r -> 0 <= n < 2 ^ 32 - 1 -> exists r' x n', createRenderContext t cf cr sh r = Some (r', x) /\
    n <= n' /\ exact g n' r'.
Proof.
  intros He Hn. pose proof (ex_racc _ _ _ He) as Hr. unfold createRenderContext.
  assert (Hno : exists r' x n', Some (r, 0) = Some (r', x) /\ n <= n' /\ exact g n' r').
  { exists r, 0, n. split; [done|]. split; [lia|done]. }
  destruct (negb cf); [exact Hno|]. destruct (_ && _); [exact Hno|]. destruct cr; [|exact Hno].
  rewrite (genHandle_fresh r n Hr) by lia. cbn [mbind option_bind fst snd].
  eexists _, _, (n + 1). split; [done|]. split; [lia|]. apply exact_thread.
  destruct (exact_next g n r He) as [[[] Hn'] Hrefs Hg]. split; [|done|done]. split; [|done].
  split; simpl; try done.
  intros h [Hh|Hh%elem_of_singleton]%elem_of_union; [by apply acc_contexts0|lia].
Qed.

Lemma exact_create_window g n t cf cr r :
  exact g n r -> 0 <= n < 2 ^ 32 - 1 -> exists r' x n', createWindowSurface t cf cr r = Some (r', x) /\
    n <= n' /\ exact g n' r'.
Proof.
  intros He Hn. pose proof (ex_racc _ _ _ He) as Hr. unfold createWindowSurface.
  assert (Hno : exists r' x n', Some (r, 0) = Some (r', x) /\ n <= n' /\ exact g n' r').
  { exists r, 0, n. split; [done|]. split; [lia|done]. }
  destruct (negb cf); [exact Hno|]. destruct cr; [|exact Hno].
  rewrite (genHandle_fresh r n Hr) by lia. cbn [mbind option_bind fst snd].
  eexists _, _, (n + 1). split; [done|]. split; [lia|]. apply exact_thread.
  assert (Hnew : m_windows r !! (n + 1) = None).
  { apply eq_None_not_Some. intros Hw%(acc_windows _ (proj1 Hr)). destruct Hr. lia. }
  destruct (exact_next g n r He) as [[[] Hn'] Hrefs Hg]. split; [|intros h Hh|done].
  - split; [|done]. split; simpl; try done.
    intros h [cb [[<- _]|[_ Hh]]%lookup_insert_Some]; [lia|]. apply acc_windows0. by exists cb.
  - rewrite (attached_insert_new (upd_next r (n + 1))) by done.
    rewrite bool_decide_eq_false_2 by done. simpl.
    change (references (upd_windows _ _) h) with (references (upd_next r (n + 1)) h).
    rewrite (Hrefs h Hh). change (posted (upd_windows _ _) h) with (posted (upd_next r (n + 1)) h). lia.
Qed.

Lemma exec_exact c g n r r' a :
  exact g n r -> 0 <= n -> n + handles_of c < 2 ^ 32 -> owns g c -> exec c r = Some (r', a) ->
  exists n', 0 <= n' /\ exact (owed c a g) n' r'.
Proof.
  intros He Hn Hb Hown. pose proof (exact_stable g n c r He) as Hst.
  destruct c as [cr w h f|h|h|t cf cr sh|t cf cr|t|t|t now|t now h|t now h|now s cb|now cb|cur now c d rd|fr rs|rs];
    cbn [exec handles_of owed] in *; cbv zeta.
  - destruct (exact_create g n cr w h f r He) as (r1 & x & n' & -> & ? & ?); [lia|].
    intros [= <- <-]. exists n'. split; [lia|done].
  - intros [= <- <-]. exists n. split; [done|]. unfold openColorBuffer.
    destruct (m_colorbuffers r !! h) eqn:E; [|done].
    destruct (Z.eqb_spec (refcount c) max_uint32); [done|]. by apply exact_add.
  - intros [= <- <-]. exists n. split; [done|]. destruct Hown; by apply exact_close.
  - destruct (exact_create_context g n t cf cr sh r He) as (r1 & x & n' & -> & ? & ?); [lia|].
    intros [= <- <-]. exists n'. split; [lia|done].
  - destruct (exact_create_window g n t cf cr r He) as (r1 & x & n' & -> & ? & ?); [lia|].
    intros [= <- <-]. exists n'. split; [lia|done].
  - intros [= <- <-]. by exists n.
  - intros [= <- <-]. by exists n.
  - intros [= <- <-]. by exists n.
  - intros [= <- <-]. by exists n.
  - intros [= <- <-]. by exists n.
  - intros [= <- <-]. exists n. split; [done|]. by apply exact_set.
  - intros [= <- <-]. exists n. split; [done|]. by apply exact_post.
  - intros [= <- <-]. by exists n.
  - destruct (retain_frame_exact fr g n rs r He Hn Hb) as (r1 & o & n' & -> & ? & Ho & _).
    intros [= <- <-]. exists n'. split; [lia|]. by destruct o.
  - intros [= <- <-]. exists n. split; [done|]. eapply exact_owed; [|apply release_frame_exact; [done|]].
    + intros h. cbv beta. by rewrite bool_decide_eq_false_2 by apply not_elem_of_empty.
    + intros x Hx _. by apply Hown.
Qed.

Lemma reach_exact g r : reach g r -> exists n, 0 <= n /\ exact g n r.
Proof.
  induction 1 as [|g r c r' a _ (n & Hn & He) Hown Hb Hx].
  - exists 0. split; [done|]. split; [split; [apply racc_init|done]| |done].
    intros h Hh. unfold posted. cbn [m_lastPostedColorBuffer renderer_init].
    destruct (Z.eqb_spec 0 h); [by subst|]. unfold references, attached.
    cbn [m_colorbuffers m_windows renderer_init]. by rewrite lookup_empty, map_to_list_empty.
  - apply (exec_exact c g n r r' a); [done..| |done|done].
    destruct (ex_racc _ _ _ He) as [_ <-]. done.
Qed.

(** C2: No color buffer leaks and none is freed under a user.  Along every run
    in which the outside gives back only references it holds, the reference
    count of each buffer is exactly the references held outside (handles the
    guest created or opened, snapshots of queued frames) plus the window
    surfaces that show it plus one if it is the posted buffer; so a buffer is
    live exactly while somebody refers to it.  This covers buffer swaps,
    double posts, windows destroyed at once or by expiry, frames whose
    snapshot fails half way, and frames that show one buffer several times. *)
Theorem references_exact g r h :
  reach g r -> h <> 0 ->
  references r h = g h + attached r h + posted r h /\
  (is_Some (m_colorbuffers r !! h) <-> 0 < g h + attached r h + posted r h).
Proof.
  intros (n & _ & [Hr Hrefs _])%reach_exact Hh. specialize (Hrefs h Hh). split; [done|].
  rewrite <- Hrefs. unfold references. destruct (m_colorbuffers r !! h) as [c|] eqn:E.
  - apply (acc_cb _ (proj1 Hr)) in E. split; [lia|by eexists].
  - split; [by intros []|lia].
Qed.

(** A guest draws to a window, the composer queues a frame of it, and the guest
    closes its handle and dies: buffer 1 lives on through the posted slot, the
    snapshot (3) through the queued frame. *)
Definition example_frame : renderable := Renderable [] 1 Invalid Invalid 0.
Fixpoint script (cs : list call) (s : (Z -> Z) * renderer) : option ((Z -> Z) * renderer) :=
  match cs with
  | [] => Some s
  | c :: cs' => x ← exec c s.2; script cs' (owed c x.2 s.1, x.1)
  end.
Definition example_calls : list call :=
  [CreateColorBuffer true 8 8 GL_RGBA; CreateWindow 0 true true; SetWindowColorBuffer 0 2 1; Post 0 1;
   RetainFrame (fun _ => true) [example_frame; example_frame]; CloseColorBuffer 1; DrainWindows 0].
Fixpoint allowed (cs : list call) (s : (Z -> Z) * renderer) : Prop :=
  match cs with
  | [] => True
  | c :: cs' => owns s.1 c /\ s_nextHandle s.2 + handles_of c < 2 ^ 32 /\
      match exec c s.2 with Some (r', a) => allowed cs' (owed c a s.1, r') | None => False end
  end.

Lemma script_reach cs g r s :
  reach g r -> allowed cs (g, r) -> script cs (g, r) = Some s -> reach s.1 s.2.
Proof.
  revert g r; induction cs as [|c cs IH]; intros g r Hr Ha Hs.
  { by injection Hs as <-. }
  cbn [script allowed fst snd] in *. destruct Ha as (Ho & Hb & Ha).
  destruct (exec c r) as [[r' a]|] eqn:E; [|done].
  apply (IH (owed c a g) r'); [|done|exact Hs]. by apply (reach_call g r c r' a).
Qed.

Lemma references_exact_witness :
  exists g r, reach g r /\ references r 1 = 1 /\ references r 3 = 1 /\ g 1 = 0 /\ g 3 = 1 /\
    g 1 + attached r 1 + posted r 1 = 1.
Proof.
  destruct (script example_calls ((fun _ => 0), renderer_init)) as [[g r]|] eqn:E; [|discriminate].
  exists g, r.
  assert (Hr : reach g r).
  { apply (script_reach example_calls (fun _ => 0) renderer_init (g, r)); [apply reach_init| |exact E].
    cbn -[exec owed]. repeat (split; [done || (split; done)|]); exact I. }
  destruct (references_exact g r 1 Hr) as [He _]; [done|].
  vm_compute in E. injection E as <- <-.
  split; [exact Hr|]. split; [reflexivity|]. split; [reflexivity|]. split; [reflexivity|].
  split; [reflexivity|]. rewrite <- He. reflexivity.
Defined.

(** [genHandle] asks the contexts and the windows, not the color buffers: once
    the counter has gone round, a new buffer takes the handle of a live one,
    whose record (here with two references) is overwritten while its bytes stay
    accounted for. *)
Lemma live_handle_reused :
  let live := ColorBufferRef 2 (64 * 8) 8 8 GL_RGBA in
  let r := Renderer {[ 1 := live ]} (64 * 8) ∅ ∅ ∅ ∅ 0 max_uint32 (fun _ => ThreadInfo ∅ ∅) in
  exists r', createColorBuffer true 16 16 GL_RGBA r = Some (r', 1) /\
    m_colorbuffers r' = {[ 1 := ColorBufferRef 1 (256 * 8) 16 16 GL_RGBA ]} /\
    m_colorBufferBytes r' = 320 * 8.
Proof. eexists. split; [vm_compute; reflexivity|]. split; reflexivity. Qed.
