(* ===== verification/Viewport.v ===== *)
(** The host windows of the renderer and what they show
    (graphics/emugl/Renderer.cpp: createNativeWindow, updateHostWindow,
    renderedViewport, destroyNativeWindow, recreateWindowSurfaceLocked,
    invalidateViewportLocked, draw, and the external frame source).  EGL is
    external: the answers of its calls are functions of the number of calls made
    so far, so every behaviour of the driver is covered; surfaces are named by
    the call that created them.  GL drawing commands appear as the picture they
    put on a window. *)

From S2P Require Import Prelude Geometry Renderer.

Local Open Scope Z_scope.

(** * State *)

(** [RendererWindow]; [w_viewport] is what [setupViewport] recorded. *)
Record native := Native {
  surface : Z;
  w_viewport : rect;
  published : rendered_viewport
}.

Definition EGL_NO_SURFACE : Z := 0.
Definition new_viewport : rendered_viewport := RenderedViewport false 0 0 0 0 Empty 0 0 R0 0.

(** A frame of the external source: size and pixels. *)
Record frame := Frame {
  f_width : Z;
  f_height : Z;
  pixels : bytes
}.
Definition no_frame : frame := Frame 0 0 [].

Record external := External {
  m_externalFrameSource : bool;
  m_externalExpectedWidth : Z;
  m_externalExpectedHeight : Z;
  m_externalFrame : frame;
  m_externalFrameYDirection : Z;
  m_externalFrameFormat : Z;
  m_externalFrameType : Z;
  m_externalFrameGeneration : Z;
  m_externalUploadedGeneration : Z;
  m_externalFrameTexture : option frame    (* the texture and what it holds *)
}.

Definition GL_UNSIGNED_BYTE : Z := 5121.
Definition external_init : external := External false 0 0 no_frame 1 GL_RGBA GL_UNSIGNED_BYTE 0 0 None.

(** What a draw put into a window's back buffer. *)
Inductive picture :=
  | Blank
  | External_frame (f : frame) (inverted : bool)
  | Layers (rs : list renderable).

Record host := Host {
  m_nativeWindows : gmap Z native;
  m_pendingWindowSizes : gmap Z (Z * Z);
  m_redrawRequester : bool;
  ext : external;
  egl_calls : nat;
  live_surfaces : gset Z;
  redraws : nat;
  shown : list (Z * rect * picture)          (* window, viewport, picture *)
}.
Definition host_init : host := Host ∅ ∅ false external_init 0 ∅ 0 [].

Definition upd_native (f : gmap Z native -> gmap Z native) (s : host) : host :=
  Host (f (m_nativeWindows s)) (m_pendingWindowSizes s) (m_redrawRequester s) (ext s) (egl_calls s)
    (live_surfaces s) (redraws s) (shown s).
Definition upd_pending (f : gmap Z (Z * Z) -> gmap Z (Z * Z)) (s : host) : host :=
  Host (m_nativeWindows s) (f (m_pendingWindowSizes s)) (m_redrawRequester s) (ext s) (egl_calls s)
    (live_surfaces s) (redraws s) (shown s).
Definition upd_ext (x : external) (s : host) : host :=
  Host (m_nativeWindows s) (m_pendingWindowSizes s) (m_redrawRequester s) x (egl_calls s)
    (live_surfaces s) (redraws s) (shown s).
Definition upd_egl (n : nat) (l : gset Z) (s : host) : host :=
  Host (m_nativeWindows s) (m_pendingWindowSizes s) (m_redrawRequester s) (ext s) n l (redraws s) (shown s).
Definition upd_requester (b : bool) (s : host) : host :=
  Host (m_nativeWindows s) (m_pendingWindowSizes s) b (ext s) (egl_calls s)
    (live_surfaces s) (redraws s) (shown s).
Definition upd_shown (e : Z * rect * picture) (s : host) : host :=
  Host (m_nativeWindows s) (m_pendingWindowSizes s) (m_redrawRequester s) (ext s) (egl_calls s)
    (live_surfaces s) (redraws s) (shown s ++ [e]).
(** [if (redraw) redraw();] *)
Definition redraw (s : host) : host :=
  Host (m_nativeWindows s) (m_pendingWindowSizes s) (m_redrawRequester s) (ext s) (egl_calls s)
    (live_surfaces s) (if m_redrawRequester s then S (redraws s) else redraws s) (shown s).

Definition put (k : Z) (w : native) (s : host) : host := upd_native <[k := w]> s.

(** * EGL *)

(** The driver: does the n-th call create a surface, make current, what does a
    query return, and does a swap succeed ([None]) or with which error fail. *)
Record driver := Driver {
  creates_surface : nat -> bool;
  makes_current : nat -> bool;
  query_size : nat -> option (Z * Z);
  swap_error : nat -> option Z
}.
Definition EGL_BAD_SURFACE : Z := 12301.
Definition EGL_BAD_NATIVE_WINDOW : Z := 12299.

Section renderer.
Context (egl : driver).

Definition next_call : M host nat :=
  s ← get; _ ← modify (fun s => upd_egl (S (egl_calls s)) (live_surfaces s) s); mret (egl_calls s).

Definition eglCreateWindowSurface : M host Z :=
  n ← next_call;
  if creates_surface egl n then
    let id := Z.of_nat (S n) in
    _ ← modify (fun s => upd_egl (egl_calls s) (live_surfaces s ∪ {[id]}) s); mret id
  else mret EGL_NO_SURFACE.
Definition eglDestroySurface (x : Z) : M host unit :=
  modify (fun s => upd_egl (egl_calls s) (live_surfaces s ∖ {[x]}) s).
Definition eglMakeCurrent : M host bool := n ← next_call; mret (makes_current egl n).
(** Width and height of the drawable; a failure of either query is [None]. *)
Definition eglQuerySurface : M host (option (Z * Z)) := n ← next_call; mret (query_size egl n).
Definition eglSwapBuffers : M host (option Z) := n ← next_call; mret (swap_error egl n).

(** * Windows *)

Definition set_published (w : native) (p : rendered_viewport) : native :=
  Native (surface w) (w_viewport w) p.
Definition set_surface (w : native) (x : Z) : native := Native x (w_viewport w) (published w).

Definition invalidateViewport (w : native) : M host native :=
  q ← (if surface w =? EGL_NO_SURFACE then mret None else eglQuerySurface) : M host _;
  let p := published w in
  let size := default (0, 0) q in
  mret (set_published w (RenderedViewport false (window_width p) (window_height p) size.1 size.2
    (rv_viewport p) (rv_android_width p) (rv_android_height p) (rv_rotation p) (u64 (generation p + 1)))).

Definition recreateWindowSurface (w : native) : M host (native * bool) :=
  w ← invalidateViewport w;
  _ ← eglMakeCurrent;
  _ ← (if surface w =? EGL_NO_SURFACE then mret tt else eglDestroySurface (surface w));
  x ← eglCreateWindowSurface;
  let w := set_surface w x in
  if x =? EGL_NO_SURFACE then mret (w, false)
  else w ← invalidateViewport w; mret (w, true).

Definition set_window_size (p : rendered_viewport) (w h : Z) : rendered_viewport :=
  RenderedViewport (rv_valid p) w h (drawable_width p) (drawable_height p) (rv_viewport p)
    (rv_android_width p) (rv_android_height p) (rv_rotation p) (generation p).

(** The result tells whether a window is returned. *)
Definition createNativeWindow (k : Z) : M host bool :=
  s ← get;
  match m_nativeWindows s !! k with
  | Some _ => mret true
  | None =>
      let p := match m_pendingWindowSizes s !! k with
               | Some size => set_window_size new_viewport size.1 size.2
               | None => new_viewport
               end in
      _ ← modify (upd_pending (fun m => delete k m));
      x ← eglCreateWindowSurface;
      if x =? EGL_NO_SURFACE then mret false
      else
        w ← invalidateViewport (Native x Invalid p);
        ok ← eglMakeCurrent;
        if (ok : bool) then
          _ ← eglSwapBuffers; _ ← eglMakeCurrent; _ ← modify (put k w); mret true
        else _ ← eglDestroySurface x; mret false
  end.

Definition updateHostWindow (k width height : Z) : M host unit :=
  s ← get;
  match m_nativeWindows s !! k with
  | None => modify (upd_pending (fun m => <[k := (width, height)]> m))
  | Some w =>
      let p := published w in
      let geometry_changed := negb (window_width p =? width) || negb (window_height p =? height) in
      q ← (if surface w =? EGL_NO_SURFACE then mret None else eglQuerySurface);
      let drawable_known := match (q : option (Z * Z)) with Some _ => true | None => false end in
      let drawable_changed :=
        match q with
        | Some (dw, dh) => negb (drawable_width p =? dw) || negb (drawable_height p =? dh)
        | None => false
        end in
      let w := set_published w (set_window_size p width height) in
      _ ← modify (put k w);
      if rv_valid p && negb geometry_changed && drawable_known && negb drawable_changed then mret tt
      else
        w ← invalidateViewport w;
        _ ← modify (put k w);
        modify redraw
  end.

Definition set_redraw_requester (b : bool) : M host unit := modify (upd_requester b).

Definition renderedViewport (k : Z) (s : host) : option rendered_viewport :=
  w ← m_nativeWindows s !! k;
  if rv_valid (published w) then Some (published w) else None.

Definition destroyNativeWindow (k : Z) : M host unit :=
  _ ← modify (upd_pending (fun m => delete k m));
  s ← get;
  match m_nativeWindows s !! k with
  | None => mret tt
  | Some w =>
      _ ← eglMakeCurrent;
      _ ← (if surface w =? EGL_NO_SURFACE then mret tt else eglDestroySurface (surface w));
      modify (upd_native (fun m => delete k m))
  end.

(** * Drawing *)

(** The Android size: the external source's, or the layers' extent. *)
Definition source_size (x : external) (rs : list renderable) (sw sh : Z) : Z * Z :=
  let (w, h) :=
    if m_externalFrameSource x then
      (if 0 <? f_width (m_externalFrame x) then f_width (m_externalFrame x) else m_externalExpectedWidth x,
       if 0 <? f_height (m_externalFrame x) then f_height (m_externalFrame x) else m_externalExpectedHeight x)
    else
      (fold_left (fun a r => Z.max a (right_ (screen_position r))) rs 0,
       fold_left (fun a r => Z.max a (bottom_ (screen_position r))) rs 0) in
  if (w <=? 0) || (h <=? 0) then (sw, sh) else (w, h).

Definition publish (p : rendered_viewport) (sw sh aw ah : Z) (content : rect) : rendered_viewport :=
  let (ww, wh) := if (window_width p <=? 0) || (window_height p <=? 0) then (sw, sh)
                  else (window_width p, window_height p) in
  let changed := negb (rv_valid p) || negb (drawable_width p =? sw) || negb (drawable_height p =? sh) ||
    negb (rect_eqb (rv_viewport p) content) || negb (rv_android_width p =? aw) ||
    negb (rv_android_height p =? ah) || match rv_rotation p with R0 => false | _ => true end in
  RenderedViewport true ww wh sw sh content aw ah R0
    (if changed then u64 (generation p + 1) else generation p).

(** The texture of the external source, made and uploaded as needed, and the
    picture. *)
Definition upload (x : external) : external :=
  let t := default no_frame (m_externalFrameTexture x) in
  let stale := negb (m_externalUploadedGeneration x =? m_externalFrameGeneration x) in
  External (m_externalFrameSource x) (m_externalExpectedWidth x) (m_externalExpectedHeight x)
    (m_externalFrame x) (m_externalFrameYDirection x) (m_externalFrameFormat x) (m_externalFrameType x)
    (m_externalFrameGeneration x) (m_externalFrameGeneration x)
    (Some (if stale then m_externalFrame x else t)).
Definition paint (rs : list renderable) (x : external) : external * picture :=
  if m_externalFrameSource x && negb (is_empty (pixels (m_externalFrame x))) then
    let x := upload x in
    (x, External_frame (default no_frame (m_externalFrameTexture x)) (0 <? m_externalFrameYDirection x))
  else if m_externalFrameSource x then (x, Blank)
  else (x, Layers rs).

(** From a bound window on. *)
Definition present (k : Z) (w : native) (rs : list renderable) : M host bool :=
  q ← eglQuerySurface;
  match (q : option (Z * Z)) with
  | None => w ← invalidateViewport w; _ ← modify (put k w); _ ← eglMakeCurrent; mret false
  | Some (sw, sh) =>
      if (sw <=? 0) || (sh <=? 0)
      then w ← invalidateViewport w; _ ← modify (put k w); _ ← eglMakeCurrent; mret true
      else
        s ← get;
        let (aw, ah) := source_size (ext s) rs sw sh in
        let content := viewport_ (fit_transform sw sh aw ah R0) in
        let w := Native (surface w) (Rect 0 0 aw ah) (publish (published w) sw sh aw ah content) in
        _ ← modify (put k w);
        let (x, p) := paint rs (ext s) in
        _ ← modify (fun s => upd_shown (k, content, p) (upd_ext x s));
        swapped ← eglSwapBuffers;
        _ ← eglMakeCurrent;
        match (swapped : option Z) with
        | None => mret true
        | Some e =>
            if (e =? EGL_BAD_SURFACE) || (e =? EGL_BAD_NATIVE_WINDOW)
            then r ← recreateWindowSurface w; _ ← modify (put k r.1); mret false
            else mret false
        end
  end.

Definition draw (k : Z) (rs : list renderable) : M host bool :=
  s ← get;
  match m_nativeWindows s !! k with
  | None => mret false
  | Some w =>
      bound ← eglMakeCurrent;
      if (bound : bool) then present k w rs
      else
        r ← recreateWindowSurface w;
        _ ← modify (put k r.1);
        if (r.2 : bool) then
          bound ← eglMakeCurrent;
          if (bound : bool) then present k r.1 rs else mret false
        else mret false
  end.

(** * The external frame source *)

Definition enableExternalFrameSource (w h : Z) : M host unit :=
  modify (fun s => let x := ext s in
    upd_ext (External true w h no_frame (m_externalFrameYDirection x) (m_externalFrameFormat x)
      (m_externalFrameType x) 0 0 (m_externalFrameTexture x)) s).
Definition disableExternalFrameSource : M host unit :=
  modify (fun s => let x := ext s in
    upd_ext (External false (m_externalExpectedWidth x) (m_externalExpectedHeight x) no_frame
      (m_externalFrameYDirection x) (m_externalFrameFormat x) (m_externalFrameType x)
      (m_externalFrameGeneration x) (m_externalUploadedGeneration x) (m_externalFrameTexture x)) s).

Definition max_frame_bytes : Z := 64 * 1024 * 1024.
(** [memory]: the memory at the caller's pointer, or null; fewer bytes than the
    frame has are read out of bounds. *)
Definition postExternalFrame (w h y_direction format type : Z) (memory : option bytes) : M host unit :=
  match memory with
  | None => mret tt
  | Some m =>
      if (w <=? 0) || (h <=? 0) || negb (format =? GL_RGBA) || negb (type =? GL_UNSIGNED_BYTE) then mret tt
      else
        let size := u64 (u64 (w * h) * 4) in
        if max_frame_bytes <? size then mret tt
        else
          s ← get;
          if m_externalFrameSource (ext s) then
            if Z.of_nat (length m) <? size then lift Undef
            else
              _ ← modify (fun s => let x := ext s in
                upd_ext (External true (m_externalExpectedWidth x) (m_externalExpectedHeight x)
                  (Frame w h (take (Z.to_nat size) m)) y_direction format type
                  (u64 (m_externalFrameGeneration x + 1)) (m_externalUploadedGeneration x)
                  (m_externalFrameTexture x)) s);
              modify redraw
          else mret tt
  end.
End renderer.

(** * Proofs: windows and surfaces *)

(** A published viewport that input may use. *)
Definition fitted (p : rendered_viewport) : Prop :=
  0 < window_width p /\ 0 < window_height p /\ 0 < drawable_width p /\ 0 < drawable_height p /\
  0 < rv_android_width p /\ 0 < rv_android_height p /\ rv_rotation p = R0 /\
  rv_viewport p = viewport_ (fit_transform (drawable_width p) (drawable_height p)
    (rv_android_width p) (rv_android_height p) R0).

Record window_ok (b : Z) (w : native) : Prop := {
  wo_generation : 0 <= generation (published w) <= b;
  wo_fitted : rv_valid (published w) = true -> fitted (published w)
}.

(** The texture is never newer than the frame, and current when it claims so. *)
Record ext_ok (b : Z) (x : external) : Prop := {
  eo_generations : 0 <= m_externalUploadedGeneration x <= m_externalFrameGeneration x /\
    m_externalFrameGeneration x <= b;
  eo_texture : m_externalUploadedGeneration x = m_externalFrameGeneration x ->
    pixels (m_externalFrame x) <> [] -> m_externalFrameTexture x = Some (m_externalFrame x)
}.

(** The live EGL surfaces are those of the windows, one each; a size is pending
    only for a window that does not exist. *)
Record good (b : Z) (s : host) : Prop := {
  g_live x : x ∈ live_surfaces s <->
    x <> EGL_NO_SURFACE /\ exists k w, m_nativeWindows s !! k = Some w /\ surface w = x;
  g_unique k k' w w' : m_nativeWindows s !! k = Some w -> m_nativeWindows s !! k' = Some w' ->
    surface w = surface w' -> surface w <> EGL_NO_SURFACE -> k = k';
  g_calls x : x ∈ live_surfaces s -> x <= Z.of_nat (egl_calls s);
  g_pending k : is_Some (m_pendingWindowSizes s !! k) -> m_nativeWindows s !! k = None;
  g_window k w : m_nativeWindows s !! k = Some w -> window_ok b w;
  g_ext : ext_ok b (ext s)
}.

Lemma good_init : good 0 host_init.
Proof.
  split; cbn [host_init m_nativeWindows m_pendingWindowSizes live_surfaces egl_calls ext].
  - intros x. split; [set_solver|]. intros (_ & k & w & Hk & _). by rewrite lookup_empty in Hk.
  - intros k k' w w' Hk. by rewrite lookup_empty in Hk.
  - set_solver.
  - intros k [? Hk]. by rewrite lookup_empty in Hk.
  - intros k w Hk. by rewrite lookup_empty in Hk.
  - split; [|done]. simpl. lia.
Qed.

Lemma window_ok_mono b b' w : b <= b' -> window_ok b w -> window_ok b' w.
Proof. intros Hb []. split; [lia|done]. Qed.
Lemma ext_ok_mono b b' x : b <= b' -> ext_ok b x -> ext_ok b' x.
Proof. intros Hb []. split; [lia|done]. Qed.
Lemma good_mono b b' s : b <= b' -> good b s -> good b' s.
Proof.
  intros Hb []. split; try done; [|by eapply ext_ok_mono].
  intros. eapply window_ok_mono; [done|]. by eapply g_window0.
Qed.

(** The same publication, or one with a newer generation. *)
Definition newer (p p' : rendered_viewport) : Prop := p' = p \/ generation p < generation p'.
Lemma newer_trans p q r : newer p q -> newer q r -> newer p r.
Proof. unfold newer. intros [->|] [->|]; auto. right. lia. Qed.

(** What holds while a call that started in [s0] is running. *)
Record running (s0 : host) (b : Z) (s : host) : Prop := {
  ru_good : good b s;
  ru_newer k w w' : m_nativeWindows s0 !! k = Some w -> m_nativeWindows s !! k = Some w' ->
    newer (published w) (published w')
}.

Lemma running_refl b s : good b s -> running s b s.
Proof. intros Hg. split; [done|]. intros k w w' -> [= ->]. by left. Qed.
Lemma running_mono s0 b b' s : b <= b' -> running s0 b s -> running s0 b' s.
Proof. intros Hb []. split; [by eapply good_mono|done]. Qed.

(** Window [k] is in the caller's hands as [w]. *)
Definition flight (s0 : host) (b : Z) (k : Z) (w : native) (s : host) : Prop :=
  running s0 b (put k w s).

Lemma flight_take s0 b k w s : running s0 b s -> m_nativeWindows s !! k = Some w -> flight s0 b k w s.
Proof.
  intros Hr Hk. unfold flight, put, upd_native. rewrite insert_id by done. by destruct s.
Qed.
Lemma flight_put s0 b k w w' s : flight s0 b k w s -> flight s0 b k w (put k w' s).
Proof. unfold flight, put, upd_native. simpl. by rewrite insert_insert_eq. Qed.

Lemma good_calls b s n : good b s -> (egl_calls s <= n)%nat -> good b (upd_egl n (live_surfaces s) s).
Proof. intros [] Hn. split; try done. intros x Hx. specialize (g_calls0 x Hx). simpl. lia. Qed.

Lemma flight_calls s0 b k w s n :
  flight s0 b k w s -> (egl_calls s <= n)%nat -> flight s0 b k w (upd_egl n (live_surfaces s) s).
Proof. intros [Hg Hn] Hle. split; [|done]. by apply (good_calls b (put k w s)). Qed.

Lemma flight_destroy s0 b k w s :
  flight s0 b k w s ->
  flight s0 b k (set_surface w EGL_NO_SURFACE) (upd_egl (egl_calls s) (live_surfaces s ∖ {[surface w]}) s).
Proof.
  intros [[] Hnew]. split; [split|]; simpl in *.
  - intros x. rewrite elem_of_difference, elem_of_singleton, g_live0. split.
    + intros [(Hx & k' & w' & Hk & Hs) Hne]. split; [done|]. exists k', w'. split; [|done].
      rewrite lookup_insert_ne; [by rewrite lookup_insert_ne in Hk by (intros ->; rewrite lookup_insert_eq in Hk; congruence)|].
      intros ->. rewrite lookup_insert_eq in Hk. congruence.
    + intros (Hx & k' & w' & [[<- <-]|[Hne Hk]]%lookup_insert_Some & Hs); [done|].
      assert (Hk' : <[k := w]> (m_nativeWindows s) !! k' = Some w') by (by rewrite lookup_insert_ne).
      split; [split; [done|by exists k', w']|]. intros ->. apply Hne.
      apply (g_unique0 k k' w w'); [apply lookup_insert_eq|done|done|congruence].
  - intros k1 k2 w1 w2 [[<- <-]|[Hn1 H1]]%lookup_insert_Some [[<- <-]|[Hn2 H2]]%lookup_insert_Some; try done.
    intros Hs Hne. apply (g_unique0 k1 k2 w1 w2); try done; by rewrite lookup_insert_ne.
  - intros x [Hx _]%elem_of_difference. by apply g_calls0.
  - intros k' Hk. specialize (g_pending0 k' Hk). destruct (decide (k = k')) as [<-|].
    + by rewrite lookup_insert_eq in g_pending0.
    + by rewrite lookup_insert_ne in g_pending0 |- *.
  - intros k' w' [[<- <-]|[Hn Hk]]%lookup_insert_Some.
    + destruct (g_window0 k w); [apply lookup_insert_eq|by split].
    + apply (g_window0 k'). by rewrite lookup_insert_ne.
  - done.
  - intros k' w1 w2 H1 [[<- <-]|[Hn Hk]]%lookup_insert_Some.
    + apply (Hnew k w1 w); [done|apply lookup_insert_eq].
    + apply (Hnew k' w1 w2); [done|by rewrite lookup_insert_ne].
Qed.

Lemma flight_create s0 b k w s :
  flight s0 b k w s -> surface w = EGL_NO_SURFACE ->
  let id := Z.of_nat (S (egl_calls s)) in
  flight s0 b k (set_surface w id) (upd_egl (S (egl_calls s)) (live_surfaces s ∪ {[id]}) s).
Proof.
  intros [[] Hnew] Hw id. subst id. split; [split|]; simpl live_surfaces in *; simpl egl_calls in *;
    simpl m_nativeWindows in *; simpl m_pendingWindowSizes in *.
  - intros x. rewrite elem_of_union, elem_of_singleton, g_live0. split.
    + intros [(Hx & k' & w' & Hk & Hs)| ->].
      * split; [done|]. exists k', w'. split; [|done].
        rewrite lookup_insert_ne; [by rewrite lookup_insert_ne in Hk by (intros ->; rewrite lookup_insert_eq in Hk; congruence)|].
        intros ->. rewrite lookup_insert_eq in Hk. congruence.
      * split; [unfold EGL_NO_SURFACE; lia|]. eexists k, _. split; [apply lookup_insert_eq|done].
    + intros (Hx & k' & w' & [[<- <-]|[Hne Hk]]%lookup_insert_Some & Hs); [by right|].
      left. split; [done|]. exists k', w'. by rewrite lookup_insert_ne.
  - intros k1 k2 w1 w2 H1 H2 Hs Hne.
    assert (Hold : forall k' w', k <> k' -> m_nativeWindows s !! k' = Some w' ->
      surface w' <> EGL_NO_SURFACE -> surface w' <> Z.of_nat (S (egl_calls s))).
    { intros k' w' Hk' Hl Hne' He. enough (surface w' <= Z.of_nat (egl_calls s)) by lia.
      apply g_calls0, g_live0. split; [done|]. exists k', w'. by rewrite lookup_insert_ne. }
    apply lookup_insert_Some in H1 as [[<- <-]|[Hn1 H1]];
      apply lookup_insert_Some in H2 as [[<- <-]|[Hn2 H2]]; try done.
    + simpl in Hs, Hne. destruct (Hold k2 w2); congruence.
    + simpl in Hs. destruct (Hold k1 w1); congruence.
    + apply (g_unique0 k1 k2 w1 w2); try done; by rewrite lookup_insert_ne.
  - intros x [Hx| ->%elem_of_singleton]%elem_of_union; [|done]. specialize (g_calls0 x Hx). lia.
  - intros k' Hk. specialize (g_pending0 k' Hk). destruct (decide (k = k')) as [<-|].
    + by rewrite lookup_insert_eq in g_pending0.
    + by rewrite lookup_insert_ne in g_pending0 |- *.
  - intros k' w' [[<- <-]|[Hn Hk]]%lookup_insert_Some.
    + destruct (g_window0 k w); [apply lookup_insert_eq|by split].
    + apply (g_window0 k'). by rewrite lookup_insert_ne.
  - done.
  - intros k' w1 w2 H1 [[<- <-]|[Hn Hk]]%lookup_insert_Some.
    + apply (Hnew k w1 w); [done|apply lookup_insert_eq].
    + apply (Hnew k' w1 w2); [done|by rewrite lookup_insert_ne].
Qed.

(** A window with another publication. *)
Lemma flight_publish s0 b b' k w w' s :
  flight s0 b k w s -> b <= b' -> surface w' = surface w -> newer (published w) (published w') ->
  window_ok b' w' -> flight s0 b' k w' s.
Proof.
  intros [[] Hnew] Hb Hs Hn Hw. split; [split|]; simpl in *; try done.
  - intros x. rewrite g_live0. split; intros (Hx & k' & w1 & Hk & Hs1);
      (split; [done|]); apply lookup_insert_Some in Hk as [[<- <-]|[Hne Hk]].
    + exists k, w'. split; [apply lookup_insert_eq|congruence].
    + exists k', w1. by rewrite lookup_insert_ne.
    + exists k, w. split; [apply lookup_insert_eq|congruence].
    + exists k', w1. by rewrite lookup_insert_ne.
  - intros k1 k2 w1 w2 H1 H2 Hs12 Hne.
    assert (Hold : forall k' w1, <[k := w']> (m_nativeWindows s) !! k' = Some w1 ->
      exists w2, <[k := w]> (m_nativeWindows s) !! k' = Some w2 /\ surface w2 = surface w1).
    { intros k' w3 [[<- <-]|[Hn' Hk']]%lookup_insert_Some;
        [exists w; split; [apply lookup_insert_eq|done]|exists w3; by rewrite lookup_insert_ne]. }
    apply Hold in H1 as (w3 & H1 & E1). apply Hold in H2 as (w4 & H2 & E2).
    apply (g_unique0 k1 k2 w3 w4); congruence.
  - intros k' Hk. specialize (g_pending0 k' Hk). destruct (decide (k = k')) as [<-|].
    + by rewrite lookup_insert_eq in g_pending0.
    + by rewrite lookup_insert_ne in g_pending0 |- *.
  - intros k' w1 [[<- <-]|[Hne Hk]]%lookup_insert_Some; [done|]. eapply window_ok_mono; [done|].
    apply (g_window0 k'). by rewrite lookup_insert_ne.
  - by eapply ext_ok_mono.
  - intros k' w1 w2 H1 [[<- <-]|[Hne Hk]]%lookup_insert_Some.
    + eapply newer_trans; [|exact Hn]. apply (Hnew k w1 w); [done|apply lookup_insert_eq].
    + apply (Hnew k' w1 w2); [done|by rewrite lookup_insert_ne].
Qed.

Lemma flight_ok s0 b k w s : flight s0 b k w s -> window_ok b w.
Proof. intros [[] _]. apply (g_window0 k). apply lookup_insert_eq. Qed.
Lemma flight_mono s0 b b' k w s : b <= b' -> flight s0 b k w s -> flight s0 b' k w s.
Proof. apply running_mono. Qed.

(** A window without a surface that was never entered is dropped. *)
Lemma flight_drop s0 b k w s :
  flight s0 b k w s -> surface w = EGL_NO_SURFACE -> running s0 b (upd_native (fun m => delete k m) s).
Proof.
  intros [[] Hnew] Hw. split; [split|]; simpl in *; try done.
  - intros x. rewrite g_live0. split; intros (Hx & k' & w' & Hk & Hs); (split; [done|]); exists k', w'.
    + apply lookup_insert_Some in Hk as [[<- <-]|[Hne Hk]]; [congruence|]. by rewrite lookup_delete_ne.
    + apply lookup_delete_Some in Hk as [Hne Hk]. by rewrite lookup_insert_ne.
  - intros k1 k2 w1 w2 [Hn1 H1]%lookup_delete_Some [Hn2 H2]%lookup_delete_Some.
    apply g_unique0; by rewrite lookup_insert_ne.
  - intros k' Hk. specialize (g_pending0 k' Hk). destruct (decide (k = k')) as [<-|].
    + apply lookup_delete_eq.
    + rewrite lookup_delete_ne by done. by rewrite lookup_insert_ne in g_pending0.
  - intros k' w' [Hne Hk]%lookup_delete_Some. apply (g_window0 k'). by rewrite lookup_insert_ne.
  - intros k' w1 w2 H1 [Hne Hk]%lookup_delete_Some. apply (Hnew k' w1 w2); [done|].
    by rewrite lookup_insert_ne.
Qed.

(** ** The calls of a running operation *)

Section ops.
Context (egl : driver) (s0 : host) (F : host -> Prop).
Context (HF : forall s n l, F s -> F (upd_egl n l s)).

(** Window [k] is in the caller's hands, and [F] holds of the rest. *)
Definition held (b k : Z) (w : native) (s : host) : Prop := flight s0 b k w s /\ F s.

Lemma held_publish b b' k w w' s :
  held b k w s -> b <= b' -> surface w' = surface w -> newer (published w) (published w') ->
  window_ok b' w' -> held b' k w' s.
Proof. intros [Hf HFs] ????. split; [by eapply flight_publish|done]. Qed.

Lemma returns_next_call b k w :
  returns (held b k w) next_call (fun _ s => held b k w s).
Proof.
  intros s [Hf HFs]. eexists _, _. split; [reflexivity|]. split; [|by apply HF].
  apply flight_calls; [done|lia].
Qed.

Lemma returns_make_current b k w : returns (held b k w) (eglMakeCurrent egl) (fun _ s => held b k w s).
Proof. eapply returns_bind; [apply returns_next_call|]. intros n. by apply returns_ret. Qed.
Lemma returns_query b k w : returns (held b k w) (eglQuerySurface egl) (fun _ s => held b k w s).
Proof. eapply returns_bind; [apply returns_next_call|]. intros n. by apply returns_ret. Qed.
Lemma returns_swap b k w : returns (held b k w) (eglSwapBuffers egl) (fun _ s => held b k w s).
Proof. eapply returns_bind; [apply returns_next_call|]. intros n. by apply returns_ret. Qed.

Lemma returns_destroy b k w :
  returns (held b k w)
    (if surface w =? EGL_NO_SURFACE then mret tt else eglDestroySurface (surface w))
    (fun _ s => held b k (set_surface w EGL_NO_SURFACE) s).
Proof.
  destruct (Z.eqb_spec (surface w) EGL_NO_SURFACE) as [E|].
  - apply returns_ret. intros s Hs. rewrite <- E. by destruct w.
  - apply returns_modify. intros s [Hf HFs]. split; [by apply flight_destroy|by apply HF].
Qed.

Lemma returns_create b k w :
  surface w = EGL_NO_SURFACE ->
  returns (held b k w) (eglCreateWindowSurface egl) (fun x s => held b k (set_surface w x) s).
Proof.
  intros Hw s [Hf HFs]. unfold eglCreateWindowSurface.
  rewrite (M_bind_ret _ _ s (upd_egl (S (egl_calls s)) (live_surfaces s) s) (egl_calls s)) by done.
  destruct (creates_surface egl (egl_calls s)).
  - eexists _, _. split; [reflexivity|]. split; [|by apply HF, HF].
    by apply (flight_create s0 b k w s).
  - eexists _, _. split; [reflexivity|]. split; [|by apply HF].
    rewrite <- Hw. destruct w. simpl. apply flight_calls; [done|lia].
Qed.

Definition dead (w : native) : Prop := rv_valid (published w) = false.

(** [w] is the window as others know it, [w2] the same with another publication
    of the same generation. *)
Lemma returns_invalidate b k w w2 :
  surface w2 = surface w -> generation (published w2) = generation (published w) -> b + 1 < 2 ^ 64 ->
  returns (held b k w) (invalidateViewport egl w2) (fun w' s => held (b + 1) k w' s /\ dead w' /\ surface w' = surface w).
Proof.
  intros Hsf Hgen Hb. eapply returns_bind with (R := fun _ s => held b k w s).
  - destruct (surface w2 =? EGL_NO_SURFACE); [by apply returns_ret|apply returns_query].
  - intros q. apply returns_ret. intros s Hs. split; [|done].
    destruct (flight_ok _ _ _ _ _ (proj1 Hs)) as [Hg Hfit].
    assert (Hu : u64 (generation (published w2) + 1) = generation (published w) + 1)
      by (rewrite Hgen; unfold u64; apply Z.mod_small; lia).
    eapply held_publish; [exact Hs|lia|done|right; simpl; lia|]. split; simpl; [lia|done].
Qed.

Lemma returns_recreate b k w :
  b + 2 < 2 ^ 64 ->
  returns (held b k w) (recreateWindowSurface egl w) (fun r s => held (b + 2) k r.1 s /\ dead r.1).
Proof.
  intros Hb. eapply returns_bind; [apply (returns_invalidate b k w w); done || lia|]. intros w1.
  eapply returns_bind; [apply returns_pure, returns_make_current|].
  intros a. eapply returns_bind; [apply returns_pure, returns_destroy|].
  intros a'. eapply returns_bind; [by apply returns_pure, returns_create|].
  intros x. cbv zeta. destruct (x =? EGL_NO_SURFACE).
  - apply returns_ret. intros s [[Hf HFs] [Hd _]]. split; [|done]. split; [|done].
    eapply flight_mono; [|exact Hf]. lia.
  - eapply returns_bind; [eapply returns_weaken; [apply (returns_invalidate (b + 1) k (set_surface w1 x) (set_surface w1 x)); done || lia|by intros s [? _]|done]|].
    intros w2. apply returns_ret. intros s (Hs & Hd & _). split; [|done]. by replace (b + 2) with (b + 1 + 1) by lia.
Qed.
End ops.

(** ** Whole operations *)

Section operations.
Context (egl : driver).

Lemma flight_new b k p s :
  good b s -> 0 <= b -> m_nativeWindows s !! k = None -> rv_valid p = false -> generation p = 0 ->
  flight s b k (Native EGL_NO_SURFACE Invalid p) (upd_pending (fun m => delete k m) s).
Proof.
  intros [] Hb Hk Hp Hg. split; [split|]; simpl; try done.
  - intros x. rewrite g_live0. split; intros (Hx & k' & w' & Hl & Hs); (split; [done|]); exists k', w'.
    + rewrite lookup_insert_ne; [done|]. intros ->. by rewrite Hk in Hl.
    + apply lookup_insert_Some in Hl as [[<- <-]|[Hne Hl]]; [by subst x|done].
  - intros k1 k2 w1 w2 [[<- <-]|[Hn1 H1]]%lookup_insert_Some [[<- <-]|[Hn2 H2]]%lookup_insert_Some Hs Hne;
      try done; (congruence || by apply (g_unique0 k1 k2 w1 w2)).
  - intros k' [size [Hne Hl]%lookup_delete_Some]. rewrite lookup_insert_ne by done. apply g_pending0. by rewrite Hl.
  - intros k' w' [[<- <-]|[Hne Hl]]%lookup_insert_Some; [|by apply (g_window0 k')].
    split; simpl; [lia|]. congruence.
  - intros k' w1 w2 H1 [[<- <-]|[Hne Hl]]%lookup_insert_Some; [congruence|]. left. congruence.
Qed.

Lemma delete_none k s : m_nativeWindows s !! k = None -> upd_native (fun m => delete k m) s = s.
Proof. intros Hk. unfold upd_native. rewrite delete_id by done. by destruct s. Qed.

Lemma create_running b k s :
  good b s -> 0 <= b -> b + 8 < 2 ^ 64 ->
  exists s' a, createNativeWindow egl k s = (s', Ret a) /\ running s (b + 8) s'.
Proof.
  intros Hg Hb0 Hb. unfold createNativeWindow. rewrite (M_bind_ret get _ s s s eq_refl).
  destruct (m_nativeWindows s !! k) as [w|] eqn:Ek.
  { exists s, true. split; [done|]. apply (running_mono s b); [lia|]. by apply running_refl. }
  set (p := match m_pendingWindowSizes s !! k with Some _ => _ | None => _ end).
  set (F := fun s : host => m_nativeWindows s !! k = None).
  assert (H0 : held s F b k (Native EGL_NO_SURFACE Invalid p) (upd_pending (fun m => delete k m) s)).
  { split; [|done]. apply flight_new; try done; unfold p; by case_match. }
  rewrite (M_bind_ret _ _ s (upd_pending (fun m => delete k m) s) tt eq_refl).
  revert H0. generalize (upd_pending (fun m => delete k m) s). change (returns (held s F b k
    (Native EGL_NO_SURFACE Invalid p)) (x ← eglCreateWindowSurface egl;
      if x =? EGL_NO_SURFACE then mret false
      else
        w ← invalidateViewport egl (Native x Invalid p);
        ok ← eglMakeCurrent egl;
        if (ok : bool) then
          _ ← eglSwapBuffers egl; _ ← eglMakeCurrent egl; _ ← modify (put k w); mret true
        else _ ← eglDestroySurface x; mret false) (fun _ s' => running s (b + 8) s')).
  assert (Hdrop : forall b' w s1, b' <= b + 8 -> held s F b' k w s1 -> surface w = EGL_NO_SURFACE ->
    running s (b + 8) s1).
  { intros b' w s1 Hle [Hf HFs] Hw. apply (flight_drop _ _ _ _ _) in Hf; [|done].
    rewrite delete_none in Hf by done. by eapply running_mono. }
  eapply returns_bind; [by apply returns_create|]. intros x. cbv beta.
  destruct (Z.eqb_spec x EGL_NO_SURFACE) as [->|Hx].
  { apply returns_ret. intros s1 Hs. by eapply (Hdrop b); [lia|exact Hs|]. }
  eapply returns_bind; [by apply (returns_invalidate egl s F) with (w := Native x Invalid p); [done..|lia]|].
  intros w1. eapply returns_bind; [by apply returns_pure, returns_make_current|]. intros ok. cbv beta.
  destruct ok.
  - eapply returns_bind; [by apply returns_pure, returns_swap|]. intros e1.
    eapply returns_bind; [by apply returns_pure, returns_make_current|]. intros e2.
    eapply returns_bind with (R := fun _ s' => running s (b + 8) s').
    + apply returns_modify. intros s1 [[Hf _] _]. eapply running_mono; [|exact Hf]. lia.
    + intros e3. by apply returns_ret.
  - eapply returns_bind with (R := fun _ s' => running s (b + 8) s').
    + apply returns_modify. intros s1 [[Hf HFs] [_ Hw1]].
      eapply (Hdrop (b + 1) (set_surface w1 EGL_NO_SURFACE)); [lia| |done].
      split; [|done]. replace x with (surface w1) by done. by apply flight_destroy.
    + intros e3. by apply returns_ret.
Qed.

Definition tt_true : host -> Prop := fun _ => True.
Lemma held_take s0 b k w s : running s0 b s -> m_nativeWindows s !! k = Some w -> held s0 tt_true b k w s.
Proof. intros Hr Hk. split; [by apply flight_take|done]. Qed.

Lemma good_pending b s k size : good b s -> m_nativeWindows s !! k = None ->
  good b (upd_pending (fun m => <[k := size]> m) s).
Proof.
  intros [] Hk. split; try done. simpl. intros k' [x [[<- _]|[_ Hl]]%lookup_insert_Some]; [done|].
  apply g_pending0. by rewrite Hl.
Qed.
Lemma good_unpending b s k : good b s -> good b (upd_pending (fun m => delete k m) s).
Proof.
  intros []. split; try done. simpl. intros k' [x [_ Hl]%lookup_delete_Some]. apply g_pending0. by rewrite Hl.
Qed.

Lemma running_redraw s0 b s : running s0 b s -> running s0 b (redraw s).
Proof. intros [[] Hn]. by split. Qed.

(** A resize leaves a valid viewport alone exactly when nothing changed, and
    otherwise asks for a redraw. *)
Definition resized (k : Z) (s s' : host) : Prop :=
  match m_nativeWindows s !! k with
  | None => m_nativeWindows s' = m_nativeWindows s /\ redraws s' = redraws s
  | Some w => (s' = upd_egl (egl_calls s') (live_surfaces s) s /\ rv_valid (published w) = true) \/
      (renderedViewport k s' = None /\ redraws s' = if m_redrawRequester s then S (redraws s) else redraws s)
  end.

Lemma update_running b k width height s :
  good b s -> 0 <= b -> b + 8 < 2 ^ 64 ->
  exists s' a, updateHostWindow egl k width height s = (s', Ret a) /\ running s (b + 8) s' /\ resized k s s'.
Proof.
  intros Hg Hb0 Hb. unfold updateHostWindow, resized. rewrite (M_bind_ret get _ s s s eq_refl).
  destruct (m_nativeWindows s !! k) as [w|] eqn:Ek.
  2:{ eexists _, tt. split; [reflexivity|]. split; [|done]. apply (running_mono s b); [lia|].
      split; [by apply good_pending|]. by apply (running_refl b s Hg). }
  set (F := fun s1 : host => redraws s1 = redraws s /\ m_redrawRequester s1 = m_redrawRequester s).
  assert (Hq : exists q n, (if surface w =? EGL_NO_SURFACE then mret None else eglQuerySurface egl) s =
    (upd_egl n (live_surfaces s) s, Ret q) /\ (egl_calls s <= n)%nat).
  { destruct (surface w =? EGL_NO_SURFACE).
    - exists None, (egl_calls s). split; [by destruct s|lia].
    - eexists _, _. split; [reflexivity|lia]. }
  destruct Hq as (q & n & Hq & Hn). rewrite (M_bind_ret _ _ _ _ _ Hq). cbv zeta.
  set (w' := set_published w _). set (s1 := upd_egl n (live_surfaces s) s).
  rewrite (M_bind_ret (modify _) _ s1 (put k w' s1) tt eq_refl).
  assert (Hs1 : flight s b k w s1).
  { apply flight_calls; [by apply flight_take; [apply running_refl|]|done]. }
  destruct (rv_valid (published w) && _ && _ && _) eqn:Ec.
  - exists (put k w' s1), tt. split; [done|].
    apply andb_prop in Ec as [[[Hv Hg1]%andb_prop _]%andb_prop _].
    apply negb_true_iff, orb_false_elim in Hg1 as [H1%negb_false_iff%Z.eqb_eq H2%negb_false_iff%Z.eqb_eq].
    assert (Hw : w' = w).
    { unfold w', set_published, set_window_size. rewrite <- H1, <- H2. by destruct w as [? ? []]. }
    rewrite Hw. split; [by eapply running_mono; [|exact Hs1]; lia|]. left. split; [|done].
    unfold put, upd_native, s1, upd_egl. simpl. by rewrite insert_id.
  - assert (H1 : held s F b k w (put k w' s1)) by (split; [by apply flight_put|done]).
    destruct (returns_invalidate egl s F (fun _ _ _ H => H) b k w w' eq_refl eq_refl ltac:(lia)
      _ H1) as (s2 & w2 & H2 & [Hf2 [Hr2 Hq2]] & Hd & _).
    rewrite (M_bind_ret _ _ _ _ _ H2). rewrite (M_bind_ret (modify _) _ s2 (put k w2 s2) tt eq_refl).
    eexists _, tt. split; [reflexivity|].
    split; [apply (running_mono s (b + 1)); [lia|by apply running_redraw]|]. right.
    unfold redraw, renderedViewport, put, upd_native. simpl. rewrite lookup_insert_eq, Hr2, Hq2. simpl.
    by rewrite Hd.
Qed.

Lemma destroy_running b k s :
  good b s -> 0 <= b ->
  exists s' a, destroyNativeWindow egl k s = (s', Ret a) /\ running s b s' /\ m_nativeWindows s' !! k = None.
Proof.
  intros Hg Hb0. unfold destroyNativeWindow.
  set (s1 := upd_pending (fun m => delete k m) s).
  rewrite (M_bind_ret (modify (upd_pending _)) _ s s1 tt eq_refl), (M_bind_ret get _ s1 s1 s1 eq_refl).
  change (m_nativeWindows s1) with (m_nativeWindows s).
  assert (Hr : running s b s1).
  { split; [by apply good_unpending|]. by apply (running_refl b s Hg). }
  destruct (m_nativeWindows s !! k) as [w|] eqn:Ek; [|by exists s1, tt].
  revert Hr. assert (Hk : m_nativeWindows s1 !! k = Some w) by done. revert Hk. generalize s1.
  intros s2 Hk Hr. pose proof (held_take s b k w s2 Hr Hk) as H2. revert H2. generalize s2.
  change (returns (held s tt_true b k w) (_ ← eglMakeCurrent egl;
      _ ← (if surface w =? EGL_NO_SURFACE then mret tt else eglDestroySurface (surface w));
      modify (upd_native (fun m => delete k m)))
    (fun _ s' => running s b s' /\ m_nativeWindows s' !! k = None)).
  eapply returns_bind; [by apply returns_make_current|]. intros a. cbv beta.
  eapply returns_bind; [by apply returns_destroy|]. intros a'. cbv beta.
  apply returns_modify. intros s3 [Hf _]. split; [by eapply flight_drop|]. apply lookup_delete_eq.
Qed.

(** ** Drawing *)

(** What a draw with these layers is to show. *)
Definition expected (x : external) (rs : list renderable) : picture :=
  if m_externalFrameSource x
  then if is_empty (pixels (m_externalFrame x)) then Blank
       else External_frame (m_externalFrame x) (0 <? m_externalFrameYDirection x)
  else Layers rs.

Lemma paint_expected b x rs : ext_ok b x -> (paint rs x).2 = expected x rs /\ ext_ok b (paint rs x).1.
Proof.
  intros Hx. pose proof Hx as [Hg Ht]. unfold paint, expected.
  destruct (m_externalFrameSource x); [|done]. simpl.
  destruct (is_empty (pixels (m_externalFrame x))) eqn:Ee; [done|]. cbn [negb].
  assert (Hne : pixels (m_externalFrame x) <> []) by (by destruct (pixels _)).
  assert (Ht' : (if negb (m_externalUploadedGeneration x =? m_externalFrameGeneration x)
    then m_externalFrame x else default no_frame (m_externalFrameTexture x)) = m_externalFrame x).
  { destruct (Z.eqb_spec (m_externalUploadedGeneration x) (m_externalFrameGeneration x)) as [E|]; [|done].
    simpl. by rewrite Ht. }
  rewrite Ht'. split; [done|]. split; simpl; [lia|]. intros _ _. by rewrite Ht'.
Qed.

Lemma source_size_pos x rs sw sh : 0 < sw -> 0 < sh ->
  0 < (source_size x rs sw sh).1 /\ 0 < (source_size x rs sw sh).2.
Proof.
  intros Hw Hh. unfold source_size. destruct (m_externalFrameSource x); simpl;
    match goal with |- context [if ?b then _ else _] => destruct b eqn:E end;
    try (apply orb_false_elim in E as [?%Z.leb_gt ?%Z.leb_gt]); simpl; lia.
Qed.

Lemma publish_ok b p sw sh aw ah content :
  0 <= generation p <= b -> (rv_valid p = true -> fitted p) ->
  b + 1 < 2 ^ 64 -> 0 < sw -> 0 < sh -> 0 < aw -> 0 < ah ->
  content = viewport_ (fit_transform sw sh aw ah R0) ->
  let p' := publish p sw sh aw ah content in
  0 <= generation p' <= b + 1 /\ newer p p' /\ fitted p' /\ rv_valid p' = true /\
  rv_viewport p' = content /\ (rv_android_width p', rv_android_height p') = (aw, ah) /\
  (drawable_width p', drawable_height p') = (sw, sh).
Proof.
  intros Hg Hf Hb Hsw Hsh Haw Hah Hc p'. subst p'. unfold publish.
  set (sizes := if _ || _ then (sw, sh) else _). set (changed := _ || _).
  assert (Hsz : 0 < sizes.1 /\ 0 < sizes.2).
  { unfold sizes. destruct (Z.leb_spec (window_width p) 0), (Z.leb_spec (window_height p) 0); simpl; lia. }
  assert (Hu : u64 (generation p + 1) = generation p + 1) by (unfold u64; apply Z.mod_small; lia).
  assert (Hsame : changed = false -> RenderedViewport true sizes.1 sizes.2 sw sh content aw ah R0 (generation p) = p).
  { unfold changed. intros Hch. destruct p as [v ww wh dw dh vp paw pah rot g]. simpl in *.
    repeat match goal with H : _ || _ = false |- _ => apply orb_false_elim in H as [? ?] end.
    destruct v; [|done]. destruct (Hf eq_refl) as (? & ? & _). simpl in *.
    repeat match goal with H : negb _ = false |- _ => apply negb_false_iff in H end.
    repeat match goal with H : (_ =? _) = true |- _ => apply Z.eqb_eq in H end.
    destruct rot; try done. unfold sizes. destruct (Z.leb_spec ww 0), (Z.leb_spec wh 0); try lia. simpl.
    f_equal; try done. symmetry. by apply rect_eqb_eq. }
  destruct sizes as [ww wh]. simpl in *.
  split; [destruct changed; lia|]. split; [destruct changed; [right; simpl; lia|left; by apply Hsame]|].
  split; [unfold fitted; simpl; intuition|done].
Qed.

(** What a draw of window [k] leaves: nothing shown and nothing published, or
    one picture in the viewport that fits the source into the drawable, which
    stays published unless the surface was lost in the swap. *)
Definition drawn (k : Z) (rs : list renderable) (s : host) (a : bool) (s' : host) : Prop :=
  (shown s' = shown s /\ ext s' = ext s /\ renderedViewport k s' = None) \/
  (exists p, shown s' = shown s ++ [(k, rv_viewport p, expected (ext s) rs)] /\ fitted p /\
    (rv_android_width p, rv_android_height p) =
      source_size (ext s) rs (drawable_width p) (drawable_height p) /\
    (renderedViewport k s' = Some p \/ a = false /\ renderedViewport k s' = None)).

Definition unshown (s s' : host) : Prop := shown s' = shown s /\ ext s' = ext s.

Lemma held_flight_put s0 F b k w s : held s0 F b k w s -> running s0 b (put k w s).
Proof. by intros [Hf _]. Qed.

Lemma unshown_calls s0 s n l : unshown s0 s -> unshown s0 (upd_egl n l s).
Proof. done. Qed.

(** The window was invalidated: nothing is shown. *)
Lemma dead_drawn s0 b b' k rs w s1 a :
  held s0 (unshown s0) b k w s1 -> dead w -> b <= b' ->
  running s0 b' (put k w s1) /\ drawn k rs s0 a (put k w s1).
Proof.
  intros [Hf [Hsh Hex]] Hd Hb. split; [by eapply running_mono; [|exact Hf]|].
  left. split; [done|]. split; [done|]. unfold renderedViewport, put, upd_native. simpl.
  rewrite lookup_insert_eq. simpl. by rewrite Hd.
Qed.

Lemma invalidate_drawn s0 b k rs w a :
  b + 1 < 2 ^ 64 ->
  returns (held s0 (unshown s0) b k w)
    (w ← invalidateViewport egl w; _ ← modify (put k w); _ ← eglMakeCurrent egl; mret a)
    (fun a s' => running s0 (b + 1) s' /\ drawn k rs s0 a s').
Proof.
  intros Hb. eapply returns_bind.
  { apply (returns_invalidate egl s0 (unshown s0) (unshown_calls s0) b k w w); done. }
  intros w'. cbv beta. eapply returns_bind with (R := fun _ s' => held s0 (unshown s0) (b + 1) k w' s' /\
    m_nativeWindows s' !! k = Some w' /\ dead w').
  { apply returns_modify. intros s1 ([Hf HF] & Hd & _). split; [|split; [apply lookup_insert_eq|done]].
    split; [by apply flight_put|done]. }
  intros [].
  intros s1 ([Hf HF] & Hk & Hd). eexists _, a. split; [reflexivity|].
  assert (Hp : put k w' s1 = s1) by (unfold put, upd_native; rewrite insert_id by done; by destruct s1).
  assert (Hc : held s0 (unshown s0) (b + 1) k w' (upd_egl (S (egl_calls s1)) (live_surfaces s1) s1)).
  { split; [|done]. apply flight_calls; [done|lia]. }
  destruct (dead_drawn s0 (b + 1) (b + 1) k rs w' _ a Hc Hd) as [Hr Hdr]; [lia|].
  change (put k w' (upd_egl (S (egl_calls s1)) (live_surfaces s1) s1)) with
    (upd_egl (S (egl_calls (put k w' s1))) (live_surfaces (put k w' s1)) (put k w' s1)) in Hr, Hdr.
  by rewrite Hp in Hr, Hdr.
Qed.

Lemma flight_shown s0 b k w s e x :
  flight s0 b k w s -> ext_ok b x -> flight s0 b k w (upd_shown e (upd_ext x s)).
Proof. intros [[] Hn] Hx. split; [by split|done]. Qed.

(** The frame after the picture is drawn. *)
Definition shown_in (s0 : host) (k : Z) (rs : list renderable) (v : rect) (s : host) : Prop :=
  shown s = shown s0 ++ [(k, v, expected (ext s0) rs)].

Lemma present_drawn b k w rs s0 :
  0 <= b -> b + 8 < 2 ^ 64 ->
  returns (held s0 (unshown s0) (b + 2) k w) (present egl k w rs)
    (fun a s' => running s0 (b + 8) s' /\ drawn k rs s0 a s').
Proof.
  intros Hb0 Hb. unfold present.
  assert (Hinv : forall a, returns (held s0 (unshown s0) (b + 2) k w)
    (w ← invalidateViewport egl w; _ ← modify (put k w); _ ← eglMakeCurrent egl; mret a)
    (fun a s' => running s0 (b + 8) s' /\ drawn k rs s0 a s')).
  { intros a. eapply returns_weaken; [apply (invalidate_drawn s0 (b + 2) k rs w a); lia|done|].
    intros a' s' [Hr Hd]. split; [|done]. eapply running_mono; [|exact Hr]. lia. }
  eapply returns_bind; [by apply returns_query|]. intros q. cbv beta.
  destruct q as [[sw sh]|]; [|apply Hinv].
  destruct ((sw <=? 0) || (sh <=? 0)) eqn:Es; [apply Hinv|]. clear Hinv.
  apply orb_false_elim in Es as [Hsw%Z.leb_gt Hsh%Z.leb_gt].
  intros s1 [Hf [Hshn Hex]]. rewrite (M_bind_ret get _ s1 s1 s1 eq_refl). rewrite Hex.
  destruct (source_size_pos (ext s0) rs sw sh Hsw Hsh) as [Haw Hah].
  destruct (source_size (ext s0) rs sw sh) as [aw ah] eqn:Esrc. cbv zeta. simpl in Haw, Hah.
  set (content := viewport_ _). set (w1 := Native _ _ _).
  destruct (flight_ok _ _ _ _ _ Hf) as [Hgen Hfit].
  destruct (publish_ok (b + 2) (published w) sw sh aw ah content) as (Hg1 & Hnew & Hfit1 & Hv1 & Hc1 & Ha1 & Hd1);
    try done; [lia|].
  assert (Hf1 : flight s0 (b + 3) k w1 (put k w1 s1)).
  { apply flight_put. eapply flight_publish; [exact Hf|lia|done|done|]. split; [|done]. simpl.
    by replace (b + 3) with (b + 2 + 1) by lia. }
  rewrite (M_bind_ret (modify (put _ _)) _ s1 (put k w1 s1) tt eq_refl).
  assert (Hext : ext_ok (b + 3) (ext s0)).
  { rewrite <- Hex. destruct Hf1 as [[] _]. done. }
  destruct (paint_expected _ _ rs Hext) as [Hp Hx]. destruct (paint rs (ext s0)) as [x p]. simpl in Hp, Hx.
  subst p.
  set (s2 := upd_shown (k, content, expected (ext s0) rs) (upd_ext x (put k w1 s1))).
  rewrite (M_bind_ret (modify _) _ (put k w1 s1) s2 tt eq_refl).
  set (F := fun s : host => shown s = shown s0 ++ [(k, content, expected (ext s0) rs)] /\
    m_nativeWindows s !! k = Some w1).
  assert (HF : forall s n l, F s -> F (upd_egl n l s)) by done.
  assert (H2 : held s0 F (b + 3) k w1 s2).
  { split; [by apply flight_shown|]. split; [|apply lookup_insert_eq]. simpl. by rewrite Hshn. }
  assert (Hdrawn : forall s' a, shown s' = shown s0 ++ [(k, content, expected (ext s0) rs)] ->
    renderedViewport k s' = Some (published w1) \/ a = false /\ renderedViewport k s' = None ->
    drawn k rs s0 a s').
  { intros s' a Hs' Hr'. right. exists (published w1). simpl published. rewrite Hc1, Ha1.
    injection Hd1 as -> ->. done. }
  assert (Hstay : forall s' a, held s0 F (b + 3) k w1 s' -> running s0 (b + 8) s' /\ drawn k rs s0 a s').
  { intros s' a [Hf' [Hs' Hl']]. split.
    - eapply (running_mono s0 (b + 3)); [lia|]. unfold flight, put, upd_native in Hf'.
      rewrite insert_id in Hf' by done. by destruct s'.
    - apply Hdrawn; [done|]. left. unfold renderedViewport. rewrite Hl'. simpl. by rewrite Hv1. }
  clearbody s2. clear Hf Hf1 Hshn Hex s1 Hgen Hfit. revert H2. generalize s2.
  apply (fun H => H : returns _ _ _).
  eapply returns_bind; [by apply (returns_swap egl s0 F HF)|]. intros e. cbv beta.
  eapply returns_bind; [by apply (returns_make_current egl s0 F HF)|]. intros e'. cbv beta.
  destruct e as [e|]; [|by apply returns_ret; auto].
  destruct (_ || _); [|by apply returns_ret; auto].
  eapply returns_bind; [by apply (returns_recreate egl s0 F HF); lia|]. intros [w2 ok]. cbv beta.
  intros s3 [[Hf3 [Hs3 _]] Hd3]. eexists _, false. split; [reflexivity|]. split.
  - eapply running_mono; [|exact Hf3]. lia.
  - apply Hdrawn; [done|]. right. split; [done|]. unfold renderedViewport, put, upd_native.
    cbn [m_nativeWindows fst] in *. rewrite lookup_insert_eq. simpl. by rewrite Hd3.
Qed.

Lemma draw_running b k rs s :
  good b s -> 0 <= b -> b + 8 < 2 ^ 64 ->
  exists s' a, draw egl k rs s = (s', Ret a) /\ running s (b + 8) s' /\ drawn k rs s a s' /\
    (m_nativeWindows s !! k = None -> a = false /\ s' = s).
Proof.
  intros Hg Hb0 Hb. unfold draw. rewrite (M_bind_ret get _ s s s eq_refl).
  destruct (m_nativeWindows s !! k) as [w|] eqn:Ek.
  2:{ exists s, false. split; [done|]. split; [apply (running_mono s b); [lia|by apply running_refl]|].
      split; [|done]. left. split; [done|]. split; [done|]. unfold renderedViewport. by rewrite Ek. }
  enough (H : returns (held s (unshown s) b k w) (bound ← eglMakeCurrent egl;
      if (bound : bool) then present egl k w rs
      else
        r ← recreateWindowSurface egl w;
        _ ← modify (put k r.1);
        if (r.2 : bool) then
          bound ← eglMakeCurrent egl;
          if (bound : bool) then present egl k r.1 rs else mret false
        else mret false) (fun a s' => running s (b + 8) s' /\ drawn k rs s a s')).
  { destruct (H s) as (s' & a & -> & ? & ?); [|by exists s', a].
    split; [|done]. apply flight_take; [by apply running_refl|done]. }
  eapply returns_bind; [by apply returns_make_current|]. intros bound. cbv beta. destruct bound.
  { eapply returns_weaken; [by apply (present_drawn b k w rs s)| |done]. intros s1 [Hf HF]. split; [|done].
    apply (flight_mono s b); [lia|done]. }
  eapply returns_bind; [apply (returns_recreate egl s (unshown s) (unshown_calls s)); lia|]. intros [w2 ok]. cbn [fst snd].
  eapply returns_bind with (R := fun _ s' => held s (unshown s) (b + 2) k w2 s' /\
    m_nativeWindows s' !! k = Some w2 /\ dead w2).
  { apply returns_modify. intros s1 [[Hf HF] Hd]. split; [|split; [apply lookup_insert_eq|done]].
    split; [by apply flight_put|done]. }
  intros []. set (F := fun s1 => unshown s s1 /\ m_nativeWindows s1 !! k = Some w2).
  assert (Hfail : forall s1, held s F (b + 2) k w2 s1 -> dead w2 ->
    running s (b + 8) s1 /\ drawn k rs s false s1).
  { intros s1 [Hf [HF Hk]] Hd.
    destruct (dead_drawn s (b + 2) (b + 8) k rs w2 s1 false) as [Hr Hdr]; [done|done|lia|].
    replace (put k w2 s1) with s1 in Hr, Hdr; [done|]. unfold put, upd_native. rewrite insert_id by done.
    by destruct s1. }
  assert (HF : forall s1 n l, F s1 -> F (upd_egl n l s1)) by done.
  apply returns_weaken with (P' := fun s1 => held s F (b + 2) k w2 s1 /\ dead w2)
    (Q' := fun a s' => running s (b + 8) s' /\ drawn k rs s a s'); [|by intros s1 ([? ?] & ? & ?)|done].
  destruct ok; [|apply returns_ret; intros s1 [? ?]; by apply Hfail].
  eapply returns_bind; [by apply returns_pure, (returns_make_current egl s F HF)|]. intros bound. cbv beta.
  destruct bound; [|apply returns_ret; intros s1 [? ?]; by apply Hfail].
  eapply returns_weaken; [by apply (present_drawn b k w2 rs s)| |done]. by intros s1 [[Hf [HF' _]] _].
Qed.

(** ** Runs *)

Inductive host_call :=
  | CreateNativeWindow (k : Z)
  | UpdateHostWindow (k width height : Z)
  | DestroyNativeWindow (k : Z)
  | Draw (k : Z) (rs : list renderable)
  | SetRedrawRequester (b : bool)
  | EnableExternal (w h : Z)
  | DisableExternal
  | PostExternal (w h y format type : Z) (memory : option bytes).

Definition host_exec (c : host_call) : M host unit :=
  match c with
  | CreateNativeWindow k => _ ← createNativeWindow egl k; mret tt
  | UpdateHostWindow k w h => updateHostWindow egl k w h
  | DestroyNativeWindow k => destroyNativeWindow egl k
  | Draw k rs => _ ← draw egl k rs; mret tt
  | SetRedrawRequester b => set_redraw_requester b
  | EnableExternal w h => enableExternalFrameSource w h
  | DisableExternal => disableExternalFrameSource
  | PostExternal w h y f t m => postExternalFrame w h y f t m
  end.

(** The caller of [postExternalFrame] hands over a whole frame. *)
Definition valid_call (c : host_call) : Prop :=
  match c with
  | PostExternal w h _ _ _ (Some m) => 0 < w -> 0 < h -> w * h * 4 <= Z.of_nat (length m)
  | _ => True
  end.

(** Operations that leave the windows alone. *)
Lemma running_ext b b' s x : b <= b' -> good b s -> ext_ok b' x -> running s b' (upd_ext x s).
Proof.
  intros Hb Hg Hx. apply (good_mono b b') in Hg; [|done]. split; [destruct Hg; by split|].
  intros k w w' Hk Hk'. left. simpl in Hk'. congruence.
Qed.

Lemma post_running b w h y f t m s :
  valid_call (PostExternal w h y f t m) -> good b s -> 0 <= b -> b + 8 < 2 ^ 64 ->
  exists s', postExternalFrame w h y f t m s = (s', Ret tt) /\ running s (b + 8) s'.
Proof.
  intros Hv Hg Hb0 Hb. unfold postExternalFrame.
  assert (Hno : exists s', mret (M := M host) tt s = (s', Ret tt) /\ running s (b + 8) s').
  { exists s. split; [done|]. apply (running_mono s b); [lia|by apply running_refl]. }
  destruct m as [m|]; [|exact Hno]. destruct (_ || _) eqn:E; [exact Hno|].
  repeat apply orb_false_elim in E as [E ?]. cbv zeta.
  destruct (Z.ltb_spec max_frame_bytes (u64 (u64 (w * h) * 4))) as [|Hmax]; [exact Hno|].
  rewrite (M_bind_ret get _ s s s eq_refl). destruct (m_externalFrameSource (ext s)); [|exact Hno].
  destruct (Z.ltb_spec (Z.of_nat (length m)) (u64 (u64 (w * h) * 4))) as [Hlt|].
  { exfalso. simpl in Hv. apply Z.leb_gt in E. assert (0 < h) by (by apply Z.leb_gt).
    specialize (Hv E H2). pose proof (Z.mod_le (w * h) (2 ^ 64)). pose proof (Z.mod_le (u64 (w * h) * 4) (2 ^ 64)).
    pose proof (Z.mod_pos_bound (w * h) (2 ^ 64)). unfold u64 in *. nia. }
  rewrite (M_bind_ret (modify _) _ s _ tt eq_refl). eexists. split; [reflexivity|].
  apply running_redraw. apply (running_ext b); [lia|done|]. destruct (g_ext _ _ Hg) as [[Hu Hgn] _].
  assert (u64 (m_externalFrameGeneration (ext s) + 1) = m_externalFrameGeneration (ext s) + 1) as Hm
    by (unfold u64; apply Z.mod_small; lia).
  split; simpl; rewrite Hm; lia.
Qed.

Lemma host_exec_running b c s :
  valid_call c -> good b s -> 0 <= b -> b + 8 < 2 ^ 64 ->
  exists s', host_exec c s = (s', Ret tt) /\ running s (b + 8) s'.
Proof.
  intros Hv Hg Hb0 Hb. destruct c as [k|k w h|k|k rs|r|w h| |w h y f t m]; cbn [host_exec].
  - destruct (create_running b k s Hg Hb0 Hb) as (s' & a & Hc & Hr). exists s'.
    split; [by rewrite (M_bind_ret _ _ _ _ _ Hc)|done].
  - destruct (update_running b k w h s Hg Hb0 Hb) as (s' & [] & Hc & Hr & _). by exists s'.
  - destruct (destroy_running b k s Hg Hb0) as (s' & [] & Hc & Hr & _). exists s'. split; [done|].
    by apply (running_mono s b); [lia|].
  - destruct (draw_running b k rs s Hg Hb0 Hb) as (s' & a & Hc & Hr & _). exists s'.
    split; [by rewrite (M_bind_ret _ _ _ _ _ Hc)|done].
  - eexists. split; [reflexivity|]. apply (running_mono s b); [lia|].
    split; [by destruct Hg|]. by apply (running_refl b s Hg).
  - eexists. split; [reflexivity|]. apply (running_ext b); [lia|done|]. split; [simpl; lia|done].
  - eexists. split; [reflexivity|]. apply (running_ext b); [lia|done|].
    destruct (g_ext _ _ Hg) as [Hu _]. split; [simpl; lia|done].
  - by apply (post_running b).
Qed.

Abbreviation host_run cs := (for_each host_exec cs).

Lemma host_run_good cs : forall b s,
  Forall valid_call cs -> good b s -> 0 <= b -> b + 8 * Z.of_nat (length cs) < 2 ^ 64 ->
  exists s', host_run cs s = (s', Ret tt) /\ good (b + 8 * Z.of_nat (length cs)) s'.
Proof.
  induction cs as [|c cs IH]; intros b s Hv Hg Hb0 Hb.
  { exists s. split; [done|]. by replace (b + 8 * Z.of_nat (length [])) with b by (simpl; lia). }
  apply Forall_cons in Hv as [Hc Hv]. simpl length in *. rewrite Nat2Z.inj_succ in *.
  destruct (host_exec_running b c s Hc Hg Hb0) as (s1 & H1 & [Hg1 _]); [lia|].
  destruct (IH (b + 8) s1 Hv Hg1) as (s' & H' & Hg'); [lia|lia|].
  exists s'. split; [cbn [for_each]; by rewrite (M_bind_ret _ _ _ _ _ H1)|].
  by replace (b + 8 * Z.succ (Z.of_nat (length cs))) with (b + 8 + 8 * Z.of_nat (length cs)) by lia.
Qed.
End operations.

(** C4: Over any sequence of window, drawing and frame calls and any behaviour
    of EGL, the renderer neither fails nor leaks: the live EGL surfaces are
    exactly those of its windows, one per window; a size is pending only for a
    window that does not exist yet; and every viewport that input can obtain
    has a positive window and drawable size and is the letterbox fit of the
    Android screen into the drawable. *)
Theorem published_viewports (egl : driver) (cs : list host_call) :
  Forall valid_call cs -> 8 * Z.of_nat (length cs) < 2 ^ 64 ->
  exists s, for_each (host_exec egl) cs host_init = (s, Ret tt) /\
    (forall k p, renderedViewport k s = Some p -> fitted p) /\
    (forall x, x ∈ live_surfaces s <->
       x <> EGL_NO_SURFACE /\ exists k w, m_nativeWindows s !! k = Some w /\ surface w = x) /\
    (forall k k' w w', m_nativeWindows s !! k = Some w -> m_nativeWindows s !! k' = Some w' ->
       surface w = surface w' -> surface w <> EGL_NO_SURFACE -> k = k') /\
    (forall k, is_Some (m_pendingWindowSizes s !! k) -> m_nativeWindows s !! k = None).
Proof.
  intros Hv Hb. destruct (host_run_good egl cs 0 host_init Hv good_init) as (s & Hs & []); [lia|lia|].
  exists s. split; [done|]. split; [|done].
  intros k p. unfold renderedViewport. destruct (m_nativeWindows s !! k) as [w|] eqn:Ew; [|done].
  simpl. destruct (rv_valid (published w)) eqn:Ev; [|done]. intros [= <-].
  by apply (g_window0 k w).
Qed.

(** A driver with an 800x600 drawable whose second swap loses the surface. *)
Definition example_driver : driver :=
  Driver (fun _ => true) (fun _ => true) (fun _ => Some (800, 600))
    (fun n => if Nat.eqb n 9 then Some EGL_BAD_SURFACE else None).
Definition example_layer : renderable := Renderable [] 1 (Rect 0 0 1000 500) (Rect 0 0 1000 500) 0.
Definition example_host_calls : list host_call :=
  [SetRedrawRequester true; UpdateHostWindow 7 400 300; CreateNativeWindow 7; Draw 7 [example_layer];
   EnableExternal 2 1; PostExternal 2 1 1 GL_RGBA GL_UNSIGNED_BYTE (Some (str "12345678")); Draw 7 []].

Lemma published_viewports_witness :
  exists s, for_each (host_exec example_driver) example_host_calls host_init = (s, Ret tt) /\
    (forall k p, renderedViewport k s = Some p -> fitted p) /\ redraws s = 1%nat /\
    shown s = [(7, Rect 0 100 800 500, Layers [example_layer]);
               (7, Rect 0 100 800 500, External_frame (Frame 2 1 (str "12345678")) true)] /\
    renderedViewport 7 s = Some (RenderedViewport true 400 300 800 600 (Rect 0 100 800 500) 2 1 R0 3).
Proof.
  destruct (published_viewports example_driver example_host_calls) as (s & Hs & Hf & _);
    [repeat constructor; done|done|].
  exists s. split; [exact Hs|]. split; [exact Hf|].
  vm_compute in Hs. injection Hs as <-. repeat split; reflexivity.
Defined.

(** Input never mistakes an old viewport for a new one.  Any call leaves
    the publication of a window it does not destroy untouched or gives it a
    newer generation; and a resize event keeps the viewport only when window
    and drawable are unchanged, and otherwise withdraws it and asks for the
    redraw that will publish the next one. *)
Theorem viewport_generations (egl : driver) (cs : list host_call) (c : host_call) (s : host) :
  Forall valid_call cs -> valid_call c -> 8 * Z.of_nat (length cs) + 8 < 2 ^ 64 ->
  for_each (host_exec egl) cs host_init = (s, Ret tt) ->
  exists s', host_exec egl c s = (s', Ret tt) /\
    (forall k w w', m_nativeWindows s !! k = Some w -> m_nativeWindows s' !! k = Some w' ->
       newer (published w) (published w')) /\
    (forall k width height, c = UpdateHostWindow k width height -> resized k s s').
Proof.
  intros Hv Hc Hb Hs.
  destruct (host_run_good egl cs 0 host_init Hv good_init) as (s0 & Hs0 & Hg); [lia|lia|].
  rewrite Hs in Hs0. injection Hs0 as <-.
  destruct (host_exec_running egl (0 + 8 * Z.of_nat (length cs)) c s Hc Hg) as (s' & Hc' & [_ Hn]); [lia|lia|].
  exists s'. split; [done|]. split; [done|]. intros k width height ->.
  destruct (update_running egl (0 + 8 * Z.of_nat (length cs)) k width height s Hg) as (s1 & [] & H1 & _ & Hr);
    [lia|lia|]. cbn [host_exec] in Hc'. rewrite H1 in Hc'. by injection Hc' as <-.
Qed.

Lemma viewport_generations_witness :
  exists s s', updateHostWindow example_driver 7 401 300 s = (s', Ret tt) /\ resized 7 s s' /\
      renderedViewport 7 s <> None /\ renderedViewport 7 s' = None /\ redraws s' = S (redraws s).
Proof.
  destruct (for_each (host_exec example_driver) example_host_calls host_init) as [s o] eqn:Hs.
  assert (Ho : o = Ret tt) by (vm_compute in Hs; congruence). rewrite Ho in Hs.
  destruct (viewport_generations example_driver example_host_calls (UpdateHostWindow 7 401 300) s)
    as (s' & Hs' & _ & Hr); [repeat constructor; done|done|done|exact Hs|].
  exists s, s'. split; [exact Hs'|].
  split; [exact (Hr 7 401 300 eq_refl)|].
  vm_compute in Hs. injection Hs as <-. vm_compute in Hs'. injection Hs' as <-.
  split; [discriminate|]. split; reflexivity.
Defined.

(** What a draw shows.  In any state the renderer can reach, drawing a
    window shows at most one picture, in the viewport that fits the source into
    the drawable and that is then the published one (unless the swap lost the
    surface): with an external frame source the frame last posted, or a blank
    window before the first one, never a stale texture and never the layers;
    otherwise exactly the given layers.  A draw that shows nothing publishes
    nothing. *)
Theorem draw_shows (egl : driver) (cs : list host_call) (k : Z) (rs : list renderable) (s : host) :
  Forall valid_call cs -> 8 * Z.of_nat (length cs) + 8 < 2 ^ 64 ->
  for_each (host_exec egl) cs host_init = (s, Ret tt) ->
  exists s' a, draw egl k rs s = (s', Ret a) /\ drawn k rs s a s' /\
    (m_nativeWindows s !! k = None -> a = false /\ s' = s).
Proof.
  intros Hv Hb Hs.
  destruct (host_run_good egl cs 0 host_init Hv good_init) as (s0 & Hs0 & Hg); [lia|lia|].
  rewrite Hs in Hs0. injection Hs0 as <-.
  destruct (draw_running egl (0 + 8 * Z.of_nat (length cs)) k rs s Hg) as (s' & a & Hd & _ & H); [lia|lia|].
  by exists s', a.
Qed.

Lemma draw_shows_witness :
  exists s s' a, draw example_driver 7 [example_layer] s = (s', Ret a) /\
    drawn 7 [example_layer] s a s' /\ shown s' = shown s ++
      [(7, Rect 0 100 800 500, External_frame (Frame 2 1 (str "12345678")) true)].
Proof.
  destruct (for_each (host_exec example_driver) example_host_calls host_init) as [s o] eqn:Hs.
  assert (Ho : o = Ret tt) by (vm_compute in Hs; congruence). rewrite Ho in Hs.
  destruct (draw_shows example_driver example_host_calls 7 [example_layer] s) as (s' & a & Hd & Hs' & _);
    [repeat constructor; done|done|exact Hs|].
  exists s, s', a. split; [exact Hd|]. split; [exact Hs'|].
  vm_compute in Hs. injection Hs as <-. vm_compute in Hd. injection Hd as <- <-. reflexivity.
Defined.
