(* ===== verification/Strategy.v ===== *)
(** How the layers of SurfaceFlinger are assigned to windows
    (graphics/multi_window_composer_strategy.cpp,
    graphics/single_window_composer_strategy.cpp).  A [wm::Window] is known by
    its address (0 is null), which also orders the map of windows.  Arithmetic
    on coordinates is [int]: an overflow is undefined. *)

From S2P Require Import Prelude Geometry Renderer.

Local Open Scope Z_scope.

(** [utils::string_starts_with] *)
Definition string_starts_with (text prefix : bytes) : bool :=
  bytes_eqb (take (length prefix) text) prefix.

(** A result of [int] arithmetic. *)
Definition int (z : Z) : outcome Z := if (- 2 ^ 31 <=? z) && (z <? 2 ^ 31) then Ret z else Undef.

(** * MultiWindowComposerStrategy *)

Definition surface_prefix : bytes := str "org.anbox.surface.".

(** The task a layer's name belongs to. *)
Definition task_of (name : bytes) : option Z :=
  if string_starts_with name surface_prefix then
    match scan_d (drop (length surface_prefix) name) with
    | Some t => if t =? 0 then None else Some t
    | None => None
    end
  else None.

Section multi.
(** [wm_->find_window_for_task]: the window's address, 0 if there is none. *)
Context (find_window_for_task : Z -> Z).

Definition window_of (r : renderable) : option Z :=
  t ← task_of (r_name r);
  let w := find_window_for_task t in if w =? 0 then None else Some w.

Definition add_layer (win_layers : gmap Z (list renderable)) (r : renderable) : gmap Z (list renderable) :=
  match window_of r with
  | None => win_layers
  | Some w =>
      match win_layers !! w with
      | None => <[w := [r]]> win_layers
      | Some l => <[w := l ++ [r]]> win_layers
      end
  end.

Definition layer_area (p : rect) : outcome Z :=
  w <-! int (right_ p - left_ p); h <-! int (bottom_ p - top_ p); int (w * h).

(** The first loop over a window's layers. *)
Fixpoint new_window_frame (rs : list renderable) (frame : rect) (max_layer_area : Z) : outcome rect :=
  match rs with
  | [] => Ret frame
  | r :: rs' =>
      a <-! layer_area (screen_position r);
      if a <? max_layer_area then new_window_frame rs' frame max_layer_area
      else new_window_frame rs' (screen_position r) a
  end.

(** [x - origin + crop] *)
Definition shift (x origin crop : Z) : outcome Z := d <-! int (x - origin); int (d + crop).

Definition relative (frame : rect) (r : renderable) : outcome renderable :=
  let p := screen_position r in
  let c := crop r in
  l <-! shift (left_ p) (left_ frame) (left_ c);
  t <-! shift (top_ p) (top_ frame) (top_ c);
  r' <-! shift (right_ p) (left_ frame) (left_ c);
  b <-! shift (bottom_ p) (top_ frame) (top_ c);
  Ret (set_screen_position r (Rect l t r' b)).

(** [std::for_each] with a result per element. *)
Fixpoint omapM {A B} (f : A -> outcome B) (l : list A) : outcome (list B) :=
  match l with
  | [] => Ret []
  | x :: l' => y <-! f x; ys <-! omapM f l'; Ret (y :: ys)
  end.

Definition arrange (rs : list renderable) : outcome (list renderable) :=
  frame <-! new_window_frame rs Invalid (-1); omapM (relative frame) rs.

(** The second loop, over the windows in the order of their addresses. *)
Definition arrange_window (m : outcome (gmap Z (list renderable))) (e : Z * list renderable)
    : outcome (gmap Z (list renderable)) :=
  m <-! m; l <-! arrange e.2; Ret (<[e.1 := l]> m).

Definition process_layers (rs : list renderable) : outcome (gmap Z (list renderable)) :=
  let win_layers := fold_left add_layer rs ∅ in
  fold_left arrange_window (by_key win_layers) (Ret win_layers).
End multi.

(** * SingleWindowComposerStrategy *)

Definition sprite_name : bytes := str "Sprite".
(** [window]: [find_window_for_task(0)], possibly null. *)
Definition single_process_layers (window : Z) (rs : list renderable) : gmap Z (list renderable) :=
  {[ window := filter (fun r => negb (bytes_eqb (r_name r) sprite_name)) rs ]}.

(** * Proofs *)

(** Coordinates within a 16384 pixel display never overflow. *)
Definition on_screen (p : rect) : Prop :=
  Z.abs (left_ p) <= 2 ^ 14 /\ Z.abs (top_ p) <= 2 ^ 14 /\
  Z.abs (right_ p) <= 2 ^ 14 /\ Z.abs (bottom_ p) <= 2 ^ 14.
Definition small (r : renderable) : Prop := on_screen (screen_position r) /\ on_screen (crop r).

Definition area (p : rect) : Z := width p * height p.

(** The layer the window takes its frame from: a largest one, and the last of
    those in SurfaceFlinger's order. *)
Definition frame_layer (rs : list renderable) (f : rect) : Prop :=
  (exists before r after, rs = before ++ r :: after /\ f = screen_position r /\ -1 <= area f /\
     Forall (fun x => area (screen_position x) <= area f) before /\
     Forall (fun x => area (screen_position x) < area f) after) \/
  (f = Invalid /\ Forall (fun x => area (screen_position x) < -1) rs).

Definition moved (f : rect) (r : renderable) : renderable :=
  let p := screen_position r in
  let dx := left_ (crop r) - left_ f in
  let dy := top_ (crop r) - top_ f in
  set_screen_position r (Rect (left_ p + dx) (top_ p + dy) (right_ p + dx) (bottom_ p + dy)).

Lemma int_ok z : - 2 ^ 31 <= z < 2 ^ 31 -> int z = Ret z.
Proof. intros H. unfold int. destruct (Z.leb_spec (- 2 ^ 31) z), (Z.ltb_spec z (2 ^ 31)); done || lia. Qed.

Lemma layer_area_ok p : on_screen p -> layer_area p = Ret (area p).
Proof.
  intros (? & ? & ? & ?). unfold layer_area, area, width, height.
  rewrite (int_ok (right_ p - left_ p)) by lia. cbn [obind].
  rewrite (int_ok (bottom_ p - top_ p)) by lia. cbn [obind]. apply int_ok. nia.
Qed.

Lemma shift_ok x o c : Z.abs x <= 2 ^ 14 -> Z.abs o <= 2 ^ 14 -> Z.abs c <= 2 ^ 14 ->
  shift x o c = Ret (x + (c - o)).
Proof.
  intros. unfold shift. rewrite int_ok by lia. cbn [obind]. rewrite int_ok by lia. f_equal. lia.
Qed.

Lemma relative_ok f r : on_screen f -> small r -> relative f r = Ret (moved f r).
Proof.
  intros (? & ? & ? & ?) [(? & ? & ? & ?) (? & ? & ? & ?)]. unfold relative, moved. cbv zeta.
  rewrite !shift_ok by done. cbn [obind]. done.
Qed.

Lemma omapM_ok {A B} (f : A -> outcome B) (g : A -> B) l :
  Forall (fun x => f x = Ret (g x)) l -> omapM f l = Ret (g <$> l).
Proof. induction 1 as [|x l Hx _ IH]; [done|]. cbn [omapM]. rewrite Hx. cbn [obind]. by rewrite IH. Qed.

Lemma new_window_frame_ok rs f0 m0 :
  Forall small rs -> on_screen f0 -> -1 <= m0 ->
  exists f, new_window_frame rs f0 m0 = Ret f /\ on_screen f /\
    ((exists before r after, rs = before ++ r :: after /\ f = screen_position r /\ m0 <= area f /\
        Forall (fun x => area (screen_position x) <= area f) before /\
        Forall (fun x => area (screen_position x) < area f) after) \/
     (f = f0 /\ Forall (fun x => area (screen_position x) < m0) rs)).
Proof.
  intros Hs. revert f0 m0. induction Hs as [|r rs [Hr Hc] Hs IH]; intros f0 m0 Hf Hm; cbn [new_window_frame].
  { exists f0. split; [done|]. split; [done|]. right. by split. }
  rewrite layer_area_ok by done. cbn [obind].
  destruct (Z.ltb_spec (area (screen_position r)) m0) as [Hlt|Hge].
  - destruct (IH f0 m0 Hf Hm) as (f & Hrun & Hon & [(b & x & a & -> & -> & Hmx & Hb & Ha)|[-> Hall]]).
    + exists (screen_position x). split; [done|]. split; [done|]. left. exists (r :: b), x, a.
      do 3 (split; [done|]). split; [|done]. constructor; [lia|done].
    + exists f0. split; [done|]. split; [done|]. right. split; [done|]. by constructor.
  - destruct (IH (screen_position r) (area (screen_position r)) Hr) as (f & Hrun & Hon & Hcase); [lia|].
    exists f. split; [done|]. split; [done|]. left.
    destruct Hcase as [(b & x & a & -> & -> & Hmx & Hb & Ha)|[-> Hall]].
    + exists (r :: b), x, a. do 2 (split; [done|]). split; [lia|]. split; [|done]. constructor; [lia|done].
    + exists [], r, rs. do 2 (split; [done|]). split; [lia|]. split; [constructor|done].
Qed.

Lemma arrange_ok rs :
  Forall small rs -> exists f, arrange rs = Ret (moved f <$> rs) /\ frame_layer rs f.
Proof.
  intros Hs. destruct (new_window_frame_ok rs Invalid (-1) Hs) as (f & Hrun & Hon & Hc); [|lia|].
  { unfold on_screen, Invalid. simpl. lia. }
  exists f. unfold arrange. rewrite Hrun. cbn [obind]. split; [|done].
  apply omapM_ok. eapply Forall_impl; [exact Hs|]. intros r Hr. by apply relative_ok.
Qed.

Section multi_proofs.
Context (find_window : Z -> Z).

(** The layers of window [w], in SurfaceFlinger's order. *)
Definition layers_of (rs : list renderable) (w : Z) : list renderable :=
  filter (fun r => window_of find_window r = Some w) rs.

Definition grouped (rs : list renderable) (m : gmap Z (list renderable)) : Prop :=
  forall w, m !! w = match layers_of rs w with [] => None | l => Some l end.

Lemma add_layer_grouped rs m r : grouped rs m -> grouped (rs ++ [r]) (add_layer find_window m r).
Proof.
  intros Hm w. specialize (Hm w) as Hmw. unfold layers_of in *. rewrite filter_app, filter_cons, filter_nil.
  unfold add_layer. destruct (window_of find_window r) as [w'|] eqn:Er.
  - destruct (decide (w' = w)) as [->|Hne].
    + rewrite decide_True by done. rewrite Hmw.
      destruct (filter _ rs) as [|x l] eqn:El; by rewrite lookup_insert_eq.
    + rewrite decide_False by congruence. rewrite app_nil_r, <- Hmw.
      destruct (m !! w'); by rewrite lookup_insert_ne.
  - rewrite decide_False by done. by rewrite app_nil_r, <- Hmw.
Qed.

Lemma group_ok rs done m :
  grouped done m -> grouped (done ++ rs) (fold_left (add_layer find_window) rs m).
Proof.
  revert done m; induction rs as [|r rs IH]; intros pre m Hm; simpl.
  { by rewrite app_nil_r. }
  replace (pre ++ r :: rs) with ((pre ++ [r]) ++ rs) by by rewrite <- app_assoc.
  by apply IH, add_layer_grouped.
Qed.

(** The second loop replaces each window's list by its arrangement. *)
Lemma arrange_all_ok (l : list (Z * list renderable)) m :
  NoDup l.*1 -> (forall e, e ∈ l -> m !! e.1 = Some e.2 /\ Forall small e.2) ->
  exists m', fold_left arrange_window l (Ret m) = Ret m' /\
    (forall w, w ∉ l.*1 -> m' !! w = m !! w) /\
    (forall e, e ∈ l -> exists f, m' !! e.1 = Some (moved f <$> e.2) /\ frame_layer e.2 f).
Proof.
  revert m; induction l as [|e l IH]; intros m Hnd Hl; simpl.
  { exists m. split; [done|]. split; [done|]. by intros e ?%not_elem_of_nil. }
  apply NoDup_cons in Hnd as [Hout Hnd]. destruct (Hl e) as [He Hs]; [by left|].
  destruct (arrange_ok e.2 Hs) as (f & -> & Hf). cbn [obind].
  destruct (IH (<[e.1 := moved f <$> e.2]> m) Hnd) as (m' & -> & Hoth & Hin).
  { intros e' He'. rewrite lookup_insert_ne; [apply Hl; by right|].
    intros Heq. apply Hout. rewrite Heq. by apply list_elem_of_fmap_2. }
  exists m'. split; [done|]. split.
  - intros w Hw. apply not_elem_of_cons in Hw as [Hne Hw]. rewrite Hoth by done.
    by rewrite lookup_insert_ne.
  - intros e' [->|He']%elem_of_cons; [|by apply Hin]. exists f. split; [|done].
    rewrite Hoth by done. apply lookup_insert_eq.
Qed.
End multi_proofs.

(** Multi-window composition.  For layers on a 16384 pixel display the
    strategy never overflows, and shows in each window exactly the layers named
    after a task of that window, in SurfaceFlinger's order, all moved so that
    the origin is the window's frame (plus each layer's crop offset); the frame
    is the position of a largest layer, the last of several equally large ones.
    Layers of no task, or of a task without a window, appear nowhere. *)
Theorem multi_window_layers (find_window : Z -> Z) (rs : list renderable) :
  Forall small rs ->
  exists m, process_layers find_window rs = Ret m /\
    forall w, match layers_of find_window rs w with
              | [] => m !! w = None
              | l => exists f, frame_layer l f /\ m !! w = Some (moved f <$> l)
              end.
Proof.
  intros Hs. unfold process_layers. cbv zeta.
  set (g := fold_left (add_layer find_window) rs ∅).
  assert (Hg : grouped find_window rs g) by (by apply (group_ok find_window rs [] ∅)).
  destruct (arrange_all_ok (by_key g) g) as (m & -> & Hoth & Hin).
  - rewrite by_key_perm. apply NoDup_fst_map_to_list.
  - intros [w l] He%elem_of_by_key. simpl. split; [done|]. rewrite Hg in He.
    assert (Forall small (layers_of find_window rs w)) as Hl.
    { apply Forall_forall. intros r [_ Hr]%list_elem_of_filter. by eapply Forall_forall in Hs. }
    destruct (layers_of find_window rs w); [done|]. by injection He as <-.
  - exists m. split; [done|]. intros w. specialize (Hg w). destruct (layers_of find_window rs w) as [|x l].
    + rewrite Hoth; [done|]. intros [[w' l] [-> Hw']]%list_elem_of_fmap. apply elem_of_by_key in Hw'.
      simpl in Hg. congruence.
    + destruct (Hin (w, x :: l)) as (f & Hm & Hf); [by apply elem_of_by_key|]. by exists f.
Qed.

(** Task 7 has a status bar and a dialog of equal area; the sprite and a layer
    of a task without a window are ignored. *)
Definition example_layers : list renderable :=
  [Renderable (str "org.anbox.surface.7") 1 (Rect 100 100 300 200) (Rect 0 0 200 100) 0;
   Renderable (str "Sprite") 2 (Rect 0 0 9 9) Empty 0;
   Renderable (str "org.anbox.surface.7") 3 (Rect 150 50 250 250) (Rect 5 0 105 200) 0;
   Renderable (str "org.anbox.surface.8") 4 (Rect 0 0 9 9) Empty 0].
Definition example_find (t : Z) : Z := if t =? 7 then 70 else 0.

Lemma multi_window_layers_witness :
  exists m, process_layers example_find example_layers = Ret m /\
    layers_of example_find example_layers 70 <> [] /\
    m = {[ 70 := [Renderable (str "org.anbox.surface.7") 1 (Rect (-50) 50 150 150) (Rect 0 0 200 100) 0;
                  Renderable (str "org.anbox.surface.7") 3 (Rect 5 0 105 200) (Rect 5 0 105 200) 0] ]}.
Proof.
  destruct (multi_window_layers example_find example_layers) as (m & Hm & Hw).
  { repeat (apply Forall_cons; split; [by repeat split; vm_compute|]). constructor. }
  exists m. split; [exact Hm|]. vm_compute in Hm. injection Hm as <-. split; [done|reflexivity].
Defined.
