(* ===== verification/Composer.v ===== *)
(** [LayerComposer] (graphics/layer_composer.cpp): frames submitted by guest
    threads are frozen, queued one deep and drawn by a worker thread.  The
    renderer is an interface ([frame_store]) with the laws the composer relies
    on; [renderer_frames] shows that the model of Renderer.v keeps them.  Guest
    threads, redraw requests, the worker and the destructor interleave at the
    granularity of the mutexes. *)

From S2P Require Import Prelude Geometry Renderer Strategy.

Local Open Scope Z_scope.

(** * The renderer, as the composer sees it *)

(** The snapshots a list of layers refers to. *)
Definition handles (rs : list renderable) : list Z := remove_dups (buffer <$> rs).

Class frame_store (St : Type) := {
  retain : list renderable -> St -> option (St * option (list renderable));
  release : list renderable -> St -> St;
  show : Z -> list renderable -> St -> St;
  others : St -> St -> Prop;
  left : St -> Z;
  holds : gset Z -> St -> Prop;
  live : Z -> St -> Prop;

  retain_law O s rs : holds O s -> Z.of_nat (length rs) <= left s ->
    exists s' o, retain rs s = Some (s', o) /\
      match o with
      | Some rs' => holds (O ∪ list_to_set (handles rs')) s' /\ O ## list_to_set (handles rs')
      | None => holds O s'
      end;
  release_law O s rs : holds O s -> list_to_set (handles rs) ⊆ O ->
    holds (O ∖ list_to_set (handles rs)) (release rs s);
  show_law O s w rs : holds O s -> holds O (show w rs s);
  others_law O s s' : holds O s -> others s s' -> holds O s';
  live_law O s h : holds O s -> h ∈ O -> live h s
}.

(** * State *)

Abbreviation windows := (list (Z * list renderable)).

(** [LayerComposer::Frame]; the map of windows in its order, 0 for a null
    window. *)
Record frame := Frame {
  f_windows : windows;
  retained_buffers : list renderable;
  sequence : Z
}.

#[global] Instance frame_eq_dec : EqDecision frame.
Proof. solve_decision. Defined.

(** A guest thread in [submit_layers] (or [request_redraw]): freezing the
    windows' layers, giving them back after a failure, holding a complete frame,
    or about to wake the worker. *)
Inductive guest :=
  | Idle
  | Freezing (todo done : windows)
  | Aborting (frozen : list (list renderable))
  | Submitting (ws : windows) (retained : list renderable)
  | Notifying.

(** The worker thread in [run]. *)
Inductive worker :=
  | Waiting (asleep : bool)
  | Drawing (todo : windows) (f : option frame)      (* [None]: a redraw *)
  | Releasing (f : frame) (old : option frame)
  | Exited.

#[global] Instance worker_eq_dec : EqDecision worker.
Proof. solve_decision. Defined.

(** [~LayerComposer] *)
Inductive destructor := Alive | Stopping | Joining | Joined | Released | Destroyed.

Record composer (St : Type) := Composer {
  store : St;
  pending_ : option frame;
  last_presented_ : option frame;
  stopping_ : bool;
  redraw_requested_ : bool;
  submitted_ : Z;
  presented_ : Z;
  dropped_ : Z;
  redraws_ : Z;
  guests : list guest;
  pc : worker;
  dtor : destructor;
  swapped : list frame                 (* the frames made last_presented_, in order *)
}.
Arguments Composer {St}.
Arguments store {St}. Arguments pending_ {St}. Arguments last_presented_ {St}.
Arguments stopping_ {St}. Arguments redraw_requested_ {St}. Arguments submitted_ {St}.
Arguments presented_ {St}. Arguments dropped_ {St}. Arguments redraws_ {St}.
Arguments guests {St}. Arguments pc {St}. Arguments dtor {St}. Arguments swapped {St}.

(** The layers of the windows that exist. *)
Definition frozen_lists (ws : windows) : list (list renderable) :=
  snd <$> filter (fun e : Z * list renderable => e.1 <> 0) ws.

Section composer.
Context {St : Type} `{!frame_store St}.
(** [process_layers(rs) = ws] at some moment of the window manager. *)
Context (strategy : list renderable -> windows -> Prop).

Definition with_store (c : composer St) s : composer St := Composer s (pending_ c) (last_presented_ c)
  (stopping_ c) (redraw_requested_ c) (submitted_ c) (presented_ c) (dropped_ c) (redraws_ c) (guests c)
  (pc c) (dtor c) (swapped c).
Definition with_guest (c : composer St) (i : nat) (g : guest) : composer St := Composer (store c)
  (pending_ c) (last_presented_ c) (stopping_ c) (redraw_requested_ c) (submitted_ c) (presented_ c)
  (dropped_ c) (redraws_ c) (<[i := g]> (guests c)) (pc c) (dtor c) (swapped c).
Definition with_pc (c : composer St) (p : worker) : composer St := Composer (store c)
  (pending_ c) (last_presented_ c) (stopping_ c) (redraw_requested_ c) (submitted_ c) (presented_ c)
  (dropped_ c) (redraws_ c) (guests c) p (dtor c) (swapped c).
Definition with_dtor (c : composer St) (d : destructor) (stop : bool) : composer St := Composer (store c)
  (pending_ c) (last_presented_ c) stop (redraw_requested_ c) (submitted_ c) (presented_ c)
  (dropped_ c) (redraws_ c) (guests c) (pc c) d (swapped c).
Definition with_redraw (c : composer St) (b : bool) : composer St := Composer (store c)
  (pending_ c) (last_presented_ c) (stopping_ c) b (submitted_ c) (presented_ c)
  (dropped_ c) (redraws_ c) (guests c) (pc c) (dtor c) (swapped c).

Definition release_opt (f : option frame) (s : St) : St :=
  match f with Some f => release (retained_buffers f) s | None => s end.

(** ** submit_layers *)

(** One turn of the loop over the windows. *)
Definition freeze (c : composer St) (i : nat) (w : Z) (rs : list renderable) (todo done : windows)
    : option (composer St) :=
  if w =? 0 then Some (with_guest c i (Freezing todo (done ++ [(w, rs)])))
  else
    match retain rs (store c) with
    | Some (s, Some rs') => Some (with_guest (with_store c s) i (Freezing todo (done ++ [(w, rs')])))
    | Some (s, None) => Some (with_guest (with_store c s) i (Aborting (frozen_lists done)))
    | None => None
    end.

(** The locked block at the end. *)
Definition enqueue (c : composer St) (i : nat) (ws : windows) (retained : list renderable) : composer St :=
  Composer (release_opt (pending_ c) (store c)) (Some (Frame ws retained (submitted_ c + 1)))
    (last_presented_ c) (stopping_ c) (redraw_requested_ c) (submitted_ c + 1) (presented_ c)
    (match pending_ c with Some _ => dropped_ c + 1 | None => dropped_ c end) (redraws_ c)
    (<[i := Notifying]> (guests c)) (pc c) (dtor c) (swapped c).

(** ** run *)

Definition wake (c : composer St) : bool :=
  stopping_ c || match pending_ c with Some _ => true | None => false end || redraw_requested_ c.

Definition take_frame (c : composer St) (f : frame) : composer St :=
  Composer (store c) None (last_presented_ c) (stopping_ c) false (submitted_ c) (presented_ c)
    (dropped_ c) (redraws_ c) (guests c) (Drawing (f_windows f) (Some f)) (dtor c) (swapped c).
Definition start_redraw (c : composer St) (ws : windows) : composer St :=
  with_pc (with_redraw c false) (match ws with [] => Waiting false | _ => Drawing ws None end).
Definition count_redraw (c : composer St) : composer St := Composer (store c)
  (pending_ c) (last_presented_ c) (stopping_ c) (redraw_requested_ c) (submitted_ c) (presented_ c)
  (dropped_ c) (redraws_ c + 1) (guests c) (Waiting false) (dtor c) (swapped c).
Definition swap_frames (c : composer St) (f : frame) : composer St := Composer (store c)
  (pending_ c) (Some f) (stopping_ c) (redraw_requested_ c) (submitted_ c) (presented_ c)
  (dropped_ c) (redraws_ c) (guests c) (Releasing f (last_presented_ c)) (dtor c) (swapped c ++ [f]).
Definition finish_frame (c : composer St) (old : option frame) : composer St := Composer
  (release_opt old (store c))
  (pending_ c) (last_presented_ c) (stopping_ c) (redraw_requested_ c) (submitted_ c) (presented_ c + 1)
  (dropped_ c) (redraws_ c) (guests c) (Waiting false) (dtor c) (swapped c).
Definition draw_one (c : composer St) (w : Z) (rs : list renderable) : St :=
  if w =? 0 then store c else show w rs (store c).
Definition wake_up (c : composer St) : composer St :=
  match pc c with Waiting _ => with_pc c (Waiting false) | _ => c end.

(** ** Steps *)

(** The worker's steps. *)
Inductive work : composer St -> composer St -> Prop :=
  | work_sleep c : pc c = Waiting false -> wake c = false -> work c (with_pc c (Waiting true))
  | work_stop c : pc c = Waiting false -> stopping_ c = true -> work c (with_pc c Exited)
  | work_take c f : pc c = Waiting false -> stopping_ c = false -> pending_ c = Some f ->
      work c (take_frame c f)
  | work_again c f : pc c = Waiting false -> stopping_ c = false -> pending_ c = None ->
      redraw_requested_ c = true -> last_presented_ c = Some f -> work c (start_redraw c (f_windows f))
  | work_first c ws : pc c = Waiting false -> stopping_ c = false -> pending_ c = None ->
      redraw_requested_ c = true -> last_presented_ c = None -> strategy [] ws -> work c (start_redraw c ws)
  | work_draw c w rs todo f : pc c = Drawing ((w, rs) :: todo) f ->
      work c (with_pc (with_store c (draw_one c w rs)) (Drawing todo f))
  | work_redrawn c : pc c = Drawing [] None -> work c (count_redraw c)
  | work_swap c f : pc c = Drawing [] (Some f) -> work c (swap_frames c f)
  | work_finish c f old : pc c = Releasing f old -> work c (finish_frame c old).

(** [notify_one] after a submission or a redraw request. *)
Inductive notify : composer St -> composer St -> Prop :=
  | notify_guest c i : guests c !! i = Some Notifying -> notify c (wake_up (with_guest c i Idle))
  | notify_stop c : dtor c = Stopping -> notify c (wake_up (with_dtor c Joining true)).

Inductive step : composer St -> composer St -> Prop :=
  | step_work c c' : work c c' -> step c c'
  | step_notify c c' : notify c c' -> step c c'
  (* a spurious wake-up *)
  | step_spurious c : pc c = Waiting true -> step c (with_pc c (Waiting false))
  (* guests *)
  | step_submit c i rs ws : dtor c = Alive -> guests c !! i = Some Idle -> strategy rs ws ->
      step c (with_guest c i (Freezing ws []))
  | step_freeze c i w rs todo done c' : guests c !! i = Some (Freezing ((w, rs) :: todo) done) ->
      Z.of_nat (length rs) <= left (store c) -> freeze c i w rs todo done = Some c' -> step c c'
  | step_abort c i rs frozen : guests c !! i = Some (Aborting (rs :: frozen)) ->
      step c (with_guest (with_store c (release rs (store c))) i (Aborting frozen))
  | step_aborted c i : guests c !! i = Some (Aborting []) -> step c (with_guest c i Idle)
  | step_frozen c i ws : guests c !! i = Some (Freezing [] ws) ->
      step c (with_guest c i (Submitting ws (concat (frozen_lists ws))))
  | step_enqueue c i ws retained : guests c !! i = Some (Submitting ws retained) ->
      step c (enqueue c i ws retained)
  | step_request c i : dtor c = Alive -> guests c !! i = Some Idle ->
      step c (with_guest (with_redraw c true) i Notifying)
  (* the rest of the host and the guests' other calls *)
  | step_others c s : others (store c) s -> step c (with_store c s)
  (* the destructor, once no thread is inside the composer *)
  | step_stop c : dtor c = Alive -> (forall i g, guests c !! i = Some g -> g = Idle) ->
      step c (with_dtor c Stopping true)
  | step_join c : dtor c = Joining -> pc c = Exited -> step c (with_dtor c Joined true)
  | step_release_pending c : dtor c = Joined ->
      step c (with_dtor (with_store c (release_opt (pending_ c) (store c))) Released true)
  | step_release_last c : dtor c = Released ->
      step c (with_dtor (with_store c (release_opt (last_presented_ c) (store c))) Destroyed true).

Definition composer_init (s : St) (n : nat) : composer St :=
  Composer s None None false false 0 0 0 0 (replicate n Idle) (Waiting false) Alive [].

(** ** LegacySynchronous mode *)

Definition draw_windows (ws : windows) (s : St) : St :=
  fold_left (fun s e => if e.1 =? 0 then s else show e.1 e.2 s) ws s.
(** [present] of a frame that retains nothing. *)
Definition submit_synchronous (c : composer St) (ws : windows) : composer St := Composer
  (release [] (draw_windows ws (store c))) (pending_ c) (last_presented_ c) (stopping_ c)
  (redraw_requested_ c) (submitted_ c + 1) (presented_ c + 1) (dropped_ c) (redraws_ c) (guests c)
  (pc c) (dtor c) (swapped c).
End composer.

(** * Proofs: handles *)

Lemma elem_of_handles rs h : h ∈ handles rs <-> exists r, r ∈ rs /\ buffer r = h.
Proof.
  unfold handles. rewrite elem_of_remove_dups, list_elem_of_fmap. split; intros (r & ? & ?); by exists r.
Qed.
Lemma handles_NoDup rs : NoDup (handles rs).
Proof. apply NoDup_remove_dups. Qed.

Lemma elem_of_concat_handles ls h :
  h ∈ concat (handles <$> ls) <-> h ∈ handles (concat ls).
Proof.
  rewrite elem_of_handles. induction ls as [|rs ls IH]; simpl.
  { split; [by intros ?%not_elem_of_nil|by intros (r & ?%not_elem_of_nil & _)]. }
  rewrite elem_of_app, IH, elem_of_handles. setoid_rewrite elem_of_app. naive_solver.
Qed.

(** Lists frozen apart share no snapshot, so one list holds what they hold. *)
Lemma handles_concat ls :
  NoDup (concat (handles <$> ls)) -> handles (concat ls) ≡ₚ concat (handles <$> ls).
Proof.
  intros Hnd. apply NoDup_Permutation; [apply handles_NoDup|done|]. intros h.
  by rewrite elem_of_concat_handles.
Qed.

Definition frame_handles (f : frame) : list Z := handles (retained_buffers f).
Definition opt_handles (f : option frame) : list Z := from_option frame_handles [] f.

Definition guest_handles (g : guest) : list Z :=
  match g with
  | Freezing _ done => concat (handles <$> frozen_lists done)
  | Aborting frozen => concat (handles <$> frozen)
  | Submitting _ retained => handles retained
  | _ => []
  end.
Definition worker_handles (p : worker) : list Z :=
  match p with
  | Drawing _ f => opt_handles f
  | Releasing _ old => opt_handles old
  | _ => []
  end.

Section proofs.
Context {St : Type} `{!frame_store St}.

(** Who holds which snapshots. *)
Definition owned (c : composer St) : list Z :=
  match dtor c with Released | Destroyed => [] | _ => opt_handles (pending_ c) end ++
  match dtor c with Destroyed => [] | _ => opt_handles (last_presented_ c) end ++
  worker_handles (pc c) ++ concat (guest_handles <$> guests c).

(** The snapshots [l], each once, are what the renderer holds for us. *)
Definition holding (l : list Z) (s : St) : Prop := NoDup l /\ holds (list_to_set l) s.

Lemma holding_perm l l' s : l ≡ₚ l' -> holding l s -> holding l' s.
Proof. intros Hp [Hnd Hh]. split; [by rewrite <- Hp|]. by rewrite <- (list_to_set_perm_L _ _ Hp). Qed.

Lemma holding_release rs l s : holding (handles rs ++ l) s -> holding l (release rs s).
Proof.
  intros [(_ & Hd & Hl)%NoDup_app Hh]. split; [done|].
  apply (release_law _ _ rs) in Hh; [|rewrite list_to_set_app_L; set_solver].
  rewrite list_to_set_app_L in Hh.
  replace (list_to_set l : gset Z)
    with ((list_to_set (handles rs) ∪ list_to_set l) ∖ list_to_set (handles rs) : gset Z); [done|].
  apply set_eq. intros h. rewrite elem_of_difference, elem_of_union, !elem_of_list_to_set. naive_solver.
Qed.

Lemma holding_release_opt f l s : holding (opt_handles f ++ l) s -> holding l (release_opt f s).
Proof. destruct f; [apply holding_release|done]. Qed.

Lemma holding_retain rs l s s' o :
  holding l s -> Z.of_nat (length rs) <= left s -> retain rs s = Some (s', o) ->
  match o with Some rs' => holding (handles rs' ++ l) s' | None => holding l s' end.
Proof.
  intros [Hnd Hh] Hlen Hr. destruct (retain_law _ _ _ Hh Hlen) as (s1 & o1 & H1 & Ho).
  rewrite Hr in H1. injection H1 as <- <-. destruct o as [rs'|]; [|by split].
  destruct Ho as [Hh' Hd]. split.
  - apply NoDup_app. split; [apply handles_NoDup|]. split; [|done]. intros h H1 H2.
    apply (Hd h); by apply elem_of_list_to_set.
  - rewrite list_to_set_app_L. by rewrite (union_comm_L (list_to_set (handles rs'))).
Qed.

Lemma holding_show l s w rs : holding l s -> holding l (if w =? 0 then s else show w rs s).
Proof. intros [Hnd Hh]. split; [done|]. destruct (w =? 0); [done|]. by apply show_law. Qed.

(** What the other guests hold. *)
Definition others_handles (gs : list guest) (i : nat) : list Z :=
  concat (guest_handles <$> (take i gs ++ drop (S i) gs)).

Lemma guests_insert gs i g g0 : gs !! i = Some g0 ->
  concat (guest_handles <$> <[i := g]> gs) ≡ₚ guest_handles g ++ others_handles gs i.
Proof.
  intros Hi. rewrite insert_take_drop by (by eapply lookup_lt_Some).
  unfold others_handles. rewrite !fmap_app, fmap_cons, !concat_app. simpl.
  rewrite !(Permutation_app_comm (concat (guest_handles <$> take i gs))). by rewrite <- app_assoc.
Qed.
Lemma guests_at gs i g : gs !! i = Some g ->
  concat (guest_handles <$> gs) ≡ₚ guest_handles g ++ others_handles gs i.
Proof. intros Hi. rewrite <- (list_insert_id gs i g) at 1 by done. by eapply guests_insert. Qed.

Definition base (c : composer St) : list Z :=
  match dtor c with Released | Destroyed => [] | _ => opt_handles (pending_ c) end ++
  match dtor c with Destroyed => [] | _ => opt_handles (last_presented_ c) end ++ worker_handles (pc c).

Lemma owned_base c : owned c = base c ++ concat (guest_handles <$> guests c).
Proof. unfold owned, base. by rewrite !app_assoc. Qed.

Lemma owned_with_guest c i g0 g : guests c !! i = Some g0 ->
  owned (with_guest c i g) ≡ₚ guest_handles g ++ base c ++ others_handles (guests c) i.
Proof.
  intros Hi. rewrite owned_base. change (base (with_guest c i g)) with (base c). cbn [with_guest guests].
  rewrite (guests_insert _ _ _ _ Hi). solve_Permutation.
Qed.
Lemma owned_at c i g : guests c !! i = Some g ->
  owned c ≡ₚ guest_handles g ++ base c ++ others_handles (guests c) i.
Proof. intros Hi. rewrite owned_base, (guests_at _ _ _ Hi). solve_Permutation. Qed.

Definition complete (f : frame) : Prop := retained_buffers f = concat (frozen_lists (f_windows f)).
Definition worker_frame (p : worker) : option frame := match p with Drawing _ f => f | _ => None end.

(** ** Ownership *)

Record owner_inv (c : composer St) : Prop := {
  oi_holding : holding (owned c) (store c);
  oi_pending f : pending_ c = Some f -> complete f;
  oi_last f : last_presented_ c = Some f -> complete f;
  oi_worker f : worker_frame (pc c) = Some f -> complete f;
  oi_submitting i ws r : guests c !! i = Some (Submitting ws r) -> r = concat (frozen_lists ws);
  oi_drawing todo f : pc c = Drawing todo f ->
    forall h, h ∈ concat (handles <$> frozen_lists todo) ->
      h ∈ match f with Some f => frame_handles f | None => opt_handles (last_presented_ c) end;
  oi_dtor : match dtor c with Joined | Released | Destroyed => pc c = Exited | _ => True end;
  oi_guests : dtor c <> Alive -> forall i g, guests c !! i = Some g -> g = Idle
}.

Lemma owner_alive c i g : owner_inv c -> guests c !! i = Some g -> g <> Idle -> dtor c = Alive.
Proof.
  intros Hc Hg Hne. destruct (dtor c) eqn:Ed; [done|..];
    (exfalso; apply Hne, (oi_guests c Hc) with i; [by rewrite Ed|done]).
Qed.

(** A guest moves on: the composer's other parts stay. *)
Lemma owner_guest c i g0 g s :
  owner_inv c -> guests c !! i = Some g0 -> (g <> Idle -> dtor c = Alive) ->
  (forall ws r, g = Submitting ws r -> r = concat (frozen_lists ws)) ->
  holding (guest_handles g ++ base c ++ others_handles (guests c) i) s ->
  owner_inv (with_guest (with_store c s) i g).
Proof.
  intros [] Hi Ha Hs Hh. split; simpl; try done.
  - eapply holding_perm; [|exact Hh]. symmetry. by apply (owned_with_guest (with_store c s) i g0).
  - intros j ws r [(-> & Hg & _)|[_ Hj]]%list_lookup_insert_Some; [by apply Hs|by eapply oi_submitting0].
  - intros Hd j g' [(-> & <- & _)|[_ Hj]]%list_lookup_insert_Some; [|by eapply oi_guests0].
    destruct g; try done; exfalso; by apply Hd, Ha.
Qed.

Lemma with_store_same (c : composer St) : with_store c (store c) = c.
Proof. by destruct c. Qed.

Lemma frozen_lists_app ws ws' : frozen_lists (ws ++ ws') = frozen_lists ws ++ frozen_lists ws'.
Proof. unfold frozen_lists. by rewrite filter_app, fmap_app. Qed.
Lemma frozen_lists_cons w rs ws :
  frozen_lists ((w, rs) :: ws) = if decide (w = 0) then frozen_lists ws else rs :: frozen_lists ws.
Proof.
  unfold frozen_lists. rewrite filter_cons. simpl. destruct (decide (w = 0)).
  - rewrite decide_False by naive_solver. done.
  - by rewrite decide_True by done.
Qed.

Lemma owner_freeze c i w rs todo done c' :
  owner_inv c -> guests c !! i = Some (Freezing ((w, rs) :: todo) done) ->
  Z.of_nat (length rs) <= left (store c) -> freeze c i w rs todo done = Some c' -> owner_inv c'.
Proof.
  intros Hc Hi Hl Hf. assert (Ha : dtor c = Alive) by (by eapply owner_alive).
  assert (Hh : holding (guest_handles (Freezing ((w, rs) :: todo) done) ++ base c ++ others_handles (guests c) i)
    (store c)).
  { eapply holding_perm; [by apply owned_at|]. apply Hc. }
  unfold freeze in Hf. destruct (Z.eqb_spec w 0) as [->|Hw].
  { injection Hf as <-. rewrite <- (with_store_same c).
    eapply owner_guest; [done|exact Hi|done|done|]. cbn [guest_handles] in *.
    rewrite frozen_lists_app, frozen_lists_cons, decide_True by done. by rewrite app_nil_r. }
  destruct (retain rs (store c)) as [[s [rs'|]]|] eqn:Er; [| |done]; injection Hf as <-;
    pose proof (holding_retain _ _ _ _ _ Hh Hl Er) as Hh';
    (eapply owner_guest; [done|exact Hi|done|done|]); cbn [guest_handles] in *; [|done].
  eapply holding_perm; [|exact Hh'].
  rewrite frozen_lists_app, frozen_lists_cons, decide_False by done. change (frozen_lists []) with (@nil (list renderable)).
  rewrite fmap_app, concat_app. cbn [fmap list_fmap concat]. rewrite app_nil_r. solve_Permutation.
Qed.

Lemma owner_enqueue c i ws r :
  owner_inv c -> guests c !! i = Some (Submitting ws r) -> owner_inv (enqueue c i ws r).
Proof.
  intros Hc Hi. assert (Ha : dtor c = Alive) by (by eapply owner_alive).
  assert (Hh : holding (owned c) (store c)) by apply Hc.
  assert (Hr : r = concat (frozen_lists ws)) by (by eapply (oi_submitting c Hc)).
  destruct Hc. split; simpl; try done.
  - apply (holding_release_opt (pending_ c)).
    eapply holding_perm; [|exact Hh]. rewrite (owned_at c i _ Hi). unfold owned, base. simpl. rewrite Ha.
    rewrite (guests_insert _ _ _ _ Hi). cbn [guest_handles]. unfold frame_handles. simpl. solve_Permutation.
  - by intros f [= <-].
  - intros j ws' r' [(-> & Hg & _)|[_ Hj]]%list_lookup_insert_Some; [done|by eapply oi_submitting0].
Qed.

(** The worker moves on with the composer's frames as they are. *)
Lemma owner_pc c p s b :
  owner_inv c -> (match dtor c with Joined | Released | Destroyed => p = Exited | _ => True end) ->
  (forall f, worker_frame p = Some f -> complete f) ->
  (forall todo f, p = Drawing todo f -> forall h, h ∈ concat (handles <$> frozen_lists todo) ->
      h ∈ match f with Some f => frame_handles f | None => opt_handles (last_presented_ c) end) ->
  holding (worker_handles p ++
    match dtor c with Released | Destroyed => [] | _ => opt_handles (pending_ c) end ++
    match dtor c with Destroyed => [] | _ => opt_handles (last_presented_ c) end ++
    concat (guest_handles <$> guests c)) s ->
  owner_inv (with_pc (with_redraw (with_store c s) b) p).
Proof.
  intros [] Hd Hw Hdr Hh. split; simpl; try done.
  eapply holding_perm; [|exact Hh]. unfold owned. simpl. solve_Permutation.
Qed.

Context (strategy : list renderable -> windows -> Prop).
Context (strategy_empty : forall ws, strategy [] ws -> Forall (fun e => e.2 = []) ws).

Lemma frozen_lists_empty ws : Forall (fun e : Z * list renderable => e.2 = []) ws ->
  concat (handles <$> frozen_lists ws) = [].
Proof.
  induction 1 as [|[w rs] ws Hrs _ IH]; [done|]. rewrite frozen_lists_cons. simpl in Hrs. subst rs.
  by destruct (decide (w = 0)).
Qed.

Lemma complete_handles f h : complete f -> h ∈ concat (handles <$> frozen_lists (f_windows f)) ->
  h ∈ frame_handles f.
Proof. intros Hf Hh. unfold frame_handles. rewrite Hf. by apply elem_of_concat_handles. Qed.

Lemma owner_work c c' : owner_inv c -> work strategy c c' -> owner_inv c'.
Proof.
  intros Hc Hw. pose proof (oi_holding c Hc) as Hh. unfold owned in Hh.
  assert (Hd : pc c <> Exited -> match dtor c with Joined | Released | Destroyed => False | _ => True end).
  { intros Hne. pose proof (oi_dtor c Hc). by destruct (dtor c). }
  assert (Hpc : forall p, worker_handles p = worker_handles (pc c) -> worker_frame p = None ->
    (match dtor c with Joined | Released | Destroyed => p = Exited | _ => True end) ->
    (forall todo f, p = Drawing todo f -> concat (handles <$> frozen_lists todo) = [] \/
       f = None /\ exists g, last_presented_ c = Some g /\ todo = f_windows g) ->
    forall b, owner_inv (with_pc (with_redraw c b) p)).
  { intros p Hp Hf Hx Ht b. rewrite <- (with_store_same c). apply owner_pc; [done|done|congruence| |].
    - intros todo f Htf h Hin. destruct (Ht todo f Htf) as [He|(-> & g & Hg & ->)].
      + rewrite He in Hin. by apply not_elem_of_nil in Hin.
      + rewrite Hg. simpl. apply complete_handles; [by apply (oi_last c Hc)|done].
    - rewrite Hp. eapply holding_perm; [|exact Hh]. solve_Permutation. }
  assert (Hb : forall d : composer St, with_redraw d (redraw_requested_ d) = d) by by intros [].
  destruct Hw as [c Hp _|c Hp Hs|c f Hp Hs Hf|c f Hp Hs Hn Hr Hl|c ws Hp Hs Hn Hr Hl Hws
                 |c w rs todo f Hp|c Hp|c f Hp|c f old Hp]; rewrite Hp in Hd; cbn [worker_handles] in Hpc.
  - rewrite <- (Hb c). apply Hpc; [by rewrite Hp|done| |done]. destruct (dtor c); tauto || (exfalso; by apply Hd).
  - rewrite <- (Hb c). apply Hpc; [by rewrite Hp|done|by destruct (dtor c)|done].
  - destruct Hc. assert (Ha : match dtor c with Joined | Released | Destroyed => False | _ => True end) by by apply Hd.
    split; simpl; try done.
    + unfold owned. simpl. rewrite Hp, Hf in Hh. cbn [worker_handles opt_handles from_option] in *.
      eapply holding_perm; [|exact Hh]. destruct (dtor c); try done; simpl; solve_Permutation.
    + intros g [= <-]. by apply oi_pending0.
    + intros todo g [= <- <-] h. apply complete_handles. by apply oi_pending0.
    + by destruct (dtor c).
  - unfold start_redraw. apply Hpc; [by rewrite Hp; destruct (f_windows f)|by destruct (f_windows f)| |].
    + destruct (dtor c); tauto || (exfalso; by apply Hd).
    + intros todo g Ht. right. destruct (f_windows f) eqn:Ef; [done|]. injection Ht as <- <-.
      split; [done|]. by exists f.
  - unfold start_redraw. apply Hpc; [by rewrite Hp; destruct ws|by destruct ws| |].
    + destruct (dtor c); tauto || (exfalso; by apply Hd).
    + intros todo g Ht. left. destruct ws as [|e ws]; [done|]. injection Ht as <- <-.
      by apply frozen_lists_empty, strategy_empty.
  - rewrite <- (Hb (with_store _ _)). apply owner_pc; [done| | | |].
    + destruct (dtor c); tauto || (exfalso; by apply Hd).
    + intros g Hg. apply (oi_worker c Hc). by rewrite Hp.
    + intros todo' f' [= <- <-] h Hin. apply (oi_drawing c Hc _ _ Hp).
      rewrite frozen_lists_cons. destruct (decide (w = 0)); [done|]. simpl. apply elem_of_app. by right.
    + unfold draw_one. apply holding_show. eapply holding_perm; [|exact Hh]. rewrite Hp. simpl. solve_Permutation.
  - destruct Hc. split; simpl; try done.
    + unfold owned. simpl. by rewrite Hp in Hh.
    + destruct (dtor c); tauto || (exfalso; by apply Hd).
  - destruct Hc. assert (Ha : match dtor c with Joined | Released | Destroyed => False | _ => True end) by by apply Hd.
    assert (Hf : complete f) by (apply oi_worker0; by rewrite Hp). split; simpl; try done.
    + unfold owned. simpl. rewrite Hp in Hh. cbn [worker_handles opt_handles from_option] in *.
      eapply holding_perm; [|exact Hh]. destruct (dtor c); try done; simpl; solve_Permutation.
    + by intros g [= <-].
    + by destruct (dtor c).
  - destruct Hc. split; simpl; try done.
    + apply holding_release_opt. eapply holding_perm; [|exact Hh]. unfold owned. simpl. rewrite Hp. simpl.
      solve_Permutation.
    + destruct (dtor c); tauto || (exfalso; by apply Hd).
Qed.

Lemma owner_wake c : owner_inv c -> owner_inv (wake_up c).
Proof.
  intros Hc. unfold wake_up. destruct (pc c) as [b| | |] eqn:Hp; [|done..].
  pose proof (oi_holding c Hc) as Hh. destruct Hc. unfold owned in Hh. rewrite Hp in Hh.
  split; simpl; try done.
  - by destruct (dtor c); try congruence.
Qed.

Lemma owner_dtor c d s stop :
  owner_inv c -> d <> Alive -> (forall i g, guests c !! i = Some g -> g = Idle) ->
  match d with Joined | Released | Destroyed => pc c = Exited | _ => True end ->
  holding (match d with Released | Destroyed => [] | _ => opt_handles (pending_ c) end ++
    match d with Destroyed => [] | _ => opt_handles (last_presented_ c) end ++
    worker_handles (pc c) ++ concat (guest_handles <$> guests c)) s ->
  owner_inv (with_dtor (with_store c s) d stop).
Proof. intros [] Hd Hi He Hh. by split. Qed.

Lemma owner_idle c i g0 g : owner_inv c -> guests c !! i = Some g0 -> guest_handles g0 = [] ->
  guest_handles g = [] -> (g <> Idle -> dtor c = Alive) ->
  (forall ws r, g = Submitting ws r -> r = concat (frozen_lists ws)) -> owner_inv (with_guest c i g).
Proof.
  intros Hc Hi Hg0 Hg Ha Hs. rewrite <- (with_store_same c). eapply owner_guest; [done|done|done|done|].
  eapply holding_perm; [|apply Hc]. by rewrite (owned_at c i _ Hi), Hg0, Hg.
Qed.

Lemma owner_redraw c b : owner_inv c -> owner_inv (with_redraw c b).
Proof. intros []. by split. Qed.

Lemma owner_step c c' : owner_inv c -> step strategy c c' -> owner_inv c'.
Proof.
  intros Hc Hs. destruct Hs as [c c' Hw|c c' Hn|c Hp|c i rs ws Ha Hi Hws|c i w rs todo done c' Hi Hl Hf
    |c i rs fr Hi|c i Hi|c i ws Hi|c i ws r Hi|c i Ha Hi|c s Hot|c Ha Hall|c Hd Hp|c Hd|c Hd].
  - by eapply owner_work.
  - destruct Hn as [c i Hi|c Hd]; apply owner_wake.
    + by apply (owner_idle c i Notifying).
    + rewrite <- (with_store_same c). apply owner_dtor; try done; [by apply (oi_guests c Hc); rewrite Hd|].
      pose proof (oi_holding c Hc) as Hh. unfold owned in Hh. by rewrite Hd in Hh.
  - pose proof (owner_wake c Hc) as Hw. unfold wake_up in Hw. by rewrite Hp in Hw.
  - by apply (owner_idle c i Idle).
  - by eapply owner_freeze.
  - eapply owner_guest; [done|exact Hi| |done|].
    + intros _. by eapply owner_alive.
    + apply holding_release. eapply holding_perm; [|apply Hc]. rewrite (owned_at c i _ Hi).
      cbn [guest_handles fmap list_fmap concat]. solve_Permutation.
  - by apply (owner_idle c i (Aborting [])).
  - pose proof (oi_holding c Hc) as Hh. apply (holding_perm _ _ _ (owned_at c i _ Hi)) in Hh.
    rewrite <- (with_store_same c). eapply owner_guest; [done|exact Hi| | |].
    + intros _. by eapply owner_alive.
    + by intros ws' r' [= <- <-].
    + cbn [guest_handles] in *. eapply holding_perm; [|exact Hh]. apply Permutation_app_tail. symmetry.
      apply handles_concat. destruct Hh as [Hnd _]. by apply NoDup_app in Hnd as [? _].
  - by eapply owner_enqueue.
  - by apply (owner_idle (with_redraw c true) i Idle); [apply owner_redraw|..].
  - destruct Hc. split; simpl; try done. destruct oi_holding0 as [? Hh]. split; [done|]. by eapply others_law.
  - rewrite <- (with_store_same c). apply owner_dtor; try done.
    pose proof (oi_holding c Hc) as Hh. unfold owned in Hh. by rewrite Ha in Hh.
  - rewrite <- (with_store_same c). apply owner_dtor; try done; [by apply (oi_guests c Hc); rewrite Hd|].
    pose proof (oi_holding c Hc) as Hh. unfold owned in Hh. by rewrite Hd in Hh.
  - pose proof (oi_dtor c Hc) as He. rewrite Hd in He. apply owner_dtor; try done; [by apply (oi_guests c Hc); rewrite Hd|].
    apply holding_release_opt. pose proof (oi_holding c Hc) as Hh. unfold owned in Hh. by rewrite Hd in Hh.
  - pose proof (oi_dtor c Hc) as He. rewrite Hd in He. apply owner_dtor; try done; [by apply (oi_guests c Hc); rewrite Hd|].
    apply holding_release_opt. pose proof (oi_holding c Hc) as Hh. unfold owned in Hh. by rewrite Hd in Hh.
Qed.

Lemma owner_init s n : holds ∅ s -> owner_inv (composer_init s n).
Proof.
  intros Hs. assert (Hg : concat (guest_handles <$> replicate n Idle) = []) by (by induction n).
  split; try done.
  - unfold owned. simpl. rewrite Hg. split; [constructor|done].
  - intros i ws r Hi. apply lookup_replicate in Hi as [Hi _]. done.
Qed.

(** ** Counting and ordering *)

Definition in_flight (p : worker) : Z :=
  match p with Drawing _ (Some _) | Releasing _ _ => 1 | _ => 0 end.
Definition queued (f : option frame) : Z := match f with Some _ => 1 | None => 0 end.

(** The frames in the order of their submission: drawn, being drawn, waiting. *)
Definition timeline (c : composer St) : list Z :=
  (sequence <$> swapped c) ++
  match pc c with Drawing _ (Some f) => [sequence f] | _ => [] end ++
  match pending_ c with Some f => [sequence f] | None => [] end.

Record count_inv (c : composer St) : Prop := {
  ci_count : submitted_ c = presented_ c + dropped_ c + queued (pending_ c) + in_flight (pc c);
  ci_drawn : presented_ c + match pc c with Releasing _ _ => 1 | _ => 0 end = Z.of_nat (length (swapped c));
  ci_last : last_presented_ c = last (swapped c);
  ci_sorted : StronglySorted Z.lt (timeline c);
  ci_bound : Forall (fun n => n <= submitted_ c) (timeline c);
  ci_pending f : pending_ c = Some f -> sequence f = submitted_ c
}.

Lemma count_frame c c' :
  submitted_ c' = submitted_ c -> presented_ c' = presented_ c -> dropped_ c' = dropped_ c ->
  pending_ c' = pending_ c -> last_presented_ c' = last_presented_ c -> swapped c' = swapped c ->
  in_flight (pc c') = in_flight (pc c) ->
  match pc c' with Releasing _ _ => 1 | _ => 0 end = match pc c with Releasing _ _ => 1 | _ => 0 end ->
  match pc c' with Drawing _ (Some f) => [sequence f] | _ => [] end =
    match pc c with Drawing _ (Some f) => [sequence f] | _ => [] end ->
  count_inv c -> count_inv c'.
Proof.
  intros Hs Hp Hd Hq Hl Hw Hf Hr Ht []. split; unfold timeline in *;
    rewrite ?Hs, ?Hp, ?Hd, ?Hq, ?Hl, ?Hw, ?Hf, ?Hr, ?Ht; done.
Qed.

Lemma sorted_snoc l n : StronglySorted Z.lt l -> Forall (fun m => m <= n) l -> StronglySorted Z.lt (l ++ [n + 1]).
Proof.
  intros Hs Hb. apply StronglySorted_app_2; [|done|repeat constructor].
  intros x y Hx ->%list_elem_of_singleton. eapply Forall_forall in Hb; [|exact Hx]. lia.
Qed.

Lemma count_enqueue c i ws r : count_inv c -> count_inv (enqueue c i ws r).
Proof.
  intros []. unfold timeline in *. rewrite app_assoc in ci_sorted0, ci_bound0.
  apply StronglySorted_app_1_l in ci_sorted0. apply Forall_app in ci_bound0 as [Hb _].
  split; unfold timeline; simpl; rewrite ?app_assoc; try done.
  - destruct (pending_ c); simpl in *; lia.
  - by apply sorted_snoc.
  - apply Forall_app. split; [|repeat constructor; lia]. eapply Forall_impl; [exact Hb|]. simpl. lia.
  - by intros f [= <-].
Qed.

Lemma count_work c c' : count_inv c -> work strategy c c' -> count_inv c'.
Proof.
  intros Hc Hw. destruct Hw as [c Hp _|c Hp Hs|c f Hp Hs Hf|c f Hp Hs Hn Hr Hl|c ws Hp Hs Hn Hr Hl Hws
    |c w rs todo f Hp|c Hp|c f Hp|c f old Hp]; try (by apply (count_frame c); simpl; rewrite ?Hp).
  - destruct Hc. unfold timeline in *. rewrite Hp, Hf in *. split; unfold timeline; simpl in *; try done; lia.
  - apply (count_frame c); simpl; rewrite ?Hp; try done; by destruct (f_windows f).
  - apply (count_frame c); simpl; rewrite ?Hp; try done; by destruct ws.
  - destruct Hc. unfold timeline in *. rewrite Hp in *. split; unfold timeline; simpl in *; try done; try lia.
    + rewrite length_app. simpl. lia.
    + by rewrite last_snoc.
    + by rewrite fmap_app, <- app_assoc.
    + by rewrite fmap_app, <- app_assoc.
  - destruct Hc. unfold timeline in *. rewrite Hp in *. split; unfold timeline; simpl in *; try done; lia.
Qed.

Lemma count_step c c' : count_inv c -> step strategy c c' -> count_inv c'.
Proof.
  intros Hc Hs. destruct Hs as [c c' Hw|c c' Hn|c Hp|c i rs ws Ha Hi Hws|c i w rs todo done c' Hi Hl Hf
    |c i rs fr Hi|c i Hi|c i ws Hi|c i ws r Hi|c i Ha Hi|c s Hot|c Ha Hall|c Hd Hp|c Hd|c Hd];
    try (by apply (count_frame c); simpl; rewrite ?Hp).
  - by eapply count_work.
  - destruct Hn as [c i Hi|c Hd]; unfold wake_up; simpl; destruct (pc c) eqn:Hp;
      by apply (count_frame c); simpl; rewrite ?Hp.
  - unfold freeze in Hf. destruct (w =? 0); [injection Hf as <-; by apply (count_frame c)|].
    destruct (retain rs (store c)) as [[s [rs'|]]|]; [| |done]; injection Hf as <-; by apply (count_frame c).
  - by apply count_enqueue.
Qed.

Lemma count_init s n : count_inv (composer_init s n).
Proof. split; try done; constructor. Qed.

(** ** Waking *)

Definition wake_inv (c : composer St) : Prop :=
  pc c = Waiting true -> wake c = true ->
  (exists i, guests c !! i = Some Notifying) \/ dtor c = Stopping.

Lemma wake_guest c i g : wake_inv c -> (guests c !! i <> Some Notifying) -> wake_inv (with_guest c i g).
Proof.
  intros Hc Hi Hp Hw. destruct (Hc Hp Hw) as [[j Hj]|?]; [|by right]. left. exists j.
  cbn [with_guest guests]. rewrite list_lookup_insert_ne; [done|]. intros ->. by rewrite Hj in Hi.
Qed.

Lemma wake_step c c' :
  match dtor c with Joined | Released | Destroyed => pc c = Exited | _ => True end ->
  wake_inv c -> step strategy c c' -> wake_inv c'.
Proof.
  intros Hx0 Hc Hs. destruct Hs as [c c' Hw|c c' Hn|c Hp|c i rs ws Ha Hi Hws|c i w rs todo done c' Hi Hl Hf
    |c i rs fr Hi|c i Hi|c i ws Hi|c i ws r Hi|c i Ha Hi|c s Hot|c Ha Hall|c Hd Hp|c Hd|c Hd].
  - destruct Hw as [c Hp Hw|c Hp Hs|c f Hp Hs Hf|c f Hp Hs Hn Hr Hl|c ws Hp Hs Hn Hr Hl Hws
      |c w rs todo f Hp|c Hp|c f Hp|c f old Hp]; intros Hx Hy; simpl in Hx; try done.
    + unfold wake in *. simpl in Hy. congruence.
    + by destruct (f_windows f).
    + by destruct ws.
  - destruct Hn as [c i Hi|c Hd]; intros Hx _; unfold wake_up in Hx; simpl in Hx;
      by destruct (pc c) eqn:Hp; simpl in Hx; rewrite ?Hp in Hx.
  - by intros Hx.
  - apply wake_guest; [done|]. congruence.
  - unfold freeze in Hf. assert (Hni : guests c !! i <> Some Notifying) by congruence.
    destruct (w =? 0); [injection Hf as <-; by apply wake_guest|].
    destruct (retain rs (store c)) as [[s [rs'|]]|]; [| |done]; injection Hf as <-; by apply wake_guest.
  - apply wake_guest; [done|]. simpl. congruence.
  - apply wake_guest; [done|]. congruence.
  - apply wake_guest; [done|]. congruence.
  - intros _ _. left. exists i. cbn [enqueue guests].
    apply list_lookup_insert_eq. by eapply lookup_lt_Some.
  - intros _ _. left. exists i. cbn [with_guest with_redraw guests].
    apply list_lookup_insert_eq. by eapply lookup_lt_Some.
  - exact Hc.
  - intros _ _. by right.
  - intros Hx. simpl in Hx. congruence.
  - intros Hx. simpl in Hx. rewrite Hd in Hx0. congruence.
  - intros Hx. simpl in Hx. rewrite Hd in Hx0. congruence.
Qed.

(** The worker on its own. *)
Lemma draw_all c todo f : pc c = Drawing todo f ->
  exists s, rtc (work strategy) c (with_pc (with_store c s) (Drawing [] f)).
Proof.
  revert c; induction todo as [|[w rs] todo IH]; intros c Hp.
  { exists (store c). rewrite with_store_same.
    replace (with_pc c (Drawing [] f)) with c by (destruct c; simpl in *; by rewrite Hp). done. }
  destruct (IH (with_pc (with_store c (draw_one c w rs)) (Drawing todo f)) eq_refl) as [s Hs].
  exists s. eapply rtc_l; [by apply work_draw|]. exact Hs.
Qed.

(** From any point of [run] the worker comes back to its wait, having drawn
    what it had taken. *)
Lemma worker_returns c : pc c <> Exited -> pc c <> Waiting true ->
  exists c', rtc (work strategy) c c' /\ pc c' = Waiting false /\ pending_ c' = pending_ c /\
    stopping_ c' = stopping_ c /\ dtor c' = dtor c /\
    (forall todo f, pc c = Drawing todo (Some f) -> last_presented_ c' = Some f).
Proof.
  intros He Hw. destruct (pc c) as [[]|todo [f|]|f old|] eqn:Hp; try done.
  - exists c. split; [done|]. done.
  - destruct (draw_all c todo (Some f) Hp) as [s Hs]. eexists. split; [|].
    + eapply rtc_r; [eapply rtc_r; [exact Hs|by apply work_swap]|]. by eapply work_finish.
    + do 4 (split; [done|]). by intros ? ? [= _ <-].
  - destruct (draw_all c todo None Hp) as [s Hs]. eexists. split; [|].
    + eapply rtc_r; [exact Hs|]. by apply work_redrawn.
    + done.
  - eexists. split; [eapply rtc_once; by eapply work_finish|]. done.
Qed.
Definition stop_inv (c : composer St) : Prop :=
  stopping_ c = match dtor c with Alive => false | _ => true end /\ (pc c = Exited -> stopping_ c = true).

Lemma stop_step c c' : stop_inv c -> step strategy c c' -> stop_inv c'.
Proof.
  intros [Hc He] Hs. destruct Hs as [c c' Hw|c c' Hn|c Hp|c i rs ws Ha Hi Hws|c i w rs todo done c' Hi Hl Hf
    |c i rs fr Hi|c i Hi|c i ws Hi|c i ws r Hi|c i Ha Hi|c s Hot|c Ha Hall|c Hd Hp|c Hd|c Hd];
    try (by split).
  - destruct Hw as [c Hp Hw|c Hp Hs|c f Hp Hs Hf|c f Hp Hs Hn Hr Hl|c ws Hp Hs Hn Hr Hl Hws
      |c w rs todo f Hp|c Hp|c f Hp|c f old Hp]; try (by split).
    + split; [done|]. simpl. by destruct (f_windows f).
    + split; [done|]. simpl. by destruct ws.
  - destruct Hn as [c i Hi|c Hd]; unfold wake_up; simpl; destruct (pc c) eqn:Hp; split; simpl; try done;
      intros Hx; (by apply He) || congruence.
  - unfold freeze in Hf. destruct (w =? 0); [injection Hf as <-; by split|].
    destruct (retain rs (store c)) as [[s [rs'|]]|]; [| |done]; injection Hf as <-; by split.
Qed.

(** ** Reachable states *)

Lemma composer_reachable s n c : holds ∅ s -> rtc (step strategy) (composer_init s n) c ->
  owner_inv c /\ count_inv c /\ wake_inv c /\ stop_inv c.
Proof.
  intros Hs. revert c. apply (rtc_ind_r (fun c => owner_inv c /\ count_inv c /\ wake_inv c /\ stop_inv c)).
  - split; [by apply owner_init|]. split; [apply count_init|]. split; [by intros Hp|by split].
  - intros c c' _ Hstep (Ho & Hc & Hw & Hst). split; [by eapply owner_step|].
    split; [by eapply count_step|]. split; [eapply wake_step; [apply Ho|done|done]|by eapply stop_step].
Qed.

Lemma work_step c c' : rtc (work strategy) c c' -> rtc (step strategy) c c'.
Proof. apply rtc_subrel. intros ?? ?. by apply step_work. Qed.

(** A stopped composer runs to its end. *)
Lemma joining_finishes c : owner_inv c -> wake_inv c -> stop_inv c -> dtor c = Joining ->
  exists c', rtc (step strategy) c c' /\ dtor c' = Joined.
Proof.
  intros Ho Hw [Hs He] Hd. rewrite Hd in Hs.
  destruct (decide (pc c = Exited)) as [Hx|Hx]; [eexists; by split; [by apply rtc_once, step_join|]|].
  destruct (worker_returns c Hx) as (c1 & H1 & Hp1 & _ & Hs1 & Hd1 & _).
  { intros Hp. destruct (Hw Hp) as [[i Hi]|]; [by unfold wake; rewrite Hs| |congruence].
    apply (oi_guests c Ho) in Hi; congruence. }
  eexists. split; [|].
  - etrans; [by apply work_step|]. eapply rtc_l; [apply step_work, work_stop; congruence|].
    apply rtc_once, step_join; [simpl; congruence|done].
  - done.
Qed.

Lemma destructor_finishes c : owner_inv c -> wake_inv c -> stop_inv c -> dtor c <> Alive ->
  exists c', rtc (step strategy) c c' /\ dtor c' = Destroyed.
Proof.
  intros Ho Hw Hst Hd.
  assert (Hj : exists c1, rtc (step strategy) c c1 /\ match dtor c1 with Joined | Released | Destroyed => True | _ => False end).
  { destruct (dtor c) eqn:Ed; [done| |by (destruct (joining_finishes c) as (c1 & ? & E); [done..|]; exists c1; rewrite E)
      |exists c; by rewrite Ed..].
    assert (Hn : step strategy c (wake_up (with_dtor c Joining true))) by (by apply step_notify, notify_stop).
    destruct (joining_finishes (wake_up (with_dtor c Joining true))) as (c1 & H1 & E).
    - by eapply owner_step.
    - eapply wake_step; [apply Ho|done|done].
    - by eapply stop_step.
    - unfold wake_up. by destruct (pc _).
    - exists c1. split; [by eapply rtc_l|]. by rewrite E. }
  destruct Hj as (c1 & H1 & Hd1). destruct (dtor c1) eqn:E1; try done.
  - eexists. split; [|].
    + etrans; [exact H1|]. eapply rtc_l; [by apply step_release_pending|]. by apply rtc_once, step_release_last.
    + done.
  - eexists. split; [|].
    + etrans; [exact H1|]. by apply rtc_once, step_release_last.
    + done.
  - by exists c1.
Qed.

End proofs.

Lemma owner_drawn {St} `{!frame_store St} (c : composer St) w rs todo f r :
  owner_inv c -> pc c = Drawing ((w, rs) :: todo) f -> w <> 0 -> r ∈ rs -> live (buffer r) (store c).
Proof.
  intros Ho Hp Hw Hrs. destruct (oi_holding c Ho) as [_ Hh].
  apply (live_law _ _ _ Hh). apply elem_of_list_to_set.
  pose proof (oi_drawing c Ho _ _ Hp (buffer r)) as Hd. rewrite frozen_lists_cons, decide_False in Hd by done.
  assert (Hin : buffer r ∈ match f with Some f => frame_handles f | None => opt_handles (last_presented_ c) end).
  { apply Hd. apply elem_of_app. left. apply elem_of_handles. by exists r. }
  pose proof (oi_dtor c Ho) as Hx. unfold owned. rewrite Hp. cbn [worker_handles]. rewrite !elem_of_app.
  destruct f as [f|]; [by right; right; left|]. right; left. destruct (dtor c); try done; congruence.
Qed.

Lemma owner_destroyed {St} `{!frame_store St} (c : composer St) :
  owner_inv c -> dtor c = Destroyed -> owned c = [].
Proof.
  intros Ho Hd. pose proof (oi_dtor c Ho) as Hx. rewrite Hd in Hx.
  assert (Hg : forall g, g ∈ guests c -> g = Idle).
  { intros g [i Hi]%list_elem_of_lookup_1. eapply (oi_guests c Ho); [by rewrite Hd|done]. }
  unfold owned. rewrite Hd, Hx. simpl. clear -Hg. induction (guests c) as [|g gs IH]; [done|].
  simpl. rewrite (Hg g) by by left. apply IH. intros g' ?. apply Hg. by right.
Qed.

(** C3: No snapshot is freed under the composer and none leaks.  In every
    interleaving of guests submitting frames (from any number of threads),
    redraw requests, the worker, the guests' other renderer calls and the
    destructor: the snapshots the renderer holds for the composer are exactly
    those of the frames in its hands, each in one place only; every layer the
    worker is about to draw in a window refers to a live snapshot; and once the
    composer is destroyed the renderer holds nothing for it any more. *)
Theorem composer_snapshots {St} `{!frame_store St} (strategy : list renderable -> windows -> Prop) s n c :
  (forall ws, strategy [] ws -> Forall (fun e => e.2 = []) ws) ->
  holds ∅ s -> rtc (step strategy) (composer_init s n) c ->
  NoDup (owned c) /\ holds (list_to_set (owned c)) (store c) /\
  (forall w rs todo f r, pc c = Drawing ((w, rs) :: todo) f -> w <> 0 -> r ∈ rs -> live (buffer r) (store c)) /\
  (dtor c = Destroyed -> holds ∅ (store c)).
Proof.
  intros Hst Hs Hr. destruct (composer_reachable strategy Hst s n c Hs Hr) as (Ho & _).
  destruct (oi_holding c Ho) as [Hnd Hh]. split; [done|]. split; [done|]. split.
  - intros w rs todo f r Hp Hw Hrs. by eapply owner_drawn.
  - intros Hd. by rewrite (owner_destroyed c Ho Hd) in Hh.
Qed.

(** Every frame is shown once, replaced or still on its way, and frames
    appear in the order of their submission.  At any time submitted = presented
    + dropped + waiting + being shown; the frames made last_presented have
    strictly increasing sequence numbers below the ones being drawn and
    waiting; and the waiting frame is the latest submitted one. *)
Theorem composer_frames {St} `{!frame_store St} (strategy : list renderable -> windows -> Prop) s n c :
  (forall ws, strategy [] ws -> Forall (fun e => e.2 = []) ws) ->
  holds ∅ s -> rtc (step strategy) (composer_init s n) c -> count_inv c.
Proof. intros Hst Hs Hr. by destruct (composer_reachable strategy Hst s n c Hs Hr) as (_ & ? & _). Qed.

(** C22: The worker never sleeps through work.  In every reachable state: if it
    sleeps although a frame waits, a redraw is requested or the composer stops,
    some thread is about to wake it; a waiting frame is shown by the steps of
    the worker (and that wake-up) alone; and a destructor that has begun can
    always finish. *)
Theorem composer_progress {St} `{!frame_store St} (strategy : list renderable -> windows -> Prop) s n c :
  (forall ws, strategy [] ws -> Forall (fun e => e.2 = []) ws) ->
  holds ∅ s -> rtc (step strategy) (composer_init s n) c ->
  wake_inv c /\
  (forall f, dtor c = Alive -> pending_ c = Some f ->
     exists c', rtc (fun a b => work strategy a b \/ notify a b) c c' /\ last_presented_ c' = Some f) /\
  (dtor c <> Alive -> exists c', rtc (step strategy) c c' /\ dtor c' = Destroyed).
Proof.
  intros Hst Hs Hr. destruct (composer_reachable strategy Hst s n c Hs Hr) as (Ho & _ & Hw & Hsi).
  split; [done|]. split; [|by apply destructor_finishes]. intros f Ha Hf.
  set (R := fun a b => work strategy a b \/ notify a b).
  assert (HR : forall a b, rtc (work strategy) a b -> rtc R a b).
  { intros a b. apply rtc_subrel. intros ?? ?. by left. }
  assert (Hstop : stopping_ c = false) by (destruct Hsi as [-> _]; by rewrite Ha).
  assert (Hgo : forall a, pc a = Waiting false -> stopping_ a = false -> pending_ a = Some f ->
    exists c', rtc R a c' /\ last_presented_ c' = Some f).
  { intros a Hp Hsa Hfa. destruct (worker_returns strategy (take_frame a f)) as (c' & H' & _ & _ & _ & _ & Hl);
      [done..|]. exists c'. split; [eapply rtc_l; [left; by apply work_take|by apply HR]|]. by eapply Hl. }
  destruct (decide (pc c = Waiting true)) as [Hp|Hp].
  - destruct (Hw Hp) as [[i Hi]|]; [unfold wake; by rewrite Hf, orb_true_r| |congruence].
    destruct (Hgo (wake_up (with_guest c i Idle))) as (c' & H' & Hl);
      [by unfold wake_up; simpl; rewrite Hp..|]. exists c'. split; [|done].
    eapply rtc_l; [right; by apply notify_guest|done].
  - destruct (worker_returns strategy c) as (c1 & H1 & Hp1 & Hf1 & Hs1 & _); [|done|].
    { intros He. destruct Hsi as [_ Hx]. rewrite Hx in Hstop by done. done. }
    destruct (Hgo c1) as (c' & H' & Hl); [done|congruence|congruence|]. exists c'.
    split; [|done]. etrans; [by apply HR|done].
Qed.

(** * The renderer keeps the laws *)

(** A renderer and the references its guests hold. *)
Definition guest_renderer : Type := (Z -> Z) * renderer.

Definition guest_call (c : call) : Prop :=
  match c with RetainFrame _ _ | ReleaseFrame _ => False | _ => True end.
(** Any call of a guest, on any handle: guests and the composer's snapshots share
    the handles, and the renderer asks nobody whose a handle is. *)
Definition guests_do (c : call) (s s' : guest_renderer) : Prop :=
  guest_call c /\ exists a, exec c s.2 = Some (s'.2, a) /\ s'.1 = owed c a s.1.
(** What the theorem asks of the guests: a handle that is closed is one they
    hold, and the 32-bit handles last. *)
Definition within_means (c : call) (s : guest_renderer) : Prop :=
  owns s.1 c /\ s_nextHandle s.2 + handles_of c < 2 ^ 32.
Definition guests_within_means (s s' : guest_renderer) : Prop := exists c, guests_do c s s' /\ within_means c s.

Definition with_frames (g : Z -> Z) (O : gset Z) : Z -> Z := fun h => g h + one_if (bool_decide (h ∈ O)).
Definition renderer_holds (O : gset Z) (s : guest_renderer) : Prop :=
  exists n, 0 <= n /\ exact (with_frames s.1 O) n s.2 /\ (forall h, 0 <= s.1 h) /\ 0 ∉ O.

Lemma owed_frames c a g O h : guest_call c -> owed c a (with_frames g O) h = with_frames (owed c a g) O h.
Proof.
  unfold with_frames. intros Hc. destruct c, a; simpl; try done; repeat case_match; try done;
    unfold bump; case_match; lia.
Qed.
Lemma owed_nonneg c a g : guest_call c -> owns g c -> (forall h, 0 <= g h) -> forall h, 0 <= owed c a g h.
Proof.
  intros Hc Ho Hg h. specialize (Hg h) as Hh. destruct c, a; simpl in *; try done; repeat case_match; try done;
    unfold bump; match goal with |- context [?a =? h] => destruct (Z.eqb_spec a h) as [<-|] end; lia.
Qed.

Section instance.
(** Which snapshots GL manages to copy. *)
Context (frozen : Z -> bool).

Lemma frames_retain O s rs :
  renderer_holds O s -> Z.of_nat (length rs) <= max_uint32 - s_nextHandle s.2 ->
  exists r' o, retain_frame frozen rs s.2 = Some (r', o) /\
    match o with
    | Some rs' => renderer_holds (O ∪ list_to_set (handles rs')) (s.1, r') /\ O ## list_to_set (handles rs')
    | None => renderer_holds O (s.1, r')
    end.
Proof.
  intros (n & Hn & He & Hg & H0) Hl. pose proof (ex_racc _ _ _ He) as [_ Hnext]. rewrite Hnext in Hl.
  destruct (retain_frame_exact frozen (with_frames s.1 O) n rs s.2 He Hn) as (r' & o & n' & -> & Hn' & He' & Ho);
    [unfold max_uint32 in Hl; lia|].
  exists r', o. split; [done|]. destruct o as [f|]; [|exists n'; split; [lia|done]].
  destruct (Ho f eq_refl) as [_ Hnew].
  assert (Hd : forall h, h ∈ O -> h ∈ handles f -> False).
  { intros h HhO (x & Hx & <-)%elem_of_handles. assert (n < buffer x) by (apply Hnew; by apply list_elem_of_fmap_2).
    destruct (exact_unused _ _ _ (buffer x) He) as [Hz _]; [lia|lia|].
    unfold with_frames in Hz. rewrite bool_decide_eq_true_2 in Hz by done. specialize (Hg (buffer x)). simpl in Hz. lia. }
  split.
  - exists n'. split; [lia|]. split; [|split; [done|]].
    + eapply exact_owed; [|exact He']. intros h. simpl. unfold with_frames. rewrite bump_all_eq.
      rewrite (bool_decide_ext (h ∈ O ∪ list_to_set (handles f)) (h ∈ O \/ h ∈ handles f)) by set_solver.
      rewrite (bool_decide_ext (h ∈ buffer <$> f) (h ∈ handles f))
        by (unfold handles; by rewrite elem_of_remove_dups).
      specialize (Hd h). repeat case_bool_decide; simpl; tauto || lia.
    + intros [?|Hz%elem_of_list_to_set]%elem_of_union; [done|].
      unfold handles in Hz. rewrite elem_of_remove_dups in Hz. specialize (Hnew 0 Hz). lia.
  - intros h Hh1 Hh2%elem_of_list_to_set. by apply (Hd h).
Qed.

Lemma frames_release O s rs : renderer_holds O s -> list_to_set (handles rs) ⊆ O ->
  renderer_holds (O ∖ list_to_set (handles rs)) (s.1, release_frame rs s.2).
Proof.
  intros (n & Hn & He & Hg & H0) Hsub. exists n. split; [done|]. split; [|split; [done|set_solver]].
  eapply exact_owed; [|apply (release_frame_exact n rs ∅ (with_frames s.1 O)); [exact He|]].
  - intros h. cbv beta. simpl. rewrite (bool_decide_eq_false_2 (h ∈ ∅)) by set_solver. rewrite bump_all_eq.
    unfold with_frames. assert (h ∈ buffer <$> rs -> h ∈ O).
    { intros Hh. apply Hsub, elem_of_list_to_set. unfold handles. by rewrite elem_of_remove_dups. }
    rewrite (bool_decide_ext (h ∈ O ∖ list_to_set (handles rs)) (h ∈ O /\ h ∉ buffer <$> rs)).
    + repeat case_bool_decide; simpl; tauto || lia.
    + rewrite elem_of_difference, elem_of_list_to_set. unfold handles. by rewrite elem_of_remove_dups.
  - intros x Hx _. assert (buffer x ∈ O) as HxO by (apply Hsub, elem_of_list_to_set, elem_of_handles; by exists x).
    split; [by intros Hz; rewrite Hz in HxO|]. unfold with_frames. rewrite bool_decide_eq_true_2 by done.
    specialize (Hg (buffer x)). simpl. lia.
Qed.

Lemma frames_others O s s' : renderer_holds O s -> guests_within_means s s' -> renderer_holds O s'.
Proof.
  intros (n & Hn & He & Hg & H0) (c & (Hc & a & Hx & Hg') & Ho & Hb). rewrite (proj2 (ex_racc _ _ _ He)) in Hb.
  destruct (exec_exact c (with_frames s.1 O) n s.2 s'.2 a He Hn Hb) as (n' & Hn' & He'); [|done|].
  - destruct c; try done. simpl in *. unfold with_frames. destruct Ho. split; [done|]. case_bool_decide; simpl; lia.
  - exists n'. split; [done|]. split; [|split; [|done]].
    + eapply exact_owed; [|exact He']. intros h. rewrite Hg'. by apply owed_frames.
    + intros h. rewrite Hg'. by apply owed_nonneg.
Qed.

Lemma frames_live O s h : renderer_holds O s -> h ∈ O -> is_Some (m_colorbuffers s.2 !! h).
Proof.
  intros (n & _ & [Hr Hrefs _] & Hg & H0) Hh. assert (h <> 0) as Hne by (by intros ->).
  specialize (Hrefs h Hne). unfold with_frames in Hrefs. rewrite bool_decide_eq_true_2 in Hrefs by done.
  unfold references in Hrefs. destruct (m_colorbuffers s.2 !! h); [by eexists|].
  specialize (Hg h). pose proof (attached_nonneg s.2 h). pose proof (posted_range s.2 h). simpl in Hrefs. lia.
Qed.

Definition renderer_retain (rs : list renderable) (s : guest_renderer)
    : option (guest_renderer * option (list renderable)) :=
  match retain_frame frozen rs s.2 with Some (r', o) => Some ((s.1, r'), o) | None => None end.

Lemma frames_retain_law O s rs :
  renderer_holds O s -> Z.of_nat (length rs) <= max_uint32 - s_nextHandle s.2 ->
  exists s' o, renderer_retain rs s = Some (s', o) /\
    match o with
    | Some rs' => renderer_holds (O ∪ list_to_set (handles rs')) s' /\ O ## list_to_set (handles rs')
    | None => renderer_holds O s'
    end.
Proof.
  intros Hs Hl. unfold renderer_retain. destruct (frames_retain O s rs Hs Hl) as (r' & o & -> & Ho).
  by exists (s.1, r'), o.
Qed.

#[global] Instance renderer_frames : frame_store guest_renderer := {
  retain := renderer_retain;
  release rs s := (s.1, release_frame rs s.2);
  show _ _ s := s;
  others := guests_within_means;
  left s := max_uint32 - s_nextHandle s.2;
  holds := renderer_holds;
  live h s := is_Some (m_colorbuffers s.2 !! h);
  retain_law := frames_retain_law;
  release_law := frames_release;
  show_law _ _ _ _ H := H;
  others_law := frames_others;
  live_law := frames_live
}.
End instance.

Lemma frames_init : renderer_holds ∅ ((fun _ => 0), renderer_init).
Proof.
  destruct (reach_exact _ _ reach_init) as (n & Hn & He). exists n. split; [done|].
  split; [|split; [done|set_solver]]. eapply exact_owed; [|exact He]. intros h. simpl. unfold with_frames.
  by rewrite bool_decide_eq_false_2 by set_solver.
Qed.

(** C1: Composer (in the mode that presents the latest frame), renderer and
    guests together.  As long as the guests close only handles that they hold
    and fewer than 2^32 handles have been given out, then in any interleaving of
    the guests' threads, the window manager and the composer's threads: each
    color buffer's reference count is the references its guests hold, plus one
    if it is a snapshot of a frame in the composer's hands, plus the window
    surfaces showing it and the posted slot; every layer about to be drawn is a
    live color buffer; and when the composer is gone only the guests' own
    references, windows and the posted buffer keep anything alive.  The renderer
    checks no owner: [guest_closes_snapshot] shows what a guest that closes
    another's handle can do. *)
Theorem composer_on_renderer (frozen : Z -> bool) (strategy : list renderable -> windows -> Prop) n c :
  (forall ws, strategy [] ws -> Forall (fun e => e.2 = []) ws) ->
  rtc (@step _ (renderer_frames frozen) strategy) (composer_init ((fun _ => 0), renderer_init) n) c ->
  let (g, r) := store c in
  (forall h, h <> 0 -> references r h =
     g h + one_if (bool_decide (h ∈ owned c)) + attached r h + posted r h) /\
  (forall w rs todo f x, pc c = Drawing ((w, rs) :: todo) f -> w <> 0 -> x ∈ rs ->
     is_Some (m_colorbuffers r !! buffer x)) /\
  (dtor c = Destroyed -> forall h, h <> 0 -> references r h = g h + attached r h + posted r h).
Proof.
  intros Hst Hr.
  destruct (@composer_reachable _ (renderer_frames frozen) strategy Hst _ n c frames_init Hr) as (Ho & _).
  pose proof (oi_holding c Ho) as [_ Hh]. destruct (store c) as [g r] eqn:Es.
  assert (Href : forall h, h <> 0 -> references r h =
     g h + one_if (bool_decide (h ∈ owned c)) + attached r h + posted r h).
  { intros h Hne. destruct Hh as (m & _ & [_ Hrefs _] & _). simpl in Hrefs. rewrite Hrefs by done.
    unfold with_frames. by rewrite (bool_decide_ext (h ∈ (list_to_set (owned c) : gset Z)) (h ∈ owned c))
      by apply elem_of_list_to_set. }
  split; [done|]. split.
  - intros w rs todo f x Hp Hw Hx.
    pose proof (@owner_drawn _ (renderer_frames frozen) c w rs todo f x Ho Hp Hw Hx) as Hl.
    change (is_Some (m_colorbuffers (store c).2 !! buffer x)) in Hl. by rewrite Es in Hl.
  - intros Hd h Hne. rewrite Href by done. rewrite (owner_destroyed c Ho Hd).
    rewrite bool_decide_eq_false_2 by apply not_elem_of_nil. simpl. lia.
Qed.

(** A guest submits a layer of a buffer; the frame is frozen, taken and about to
    be drawn. *)
Definition example_strategy (rs : list renderable) (ws : windows) : Prop :=
  ws = by_key (single_process_layers 70 rs).
Definition layer_1 : renderable := Renderable [] 1 (Rect 0 0 8 8) (Rect 0 0 8 8) 0.

Section example.
Local Existing Instance renderer_frames.
Abbreviation rf := (renderer_frames (fun _ => true)).
Definition example_0 : composer guest_renderer := composer_init ((fun _ => 0), renderer_init) 1.
Definition create_call : call := CreateColorBuffer true 8 8 GL_RGBA.
Definition example_1 : composer guest_renderer :=
  with_store example_0 (default (store example_0)
    (x ← exec create_call renderer_init; Some (owed create_call x.2 (fun _ => 0), x.1))).
Definition example_2 := with_guest example_1 0 (Freezing [(70, [layer_1])] []).
Definition example_3 : composer guest_renderer :=
  default example_2 (@freeze _ rf example_2 0 70 [layer_1] [] []).
Definition example_ws : windows := match guests example_3 !! 0%nat with Some (Freezing _ ws) => ws | _ => [] end.
Definition example_4 := with_guest example_3 0 (Submitting example_ws (concat (frozen_lists example_ws))).
Definition example_5 : composer guest_renderer :=
  @enqueue _ rf example_4 0 example_ws (concat (frozen_lists example_ws)).
Definition example_6 : composer guest_renderer :=
  take_frame example_5 (Frame example_ws (concat (frozen_lists example_ws)) 1).

Lemma example_strategy_empty ws : example_strategy [] ws -> Forall (fun e => e.2 = []) ws.
Proof. intros ->. vm_compute. by repeat constructor. Qed.

Lemma example_5_reached : rtc (@step _ rf example_strategy) example_0 example_5.
Proof.
  eapply rtc_l; [apply (@step_others _ rf _ example_0 (store example_1))|].
  { exists create_call. split; [|by split]. split; [done|]. eexists. split; reflexivity. }
  eapply rtc_l; [apply (@step_submit _ rf _ example_1 0 [layer_1] [(70, [layer_1])]); reflexivity|].
  eapply rtc_l; [apply (@step_freeze _ rf _ example_2 0 70 [layer_1] [] [] example_3);
    [reflexivity|vm_compute; discriminate|reflexivity]|].
  eapply rtc_l; [apply (@step_frozen _ rf _ example_3 0 example_ws); reflexivity|].
  apply rtc_once. apply (@step_enqueue _ rf _ example_4 0); reflexivity.
Qed.
Lemma example_6_reached : rtc (@step _ rf example_strategy) example_0 example_6.
Proof.
  eapply rtc_r; [apply example_5_reached|]. apply step_work. by apply work_take.
Qed.
End example.

(** A guest that closes the handle of a snapshot, which it never held: the
    buffer is gone while the composer is about to draw it. *)
Lemma guest_closes_snapshot :
  exists s', guests_do (CloseColorBuffer 2) (store example_6) s' /\
    2 ∈ @owned guest_renderer example_6 /\ m_colorbuffers s'.2 !! 2 = None.
Proof.
  eexists (_, _). split; [split; [done|]; eexists; split; reflexivity|]. split; [by left|reflexivity].
Qed.

Lemma composer_snapshots_witness :
  NoDup (@owned guest_renderer example_6) /\ owned example_6 = [2] /\
  is_Some (m_colorbuffers (store example_6).2 !! 2).
Proof.
  destruct (@composer_snapshots guest_renderer (renderer_frames (fun _ => true)) example_strategy
    _ 1 example_6 example_strategy_empty frames_init example_6_reached) as (Hnd & _ & Hl & _).
  split; [exact Hnd|]. split; [reflexivity|].
  apply (Hl 70 [set_buffer layer_1 2] [] (Some (Frame example_ws (concat (frozen_lists example_ws)) 1))
    (set_buffer layer_1 2)); [reflexivity|discriminate|by left].
Defined.

Lemma composer_frames_witness : count_inv example_6 /\ submitted_ example_6 = 1 /\ presented_ example_6 = 0.
Proof.
  split; [|split; reflexivity].
  exact (@composer_frames guest_renderer (renderer_frames (fun _ => true)) example_strategy
    _ 1 example_6 example_strategy_empty frames_init example_6_reached).
Defined.

Lemma composer_progress_witness :
  exists c' f, pending_ example_5 = Some f /\ sequence f = 1 /\ last_presented_ c' = Some f /\
    rtc (fun a b => @work _ (renderer_frames (fun _ => true)) example_strategy a b \/ notify a b) example_5 c'.
Proof.
  destruct (@composer_progress guest_renderer (renderer_frames (fun _ => true)) example_strategy
    _ 1 example_5 example_strategy_empty frames_init example_5_reached) as (_ & Hp & _).
  destruct (Hp (Frame example_ws (concat (frozen_lists example_ws)) 1)) as (c' & Hc' & Hl); [reflexivity..|].
  exists c', (Frame example_ws (concat (frozen_lists example_ws)) 1). split; [reflexivity|].
  split; [reflexivity|]. split; [exact Hl|exact Hc'].
Defined.

Lemma composer_on_renderer_witness :
  exists g r, store example_6 = (g, r) /\ references r 1 = 1 /\ references r 2 = 1 /\ g 1 = 1 /\ g 2 = 0 /\
    references r 2 = g 2 + one_if (bool_decide (2 ∈ owned example_6)) + attached r 2 + posted r 2.
Proof.
  pose proof (composer_on_renderer (fun _ => true) example_strategy 1 example_6 example_strategy_empty
    example_6_reached) as H. destruct (store example_6) as [g r] eqn:E. destruct H as [H _].
  exists g, r. split; [reflexivity|].
  assert (H2 := H 2). vm_compute in E. injection E as <- <-.
  do 4 (split; [reflexivity|]). apply H2. discriminate.
Defined.
