(* ===== verification/Qemud.v ===== *)
(** The qemud services of the guest's /dev/qemu_pipe: the framing shared by
    them (qemu/qemud_message_processor.cpp), over the [handle_command] of the
    service, which is virtual in the source.  The services are in
    QemuServices.v. *)

From S2P Require Import Prelude.

Local Open Scope Z_scope.

(** * Headers *)

Definition header_size : nat := 4.

(** [std::snprintf(header, 5, "%04zx", size)]: the terminating NUL takes the
    fifth byte, so longer numbers lose their last digits. *)
Definition send_header (size : Z) : bytes :=
  take header_size (zero_pad 4 (print_u 16 (u64 size))).
Definition finish_message : bytes := [x00].

Definition hex_value (b : byte) : option Z :=
  let v := bval b in
  if (48 <=? v) && (v <=? 57) then Some (v - 48)
  else if (97 <=? v) && (v <=? 102) then Some (v - 87)
  else if (65 <=? v) && (v <=? 70) then Some (v - 55)
  else None.

(** [sscanf(header, "%04x", &body_size)] on the four bytes of [header], which
    has no terminating NUL: leading spaces do not count for the width of four,
    so the conversion can run off the array ([Undef]).  A conversion without
    digits leaves [body_size] at its initial 0, and a sign wraps it around. *)
Fixpoint scan_digits (width : nat) (l : bytes) (v : Z) : outcome Z :=
  match width, l with
  | O, _ => Ret v
  | S _, [] => Undef
  | S width', b :: l' =>
      match hex_value b with
      | Some d => scan_digits width' l' (16 * v + d)
      | None => Ret v
      end
  end.
Definition scan_prefixed (width : nat) (l : bytes) : outcome Z :=
  match width, l with
  | S (S width' as w), b :: l' =>
      if Byte.eqb b x30 then
        match l' with
        | [] => Undef
        | c :: l'' =>
            if Byte.eqb c x78 || Byte.eqb c x58 then scan_digits width' l'' 0
            else scan_digits w l' 0
        end
      else scan_digits width l 0
  | _, _ => scan_digits width l 0
  end.
(** The array has no NUL behind its four bytes, and [sscanf] asks for a string:
    by the standard every call is undefined.  What is modelled is the usual
    implementation, where it matters only when a conversion would read on. *)
Definition scan_04x (header : bytes) : outcome Z :=
  match skip_spaces header with
  | [] => Undef
  | b :: l =>
      if Byte.eqb b x2d then v <-! scan_prefixed 3 l; Ret (u32 (- v))
      else if Byte.eqb b x2b then scan_prefixed 3 l
      else scan_prefixed 4 (b :: l)
  end.

(** * The message processor *)

Section processor.
(** What a command does is the virtual [handle_command] of the service, on
    whatever the service changes (for the services below, what they sent). *)
Context {W : Type} (handle_command : W -> bytes -> W).

(** [buffer_] and the service's state. *)
Definition qemud : Type := bytes * W.

(** One turn of [process_commands]' [while (true)].  [remaining] is computed
    from the size after the erase, and the comparison with 0 is between
    unsigned numbers. *)
Definition process_turn (s : qemud) : qemud + outcome qemud :=
  let (buffer, w) := s in
  if (length buffer <? header_size)%nat then inr (Ret s)
  else
    match scan_04x (take header_size buffer) with
    | Ret body_size =>
        let total_size := Z.of_nat header_size + body_size in
        if Z.of_nat (length buffer) <? total_size then inr (Ret s)
        else
          let command := take (Z.to_nat body_size) (drop header_size buffer) in
          let w' := handle_command w command in
          let buffer' := drop (Z.to_nat total_size) buffer in
          let remaining := u64 (Z.of_nat (length buffer') - total_size) in
          if remaining <=? 0 then inr (Ret (buffer', w')) else inl (buffer', w')
    | o => inr (s' <-! o; Ret s)
    end.

(** Every turn takes at least the header out of the buffer. *)
Definition process_commands (s : qemud) : option (outcome qemud) :=
  loop (S (length s.1)) process_turn s.

Definition process_data (data : bytes) (s : qemud) : option (outcome qemud) :=
  process_commands (s.1 ++ data, s.2).

(** What the connection feeds it, one call per read. *)
Fixpoint feed (chunks : list bytes) (s : qemud) : option (outcome qemud) :=
  match chunks with
  | [] => Some (Ret s)
  | data :: chunks' =>
      match process_data data s with
      | Some (Ret s') => feed chunks' s'
      | r => r
      end
  end.
End processor.

(** * Frames *)

(** What a guest writes for a command. *)
Definition frame (command : bytes) : bytes :=
  send_header (Z.of_nat (length command)) ++ command.
Definition encode (cs : list bytes) : bytes := concat (frame <$> cs).
Definition small (command : bytes) : Prop := Z.of_nat (length command) < 65536.

(** * Lemmas: headers *)

Lemma digit_char_facts d : 0 <= d < 16 ->
  hex_value (digit_char d) = Some d /\ is_space (digit_char d) = false /\
  Byte.eqb (digit_char d) x2d = false /\ Byte.eqb (digit_char d) x2b = false /\
  Byte.eqb (digit_char d) x78 = false /\ Byte.eqb (digit_char d) x58 = false.
Proof.
  intros H.
  assert (d = 0 \/ d = 1 \/ d = 2 \/ d = 3 \/ d = 4 \/ d = 5 \/ d = 6 \/ d = 7 \/ d = 8 \/ d = 9 \/
    d = 10 \/ d = 11 \/ d = 12 \/ d = 13 \/ d = 14 \/ d = 15) as Hd by lia.
  repeat destruct Hd as [->|Hd]; try subst d; vm_compute; tauto.
Qed.

Lemma scan_digits_spec ds v :
  Forall (fun d => 0 <= d < 16) ds ->
  scan_digits (length ds) (digit_char <$> ds) v = Ret (base_value 16 ds v).
Proof.
  intros Hds; revert v; induction Hds as [|d ds Hd _ IH]; intros v; [done|].
  simpl. destruct (digit_char_facts d Hd) as [-> _]. rewrite IH. by rewrite Z.mul_comm.
Qed.

Lemma digit_char_zero d : 0 <= d < 16 -> Byte.eqb (digit_char d) x30 = true -> d = 0.
Proof.
  intros Hd E. apply Byte.byte_dec_bl in E.
  destruct (digit_char_facts d Hd) as [Hh _]. rewrite E in Hh. vm_compute in Hh. congruence.
Qed.

(** Four digits scan to the number they denote. *)
Lemma scan_04x_digits ds :
  length ds = 4%nat -> Forall (fun d => 0 <= d < 16) ds ->
  scan_04x (digit_char <$> ds) = Ret (base_value 16 ds 0).
Proof.
  intros Hl Hds. destruct ds as [|d ds]; [done|].
  pose proof (Forall_inv Hds) as Hd. pose proof (Forall_inv_tail Hds) as Hds'.
  destruct (digit_char_facts d Hd) as (_ & Hs & Hm & Hp & _).
  unfold scan_04x. simpl skip_spaces. rewrite Hs, Hm, Hp.
  replace 4%nat with (length (d :: ds)) by done. unfold scan_prefixed.
  destruct ds as [|e ds]; [done|]. cbn [length fmap list_fmap].
  destruct (Byte.eqb (digit_char d) x30) eqn:E.
  - apply digit_char_zero in E as ->; [|done].
    destruct (digit_char_facts e (Forall_inv Hds')) as (_ & _ & _ & _ & -> & ->). cbn [orb].
    exact (scan_digits_spec (e :: ds) 0 Hds').
  - exact (scan_digits_spec (d :: e :: ds) 0 Hds).
Qed.

(** The digits of a header. *)
Lemma send_header_digits n : 0 <= n < 65536 ->
  exists ds, send_header n = digit_char <$> ds /\ length ds = 4%nat /\
    Forall (fun d => 0 <= d < 16) ds /\ base_value 16 ds 0 = n.
Proof.
  intros Hn. unfold send_header, print_u, u64. rewrite Z.mod_small by lia.
  destruct (print_digits_spec 16 64 n 4) as (ds & -> & Hds & Hv & Hl); [lia..|].
  exists (replicate (4 - length ds) 0 ++ ds).
  assert (zero_pad 4 (digit_char <$> ds) = digit_char <$> (replicate (4 - length ds) 0 ++ ds)) as ->.
  { unfold zero_pad. by rewrite length_fmap, fmap_app, fmap_replicate. }
  split_and!.
  - rewrite take_ge; [done|]. unfold header_size. len. lia.
  - len. lia.
  - apply Forall_app_2; [|done]. apply Forall_replicate. lia.
  - rewrite base_value_app. replace (base_value 16 (replicate (4 - length ds) 0) 0) with 0; [done|].
    generalize (4 - length ds)%nat as k. induction k as [|k IH]; [done|]. simpl. done.
Qed.

Lemma header_roundtrip n : 0 <= n < 65536 ->
  scan_04x (send_header n) = Ret n /\ length (send_header n) = 4%nat.
Proof.
  intros Hn. destruct (send_header_digits n Hn) as (ds & -> & Hl & Hds & <-).
  split; [by apply scan_04x_digits|]. by rewrite length_fmap.
Qed.

(** A size of five digits is announced without its last digit. *)
Lemma long_header_truncated : send_header 65536 = str "1000".
Proof. reflexivity. Qed.

Lemma frame_split c rest : small c ->
  take header_size (frame c ++ rest) = send_header (Z.of_nat (length c)) /\
  drop header_size (frame c ++ rest) = c ++ rest /\
  length (frame c) = (4 + length c)%nat.
Proof.
  intros Hc. destruct (header_roundtrip (Z.of_nat (length c))) as [_ Hl]; [unfold small in Hc; lia|].
  unfold frame. rewrite <- app_assoc. split_and!.
  - by rewrite take_app_le, take_ge by (rewrite Hl; done).
  - by rewrite drop_app_ge, Hl by (rewrite Hl; done).
  - by rewrite length_app, Hl.
Qed.

(** * Lemmas: the message processor *)

Lemma scan_digits_nonneg w l v z : 0 <= v -> scan_digits w l v = Ret z -> 0 <= z.
Proof.
  revert l v; induction w as [|w IH]; intros l v Hv Hs; simpl in Hs; [by simplify_eq|].
  destruct l as [|b l]; [done|]. destruct (hex_value b) as [d|] eqn:E; [|by simplify_eq].
  apply (IH l (16 * v + d)); [|done].
  assert (0 <= d); [|lia]. unfold hex_value in E. pose proof (bval_range b).
  repeat case_match; simplify_eq; bdestruct_all; lia.
Qed.
Lemma scan_prefixed_nonneg w l z : scan_prefixed w l = Ret z -> 0 <= z.
Proof.
  unfold scan_prefixed. intros Hs.
  repeat case_match; simplify_eq; (eapply scan_digits_nonneg; [|exact Hs]; lia).
Qed.
Lemma scan_04x_nonneg h z : scan_04x h = Ret z -> 0 <= z.
Proof.
  unfold scan_04x. destruct (skip_spaces h) as [|b l]; [done|].
  destruct (Byte.eqb b x2d).
  - destruct (scan_prefixed 3 l); simpl; intros; simplify_eq. apply u32_range.
  - destruct (Byte.eqb b x2b); apply scan_prefixed_nonneg.
Qed.


Lemma encode_cons c cs : encode (c :: cs) = frame c ++ encode cs.
Proof. done. Qed.
Lemma encode_app cs ds : encode (cs ++ ds) = encode cs ++ encode ds.
Proof. unfold encode. by rewrite fmap_app, concat_app. Qed.

Section processor.
Context {W : Type} (handle_command : W -> bytes -> W).

(** The buffer holds no complete command. *)
Definition waiting (buffer : bytes) (cs : list bytes) : Prop :=
  match cs with
  | c :: _ => (length buffer < length (frame c))%nat
  | [] => buffer = []
  end.

(** A turn on a buffer that starts the frames of [cs]. *)
Lemma process_turn_spec cs b w :
  Forall small cs -> b `prefix_of` encode cs -> Z.of_nat (length b) < 2 ^ 63 ->
  (waiting b cs /\ process_turn handle_command (b, w) = inr (Ret (b, w))) \/
  exists c cs' b', cs = c :: cs' /\ b = frame c ++ b' /\
    process_turn handle_command (b, w) =
      if bool_decide (length b' = length (frame c)) then inr (Ret (b', handle_command w c))
      else inl (b', handle_command w c).
Proof.
  intros Hcs [t Ht] Hmax. destruct cs as [|c cs].
  { destruct b; [|done]. left. done. }
  pose proof (Forall_inv Hcs) as Hc. rewrite encode_cons in Ht.
  destruct (frame_split c (encode cs) Hc) as (Htk & _ & Hl).
  assert (length b < length (frame c) \/ length (frame c) <= length b)%nat as [Hlt|Hge] by lia.
  - left. split; [done|]. unfold process_turn.
    destruct (length b <? header_size)%nat eqn:E; [done|]. bdestruct_all.
    assert (take header_size b = send_header (Z.of_nat (length c))) as ->.
    { rewrite <- Htk, Ht, take_app_le by lia. done. }
    destruct (header_roundtrip (Z.of_nat (length c))) as [-> _]; [unfold small in Hc; lia|].
    rewrite (proj2 (Z.ltb_lt _ _)); [done|]. unfold header_size. lia.
  - right. assert (exists b', b = frame c ++ b') as [b' ->].
    { exists (drop (length (frame c)) b). rewrite <- (take_drop (length (frame c)) b) at 1.
      f_equal. apply (f_equal (take (length (frame c)))) in Ht.
      rewrite take_app_length, take_app_le in Ht by done. done. }
    exists c, cs, b'. split_and!; [done..|]. unfold process_turn.
    destruct (frame_split c b' Hc) as (-> & -> & _).
    destruct (header_roundtrip (Z.of_nat (length c))) as [-> _]; [unfold small in Hc; lia|].
    rewrite length_app, Hl, (proj2 (Nat.ltb_ge _ _)) by (unfold header_size; lia). cbv zeta.
    rewrite (proj2 (Z.ltb_ge _ _)) by (unfold header_size; lia).
    rewrite Nat2Z.id, take_app_length.
    replace (Z.to_nat (Z.of_nat header_size + Z.of_nat (length c))) with (length (frame c))
      by (rewrite Hl; unfold header_size; lia).
    rewrite drop_app_length. rewrite length_app, Hl in Hmax. unfold u64, header_size.
    set (r := Z.of_nat (length b') - (Z.of_nat 4 + Z.of_nat (length c))).
    pose proof (Z.mod_pos_bound r (2 ^ 64) eq_refl) as Hr.
    assert (r `mod` 2 ^ 64 = 0 <-> length b' = length (frame c)) as Hiff.
    { rewrite Hl. subst r. split; intros Hz; [|rewrite Hz; replace (Z.of_nat _ - _) with 0 by lia; done].
      apply Z.mod_divide in Hz as [q Hq]; lia. }
    destruct (r `mod` 2 ^ 64 <=? 0) eqn:E; bdestruct_all; case_bool_decide; try done; lia.
Qed.

Context (total : list bytes) (Hsmall : Forall small total).

(** The commands handled so far and the bytes still in the buffer are exactly
    what the guest sent. *)
Definition conserved (w0 : W) (data : bytes) (k : nat) (s : qemud) : Prop :=
  (k <= length total)%nat /\ data = encode (take k total) ++ s.1 /\
  s.2 = fold_left handle_command (take k total) w0.

(** Why [process_commands] stopped. *)
Definition stalled (k : nat) (b : bytes) : Prop :=
  exists c, last (take k total) = Some c /\ length b = length (frame c).

Lemma process_commands_spec w0 data k s :
  data `prefix_of` encode total -> Z.of_nat (length data) < 2 ^ 63 ->
  conserved w0 data k s ->
  exists k' s', process_commands handle_command s = Some (Ret s') /\ (k <= k')%nat /\
    conserved w0 data k' s' /\ (waiting s'.1 (drop k' total) \/ stalled k' s'.1).
Proof.
  intros Hpre Hmax Hk. unfold process_commands.
  destruct (loop_spec (process_turn handle_command) (fun s => length s.1)
    (fun s => exists k', (k <= k')%nat /\ conserved w0 data k' s)
    (fun o => exists k' s', o = Ret s' /\ (k <= k')%nat /\ conserved w0 data k' s' /\
       (waiting s'.1 (drop k' total) \/ stalled k' s'.1)) (S (length s.1)) s) as (o & Ho & Hq).
  - clear s Hk. intros [b w] (k' & Hkk & Hle & Hdata & Hw). simpl in Hdata, Hw.
    assert (b `prefix_of` encode (drop k' total)) as Hb.
    { rewrite Hdata, <- (take_drop k' total), encode_app, take_drop in Hpre.
      by apply prefix_app_inv in Hpre. }
    destruct (process_turn_spec (drop k' total) b w) as [[Hwait ->]|(c & cs' & b' & Hd & -> & Hturn)].
    { by apply Forall_drop. } { done. } { rewrite Hdata, length_app in Hmax. lia. }
    { exists k', (b, w). split_and!; [done..|by left]. }
    assert (take (S k') total = take k' total ++ [c]) as Htake.
    { apply take_S_r. by rewrite <- (Nat.add_0_r k'), <- lookup_drop, Hd. }
    assert (S k' <= length total)%nat.
    { apply (f_equal length) in Hd. rewrite length_drop in Hd. simpl in Hd. lia. }
    assert (conserved w0 data (S k') (b', handle_command w c)) as Hcons.
    { split_and!; [done| |].
      - rewrite Hdata, Htake, encode_app, <- !app_assoc. unfold encode. simpl. by rewrite app_nil_r.
      - simpl. by rewrite Htake, fold_left_app, <- Hw. }
    rewrite Hturn. case_bool_decide as Hlen.
    + exists (S k'), (b', handle_command w c). split_and!; [done|lia|done|]. right.
      exists c. by rewrite Htake, last_snoc.
    + split; [exists (S k'); split; [lia|done]|]. simpl. rewrite length_app.
      unfold frame. rewrite length_app.
      assert (length (send_header (Z.of_nat (length c))) = 4%nat) as ->; [|lia].
      apply header_roundtrip. apply (Forall_drop _ k') in Hsmall. rewrite Hd in Hsmall.
      apply Forall_inv in Hsmall. unfold small in Hsmall. lia.
  - exists k. done.
  - lia.
  - destruct Hq as (k' & s' & -> & ?). by exists k', s'.
Qed.

Lemma feed_spec w0 chunks data k s :
  data ++ concat chunks `prefix_of` encode total ->
  Z.of_nat (length (data ++ concat chunks)) < 2 ^ 63 ->
  conserved w0 data k s -> waiting s.1 (drop k total) \/ stalled k s.1 ->
  exists k' s', feed handle_command chunks s = Some (Ret s') /\
    conserved w0 (data ++ concat chunks) k' s' /\ (waiting s'.1 (drop k' total) \/ stalled k' s'.1).
Proof.
  revert data k s; induction chunks as [|d chunks IH]; intros data k s Hpre Hmax Hc Hs.
  { exists k, s. simpl. by rewrite app_nil_r. }
  cbn [concat] in *. rewrite app_assoc in *.
  destruct (process_commands_spec w0 (data ++ d) k (s.1 ++ d, s.2)) as (k' & s' & Hp & _ & Hc' & Hs').
  { by apply prefix_app_l in Hpre. } { rewrite length_app in Hmax. lia. }
  { destruct Hc as (? & -> & ?). split_and!; [done| |done]. simpl. by rewrite app_assoc. }
  simpl. unfold process_data. rewrite Hp. by apply (IH _ k').
Qed.
End processor.

(** The framing of a whole stream, for the services built on it. *)
Lemma feed_total {W : Type} (handle_command : W -> bytes -> W) (w0 : W)
    (cs : list bytes) (chunks : list bytes) :
  Forall small cs -> concat chunks `prefix_of` encode cs ->
  Z.of_nat (length (concat chunks)) < 2 ^ 63 ->
  exists k b, feed handle_command chunks ([], w0)
                = Some (Ret (b, fold_left handle_command (take k cs) w0)) /\
    concat chunks = encode (take k cs) ++ b /\
    (waiting b (drop k cs) \/ stalled cs k b).
Proof.
  intros Hcs Hpre Hmax.
  destruct (feed_spec handle_command cs Hcs w0 chunks [] 0 ([], w0)) as (k & [b w] & Hf & Hc & Hs);
    [done|done| | |].
  { split_and!; [lia|done|done]. }
  { left. destruct Hcs as [|c cs' Hc _]; [done|]. destruct (frame_split c [] Hc) as (_ & _ & Hl).
    simpl. lia. }
  destruct Hc as (_ & Hd & Hw). simpl in *. exists k, b. by rewrite Hf, Hw.
Qed.

(** C38: the qemud framing of [QemudMessageProcessor].  For any list of
    commands below 65536 bytes, framed with the header that [send_header]
    prints, and any split of a beginning of that stream into reads: the loop
    of [process_commands] terminates, the header scan never leaves its array,
    the commands are handled once each and in order, and the handled
    commands followed by the content of [buffer_] are exactly the bytes
    received.  A complete command stays unhandled only when the whole buffer
    has the size of the command handled last. *)
Theorem qemud_stream {W : Type} (handle_command : W -> bytes -> W) (w0 : W)
    (cs : list bytes) (chunks : list bytes) :
  Forall small cs -> concat chunks `prefix_of` encode cs ->
  Z.of_nat (length (concat chunks)) < 2 ^ 63 ->
  exists k b, feed handle_command chunks ([], w0)
                = Some (Ret (b, fold_left handle_command (take k cs) w0)) /\
    concat chunks = encode (take k cs) ++ b /\
    (waiting b (drop k cs) \/ stalled cs k b).
Proof. apply feed_total. Qed.

Lemma qemud_stream_witness :
  exists k b, feed (fun w c => w ++ [c]) [str "0004li"; str "st0003x"] ([], [])
                = Some (Ret (b, fold_left (fun w c => w ++ [c]) (take k [str "list"; str "xyz"]) [])) /\
    concat [str "0004li"; str "st0003x"] = encode (take k [str "list"; str "xyz"]) ++ b /\
    (waiting b (drop k [str "list"; str "xyz"]) \/ stalled [str "list"; str "xyz"] k b).
Proof.
  apply (qemud_stream (fun w c => w ++ [c]) [] [str "list"; str "xyz"] [str "0004li"; str "st0003x"]).
  - repeat constructor; unfold small; simpl; lia.
  - exists (str "yz"). reflexivity.
  - simpl. lia.
Defined.

(** [process_commands] ends on every input, also one that is not made of
    frames: every turn but the last takes the four bytes of a header and what
    the header announces out of the buffer. *)
Theorem qemud_loop_ends {W} (handle_command : W -> bytes -> W) data s :
  exists o, process_data handle_command data s = Some o.
Proof.
  unfold process_data, process_commands.
  destruct (loop_spec (process_turn handle_command) (fun s => length s.1) (fun _ => True) (fun _ => True)
    (S (length (s.1 ++ data))) (s.1 ++ data, s.2)) as (o & Ho & _); [|done|simpl; lia|by exists o].
  intros [b w] _. unfold process_turn. destruct (length b <? header_size)%nat eqn:E1; [done|].
  destruct (scan_04x (take header_size b)) as [z| | |] eqn:E2; try done.
  apply scan_04x_nonneg in E2. destruct (Z.of_nat (length b) <? _) eqn:E3; [done|].
  destruct (u64 _ <=? 0); [done|]. split; [done|]. cbn [fst]. unfold header_size in *. len.
  bdestruct_all. lia.
Qed.

(** Two commands of the same size in one read: the second one waits in the
    buffer for the next read. *)
Lemma equal_sizes_stall :
  feed (fun w c => w ++ [c]) [encode [str "list"; str "stop"]] ([], [])
    = Some (Ret (frame (str "stop"), [str "list"])).
Proof. vm_compute. reflexivity. Qed.
