(* ===== verification/QemuServices.v ===== *)
(** The small services of the guest's /dev/qemu_pipe: boot properties,
    fingerprint, hardware control, boot animation and sensors, whose commands
    are framed by qemud_message_processor.cpp (Qemud.v), and the camera
    service, which frames its commands with NUL bytes. *)

From S2P Require Import Prelude Geometry Qemud.

Local Open Scope Z_scope.

(** * The services *)

(** Messages sent with [messenger_->send], in order. *)
Abbreviation outbox := (list bytes).

Definition list_properties (density : Z) (w : outbox) : outbox :=
  let prop := str "ro.sf.lcd_density=" ++ print_d density in
  w ++ [send_header (Z.of_nat (length prop)); prop; finish_message].
Definition boot_properties (density : Z) (w : outbox) (command : bytes) : outbox :=
  if bytes_eqb command (str "list") then list_properties density w else w.

Definition listen (w : outbox) : outbox :=
  let buf := str "off" in w ++ [send_header (Z.of_nat (length buf)); buf; finish_message].
Definition fingerprint (w : outbox) (command : bytes) : outbox :=
  if bytes_eqb command (str "listen") then listen w else w.

Definition hwcontrol (w : outbox) (command : bytes) : outbox := w.

(** [while (icon_file.read(buffer, 1024)) send(buffer, gcount)]: a read that
    meets the end of the file early makes the stream false.  [icon_file] is
    what is left of the file's content, [None] when it does not open. *)
Definition icon_block : nat := 1024.
Definition retrieve_turn (s : bytes * outbox) : (bytes * outbox) + outbox :=
  let (icon_file, w) := s in
  if (length icon_file <? icon_block)%nat then inr w
  else inl (drop icon_block icon_file, w ++ [take icon_block icon_file]).
Definition retrieve_icon (icon_file : option bytes) (w : outbox) : option outbox :=
  match icon_file with
  | None => Some w
  | Some f => loop (S (length f)) retrieve_turn (f, w)
  end.

(** * The camera service *)

Definition camera_list (w : outbox) : outbox := w ++ [[x0a]].
Definition camera_command (w : outbox) (command : bytes) : outbox :=
  if bytes_eqb command (str "list") then camera_list w else w.

(** The scan for the NUL that ends a command: the size of the buffer when
    there is none. *)
Fixpoint nul_position (buffer : bytes) : nat :=
  match buffer with
  | b :: l => if Byte.eqb b x00 then O else S (nul_position l)
  | [] => O
  end.
(** [buffer_.erase(begin, begin + size + 1)] past the end is undefined. *)
Definition camera_turn (s : bytes * outbox) : (bytes * outbox) + outcome (bytes * outbox) :=
  let (buffer, w) := s in
  if (0 <? length buffer)%nat then
    let size := nul_position buffer in
    if (length buffer <? size + 1)%nat then inr Undef
    else inl (drop (size + 1) buffer, camera_command w (take size buffer))
  else inr (Ret s).
Definition camera_process_data (data : bytes) (s : bytes * outbox)
    : option (outcome (bytes * outbox)) :=
  let buffer := s.1 ++ data in
  loop (S (length buffer)) camera_turn (buffer, s.2).

(** * Sensors (qemu/sensors_message_processor.cpp, application/sensor_type.cpp) *)

Definition AccelerationSensor : Z := Z.shiftl 1 0.
Definition MagneticFieldSensor : Z := Z.shiftl 1 1.
Definition OrientationSensor : Z := Z.shiftl 1 2.
Definition TemperatureSensor : Z := Z.shiftl 1 3.
Definition ProximitySensor : Z := Z.shiftl 1 4.
Definition LightSensor : Z := Z.shiftl 1 5.
Definition PressureSensor : Z := Z.shiftl 1 6.
Definition HumiditySensor : Z := Z.shiftl 1 7.
Definition UnknownSensor : Z := 0.

Definition sensor_names : list (bytes * Z) :=
  [(str "acceleration", AccelerationSensor); (str "magnetic-field", MagneticFieldSensor);
   (str "orientation", OrientationSensor); (str "temperature", TemperatureSensor);
   (str "proximity", ProximitySensor); (str "light", LightSensor);
   (str "pressure", PressureSensor); (str "humidity", HumiditySensor)].
Definition FromString (name : bytes) : Z :=
  match list_find (fun e => e.1 = name) sensor_names with
  | Some (_, e) => e.2
  | None => UnknownSensor
  end.

(** [delay_] is [None] once it holds an indeterminate value. *)
Record sensors := Sensors {
  delay_ : option Z;
  enabledSensors_ : Z;
  sensors_out : outbox
}.
Definition sensors_init : sensors := Sensors (Some 200) 0 [].
Definition send_message (msg : bytes) (st : sensors) : sensors :=
  Sensors (delay_ st) (enabledSensors_ st)
    (sensors_out st ++ [send_header (Z.of_nat (length msg)); msg]).

(** The C string of a [std::string]. *)
Fixpoint c_str (s : bytes) : bytes :=
  match s with b :: l => if Byte.eqb b x00 then [] else b :: c_str l | [] => [] end.

(** [sscanf(s, "<literal>%d", &value)]: its result is [EOF], which counts as
    true, when [s] ends before the conversion starts. *)
Inductive scanned := ScanEof | ScanNothing | ScanValue (v : Z).
Fixpoint scan_literal_d (literal s : bytes) : scanned :=
  match literal, s with
  | [], _ =>
      match skip_spaces s with
      | [] => ScanEof
      | _ => match scan_d s with Some v => ScanValue v | None => ScanNothing end
      end
  | _ :: _, [] => ScanEof
  | c :: literal', b :: s' => if Byte.eqb b c then scan_literal_d literal' s' else ScanNothing
  end.

Definition all_sensors : Z :=
  fold_left Z.lor [AccelerationSensor; MagneticFieldSensor; OrientationSensor; TemperatureSensor;
                   ProximitySensor; LightSensor; PressureSensor; HumiditySensor] 0.

Section sensors.
(** [boost::split(parts, command, boost::is_any_of(":"))] *)
Context (split : bytes -> list bytes).

Definition sensors_command (disabled_sensors : Z) (st : sensors) (command : bytes) : sensors :=
  let parts := split command in
  if bytes_eqb command (str "list-sensors") then
    send_message (print_u 10 (Z.land all_sensors (Z.lnot (u32 disabled_sensors)))) st
  else
    match scan_literal_d (str "set-delay:") (c_str command) with
    | ScanEof => Sensors None (enabledSensors_ st) (sensors_out st)
    | ScanValue v => Sensors (Some v) (enabledSensors_ st) (sensors_out st)
    | ScanNothing =>
        match parts with
        | [set; name; value] =>
            if bytes_eqb set (str "set") then
              let sensor := FromString name in
              Sensors (delay_ st)
                (if bytes_eqb value (str "1") then Z.lor (enabledSensors_ st) sensor
                 else Z.land (enabledSensors_ st) (Z.lnot sensor))
                (sensors_out st)
            else st
        | _ => st
        end
    end.
End sensors.

(** A turn of the sensor thread.  [reading] is the text that boost::format
    makes of the state of a sensor, [now] the time in microseconds. *)
Section thread.
Context (reading : Z -> bytes) (now : Z).
Definition sensor_messages : list (Z * bytes) :=
  [(AccelerationSensor, str "acceleration:"); (MagneticFieldSensor, str "magnetic:");
   (OrientationSensor, str "orientation:"); (TemperatureSensor, str "temperature:");
   (ProximitySensor, str "proximity:"); (LightSensor, str "light:");
   (PressureSensor, str "pressure:"); (HumiditySensor, str "humidity:")].
Definition report (enabled : Z) (st : sensors) (m : Z * bytes) : sensors :=
  if Z.land enabled m.1 =? 0 then st else send_message (m.2 ++ reading m.1) st.
Definition sensors_turn (st : sensors) : sensors :=
  let enabled := enabledSensors_ st in
  let st := fold_left (report enabled) sensor_messages st in
  if enabled =? 0 then st else send_message (str "sync:" ++ print_d now) st.
End thread.

(** * Lemmas: text *)

Lemma bytes_eqb_spec a b : bytes_eqb a b = true <-> a = b.
Proof. unfold bytes_eqb. apply bool_decide_eq_true. Qed.
Lemma bytes_eqb_refl a : bytes_eqb a a = true.
Proof. by apply bytes_eqb_spec. Qed.

(** * Boot properties *)

Definition boot_reply (density : Z) : outbox := list_properties density [].
Definition boot_replies (density : Z) (cs : list bytes) : outbox :=
  concat ((fun c => if bytes_eqb c (str "list") then boot_reply density else []) <$> cs).

Lemma boot_properties_fold density cs w :
  fold_left (boot_properties density) cs w = w ++ boot_replies density cs.
Proof.
  revert w; induction cs as [|c cs IH]; intros w; [by rewrite app_nil_r|].
  unfold boot_replies in *. simpl. rewrite IH. unfold boot_properties.
  destruct (bytes_eqb c (str "list")); [|done]. unfold boot_reply, list_properties.
  by rewrite <- app_assoc.
Qed.

Lemma print_u_length n : 0 <= n < 2 ^ 64 -> (0 < length (print_u 10 n) <= 20)%nat.
Proof.
  intros Hn. destruct (print_digits_spec 10 64 n 20) as (ds & He & _ & _ & Hl); [lia|lia| |].
  { change (10 ^ Z.of_nat 20) with 100000000000000000000. lia. }
  unfold print_u. rewrite He, length_fmap. done.
Qed.

Lemma boot_reply_reads density : in_i32 density ->
  exists h v, boot_reply density = [h; str "ro.sf.lcd_density=" ++ v; [x00]] /\
    scan_04x h = Ret (Z.of_nat (length (str "ro.sf.lcd_density=" ++ v))) /\
    scan_d v = Some density.
Proof.
  intros Hd. do 2 eexists. split; [done|]. split; [|by apply scan_print_d].
  apply header_roundtrip. rewrite length_app. unfold in_i32 in Hd.
  assert (length (print_d density) <= 21)%nat; [|simpl length; lia].
  unfold print_d. destruct (density <? 0) eqn:E; bdestruct_all; cbn [length].
  - pose proof (print_u_length (- density)). lia.
  - pose proof (print_u_length density). lia.
Qed.

(** the boot properties service over its framing.  A guest that writes
    framed commands, however the reads split them, gets for every [list]
    handled exactly one reply (and nothing for other commands): a header that
    scans to the size of the body, the body with the current density in
    decimal, which scans back to it, and a NUL byte. *)
Theorem boot_properties_service (density : Z) (cs : list bytes) (chunks : list bytes) :
  in_i32 density -> Forall small cs -> concat chunks `prefix_of` encode cs ->
  Z.of_nat (length (concat chunks)) < 2 ^ 63 ->
  exists k b h v, feed (boot_properties density) chunks ([], [])
      = Some (Ret (b, boot_replies density (take k cs))) /\
    concat chunks = encode (take k cs) ++ b /\
    (waiting b (drop k cs) \/ stalled cs k b) /\
    boot_reply density = [h; str "ro.sf.lcd_density=" ++ v; [x00]] /\
    scan_04x h = Ret (Z.of_nat (length (str "ro.sf.lcd_density=" ++ v))) /\
    scan_d v = Some density.
Proof.
  intros Hd Hcs Hpre Hmax. destruct (boot_reply_reads density Hd) as (h & v & Hv).
  destruct (feed_total (boot_properties density) [] cs chunks Hcs Hpre Hmax) as (k & b & Hf & Hc).
  exists k, b, h, v. rewrite Hf, boot_properties_fold. destruct Hc, Hv as (? & ? & ?). done.
Qed.

Lemma boot_properties_service_witness :
  exists k b h v, feed (boot_properties 320) [str "0004li"; str "st0003x"] ([], [])
      = Some (Ret (b, boot_replies 320 (take k [str "list"; str "xyz"]))) /\
    concat [str "0004li"; str "st0003x"] = encode (take k [str "list"; str "xyz"]) ++ b /\
    (waiting b (drop k [str "list"; str "xyz"]) \/ stalled [str "list"; str "xyz"] k b) /\
    boot_reply 320 = [h; str "ro.sf.lcd_density=" ++ v; [x00]] /\
    scan_04x h = Ret (Z.of_nat (length (str "ro.sf.lcd_density=" ++ v))) /\
    scan_d v = Some 320.
Proof.
  apply (boot_properties_service 320 [str "list"; str "xyz"] [str "0004li"; str "st0003x"]).
  - unfold in_i32. lia.
  - repeat constructor; unfold small; simpl; lia.
  - exists (str "yz"). reflexivity.
  - simpl. lia.
Defined.

(** * Boot animation *)

Fixpoint blocks (n : nat) (f : bytes) : outbox :=
  match n with O => [] | S n' => take icon_block f :: blocks n' (drop icon_block f) end.

(** Only whole blocks of the icon are sent: what follows the last multiple of
    1024 bytes is read and dropped. *)
Lemma retrieve_icon_blocks f w :
  retrieve_icon (Some f) w = Some (w ++ blocks (length f / icon_block) f).
Proof.
  unfold retrieve_icon.
  destruct (loop_spec retrieve_turn (fun s => length s.1)
    (fun s => s.2 ++ blocks (length s.1 / icon_block) s.1 = w ++ blocks (length f / icon_block) f)
    (fun r => r = w ++ blocks (length f / icon_block) f) (S (length f)) (f, w)) as (r & Hr & ->);
    [|done|simpl; lia|done].
  intros [g v] HI. unfold retrieve_turn. destruct (length g <? icon_block)%nat eqn:E; bdestruct_all.
  - cbn [fst snd] in HI. rewrite (Nat.div_small (length g)) in HI by done. cbn [blocks] in HI.
    by rewrite app_nil_r in HI.
  - cbn [fst snd] in *. assert (icon_block = 1024)%nat as Hb by done. split; [|rewrite length_drop; lia].
    rewrite <- HI, length_drop.
    replace (length g / icon_block)%nat with (S ((length g - icon_block) / icon_block)).
    { cbn [blocks]. by rewrite <- app_assoc. }
    replace (length g) with (length g - icon_block + 1 * icon_block)%nat at 2 by lia.
    rewrite Nat.div_add by lia. lia.
Qed.

Lemma small_icon_not_sent f w : (length f < icon_block)%nat -> retrieve_icon (Some f) w = Some w.
Proof. intros H. rewrite retrieve_icon_blocks, Nat.div_small by done. simpl. by rewrite app_nil_r. Qed.

(** * Camera *)

Definition nul_free (s : bytes) : Prop := Forall (fun b => Byte.eqb b x00 = false) s.

Lemma nul_position_app c rest : nul_free c -> nul_position (c ++ x00 :: rest) = length c.
Proof. induction 1 as [|b c Hb _ IH]; [done|]. simpl. by rewrite Hb, IH. Qed.
Lemma nul_position_free c : nul_free c -> nul_position c = length c.
Proof. induction 1 as [|b c Hb _ IH]; [done|]. simpl. by rewrite Hb, IH. Qed.

Definition nul_terminated (cs : list bytes) : bytes := concat ((fun c => c ++ [x00]) <$> cs).

(** The commands of one read of the camera service are all handled, in order,
    when the read ends with a complete command; otherwise the erase runs past
    the end of the buffer. *)
Lemma camera_commands cs tail w : Forall nul_free cs -> nul_free tail ->
  camera_process_data (nul_terminated cs ++ tail) ([], w) =
    Some (if is_empty tail then Ret ([], fold_left camera_command cs w) else Undef).
Proof.
  intros Hcs Ht. unfold camera_process_data. cbn [fst snd app].
  destruct (loop_spec camera_turn (fun s => length s.1)
    (fun s => exists cs' w', s = (nul_terminated cs' ++ tail, w') /\ Forall nul_free cs' /\
       fold_left camera_command cs' w' = fold_left camera_command cs w)
    (fun r => r = if is_empty tail then Ret ([], fold_left camera_command cs w) else Undef)
    (S (length (nul_terminated cs ++ tail))) (nul_terminated cs ++ tail, w)) as (r & Hr & ->);
    [|by exists cs, w|simpl; lia|done].
  clear Hcs. intros [b v] (cs' & w' & He & Hcs & Hw). simplify_eq. unfold camera_turn.
  destruct cs' as [|c cs'].
  - change (nul_terminated [] ++ tail) with tail. destruct tail as [|t ts]; [by rewrite <- Hw|].
    rewrite nul_position_free by done.
    rewrite (proj2 (Nat.ltb_lt 0 _)), (proj2 (Nat.ltb_lt _ _)) by (simpl; lia). done.
  - assert (nul_terminated (c :: cs') ++ tail = c ++ x00 :: nul_terminated cs' ++ tail) as ->.
    { unfold nul_terminated. simpl. by rewrite <- !app_assoc. }
    pose proof (Forall_inv Hcs) as Hc. apply Forall_inv_tail in Hcs.
    rewrite nul_position_app, length_app by done. cbn [length].
    rewrite (proj2 (Nat.ltb_lt 0 _)), (proj2 (Nat.ltb_ge _ _)) by lia. cbn [fst].
    replace (drop (length c + 1) (c ++ x00 :: nul_terminated cs' ++ tail)) with (nul_terminated cs' ++ tail).
    + split; [|cbn [fst]; len; len; lia]. exists cs', (camera_command w' c). split_and!; [|done|done].
      by rewrite take_app_length.
    + rewrite drop_app_ge by lia. replace (length c + 1 - length c)%nat with 1%nat by lia. done.
Qed.

Lemma camera_total data s : exists o, camera_process_data data s = Some o.
Proof.
  unfold camera_process_data.
  destruct (loop_spec camera_turn (fun s => length s.1) (fun _ => True) (fun _ => True)
    (S (length (s.1 ++ data))) (s.1 ++ data, s.2)) as (o & Ho & _); [|done|simpl; lia|by exists o].
  intros [b w] _. unfold camera_turn. destruct (0 <? length b)%nat eqn:E1; [|done].
  destruct (length b <? _)%nat; [done|]. split; [done|]. cbn [fst]. bdestruct_all. len. lia.
Qed.

(** * Sensors *)

Definition has (enabled sensor : Z) : bool := negb (Z.land enabled sensor =? 0).

Lemma land_bit e j : 0 <= j -> has e (Z.shiftl 1 j) = Z.testbit e j.
Proof.
  intros Hj. unfold has. rewrite Z.shiftl_1_l.
  assert (Z.land e (2 ^ j) = if Z.testbit e j then 2 ^ j else 0) as ->.
  { apply Z.bits_inj'. intros n Hn. rewrite Z.land_spec, Z.pow2_bits_eqb by done.
    destruct (Z.eqb_spec j n) as [->|Hne].
    - rewrite andb_true_r. destruct (Z.testbit e n); [by rewrite Z.pow2_bits_true|by rewrite Z.bits_0].
    - rewrite andb_false_r. destruct (Z.testbit e j); [|by rewrite Z.bits_0].
      by rewrite Z.pow2_bits_false. }
  pose proof (Z.pow_pos_nonneg 2 j ltac:(lia) Hj).
  destruct (Z.testbit e j); [|done]. by rewrite (proj2 (Z.eqb_neq _ _)) by lia.
Qed.

Definition is_sensor (s : Z) : Prop := exists j, 0 <= j < 8 /\ s = Z.shiftl 1 j.

Lemma sensor_messages_sensors : Forall (fun m => is_sensor m.1) sensor_messages.
Proof.
  unfold sensor_messages. repeat apply Forall_cons_2; [..|apply Forall_nil_2];
  [exists 0|exists 1|exists 2|exists 3|exists 4|exists 5|exists 6|exists 7]; (split; [lia|done]).
Qed.

Lemma FromString_sensor name : FromString name = 0 \/ is_sensor (FromString name).
Proof.
  unfold FromString. destruct (list_find _ _) as [[i [n s]]|] eqn:E; [|by left]. right.
  apply list_find_Some in E as (Hi & _ & _).
  do 8 (destruct i as [|i]; [injection Hi as _ <-; simpl;
    first [exists 0; split; [lia|done] | exists 1; split; [lia|done] | exists 2; split; [lia|done]
          |exists 3; split; [lia|done] | exists 4; split; [lia|done] | exists 5; split; [lia|done]
          |exists 6; split; [lia|done] | exists 7; split; [lia|done]]|]).
  done.
Qed.

(** Switching the sensors of [f] on or off changes only their bits. *)
Lemma has_switch e f s (on : bool) : is_sensor s -> f = 0 \/ is_sensor f ->
  has (if on then Z.lor e f else Z.land e (Z.lnot f)) s = if f =? s then on else has e s.
Proof.
  intros (j & Hj & ->) Hf. rewrite !land_bit by lia. destruct Hf as [->|(i & Hi & ->)].
  - rewrite (proj2 (Z.eqb_neq _ _)).
    + destruct on; [by rewrite Z.lor_0_r|]. by rewrite Z.land_m1_r.
    + rewrite Z.shiftl_1_l. pose proof (Z.pow_pos_nonneg 2 j). lia.
  - assert ((Z.shiftl 1 i =? Z.shiftl 1 j) = (i =? j)) as ->.
    { rewrite !Z.shiftl_1_l. destruct (Z.eqb_spec i j) as [->|Hne]; [apply Z.eqb_refl|].
      apply Z.eqb_neq. intros He. apply Z.pow_inj_r in He; lia. }
    rewrite Z.shiftl_1_l. destruct on.
    + rewrite Z.lor_spec, Z.pow2_bits_eqb by lia. destruct (i =? j); [apply orb_true_r|apply orb_false_r].
    + rewrite Z.land_spec, Z.lnot_spec, Z.pow2_bits_eqb by lia.
      destruct (i =? j); [apply andb_false_r|apply andb_true_r].
Qed.

Section sensor_service.
Context (split : bytes -> list bytes).
(** Splitting at colons. *)
Context (split_colons : forall a b c : bytes,
  Forall (fun x => x <> x3a) a -> Forall (fun x => x <> x3a) b -> Forall (fun x => x <> x3a) c ->
  split (a ++ x3a :: b ++ x3a :: c) = [a; b; c]).

Definition set_command (c : bytes * bool) : bytes :=
  str "set" ++ x3a :: c.1 ++ x3a :: (if c.2 then str "1" else str "0").

(** Whether the last command for a sensor switched it on. *)
Definition last_set (cs : list (bytes * bool)) (s : Z) (init : bool) : bool :=
  fold_left (fun on c => if FromString c.1 =? s then c.2 else on) cs init.

Lemma sensors_command_set disabled st c : Forall (fun x => x <> x3a) c.1 ->
  sensors_command split disabled st (set_command c) =
    Sensors (delay_ st)
      (if c.2 then Z.lor (enabledSensors_ st) (FromString c.1)
       else Z.land (enabledSensors_ st) (Z.lnot (FromString c.1))) (sensors_out st).
Proof.
  intros Hc. unfold sensors_command.
  assert (split (set_command c) = [str "set"; c.1; if c.2 then str "1" else str "0"]) as ->.
  { apply split_colons; [|done|]; [|destruct c.2]; by repeat constructor. }
  assert (bytes_eqb (set_command c) (str "list-sensors") = false) as ->.
  { by apply bool_decide_eq_false. }
  change (scan_literal_d _ (c_str (set_command c))) with ScanNothing. cbv iota beta.
  rewrite bytes_eqb_refl. by destruct c as [n []].
Qed.

Lemma sensors_set_all disabled cs st : Forall (fun c => Forall (fun x => x <> x3a) c.1) cs ->
  let st' := fold_left (sensors_command split disabled) (set_command <$> cs) st in
  sensors_out st' = sensors_out st /\
  forall s, is_sensor s -> has (enabledSensors_ st') s = last_set cs s (has (enabledSensors_ st) s).
Proof.
  intros Hcs. revert st; induction Hcs as [|c cs Hc _ IH]; intros st; [done|].
  rewrite fmap_cons. cbn [fold_left]. rewrite sensors_command_set by done.
  destruct (IH (Sensors (delay_ st)
      (if c.2 then Z.lor (enabledSensors_ st) (FromString c.1)
       else Z.land (enabledSensors_ st) (Z.lnot (FromString c.1))) (sensors_out st))) as [Ho He].
  split; [by rewrite Ho|]. intros s Hs. rewrite He by done. cbn [enabledSensors_].
  rewrite has_switch by (done || apply FromString_sensor). done.
Qed.
End sensor_service.

(** What a message looks like on the wire. *)
Definition framed (msg : bytes) : outbox := [send_header (Z.of_nat (length msg)); msg].

Lemma send_message_out msg st : sensors_out (send_message msg st) = sensors_out st ++ framed msg.
Proof. done. Qed.

Lemma report_all reading enabled ms st :
  sensors_out (fold_left (report reading enabled) ms st) =
    sensors_out st ++ concat ((fun m => framed (m.2 ++ reading m.1)) <$>
                                (filter (fun m => has enabled m.1 = true) ms)).
Proof.
  revert st; induction ms as [|m ms IH]; intros st; [by rewrite app_nil_r|]. cbn [fold_left].
  rewrite IH, filter_cons. unfold report, has.
  destruct (Z.land enabled m.1 =? 0); cbn [negb].
  - by rewrite decide_False.
  - rewrite decide_True by done. by rewrite send_message_out, <- app_assoc.
Qed.

Lemma filter_same {A} (P Q : A -> Prop) `{!forall x, Decision (P x), !forall x, Decision (Q x)} l :
  Forall (fun x => P x <-> Q x) l -> filter P l = filter Q l.
Proof.
  induction 1 as [|x l Hx _ IH]; [done|]. rewrite !filter_cons, IH.
  destruct (decide (P x)), (decide (Q x)); tauto.
Qed.

(** the sensors service.  After any sequence of [set:<name>:<value>]
    commands, a turn of the sensor thread sends one framed message, in the
    fixed order, for exactly the sensors whose last command switched them on
    (unknown names change nothing), and then the time, unless no sensor is
    on. *)
Theorem sensors_report (split : bytes -> list bytes)
    (split_colons : forall a b c : bytes,
      Forall (fun x => x <> x3a) a -> Forall (fun x => x <> x3a) b -> Forall (fun x => x <> x3a) c ->
      split (a ++ x3a :: b ++ x3a :: c) = [a; b; c])
    (reading : Z -> bytes) (now disabled : Z) (cs : list (bytes * bool)) :
  Forall (fun c => Forall (fun x => x <> x3a) c.1) cs ->
  let st := fold_left (sensors_command split disabled) (set_command <$> cs) sensors_init in
  let on := filter (fun m => last_set cs m.1 false = true) sensor_messages in
  sensors_out (sensors_turn reading now st) =
    concat ((fun m => framed (m.2 ++ reading m.1)) <$> on) ++
    (if enabledSensors_ st =? 0 then [] else framed (str "sync:" ++ print_d now)).
Proof.
  intros Hcs st on. destruct (sensors_set_all split split_colons disabled cs sensors_init Hcs) as [Ho He].
  fold st in Ho, He. unfold sensors_turn.
  assert (filter (fun m => has (enabledSensors_ st) m.1 = true) sensor_messages = on) as Hon.
  { subst on. apply filter_same. eapply Forall_impl; [apply sensor_messages_sensors|].
    intros m Hm. by rewrite (He _ Hm). }
  destruct (enabledSensors_ st =? 0); rewrite ?send_message_out, report_all, Hon, Ho; cbn [sensors_out app].
  - by rewrite app_nil_r.
  - done.
Qed.

(** A concrete splitting function. *)
Fixpoint split_at_colons (l : bytes) : list bytes :=
  match l with
  | [] => [[]]
  | b :: l' =>
      if Byte.eqb b x3a then [] :: split_at_colons l'
      else match split_at_colons l' with p :: ps => (b :: p) :: ps | [] => [[b]] end
  end.

Lemma split_at_colons_part a : Forall (fun x => x <> x3a) a ->
  split_at_colons a = [a] /\ forall l, split_at_colons (a ++ x3a :: l) = a :: split_at_colons l.
Proof.
  induction 1 as [|b a Hb _ [IH1 IH2]]; [done|]. simpl.
  assert (Byte.eqb b x3a = false) as ->.
  { destruct (Byte.eqb b x3a) eqn:E; [|done]. by apply Byte.byte_dec_bl in E. }
  rewrite IH1. split; [done|]. intros l. by rewrite IH2.
Qed.

Lemma split_at_colons_spec (a b c : bytes) :
  Forall (fun x => x <> x3a) a -> Forall (fun x => x <> x3a) b -> Forall (fun x => x <> x3a) c ->
  split_at_colons (a ++ x3a :: b ++ x3a :: c) = [a; b; c].
Proof.
  intros Ha Hb Hc. destruct (split_at_colons_part a Ha) as [_ ->].
  destruct (split_at_colons_part b Hb) as [_ ->]. by destruct (split_at_colons_part c Hc) as [-> _].
Qed.

Lemma sensors_report_witness :
  let cs := [(str "light", true); (str "compass", true); (str "pressure", true); (str "light", false)] in
  let st := fold_left (sensors_command split_at_colons 0) (set_command <$> cs) sensors_init in
  sensors_out (sensors_turn (fun _ => str "1") 7 st) =
    concat ((fun m => framed (m.2 ++ str "1"))
              <$> filter (fun m => last_set cs m.1 false = true) sensor_messages) ++
    (if enabledSensors_ st =? 0 then [] else framed (str "sync:" ++ print_d 7)) /\
  sensors_out (sensors_turn (fun _ => str "1") 7 st) = framed (str "pressure:1") ++ framed (str "sync:7").
Proof.
  split; [|vm_compute; reflexivity].
  apply (sensors_report split_at_colons split_at_colons_spec (fun _ => str "1") 7 0
    [(str "light", true); (str "compass", true); (str "pressure", true); (str "light", false)]).
  repeat constructor; simpl; discriminate.
Defined.

(** An empty command (a header 0000), or one that stops inside [set-delay:],
    makes [sscanf] answer [EOF], which the code takes for a match: the delay
    then holds the uninitialised [value]. *)
Lemma empty_command_garbage split st : delay_ (sensors_command split 0 st []) = None.
Proof. done. Qed.
