(* ===== verification/Gsm.v ===== *)
(** The GSM modem service of the guest's /dev/qemu_pipe: the AT command
    parser (qemu/at_parser.cpp) and the modem's answers
    (qemu/gsm_message_processor.cpp). *)

From S2P Require Import Prelude.


(** * The AT parser *)

Definition is_line_end (b : byte) : bool := Byte.eqb b x0a || Byte.eqb b x0d.

(** [handlers_] is a [std::map] from command prefixes: its entries in the
    order of the keys ([std::string]'s byte order).  [insert] keeps an entry
    that is there. *)
Section parser.
Context {H : Type}.
Definition handlers : Type := list (bytes * H).

Fixpoint bytes_ltb (a b : bytes) : bool :=
  match a, b with
  | _, [] => false
  | [], _ :: _ => true
  | x :: a', y :: b' =>
      if Byte.eqb x y then bytes_ltb a' b' else (bval x <? bval y)%Z
  end.
Fixpoint register_command (command : bytes) (handler : H) (hs : handlers) : handlers :=
  match hs with
  | [] => [(command, handler)]
  | (c, h) :: hs' =>
      if bytes_ltb command c then (command, handler) :: hs
      else if bytes_ltb c command then (c, h) :: register_command command handler hs'
      else hs
  end.

(** The handler that [processs_command] calls and the text it gets: the first
    entry whose key is a prefix of the command without its "AT". *)
Fixpoint find_handler (real_command : bytes) (hs : handlers) : option H :=
  match hs with
  | [] => None
  | (c, h) :: hs' => if starts_with real_command c then Some h else find_handler real_command hs'
  end.
End parser.
Arguments handlers : clear implicits.

Section processing.
(** What a handler does, on the state of the service. *)
Context {W H : Type} (call : H -> W -> bytes -> W).

Definition processs_command (hs : handlers H) (w : W) (command : bytes) : W :=
  if starts_with command (str "AT") then
    let real_command := drop 2 command in
    match find_handler real_command hs with
    | Some handler => call handler w real_command
    | None => w
    end
  else w.

(** The loop of [AtParser::process_data]: [pos] is the length of the part of
    [data] that has been read, [bytes_processed] of the part handled. *)
Fixpoint parse_loop (hs : handlers H) (data todo : bytes) (pos bytes_processed : nat) (w : W) : W * nat :=
  match todo with
  | [] => (w, bytes_processed)
  | b :: todo' =>
      if is_line_end b then
        let command := take (pos - bytes_processed) (drop bytes_processed data) in
        parse_loop hs data todo' (S pos) (bytes_processed + ((pos - bytes_processed) + 1))
          (processs_command hs w command)
      else parse_loop hs data todo' (S pos) bytes_processed w
  end.
(** [data.erase(begin, begin + bytes_processed)] *)
Definition at_process_data (hs : handlers H) (data : bytes) (w : W) : bytes * W :=
  let (w', bytes_processed) := parse_loop hs data data 0 0 w in (drop bytes_processed data, w').
End processing.

(** * The modem *)

(** Messages sent, in order. *)
Abbreviation outbox := (list bytes).

Definition send_reply (message : bytes) (w : outbox) : outbox :=
  w ++ [message ++ x0d :: str "OK" ++ [x0a]].

Inductive handler := OkReply | Ctec | Cmgf | Creg | Cgreg | Cfun.

Definition handle_ctec (w : outbox) (command : bytes) : outbox :=
  if bytes_eqb command (str "+CTEC=?") then send_reply (str "+CTEC: 0,1,2,3") w
  else if bytes_eqb command (str "+CTEC?") then
    send_reply (str "+CTEC: " ++ print_u 10 0 ++ str "," ++ print_u 16 15) w
  else w.
Definition handle_cmgf (w : outbox) (command : bytes) : outbox :=
  if bytes_eqb command (str "+CMGF=0") then send_reply [] w else w.
Definition handle_creg (w : outbox) (command : bytes) : outbox :=
  if bytes_eqb command (str "+CREG=?") then send_reply (str "+CREG: (0-2)") w
  else if bytes_eqb command (str "+CREG?") then
    send_reply (str "+CREF: " ++ print_d 0 ++ str "," ++ print_d 0) w
  else if starts_with command (str "+CREG=") then send_reply [] w
  else w.
Definition handle_cgreg (w : outbox) (command : bytes) : outbox :=
  if bytes_eqb command (str "+CGREG=?") then send_reply (str "+CGREG: (0-2)") w
  else if bytes_eqb command (str "+CGREG?") then
    send_reply (str "+CGREG: " ++ print_d 0 ++ str "," ++ print_d 0) w
  else if starts_with command (str "+CGREG=") then send_reply [] w
  else w.
Definition handle_cfun (w : outbox) (command : bytes) : outbox :=
  if bytes_eqb command (str "+CFUN?") then send_reply (str "+CFUN: " ++ print_d 1) w
  else if starts_with command (str "+CFUN=") then send_reply [] w
  else w.

Definition call_handler (h : handler) (w : outbox) (command : bytes) : outbox :=
  match h with
  | OkReply => send_reply (str "OK") w
  | Ctec => handle_ctec w command
  | Cmgf => handle_cmgf w command
  | Creg => handle_creg w command
  | Cgreg => handle_cgreg w command
  | Cfun => handle_cfun w command
  end.

(** The constructor's registrations, in its order. *)
Definition registrations : list (bytes * handler) :=
  [(str "E0Q0V1", OkReply); (str "S0=0", OkReply); (str "+CTEC", Ctec);
   (str "+CMEE=1", OkReply); (str "+CCWA=1", OkReply); (str "+CMOD=0", OkReply);
   (str "+CMUT=0", OkReply); (str "+CSSN=0,1", OkReply); (str "+COLP=0", OkReply);
   (str "+CSCS=" ++ [x22] ++ str "HEX" ++ [x22], OkReply); (str "+CUSD=1", OkReply);
   (str "+CGEREP=1,0", OkReply); (str "+CMGF", Cmgf); (str "%CPI=3", OkReply);
   (str "%CSTAT=1", OkReply); (str "+CREG", Creg); (str "+CGREG", Cgreg); (str "+CFUN", Cfun)].
Definition gsm_handlers : handlers handler :=
  fold_left (fun hs r => register_command r.1 r.2 hs) registrations [].

(** [GsmMessageProcessor::process_data], on [buffer_] and what was sent. *)
Definition gsm_process_data (data : bytes) (s : bytes * outbox) : bytes * outbox :=
  at_process_data call_handler gsm_handlers (s.1 ++ data) s.2.

(** * Reference: the lines of a stream *)

(** The complete lines of a stream and the rest after the last line end. *)
Fixpoint lines (l : bytes) : list bytes * bytes :=
  match l with
  | [] => ([], [])
  | b :: l' =>
      if is_line_end b then ([] :: (lines l').1, (lines l').2)
      else match lines l' with
           | (c :: cs, rest) => ((b :: c) :: cs, rest)
           | ([], rest) => ([], b :: rest)
           end
  end.

(** * Specification: the modem's dialogue *)

(** What a line asks, as a whole or as the beginning of the line, and the text
    of the reply. *)
Record exchange := Exchange { whole_line : bool; asked : bytes; told : bytes }.
Definition dialogue : list exchange := [
  Exchange false (str "ATE0Q0V1") (str "OK");
  Exchange false (str "ATS0=0") (str "OK");
  Exchange true (str "AT+CTEC=?") (str "+CTEC: 0,1,2,3");
  Exchange true (str "AT+CTEC?") (str "+CTEC: 0,f");
  Exchange false (str "AT+CMEE=1") (str "OK");
  Exchange false (str "AT+CCWA=1") (str "OK");
  Exchange false (str "AT+CMOD=0") (str "OK");
  Exchange false (str "AT+CMUT=0") (str "OK");
  Exchange false (str "AT+CSSN=0,1") (str "OK");
  Exchange false (str "AT+COLP=0") (str "OK");
  Exchange false (str "AT+CSCS=" ++ [x22] ++ str "HEX" ++ [x22]) (str "OK");
  Exchange false (str "AT+CUSD=1") (str "OK");
  Exchange false (str "AT+CGEREP=1,0") (str "OK");
  Exchange true (str "AT+CMGF=0") [];
  Exchange false (str "AT%CPI=3") (str "OK");
  Exchange false (str "AT%CSTAT=1") (str "OK");
  Exchange true (str "AT+CREG=?") (str "+CREG: (0-2)");
  Exchange true (str "AT+CREG?") (str "+CREF: 0,0");
  Exchange false (str "AT+CREG=") [];
  Exchange true (str "AT+CGREG=?") (str "+CGREG: (0-2)");
  Exchange true (str "AT+CGREG?") (str "+CGREG: 0,0");
  Exchange false (str "AT+CGREG=") [];
  Exchange true (str "AT+CFUN?") (str "+CFUN: 1");
  Exchange false (str "AT+CFUN=") []].
Definition fits (e : exchange) (line : bytes) : bool :=
  starts_with line (asked e) && (negb (whole_line e) || is_empty (drop (length (asked e)) line)).
(** The reply to a line is that of the first exchange that fits it, with a final OK;
    the modem is silent about any other line. *)
Fixpoint reply_from (l : list exchange) (line : bytes) : outbox :=
  match l with
  | [] => []
  | e :: l' => if fits e line then [told e ++ [x0d] ++ str "OK" ++ [x0a]] else reply_from l' line
  end.
Definition reply (line : bytes) : outbox := reply_from dialogue line.

Lemma lines_app l r :
  lines (l ++ r) = ((lines l).1 ++ (lines ((lines l).2 ++ r)).1, (lines ((lines l).2 ++ r)).2).
Proof.
  induction l as [|b l IH]; [simpl; by destruct (lines r)|]. simpl. rewrite IH.
  destruct (is_line_end b) eqn:E; [done|].
  destruct (lines l) as [[|c cs] rest]; simpl; [|done]. rewrite E.
  by destruct (lines (rest ++ r)) as [[|c cs] rest'].
Qed.

Definition unended (l : bytes) : Prop := Forall (fun b => is_line_end b = false) l.

Lemma lines_unended l : unended l -> lines l = ([], l).
Proof. induction 1 as [|b l Hb _ IH]; [done|]. simpl. by rewrite Hb, IH. Qed.
Lemma lines_line c b l : unended c -> is_line_end b = true ->
  lines (c ++ b :: l) = (c :: (lines l).1, (lines l).2).
Proof.
  intros Hc Hb. induction Hc as [|x c Hx _ IH]; simpl; [by rewrite Hb|]. by rewrite Hx, IH.
Qed.
Lemma lines_rest l : unended (lines l).2.
Proof.
  induction l as [|b l IH]; [constructor|]. simpl. destruct (is_line_end b) eqn:E; [done|].
  destruct (lines l) as [[|c cs] rest]; [|done]. by constructor.
Qed.

Lemma lines_none l : (lines l).1 = [] -> (lines l).2 = l.
Proof.
  induction l as [|b l IH]; [done|]. simpl. destruct (is_line_end b); [done|].
  destruct (lines l) as [[|c cs] rest]; [|done]. simpl in *. intros _. by rewrite IH.
Qed.
Lemma lines_suffix l : exists before, l = before ++ (lines l).2.
Proof.
  induction l as [|b l [before IH]]; [by exists []|]. simpl.
  destruct (is_line_end b); [exists (b :: before); simpl; by rewrite <- IH|].
  pose proof (lines_none l) as Hn. destruct (lines l) as [[|c cs] rest]; simpl in *.
  - exists []. simpl. by rewrite Hn.
  - exists (b :: before). simpl. by rewrite <- IH.
Qed.

(** * Lemmas: the parser *)

Section processing.
Context {W H : Type} (call : H -> W -> bytes -> W) (hs : handlers H).

Lemma parse_loop_lines todo : forall before pending w,
  unended pending ->
  parse_loop call hs (before ++ pending ++ todo) todo (length (before ++ pending)) (length before) w =
    (fold_left (processs_command call hs) (lines (pending ++ todo)).1 w,
     (length (before ++ pending ++ todo) - length (lines (pending ++ todo)).2)%nat).
Proof.
  induction todo as [|b todo IH]; intros before pending w Hp.
  { rewrite app_nil_r, lines_unended by done. simpl. f_equal. len. lia. }
  cbn [parse_loop]. destruct (is_line_end b) eqn:E.
  - rewrite drop_app_length.
    replace (length (before ++ pending) - length before)%nat with (length pending) by (len; lia).
    rewrite take_app_length, lines_line by done. cbn [fst snd fold_left].
    specialize (IH (before ++ pending ++ [b]) [] (processs_command call hs w pending) ltac:(constructor)).
    rewrite app_nil_r in IH. cbn [app] in IH.
    replace (S (length (before ++ pending))) with (length (before ++ pending ++ [b])) by (len; lia).
    replace (length before + (length pending + 1))%nat with (length (before ++ pending ++ [b])) by (len; lia).
    replace (before ++ pending ++ b :: todo) with ((before ++ pending ++ [b]) ++ todo)
      by (by rewrite <- !app_assoc). done.
  - specialize (IH before (pending ++ [b]) w). rewrite <- !app_assoc in IH. cbn [app] in IH.
    replace (S (length (before ++ pending))) with (length (before ++ pending ++ [b])) by (len; lia).
    apply IH. apply Forall_app_2; [done|]. by apply Forall_singleton.
Qed.

Lemma at_process_data_lines data w :
  at_process_data call hs data w =
    ((lines data).2, fold_left (processs_command call hs) (lines data).1 w).
Proof.
  unfold at_process_data. pose proof (parse_loop_lines data [] [] w ltac:(constructor)) as E.
  cbn [app length] in E. rewrite E. f_equal.
  destruct (lines_suffix data) as [before Hb].
  assert (length data - length (lines data).2 = length before)%nat as ->.
  { pose proof (f_equal length Hb) as Hl. rewrite length_app in Hl. lia. }
  transitivity (drop (length before) (before ++ (lines data).2)); [by rewrite <- Hb|].
  apply drop_app_length.
Qed.
End processing.

(** The keys of a map in which none is a prefix of another: the order of the
    entries does not matter. *)
Definition prefix_free {H} (hs : handlers H) : Prop :=
  forall c h c' h', (c, h) ∈ hs -> (c', h') ∈ hs -> starts_with c c' = true -> (c, h) = (c', h').

Lemma starts_with_both l p q : starts_with l p = true -> starts_with l q = true ->
  starts_with p q = true \/ starts_with q p = true.
Proof.
  rewrite !starts_with_spec. intros [k ->] [k' E].
  apply app_eq_inv in E as [(m & -> & _)|(m & -> & _)]; [left|right]; by exists m.
Qed.

Lemma find_handler_spec {H} (hs : handlers H) rc h : prefix_free hs ->
  find_handler rc hs = Some h <-> exists c, (c, h) ∈ hs /\ starts_with rc c = true.
Proof.
  intros Hpf. split.
  - clear Hpf. induction hs as [|[c h'] hs IH]; [done|]. simpl. destruct (starts_with rc c) eqn:E.
    + intros; simplify_eq. exists c. split; [left|done].
    + intros Hf. destruct (IH Hf) as (c' & ? & ?). exists c'. split; [by right|done].
  - intros (c & Hin & Hc). assert (exists h', find_handler rc hs = Some h' /\
      exists c', (c', h') ∈ hs /\ starts_with rc c' = true) as (h' & Hf & c' & Hin' & Hc').
    { clear Hpf. induction hs as [|[c' h'] hs IH]; [by apply not_elem_of_nil in Hin|]. simpl.
      destruct (starts_with rc c') eqn:E.
      - exists h'. split; [done|]. exists c'. split; [left|done].
      - apply elem_of_cons in Hin as [|Hin]; [simplify_eq; congruence|].
        destruct (IH Hin) as (h'' & ? & c'' & ? & ?). exists h''. split; [done|].
        exists c''. split; [by right|done]. }
    rewrite Hf. destruct (starts_with_both rc c c' Hc Hc') as [E|E].
    + by specialize (Hpf _ _ _ _ Hin Hin' E) as [= -> ->].
    + by specialize (Hpf _ _ _ _ Hin' Hin E) as [= -> ->].
Qed.

(** * Lemmas: the modem *)

#[global] Instance handler_eq_dec : EqDecision handler.
Proof. solve_decision. Defined.

Lemma registrations_prefix_free : prefix_free registrations.
Proof.
  assert (Forall (fun a => Forall (fun b => starts_with a.1 b.1 = true -> a = b) registrations)
            registrations) as Hf.
  { apply (bool_decide_unpack _). vm_compute. done. }
  intros c h c' h' H1 H2. rewrite Forall_forall in Hf. specialize (Hf _ H1).
  rewrite Forall_forall in Hf. exact (Hf _ H2).
Qed.
Lemma gsm_handlers_perm : gsm_handlers ≡ₚ registrations.
Proof. apply (bool_decide_unpack _). vm_compute. done. Qed.

Lemma prefix_free_perm {H} (hs hs' : handlers H) : hs ≡ₚ hs' -> prefix_free hs' -> prefix_free hs.
Proof. intros Hp Hf c h c' h' H1 H2. rewrite Hp in H1, H2. by apply Hf. Qed.

Lemma gsm_find rc : find_handler rc gsm_handlers = find_handler rc registrations.
Proof.
  pose proof registrations_prefix_free as Hr.
  pose proof (prefix_free_perm _ _ gsm_handlers_perm Hr) as Hg.
  assert (forall h, find_handler rc gsm_handlers = Some h <-> find_handler rc registrations = Some h) as Hh.
  { intros h. rewrite !find_handler_spec by done.
    split; intros (c & Hin & Hc); exists c; (split; [|done]); by rewrite gsm_handlers_perm in *. }
  destruct (find_handler rc gsm_handlers) as [h|]; [by symmetry; apply Hh|].
  destruct (find_handler rc registrations) as [h|]; [by apply Hh|done].
Qed.

(** What the modem answers to a line: the handler of the registration that is
    a prefix of what follows "AT". *)
Definition answer (line : bytes) : outbox := processs_command call_handler registrations [] line.

Lemma call_handler_app h w command : call_handler h w command = w ++ call_handler h [] command.
Proof.
  destruct h; cbn [call_handler]; unfold handle_ctec, handle_cmgf, handle_creg, handle_cgreg, handle_cfun;
    repeat case_match; unfold send_reply; rewrite ?app_nil_r; done.
Qed.
Lemma processs_command_answer w line :
  processs_command call_handler gsm_handlers w line = w ++ answer line.
Proof.
  unfold answer, processs_command. rewrite gsm_find.
  destruct (starts_with line (str "AT")); [|by rewrite app_nil_r].
  destruct (find_handler _ registrations) as [h|]; [apply call_handler_app|by rewrite app_nil_r].
Qed.
Lemma fold_answers ls w :
  fold_left (processs_command call_handler gsm_handlers) ls w = w ++ concat (answer <$> ls).
Proof.
  revert w; induction ls as [|l ls IH]; intros w; [by rewrite app_nil_r|].
  cbn [fold_left]. rewrite IH, processs_command_answer. by rewrite fmap_cons, <- app_assoc.
Qed.

(** ** The answers are the dialogue *)

Lemma bytes_eqb_starts l e : bytes_eqb l e = starts_with l e && is_empty (drop (length e) l).
Proof.
  apply eq_true_iff_eq. unfold bytes_eqb. rewrite bool_decide_eq_true, andb_true_iff, starts_with_spec. split.
  - intros ->. split; [exists []; by rewrite app_nil_r|by rewrite drop_all].
  - intros [[k ->] H]. rewrite drop_app_length in H. destruct k; [by rewrite app_nil_r|done].
Qed.
Lemma starts_with_false l c x : starts_with l c = false -> starts_with l (c ++ x) = false.
Proof.
  intros H. apply not_true_iff_false. rewrite starts_with_spec. intros [k ->]. rewrite <- app_assoc in H.
  by rewrite starts_with_app in H.
Qed.

(** The entries that ask for the command of one registration. *)
Definition in_group (c : bytes) (e : exchange) : bool := starts_with (asked e) (str "AT" ++ c).
Lemma not_asked c e rc : in_group c e = true -> starts_with rc c = false -> fits e (str "AT" ++ rc) = false.
Proof.
  unfold in_group, fits. intros [x ->]%starts_with_spec H. rewrite <- !app_assoc.
  change (starts_with (str "AT" ++ rc) (str "AT" ++ c ++ x)) with (starts_with rc (c ++ x)). by rewrite starts_with_false.
Qed.
Lemma skip_group c g l rc : forallb (in_group c) g = true -> starts_with rc c = false ->
  reply_from (g ++ l) (str "AT" ++ rc) = reply_from l (str "AT" ++ rc).
Proof.
  intros Hg H. induction g as [|e g IH]; [done|]. cbn [forallb] in Hg. apply andb_prop in Hg as [He Hg].
  cbn [app reply_from]. rewrite (not_asked c) by done. by apply IH.
Qed.

(** The registrations and the dialogue, in the same order: [sizes] says how
    many entries belong to a registration. *)
Definition sizes : list nat := [1; 1; 2; 1; 1; 1; 1; 1; 1; 1; 1; 1; 1; 1; 1; 3; 3; 2]%nat.
Fixpoint grouped (ns : list nat) (rs : list (bytes * handler)) (l : list exchange) : bool :=
  match ns, rs with
  | n :: ns', (c, _) :: rs' => forallb (in_group c) (take n l) && grouped ns' rs' (drop n l)
  | [], [] => match l with [] => true | _ => false end
  | _, _ => false
  end.
Lemma silent ns rs l rc : grouped ns rs l = true -> find_handler rc rs = None -> reply_from l (str "AT" ++ rc) = [].
Proof.
  revert rs l; induction ns as [|n ns IH]; intros [|[c h] rs] l; try done; cbn [grouped find_handler].
  - by destruct l.
  - intros [Hg Hr]%andb_prop. destruct (starts_with rc c) eqn:E; [done|]. intros Hf.
    rewrite <- (take_drop n l), (skip_group c) by done. by eapply IH.
Qed.
(** A line that begins with a registered command. *)
Lemma starts_with_nil l : starts_with l [] = true.
Proof. by destruct l. Qed.
Lemma registered_reply : Forall (fun r => forall k, call_handler r.2 [] (r.1 ++ k) = reply (str "AT" ++ r.1 ++ k)) registrations.
Proof.
  unfold registrations. repeat (apply Forall_cons_2; [intros k; cbn [fst snd]|]); [..|apply Forall_nil_2].
  all: cbn [call_handler]; unfold handle_ctec, handle_cmgf, handle_creg, handle_cgreg, handle_cfun;
    rewrite ?bytes_eqb_starts; unfold reply, dialogue; cbn [reply_from]; unfold fits; cbn;
    rewrite ?starts_with_nil; cbn; repeat case_match; simplify_eq; reflexivity.
Qed.

Lemma answer_reply line : answer line = reply line.
Proof.
  unfold answer, processs_command. destruct (starts_with line (str "AT")) eqn:E.
  - apply starts_with_spec in E as [rc ->]. change (drop 2 (str "AT" ++ rc)) with rc.
    destruct (find_handler rc registrations) as [h|] eqn:Ef.
    + apply (find_handler_spec _ _ _ registrations_prefix_free) in Ef as (c & Hin & Hc). apply starts_with_spec in Hc as [k ->].
      pose proof registered_reply as Hr. rewrite Forall_forall in Hr. by apply (Hr _ Hin).
    + symmetry. by apply (silent sizes registrations).
  - assert (forall l, forallb (fun e => starts_with (asked e) (str "AT")) l = true -> reply_from l line = []) as H; [|unfold reply; by rewrite H].
    induction l as [|e l IH]; [done|]. cbn [forallb reply_from]. intros [He Hl]%andb_prop. unfold fits.
    apply starts_with_spec in He as [x ->]. rewrite starts_with_false by done. by apply IH.
Qed.

(** C40: the GSM modem behaves as a function of the byte stream: however the
    reads split it, the bytes kept are those after the last line end, and the
    messages sent are, in order, the replies to the lines (ended by a line
    feed or a carriage return) that the table [dialogue] gives: of the whole
    lines and beginnings of lines it lists, each with its text, the first that
    fits, followed by a final OK; any other line, a known command with other
    arguments among them, is not replied to at all. *)
Theorem gsm_stream (chunks : list bytes) :
  let ls := lines (concat chunks) in
  fold_left (fun s data => gsm_process_data data s) chunks ([], []) = (ls.2, concat (reply <$> ls.1)).
Proof.
  assert (forall s, (s.1 = (lines s.1).2 /\ (lines s.1).1 = []) ->
    fold_left (fun s data => gsm_process_data data s) chunks s
      = ((lines (s.1 ++ concat chunks)).2, s.2 ++ concat (reply <$> (lines (s.1 ++ concat chunks)).1))) as Hg;
    [|by rewrite Hg].
  assert (forall l, answer <$> l = reply <$> l) as Hreply by (intros l; apply list_fmap_ext; intros; apply answer_reply).
  induction chunks as [|d chunks IH]; intros s [Hs1 Hs2].
  - rewrite app_nil_r. simpl. rewrite Hs2, <- Hs1. simpl. rewrite app_nil_r. by destruct s.
  - cbn [fold_left concat]. unfold gsm_process_data at 2.
    rewrite at_process_data_lines, fold_answers, Hreply, IH.
    + cbn [fst snd]. rewrite app_assoc, (lines_app (s.1 ++ d)). cbn [fst snd].
      by rewrite fmap_app, concat_app, app_assoc.
    + cbn [fst]. by rewrite (lines_unended (lines (s.1 ++ d)).2) by apply lines_rest.
Qed.

(** A conversation: a query whose line comes in two reads, a setting, and a
    command the modem does not know. *)
Lemma gsm_stream_witness :
  fold_left (fun s data => gsm_process_data data s)
    [str "AT+CF"; str "UN?" ++ [x0d] ++ str "AT+CGREG=2" ++ [x0a]; str "AT+COPS?" ++ [x0a] ++ str "AT"] ([], [])
    = (str "AT", [str "+CFUN: 1" ++ x0d :: str "OK" ++ [x0a]; x0d :: str "OK" ++ [x0a]]).
Proof. rewrite gsm_stream. vm_compute. reflexivity. Defined.

(** The registration query is answered with a misspelt +CREF. *)
Lemma creg_query_misspelt :
  answer (str "AT+CREG?") = [str "+CREF: 0,0" ++ x0d :: str "OK" ++ [x0a]].
Proof. reflexivity. Qed.
