(* ===== verification/Network.v ===== *)
(** Connections of the host's sockets: sending and receiving on a
    non-blocking socket (network/base_socket_messenger.cpp), the table of
    connections (network/connections.h), a connection's read loop
    (network/socket_connection.cpp), the connectors that accept clients
    (network/published_socket_connector.cpp, network/tcp_socket_connector.cpp)
    and the creator of the single RPC connection (rpc/connection_creator.cpp).
    Everything is generic in the message processor, which Pipe.v instantiates
    with the services of the guest's qemu pipe. *)

From S2P Require Import Prelude.


(** * Sending and receiving *)

(** What one [boost::asio::write] or [boost::asio::read] call on the
    non-blocking socket did: how far it got, and the error that stopped it. *)
Inductive io_error := TryAgain | OtherError.

(** [BaseSocketMessenger::send] with the answers of the socket to its calls of
    [boost::asio::write]: the bytes put on the wire and how the call ended
    ([None] while it is still waiting for the socket). *)
Fixpoint send (data : bytes) (answers : list (nat * option io_error)) : bytes * option (outcome unit) :=
  match answers with
  | [] => ([], None)
  | (_, None) :: _ => (data, Some (Ret tt))
  | (n, Some TryAgain) :: answers' =>
      let (wire, r) := send data answers' in (take n data ++ wire, r)
  | (n, Some OtherError) :: _ => (take n data, Some (Throw SystemError))
  end.

(** [BaseSocketMessenger::receive_msg] for a buffer of [size] bytes: an answer
    is the bytes read by [boost::asio::read] into the rest of the buffer (it
    stops early only with an error).  The result is the buffer's content and
    the error code. *)
Fixpoint receive_msg (size : nat) (buffer : bytes) (e : option io_error)
    (answers : list (bytes * option io_error)) : option (bytes * option io_error) :=
  if (length buffer <? size)%nat then
    match answers with
    | [] => None
    | (data, e') :: answers' =>
        let buffer' := buffer ++ data in
        match e' with
        | Some OtherError => Some (buffer', e')
        | _ => receive_msg size buffer' e' answers'
        end
    end
  else Some (buffer, e).

(** * Connections *)

(** What the connections ask of a message processor: to process the bytes of
    one read (its effects, and whether the connection goes on) and to be
    destroyed. *)
Class MessageProcessor (P E : Type) := {
  process_data : bytes -> P -> P * list E * outcome bool;
  destroy : P -> list E;
}.

Section connections.
Context {P E : Type} `{!MessageProcessor P E}.

(** [SocketConnection]; [reading] is whether a read is pending on its socket,
    with the connection's address in the callback. *)
Record connection := Connection {
  name_ : bytes;
  processor_ : P;
  reading : bool
}.

(** [Connections], the creator's counter and the effects of the processors. *)
Record net := Net {
  connections : gmap Z connection;
  next_connection_id_ : Z;
  log : list E
}.
Definition net_init : net := Net ∅ 0 [].
Definition set_connections (m : gmap Z connection) (s : net) : net :=
  Net m (next_connection_id_ s) (log s).
Definition emit (es : list E) : M net unit :=
  modify (fun s => Net (connections s) (next_connection_id_ s) (log s ++ es)).

(** [std::map::insert] keeps an entry that is there. *)
Definition add (id : Z) (c : connection) : M net unit :=
  modify (fun s => match connections s !! id with
                   | Some _ => s
                   | None => set_connections (<[id := c]> (connections s)) s
                   end).
(** Erasing the last reference runs the processor's destructor. *)
Definition remove (id : Z) : M net unit :=
  s ← get;
  match connections s !! id with
  | Some c => emit (destroy (processor_ c)) ≫= fun _ =>
              modify (fun s => set_connections (delete id (connections s)) s)
  | None => mret tt
  end.
Definition includes (id : Z) (s : net) : bool := bool_decide (is_Some (connections s !! id)).
Definition clear : M net unit :=
  s ← get;
  emit (concat ((fun e => destroy (processor_ e.2)) <$> by_key (connections s))) ≫= fun _ =>
  modify (set_connections ∅).
Definition net_size (s : net) : nat := size (connections s).
Definition at_ (n : Z) (s : net) : outcome connection :=
  match connections s !! n with Some c => Ret c | None => Throw OutOfRange end.

(** [fetch_add(1)] on an [std::atomic<int>]. *)
Definition next_id : M net Z :=
  s ← get;
  modify (fun s => Net (connections s) (i32 (next_connection_id_ s + 1)) (log s)) ≫= fun _ =>
  mret (next_connection_id_ s).

Definition read_next_message (c : connection) : connection :=
  Connection (name_ c) (processor_ c) true.

(** The end of both [create_connection_for]: number the connection, put it in
    the table and start its first read.  A connection whose number is taken
    would be destroyed with its read pending. *)
Definition establish (name : bytes) (p : P) : M net unit :=
  id ← next_id;
  s ← get;
  match connections s !! id with
  | Some _ => lift Undef
  | None => add id (read_next_message (Connection name p false))
  end.

(** [SocketConnection::on_read_size]: [None] is an error of the read.  The
    completed read is no longer pending; an exception of the processor leaves
    the connection in the table without a read. *)
Definition on_read_size (id : Z) (result : option bytes) : M net unit :=
  s ← get;
  match connections s !! id with
  | None => lift Undef
  | Some c =>
      match result with
      | None => remove id
      | Some data =>
          match process_data data (processor_ c) with
          | (p, es, o) =>
              emit es ≫= fun _ =>
              modify (fun s => set_connections
                (<[id := Connection (name_ c) p false]> (connections s)) s) ≫= fun _ =>
              go_on ← lift o;
              if (go_on : bool) then
                modify (fun s => set_connections
                  (alter read_next_message id (connections s)) s)
              else remove id
          end
      end
  end.

(** [rpc::ConnectionCreator::create_connection_for]: [p] is what the
    processor factory makes for the new socket. *)
Definition create_rpc_connection_for (p : P) : M net unit :=
  s ← get;
  if (1 <=? net_size s)%nat then mret tt else establish (str "rpc") p.

End connections.
Arguments connection : clear implicits.
Arguments net : clear implicits.
Arguments net_init {P E}.
#[global] Instance next_id_eta P E : Inhabited (net P E) := populate net_init.

(** * Connectors *)

(** Whether a connector has an accept pending, and what its creator keeps. *)
Section connectors.
Context {St : Type}.
Definition connector : Type := bool * St.
Inductive accept_result := Accepted | OperationAborted | AcceptError.

(** The creator's call inside a handler of the connector. *)
Definition create_in (create : M St unit) : M connector unit := fun s =>
  let (st, o) := create s.2 in ((s.1, st), o).
Definition set_accepting (b : bool) : M connector unit := modify (fun s => (b, s.2)).

(** [PublishedSocketConnector::on_new_connection], when the pending accept
    completes. *)
Definition published_on_new_connection (err : accept_result) (create : M St unit) : M connector unit :=
  set_accepting false ≫= fun _ =>
  (match err with Accepted => create_in create | _ => mret tt end) ≫= fun _ =>
  match err with
  | OperationAborted => mret tt
  | _ => set_accepting true
  end.

(** [TcpSocketConnector::on_new_connection] *)
Definition tcp_on_new_connection (err : accept_result) (create : M St unit) : M connector unit :=
  set_accepting false ≫= fun _ =>
  match err with
  | Accepted => create_in create ≫= fun _ => set_accepting true
  | _ => mret tt
  end.
End connectors.
Arguments connector : clear implicits.

(** * Lemmas: sending and receiving *)

(** A message reaches the wire once, as long as the socket takes nothing of it
    when it answers that it is busy. *)
Lemma send_once data answers wire :
  Forall (fun a => a.2 = Some TryAgain -> a.1 = 0%nat) answers ->
  send data answers = (wire, Some (Ret tt)) -> wire = data.
Proof.
  revert wire; induction answers as [|[n [[]|]] answers IH]; intros wire Hf Hs; simpl in Hs;
    try (simplify_eq; done).
  pose proof (Forall_inv Hf eq_refl) as Hn. apply Forall_inv_tail in Hf. simpl in Hn. subst n.
  destruct (send data answers) as [w r]. simplify_eq. simpl. by apply IH.
Qed.

(** A busy socket that took the first bytes gets them again. *)
Lemma send_repeats :
  send (str "abcd") [(2%nat, Some TryAgain); (4%nat, None)] = (str "ababcd", Some (Ret tt)).
Proof. reflexivity. Qed.

(** [receive_msg] fills the buffer with the stream, whatever the pieces, and
    reports an error exactly when it could not. *)
Lemma receive_msg_spec size answers buffer e r e' :
  receive_msg size buffer e answers = Some (r, e') ->
  exists k, r = buffer ++ concat (take k answers).*1 /\
    ((size <= length r)%nat \/ e' = Some OtherError).
Proof.
  revert buffer e; induction answers as [|[data err] answers IH]; intros buffer e Hr; simpl in Hr.
  - destruct (length buffer <? size)%nat eqn:E; [done|]. simplify_eq. bdestruct_all.
    exists 0%nat. simpl. rewrite app_nil_r. split; [done|by left].
  - destruct (length buffer <? size)%nat eqn:E; bdestruct_all.
    2: { simplify_eq. exists 0%nat. simpl. rewrite app_nil_r. split; [done|by left]. }
    destruct err as [[]|].
    2: { simplify_eq. exists 1%nat. simpl. rewrite app_nil_r. split; [done|by right]. }
    all: destruct (IH _ _ Hr) as (k & -> & Hk); exists (S k); simpl; rewrite app_assoc; by split.
Qed.

Lemma clear_ret {P E} `{!MessageProcessor P E} (s : net P E) : (clear s).2 = Ret tt.
Proof. done. Qed.

(** A completed read, once the processor has answered. *)
Lemma on_read_size_run {P E} `{!MessageProcessor P E} id data (s : net P E) c p es r :
  connections s !! id = Some c -> process_data data (processor_ c) = (p, es, r) ->
  let s1 := Net (<[id := Connection (name_ c) p false]> (connections s)) (next_connection_id_ s)
              (log s ++ es) in
  on_read_size id (Some data) s =
    match r with
    | Ret true => (set_connections (alter read_next_message id (connections s1)) s1, Ret tt)
    | Ret false => remove id s1
    | Throw e => (s1, Throw e) | Aborted => (s1, Aborted) | Undef => (s1, Undef)
    end.
Proof.
  intros Hc Hp s1. unfold on_read_size, get. unfold mbind at 1, M_bind at 1. cbn. rewrite Hc, Hp.
  unfold emit, modify, lift, mbind, M_bind. cbn. by destruct r as [[]| | |].
Qed.

(** A new connection under a number that is free. *)
Lemma establish_run {P E} `{!MessageProcessor P E} name p (s : net P E) :
  connections s !! next_connection_id_ s = None ->
  establish name p s =
    (Net (<[next_connection_id_ s := Connection name p true]> (connections s))
       (i32 (next_connection_id_ s + 1)) (log s), Ret tt).
Proof.
  intros Hf. unfold establish, next_id, get, modify, mbind, M_bind. cbn. rewrite Hf.
  unfold add, modify. cbn. by rewrite Hf.
Qed.


(** * Resources of the connections *)

(** A resource that processors acquire and release, seen in their effects. *)
Class Resource (P E : Type) `{!MessageProcessor P E} := {
  acquire : E -> option Z;
  release : E -> option Z;
  holds : P -> option Z;
  process_data_holds data p p' es o :
    process_data data p = (p', es, o) -> o <> Undef ->
    omap acquire es ++ option_list (holds p) ≡ₚ omap release es ++ option_list (holds p');
  destroy_acquire p : omap acquire (destroy p) = [];
  destroy_release p : omap release (destroy p) = option_list (holds p);
}.

Section resources.
Context {P E : Type} `{!MessageProcessor P E, !Resource P E}.

Definition held (m : gmap Z (connection P)) : list Z :=
  omap (fun e => holds (processor_ e.2)) (map_to_list m).
(** Everything acquired has been released, or is held by a connection, or is
    owed to one that is being made ([x]). *)
Definition owed (x : list Z) (s : net P E) : Prop :=
  omap acquire (log s) ≡ₚ omap release (log s) ++ held (connections s) ++ x.
Definition balanced (s : net P E) : Prop := owed [] s.

Lemma held_insert m i c : m !! i = None ->
  held (<[i := c]> m) ≡ₚ option_list (holds (processor_ c)) ++ held m.
Proof.
  intros Hi. unfold held. rewrite map_to_list_insert by done. simpl.
  by destruct (holds (processor_ c)).
Qed.
Lemma held_delete m i c : m !! i = Some c ->
  held m ≡ₚ option_list (holds (processor_ c)) ++ held (delete i m).
Proof.
  intros Hi. rewrite <- (insert_delete_id m i c) at 1 by done. apply held_insert. apply lookup_delete_eq.
Qed.
Lemma held_update m i c c' : m !! i = Some c ->
  held (<[i := c']> m) ≡ₚ option_list (holds (processor_ c')) ++ held (delete i m).
Proof.
  intros Hi. rewrite <- insert_delete_eq. apply held_insert. apply lookup_delete_eq.
Qed.
Lemma held_same m i c c' : m !! i = Some c -> holds (processor_ c') = holds (processor_ c) ->
  held (<[i := c']> m) ≡ₚ held m.
Proof. intros Hi Hh. by rewrite (held_update m i c c'), (held_delete m i c), Hh. Qed.

Lemma emit_owed es x y s s' :
  owed x s -> omap acquire es ++ x ≡ₚ omap release es ++ y -> log s' = log s ++ es ->
  connections s' = connections s -> owed y s'.
Proof.
  unfold owed. intros Hs He -> ->. rewrite !omap_app, Hs.
  transitivity (omap release (log s) ++ held (connections s) ++ (omap acquire es ++ x)).
  { solve_Permutation. }
  rewrite He. solve_Permutation.
Qed.

Lemma destroy_all m :
  omap acquire (concat ((fun e => destroy (processor_ e.2)) <$> by_key m)) = [] /\
  omap release (concat ((fun e => destroy (processor_ e.2)) <$> by_key m)) ≡ₚ held m.
Proof.
  split.
  - induction (by_key m) as [|e l IH]; [done|]. rewrite fmap_cons. cbn [concat].
    by rewrite omap_app, destroy_acquire, IH.
  - transitivity (omap (fun e => holds (processor_ e.2)) (by_key m)).
    + induction (by_key m) as [|e l IH]; [done|]. rewrite fmap_cons. cbn [concat].
      rewrite omap_app, destroy_release, IH. simpl. by destruct (holds (processor_ e.2)).
    + unfold held. by rewrite by_key_perm.
Qed.

(** The state after a connection has been removed. *)
Lemma remove_run id s c : connections s !! id = Some c ->
  remove id s = (Net (delete id (connections s)) (next_connection_id_ s)
                   (log s ++ destroy (processor_ c)), Ret tt).
Proof. intros Hc. unfold remove, get, emit, modify, mbind, M_bind. cbn. by rewrite Hc. Qed.

Lemma remove_owed id x s s' o : remove id s = (s', o) -> owed x s -> owed x s' /\ o = Ret tt.
Proof.
  intros Hr Hs. destruct (connections s !! id) as [c|] eqn:Hc.
  - rewrite (remove_run id s c Hc) in Hr. simplify_eq. split; [|done].
    unfold owed in *. cbn [log connections]. rewrite !omap_app, destroy_acquire, destroy_release, Hs.
    rewrite (held_delete _ _ _ Hc). solve_Permutation.
  - unfold remove, get, mret, M_ret, mbind, M_bind in Hr. cbn in Hr. rewrite Hc in Hr. cbn in Hr. simplify_eq. by split.
Qed.

Lemma clear_owed x s s' o : clear s = (s', o) -> owed x s -> owed x s' /\ connections s' = ∅.
Proof.
  intros Hr Hs. unfold clear, get, emit, modify, mbind, M_bind in Hr. cbn in Hr. simplify_eq.
  split; [|done]. destruct (destroy_all (connections s)) as [Ha Hrel].
  unfold owed in *. cbn [log connections set_connections]. rewrite !omap_app, Ha, Hrel, Hs.
  unfold held. rewrite map_to_list_empty. simpl. solve_Permutation.
Qed.

Lemma establish_owed name p x s s' o : establish name p s = (s', o) -> o <> Undef ->
  owed (option_list (holds p) ++ x) s -> owed x s' /\ o = Ret tt.
Proof.
  intros Hr Ho Hs. unfold establish, next_id, get, modify, mbind, M_bind in Hr. cbn in Hr.
  destruct (connections s !! next_connection_id_ s) eqn:Hid; cbn in Hr; [unfold lift in Hr; by simplify_eq|].
  unfold add, modify in Hr. cbn in Hr. rewrite Hid in Hr. simplify_eq. split; [|done].
  unfold owed in *. cbn [log connections set_connections]. rewrite held_insert by done.
  cbn [processor_ read_next_message]. rewrite Hs. solve_Permutation.
Qed.

(** A completed read. *)
Lemma on_read_size_owed id result x s s' o :
  on_read_size id result s = (s', o) -> o <> Undef -> owed x s -> owed x s'.
Proof.
  intros Hr Ho Hs. destruct (connections s !! id) as [c|] eqn:Hc.
  2: { unfold on_read_size, get, lift, mbind, M_bind in Hr. cbn in Hr. rewrite Hc in Hr. by simplify_eq. }
  destruct result as [data|].
  2: { unfold on_read_size, get, mbind, M_bind in Hr. cbn in Hr. rewrite Hc in Hr.
       by apply (remove_owed _ x) in Hr as [? _]. }
  destruct (process_data data (processor_ c)) as [[p es] r] eqn:Hp.
  rewrite (on_read_size_run id data s c p es r Hc Hp) in Hr.
  set (c1 := Connection (name_ c) p false) in *.
  set (s1 := Net (<[id := c1]> (connections s)) (next_connection_id_ s) (log s ++ es)) in *.
  assert (r <> Undef) as Hu by (intros ->; by simplify_eq).
  assert (owed x s1) as H1.
  { pose proof (process_data_holds _ _ _ _ _ Hp Hu) as Hbal. unfold owed in *. cbn [log connections s1].
    rewrite !omap_app, Hs, (held_update _ _ _ _ Hc), (held_delete _ _ _ Hc). cbn [processor_ c1].
    transitivity (omap release (log s) ++ held (delete id (connections s)) ++ x ++
                  (omap acquire es ++ option_list (holds (processor_ c)))); [solve_Permutation|].
    rewrite Hbal. solve_Permutation. }
  destruct r as [[]| | |]; simplify_eq; try done.
  - unfold owed in *. cbn [log connections set_connections s1] in *.
    assert (alter read_next_message id (<[id := c1]> (connections s))
              = <[id := read_next_message c1]> (<[id := c1]> (connections s))) as ->.
    { rewrite (alter_insert_eq (M := gmap Z)). by rewrite insert_insert_eq. }
    rewrite held_same; [done|by rewrite lookup_insert_eq|done].
  - by apply (remove_owed _ x) in Hr as [? _].
Qed.
End resources.

(** * What handlers leave alone *)

Section handlers.
Context {P E : Type} `{!MessageProcessor P E}.
(** A property of all effects of processors after their construction. *)
Context (Q : E -> Prop)
  (process_data_Q : forall data p, Forall Q (process_data data p).1.2)
  (destroy_Q : forall p, Forall Q (destroy p)).

(** No new connection, the same counter, and only such effects. *)
Definition settled (s s' : net P E) : Prop :=
  next_connection_id_ s' = next_connection_id_ s /\
  (forall id, is_Some (connections s' !! id) -> is_Some (connections s !! id)) /\
  exists es, log s' = log s ++ es /\ Forall Q es.

Lemma settled_refl s : settled s s.
Proof. split_and!; [done..|]. exists []. by rewrite app_nil_r. Qed.
Lemma settled_trans s1 s2 s3 : settled s1 s2 -> settled s2 s3 -> settled s1 s3.
Proof.
  intros (Hn & Hd & es & Hl & Hq) (Hn' & Hd' & es' & Hl' & Hq'). split_and!; [congruence|auto|].
  exists (es ++ es'). split; [by rewrite Hl', Hl, <- app_assoc|]. by apply Forall_app_2.
Qed.

Lemma remove_settled id s : settled s (remove id s).1.
Proof.
  destruct (connections s !! id) as [c|] eqn:Hc.
  - rewrite (remove_run id s c Hc). split_and!; [done| |].
    + intros i [c' Hi]. cbn [fst connections] in Hi. apply lookup_delete_Some in Hi as [_ Hi]. by exists c'.
    + exists (destroy (processor_ c)). split; [done|apply destroy_Q].
  - unfold remove, get, mret, M_ret, mbind, M_bind. cbn. rewrite Hc. apply settled_refl.
Qed.

Lemma clear_settled s : settled s (clear s).1.
Proof.
  unfold clear, get, emit, modify, mbind, M_bind. cbn. split_and!; [done| |].
  - intros i [c Hi]. cbn [connections set_connections] in Hi. by rewrite lookup_empty in Hi.
  - eexists. split; [done|]. apply Forall_concat, Forall_fmap, Forall_true. intros e. apply destroy_Q.
Qed.

(** Updating the entry of a connection that is there. *)
Lemma update_settled id c c' es s :
  connections s !! id = Some c -> Forall Q es ->
  settled s (Net (<[id := c']> (connections s)) (next_connection_id_ s) (log s ++ es)).
Proof.
  intros Hc Hes. split_and!; [done| |by exists es]. intros i [x Hi]. cbn [connections] in Hi.
  apply lookup_insert_Some in Hi as [[<- _]|[_ Hi]]; by eexists.
Qed.

Lemma on_read_size_settled id result s : settled s (on_read_size id result s).1.
Proof.
  destruct (connections s !! id) as [c|] eqn:Hc.
  2: { unfold on_read_size, get, lift, mbind, M_bind. cbn. rewrite Hc. apply settled_refl. }
  destruct result as [data|].
  2: { unfold on_read_size, get, mbind, M_bind. cbn. rewrite Hc. apply remove_settled. }
  pose proof (process_data_Q data (processor_ c)) as Hq.
  destruct (process_data data (processor_ c)) as [[p es] r] eqn:Hp. cbn [fst snd] in Hq.
  rewrite (on_read_size_run id data s c p es r Hc Hp).
  set (c1 := Connection (name_ c) p false) in *.
  pose proof (update_settled id c c1 es s Hc Hq) as H1.
  set (s1 := Net (<[id := c1]> (connections s)) (next_connection_id_ s) (log s ++ es)) in *.
  destruct r as [[]| | |]; cbn [fst]; try exact H1.
  - apply (settled_trans _ s1); [done|]. split_and!; [done| |exists []; by rewrite app_nil_r].
    intros i [x Hi]. cbn [connections set_connections] in Hi. rewrite lookup_alter_Some in Hi.
    destruct Hi as [(-> & y & Hi & _)|[_ Hi]]; by eexists.
  - apply (settled_trans _ s1); [done|]. apply remove_settled.
Qed.
End handlers.

(** * The single RPC connection *)

Section rpc.
Context {P E : Type} `{!MessageProcessor P E}.

(** Clients that connect (the factory makes [p] for them), reads that
    complete, and connections that are removed. *)
Inductive rpc_op := RpcAccept (p : P) | RpcRead (id : Z) (result : option bytes) | RpcRemove (id : Z).
Definition rpc_apply (o : rpc_op) : M (net P E) unit :=
  match o with
  | RpcAccept p => create_rpc_connection_for p
  | RpcRead id result => on_read_size id result
  | RpcRemove id => remove id
  end.
(** Exceptions are caught by the runtime's loop. *)
Definition rpc_step (s s' : net P E) : Prop :=
  exists o r, rpc_apply o s = (s', r) /\ r <> Undef.

Lemma settled_size Q (s s' : net P E) : settled Q s s' -> (net_size s' <= net_size s)%nat.
Proof.
  intros (_ & Hd & _). unfold net_size. rewrite <- !size_dom. apply subseteq_size.
  intros id Hid. apply elem_of_dom. apply Hd. by apply elem_of_dom.
Qed.

(** The RPC socket serves one client at a time.  In every sequence of
    accepts, completed reads and removals, the table holds at most one
    connection; a client that finds it taken changes nothing, and one that
    finds it empty becomes its only connection, with a read pending. *)
Theorem rpc_single_client (s : net P E) :
  rtc rpc_step net_init s -> (net_size s <= 1)%nat /\
  forall p, create_rpc_connection_for p s =
    if (1 <=? net_size s)%nat then (s, Ret tt)
    else (Net {[next_connection_id_ s := Connection (str "rpc") p true]}
            (i32 (next_connection_id_ s + 1)) (log s), Ret tt).
Proof.
  assert (forall (s : net P E) p, create_rpc_connection_for p s =
    if (1 <=? net_size s)%nat then (s, Ret tt)
    else (Net {[next_connection_id_ s := Connection (str "rpc") p true]}
            (i32 (next_connection_id_ s + 1)) (log s), Ret tt)) as Hcreate.
  { intros s0 p. unfold create_rpc_connection_for, get, mbind, M_bind. cbn beta iota.
    destruct (1 <=? net_size s0)%nat eqn:Hsz; [done|]. bdestruct_all.
    assert (connections s0 = ∅) as He by (apply map_size_empty_iff; unfold net_size in Hsz; lia).
    unfold establish, next_id, get, modify, mbind, M_bind. cbn. rewrite He, lookup_empty.
    unfold add, modify. cbn. by rewrite lookup_empty. }
  assert (forall s1 s2, rtc rpc_step s1 s2 -> (net_size s1 <= 1)%nat -> (net_size s2 <= 1)%nat) as Hinv.
  { induction 1 as [|s1 s2 s3 (o & r & Ha & Hr) _ IH]; [done|]. intros H1. apply IH.
    destruct o as [p|id result|id]; cbn [rpc_apply] in Ha.
    - rewrite Hcreate in Ha. destruct (1 <=? net_size s1)%nat; simplify_eq; [done|].
      unfold net_size in *. cbn [connections]. rewrite (map_size_singleton (M := gmap Z)). lia.
    - assert (settled (fun _ => True) s1 s2) as Hset.
      { pose proof (on_read_size_settled (fun _ : E => True) (fun _ _ => Forall_true _ _ (fun _ => I))
          (fun _ => Forall_true _ _ (fun _ => I)) id result s1) as H. by rewrite Ha in H. }
      apply settled_size in Hset. lia.
    - assert (settled (fun _ => True) s1 s2) as Hset.
      { pose proof (remove_settled (fun _ : E => True) (fun _ => Forall_true _ _ (fun _ => I)) id s1) as H.
        by rewrite Ha in H. }
      apply settled_size in Hset. lia. }
  intros Hs. split; [|apply Hcreate]. apply (Hinv net_init s Hs). unfold net_size, net_init. simpl. rewrite map_size_empty. lia.
Qed.
End rpc.

#[local] Instance no_processor : MessageProcessor unit unit :=
  { process_data := fun _ _ => (tt, [], Ret true); destroy := fun _ => [] }.
Lemma rpc_single_client_witness :
  let s : net unit unit := (create_rpc_connection_for tt net_init).1 in
  (net_size s <= 1)%nat /\ create_rpc_connection_for tt s = (s, Ret tt).
Proof.
  destruct (rpc_single_client (E := unit) (create_rpc_connection_for tt net_init).1) as [H1 H2].
  - apply rtc_once. exists (RpcAccept tt), (Ret tt). split; [by vm_compute|done].
  - split; [exact H1|]. cbv zeta. rewrite H2. vm_compute. reflexivity.
Defined.
