(* ===== verification/Pipe.v ===== *)
(** The guest's /dev/qemu_pipe: how a client is identified and connected
    (qemu/pipe_connection_creator.cpp), the reference of a color buffer that a
    pipe holds (qemu/refcount_message_processor.cpp), the lifetime of a guest
    process (GfxstreamProcessLifetime), and all services behind their
    connections, over the connections and connectors of Network.v. *)

From S2P Require Import Prelude Qemud QemuServices Gsm Network.

Local Open Scope Z_scope.

(** * The reference-count pipe *)

(** [open_callback] is whether the processor was made with an
    [open_color_buffer_] (the gfxstream backend) or for the renderer. *)
Record refcount := RefCount {
  open_callback : bool;
  pending_ : bytes;
  color_buffer_ : Z
}.

(** What processors do to the rest of the program. *)
Inductive event :=
  | Reply (msg : bytes)              (* messenger_->send *)
  | OpenColorBuffer (h : Z)          (* GfxstreamBackend::open_color_buffer *)
  | CloseColorBuffer (h : Z)         (* GfxstreamBackend::close_color_buffer *)
  | RendererClose (h : Z)            (* Renderer::closeColorBuffer *)
  | CreateProcess (id : Z)           (* GfxstreamBackend::create_process *)
  | CleanupProcess (id : Z).         (* GfxstreamBackend::cleanup_process *)

Definition refcount_init (open_callback : bool) : refcount := RefCount open_callback [] 0.

Definition refcount_process_data (data : bytes) (r : refcount) : refcount * list event * bool :=
  if negb (color_buffer_ r =? 0) then (r, [], false)
  else
    let pending := pending_ r ++ data in
    let r1 := RefCount (open_callback r) pending 0 in
    if (length pending <? 4)%nat then (r1, [], true)
    else if negb (length pending =? 4)%nat then (r1, [], false)
    else
      let color_buffer := le_value pending in
      let r2 := RefCount (open_callback r) [] color_buffer in
      if color_buffer =? 0 then (r2, [], false)
      else (r2, if open_callback r then [OpenColorBuffer color_buffer] else [], true).

Definition refcount_destroy (r : refcount) : list event :=
  if color_buffer_ r =? 0 then []
  else if open_callback r then [CloseColorBuffer (color_buffer_ r)]
  else [RendererClose (color_buffer_ r)].

(** * Clients *)

Inductive client_type :=
  | invalid | opengles | gl_process_pipe | refcount_client
  | qemud_boot_properties | qemud_hw_control | qemud_sensors | qemud_camera
  | qemud_fingerprint | qemud_gps | qemud_gsm | qemud_adb | bootanimation.
#[global] Instance client_type_eq_dec : EqDecision client_type.
Proof. solve_decision. Defined.

Definition client_type_to_string (type : client_type) : bytes :=
  match type with
  | opengles => str "opengles"
  | gl_process_pipe => str "GLProcessPipe"
  | refcount_client => str "refcount"
  | qemud_boot_properties => str "boot-properties"
  | qemud_hw_control => str "hw-control"
  | qemud_sensors => str "sensors"
  | qemud_camera => str "camera"
  | qemud_fingerprint => str "fingerprint"
  | qemud_gsm => str "gsm"
  | qemud_adb => str "adb"
  | bootanimation => str "boot-animation"
  | qemud_gps => str "gps"
  | invalid => str "unknown"
  end.

(** The bytes of the socket up to the first NUL, or up to its end. *)
Fixpoint read_name (incoming : bytes) : bytes * bytes :=
  match incoming with
  | [] => ([], [])
  | b :: rest =>
      if Byte.eqb b x00 then ([b], rest)
      else let (buffer, rest') := read_name rest in (b :: buffer, rest')
  end.

Definition client_of (identifier_and_args : bytes) : client_type :=
  let starts p := starts_with identifier_and_args (str p) in
  let equals p := bytes_eqb identifier_and_args (str p) in
  if starts "pipe:opengles" then opengles
  else if equals "pipe:GLProcessPipe" || equals "GLProcessPipe" then gl_process_pipe
  else if equals "pipe:refcount" || equals "refcount" then refcount_client
  else if starts "pipe:qemud:boot-properties" then qemud_boot_properties
  else if starts "pipe:qemud:hw-control" then qemud_hw_control
  else if starts "pipe:qemud:sensors" then qemud_sensors
  else if starts "pipe:qemud:camera" then qemud_camera
  else if starts "pipe:qemud:fingerprintlisten" then qemud_fingerprint
  else if starts "pipe:qemud:gsm" then qemud_gsm
  else if starts "pipe:anbox:bootanimation" then bootanimation
  else if starts "pipe:qemud:adb" then qemud_adb
  else if starts "pipe:qemud:gps" then qemud_gps
  else invalid.

(** [identify_client], with what it leaves in the socket. *)
Definition identify_client (incoming : bytes) : client_type * bytes :=
  let (buffer, rest) := read_name incoming in
  match last buffer with
  | None => (invalid, rest)
  | Some b =>
      let string_size := if Byte.eqb b x00 then (length buffer - 1)%nat else length buffer in
      (client_of (take string_size buffer), rest)
  end.

(** * Processors *)

Inductive qemud_service := BootProperties | HwControl | Fingerprint.

Section pipe.
(** Processors that are not modelled here: OpenGL and gfxstream streams and
    the adb proxy (Adb.v); they hold no color buffer and no process. *)
Context {O : Type} (opaque_new : client_type -> O)
  (opaque_data : bytes -> O -> O * list bytes * bool).
(** [boost::split] at colons, the current density, and the sensors that are
    switched off on the host. *)
Context (split : bytes -> list bytes) (density disabled_sensors : Z).
(** Whether there is a [GfxstreamBackend]. *)
Context (gfxstream : bool).

Inductive processor :=
  | POpaque (o : O)
  | PProcess (id : Z)
  | PRefCount (r : refcount)
  | PQemud (service : qemud_service) (buffer : bytes)
  | PSensors (buffer : bytes) (st : QemuServices.sensors)
  | PCamera (buffer : bytes)
  | PGsm (buffer : bytes)
  | PGps
  | PNull.

Definition qemud_handler (service : qemud_service) : list bytes -> bytes -> list bytes :=
  match service with
  | BootProperties => QemuServices.boot_properties density
  | HwControl => QemuServices.hwcontrol
  | Fingerprint => QemuServices.fingerprint
  end.

(** The result of a loop that always ends. *)
Definition ended {A} (o : option (outcome A)) : outcome A :=
  match o with Some r => r | None => Undef end.

(** [processor_->process_data(data)], by the dynamic type of the processor. *)
Definition pipe_process_data (data : bytes) (p : processor) : processor * list event * outcome bool :=
  match p with
  | POpaque o => let '(o', out, go_on) := opaque_data data o in (POpaque o', Reply <$> out, Ret go_on)
  | PProcess id => (p, [], Ret false)  (* the default of network/message_processor.h *)
  | PRefCount r =>
      let '(r', es, go_on) := refcount_process_data data r in (PRefCount r', es, Ret go_on)
  | PQemud service buffer =>
      match ended (Qemud.process_data (qemud_handler service) data (buffer, [])) with
      | Ret (buffer', out) => (PQemud service buffer', Reply <$> out, Ret true)
      | Throw e => (p, [], Throw e) | Aborted => (p, [], Aborted) | Undef => (p, [], Undef)
      end
  | PSensors buffer st =>
      match ended (Qemud.process_data (QemuServices.sensors_command split disabled_sensors) data
                     (buffer, QemuServices.Sensors (QemuServices.delay_ st)
                                (QemuServices.enabledSensors_ st) [])) with
      | Ret (buffer', st') =>
          (PSensors buffer' st', Reply <$> QemuServices.sensors_out st', Ret true)
      | Throw e => (p, [], Throw e) | Aborted => (p, [], Aborted) | Undef => (p, [], Undef)
      end
  | PCamera buffer =>
      match ended (QemuServices.camera_process_data data (buffer, [])) with
      | Ret (buffer', out) => (PCamera buffer', Reply <$> out, Ret true)
      | Throw e => (p, [], Throw e) | Aborted => (p, [], Aborted) | Undef => (p, [], Undef)
      end
  | PGsm buffer =>
      let (buffer', out) := Gsm.gsm_process_data data (buffer, []) in
      (PGsm buffer', Reply <$> out, Ret true)
  | PGps | PNull => (p, [], Ret true)
  end.

Definition pipe_destroy (p : processor) : list event :=
  match p with
  | PProcess id => [CleanupProcess id]
  | PRefCount r => refcount_destroy r
  | _ => []
  end.

#[export] Instance pipe_processor : MessageProcessor processor event :=
  { process_data := pipe_process_data; destroy := pipe_destroy }.

Definition create_processor (type : client_type) : processor :=
  match type with
  | opengles | qemud_adb => POpaque (opaque_new type)
  | refcount_client => PRefCount (refcount_init gfxstream)
  | qemud_boot_properties => PQemud BootProperties []
  | qemud_hw_control => PQemud HwControl []
  | qemud_fingerprint => PQemud Fingerprint []
  | qemud_sensors => PSensors [] QemuServices.sensors_init
  | qemud_camera => PCamera []
  | qemud_gsm => PGsm []
  | qemud_gps => PGps
  | invalid | gl_process_pipe | bootanimation => PNull
  end.

(** * The connection creator *)

(** The creator's connections and the process-wide token counter. *)
Record sys := Sys {
  pipe_net : net processor event;
  next_gl_process_pipe_token : Z
}.
Definition sys_init : sys := Sys net_init 1.
Definition on_net {A} (c : M (net processor event) A) : M sys A := fun s =>
  let (n, o) := c (pipe_net s) in (Sys n (next_gl_process_pipe_token s), o).

(** The confirmation that a GLProcessPipe writes after its name, and the token
    it gets back. *)
Definition confirmation_of (rest : bytes) : outcome Z :=
  if (length rest <? 4)%nat then Throw RuntimeError
  else
    let confirmation := i32 (le_value (take 4 rest)) in
    if confirmation =? 100 then Ret confirmation else Throw RuntimeError.
Definition process_token : M sys Z :=
  s ← get;
  let token := next_gl_process_pipe_token s in
  modify (fun s => Sys (pipe_net s) (u64 (token + 1))) ≫= fun _ =>
  on_net (emit [Reply (le_bytes 8 token)]) ≫= fun _ =>
  mret token.

Definition create_connection_for (incoming : bytes) : M sys unit :=
  let (type, rest) := identify_client incoming in
  token ← (if decide (type = gl_process_pipe) then
             lift (confirmation_of rest) ≫= fun _ => process_token
           else mret 0);
  p ← (if bool_decide (type = gl_process_pipe) && gfxstream then
         on_net (emit [CreateProcess token]) ≫= fun _ => mret (PProcess token)
       else mret (create_processor type));
  on_net (establish (client_type_to_string type) p).

(** * The system *)

(** What can happen: the pending accept of the pipe's connector completes
    (with the bytes the client writes first), a pending read completes, or
    the creator is destroyed. *)
Inductive op :=
  | Accept (err : accept_result) (incoming : bytes)
  | Read (id : Z) (result : option bytes)
  | Destroy.

Definition enabled (o : op) (s : connector sys) : Prop :=
  match o with
  | Accept _ _ => s.1 = true
  | Read id _ => exists c, connections (pipe_net s.2) !! id = Some c /\ reading c = true
  | Destroy => True
  end.
Definition apply (o : op) : M (connector sys) unit :=
  match o with
  | Accept err incoming => published_on_new_connection err (create_connection_for incoming)
  | Read id result => create_in (on_net (on_read_size id result))
  | Destroy => create_in (on_net clear)
  end.

(** An exception leaves the handler; [exception_safe_run] of runtime.cpp logs
    it and runs the next one. *)
Definition step (s s' : connector sys) : Prop :=
  exists o r, enabled o s /\ apply o s = (s', r) /\ r <> Undef.

(** * Lemmas: the resources of the processors *)

Definition opened (e : event) : option Z := match e with OpenColorBuffer h => Some h | _ => None end.
Definition closed (e : event) : option Z := match e with CloseColorBuffer h => Some h | _ => None end.
Definition holds_buffer (p : processor) : option Z :=
  match p with
  | PRefCount r => if negb (color_buffer_ r =? 0) && open_callback r then Some (color_buffer_ r) else None
  | _ => None
  end.
Definition created (e : event) : option Z := match e with CreateProcess h => Some h | _ => None end.
Definition cleaned (e : event) : option Z := match e with CleanupProcess h => Some h | _ => None end.
Definition holds_process (p : processor) : option Z :=
  match p with PProcess id => Some id | _ => None end.

Lemma omap_replies (f : event -> option Z) out :
  (forall m, f (Reply m) = None) -> omap f (Reply <$> out) = [].
Proof. intros Hf. induction out as [|m out IH]; [done|]. simpl. by rewrite Hf. Qed.

(** Only the reference-count pipe touches color buffers. *)
Lemma refcount_balance data r r' es go_on :
  refcount_process_data data r = (r', es, go_on) ->
  omap opened es ++ option_list (holds_buffer (PRefCount r)) ≡ₚ
    omap closed es ++ option_list (holds_buffer (PRefCount r')).
Proof.
  unfold refcount_process_data. intros Hp.
  repeat case_match; simplify_eq; simpl; try done; bdestruct_all;
    repeat match goal with
      | H : (?a =? ?b) = _ |- _ => rewrite H
      | H : ?a = 0 |- _ => rewrite H
      end; simpl; try done.
  all: rewrite ?(proj2 (Z.eqb_neq _ _)) by done; simpl; rewrite ?andb_false_r; done.
Qed.

Lemma buffers_process_data data p p' es o :
  pipe_process_data data p = (p', es, o) -> o <> Undef ->
  omap opened es ++ option_list (holds_buffer p) ≡ₚ omap closed es ++ option_list (holds_buffer p').
Proof.
  intros Hp _. destruct p; cbn [pipe_process_data] in Hp.
  3: { destruct (refcount_process_data data r) as [[r' es'] go_on] eqn:E. simplify_eq.
       by apply (refcount_balance data r r' es go_on). }
  all: repeat case_match; simplify_eq; by rewrite ?omap_replies.
Qed.
Lemma processes_process_data data p p' es o :
  pipe_process_data data p = (p', es, o) -> o <> Undef ->
  omap created es ++ option_list (holds_process p) ≡ₚ omap cleaned es ++ option_list (holds_process p').
Proof.
  intros Hp _. destruct p; cbn [pipe_process_data] in Hp.
  3: { unfold refcount_process_data in Hp. repeat case_match; simplify_eq; done. }
  all: repeat case_match; simplify_eq; by rewrite ?omap_replies.
Qed.

(** The color buffers of the gfxstream backend, and the guest's processes. *)
Definition buffers : Resource processor event.
Proof.
  refine {| acquire := opened; release := closed; holds := holds_buffer;
            process_data_holds := buffers_process_data |}.
  - intros [| |r| | | | | |]; try done. simpl. unfold refcount_destroy. by repeat case_match.
  - intros [| |r| | | | | |]; try done. simpl. unfold refcount_destroy.
    destruct (color_buffer_ r =? 0) eqn:E; simpl; [done|]. by destruct (open_callback r).
Defined.
Definition processes : Resource processor event.
Proof.
  refine {| acquire := created; release := cleaned; holds := holds_process;
            process_data_holds := processes_process_data |}.
  - intros [| |r| | | | | |]; try done. simpl. unfold refcount_destroy. by repeat case_match.
  - intros [| |r| | | | | |]; try done. simpl. unfold refcount_destroy. by repeat case_match.
Defined.

(** * Lemmas: the creator *)

Definition buffers_balanced (s : net processor event) : Prop := balanced (Resource0 := buffers) s.
Definition processes_balanced (s : net processor event) : Prop := balanced (Resource0 := processes) s.

(** Connection numbers and tokens are handed out in order; [n] bounds how many
    there have been. *)
Definition counted (n : Z) (s : sys) : Prop :=
  0 <= next_connection_id_ (pipe_net s) <= n /\ 1 <= next_gl_process_pipe_token s <= n + 1 /\
  (forall id c, connections (pipe_net s) !! id = Some c -> 0 <= id < next_connection_id_ (pipe_net s)) /\
  NoDup (omap created (log (pipe_net s))) /\
  Forall (fun t => 0 < t < next_gl_process_pipe_token s) (omap created (log (pipe_net s))).

Definition good (n : Z) (s : sys) : Prop :=
  buffers_balanced (pipe_net s) /\ processes_balanced (pipe_net s) /\ counted n s.

Lemma sys_good_init : good 0 sys_init.
Proof.
  unfold good, buffers_balanced, processes_balanced, balanced, owed, counted, held. cbn.
  rewrite map_to_list_empty. split_and!; try done; try lia. constructor.
Qed.

Definition creates_nothing (e : event) : Prop := created e = None.

Lemma replies_create_nothing out : Forall creates_nothing (Reply <$> out).
Proof. induction out; constructor; done. Qed.

Lemma process_data_creates_nothing data p : Forall creates_nothing (pipe_process_data data p).1.2.
Proof.
  destruct p; cbn [pipe_process_data]; unfold refcount_process_data; repeat case_match; cbn [fst snd];
    simplify_eq; repeat constructor; apply replies_create_nothing.
Qed.
Lemma destroy_creates_nothing p : Forall creates_nothing (pipe_destroy p).
Proof. destruct p; simpl; unfold refcount_destroy; repeat case_match; repeat constructor. Qed.

Lemma creates_nothing_omap es : Forall creates_nothing es -> omap created es = [].
Proof. induction 1 as [|e es He _ IH]; [done|]. simpl. by rewrite He. Qed.

Lemma counted_settled n m s m' :
  counted n (Sys m s) -> settled creates_nothing m m' -> counted n (Sys m' s).
Proof.
  intros (Hn & Ht & Hd & Hnd & Hf) (Hn' & Hd' & es & Hl & Hes). unfold counted in *. cbn [pipe_net next_gl_process_pipe_token] in *.
  rewrite Hn', Hl, omap_app, (creates_nothing_omap es Hes), app_nil_r. split_and!; try done; try lia.
  intros id c Hc. destruct (Hd' id) as [c' Hc']; [by eexists|]. by apply (Hd id c').
Qed.

Lemma counted_weaken n n' s : n <= n' -> counted n s -> counted n' s.
Proof. intros Hle (? & ? & ? & ? & ?). split_and!; try done; lia. Qed.

Lemma good_weaken n s : good n s -> good (n + 1) s.
Proof. intros (? & ? & ?). split; [done|]. split; [done|]. apply (counted_weaken n); [lia|done]. Qed.

(** Whether a client that connects is accepted, and what it gets. *)
Definition accepted (incoming : bytes) : bool :=
  let (type, rest) := identify_client incoming in
  if decide (type = gl_process_pipe) then
    match confirmation_of rest with Ret _ => true | _ => false end
  else true.
Definition greeting (incoming : bytes) (token : Z) : list event :=
  if decide ((identify_client incoming).1 = gl_process_pipe) then
    Reply (le_bytes 8 token) :: (if gfxstream then [CreateProcess token] else [])
  else [].
Definition new_processor (incoming : bytes) (token : Z) : processor :=
  let type := (identify_client incoming).1 in
  if bool_decide (type = gl_process_pipe) && gfxstream then PProcess token else create_processor type.
Definition next_token (incoming : bytes) (token : Z) : Z :=
  if decide ((identify_client incoming).1 = gl_process_pipe) then u64 (token + 1) else token.

Lemma create_connection_run incoming s :
  create_connection_for incoming s =
    if accepted incoming then
      on_net (establish (client_type_to_string (identify_client incoming).1)
                (new_processor incoming (next_gl_process_pipe_token s)))
        (Sys (Net (connections (pipe_net s)) (next_connection_id_ (pipe_net s))
                (log (pipe_net s) ++ greeting incoming (next_gl_process_pipe_token s)))
           (next_token incoming (next_gl_process_pipe_token s)))
    else (s, Throw RuntimeError).
Proof.
  unfold create_connection_for, accepted, greeting, new_processor, next_token.
  destruct (identify_client incoming) as [type rest]. cbn [fst].
  destruct s as [[m i l] t]. cbn [pipe_net next_gl_process_pipe_token connections next_connection_id_ log].
  destruct (decide (type = gl_process_pipe)) as [->|Hne].
  - rewrite bool_decide_true by done. unfold lift, mbind, M_bind at 1. unfold confirmation_of.
    destruct (length rest <? 4)%nat; [done|].
    destruct (i32 (le_value (take 4 rest)) =? 100); [|done].
    unfold process_token, on_net, emit, modify, get, mret, M_ret, mbind, M_bind.
    destruct gfxstream; cbn -[le_bytes]; by rewrite <- ?app_assoc.
  - rewrite bool_decide_false by done. cbn. by rewrite app_nil_r.
Qed.

Lemma greeting_owed incoming token s :
  buffers_balanced s -> processes_balanced s ->
  let s' := Net (connections s) (next_connection_id_ s) (log s ++ greeting incoming token) in
  let p := new_processor incoming token in
  owed (Resource0 := buffers) (option_list (holds_buffer p) ++ []) s' /\
  owed (Resource0 := processes) (option_list (holds_process p) ++ []) s'.
Proof.
  intros Hb Hp s' p. subst p. unfold new_processor, greeting in *.
  split.
  - eapply (emit_owed (Resource0 := buffers)); [exact Hb| |done|done].
    destruct (decide _) as [He|He]; [rewrite bool_decide_true by done|rewrite bool_decide_false by done].
    + cbn [andb]. destruct gfxstream; [done|]. by rewrite He.
    + cbn [andb]. by destruct (identify_client incoming).1.
  - eapply (emit_owed (Resource0 := processes)); [exact Hp| |done|done].
    destruct (decide _) as [He|He]; [rewrite bool_decide_true by done|rewrite bool_decide_false by done].
    + cbn [andb]. destruct gfxstream; [done|]. by rewrite He.
    + cbn [andb]. by destruct (identify_client incoming).1.
Qed.

(** The state after an accepted client. *)
Definition connected (incoming : bytes) (s : sys) : sys :=
  let token := next_gl_process_pipe_token s in
  let id := next_connection_id_ (pipe_net s) in
  Sys (Net (<[id := Connection (client_type_to_string (identify_client incoming).1)
                      (new_processor incoming token) true]> (connections (pipe_net s)))
         (id + 1) (log (pipe_net s) ++ greeting incoming token))
    (next_token incoming token).

Lemma counted_fresh n s : counted n s ->
  connections (pipe_net s) !! next_connection_id_ (pipe_net s) = None.
Proof.
  intros (_ & _ & Hd & _). destruct (_ !! _) as [c|] eqn:E; [|done]. apply Hd in E. lia.
Qed.

Lemma create_connection_ok n incoming s : counted n s -> n < 2 ^ 31 - 1 ->
  create_connection_for incoming s =
    if accepted incoming then (connected incoming s, Ret tt) else (s, Throw RuntimeError).
Proof.
  intros Hc Hn. rewrite create_connection_run. destruct (accepted incoming); [|done].
  unfold on_net. cbn [pipe_net next_gl_process_pipe_token]. rewrite establish_run.
  - cbn [connections next_connection_id_ log]. unfold connected. rewrite i32_id; [done|].
    destruct Hc as (? & _). unfold in_i32. lia.
  - cbn [connections next_connection_id_]. by apply (counted_fresh n).
Qed.

Lemma omap_created_greeting incoming token :
  omap created (greeting incoming token) = [] \/
  omap created (greeting incoming token) = [token] /\ (identify_client incoming).1 = gl_process_pipe.
Proof.
  unfold greeting. destruct (decide _); [|by left]. destruct gfxstream; [by right|by left].
Qed.

Lemma connected_counted n incoming s : counted n s -> n < 2 ^ 31 - 1 -> counted (n + 1) (connected incoming s).
Proof.
  intros (Hi & Ht & Hd & Hnd & Hf) Hn. unfold counted, connected.
  cbn [pipe_net next_gl_process_pipe_token next_connection_id_ connections log].
  set (t := next_gl_process_pipe_token s) in *.
  assert (t <= next_token incoming t <= t + 1 /\
          ((identify_client incoming).1 = gl_process_pipe -> next_token incoming t = t + 1)) as [Hnt Hgl].
  { unfold next_token. destruct (decide _); [|split; [lia|done]].
    unfold u64. rewrite Z.mod_small by lia. split; [lia|done]. }
  split_and!; try lia.
  - intros id c Hc. apply lookup_insert_Some in Hc as [[<- _]|[_ Hc]]; [lia|]. apply Hd in Hc. lia.
  - rewrite omap_app. destruct (omap_created_greeting incoming t) as [->|[-> _]]; [by rewrite app_nil_r|].
    apply NoDup_app. split_and!; [done| |apply NoDup_singleton].
    intros x Hx Hx'. apply list_elem_of_singleton in Hx' as ->.
    rewrite Forall_forall in Hf. apply Hf in Hx. lia.
  - rewrite omap_app. apply Forall_app_2.
    + eapply Forall_impl; [exact Hf|]. simpl. intros; lia.
    + destruct (omap_created_greeting incoming t) as [->|[-> Ht']]; [constructor|].
      apply Forall_singleton. rewrite (Hgl Ht'). lia.
Qed.

Lemma connected_good n incoming s : good n s -> n < 2 ^ 31 - 1 -> good (n + 1) (connected incoming s).
Proof.
  intros (Hb & Hp & Hc) Hn. split_and!; [| |by apply connected_counted];
    destruct (greeting_owed incoming (next_gl_process_pipe_token s) (pipe_net s) Hb Hp) as [Hb' Hp'];
    unfold buffers_balanced, processes_balanced, balanced, owed, connected in *;
    cbn [pipe_net connections log] in *.
  - rewrite (held_insert (Resource0 := buffers)) by (by apply (counted_fresh n)).
    cbn [processor_]. rewrite Hb'. cbn [holds buffers]. solve_Permutation.
  - rewrite (held_insert (Resource0 := processes)) by (by apply (counted_fresh n)).
    cbn [processor_]. rewrite Hp'. cbn [holds processes]. solve_Permutation.
Qed.

(** Handlers that only act on the connections. *)
Lemma net_good n (c : M (net processor event) unit) s m r :
  (forall m, settled creates_nothing m (c m).1) ->
  (forall (R : Resource processor event) m m' r, c m = (m', r) -> r <> Undef ->
     owed (Resource0 := R) [] m -> owed (Resource0 := R) [] m') ->
  c (pipe_net s) = (m, r) -> r <> Undef -> good n s -> good n (Sys m (next_gl_process_pipe_token s)).
Proof.
  intros Hs Ho Hc Hr (Hb & Hp & Hn). specialize (Hs (pipe_net s)). rewrite Hc in Hs.
  split_and!.
  - by apply (Ho buffers _ _ _ Hc Hr).
  - by apply (Ho processes _ _ _ Hc Hr).
  - destruct s as [m0 t]. by apply (counted_settled n m0).
Qed.

Lemma step_good n (s s' : connector sys) :
  step s s' -> good n s.2 -> n < 2 ^ 31 - 1 -> good (n + 1) s'.2.
Proof.
  intros (o & r & _ & Ha & Hr) Hg Hn. destruct s as [b s]. cbn [snd] in *. destruct o as [err incoming|id result|].
  - unfold apply, published_on_new_connection, set_accepting, modify, mret, M_ret, mbind, M_bind, create_in in Ha.
    cbn in Ha. pose proof Hg as (_ & _ & Hc). destruct err; cbn in Ha.
    + rewrite (create_connection_ok n) in Ha by done.
      destruct (accepted incoming); cbn in Ha; simplify_eq; cbn [snd].
      * by apply connected_good.
      * by apply good_weaken.
    + simplify_eq. cbn [snd]. by apply good_weaken.
    + simplify_eq. cbn [snd]. by apply good_weaken.
  - unfold apply, create_in, on_net in Ha. cbn [snd] in Ha.
    destruct (on_read_size id result (pipe_net s)) as [m r'] eqn:E. simplify_eq. cbn [snd].
    apply good_weaken.
    apply (net_good n (on_read_size id result) s m r); try done.
    + intros m'. apply on_read_size_settled; [apply process_data_creates_nothing|apply destroy_creates_nothing].
    + intros R m1 m2 r1 H1 H2 H3. by apply (on_read_size_owed id result [] m1 m2 r1).
  - unfold apply, create_in, on_net in Ha. cbn [snd] in Ha.
    destruct (clear (pipe_net s)) as [m r'] eqn:E. simplify_eq. cbn [snd].
    apply good_weaken.
    apply (net_good n clear s m r); try done.
    + intros m'. apply clear_settled, destroy_creates_nothing.
    + intros R m1 m2 r1 H1 H2 H3. by apply (clear_owed [] m1 m2 r1) in H1 as [? _].
Qed.

Lemma steps_good k s : nsteps step k (true, sys_init) s -> Z.of_nat k < 2 ^ 31 - 1 -> good (Z.of_nat k) s.2.
Proof.
  revert s; induction k as [|k IH]; intros s Hs Hk.
  - inversion Hs; subst. apply sys_good_init.
  - apply nsteps_inv_r in Hs as (s1 & Hs & Hstep).
    replace (Z.of_nat (S k)) with (Z.of_nat k + 1) by lia.
    apply (step_good _ s1); [done| |lia]. apply IH; [done|lia].
Qed.

(** Without a pending accept there is never one again. *)
Lemma not_accepting s s' : rtc step s s' -> s.1 = false -> s'.1 = false.
Proof.
  induction 1 as [|s1 s2 s3 (o & r & He & Ha & _) _ IH]; [done|]. intros H1. apply IH.
  destruct s1 as [b s]. cbn [fst] in H1. subst b. destruct o as [err incoming|id result|]; [done| |].
  all: unfold apply, create_in, on_net in Ha; cbn [fst snd] in Ha; repeat case_match; by simplify_eq.
Qed.

Definition held_buffers (s : sys) : list Z := held (Resource0 := buffers) (connections (pipe_net s)).
Definition held_processes (s : sys) : list Z := held (Resource0 := processes) (connections (pipe_net s)).

(** C7: nothing that a pipe client owns is lost or released twice.  Whatever
    clients connect, write and close in whatever order (up to 2^31 events, the
    range of the connection numbers), the color buffers opened in the
    gfxstream backend are exactly those closed again and those whose
    reference-count pipe is still connected, and likewise for the guest
    processes, whose tokens are all different; destroying the creator leaves
    none behind. *)
Theorem pipe_resources (k : nat) (s : connector sys) :
  nsteps step k (true, sys_init) s -> Z.of_nat k < 2 ^ 31 - 1 ->
  let l := log (pipe_net s.2) in
  omap opened l ≡ₚ omap closed l ++ held_buffers s.2 /\
  omap created l ≡ₚ omap cleaned l ++ held_processes s.2 /\
  NoDup (omap created l) /\
  forall s' r, apply Destroy s = (s', r) ->
    let l' := log (pipe_net s'.2) in
    r = Ret tt /\ omap opened l' ≡ₚ omap closed l' /\ omap created l' ≡ₚ omap cleaned l'.
Proof.
  intros Hs Hk l. destruct (steps_good k s Hs Hk) as (Hb & Hp & Hc).
  unfold buffers_balanced, processes_balanced, balanced, owed in Hb, Hp. rewrite app_nil_r in Hb, Hp.
  split_and!; [done|done|apply Hc|]. intros s' r Ha.
  pose proof (clear_ret (pipe_net s.2)) as Hr. destruct (clear (pipe_net s.2)) as [m r'] eqn:E.
  cbn [snd] in Hr. subst r'. unfold apply, create_in, on_net in Ha. rewrite E in Ha. simplify_eq. cbn [snd pipe_net].
  assert (owed (Resource0 := buffers) [] m /\ connections m = ∅) as [H1 He].
  { apply (clear_owed (Resource0 := buffers) [] _ _ _ E). unfold owed. by rewrite app_nil_r. }
  assert (owed (Resource0 := processes) [] m /\ connections m = ∅) as [H2 _].
  { apply (clear_owed (Resource0 := processes) [] _ _ _ E). unfold owed. by rewrite app_nil_r. }
  unfold owed, held in H1, H2. rewrite He, map_to_list_empty in H1, H2. cbn [omap list_omap] in H1, H2.
  rewrite !app_nil_r in H1, H2. done.
Qed.

(** How a client is accepted.  Up to 2^31 events, a client that connects
    while an accept is pending gets a connection under a fresh number, with
    the processor of its service and a pending read, and the connector goes on
    accepting; a GLProcessPipe gets its token and must have sent the
    confirmation 100.  If it has not, the exception leaves the connector
    without a pending accept, and no client is ever accepted again. *)
Theorem pipe_accepts (k : nat) (s : connector sys) (incoming : bytes) :
  nsteps step k (true, sys_init) s -> Z.of_nat k < 2 ^ 31 - 1 ->
  (accepted incoming = true ->
   apply (Accept Accepted incoming) s = ((true, connected incoming s.2), Ret tt) /\
   connections (pipe_net s.2) !! next_connection_id_ (pipe_net s.2) = None) /\
  (accepted incoming = false ->
   exists s', apply (Accept Accepted incoming) s = (s', Throw RuntimeError) /\
     (identify_client incoming).1 = gl_process_pipe /\
     forall s'', rtc step s' s'' -> s''.1 = false).
Proof.
  intros Hs Hk. destruct (steps_good k s Hs Hk) as (_ & _ & Hc). destruct s as [b s]. cbn [snd] in *.
  unfold apply, published_on_new_connection, set_accepting, modify, create_in, mret, M_ret, mbind, M_bind.
  cbn. rewrite (create_connection_ok (Z.of_nat k)) by done. split; intros Ha; rewrite Ha.
  - split; [done|]. by apply (counted_fresh (Z.of_nat k)).
  - exists (false, s). split_and!; [done| |].
    + unfold accepted in Ha. destruct (identify_client incoming) as [type rest].
      destruct (decide (type = gl_process_pipe)); done.
    + intros s'' Hr. by apply (not_accepting (false, s)).
Qed.

(** The name is what the client wrote before its first NUL; the rest stays in
    the socket for the connection. *)
Lemma identify_name name rest : Forall (fun b => Byte.eqb b x00 = false) name ->
  identify_client (name ++ x00 :: rest) = (client_of name, rest).
Proof.
  intros Hn. unfold identify_client.
  assert (read_name (name ++ x00 :: rest) = (name ++ [x00], rest)) as ->.
  { induction Hn as [|b name Hb _ IH]; [done|]. simpl. by rewrite Hb, IH. }
  rewrite last_snoc. change (Byte.eqb x00 x00) with true. cbv iota zeta. rewrite length_app. simpl.
  rewrite Nat.add_sub. by rewrite take_app_length.
Qed.
End pipe.

(** A run with a process and a reference-counted color buffer. *)
Section example.
Definition a_process : bytes := str "pipe:GLProcessPipe" ++ x00 :: le_bytes 4 100.
Definition a_refcount : bytes := str "pipe:refcount" ++ [x00].
Abbreviation at_work := (apply (O := unit) (fun _ => tt) (fun _ u => (u, [], true)) (fun l => [l]) 320 0 true).
Abbreviation work_step := (step (O := unit) (fun _ => tt) (fun _ u => (u, [], true)) (fun l => [l]) 320 0 true).
Abbreviation buffers_held := (held_buffers (O := unit) (fun _ u => (u, [], true)) (fun l => [l]) 320 0).
Abbreviation processes_held := (held_processes (O := unit) (fun _ u => (u, [], true)) (fun l => [l]) 320 0).
Definition s1 := (at_work (Accept Accepted a_process) (true, sys_init)).1.
Definition s2 := (at_work (Accept Accepted a_refcount) s1).1.
Definition s3 := (at_work (Read 1 (Some (le_bytes 4 77))) s2).1.

Lemma example_steps : nsteps work_step 3 (true, sys_init) s3.
Proof.
  apply (nsteps_l _ _ _ s1); [|apply (nsteps_l _ _ _ s2); [|apply nsteps_once]].
  - exists (Accept Accepted a_process), (Ret tt). split_and!; [done|by vm_compute|done].
  - exists (Accept Accepted a_refcount), (Ret tt). split_and!; [done|by vm_compute|done].
  - exists (Read 1 (Some (le_bytes 4 77))), (Ret tt). split_and!; [|by vm_compute|done].
    eexists. split; [by vm_compute|done].
Qed.

Lemma pipe_resources_witness :
  omap opened (log (pipe_net s3.2)) ≡ₚ omap closed (log (pipe_net s3.2)) ++ buffers_held s3.2 /\
  buffers_held s3.2 = [77] /\ processes_held s3.2 = [1].
Proof.
  split; [|split; vm_compute; reflexivity].
  apply (pipe_resources (O := unit) (fun _ => tt) (fun _ u => (u, [], true)) (fun l => [l]) 320 0 true 3 s3).
  - apply example_steps.
  - lia.
Defined.

Lemma pipe_accepts_witness :
  (at_work (Accept Accepted a_process) s3).2 = Ret tt /\
  (at_work (Accept Accepted (take 20 a_process)) s3).2 = Throw RuntimeError /\
  (at_work (Accept Accepted (take 20 a_process)) s3).1.1 = false.
Proof.
  destruct (pipe_accepts (O := unit) (fun _ => tt) (fun _ u => (u, [], true)) (fun l => [l]) 320 0 true 3 s3
              a_process) as [H _]; [apply example_steps|lia|].
  destruct (pipe_accepts (O := unit) (fun _ => tt) (fun _ u => (u, [], true)) (fun l => [l]) 320 0 true 3 s3
              (take 20 a_process)) as [_ H']; [apply example_steps|lia|].
  destruct H as [-> _]; [reflexivity|]. destruct H' as (s' & -> & _ & Hr); [reflexivity|].
  split; [done|]. split; [done|]. apply Hr. apply rtc_refl.
Defined.
End example.
