(* ===== verification/Adb.v ===== *)
(** The adb proxy behind the guest's /dev/qemu_pipe
    (qemu/adb_message_processor.cpp): the handshake with the guest's adbd, the
    connection from the host's adb, and the lock that lets one processor at a
    time own the host's port, one handler at a time; AdbPool.v has the threads. *)

From S2P Require Import Prelude.

Local Open Scope Z_scope.

Definition default_host_listen_port : Z := 5559.
Definition accept_command : bytes := str "accept".
Definition ok_command : bytes := str "ok".
Definition start_command : bytes := str "start".

Inductive adb_state :=
  | waiting_for_guest_accept_command
  | waiting_for_host_connection
  | waiting_for_guest_start_command
  | proxying_data
  | closed_by_container
  | closed_by_host.
#[global] Instance adb_state_eq_dec : EqDecision adb_state.
Proof. solve_decision. Defined.

(** A processor.  [host_connector_] and [host_messenger_] are whether the
    pointers are set, [reading_host] whether a read of the host's connection is
    pending, [lock_] whether its lock is held, and [blocked] whether a handler
    of it waits inside [lock_.lock()]. *)
Record adb := Adb {
  state_ : adb_state;
  expected_command_ : bytes;
  adb_buffer_ : bytes;
  host_connector_ : bool;
  host_messenger_ : bool;
  reading_host : bool;
  lock_ : bool;
  blocked : bool
}.
Definition adb_init : adb :=
  Adb waiting_for_guest_accept_command accept_command [] false false false false false.

(** What leaves the processors. *)
Inductive adb_event :=
  | ToGuest (id : Z) (data : bytes)     (* messenger_->send *)
  | ToHost (id : Z) (data : bytes)      (* host_messenger_->send *)
  | ToServer (data : bytes)             (* the handshake with the host's adb server *)
  | CloseGuest (id : Z).                (* messenger_->close *)

(** All processors, the owner of [active_instance_], and what was sent. *)
Record hub := Hub {
  procs : gmap Z adb;
  active_instance_ : option Z;
  wire : list adb_event
}.
Definition hub_init : hub := Hub ∅ None [].

Definition send (e : adb_event) : M hub unit :=
  modify (fun s => Hub (procs s) (active_instance_ s) (wire s ++ [e])).
(** A member function of processor [id]: a processor that is gone is a
    dangling pointer. *)
Definition this (id : Z) : M hub adb := fun s =>
  (s, match procs s !! id with Some a => Ret a | None => Undef end).
Definition update (id : Z) (f : adb -> adb) : M hub unit :=
  modify (fun s => Hub (alter f id (procs s)) (active_instance_ s) (wire s)).

Definition set_state (st : adb_state) (a : adb) : adb :=
  Adb st (expected_command_ a) (adb_buffer_ a) (host_connector_ a) (host_messenger_ a)
    (reading_host a) (lock_ a) (blocked a).
Definition set_expected (e : bytes) (a : adb) : adb :=
  Adb (state_ a) e (adb_buffer_ a) (host_connector_ a) (host_messenger_ a) (reading_host a)
    (lock_ a) (blocked a).
Definition set_buffer (b : bytes) (a : adb) : adb :=
  Adb (state_ a) (expected_command_ a) b (host_connector_ a) (host_messenger_ a) (reading_host a)
    (lock_ a) (blocked a).
Definition set_connector (b : bool) (a : adb) : adb :=
  Adb (state_ a) (expected_command_ a) (adb_buffer_ a) b (host_messenger_ a) (reading_host a)
    (lock_ a) (blocked a).
Definition set_messenger (a : adb) : adb :=
  Adb (state_ a) (expected_command_ a) (adb_buffer_ a) (host_connector_ a) true (reading_host a)
    (lock_ a) (blocked a).
Definition set_reading (b : bool) (a : adb) : adb :=
  Adb (state_ a) (expected_command_ a) (adb_buffer_ a) (host_connector_ a) (host_messenger_ a) b
    (lock_ a) (blocked a).
Definition set_lock (locked waiting : bool) (a : adb) : adb :=
  Adb (state_ a) (expected_command_ a) (adb_buffer_ a) (host_connector_ a) (host_messenger_ a)
    (reading_host a) locked waiting.

(** What the operating system answers: whether the port can be bound, and
    whether the host's adb server takes the handshake. *)
Record host_env := HostEnv { bind_ok : bool; server_up : bool }.

(** [utils::string_format("%04x%s", message.size(), message)] *)
Definition handshake : bytes :=
  let message := str "host:emulator:" ++ print_d default_host_listen_port in
  zero_pad 4 (print_u 16 (Z.of_nat (length message))) ++ message.

Definition wait_for_host_connection (env : host_env) (id : Z) : M hub unit :=
  a ← this id;
  if decide (state_ a = waiting_for_guest_accept_command) then
    (if host_connector_ a then mret tt
     else if bind_ok env then update id (set_connector true)
     else throw SystemError) ≫= fun _ =>
    if server_up env then send (ToServer handshake) else mret tt
  else mret tt.

(** [read_next_host_message] uses [host_messenger_]. *)
Definition read_next_host_message (id : Z) : M hub unit :=
  a ← this id;
  if host_messenger_ a then update id (set_reading true) else lift Undef.

(** What follows [lock_.lock()] in [advance_state]. *)
Definition locked_advance (env : host_env) (id : Z) : M hub unit :=
  a ← this id;
  if decide (state_ a = closed_by_host) then update id (set_connector false)
  else wait_for_host_connection env id.

(** [lock_.lock()]: takes the free lock, or blocks. *)
Definition lock (id : Z) : M hub bool := fun s =>
  match active_instance_ s with
  | None => (Hub (alter (set_lock true false) id (procs s)) (Some id) (wire s), Ret true)
  | Some _ => (Hub (alter (set_lock false true) id (procs s)) (active_instance_ s) (wire s), Ret false)
  end.

Definition advance_state (env : host_env) (id : Z) : M hub unit :=
  a ← this id;
  match state_ a with
  | waiting_for_guest_accept_command =>
      got ← lock id; if (got : bool) then locked_advance env id else mret tt
  | waiting_for_host_connection =>
      send (ToGuest id ok_command) ≫= fun _ =>
      update id (set_state waiting_for_guest_start_command) ≫= fun _ =>
      update id (set_expected start_command)
  | waiting_for_guest_start_command =>
      update id (set_state proxying_data) ≫= fun _ => read_next_host_message id
  | proxying_data => mret tt
  | closed_by_host => send (CloseGuest id)
  | closed_by_container => mret tt
  end.

(** [memcmp(buffer, expected, n) != 0]: the string has [length expected] bytes
    and a NUL behind them, and reading further is undefined. *)
Definition memcmp_differs (buffer expected : bytes) (n : nat) : outcome bool :=
  if (length expected + 1 <? n)%nat || (length buffer <? n)%nat then Undef
  else Ret (negb (bytes_eqb (take n buffer) (take n (expected ++ [x00])))).

Definition process_data (env : host_env) (id : Z) (data : bytes) : M hub bool :=
  a ← this id;
  if decide (state_ a = proxying_data) then
    (if host_messenger_ a then send (ToHost id data) ≫= fun _ => mret true else lift Undef)
  else
    let buffer := adb_buffer_ a ++ data in
    update id (set_buffer buffer) ≫= fun _ =>
    if (0 <? length (expected_command_ a))%nat && (length (expected_command_ a) <=? length buffer)%nat
    then
      differs ← lift (memcmp_differs buffer (expected_command_ a) (length data));
      if (differs : bool) then mret false
      else
        update id (set_buffer (drop (length (expected_command_ a)) buffer)) ≫= fun _ =>
        update id (set_expected []) ≫= fun _ =>
        advance_state env id ≫= fun _ => mret true
    else mret true.

Definition on_host_connection (id : Z) : M hub unit :=
  update id set_messenger ≫= fun _ =>
  send (ToGuest id ok_command) ≫= fun _ =>
  update id (set_state waiting_for_guest_start_command) ≫= fun _ =>
  update id (set_expected start_command).

(** [None] is an error other than a cancelled operation. *)
Definition on_host_read_size (id : Z) (result : option bytes) : M hub unit :=
  update id (set_reading false) ≫= fun _ =>
  match result with
  | None => update id (set_state closed_by_host) ≫= fun _ => send (CloseGuest id)
  | Some data => send (ToGuest id data) ≫= fun _ => read_next_host_message id
  end.

(** The destructor: the members' destructors release the lock. *)
Definition destroy (id : Z) : M hub unit := fun s =>
  (Hub (delete id (procs s))
     (match procs s !! id with
      | Some a => if lock_ a then None else active_instance_ s
      | None => active_instance_ s
      end) (wire s), Ret tt).

(** * The system *)

(** A processor is made for a new pipe connection; the guest writes (its
    connection is removed when the processor rejects the data); a blocked
    handler gets the lock; the host connects to the open port; the host's
    connection delivers; the guest's connection goes away.  Here each handler
    runs alone, on a processor that is there ([adb_enabled]). *)
Inductive adb_op :=
  | Create (id : Z)
  | Guest (id : Z) (env : host_env) (data : bytes)
  | Unblocked (id : Z) (env : host_env)
  | HostConnects (id : Z)
  | HostRead (id : Z) (result : option bytes)
  | GuestGone (id : Z).

Definition adb_enabled (o : adb_op) (s : hub) : Prop :=
  match o with
  | Create id => procs s !! id = None
  | Guest id _ _ | GuestGone id => exists a, procs s !! id = Some a /\ blocked a = false
  | Unblocked id _ => active_instance_ s = None /\ exists a, procs s !! id = Some a /\ blocked a = true
  | HostConnects id => exists a, procs s !! id = Some a /\ host_connector_ a = true
  | HostRead id _ => exists a, procs s !! id = Some a /\ host_messenger_ a = true
  end.
Definition adb_apply (o : adb_op) : M hub unit :=
  match o with
  | Create id => modify (fun s => Hub (<[id := adb_init]> (procs s)) (active_instance_ s) (wire s))
  | Guest id env data =>
      ok ← process_data env id data; if (ok : bool) then mret tt else destroy id
  | Unblocked id env => lock id ≫= fun _ => locked_advance env id
  | HostConnects id => on_host_connection id
  | HostRead id result => on_host_read_size id result
  | GuestGone id => destroy id
  end.

(** * Lemmas: running a handler of one processor *)

(** [s] with processor [id] replaced, another owner of the lock and more sent. *)
Definition with_proc (s : hub) (id : Z) (a : adb) (owner : option Z) (sent : list adb_event) : hub :=
  Hub (<[id := a]> (procs s)) owner (wire s ++ sent).

Lemma with_proc_id s id a : procs s !! id = Some a -> s = with_proc s id a (active_instance_ s) [].
Proof. intros Ha. unfold with_proc. rewrite insert_id, app_nil_r by done. by destruct s. Qed.

Lemma this_at s id a w l : this id (with_proc s id a w l) = (with_proc s id a w l, Ret a).
Proof. unfold this, with_proc. cbn. by rewrite lookup_insert_eq. Qed.
Lemma update_at s id a w l f : update id f (with_proc s id a w l) = (with_proc s id (f a) w l, Ret tt).
Proof.
  unfold update, modify, with_proc. cbn. repeat f_equal. apply map_eq. intros i.
  destruct (decide (i = id)) as [->|Hne].
  - by rewrite lookup_alter_eq, !lookup_insert_eq.
  - by rewrite lookup_alter_ne, !lookup_insert_ne.
Qed.
Lemma send_at s id a w l e : send e (with_proc s id a w l) = (with_proc s id a w (l ++ [e]), Ret tt).
Proof. unfold send, modify, with_proc. cbn. by rewrite app_assoc. Qed.
Lemma lock_free s id a l : lock id (with_proc s id a None l) =
  (with_proc s id (set_lock true false a) (Some id) l, Ret true).
Proof.
  unfold lock, with_proc. cbn. repeat f_equal. apply map_eq. intros i.
  destruct (decide (i = id)) as [->|Hne].
  - by rewrite lookup_alter_eq, !lookup_insert_eq.
  - by rewrite lookup_alter_ne, !lookup_insert_ne.
Qed.
Lemma lock_taken s id a w l : lock id (with_proc s id a (Some w) l) =
  (with_proc s id (set_lock false true a) (Some w) l, Ret false).
Proof.
  unfold lock, with_proc. cbn. repeat f_equal. apply map_eq. intros i.
  destruct (decide (i = id)) as [->|Hne].
  - by rewrite lookup_alter_eq, !lookup_insert_eq.
  - by rewrite lookup_alter_ne, !lookup_insert_ne.
Qed.

Lemma bind_at {A B} (c : M hub A) (f : A -> M hub B) s s' a : c s = (s', Ret a) -> (c ≫= f) s = f a s'.
Proof. apply M_bind_ret. Qed.

Ltac run :=
  repeat first
    [ erewrite bind_at by apply this_at
    | erewrite bind_at by apply update_at
    | erewrite bind_at by apply send_at
    | rewrite this_at | rewrite update_at | rewrite send_at ].

Lemma wait_at env id s a w l : wait_for_host_connection env id (with_proc s id a w l) =
  if decide (state_ a = waiting_for_guest_accept_command) then
    if host_connector_ a || bind_ok env then
      (with_proc s id (set_connector true a) w (l ++ (if server_up env then [ToServer handshake] else [])), Ret tt)
    else (with_proc s id a w l, Throw SystemError)
  else (with_proc s id a w l, Ret tt).
Proof.
  unfold wait_for_host_connection. run. destruct (decide _); [|done].
  destruct (host_connector_ a) eqn:Hc; cbn [orb].
  - assert (set_connector true a = a) as -> by (destruct a; simpl in *; by subst).
    rewrite (bind_at _ _ _ (with_proc s id a w l) tt) by done.
    destruct (server_up env); [by run|by rewrite app_nil_r].
  - destruct (bind_ok env); [|done]. erewrite bind_at by apply update_at.
    destruct (server_up env); [by run|by rewrite app_nil_r].
Qed.

Lemma locked_advance_at env id s a w l : locked_advance env id (with_proc s id a w l) =
  if decide (state_ a = closed_by_host) then (with_proc s id (set_connector false a) w l, Ret tt)
  else wait_for_host_connection env id (with_proc s id a w l).
Proof. unfold locked_advance. run. destruct (decide _); [by run|done]. Qed.

Lemma read_next_at id s a w l : read_next_host_message id (with_proc s id a w l) =
  if host_messenger_ a then (with_proc s id (set_reading true a) w l, Ret tt)
  else (with_proc s id a w l, Undef).
Proof. unfold read_next_host_message. run. destruct (host_messenger_ a); [by run|done]. Qed.

(** * Lemmas: the invariant *)

(** What holds of a processor whose lock is [held]. *)
Definition sound (held : bool) (a : adb) : Prop :=
  lock_ a = held /\
  (state_ a <> waiting_for_guest_accept_command -> held = true) /\
  (host_connector_ a = true -> held = true) /\
  (blocked a = true -> held = false) /\
  (state_ a <> waiting_for_guest_accept_command -> state_ a <> closed_by_host -> host_messenger_ a = true) /\
  (reading_host a = true -> host_messenger_ a = true) /\
  (host_messenger_ a = true -> held = true) /\
  (expected_command_ a <> [] -> state_ a = waiting_for_guest_accept_command ->
     held = false /\ blocked a = false).

Definition owns (s : hub) (id : Z) : bool := bool_decide (active_instance_ s = Some id).
Definition exclusive (s : hub) : Prop :=
  (forall id a, procs s !! id = Some a -> sound (owns s id) a) /\
  (forall id, active_instance_ s = Some id -> is_Some (procs s !! id)).

Lemma exclusive_init : exclusive hub_init.
Proof. split; [intros id a Ha; cbn in Ha; by rewrite lookup_empty in Ha|done]. Qed.

Lemma sound_init : sound false adb_init.
Proof. repeat split; simpl; done. Qed.

(** A handler that keeps the owner. *)
Lemma exclusive_at s id a a' l :
  exclusive s -> procs s !! id = Some a -> sound (owns s id) a' ->
  exclusive (with_proc s id a' (active_instance_ s) l).
Proof.
  intros [Hs Ha] Hid Hso. split.
  - intros i b Hb. unfold with_proc in Hb. cbn in Hb. apply lookup_insert_Some in Hb as [[<- <-]|[_ Hb]]; [done|].
    by apply Hs.
  - intros i Hi. cbn in *. apply Ha in Hi. destruct (decide (i = id)) as [->|].
    + rewrite lookup_insert_eq. by eexists.
    + by rewrite lookup_insert_ne.
Qed.
(** A handler that takes the free lock. *)
Lemma exclusive_lock s id a a' l :
  exclusive s -> procs s !! id = Some a -> active_instance_ s = None -> sound true a' ->
  exclusive (with_proc s id a' (Some id) l).
Proof.
  intros [Hs Ha] Hid Hnone Hso. split.
  - intros i b Hb. cbn in Hb. unfold owns. cbn. apply lookup_insert_Some in Hb as [[<- <-]|[Hne Hb]].
    + by rewrite bool_decide_true.
    + rewrite bool_decide_false by congruence. specialize (Hs i b Hb). unfold owns in Hs.
      rewrite Hnone in Hs. by rewrite bool_decide_false in Hs.
  - intros i Hi. cbn in *. simplify_eq. rewrite lookup_insert_eq. by eexists.
Qed.

Lemma exclusive_destroy s id : exclusive s -> exclusive (destroy id s).1.
Proof.
  intros [Hs Ha]. unfold destroy. cbn [fst]. destruct (procs s !! id) as [a|] eqn:Hid.
  - pose proof (Hs id a Hid) as (Hl & _). unfold owns in Hl.
    split; cbn; intros i.
    + intros b Hb. apply lookup_delete_Some in Hb as [Hne Hb]. specialize (Hs i b Hb).
      unfold owns in *. cbn. destruct (lock_ a); [|done].
      symmetry in Hl. apply bool_decide_eq_true in Hl. rewrite Hl in Hs.
      rewrite bool_decide_false in * by congruence. done.
    + destruct (lock_ a) eqn:E; [done|]. intros Hi. symmetry in Hl. apply bool_decide_eq_false in Hl.
      rewrite lookup_delete_ne by congruence. by apply Ha.
  - split; cbn; intros i.
    + intros b Hb. apply lookup_delete_Some in Hb as [Hne Hb]. by apply Hs.
    + intros Hi. destruct (Ha i Hi) as [b Hb]. rewrite lookup_delete_ne by congruence. by exists b.
Qed.

Ltac sound :=
  match goal with H : sound _ _ |- _ => destruct H as (? & ? & ? & ? & ? & ? & ? & ?) end;
  unfold sound, set_state, set_expected, set_buffer, set_connector, set_messenger, set_reading, set_lock in *;
  cbn [state_ expected_command_ adb_buffer_ host_connector_ host_messenger_ reading_host lock_ blocked] in *;
  split_and!; intros; try split;
  repeat match goal with
    | H : ?P -> ?Q |- _ =>
        match type of P with Prop => specialize (H ltac:(solve [assumption | congruence])) end
    | H : _ /\ _ |- _ => destruct H
    end; congruence.

(** The processor an operation belongs to. *)
Definition op_id (o : adb_op) : Z :=
  match o with
  | Create id | Guest id _ _ | Unblocked id _ | HostConnects id | HostRead id _ | GuestGone id => id
  end.
Definition from_guest (o : adb_op) : bool :=
  match o with Guest _ _ _ | GuestGone _ => true | _ => false end.

(** What an operation does to its processor: neither the host's port nor its
    connection are given up before the processor is gone, it goes by the
    guest only, and a handler that waits has not failed. *)
Definition evolves (o : adb_op) (r : outcome unit) (a a' : option adb) : Prop :=
  match a, a' with
  | Some a, Some a' =>
      (host_connector_ a = true -> host_connector_ a' = true) /\
      (host_messenger_ a = true -> host_messenger_ a' = true) /\
      (blocked a' = true -> r <> Undef -> match o with
        | Guest _ _ _ => r = Ret tt
        | Unblocked _ _ => False
        | _ => blocked a = true
        end)
  | Some _, None => from_guest o = true
  | None, Some a' => o = Create (op_id o) /\ a' = adb_init
  | None, None => True
  end.

(** What an enabled operation leaves: the invariant, the other processors as
    they were, and undefined behaviour only where the guest's data is compared
    past the expected command. *)
Definition ends (r : outcome unit) : Prop := match r with Ret _ | Throw _ => True | _ => False end.
Definition overlong (o : adb_op) (s : hub) : Prop :=
  exists id env data a, o = Guest id env data /\ procs s !! id = Some a /\
    state_ a <> proxying_data /\ (length (expected_command_ a) + 1 < length data)%nat.
Definition safe_result (o : adb_op) (s : hub) (res : hub * outcome unit) : Prop :=
  exclusive res.1 /\
  (forall i, i <> op_id o -> procs res.1 !! i = procs s !! i) /\
  evolves o res.2 (procs s !! op_id o) (procs res.1 !! op_id o) /\
  (is_Some (active_instance_ s) -> active_instance_ res.1 = None ->
     active_instance_ s = Some (op_id o) /\ procs res.1 !! op_id o = None) /\
  (ends res.2 \/ res.2 = Undef /\ overlong o s).

Lemma with_proc_lookup s id a w l : procs (with_proc s id a w l) !! id = Some a.
Proof. cbn. apply lookup_insert_eq. Qed.
Lemma with_proc_other s id a w l i : i <> id -> procs (with_proc s id a w l) !! i = procs s !! i.
Proof. intros. cbn. by apply lookup_insert_ne. Qed.

Lemma safe_at o s a a' l r : exclusive s -> procs s !! op_id o = Some a -> sound (owns s (op_id o)) a' ->
  evolves o r (Some a) (Some a') -> ends r ->
  safe_result o s (with_proc s (op_id o) a' (active_instance_ s) l, r).
Proof.
  intros Hex Hid Hso He Hr. split; [by apply (exclusive_at _ _ a)|]. cbn [fst snd].
  split; [intros i Hi; by apply with_proc_other|]. rewrite with_proc_lookup, Hid.
  split; [done|]. split; [|by left]. intros [w Hw] Hn. cbn in Hn. congruence.
Qed.
Lemma safe_lock o s a a' l r : exclusive s -> procs s !! op_id o = Some a -> active_instance_ s = None ->
  sound true a' -> evolves o r (Some a) (Some a') -> ends r ->
  safe_result o s (with_proc s (op_id o) a' (Some (op_id o)) l, r).
Proof.
  intros Hex Hid Hn Hso He Hr. split; [by apply (exclusive_lock _ _ a)|]. cbn [fst snd].
  split; [intros i Hi; by apply with_proc_other|]. rewrite with_proc_lookup, Hid.
  split; [done|]. split; [done|by left].
Qed.

Lemma advance_safe env id data s a l : exclusive s -> procs s !! id = Some a ->
  sound (owns s id) a -> state_ a <> proxying_data ->
  forall b, (exists e, b = set_expected [] (set_buffer e a)) ->
  (state_ a = waiting_for_guest_accept_command -> owns s id = false /\ blocked a = false) ->
  safe_result (Guest id env data) s (advance_state env id (with_proc s id b (active_instance_ s) l)).
Proof.
  intros Hex Hid Hso Hst b [e ->] Hfree. unfold advance_state. run.
  change (state_ (set_expected [] (set_buffer e a))) with (state_ a).
  destruct (state_ a) eqn:Est; try done.
  - destruct (active_instance_ s) as [w|] eqn:Ew.
    + erewrite bind_at by apply lock_taken. rewrite <- Ew.
      apply (safe_at (Guest id env data) _ a); [done|done| |done|done]. destruct (Hfree eq_refl). cbn [op_id]. sound.
    + erewrite bind_at by apply lock_free. cbv beta iota. rewrite locked_advance_at, decide_False, wait_at.
      2: { cbn. by rewrite Est. }
      rewrite decide_True by (cbn; by rewrite Est).
      destruct (_ || _); apply (safe_lock (Guest id env data) _ a); try done;
        destruct (Hfree eq_refl); sound.
  - run. apply (safe_at (Guest id env data) _ a); [done|done| |done|done]. cbn [op_id]. sound.
  - run. rewrite read_next_at. assert (host_messenger_ a = true) as Hm.
    { destruct Hso as (_ & _ & _ & _ & Hm & _). apply Hm; by rewrite Est. }
    cbn [host_messenger_ set_state set_expected set_buffer]. rewrite Hm.
    apply (safe_at (Guest id env data) _ a); [done|done| |done|done]. cbn [op_id]. sound.
  - run. apply (safe_at (Guest id env data) _ a); [done|done| |done|done]. cbn [op_id]. sound.
  - run. apply (safe_at (Guest id env data) _ a); [done|done| |done|done]. cbn [op_id]. sound.
Qed.

Lemma safe_destroy o s : exclusive s -> from_guest o = true -> safe_result o s (destroy (op_id o) s).
Proof.
  intros Hex Ho. split; [by apply exclusive_destroy|]. unfold destroy. cbn [fst snd procs].
  split; [intros i Hi; by rewrite lookup_delete_ne|]. rewrite lookup_delete_eq.
  split; [by destruct (procs s !! _)|]. split; [|by left]. cbn [active_instance_].
  destruct (procs s !! op_id o) as [a|] eqn:Ha; [|intros [w ->]; done].
  destruct (proj1 Hex _ _ Ha) as (Hl & _). destruct (lock_ a); [|intros [w ->]; done].
  symmetry in Hl. unfold owns in Hl. by apply bool_decide_eq_true in Hl.
Qed.

Lemma guest_safe id env data s : exclusive s -> adb_enabled (Guest id env data) s ->
  safe_result (Guest id env data) s (adb_apply (Guest id env data) s).
Proof.
  intros Hex (a & Hid & Hbl). pose proof (proj1 Hex id a Hid) as Hso. unfold adb_apply, process_data.
  rewrite (with_proc_id s id a Hid) at 2.
  assert (this id (with_proc s id a (active_instance_ s) []) =
          (with_proc s id a (active_instance_ s) [], Ret a)) as Hthis by apply this_at.
  unfold mbind at 1, M_bind at 1. unfold mbind at 1, M_bind at 1. rewrite Hthis.
  destruct (decide (state_ a = proxying_data)) as [Hst|Hst].
  - assert (host_messenger_ a = true) as ->.
    { destruct Hso as (_ & _ & _ & _ & Hm & _). apply Hm; by rewrite Hst. }
    run. cbn. by apply (safe_at (Guest id env data) _ a).
  - run. set (buffer := adb_buffer_ a ++ data).
    assert (exclusive (with_proc s id (set_buffer buffer a) (active_instance_ s) [])) as H1.
    { apply (exclusive_at _ _ a); [done|done|]. sound. }
    destruct (_ && _) eqn:Econd.
    2: { apply (safe_at (Guest id env data) _ a); [done|done| |done|done]. cbn [op_id]. sound. }
    apply andb_prop in Econd as [Hne _]. apply Nat.ltb_lt in Hne.
    unfold lift, mbind at 1, M_bind at 1. unfold memcmp_differs.
    destruct (_ || _) eqn:Elong.
    { split; [exact H1|]. cbn [fst snd op_id]. split; [intros i Hi; by apply with_proc_other|].
      rewrite with_proc_lookup, Hid. split; [done|]. split; [intros [w Hw] Hn; cbn in Hn; congruence|].
      right. split; [done|]. exists id, env, data, a. split_and!; [done..|].
      apply orb_prop in Elong as [E|E]; bdestruct_all; [done|]. exfalso. subst buffer. revert E. len. lia. }
    destruct (negb _).
    { destruct (safe_destroy (Guest id env data) _ H1 eq_refl) as (Ha & Hb & Hc & Hd & _). cbn [op_id] in *.
      rewrite with_proc_lookup in Hc. split; [done|]. split; [|split; [|split; [exact Hd|by left]]].
      - intros i Hi. cbn [op_id] in *. rewrite Hb by done. by apply with_proc_other.
      - cbn [op_id]. rewrite Hid. cbn in Hc |- *. by rewrite lookup_delete_eq. }
    cbv iota. run. pose proof (advance_safe env id data s a [] Hex Hid Hso Hst
      (set_expected [] (set_buffer (drop (length (expected_command_ a)) buffer) (set_buffer buffer a)))) as H2.
    destruct H2 as (Ha & Hb & Hc & Hd & He).
    { by eexists. }
    { intros Hw. destruct Hso as (_ & _ & _ & _ & _ & _ & _ & He). apply He; [|done].
      destruct (expected_command_ a); [simpl in Hne; lia|done]. }
    unfold mbind, M_bind. destruct (advance_state _ _ _) as [s2 [[]| | |]]; by split_and!.
Qed.

Lemma apply_safe o s : exclusive s -> adb_enabled o s -> safe_result o s (adb_apply o s).
Proof.
  intros Hex He. destruct o as [id|id env data|id env|id|id result|id].
  - simpl in He. split.
    2: { split; [intros i Hi; by apply lookup_insert_ne|]. cbn. rewrite He, lookup_insert_eq. split_and!; [done..| |by left]. by intros [w ->]. }
    destruct Hex as [Hs Ha]. split; cbn.
    + intros i b Hb. apply lookup_insert_Some in Hb as [[<- <-]|[_ Hb]]; [|by apply Hs].
      assert (owns _ id = false) as ->; [|apply sound_init]. apply bool_decide_eq_false. intros Ho.
      cbn in Ho. destruct (Ha id Ho) as [c Hc]. congruence.
    + intros i Hi. destruct (Ha i Hi) as [c Hc]. rewrite lookup_insert_ne by congruence. by exists c.
  - by apply guest_safe.
  - destruct He as (Hn & a & Hid & Hb). pose proof (proj1 Hex id a Hid) as Hso.
    unfold adb_apply. rewrite (with_proc_id s id a Hid) at 2. rewrite Hn.
    erewrite bind_at by apply lock_free. cbv beta. rewrite locked_advance_at, wait_at.
    assert (owns s id = false) as Hf. { unfold owns. rewrite Hn. done. }
    rewrite Hf in Hso.
    assert (state_ a = waiting_for_guest_accept_command) as Hst.
    { destruct Hso as (_ & Hst & _). destruct (decide (state_ a = waiting_for_guest_accept_command)); [done|].
      by specialize (Hst ltac:(done)). }
    rewrite decide_False, decide_True by (cbn; by rewrite Hst).
    assert (expected_command_ a = []) as Hexp.
    { destruct Hso as (_ & _ & _ & _ & _ & _ & _ & He). destruct (expected_command_ a); [done|].
      destruct (He ltac:(done) Hst). congruence. }
    destruct (_ || _); apply (safe_lock (Unblocked id env) _ a); try done; sound.
  - destruct He as (a & Hid & Hc). pose proof (proj1 Hex id a Hid) as Hso.
    unfold adb_apply, on_host_connection. rewrite (with_proc_id s id a Hid) at 2. run.
    apply (safe_at (HostConnects id) _ a); [done|done| |done|done]. cbn [op_id]. sound.
  - destruct He as (a & Hid & Hm). pose proof (proj1 Hex id a Hid) as Hso.
    unfold adb_apply, on_host_read_size. rewrite (with_proc_id s id a Hid) at 2. run.
    destruct result as [data|]; run.
    + rewrite read_next_at. cbn [host_messenger_ set_reading]. rewrite Hm.
      apply (safe_at (HostRead id (Some data)) _ a); [done|done| |done|done]. cbn [op_id]. sound.
    + apply (safe_at (HostRead id None) _ a); [done|done| |done|done]. cbn [op_id]. sound.
  - by apply (safe_destroy (GuestGone id)).
Qed.

(** * A session *)

Definition adb_run (ops : list adb_op) : M hub unit := for_each adb_apply ops.

(** Data of the guest ([true]) and of the host, as it passes the proxy. *)
Definition traffic_op (id : Z) (env : host_env) (d : bool * bytes) : adb_op :=
  if d.1 then Guest id env d.2 else HostRead id (Some d.2).
Definition forwarded (id : Z) (d : bool * bytes) : adb_event :=
  if d.1 then ToHost id d.2 else ToGuest id d.2.
(** A processor that proxies. *)
Definition proxying : adb := Adb proxying_data [] [] true true true true false.

Lemma traffic_at id env s l ds : adb_run (traffic_op id env <$> ds) (with_proc s id proxying (Some id) l) =
  (with_proc s id proxying (Some id) (l ++ (forwarded id <$> ds)), Ret tt).
Proof.
  revert l; induction ds as [|[[] d] ds IH]; intros l; [by rewrite app_nil_r| |].
  - rewrite !fmap_cons. unfold adb_run. cbn [for_each]. fold (adb_run (traffic_op id env <$> ds)).
    rewrite (bind_at _ _ _ (with_proc s id proxying (Some id) (l ++ [ToHost id d])) tt).
    { by rewrite IH, <- app_assoc. }
    cbn [traffic_op fst snd adb_apply].
    rewrite (bind_at _ _ _ (with_proc s id proxying (Some id) (l ++ [ToHost id d])) true); [done|].
    unfold process_data. run. rewrite decide_True by done. cbn [host_messenger_ proxying]. by run.
  - rewrite !fmap_cons. unfold adb_run. cbn [for_each]. fold (adb_run (traffic_op id env <$> ds)).
    rewrite (bind_at _ _ _ (with_proc s id proxying (Some id) (l ++ [ToGuest id d])) tt).
    { by rewrite IH, <- app_assoc. }
    cbn [traffic_op fst snd adb_apply]. unfold on_host_read_size. run. by rewrite read_next_at.
Qed.

(** The expected command, alone in one read. *)
Lemma command_at env id s a w l s' :
  state_ a <> proxying_data -> adb_buffer_ a = [] -> expected_command_ a <> [] ->
  advance_state env id (with_proc s id (set_expected [] (set_buffer [] a)) w l) = (s', Ret tt) ->
  adb_apply (Guest id env (expected_command_ a)) (with_proc s id a w l) = (s', Ret tt).
Proof.
  intros Hst Hb Hne Ha. cbn [adb_apply]. rewrite (bind_at _ _ _ s' true); [done|]. unfold process_data. run.
  rewrite decide_False by done. run. rewrite Hb. cbn [app].
  assert ((0 <? length (expected_command_ a))%nat = true) as ->.
  { apply Nat.ltb_lt. destruct (expected_command_ a); [done|simpl; lia]. }
  rewrite Nat.leb_refl. cbn [andb].
  assert (memcmp_differs (expected_command_ a) (expected_command_ a) (length (expected_command_ a)) = Ret false) as ->.
  { unfold memcmp_differs. rewrite Nat.ltb_irrefl, (proj2 (Nat.ltb_ge _ _)) by lia. cbn [orb].
    rewrite take_app_length, take_ge by done. unfold bytes_eqb. by rewrite bool_decide_true. }
  erewrite bind_at by reflexivity. cbv beta iota. run. rewrite drop_all.
  assert (set_expected [] (set_buffer [] (set_buffer (expected_command_ a) a)) =
          set_expected [] (set_buffer [] a)) as -> by done.
  by erewrite bind_at by exact Ha.
Qed.

(** C35: a session of a fresh processor whose turn it is, when the port can be
    bound.  The guest's [accept] announces the proxy's port to the host's adb
    server (in one framed message, if it is up); the host's connection is
    reported with one [ok]; after [start], everything the guest and the host
    write, in whatever order, is passed on unchanged, in order and once, and
    nothing else is sent. *)
Theorem adb_session (s : hub) (id : Z) (env : host_env) (ds : list (bool * bytes)) :
  procs s !! id = Some adb_init -> active_instance_ s = None -> bind_ok env = true ->
  adb_run ([Guest id env accept_command; HostConnects id; Guest id env start_command]
             ++ (traffic_op id env <$> ds)) s =
    (with_proc s id proxying (Some id)
       ((if server_up env then [ToServer (str "0012host:emulator:5559")] else [])
          ++ ToGuest id (str "ok") :: (forwarded id <$> ds)), Ret tt).
Proof.
  intros Hid Hfree Hbind. unfold adb_run. cbn [for_each app].
  fold (adb_run (traffic_op id env <$> ds)).
  set (sent := if server_up env then [ToServer (str "0012host:emulator:5559")] else []).
  set (a1 := Adb waiting_for_guest_accept_command [] [] true false false true false).
  set (a2 := Adb waiting_for_guest_start_command start_command [] true true false true false).
  rewrite (bind_at _ _ s (with_proc s id a1 (Some id) sent) tt).
  2: { rewrite (with_proc_id s id _ Hid) at 1. rewrite Hfree.
       change accept_command with (expected_command_ adb_init). apply command_at; [done..|].
       unfold advance_state. erewrite bind_at by apply this_at. cbn [state_ set_expected set_buffer adb_init].
       erewrite bind_at by apply lock_free. cbv beta iota.
       rewrite locked_advance_at, wait_at, decide_False, decide_True by done. by rewrite Hbind, orb_true_r. }
  rewrite (bind_at _ _ _ (with_proc s id a2 (Some id) (sent ++ [ToGuest id ok_command])) tt).
  2: { cbn [adb_apply]. unfold on_host_connection. by run. }
  rewrite (bind_at _ _ _ (with_proc s id proxying (Some id) (sent ++ [ToGuest id ok_command])) tt).
  2: { change start_command with (expected_command_ a2). apply command_at; [done..|].
       unfold advance_state. erewrite bind_at by apply this_at. cbn [state_ set_expected set_buffer a2].
       run. by rewrite read_next_at. }
  by rewrite traffic_at, <- app_assoc.
Qed.

(** Two guests and the host: the first guest's session, with the second one
    waiting. *)
Definition two_guests : hub := (adb_run [Create 1; Create 2] hub_init).1.

Lemma adb_session_witness :
  let env := HostEnv true true in
  let ds := [(true, str "CNXN"); (false, str "AUTH"); (true, str "OKAY")] in
  adb_run ([Guest 1 env accept_command; HostConnects 1; Guest 1 env start_command]
             ++ (traffic_op 1 env <$> ds)) two_guests =
    (with_proc two_guests 1 proxying (Some 1)
       ([ToServer (str "0012host:emulator:5559")] ++ ToGuest 1 (str "ok") :: (forwarded 1 <$> ds)), Ret tt).
Proof.
  apply (adb_session two_guests 1 (HostEnv true true)
           [(true, str "CNXN"); (false, str "AUTH"); (true, str "OKAY")]); vm_compute; reflexivity.
Defined.

(** A command that arrives in pieces is compared only over the length of the
    last piece: "accXYZ" passes for "accept". *)
Lemma split_command_accepted env :
  (adb_apply (Guest 1 env (str "XYZ"))
     (adb_apply (Guest 1 env (str "acc")) (adb_apply (Create 1) hub_init).1).1).1.(active_instance_) = Some 1.
Proof. destruct env as [[] []]; vm_compute; reflexivity. Qed.

(** A second host connection while data is proxied puts the proxy back into
    the handshake, with an [ok] in the middle of the guest's data. *)
Lemma second_host_resets :
  let s := (adb_apply (HostConnects 1) (with_proc two_guests 1 proxying (Some 1) [])).1 in
  wire s = [ToGuest 1 (str "ok")] /\ (state_ <$> procs s !! 1) = Some waiting_for_guest_start_command.
Proof. vm_compute. split; reflexivity. Qed.

(** When the port cannot be bound, the exception leaves the lock with a
    processor whose connection is not read any more. *)
Lemma bind_failure_keeps_lock :
  let r := adb_apply (Guest 1 (HostEnv false true) accept_command) two_guests in
  r.2 = Throw SystemError /\ active_instance_ r.1 = Some 1.
Proof. vm_compute. split; reflexivity. Qed.
