(* ===== verification/AdbPool.v ===== *)
(** The threads under the adb proxy: the handlers of Adb.v as the pool of
    threads of the runtime (runtime.h, runtime.cpp) runs them, several at a
    time and without a strand, on processors that may be gone, and with a lock
    that one thread takes and another gives back. *)

From S2P Require Import Prelude Adb.

Local Open Scope Z_scope.

(** * What a handler touches *)

(** The members of a processor that handlers share; [Lifetime] is the object. *)
Inductive member := State | Expected | Buffer | Connector | Messenger | HostBuffer | Lock | Lifetime.
#[global] Instance member_eq_dec : EqDecision member.
Proof. solve_decision. Defined.
Inductive access := Reads (m : member) | Writes (m : member).
Definition accessed (x : access) : member := match x with Reads m | Writes m => m end.
Definition is_write (x : access) : bool := match x with Writes _ => true | Reads _ => false end.

(** Two accesses of the same member that are not ordered, one a write. *)
Definition race (x y : access) : bool :=
  bool_decide (accessed x = accessed y) && (is_write x || is_write y).
Definition races (l l' : list access) : bool := existsb (fun x => existsb (race x) l') l.

Definition advance_accesses (st : adb_state) : list access :=
  match st with
  | waiting_for_guest_accept_command => [Writes Lock; Reads State; Writes Connector]
  | waiting_for_host_connection => [Writes State; Writes Expected]
  | waiting_for_guest_start_command => [Writes State; Reads Messenger; Reads HostBuffer]
  | proxying_data | closed_by_container | closed_by_host => []
  end.
Definition destroy_accesses : list access := [Writes Lifetime; Writes State; Writes Connector].
Definition process_accesses (a : adb) (data : bytes) : list access :=
  if decide (state_ a = proxying_data) then [Reads State; Reads Messenger]
  else
    let buffer := adb_buffer_ a ++ data in
    [Reads State; Writes Buffer; Reads Expected] ++
    (if (0 <? length (expected_command_ a))%nat && (length (expected_command_ a) <=? length buffer)%nat then
       match memcmp_differs buffer (expected_command_ a) (length data) with
       | Ret false => Writes Expected :: advance_accesses (state_ a)
       | _ => destroy_accesses
       end
     else []).
Definition accesses (o : adb_op) (a : adb) : list access :=
  Reads Lifetime ::
  match o with
  | Guest _ _ data => process_accesses a data
  | Unblocked _ _ => advance_accesses waiting_for_guest_accept_command
  | HostConnects _ => [Writes Messenger; Writes State; Writes Expected]
  | HostRead _ (Some _) => [Reads HostBuffer; Reads Messenger]
  | HostRead _ None => [Writes State]
  | GuestGone _ => destroy_accesses
  | Create _ => []
  end.

(** * The pool *)

(** A handler that runs, from its start to its last access of the processor;
    [again] is whether the guest's connection is read again after it. *)
Record task := Task { thread : nat; op : adb_op; touched : list access; again : bool }.

(** The processors; the guests' connections with a read in progress; the
    processors whose host connection has a read in progress, one entry per
    read; the handlers that are ready to run, those that run, and the thread
    that locked [active_instance_]. *)
Record pool := Pool {
  the_hub : hub;
  guest_reads : list Z;
  host_reads : list Z;
  ready : list adb_op;
  running : list task;
  locker : option nat
}.
Definition pool_init : pool := Pool hub_init [] [] [] [] None.

Definition is_accept (id : Z) (o : adb_op) : bool :=
  match o with HostConnects i => i =? id | _ => false end.
Definition is_read (id : Z) (o : adb_op) : bool :=
  match o with HostRead i _ => i =? id | _ => false end.
Definition tasks_of (id : Z) (p : pool) : list task := filter (fun k => op_id (op k) = id) (running p).
Definition busy (p : pool) (t : nat) : bool := existsb (fun k => (thread k =? t)%nat) (running p).
Definition pending_ops (p : pool) : list adb_op := ready p ++ (op <$> running p).

(** The reads of the host's connection after a handler: the ones it issued,
    and without those that are cancelled because the connection they read was
    replaced or is gone. *)
Definition reads_after (o : adb_op) (s s' : hub) (l : list Z) : list Z :=
  let id := op_id o in
  let kept := filter (fun i => i <> id) l in
  match procs s' !! id with
  | None => kept
  | Some a' =>
      match o with
      | HostConnects _ => kept
      | HostRead _ (Some _) => id :: l
      | Guest _ _ _ =>
          if bool_decide (state_ a' = proxying_data) &&
             negb (bool_decide ((state_ <$> procs s !! id) = Some proxying_data))
          then id :: l else l
      | _ => l
      end
  end.

Definition succeeds (r : outcome unit) : bool := match r with Ret _ => true | _ => false end.
(** [read_next_message] of the guest's connection: the processor has taken the
    data and nothing was thrown. *)
Definition reads_again (o : adb_op) (s' : hub) (r : outcome unit) : bool :=
  match o with
  | Guest id _ _ | Unblocked id _ => bool_decide (is_Some (procs s' !! id)) && succeeds r
  | _ => false
  end.

Definition locker_after (t : nat) (s s' : hub) (l : option nat) : option nat :=
  if decide (active_instance_ s' = active_instance_ s) then l
  else if active_instance_ s' then Some t else None.

Section pool.
(** How many threads run the handlers, and whether a mutex may be unlocked by
    another thread than the one that locked it: the language leaves it
    undefined, the C library of most systems does what one hopes for. *)
Context (pool_size : nat) (unlock_anywhere : bool).

(** What happens in the pool: a guest's connection is made; an operation of
    the system is completed and its handler made ready; thread [t] starts the
    [n]-th of the ready handlers; the [n]-th of the running handlers gets the
    lock it waits for, or returns. *)
Inductive pool_event :=
  | Made (id : Z)
  | Complete (o : adb_op)
  | Start (t n : nat)
  | Resume (n : nat) (env : host_env)
  | Finish (n : nat).

Definition waits (k : task) (p : pool) : bool :=
  match op k with
  | Guest id _ _ => again k && bool_decide ((blocked <$> procs (the_hub p) !! id) = Some true)
  | _ => false
  end.

Definition pool_enabled (e : pool_event) (p : pool) : bool :=
  match e with
  | Made id =>
      bool_decide (procs (the_hub p) !! id = None) && forallb (fun o => negb (op_id o =? id)) (pending_ops p)
      && negb (bool_decide (id ∈ guest_reads p)) && negb (bool_decide (id ∈ host_reads p))
  | Complete o =>
      match o with
      | Guest id _ _ | GuestGone id => bool_decide (id ∈ guest_reads p)
      | HostConnects id =>
          bool_decide ((host_connector_ <$> procs (the_hub p) !! id) = Some true) &&
          negb (existsb (is_accept id) (pending_ops p))
      | HostRead id _ => bool_decide (id ∈ host_reads p)
      | _ => false
      end
  | Start t n => (t <? pool_size)%nat && negb (busy p t) && bool_decide (is_Some (ready p !! n))
  | Resume n _ =>
      match running p !! n with
      | Some k => waits k p && bool_decide (active_instance_ (the_hub p) = None)
      | None => false
      end
  | Finish n => match running p !! n with Some k => negb (waits k p) | None => false end
  end.

(** A handler runs on thread [t]. *)
Definition run_op (t : nat) (o : adb_op) (p : pool) : outcome (hub * bool * list Z * option nat) :=
  let s := the_hub p in
  match adb_apply o s with
  | (_, Undef) | (_, Aborted) => Undef
  | (s', r) =>
      let released := bool_decide (is_Some (active_instance_ s)) && bool_decide (active_instance_ s' = None) in
      if released && negb unlock_anywhere && negb (bool_decide (locker p = Some t)) then Undef
      else Ret (s', reads_again o s' r, reads_after o s s' (host_reads p), locker_after t s s' (locker p))
  end.

Definition remove_read (id : Z) (l : list Z) : list Z :=
  match list_find (fun i => i = id) l with Some (n, _) => delete n l | None => l end.

Definition pool_apply (e : pool_event) (p : pool) : outcome pool :=
  match e with
  | Made id =>
      Ret (Pool (adb_apply (Create id) (the_hub p)).1 (id :: guest_reads p) (host_reads p)
             (ready p) (running p) (locker p))
  | Complete o =>
      match o with
      | HostRead id _ =>
          (* the read fills [host_buffer_] *)
          if existsb (is_read id) (pending_ops p) then Undef
          else Ret (Pool (the_hub p) (guest_reads p) (remove_read id (host_reads p)) (o :: ready p) (running p) (locker p))
      | _ =>
          Ret (Pool (the_hub p) (if from_guest o then remove_read (op_id o) (guest_reads p) else guest_reads p)
                 (host_reads p) (o :: ready p) (running p) (locker p))
      end
  | Start t n =>
      match ready p !! n with
      | None => Ret p
      | Some o =>
          match procs (the_hub p) !! op_id o with
          | None => Undef
          | Some a =>
              let now := accesses o a in
              if existsb (fun k => races now (touched k)) (tasks_of (op_id o) p) then Undef
              else
                match run_op t o p with
                | Ret (s', again, reads, locker) =>
                    Ret (Pool s' (guest_reads p) reads (delete n (ready p))
                           (Task t o now again :: running p) locker)
                | _ => Undef
                end
          end
      end
  | Resume n env =>
      match running p !! n with
      | None => Ret p
      | Some k =>
          match run_op (thread k) (Unblocked (op_id (op k)) env) p with
          | Ret (s', again, reads, locker) =>
              Ret (Pool s' (guest_reads p) reads (ready p)
                     (<[n := Task (thread k) (op k) (touched k) again]> (running p)) locker)
          | _ => Undef
          end
      end
  | Finish n =>
      match running p !! n with
      | None => Ret p
      | Some k =>
          Ret (Pool (the_hub p) (if again k then op_id (op k) :: guest_reads p else guest_reads p)
                 (host_reads p) (ready p) (delete n (running p)) (locker p))
      end
  end.
End pool.

(** * What may go wrong *)


(** * Lemmas: the invariant of the pool *)

(** The guests' connections: each is read, or its data is handled. *)
Definition guest_ids (l : list adb_op) : list Z := op_id <$> filter (fun o => from_guest o = true) l.







#[local] Instance guest_ids_proper : Proper ((≡ₚ) ==> (≡ₚ)) guest_ids.
Proof. intros l l' H. unfold guest_ids. by rewrite H. Qed.














(** * The property *)


(** * Runs of the pool *)

Fixpoint pool_run (pool_size : nat) (ua : bool) (es : list pool_event) (p : pool) : option pool :=
  match es with
  | [] => Some p
  | e :: es' =>
      if pool_enabled pool_size e p then
        match pool_apply ua e p with Ret p' => pool_run pool_size ua es' p' | _ => None end
      else None
  end.

Definition up : host_env := HostEnv true true.
(** A guest's connection and the first data on it, on thread [t]. *)
Definition accept_on (t : nat) (id : Z) : list pool_event :=
  [Made id; Complete (Guest id up accept_command); Start t 0].
Definition after (sz : nat) (ua : bool) (es : list pool_event) : pool := default pool_init (pool_run sz ua es pool_init).

(** Two guests: the second waits while the first talks to the host. *)
Definition two_sessions : list pool_event :=
  accept_on 0 1 ++ [Finish 0] ++ accept_on 1 2 ++
  [Complete (HostConnects 1); Start 0 0; Finish 0; Complete (Guest 1 up start_command); Start 0 0; Finish 0].


(** * What the pool allows *)

(** Told of the host's connection before the processor's state is set, the
    guest may answer while the handler still runs. *)
Lemma start_overtakes_state :
  let p := after 8 false (accept_on 0 1 ++ [Finish 0; Complete (HostConnects 1); Start 0 0;
                            Complete (Guest 1 up start_command)]) in
  wire (the_hub p) = [ToServer handshake; ToGuest 1 ok_command] /\
  pool_enabled 8 (Start 1 0) p = true /\ pool_apply false (Start 1 0) p = Undef.
Proof. vm_compute. split_and!; reflexivity. Qed.

(** The host's data is ready when the guest's connection goes: its handler
    uses a processor that is deleted. *)
Lemma handler_of_deleted_processor :
  let p := after 8 true (two_sessions ++ [Complete (HostRead 1 (Some (str "OKAY"))); Complete (GuestGone 1);
                           Start 0 0; Finish 0]) in
  procs (the_hub p) !! 1 = None /\ pool_enabled 8 (Start 0 0) p = true /\ pool_apply true (Start 0 0) p = Undef.
Proof. vm_compute. split_and!; reflexivity. Qed.

(** A session that ends on another thread than it began on. *)
Lemma unlocked_by_another_thread :
  let p := after 8 false (accept_on 0 1 ++ [Finish 0; Complete (GuestGone 1)]) in
  pool_enabled 8 (Start 1 0) p = true /\ pool_apply false (Start 1 0) p = Undef /\
  pool_apply true (Start 1 0) p <> Undef.
Proof. vm_compute. split_and!; done. Qed.

(** Eight guests that wait take all the threads of the pool: the owner's own
    handlers, among them the one that would give the lock back, never start. *)
Lemma pool_starves :
  let p := after 8 true (accept_on 0 0 ++ [Finish 0] ++
             concat ((fun n => accept_on n (Z.of_nat n + 1)) <$> seq 0 8) ++ [Complete (GuestGone 0)]) in
  active_instance_ (the_hub p) = Some 0 /\ ready p = [GuestGone 0] /\
  forall e, match e with Start _ _ | Resume _ _ | Finish _ => pool_enabled 8 e p = false | _ => True end.
Proof.
  cbn zeta. set (p := after 8 true _).
  assert (active_instance_ (the_hub p) = Some 0) as Ha by (by vm_compute).
  assert (ready p = [GuestGone 0]) as Hr by (by vm_compute).
  assert (forallb (fun k => waits k p) (running p) = true) as Hw by (by vm_compute).
  assert (forallb (busy p) (seq 0 8) = true) as Hb by (by vm_compute).
  clearbody p. rewrite forallb_forall in Hw, Hb. split; [done|]. split; [done|].
  intros [| |t n|n env|n]; [done..| | |]; cbn [pool_enabled].
  - destruct (t <? 8)%nat eqn:Et; [|done]. rewrite Hb; [done|]. apply in_seq. apply Nat.ltb_lt in Et. lia.
  - destruct (running p !! n); [|done]. rewrite Ha. by rewrite andb_false_r.
  - destruct (running p !! n) eqn:En; [|done]. rewrite Hw; [done|]. by apply list_elem_of_In, (list_elem_of_lookup_2 _ n).
Qed.
