(* ===== verification/Input.v ===== *)
(** The input path from the host to the guest: the keyboard and pointer state
    machines (input/keyboard.cpp, input/pointer.cpp), the bounded queue of the
    dispatcher with its worker thread (input/dispatcher.cpp, over the interface
    of input/event_sink.h). The devices it delivers to are in Device.v. *)

From S2P Require Import Prelude.

Local Open Scope Z_scope.

(** * Events *)

(** [struct Event] with the constants of linux/input.h. *)
Record event := Event { type : Z; code : Z; value : Z }.
Definition EV_SYN : Z := 0.
Definition EV_KEY : Z := 1.
Definition EV_REL : Z := 2.
Definition EV_ABS : Z := 3.
Definition SYN_REPORT : Z := 0.
Definition ABS_X : Z := 0.
Definition ABS_Y : Z := 1.
Definition REL_X : Z := 0.
Definition REL_Y : Z := 1.
Definition REL_HWHEEL : Z := 6.
Definition REL_WHEEL : Z := 8.
Definition KEY_RESERVED : Z := 0.

Inductive stream := Keyboard_ | Pointer_.
Inductive batch_kind := Key | Button | Motion | Wheel | Repeat | ForcedRelease.
#[global] Instance stream_eq_dec : EqDecision stream.
Proof. solve_decision. Defined.
#[global] Instance batch_kind_eq_dec : EqDecision batch_kind.
Proof. solve_decision. Defined.

Record batch := EventBatch {
  b_stream : stream;
  kind : batch_kind;
  events : list event;
  source_sequence : Z;
  transport_sequence : Z;
  source_time_ns : Z;
  enqueue_time_ns : Z
}.
Definition syn_report : event := Event EV_SYN SYN_REPORT 0.

(** * The dispatcher *)

(** The worker thread in [run]: in its wait, between taking a batch and the
    end of its delivery, about to call the failure handler, or finished. *)
Inductive input_worker :=
  | WWaiting (asleep : bool)
  | WTaken (b : batch)
  | WFailed
  | WExited.

Record diagnostics := Diagnostics {
  d_submitted : Z;
  d_delivered : Z;
  d_dropped : Z;
  d_coalesced : Z;
  d_failures : Z;
  d_depth : Z
}.

(** [Dispatcher]; the 64-bit counters are not wrapped.  [delivered] and
    [refused] record the batches the devices took and those for which
    [submit] answered false. *)
Record dispatcher := Dispatcher {
  capacity_ : nat;
  release_reserve_ : nat;
  queue_ : list batch;
  stopping_ : bool;
  transport_failed_ : bool;
  next_sequence_ : Z;
  stats : diagnostics;
  worker_ : input_worker;
  delivered : list batch;
  refused : list batch
}.

(** The constructor. *)
Definition dispatcher_init (capacity release_reserve : nat) : dispatcher :=
  let cap := (1 `max` capacity)%nat in
  Dispatcher cap (release_reserve `min` cap) [] false false 0
    (Diagnostics 0 0 0 0 0 0) (WWaiting false) [] [].

Definition is_release (b : batch) : bool :=
  match kind b with
  | ForcedRelease => true
  | _ => existsb (fun e => (type e =? EV_KEY) && (value e =? 0)) (events b)
  end.

Definition droppable (b : batch) : bool :=
  match kind b with Motion | Repeat => true | _ => false end.
(** The queue without its first droppable batch. *)
Fixpoint drop_one (q : list batch) : option (list batch) :=
  match q with
  | [] => None
  | b :: q' => if droppable b then Some q' else cons b <$> drop_one q'
  end.

Definition with_queue (d : dispatcher) (q : list batch) (st : diagnostics) (w : input_worker) : dispatcher :=
  Dispatcher (capacity_ d) (release_reserve_ d) q (stopping_ d) (transport_failed_ d)
    (next_sequence_ d) st w (delivered d) (refused d).
Definition count_dropped (n : Z) (st : diagnostics) : diagnostics :=
  Diagnostics (d_submitted st) (d_delivered st) (d_dropped st + n) (d_coalesced st) (d_failures st) (d_depth st).
Definition count_submitted (st : diagnostics) : diagnostics :=
  Diagnostics (d_submitted st + 1) (d_delivered st) (d_dropped st) (d_coalesced st) (d_failures st) (d_depth st).
Definition count_coalesced (st : diagnostics) : diagnostics :=
  Diagnostics (d_submitted st) (d_delivered st) (d_dropped st) (d_coalesced st + 1) (d_failures st) (d_depth st).
Definition count_delivered (st : diagnostics) : diagnostics :=
  Diagnostics (d_submitted st) (d_delivered st + 1) (d_dropped st) (d_coalesced st) (d_failures st) (d_depth st).
Definition count_failure (n : Z) (st : diagnostics) : diagnostics :=
  Diagnostics (d_submitted st) (d_delivered st) (d_dropped st + n) (d_coalesced st) (d_failures st + 1) (d_depth st).
Definition note_depth (n : nat) (st : diagnostics) : diagnostics :=
  Diagnostics (d_submitted st) (d_delivered st) (d_dropped st) (d_coalesced st) (d_failures st)
    (Z.max (d_depth st) (Z.of_nat n)).
Definition refuse (b : batch) (d : dispatcher) : dispatcher :=
  Dispatcher (capacity_ d) (release_reserve_ d) (queue_ d) (stopping_ d) (transport_failed_ d)
    (next_sequence_ d) (stats d) (worker_ d) (delivered d) (refused d ++ [b]).
Definition numbered (d : dispatcher) : dispatcher :=
  Dispatcher (capacity_ d) (release_reserve_ d) (queue_ d) (stopping_ d) (transport_failed_ d)
    (next_sequence_ d + 1) (count_submitted (stats d)) (worker_ d) (delivered d) (refused d).

(** [wake_.notify_one()] *)
Definition wake (w : input_worker) : input_worker :=
  match w with WWaiting _ => WWaiting false | _ => w end.

Definition make_room_locked (d : dispatcher) (incoming : batch) : dispatcher * bool :=
  let normal_limit := (capacity_ d - release_reserve_ d)%nat in
  let limit := if is_release incoming then capacity_ d else normal_limit in
  if (length (queue_ d) <? limit)%nat then (d, true)
  else match drop_one (queue_ d) with
       | Some q => (with_queue d q (count_dropped 1 (stats d)) (worker_ d), true)
       | None => (d, false)
       end.

(** The trailing batch that a motion replaces. *)
Definition coalesces (q : list batch) (b : batch) : bool :=
  match kind b, last q with
  | Motion, Some t => match kind t with Motion => bool_decide (b_stream t = b_stream b) | _ => false end
  | _, _ => false
  end.
Definition replace_last (q : list batch) (b : batch) : list batch := take (length q - 1) q ++ [b].

(** [submit] at time [now]. *)
Definition submit (now : Z) (b : batch) (d : dispatcher) : dispatcher * bool :=
  match events b with
  | [] => (d, true)
  | _ =>
      let b := EventBatch (b_stream b) (kind b) (events b) (source_sequence b) (transport_sequence b)
                 (if source_time_ns b =? 0 then now else source_time_ns b) now in
      if stopping_ d || transport_failed_ d then (refuse b d, false)
      else
        let b := EventBatch (b_stream b) (kind b) (events b) (source_sequence b) (next_sequence_ d + 1)
                   (source_time_ns b) (enqueue_time_ns b) in
        let d := numbered d in
        if coalesces (queue_ d) b then
          (with_queue d (replace_last (queue_ d) b) (count_coalesced (stats d)) (worker_ d), true)
        else
          match make_room_locked d b with
          | (d, false) => (refuse b (with_queue d (queue_ d) (count_dropped 1 (stats d)) (worker_ d)), false)
          | (d, true) =>
              let q := queue_ d ++ [b] in
              (with_queue d q (note_depth (length q) (stats d)) (wake (worker_ d)), true)
          end
  end.

(** ** The worker *)

Definition ready (d : dispatcher) : bool := stopping_ d || negb ((match queue_ d with [] => true | _ => false end)).

(** State older than 100 ms is not delivered. *)
Definition stale_state (now : Z) (b : batch) : bool :=
  (100000 <? u64 (now - source_time_ns b) / 1000) &&
  match kind b with Motion | Wheel | Repeat => true | _ => false end.

Definition drop_stale (d : dispatcher) : dispatcher :=
  with_queue d (queue_ d) (count_dropped 1 (stats d)) (WWaiting false).
Definition finish_delivery (d : dispatcher) (b : batch) : dispatcher :=
  Dispatcher (capacity_ d) (release_reserve_ d) (queue_ d) (stopping_ d) (transport_failed_ d)
    (next_sequence_ d) (count_delivered (stats d)) (WWaiting false) (delivered d ++ [b]) (refused d).
Definition fail_delivery (d : dispatcher) : dispatcher :=
  Dispatcher (capacity_ d) (release_reserve_ d) [] (stopping_ d) true
    (next_sequence_ d) (count_failure (Z.of_nat (length (queue_ d))) (stats d)) WFailed
    (delivered d) (refused d).
Definition stop (d : dispatcher) : dispatcher :=
  Dispatcher (capacity_ d) (release_reserve_ d) (queue_ d) true (transport_failed_ d)
    (next_sequence_ d) (stats d) (wake (worker_ d)) (delivered d) (refused d).
Definition with_worker (d : dispatcher) (w : input_worker) : dispatcher :=
  with_queue d (queue_ d) (stats d) w.

(** What [flush] waits for. *)
Definition drained (d : dispatcher) : bool :=
  (match queue_ d with [] => true | _ => false end) && match worker_ d with WTaken _ => false | _ => true end.

(** * Keyboard and pointer *)

(** [EventSink]: where batches go. *)
Class EventSink (D : Type) := sink_submit : Z -> batch -> D -> D * bool.
#[export] Instance dispatcher_sink : EventSink dispatcher := submit.

(** What the host holds down and what the guest has been told. *)
Record held_keys := Held { host_held_ : gset Z; injected_held_ : gset Z }.
Definition nothing_held : held_keys := Held ∅ ∅.

Section devices.
Context {D : Type} `{!EventSink D}.

(** The press and release parts that [Keyboard::key] and [Pointer::button]
    share; the last result is whether the event was a duplicate. *)
Definition press (now : Z) (mk : Z -> batch) (c : Z) (h : held_keys) (d : D) : held_keys * D * bool * bool :=
  if bool_decide (c ∈ host_held_ h) then (h, d, true, true)
  else
    let h := Held ({[c]} ∪ host_held_ h) (injected_held_ h) in
    let (d, ok) := sink_submit now (mk 1) d in
    (if ok then Held (host_held_ h) ({[c]} ∪ injected_held_ h) else h, d, ok, false).
Definition release (now : Z) (mk : Z -> batch) (c : Z) (h : held_keys) (d : D) : held_keys * D * bool * bool :=
  if negb (bool_decide (c ∈ host_held_ h)) then (h, d, true, true)
  else
    let h := Held (host_held_ h ∖ {[c]}) (injected_held_ h) in
    if negb (bool_decide (c ∈ injected_held_ h)) then (h, d, true, false)
    else
      let h := Held (host_held_ h) (injected_held_ h ∖ {[c]}) in
      let (d, ok) := sink_submit now (mk 0) d in (h, d, ok, false).

(** The codes of a [std::set], ascending. *)
Definition ascending (s : gset Z) : list Z := merge_sort Z.le (elements s).
Definition forced_release (s : stream) (seq time : Z) (held : gset Z) : batch :=
  EventBatch s ForcedRelease (((fun c => Event EV_KEY c 0) <$> ascending held) ++ [syn_report]) seq 0 time 0.

Record keyboard := Keyboard {
  forward_repeat : bool;           (* RepeatPolicy::ForwardLinuxRepeat *)
  keys : held_keys;
  k_sequence : Z;
  k_host_events : Z;
  k_repeats : Z;
  k_duplicates : Z;
  k_forced : Z
}.
Definition keyboard_init (forward : bool) : keyboard := Keyboard forward nothing_held 0 0 0 0 0.

Definition key_batch (kd : batch_kind) (c seq time v : Z) : batch :=
  EventBatch Keyboard_ kd [Event EV_KEY c v; syn_report] seq 0 time 0.

Definition key (now c : Z) (pressed host_repeat : bool) (time : Z) (k : keyboard) (d : D)
    : keyboard * D * bool :=
  let seq := k_sequence k + 1 in
  let k := Keyboard (forward_repeat k) (keys k) seq (k_host_events k + 1) (k_repeats k)
             (k_duplicates k) (k_forced k) in
  if c =? KEY_RESERVED then (k, d, false)
  else if host_repeat then
    let k := Keyboard (forward_repeat k) (keys k) seq (k_host_events k) (k_repeats k + 1)
               (k_duplicates k) (k_forced k) in
    if negb pressed || negb (bool_decide (c ∈ host_held_ (keys k))) || negb (forward_repeat k)
    then (k, d, true)
    else let (d, ok) := sink_submit now (key_batch Repeat c seq time 2) d in (k, d, ok)
  else
    let '(h, d, ok, duplicate) :=
      (if pressed then press else release) now (key_batch Key c seq time) c (keys k) d in
    (Keyboard (forward_repeat k) h seq (k_host_events k) (k_repeats k)
       (if (duplicate : bool) then k_duplicates k + 1 else k_duplicates k) (k_forced k), d, ok).

Definition keyboard_release_all (now time : Z) (k : keyboard) (d : D) : keyboard * D :=
  let held := injected_held_ (keys k) in
  if bool_decide (held = ∅) then
    (Keyboard (forward_repeat k) nothing_held (k_sequence k) (k_host_events k) (k_repeats k)
       (k_duplicates k) (k_forced k), d)
  else
    let seq := k_sequence k + 1 in
    let (d, _) := sink_submit now (forced_release Keyboard_ seq time held) d in
    (Keyboard (forward_repeat k) nothing_held seq (k_host_events k) (k_repeats k) (k_duplicates k)
       (k_forced k + Z.of_nat (size held)), d).

Definition keyboard_reset (k : keyboard) : keyboard :=
  Keyboard (forward_repeat k) nothing_held (k_sequence k) (k_host_events k) (k_repeats k)
    (k_duplicates k) (k_forced k + Z.of_nat (size (injected_held_ (keys k)))).

Record pointer := Pointer {
  buttons : held_keys;
  p_sequence : Z;
  p_motions : Z;
  p_buttons : Z;
  p_wheels : Z;
  p_duplicates : Z;
  p_forced : Z
}.
Definition pointer_init : pointer := Pointer nothing_held 0 0 0 0 0 0.

Definition absolute (now x y time : Z) (p : pointer) (d : D) : pointer * D * bool :=
  let seq := p_sequence p + 1 in
  let (d, ok) := sink_submit now
    (EventBatch Pointer_ Motion [Event EV_ABS ABS_X x; Event EV_ABS ABS_Y y; syn_report] seq 0 time 0) d in
  (Pointer (buttons p) seq (p_motions p + 1) (p_buttons p) (p_wheels p) (p_duplicates p) (p_forced p), d, ok).

(** The [REL] events of two optional deltas. *)
Definition deltas (c1 v1 c2 v2 : Z) : list event :=
  (if v1 =? 0 then [] else [Event EV_REL c1 v1]) ++
  (if v2 =? 0 then [] else [Event EV_REL c2 v2]) ++ [syn_report].

Definition relative (now dx dy time : Z) (p : pointer) (d : D) : pointer * D * bool :=
  if (dx =? 0) && (dy =? 0) then (p, d, true)
  else
    let seq := p_sequence p + 1 in
    let (d, ok) := sink_submit now (EventBatch Pointer_ Motion (deltas REL_X dx REL_Y dy) seq 0 time 0) d in
    (Pointer (buttons p) seq (p_motions p + 1) (p_buttons p) (p_wheels p) (p_duplicates p) (p_forced p), d, ok).

Definition button_batch (c seq time v : Z) : batch :=
  EventBatch Pointer_ Button [Event EV_KEY c v; syn_report] seq 0 time 0.

Definition button (now c : Z) (pressed : bool) (time : Z) (p : pointer) (d : D) : pointer * D * bool :=
  let seq := p_sequence p + 1 in
  let '(h, d, ok, duplicate) :=
    (if pressed then press else release) now (button_batch c seq time) c (buttons p) d in
  (Pointer h seq (p_motions p) (p_buttons p + 1) (p_wheels p)
     (if (duplicate : bool) then p_duplicates p + 1 else p_duplicates p) (p_forced p), d, ok).

Definition wheel (now vertical horizontal time : Z) (p : pointer) (d : D) : pointer * D * bool :=
  if (vertical =? 0) && (horizontal =? 0) then (p, d, true)
  else
    let seq := p_sequence p + 1 in
    let (d, ok) := sink_submit now
      (EventBatch Pointer_ Wheel (deltas REL_WHEEL vertical REL_HWHEEL horizontal) seq 0 time 0) d in
    (Pointer (buttons p) seq (p_motions p) (p_buttons p) (p_wheels p + 1) (p_duplicates p) (p_forced p), d, ok).

Definition pointer_release_all (now time : Z) (p : pointer) (d : D) : pointer * D :=
  let held := injected_held_ (buttons p) in
  if bool_decide (held = ∅) then
    (Pointer nothing_held (p_sequence p) (p_motions p) (p_buttons p) (p_wheels p) (p_duplicates p)
       (p_forced p), d)
  else
    let seq := p_sequence p + 1 in
    let (d, _) := sink_submit now (forced_release Pointer_ seq time held) d in
    (Pointer nothing_held seq (p_motions p) (p_buttons p) (p_wheels p) (p_duplicates p)
       (p_forced p + Z.of_nat (size held)), d).

Definition pointer_reset (p : pointer) : pointer :=
  Pointer nothing_held (p_sequence p) (p_motions p) (p_buttons p) (p_wheels p) (p_duplicates p)
    (p_forced p + Z.of_nat (size (injected_held_ (buttons p)))).
End devices.

(** * The system *)

Record input := Input { kb : keyboard; ptr : pointer; disp : dispatcher }.
Definition input_init (forward : bool) (capacity reserve : nat) : input :=
  Input (keyboard_init forward) pointer_init (dispatcher_init capacity reserve).

(** The calls of the host's event thread; each holds the lock of its device,
    which only these calls and the failure handler touch. *)
Inductive host_call :=
  | CallKey (c : Z) (pressed host_repeat : bool)
  | CallAbsolute (x y : Z)
  | CallRelative (dx dy : Z)
  | CallButton (c : Z) (pressed : bool)
  | CallWheel (vertical horizontal : Z)
  | CallReleaseAll.
Definition call (now time : Z) (c : host_call) (s : input) : input :=
  match c with
  | CallKey c p r => let '(k, d, _) := key now c p r time (kb s) (disp s) in Input k (ptr s) d
  | CallAbsolute x y => let '(p, d, _) := absolute now x y time (ptr s) (disp s) in Input (kb s) p d
  | CallRelative x y => let '(p, d, _) := relative now x y time (ptr s) (disp s) in Input (kb s) p d
  | CallButton c b => let '(p, d, _) := button now c b time (ptr s) (disp s) in Input (kb s) p d
  | CallWheel v h => let '(p, d, _) := wheel now v h time (ptr s) (disp s) in Input (kb s) p d
  | CallReleaseAll =>
      let (k, d) := keyboard_release_all now time (kb s) (disp s) in
      let (p, d) := pointer_release_all now time (ptr s) d in Input k p d
  end.

(** The steps of the worker thread.  [work_delivered] and [work_failed] are
    the two answers of the device. *)
Inductive work : dispatcher -> dispatcher -> Prop :=
  | work_sleep d : worker_ d = WWaiting false -> ready d = false -> work d (with_worker d (WWaiting true))
  | work_exit d : worker_ d = WWaiting false -> queue_ d = [] -> stopping_ d = true ->
      work d (with_worker d WExited)
  | work_take d b q : worker_ d = WWaiting false -> queue_ d = b :: q ->
      work d (with_queue d q (stats d) (WTaken b))
  | work_stale d b now : worker_ d = WTaken b -> stale_state now b = true -> work d (drop_stale d)
  | work_delivered d b now : worker_ d = WTaken b -> stale_state now b = false -> work d (finish_delivery d b)
  | work_failed d b now : worker_ d = WTaken b -> stale_state now b = false -> work d (fail_delivery d).

Inductive input_step : input -> input -> Prop :=
  | step_call s now time c : input_step s (call now time c s)
  | step_work s d : work (disp s) d -> input_step s (Input (kb s) (ptr s) d)
  | step_spurious s : worker_ (disp s) = WWaiting true ->
      input_step s (Input (kb s) (ptr s) (with_worker (disp s) (WWaiting false)))
  (* the failure handler, Platform::reset_reboxed_input_after_transport_failure *)
  | step_handler s : worker_ (disp s) = WFailed ->
      input_step s (Input (keyboard_reset (kb s)) (pointer_reset (ptr s)) (with_worker (disp s) (WWaiting false)))
  | step_stop s : input_step s (Input (kb s) (ptr s) (stop (disp s))).

(** * What a device has been told *)

(** A key state machine of the guest: a press of a held key and a release of
    one that is not held are errors. *)
Definition apply_event (e : event) (s : gset Z) : option (gset Z) :=
  if type e =? EV_KEY then
    if value e =? 1 then (if bool_decide (code e ∈ s) then None else Some ({[code e]} ∪ s))
    else if value e =? 0 then (if bool_decide (code e ∈ s) then Some (s ∖ {[code e]}) else None)
    else Some s
  else Some s.
Fixpoint replay (es : list event) (s : gset Z) : option (gset Z) :=
  match es with [] => Some s | e :: es' => apply_event e s ≫= replay es' end.
(** The keys held by the device of stream [st] after the batches [bs]. *)
Fixpoint run (st : stream) (bs : list batch) (s : gset Z) : option (gset Z) :=
  match bs with
  | [] => Some s
  | b :: bs' => (if decide (b_stream b = st) then replay (events b) s else Some s) ≫= run st bs'
  end.

(** Everything accepted and not dropped: taken by the devices, being
    delivered, or queued. *)
Definition in_flight (d : dispatcher) : list batch := match worker_ d with WTaken b => [b] | _ => [] end.
Definition pipeline (d : dispatcher) : list batch := delivered d ++ in_flight d ++ queue_ d.

(** The transport works and no release was refused. *)
Definition clean (d : dispatcher) : Prop :=
  transport_failed_ d = false /\ Forall (fun b => is_release b = false) (refused d).

(** * Lemmas: replays *)

Lemma replay_app es fs s : replay (es ++ fs) s = replay es s ≫= replay fs.
Proof.
  revert s; induction es as [|e es IH]; intros s; [done|]. simpl.
  destruct (apply_event e s); simpl; [apply IH|done].
Qed.
Lemma run_app st bs cs s : run st (bs ++ cs) s = run st bs s ≫= run st cs.
Proof.
  revert s; induction bs as [|b bs IH]; intros s; [done|]. simpl.
  destruct (if decide _ then _ else _); simpl; [apply IH|done].
Qed.

(** Batches that press and release nothing. *)
Definition neutral (b : batch) : Prop := forall s, replay (events b) s = Some s.
Definition state_kind (k : batch_kind) : bool :=
  match k with Motion | Wheel | Repeat => true | _ => false end.
Definition proper (b : batch) : Prop := state_kind (kind b) = true -> neutral b.

Lemma run_neutral st b bs s : neutral b -> run st (b :: bs) s = run st bs s.
Proof. intros Hb. simpl. destruct (decide _); [by rewrite Hb|done]. Qed.
Lemma run_remove st a b c s : neutral b -> run st (a ++ b :: c) s = run st (a ++ c) s.
Proof.
  intros Hb. rewrite !run_app. destruct (run st a s); [|done].
  change (run st (b :: c) g = run st c g). by apply run_neutral.
Qed.
Lemma run_snoc_neutral st a b s : neutral b -> run st (a ++ [b]) s = run st a s.
Proof. intros Hb. rewrite run_remove by done. by rewrite app_nil_r. Qed.

Lemma drop_one_spec q q' : drop_one q = Some q' ->
  exists a b c, q = a ++ b :: c /\ q' = a ++ c /\ droppable b = true.
Proof.
  revert q'; induction q as [|b q IH]; intros q'; [done|]. simpl.
  destruct (droppable b) eqn:Hb.
  - intros [= <-]. by exists [], b, q.
  - destruct (drop_one q) as [q1|]; [|done]. intros [= <-].
    destruct (IH q1 eq_refl) as (a & x & c & -> & -> & Hx). by exists (b :: a), x, c.
Qed.
Lemma droppable_state b : droppable b = true -> state_kind (kind b) = true.
Proof. unfold droppable. by destruct (kind b). Qed.

Lemma coalesces_spec q b : coalesces q b = true ->
  kind b = Motion /\ exists a t, q = a ++ [t] /\ kind t = Motion /\ replace_last q b = a ++ [b].
Proof.
  unfold coalesces. destruct (kind b); try done. intros H. split; [done|].
  destruct (last q) as [t|] eqn:Hl; [|done]. apply last_Some in Hl as [a ->].
  exists a, t. split; [done|]. split; [by destruct (kind t)|].
  unfold replace_last. rewrite length_app. simpl. rewrite Nat.add_sub. by rewrite take_app_length.
Qed.

Lemma pipeline_queue d q st w : in_flight (with_queue d q st w) = match w with WTaken b => [b] | _ => [] end.
Proof. done. Qed.
Lemma in_flight_wake d : match wake (worker_ d) with WTaken b => [b] | _ => [] end = in_flight d.
Proof. unfold in_flight. by destruct (worker_ d). Qed.

(** * Lemmas: submit *)

(** The batch as it is queued. *)
Definition stamped (now : Z) (b : batch) (seq : Z) : batch :=
  EventBatch (b_stream b) (kind b) (events b) (source_sequence b) seq
    (if source_time_ns b =? 0 then now else source_time_ns b) now.

(** The four ends of [submit]. *)
Lemma submit_cases now b d d' ok : submit now b d = (d', ok) ->
  (events b = [] /\ d' = d /\ ok = true) \/
  (events b <> [] /\ (stopping_ d || transport_failed_ d = true) /\ ok = false /\
     d' = refuse (stamped now b (transport_sequence b)) d) \/
  (events b <> [] /\ stopping_ d || transport_failed_ d = false /\
   let b' := stamped now b (next_sequence_ d + 1) in
   let limit := if is_release b' then capacity_ d else (capacity_ d - release_reserve_ d)%nat in
   (ok = true /\ coalesces (queue_ d) b' = true /\
      d' = with_queue (numbered d) (replace_last (queue_ d) b') (count_coalesced (count_submitted (stats d))) (worker_ d)) \/
   (ok = true /\ (length (queue_ d) < limit)%nat /\
      d' = with_queue (numbered d) (queue_ d ++ [b']) (note_depth (S (length (queue_ d))) (count_submitted (stats d)))
             (wake (worker_ d))) \/
   (ok = true /\ exists x y z, queue_ d = x ++ y :: z /\ droppable y = true /\
      d' = with_queue (numbered d) ((x ++ z) ++ [b'])
             (note_depth (length (queue_ d)) (count_dropped 1 (count_submitted (stats d)))) (wake (worker_ d))) \/
   (ok = false /\ (limit <= length (queue_ d))%nat /\ drop_one (queue_ d) = None /\
      d' = refuse b' (with_queue (numbered d) (queue_ d) (count_dropped 1 (count_submitted (stats d))) (worker_ d)))).
Proof.
  unfold submit. destruct (events b) as [|e es] eqn:Ee; [intros [= <- <-]; by left|].
  rewrite <- Ee. destruct (stopping_ d || transport_failed_ d) eqn:Es.
  { intros [= <- <-]. right; left. split; [by rewrite Ee|]. done. }
  cbn zeta beta. change (EventBatch _ _ _ _ _ _ _) with (stamped now b (next_sequence_ d + 1)).
  set (b' := stamped now b (next_sequence_ d + 1)). change (queue_ (numbered d)) with (queue_ d).
  intros H. right; right. split; [by rewrite Ee|]. split; [done|].
  destruct (coalesces (queue_ d) b') eqn:Ec.
  { injection H as <- <-. by left. }
  right. unfold make_room_locked in H. change (queue_ (numbered d)) with (queue_ d) in H.
  change (capacity_ (numbered d)) with (capacity_ d) in H.
  change (release_reserve_ (numbered d)) with (release_reserve_ d) in H.
  set (limit := if is_release b' then capacity_ d else (capacity_ d - release_reserve_ d)%nat) in *.
  destruct (length (queue_ d) <? limit)%nat eqn:El; bdestruct_all.
  { injection H as <- <-. left. split; [done|]. split; [done|].
    change (queue_ (numbered d)) with (queue_ d). rewrite length_app. simpl. by rewrite Nat.add_1_r. }
  right. destruct (drop_one (queue_ d)) as [q|] eqn:Ed.
  - injection H as <- <-. left. split; [done|]. apply drop_one_spec in Ed as (x & y & z & Hq & -> & Hy).
    exists x, y, z. split; [done|]. split; [done|]. rewrite Hq. unfold with_queue. cbn.
    assert (length ((x ++ z) ++ [b']) = length (x ++ y :: z)) as -> by (len; lia). done.
  - injection H as <- <-. by right.
Qed.

Lemma is_release_stamped now b seq : is_release (stamped now b seq) = is_release b.
Proof. done. Qed.

(** What [submit] adds to the pipeline: nothing, or the batch, or the batch in
    place of batches that only carry state. *)
Lemma submit_pipeline now b d d' ok : Forall proper (pipeline d) -> proper b ->
  submit now b d = (d', ok) ->
  Forall proper (pipeline d') /\
  (ok = true -> forall st s, run st (pipeline d') s = run st (pipeline d) s ≫= run st [b]) /\
  (ok = false -> forall st s, run st (pipeline d') s = run st (pipeline d) s).
Proof.
  intros Hp Hb Hs. unfold pipeline in *.
  assert (forall seq st s, run st [stamped now b seq] s = run st [b] s) as Hst by done.
  assert (forall seq, proper (stamped now b seq)) as Hpst by (intros seq; exact Hb).
  destruct (submit_cases now b d d' ok Hs) as
    [(He & -> & ->)|[(He & _ & -> & ->)|(He & _ & [(-> & Hc & ->)|[(-> & _ & ->)|[(-> & x & y & z & Hq & Hy & ->)|(-> & _ & _ & ->)]]])]].
  - split; [done|]. split; [|done]. intros _ st s.
    destruct (run st _ s) as [g|]; [|done]. simpl. rewrite He. by destruct (decide _).
  - split; [done|]. split; done.
  - apply coalesces_spec in Hc as (Hk & a & t & Hq & Ht & Hr).
    unfold in_flight. cbn [delivered worker_ queue_ with_queue numbered]. fold (in_flight d). rewrite Hr.
    rewrite Hq, !app_assoc, Forall_app, Forall_singleton in Hp. destruct Hp as [Hp Hpt].
    split; [|split; [|done]].
    + rewrite !app_assoc, Forall_app, Forall_singleton. by split.
    + intros _ st s. rewrite Hq, !app_assoc, run_app.
      rewrite (run_snoc_neutral st _ t) by (apply Hpt; by rewrite Ht). done.
  - unfold in_flight. cbn [delivered worker_ queue_ with_queue numbered]. rewrite in_flight_wake.
    split; [|split; [|done]].
    + rewrite !app_assoc in *. apply Forall_app_2; [done|]. by apply Forall_singleton.
    + intros _ st s. by rewrite !app_assoc, run_app.
  - unfold in_flight. cbn [delivered worker_ queue_ with_queue numbered]. rewrite in_flight_wake.
    fold (in_flight d). rewrite Hq in *. split; [|split; [|done]].
    + rewrite !Forall_app, Forall_cons in Hp. destruct Hp as (? & ? & ? & _ & ?).
      rewrite !Forall_app, Forall_singleton. done.
    + intros _ st s.
      replace (delivered d ++ in_flight d ++ (x ++ z) ++ [stamped now b (next_sequence_ d + 1)])
        with ((((delivered d ++ in_flight d) ++ x) ++ z) ++ [stamped now b (next_sequence_ d + 1)])
        by (by rewrite <- !app_assoc).
      replace (delivered d ++ in_flight d ++ x ++ y :: z)
        with (((delivered d ++ in_flight d) ++ x) ++ y :: z) by (by rewrite <- !app_assoc).
      rewrite (run_app st (((delivered d ++ in_flight d) ++ x) ++ z)), (run_remove st _ y); [done|].
      rewrite !Forall_app, Forall_cons in Hp. destruct Hp as (_ & _ & _ & Hy' & _).
      apply Hy'. by apply droppable_state.
  - split; [done|]. split; done.
Qed.

Lemma submit_clean now b d d' ok : submit now b d = (d', ok) -> clean d' ->
  clean d /\ (ok = false -> is_release b = false).
Proof.
  intros Hs [Hf Hr]. unfold clean.
  destruct (submit_cases now b d d' ok Hs) as
    [(He & -> & ->)|[(He & _ & -> & ->)|(He & _ & [(-> & Hc & ->)|[(-> & _ & ->)|[(-> & x & y & z & Hq & Hy & ->)|(-> & _ & _ & ->)]]])]];
    cbn [transport_failed_ refused with_queue numbered refuse] in *; try done.
  - rewrite Forall_app, Forall_singleton in Hr. destruct Hr as [? Hb]. done.
  - rewrite Forall_app, Forall_singleton in Hr. destruct Hr as [? Hb]. done.
Qed.

(** * The invariant of the held keys *)

(** Device [st] has been told that exactly the codes of [held] are down. *)
Definition told (d : dispatcher) (st : stream) (held : gset Z) : Prop :=
  clean d -> run st (pipeline d) ∅ = Some held.

Lemma submit_told now b d d' ok st held held' :
  Forall proper (pipeline d) -> proper b -> submit now b d = (d', ok) -> told d st held ->
  (ok = true -> run st [b] held = Some held') ->
  (ok = false -> is_release b = false -> held' = held) -> told d' st held'.
Proof.
  intros Hp Hb Hs Ht Hok Hno Hc. destruct (submit_clean _ _ _ _ _ Hs Hc) as [Hc0 Hr].
  destruct (submit_pipeline _ _ _ _ _ Hp Hb Hs) as (_ & H1 & H2). specialize (Ht Hc0).
  destruct ok.
  - rewrite H1, Ht by done. by apply Hok.
  - rewrite H2, Ht by done. by rewrite Hno by auto.
Qed.

Lemma run_single st b s : run st [b] s = if decide (b_stream b = st) then replay (events b) s else Some s.
Proof. simpl. destruct (if decide _ then _ else _); done. Qed.

(** The press and release of a held set, over the batches [mk 1] and [mk 0]
    of its device [st]. *)
Section held.
Context (st : stream) (mk : Z -> batch) (c : Z).
Context (mk_stream : forall v, b_stream (mk v) = st)
  (mk_events : forall v, events (mk v) = [Event EV_KEY c v; syn_report])
  (mk_kind : forall v, state_kind (kind (mk v)) = false) (mk_forced : forall v, kind (mk v) <> ForcedRelease).

Lemma mk_proper v : proper (mk v).
Proof. intros H. by rewrite mk_kind in H. Qed.
Lemma mk_release v : is_release (mk v) = (v =? 0).
Proof.
  unfold is_release. pose proof (mk_forced v). rewrite mk_events. simpl. rewrite orb_false_r. by destruct (kind (mk v)).
Qed.
Lemma run_other st' v s : st' <> st -> run st' [mk v] s = Some s.
Proof. intros Hne. rewrite run_single, decide_False; [done|]. rewrite mk_stream. congruence. Qed.

(** The guest only holds what the host holds. *)
Definition within (h : held_keys) : Prop := injected_held_ h ⊆ host_held_ h.

Definition held_ok (d : dispatcher) (h : held_keys) : Prop :=
  Forall proper (pipeline d) /\ within h /\ told d st (injected_held_ h).

Lemma press_ok now h d h' d' ok dup : held_ok d h -> press now mk c h d = (h', d', ok, dup) ->
  held_ok d' h' /\ forall st' s, st' <> st -> told d st' s -> told d' st' s.
Proof.
  intros (Hp & Hw & Ht) H. unfold press in H.
  destruct (bool_decide (c ∈ host_held_ h)) eqn:Ec; [by injection H as <- <- _ _|].
  apply bool_decide_eq_false in Ec. unfold sink_submit, dispatcher_sink in H.
  destruct (submit now (mk 1) d) as [d1 ok1] eqn:Es. injection H as <- <- <- _.
  destruct (submit_pipeline _ _ _ _ _ Hp (mk_proper 1) Es) as (Hp' & _).
  split.
  - split; [done|]. split.
    { destruct ok1; unfold within in *; cbn; set_solver. }
    eapply submit_told; [exact Hp|apply mk_proper|exact Es|exact Ht| |].
    + intros ->. rewrite run_single, mk_stream, decide_True, mk_events by done. cbn.
      rewrite bool_decide_false; [done|]. unfold within in Hw. set_solver.
    + by intros ->.
  - intros st' s Hne Ht'. eapply submit_told; [exact Hp|apply mk_proper|exact Es|exact Ht'| |done].
    intros _. by apply run_other.
Qed.

Lemma release_ok now h d h' d' ok dup : held_ok d h -> release now mk c h d = (h', d', ok, dup) ->
  held_ok d' h' /\ forall st' s, st' <> st -> told d st' s -> told d' st' s.
Proof.
  intros (Hp & Hw & Ht) H. unfold release in H.
  destruct (bool_decide (c ∈ host_held_ h)) eqn:Ec; cbn [negb] in H; [|by injection H as <- <- _ _].
  cbn [injected_held_ host_held_] in H.
  destruct (bool_decide (c ∈ injected_held_ h)) eqn:Ei; cbn [negb] in H.
  2: { injection H as <- <- _ _. apply bool_decide_eq_false in Ei. split; [|done].
       split; [done|]. split; [unfold within in *; cbn; set_solver|done]. }
  apply bool_decide_eq_true in Ei. unfold sink_submit, dispatcher_sink in H.
  destruct (submit now (mk 0) d) as [d1 ok1] eqn:Es. injection H as <- <- _ _.
  destruct (submit_pipeline _ _ _ _ _ Hp (mk_proper 0) Es) as (Hp' & _).
  split.
  - split; [done|]. split; [unfold within in *; cbn; set_solver|].
    eapply submit_told; [exact Hp|apply mk_proper|exact Es|exact Ht| |].
    + intros ->. rewrite run_single, mk_stream, decide_True, mk_events by done. cbn.
      by rewrite bool_decide_true.
    + intros _ Hr. by rewrite mk_release in Hr.
  - intros st' s Hne Ht'. eapply submit_told; [exact Hp|apply mk_proper|exact Es|exact Ht'| |done].
    intros _. by apply run_other.
Qed.
End held.

Lemma replay_releases l s : NoDup l -> list_to_set l ⊆ s ->
  replay ((fun c => Event EV_KEY c 0) <$> l) s = Some (s ∖ list_to_set l).
Proof.
  intros Hnd. revert s; induction Hnd as [|c l Hc _ IH]; intros s Hs.
  { simpl. f_equal. set_solver. }
  rewrite fmap_cons. cbn [replay].
  assert (apply_event (Event EV_KEY c 0) s = Some (s ∖ {[c]})) as ->.
  { unfold apply_event. cbn. by rewrite bool_decide_true by set_solver. }
  cbn [mbind option_bind].
  rewrite IH; [f_equal; set_solver|].
  intros x Hx. apply elem_of_difference. split; [set_solver|].
  apply elem_of_list_to_set in Hx. intros ->%elem_of_singleton. done.
Qed.

Lemma ascending_perm s : ascending s ≡ₚ elements s.
Proof. apply merge_sort_Permutation. Qed.

Lemma forced_release_run st seq time held : run st [forced_release st seq time held] held = Some ∅.
Proof.
  rewrite run_single. cbn [b_stream forced_release events]. rewrite decide_True by done.
  rewrite replay_app, replay_releases.
  - cbn. f_equal. rewrite ascending_perm. rewrite list_to_set_elements_L. set_solver.
  - rewrite ascending_perm. apply NoDup_elements.
  - rewrite ascending_perm, list_to_set_elements_L. done.
Qed.

(** * Lemmas: the calls *)

Definition held_inv (s : input) : Prop :=
  Forall proper (pipeline (disp s)) /\
  within (keys (kb s)) /\ within (buttons (ptr s)) /\
  told (disp s) Keyboard_ (injected_held_ (keys (kb s))) /\
  told (disp s) Pointer_ (injected_held_ (buttons (ptr s))) /\
  (worker_ (disp s) = WFailed -> transport_failed_ (disp s) = true).

(** A batch that presses and releases nothing. *)
Lemma submit_neutral now b d d' ok : Forall proper (pipeline d) -> neutral b ->
  submit now b d = (d', ok) ->
  Forall proper (pipeline d') /\ forall st s, told d st s -> told d' st s.
Proof.
  intros Hp Hb Hs. assert (proper b) as Hpb by (by intros _).
  destruct (submit_pipeline _ _ _ _ _ Hp Hpb Hs) as (Hp' & _). split; [done|].
  intros st s Ht. eapply submit_told; [exact Hp|exact Hpb|exact Hs|exact Ht| |done].
  intros _. rewrite run_single. destruct (decide _); [by rewrite Hb|done].
Qed.

Lemma submit_worker now b d d' ok : submit now b d = (d', ok) ->
  (worker_ d' = WFailed -> worker_ d = WFailed) /\ transport_failed_ d' = transport_failed_ d.
Proof.
  intros Hs. destruct (submit_cases now b d d' ok Hs) as
    [(He & -> & ->)|[(He & _ & -> & ->)|(He & _ & [(-> & Hc & ->)|[(-> & _ & ->)|[(-> & x & y & z & Hq & Hy & ->)|(-> & _ & _ & ->)]]])]];
    cbn; (split; [|done]); by destruct (worker_ d).
Qed.

Lemma neutral_rel es : Forall (fun e => type e <> EV_KEY \/ (value e <> 0 /\ value e <> 1)) es ->
  forall s, replay es s = Some s.
Proof.
  induction 1 as [|e es He _ IH]; intros s; [done|]. simpl. unfold apply_event at 1.
  destruct (type e =? EV_KEY) eqn:Et; [|cbn; apply IH]. bdestruct_all. destruct He as [|[H0 H1]]; [done|].
  rewrite (proj2 (Z.eqb_neq _ _) H1), (proj2 (Z.eqb_neq _ _) H0). cbn. apply IH.
Qed.

Lemma deltas_neutral c1 v1 c2 v2 s : replay (deltas c1 v1 c2 v2) s = Some s.
Proof.
  apply neutral_rel. unfold deltas. rewrite !Forall_app. split_and!.
  - destruct (v1 =? 0); [constructor|]. apply Forall_singleton. by left.
  - destruct (v2 =? 0); [constructor|]. apply Forall_singleton. by left.
  - apply Forall_singleton. by left.
Qed.

Lemma key_ok now c p r time s : held_inv s -> held_inv (call now time (CallKey c p r) s).
Proof.
  intros (Hp & Hk & Hb & Htk & Htp & Hf). unfold call, key.
  destruct (c =? KEY_RESERVED).
  { unfold held_inv; cbn; split_and!; auto. } destruct r.
  - destruct (_ || _); [by unfold held_inv; cbn; split_and!|]. unfold sink_submit, dispatcher_sink.
    destruct (submit _ _ (disp s)) as [d ok] eqn:Es.
    assert (neutral (key_batch Repeat c (k_sequence (kb s) + 1) time 2)) as Hn by (intros ?; done).
    destruct (submit_neutral _ _ _ _ _ Hp Hn Es) as (Hp' & Ht).
    destruct (submit_worker _ _ _ _ _ Es) as [Hw1 Hw2].
    unfold held_inv; cbn; split_and!; [done..|by apply Ht|by apply Ht|]. rewrite Hw2. auto.
  - set (mk := key_batch Key c (k_sequence (kb s) + 1) time).
    destruct ((if p then press else release) now mk c (keys (kb s)) (disp s)) as [[[h d] ok] dup] eqn:E.
    assert (held_ok Keyboard_ d h /\ forall st' s', st' <> Keyboard_ -> told (disp s) st' s' -> told d st' s')
      as [(Hp' & Hk' & Htk') Hother].
    { destruct p; [apply (press_ok Keyboard_ mk c) in E|apply (release_ok Keyboard_ mk c) in E]; done. }
    assert ((worker_ d = WFailed -> worker_ (disp s) = WFailed) /\ transport_failed_ d = transport_failed_ (disp s)) as [Hw1 Hw2].
    { clear -E. destruct p; unfold press, release, sink_submit, dispatcher_sink in E;
        repeat case_match; simplify_eq; try done; by eapply submit_worker. }
    cbn [keys]. rewrite E. unfold held_inv; cbn; split_and!; [done..|by apply Hother|]. rewrite Hw2. auto.
Qed.

Lemma button_ok now c p time s : held_inv s -> held_inv (call now time (CallButton c p) s).
Proof.
  intros (Hp & Hk & Hb & Htk & Htp & Hf). unfold call, button.
  set (mk := button_batch c (p_sequence (ptr s) + 1) time).
  destruct ((if p then press else release) now mk c (buttons (ptr s)) (disp s)) as [[[h d] ok] dup] eqn:E.
  assert (held_ok Pointer_ d h /\ forall st' s', st' <> Pointer_ -> told (disp s) st' s' -> told d st' s')
    as [(Hp' & Hk' & Htk') Hother].
  { destruct p; [apply (press_ok Pointer_ mk c) in E|apply (release_ok Pointer_ mk c) in E]; done. }
  assert ((worker_ d = WFailed -> worker_ (disp s) = WFailed) /\ transport_failed_ d = transport_failed_ (disp s)) as [Hw1 Hw2].
  { clear -E. destruct p; unfold press, release, sink_submit, dispatcher_sink in E;
      repeat case_match; simplify_eq; try done; by eapply submit_worker. }
  unfold held_inv; cbn; split_and!; [done..|by apply Hother|done|]. rewrite Hw2. auto.
Qed.

(** The batches of the pointer that carry no button. *)
Lemma pointer_neutral_ok now b s p d ok : held_inv s -> neutral b -> submit now b (disp s) = (d, ok) ->
  buttons p = buttons (ptr s) -> held_inv (Input (kb s) p d).
Proof.
  intros (Hp & Hk & Hb & Htk & Htp & Hf) Hn Es Hbt.
  destruct (submit_neutral _ _ _ _ _ Hp Hn Es) as (Hp' & Ht).
  destruct (submit_worker _ _ _ _ _ Es) as [Hw1 Hw2].
  unfold held_inv; cbn; split_and!; rewrite ?Hbt; [done..|by apply Ht|by apply Ht|]. rewrite Hw2. auto.
Qed.

Lemma forced_ok st now seq time held d d' ok :
  Forall proper (pipeline d) -> told d st held ->
  submit now (forced_release st seq time held) d = (d', ok) ->
  Forall proper (pipeline d') /\ told d' st ∅ /\
  (forall st' s, st' <> st -> told d st' s -> told d' st' s).
Proof.
  intros Hp Ht Es. assert (proper (forced_release st seq time held)) as Hpb by done.
  destruct (submit_pipeline _ _ _ _ _ Hp Hpb Es) as (Hp' & _). split; [done|]. split.
  - eapply submit_told; [exact Hp|exact Hpb|exact Es|exact Ht| |done].
    intros _. apply forced_release_run.
  - intros st' s Hne Ht'. eapply submit_told; [exact Hp|exact Hpb|exact Es|exact Ht'| |done].
    intros _. rewrite run_single, decide_False; [done|]. cbn. congruence.
Qed.

Lemma release_all_ok now time s : held_inv s -> held_inv (call now time CallReleaseAll s).
Proof.
  intros (Hp & Hk & Hb & Htk & Htp & Hf). unfold call.
  assert (exists k d, keyboard_release_all now time (kb s) (disp s) = (k, d) /\
    keys k = nothing_held /\ Forall proper (pipeline d) /\ told d Keyboard_ ∅ /\
    told d Pointer_ (injected_held_ (buttons (ptr s))) /\
    (worker_ d = WFailed -> transport_failed_ d = true)) as (k & d & -> & Hkn & Hp1 & Htk1 & Htp1 & Hf1).
  { unfold keyboard_release_all. destruct (bool_decide _) eqn:E.
    - apply bool_decide_eq_true in E. rewrite E in Htk. eexists _, _. split; [done|]. done.
    - unfold sink_submit, dispatcher_sink. destruct (submit _ _ (disp s)) as [d ok] eqn:Es.
      destruct (submit_worker _ _ _ _ _ Es) as [Hw1 Hw2].
      destruct (forced_ok _ _ _ _ _ _ _ _ Hp Htk Es) as (? & ? & Hother).
      eexists _, _. split; [done|]. split_and!; [done..|by apply Hother|]. rewrite Hw2. auto. }
  unfold pointer_release_all. destruct (bool_decide _) eqn:E.
  - apply bool_decide_eq_true in E. rewrite E in Htp1. unfold held_inv; cbn; split_and!; rewrite ?Hkn; done.
  - unfold sink_submit, dispatcher_sink. destruct (submit _ _ d) as [d2 ok] eqn:Es.
    destruct (submit_worker _ _ _ _ _ Es) as [Hw1 Hw2].
    destruct (forced_ok _ _ _ _ _ _ _ _ Hp1 Htp1 Es) as (? & ? & Hother).
    unfold held_inv; cbn; split_and!; rewrite ?Hkn; try done; [by apply Hother|]. rewrite Hw2. auto.
Qed.

Lemma call_ok now time c s : held_inv s -> held_inv (call now time c s).
Proof.
  intros Hs. destruct c as [c p r|x y|x y|c p|v h|].
  - by apply key_ok.
  - unfold call, absolute, sink_submit, dispatcher_sink. destruct (submit _ _ _) as [d ok] eqn:Es.
    eapply pointer_neutral_ok; [done| |exact Es|done]. by intros s'.
  - unfold call, relative. destruct (_ && _); [by destruct s|]. unfold sink_submit, dispatcher_sink.
    destruct (submit _ _ _) as [d ok] eqn:Es. eapply pointer_neutral_ok; [done| |exact Es|done].
    intros s'. apply deltas_neutral.
  - by apply button_ok.
  - unfold call, wheel. destruct (_ && _); [by destruct s|]. unfold sink_submit, dispatcher_sink.
    destruct (submit _ _ _) as [d ok] eqn:Es. eapply pointer_neutral_ok; [done| |exact Es|done].
    intros s'. apply deltas_neutral.
  - by apply release_all_ok.
Qed.

Lemma held_input s d : held_inv s -> Forall proper (pipeline d) ->
  (clean d -> clean (disp s) /\ forall st, run st (pipeline d) ∅ = run st (pipeline (disp s)) ∅) ->
  (worker_ d = WFailed -> transport_failed_ d = true) -> held_inv (Input (kb s) (ptr s) d).
Proof.
  intros (Hp & Hk & Hb & Htk & Htp & Hf) Hp' Hc Hf'. unfold held_inv; cbn; split_and!; try done;
    intros Hcd; destruct (Hc Hcd) as [Hc0 ->]; auto.
Qed.

Lemma stale_neutral now b : proper b -> stale_state now b = true -> neutral b.
Proof. intros Hb Hs. apply Hb. apply andb_prop in Hs as [_ Hk]. by destruct (kind b). Qed.

Lemma work_ok s d : held_inv s -> work (disp s) d -> held_inv (Input (kb s) (ptr s) d).
Proof.
  intros Hs Hw. pose proof Hs as (Hp & _). apply held_input; [done| | |];
    destruct Hw as [d Hwk Hr|d Hwk Hq Hst|d b q Hwk Hq|d b now Hwk Hst|d b now Hwk Hst|d b now Hwk Hst];
    try done; revert Hp; unfold pipeline, in_flight, clean, with_worker; cbn; rewrite Hwk, ?Hq; cbn; intros Hp;
    rewrite ?Forall_app, ?Forall_cons in *; try (by intuition idtac).
  - destruct Hp as (Hp & Hb & Hq). intros Hc. split; [done|]. intros st.
    symmetry. apply run_remove. by eapply stale_neutral.
  - intros Hc. split; [done|]. intros st. by rewrite <- app_assoc.
Qed.
Lemma wake_ok s d : held_inv s -> pipeline d = pipeline (disp s) ->
  (clean d -> clean (disp s)) -> (worker_ d = WFailed -> worker_ (disp s) = WFailed /\ transport_failed_ d = transport_failed_ (disp s)) ->
  held_inv (Input (kb s) (ptr s) d).
Proof.
  intros Hs Hq Hc Hw. pose proof Hs as (Hp & _ & _ & _ & _ & Hf). apply held_input; [done|by rewrite Hq| |].
  - intros H. split; [by apply Hc|]. by rewrite Hq.
  - intros H. destruct (Hw H) as [H1 ->]. auto.
Qed.

Lemma input_step_ok s s' : held_inv s -> input_step s s' -> held_inv s'.
Proof.
  intros Hs Hst. destruct Hst as [s now time c|s d Hw|s Hw|s Hw|s].
  - by apply call_ok.
  - by apply work_ok.
  - apply wake_ok; [done|..|done]; unfold pipeline, in_flight; cbn; [by rewrite Hw|done].
  - pose proof Hs as (Hp & _ & _ & _ & _ & Hf). unfold held_inv; cbn. split_and!; try done.
    + revert Hp. unfold pipeline, in_flight. cbn. by rewrite Hw.
    + intros [H _]. cbn in H. by rewrite Hf in H.
    + intros [H _]. cbn in H. by rewrite Hf in H.
  - apply wake_ok; [done|..]; unfold pipeline, in_flight, clean; cbn; [by destruct (worker_ _)|done|by destruct (worker_ _)].
Qed.

Lemma held_init f c r : held_inv (input_init f c r).
Proof. unfold held_inv. split_and!; try done; cbn; constructor. Qed.

(** * Lemmas: the queue *)

(** The releases queued. *)
Definition releases (q : list batch) : list batch := filter (fun b => is_release b = true) q.
Definition others (q : list batch) : list batch := filter (fun b => is_release b = false) q.

Definition sequences (bs : list batch) : list Z := transport_sequence <$> bs.
Definition increasing (l : list Z) : Prop := StronglySorted Z.lt l.

(** Batches that may be dropped for room release nothing. *)
Definition plain (b : batch) : Prop := droppable b = true -> is_release b = false.

Record queue_inv (d : dispatcher) : Prop := {
  q_cap : (1 <= capacity_ d)%nat /\ (release_reserve_ d <= capacity_ d)%nat;
  q_length : (length (queue_ d) <= capacity_ d)%nat;
  q_others : (length (others (queue_ d)) <= capacity_ d - release_reserve_ d)%nat;
  q_plain : Forall plain (queue_ d);
  q_count : d_submitted (stats d) = next_sequence_ d /\ d_delivered (stats d) = Z.of_nat (length (delivered d));
  q_total : d_submitted (stats d) =
    d_delivered (stats d) + d_dropped (stats d) + d_coalesced (stats d) + d_failures (stats d) +
    Z.of_nat (length (in_flight d)) + Z.of_nat (length (queue_ d));
  q_order : increasing (sequences (pipeline d) ++ [next_sequence_ d + 1]);
  q_depth : Z.of_nat (length (queue_ d)) <= d_depth (stats d) <= Z.of_nat (capacity_ d);
  q_awake : worker_ d = WWaiting true -> ready d = false
}.

Lemma increasing_remove a b c : increasing (a ++ b ++ c) -> increasing (a ++ c).
Proof.
  unfold increasing. induction a as [|x a IH]; simpl.
  - induction b as [|y b IHb]; simpl; [done|]. intros H. apply IHb. by inversion H.
  - intros H. inversion H as [|? ? H1 H2]; subst. constructor; [by apply IH|].
    rewrite !Forall_app in *. tauto.
Qed.
Lemma increasing_last a x y : increasing (a ++ [x]) -> x < y -> increasing (a ++ [x; y]).
Proof.
  unfold increasing. induction a as [|z a IH]; simpl; intros H Hxy.
  - by repeat constructor.
  - inversion H as [|? ? H1 H2]; subst. constructor; [by apply IH|].
    rewrite !Forall_app, !Forall_cons in *. intuition lia.
Qed.

Lemma increasing_admit p x y z n :
  increasing ((p ++ x ++ y ++ z) ++ [n]) -> increasing ((p ++ (x ++ z) ++ [n]) ++ [n + 1]).
Proof.
  intros H. assert (increasing ((p ++ x ++ z) ++ [n])) as H1.
  { rewrite <- !app_assoc in *. rewrite app_assoc in *. by eapply increasing_remove. }
  apply (increasing_last _ _ (n + 1)) in H1; [|lia]. by rewrite <- !app_assoc in *.
Qed.

Lemma length_split q : length q = (length (releases q) + length (others q))%nat.
Proof.
  unfold releases, others. induction q as [|b q IH]; [done|]. rewrite !filter_cons.
  destruct (is_release b) eqn:E; repeat case_decide; simpl; try done; rewrite IH; lia.
Qed.
Lemma others_app a b : others (a ++ b) = others a ++ others b.
Proof. apply filter_app. Qed.
Lemma others_one b : others [b] = if is_release b then [] else [b].
Proof. unfold others. rewrite filter_cons. destruct (is_release b) eqn:E; case_decide; done. Qed.

Lemma queue_admit d q b st w :
  queue_inv d -> plain b -> transport_sequence b = next_sequence_ d + 1 ->
  (exists x y z, queue_ d = x ++ y ++ z /\ q = x ++ z /\ Forall (fun c => is_release c = false) y /\
     d_submitted st = d_submitted (stats d) + 1 /\ d_delivered st = d_delivered (stats d) /\
     d_failures st = d_failures (stats d) /\
     d_depth st = Z.max (d_depth (stats d)) (Z.of_nat (S (length q))) /\
     d_dropped st + d_coalesced st = d_dropped (stats d) + d_coalesced (stats d) + Z.of_nat (length y) /\
     (if is_release b then True else 1 <= length y \/ length (queue_ d) < capacity_ d - release_reserve_ d)%nat /\
     (1 <= length y \/ length (queue_ d) < capacity_ d)%nat) ->
  worker_ d = w \/ w = wake (worker_ d) ->
  (w = WWaiting true -> queue_ d <> []) ->
  queue_inv (with_queue (numbered d) (q ++ [b]) st w).
Proof.
  intros Hi Hb Hseq (x & y & z & Hq & -> & Hy & Hst1 & Hst2 & Hst3 & Hst4 & Hsum & Hlim & Hcap) Hw Hwk.
  assert (in_flight (with_queue (numbered d) ((x ++ z) ++ [b]) st w) = in_flight d) as Hfl.
  { destruct Hw as [<-| ->]; [done|]. unfold in_flight. cbn. by destruct (worker_ d). }
  pose proof (length_split x) as Hlx. pose proof (length_split z) as Hlz. pose proof (length_split y) as Hly.
  assert (releases y = []) as Hry.
  { unfold releases. clear -Hy. induction Hy as [|c y Hc _ IH]; [done|]. rewrite filter_cons, decide_False by congruence. done. }
  rewrite Hry in Hly. simpl in Hly.
  destruct Hi as [H1 H2 H3 H4 H5 H6 H7 H8 H9]. rewrite Hq in *.
  rewrite !others_app, !length_app in *. cbn in *.
  split; rewrite ?Hfl; cbn; rewrite ?others_app, ?others_one, ?length_app; cbn.
  - done.
  - lia.
  - destruct (is_release b); simpl; lia.
  - rewrite !Forall_app in *. rewrite Forall_singleton. tauto.
  - lia.
  - lia.
  - unfold pipeline. rewrite Hfl. cbn. unfold pipeline, sequences in *. rewrite Hq in H7.
    rewrite !fmap_app in *. cbn. rewrite Hseq. rewrite <- !app_assoc in *. cbn in *.
    pose proof (increasing_admit ((transport_sequence <$> delivered d) ++ (transport_sequence <$> in_flight d))
      (transport_sequence <$> x) (transport_sequence <$> y) (transport_sequence <$> z) (next_sequence_ d + 1)) as Ha.
    rewrite <- !app_assoc in Ha. by apply Ha.
  - lia.
  - intros ->. exfalso. destruct Hw as [Hw|Hw]; [|by destruct (worker_ d)].
    specialize (H9 Hw). unfold ready in H9. rewrite Hq in H9. specialize (Hwk eq_refl).
    destruct (x ++ y ++ z); [done|]. by rewrite orb_true_r in H9.
Qed.

Lemma submit_queue now b d d' ok : queue_inv d -> plain b -> submit now b d = (d', ok) -> queue_inv d'.
Proof.
  intros Hi Hb Hs. destruct (submit_cases now b d d' ok Hs) as
    [(He & -> & ->)|[(He & _ & -> & ->)|(He & _ & [(-> & Hc & ->)|[(-> & Hl & ->)|[(-> & x & y & z & Hq & Hy & ->)|(-> & Hl & Hd & ->)]]])]].
  - done.
  - by destruct Hi; split.
  - pose proof Hc as (Hk & a & t & Hq & Ht & ->)%coalesces_spec.
    assert (is_release t = false) as Hrt.
    { destruct Hi as [_ _ _ Hp _ _ _ _ _]. rewrite Hq, Forall_app, Forall_singleton in Hp. apply Hp. unfold droppable. by rewrite Ht. }
    apply queue_admit; [done|exact Hb|done| |by left|].
    + exists a, [t], []. rewrite !app_nil_r. cbn. split_and!; try done; try lia.
      * by apply Forall_singleton.
      * destruct Hi as [_ _ _ _ _ _ _ Hd _]. rewrite Hq, length_app in Hd. simpl in Hd. lia.
      * destruct (is_release (stamped _ _ _)); [done|lia].
    + intros _. rewrite Hq. by destruct a.
  - apply queue_admit; [done|exact Hb|done| |by right|by destruct (worker_ d)].
    exists (queue_ d), [], []. rewrite !app_nil_r. cbn. destruct Hi.
    split_and!; try done; try lia; [destruct (is_release _); [done|lia]|destruct (is_release _); lia].
  - apply queue_admit; [done|exact Hb|done| |by right|by destruct (worker_ d)].
    exists x, [y], z. cbn. split_and!; try done; try lia.
    + apply Forall_singleton. destruct Hi as [_ _ _ Hp _ _ _ _ _]. rewrite Hq, Forall_app, Forall_cons in Hp. by apply Hp.
    + rewrite Hq. len. lia.
    + destruct (is_release _); [done|lia].
  - destruct Hi as [H1 H2 H3 H4 H5 H6 H7 H8 H9]. split; cbn; try done; try lia.
    + change (in_flight _) with (in_flight d). lia.
    + change (pipeline _) with (pipeline d).
      apply (increasing_last _ _ (next_sequence_ d + 1 + 1)) in H7; [|lia].
      change [next_sequence_ d + 1; next_sequence_ d + 1 + 1] with ([next_sequence_ d + 1] ++ [next_sequence_ d + 1 + 1]) in H7.
      by eapply increasing_remove.
Qed.

(** Every call only submits plain batches. *)
Section calls.
Context (P : dispatcher -> Prop)
  (submit_P : forall now b d d' ok, P d -> plain b -> submit now b d = (d', ok) -> P d').

Lemma press_P now mk c h d h' d' ok dup : (forall v, plain (mk v)) -> P d ->
  press now mk c h d = (h', d', ok, dup) -> P d'.
Proof.
  intros Hmk Hp. unfold press, sink_submit, dispatcher_sink. case_match; [by intros [= <- <- <- <-]|].
  destruct (submit _ _ _) as [d1 o] eqn:Es. intros [= _ <- _ _]. by eapply submit_P.
Qed.
Lemma release_P now mk c h d h' d' ok dup : (forall v, plain (mk v)) -> P d ->
  release now mk c h d = (h', d', ok, dup) -> P d'.
Proof.
  intros Hmk Hp. unfold release, sink_submit, dispatcher_sink. case_match; [by intros [= <- <- <- <-]|].
  case_match; [by intros [= <- <- <- <-]|].
  destruct (submit _ _ _) as [d1 o] eqn:Es. intros [= _ <- _ _]. by eapply submit_P.
Qed.
Lemma press_or_release_P (p : bool) now mk c h d h' d' ok dup : (forall v, plain (mk v)) -> P d ->
  (if p then press else release) now mk c h d = (h', d', ok, dup) -> P d'.
Proof. destruct p; [apply press_P|apply release_P]. Qed.

Lemma deltas_plain k c1 v1 c2 v2 seq time : k = Motion \/ k = Wheel ->
  plain (EventBatch Pointer_ k (deltas c1 v1 c2 v2) seq 0 time 0).
Proof.
  intros [-> | ->] _; unfold is_release, deltas; cbn [kind events];
    rewrite !existsb_app; by destruct (v1 =? 0), (v2 =? 0).
Qed.

Lemma call_P now time c s : P (disp s) -> P (disp (call now time c s)).
Proof.
  intros Hp. destruct c as [c p r|x y|x y|c p|v h|]; unfold call.
  - unfold key. destruct (c =? KEY_RESERVED); [done|]. destruct r.
    + destruct (_ || _); [done|]. unfold sink_submit, dispatcher_sink.
      destruct (submit _ _ _) as [d ok] eqn:Es. eapply submit_P; [exact Hp| |exact Es]. by intros _.
    + destruct ((if p then _ else _) _ _ _ _ _) as [[[h d] ok] dup] eqn:E.
      eapply press_or_release_P; [|exact Hp|exact E]. done.
  - unfold absolute, sink_submit, dispatcher_sink. destruct (submit _ _ _) as [d ok] eqn:Es.
    eapply submit_P; [exact Hp| |exact Es]. by intros _.
  - unfold relative. destruct (_ && _); [done|]. unfold sink_submit, dispatcher_sink.
    destruct (submit _ _ _) as [d ok] eqn:Es. eapply submit_P; [exact Hp| |exact Es]. apply deltas_plain. by left.
  - unfold button. destruct ((if p then _ else _) _ _ _ _ _) as [[[h d] ok] dup] eqn:E.
    eapply press_or_release_P; [|exact Hp|exact E]. done.
  - unfold wheel. destruct (_ && _); [done|]. unfold sink_submit, dispatcher_sink.
    destruct (submit _ _ _) as [d ok] eqn:Es. eapply submit_P; [exact Hp| |exact Es]. apply deltas_plain. by right.
  - unfold keyboard_release_all, pointer_release_all, sink_submit, dispatcher_sink.
    assert (forall st seq held, plain (forced_release st seq time held)) as Hf by done.
    destruct (bool_decide (injected_held_ (keys _) = _)).
    + destruct (bool_decide _); [done|]. destruct (submit _ _ _) as [d ok] eqn:Es. by eapply submit_P.
    + destruct (submit _ _ _) as [d ok] eqn:Es. assert (P d) by (by eapply submit_P).
      destruct (bool_decide _); [done|]. destruct (submit _ _ d) as [d2 ok2] eqn:Es2. by eapply submit_P.
Qed.
End calls.

Lemma work_queue d d' : queue_inv d -> work d d' -> queue_inv d'.
Proof.
  intros Hi Hw. destruct Hi as [H1 H2 H3 H4 H5 H6 H7 H8 H9].
  destruct Hw as [d Hwk Hr|d Hwk Hq Hst|d b q Hwk Hq|d b now Hwk Hst|d b now Hwk Hst|d b now Hwk Hst];
    unfold pipeline, in_flight, sequences in *; cbn in *; rewrite Hwk in *; cbn in *;
    (split; unfold pipeline, in_flight, sequences; cbn in *; try done; try lia).
  - rewrite Hq in *. simpl in *. lia.
  - rewrite Hq in *. unfold others in *. rewrite filter_cons in H3. case_decide; simpl in *; lia.
  - rewrite Hq in *. by inversion H4.
  - rewrite Hq in *. simpl in *. lia.
  - rewrite Hq in *. by rewrite fmap_app in *.
  - rewrite Hq in *. simpl in *. lia.
  - rewrite fmap_app in *. cbn in H7. rewrite <- app_assoc in *. cbn in H7.
    by apply (increasing_remove _ [transport_sequence b]).
  - len. simpl. lia.
  - rewrite <- app_assoc. done.
  - rewrite fmap_app in *. cbn. cbn in H7. rewrite app_nil_r.
    rewrite <- app_assoc in H7. by eapply increasing_remove.
Qed.

Lemma queue_step s s' : queue_inv (disp s) -> input_step s s' -> queue_inv (disp s').
Proof.
  intros Hi Hst. destruct Hst as [s now time c|s d Hw|s Hw|s Hw|s]; cbn.
  - apply call_P; [|done]. intros. by eapply submit_queue.
  - by eapply work_queue.
  - destruct Hi; split; unfold pipeline, in_flight in *; cbn; rewrite ?Hw in *; done.
  - destruct Hi; split; unfold pipeline, in_flight in *; cbn; rewrite ?Hw in *; done.
  - destruct Hi; split; unfold pipeline, in_flight in *; cbn; try done; by destruct (worker_ (disp s)).
Qed.

Lemma queue_init f c r : queue_inv (disp (input_init f c r)).
Proof. split; cbn; try done; try lia; by repeat constructor. Qed.

(** What is left of the worker's work. *)
Definition work_left (d : dispatcher) : nat :=
  (2 * length (queue_ d) +
   match worker_ d with WWaiting false => 1 | WTaken _ => 2 | _ => 0 end)%nat.

Lemma work_decreases d d' : work d d' -> (work_left d' < work_left d)%nat.
Proof.
  intros [? Hw Hr|? Hw Hq Hst|? b q Hw Hq|? b now Hw Hst|? b now Hw Hst|? b now Hw Hst];
    unfold work_left; cbn; rewrite Hw, ?Hq; simpl; lia.
Qed.

(** The worker stops only with nothing left, or to report a failure. *)
Lemma work_progress d : queue_inv d -> (forall d', ~ work d d') ->
  worker_ d = WFailed \/ worker_ d = WExited \/ (drained d = true /\ worker_ d = WWaiting true).
Proof.
  intros Hi Hn. destruct (worker_ d) as [[]|b| |] eqn:Hw; [|exfalso..|by left|by right; left].
  - right; right. pose proof (q_awake d Hi Hw) as Hr. unfold ready, drained in *. rewrite Hw.
    destruct (queue_ d); [done|]. by rewrite orb_true_r in Hr.
  - destruct (queue_ d) as [|b q] eqn:Hq; [|by eapply Hn; eapply work_take].
    destruct (stopping_ d) eqn:Hs; [by eapply Hn; apply work_exit|].
    eapply Hn. apply work_sleep; [done|]. unfold ready. by rewrite Hq, Hs.
  - destruct (stale_state 0 b) eqn:Hs; [by eapply Hn; eapply work_stale|by eapply Hn; eapply work_delivered].
Qed.

Definition limits (c r : nat) (d : dispatcher) : Prop := capacity_ d = c /\ release_reserve_ d = r.
Lemma submit_limits c r now b d d' ok : limits c r d -> submit now b d = (d', ok) -> limits c r d'.
Proof.
  intros Hl Hs. destruct (submit_cases now b d d' ok Hs) as
    [(He & -> & ->)|[(He & _ & -> & ->)|(He & _ & [(-> & Hc & ->)|[(-> & _ & ->)|[(-> & x & y & z & Hq & Hy & ->)|(-> & _ & _ & ->)]]])]];
    done.
Qed.
Lemma limits_step c r s s' : limits c r (disp s) -> input_step s s' -> limits c r (disp s').
Proof.
  intros Hl Hst. destruct Hst as [s now time a|s d Hw|s Hw|s Hw|s]; try done.
  - apply call_P; [|done]. intros. by eapply submit_limits.
  - by destruct Hw.
Qed.

Lemma reachable_input f c r s : rtc input_step (input_init f c r) s ->
  held_inv s /\ queue_inv (disp s) /\ limits (1 `max` c) (r `min` (1 `max` c)) (disp s).
Proof.
  intros H. pattern s. revert s H. apply rtc_ind_r.
  - split_and!; [apply held_init|apply queue_init|done].
  - intros s s' _ Hst (H1 & H2 & H3).
    split_and!; [by eapply input_step_ok|by eapply queue_step|by eapply limits_step].
Qed.

Lemma work_steps n d d' : queue_inv d -> nsteps work n d d' -> queue_inv d' /\ (n <= work_left d)%nat.
Proof.
  intros Hi H. revert Hi. induction H as [d|n d d1 d' Hw _ IH]; intros Hi; [split; [done|lia]|].
  destruct IH as [H1 H2]; [by eapply work_queue|]. split; [done|]. apply work_decreases in Hw. lia.
Qed.

Lemma released_all now time s :
  injected_held_ (keys (kb (call now time CallReleaseAll s))) = ∅ /\
  injected_held_ (buttons (ptr (call now time CallReleaseAll s))) = ∅.
Proof.
  unfold call, keyboard_release_all, pointer_release_all.
  destruct (bool_decide (injected_held_ (keys _) = _));
    repeat (destruct (sink_submit _ _ _) as [? ?]); destruct (bool_decide _);
    repeat (destruct (sink_submit _ _ _) as [? ?]); done.
Qed.

Lemma drop_one_None q : drop_one q = None -> Forall (fun c => droppable c = false) q.
Proof.
  induction q as [|b q IH]; [constructor|]. simpl. destruct (droppable b) eqn:E; [done|].
  intros H. constructor; [done|]. apply IH. by destruct (drop_one q).
Qed.

Lemma refused_release now b d d' : queue_inv d -> is_release b = true -> submit now b d = (d', false) ->
  stopping_ d = true \/ transport_failed_ d = true \/
  (length (queue_ d) = capacity_ d /\ Forall (fun c => droppable c = false) (queue_ d) /\
   release_reserve_ d <= length (releases (queue_ d)))%nat.
Proof.
  intros Hq Hr Hs. destruct (submit_cases now b d d' false Hs) as
    [(_ & _ & ?)|[(_ & Ho & _)|(_ & _ & [(? & _)|[(? & _)|[(? & _)|(_ & Hl & Hd & _)]]])]]; try done.
  - apply orb_true_iff in Ho. tauto.
  - rewrite is_release_stamped, Hr in Hl. destruct Hq as [? ? ? _ _ _ _ _ _].
    right; right. split; [lia|]. split; [by apply drop_one_None|].
    pose proof (length_split (queue_ d)). lia.
Qed.

(** * Theorems *)

(** C27: Whatever the order of the host's events, the worker's progress,
    failures and stops: the guest holds only what the host holds. While the
    transport works and no release was refused, each device has been told
    (counting what is still queued) exactly the keys or buttons its state
    machine records as injected, and never a release of a key that is not
    held or a second press; once the queue is drained this is what the
    devices took. A release is refused only when the dispatcher is stopped,
    the transport has failed, or the queue is full of batches that must not
    be dropped, the reserve of them releases. After [release_all] nothing is
    held. *)
Theorem input_keys fwd capacity reserve s :
  rtc input_step (input_init fwd capacity reserve) s ->
  let k := keys (kb s) in let p := buttons (ptr s) in let d := disp s in
  (injected_held_ k ⊆ host_held_ k /\ injected_held_ p ⊆ host_held_ p) /\
  (clean d ->
     run Keyboard_ (pipeline d) ∅ = Some (injected_held_ k) /\
     run Pointer_ (pipeline d) ∅ = Some (injected_held_ p) /\
     (drained d = true ->
        run Keyboard_ (delivered d) ∅ = Some (injected_held_ k) /\
        run Pointer_ (delivered d) ∅ = Some (injected_held_ p))) /\
  (forall now b d', is_release b = true -> submit now b d = (d', false) ->
     stopping_ d = true \/ transport_failed_ d = true \/
     (length (queue_ d) = capacity_ d /\ Forall (fun c => droppable c = false) (queue_ d) /\
      release_reserve_ d <= length (releases (queue_ d)))%nat) /\
  (forall now time, let s' := call now time CallReleaseAll s in clean (disp s') ->
     run Keyboard_ (pipeline (disp s')) ∅ = Some ∅ /\ run Pointer_ (pipeline (disp s')) ∅ = Some ∅).
Proof.
  intros H. destruct (reachable_input _ _ _ _ H) as (Hs & Hq & _).
  pose proof Hs as (Hp & Hk & Hb & Htk & Htp & _). cbn. split; [by split|]. split; [|split].
  - intros Hc. split; [by apply Htk|]. split; [by apply Htp|]. intros Hd.
    assert (pipeline (disp s) = delivered (disp s)) as <-; [|by split; [apply Htk|apply Htp]].
    revert Hd. unfold drained, pipeline, in_flight.
    destruct (queue_ _), (worker_ _); try done; by rewrite app_nil_r.
  - intros now b d' Hr Hsub. by eapply refused_release.
  - intros now time Hc. pose proof (released_all now time s) as [H1 H2].
    pose proof (call_ok now time CallReleaseAll s Hs) as (_ & _ & _ & Hk' & Hp' & _).
    rewrite H1 in Hk'. rewrite H2 in Hp'. split; [by apply Hk'|by apply Hp'].
Qed.

(** C28: The dispatcher's queue, for every interleaving of callers, worker and
    failure handler: every accepted number is delivered, dropped, coalesced,
    failed, in flight or queued, exactly once; the queue never exceeds its
    capacity and batches that release nothing never enter the reserve;
    batches are delivered in the order of submission, each at most once; the
    worker never sleeps while there is work (no lost wake-up), and left alone
    it ends after a bounded number of steps, with everything drained unless
    it failed or exited. *)
Theorem input_dispatcher fwd capacity reserve s :
  rtc input_step (input_init fwd capacity reserve) s ->
  let d := disp s in let st := stats d in
  (d_submitted st = next_sequence_ d /\ d_delivered st = Z.of_nat (length (delivered d)) /\
   d_submitted st = d_delivered st + d_dropped st + d_coalesced st + d_failures st +
     Z.of_nat (length (in_flight d)) + Z.of_nat (length (queue_ d))) /\
  (capacity_ d = 1 `max` capacity /\ release_reserve_ d = reserve `min` capacity_ d /\
   length (queue_ d) <= capacity_ d /\ length (others (queue_ d)) <= capacity_ d - release_reserve_ d)%nat /\
  Z.of_nat (length (queue_ d)) <= d_depth st <= Z.of_nat (capacity_ d) /\
  increasing (sequences (pipeline d)) /\
  (worker_ d = WWaiting true -> queue_ d = [] /\ stopping_ d = false) /\
  (forall n d', nsteps work n d d' ->
     (n <= 2 * length (queue_ d) + 2)%nat /\
     ((forall d'', ~ work d' d'') ->
        worker_ d' = WFailed \/ worker_ d' = WExited \/ (drained d' = true /\ worker_ d' = WWaiting true))).
Proof.
  intros H. destruct (reachable_input _ _ _ _ H) as (_ & Hq & Hl1 & Hl2).
  pose proof Hq as [H1 H2 H3 H4 [H5 H5'] H6 H7 H8 H9]. cbn. split_and!; try done; try lia.
  - rewrite <- app_nil_r. apply (increasing_remove _ [next_sequence_ (disp s) + 1]). by rewrite app_nil_r.
  - intros Hw. specialize (H9 Hw). unfold ready in H9. destruct (stopping_ _); [done|]. by destruct (queue_ _).
  - intros n d' Hn. destruct (work_steps _ _ _ Hq Hn) as [Hq' Hle]. split; [|by apply work_progress].
    unfold work_left in Hle. destruct (worker_ _) as [[]|?| |]; lia.
Qed.

(** ** A press and its delivery *)

Definition pressed : input := call 1 1 (CallKey 30 true false) (input_init false 4 1).
Definition taken : input :=
  Input (kb pressed) (ptr pressed) (with_queue (disp pressed) [] (stats (disp pressed))
    (match queue_ (disp pressed) with b :: _ => WTaken b | [] => WExited end)).
Definition told_press : input :=
  Input (kb taken) (ptr taken)
    (match worker_ (disp taken) with WTaken b => finish_delivery (disp taken) b | _ => disp taken end).

Lemma told_press_reachable : rtc input_step (input_init false 4 1) told_press.
Proof.
  eapply rtc_l; [apply (step_call _ 1 1 (CallKey 30 true false))|]. fold pressed.
  eapply rtc_l; [apply step_work; by eapply work_take|]. fold taken.
  eapply rtc_once, (step_work taken). by eapply (work_delivered _ _ 1).
Qed.

Lemma input_keys_witness : rtc input_step (input_init false 4 1) told_press /\
  clean (disp told_press) /\ drained (disp told_press) = true /\
  injected_held_ (keys (kb told_press)) = {[30]} /\
  run Keyboard_ (delivered (disp told_press)) ∅ = Some (injected_held_ (keys (kb told_press))).
Proof.
  assert (clean (disp told_press)) as Hc by (split; [done|constructor]).
  split_and!; [apply told_press_reachable|done|done|by vm_compute|].
  by apply (input_keys false 4 1 told_press told_press_reachable).
Defined.

Lemma input_dispatcher_witness : rtc input_step (input_init false 4 1) told_press /\
  d_submitted (stats (disp told_press)) = 1 /\ increasing (sequences (pipeline (disp told_press))).
Proof.
  split; [apply told_press_reachable|]. split; [by vm_compute|].
  apply (input_dispatcher false 4 1 told_press told_press_reachable).
Defined.

(** ** What is lost *)

(** Two relative motions that wait together: the first delta is gone. *)
Lemma relative_motion_lost :
  let s := call 2 2 (CallRelative 3 0) (call 1 1 (CallRelative 5 0) (input_init false 4 1)) in
  events <$> queue_ (disp s) = [[Event EV_REL REL_X 3; syn_report]] /\ d_coalesced (stats (disp s)) = 1.
Proof. by vm_compute. Qed.

(** A refused release is forgotten: the guest keeps the key down. *)
Lemma refused_release_forgotten :
  let s := call 2 2 (CallKey 30 false false) (call 1 1 (CallKey 30 true false) (input_init false 1 0)) in
  run Keyboard_ (pipeline (disp s)) ∅ = Some {[30]} /\
  injected_held_ (keys (kb s)) = ∅ /\ host_held_ (keys (kb s)) = ∅.
Proof. by vm_compute. Qed.

(** After a failed delivery both state machines forget what is held, and no
    later batch is accepted: a device that still works keeps the key down. *)
Lemma failure_forgets_held : exists s, rtc input_step (input_init false 4 1) s /\
  run Keyboard_ (delivered (disp s)) ∅ = Some {[30]} /\
  injected_held_ (keys (kb s)) = ∅ /\ transport_failed_ (disp s) = true.
Proof.
  set (s1 := call 3 3 (CallButton 272 true) told_press).
  set (b := match queue_ (disp s1) with b :: _ => b | [] => EventBatch Pointer_ Key [] 0 0 0 0 end).
  set (s2 := Input (kb s1) (ptr s1) (with_queue (disp s1) [] (stats (disp s1)) (WTaken b))).
  set (s3 := Input (kb s2) (ptr s2) (fail_delivery (disp s2))).
  eexists. split.
  - etrans; [apply told_press_reachable|].
    eapply rtc_l; [apply (step_call _ 3 3 (CallButton 272 true))|]. fold s1.
    eapply rtc_l; [apply (step_work s1); by eapply work_take|]. fold b s2.
    eapply rtc_l; [apply (step_work s2); by eapply (work_failed _ b 3)|]. fold s3.
    by eapply rtc_once, (step_handler s3).
  - by vm_compute.
Qed.
