(* ===== verification/Device.v ===== *)
(** An input device of the host (input/device.cpp): the capability masks and
    the set-up of the uinput device, and the delivery of events as 24 byte
    records, to the uinput device and to the connected legacy clients. *)

From stdpp Require Import functions.
From S2P Require Import Prelude Input.

Local Open Scope Z_scope.

(** * Events as records *)

(** [CompatEvent]: the [input_event] of a 64 bit container. *)
Definition compat_event (now : Z) (e : event) : bytes :=
  le_bytes 8 (now `div` 1000000000) ++ le_bytes 8 (now `mod` 1000000000 `div` 1000) ++
  le_bytes 2 (type e) ++ le_bytes 2 (code e) ++ le_bytes 4 (u32 (value e)).
Definition sizeof_compat_event : nat := 24.
Definition encode_events (now : Z) (es : list event) : bytes := concat (compat_event now <$> es).

(** What a reader of the device makes of it. *)
Definition read_record (l : bytes) : event :=
  Event (le_value (take 2 (drop 16 l))) (le_value (take 2 (drop 18 l)))
    (i32 (le_value (take 4 (drop 20 l)))).
Definition record_time (l : bytes) : Z :=
  le_value (take 8 l) * 1000000 + le_value (take 8 (drop 8 l)).
Fixpoint read_records (fuel : nat) (l : bytes) : list event :=
  match fuel with
  | O => []
  | S fuel' =>
      if (length l <? sizeof_compat_event)%nat then []
      else read_record (take sizeof_compat_event l) :: read_records fuel' (drop sizeof_compat_event l)
  end.

(** * Capabilities *)

(** The masks of [Info], with their event type and their ioctl. *)
Inductive mask := KeyMask | AbsMask | RelMask | SwMask | LedMask | FfMask | PropMask.
#[global] Instance mask_eq_dec : EqDecision mask.
Proof. solve_decision. Defined.
Definition EV_SW : Z := 5.
Definition EV_LED : Z := 17.
Definition EV_FF : Z := 21.

Record id_info := InputId { bustype : Z; vendor : Z; product : Z; version : Z }.

(** [Info]; a bit mask is the list of its bytes' values. *)
Record device_info := Info {
  dev_name : bytes;
  driver_version : Z;
  dev_id : id_info;
  physical_location : bytes;
  unique_id : bytes;
  masks : mask -> list Z;
  abs_max : list Z;
  abs_min : list Z
}.

(** The requests made of /dev/uinput. *)
Inductive request :=
  | SetEvBit (ev : Z)
  | SetBit (k : mask) (bit : Z)
  | SetPhys (s : bytes)
  | WriteUserDev (name : bytes) (id : id_info) (absmin absmax : list Z)
  | DevCreate
  | GetSysname
  | DevDestroy.

(** What the kernel was asked: a request on a descriptor, or to close it. *)
Inductive kernel_call := Request (fd : Z) (r : request) | CloseFd (fd : Z).

Record device := Device {
  info_ : device_info;
  uinput_fd_ : option Z;            (* None: negative *)
  uinput_event_path_ : bytes;
  written : bytes;                  (* what the device was given *)
  kernel_calls : list kernel_call   (* what was asked of the kernel *)
}.

(** The highest bit of each mask is the kernel's. *)
Section kernel.
Context (max_bit : mask -> Z).

Definition mask_size (k : mask) : nat := Z.to_nat ((max_bit k + 1) `div` 8).
Definition ABS_CNT : nat := Z.to_nat (max_bit AbsMask + 1).

(** [Device::Device] zeroes the whole of [info_]. *)
Definition device_init : device :=
  Device (Info [] 0 (InputId 0 0 0 0) [] [] (fun k => replicate (mask_size k) 0)
            (replicate ABS_CNT 0) (replicate ABS_CNT 0)) None [] [] [].

(** [set_bit]; None is a write outside the array. *)
Definition set_bit (array : list Z) (bit : Z) : option (list Z) :=
  let i := Z.to_nat (bit `div` 8) in
  b ← array !! i; Some (<[i := Z.lor b (Z.shiftl 1 (bit `mod` 8))]> array).

Definition with_info (i : device_info) (d : device) : device :=
  Device i (uinput_fd_ d) (uinput_event_path_ d) (written d) (kernel_calls d).
Definition set_mask (k : mask) (m : list Z) (i : device_info) : device_info :=
  Info (dev_name i) (driver_version i) (dev_id i) (physical_location i) (unique_id i)
    (<[k := m]> (masks i)) (abs_max i) (abs_min i).
(** [set_key_bit], [set_abs_bit], ... [set_prop_bit] *)
Definition set_mask_bit (k : mask) (bit : Z) (d : device) : option device :=
  m ← set_bit (masks (info_ d) k) bit; Some (with_info (set_mask k m (info_ d)) d).

(** A string of at most 79 characters, up to its first NUL. *)
Fixpoint c_string (s : bytes) : bytes :=
  match s with [] => [] | b :: s' => if bool_decide (b = x00) then [] else b :: c_string s' end.
Definition snprintf80 (s : bytes) : bytes := take 79 (c_string s).
Definition set_name (s : bytes) (d : device) : device :=
  with_info (Info (snprintf80 s) (driver_version (info_ d)) (dev_id (info_ d)) (physical_location (info_ d))
    (unique_id (info_ d)) (masks (info_ d)) (abs_max (info_ d)) (abs_min (info_ d))) d.
Definition set_driver_version (v : Z) (d : device) : device :=
  with_info (Info (dev_name (info_ d)) v (dev_id (info_ d)) (physical_location (info_ d))
    (unique_id (info_ d)) (masks (info_ d)) (abs_max (info_ d)) (abs_min (info_ d))) d.
Definition set_input_id (i : id_info) (d : device) : device :=
  with_info (Info (dev_name (info_ d)) (driver_version (info_ d)) i (physical_location (info_ d))
    (unique_id (info_ d)) (masks (info_ d)) (abs_max (info_ d)) (abs_min (info_ d))) d.
Definition set_physical_location (s : bytes) (d : device) : device :=
  with_info (Info (dev_name (info_ d)) (driver_version (info_ d)) (dev_id (info_ d)) (snprintf80 s)
    (unique_id (info_ d)) (masks (info_ d)) (abs_max (info_ d)) (abs_min (info_ d))) d.
Definition set_unique_id (s : bytes) (d : device) : device :=
  with_info (Info (dev_name (info_ d)) (driver_version (info_ d)) (dev_id (info_ d)) (physical_location (info_ d))
    (snprintf80 s) (masks (info_ d)) (abs_max (info_ d)) (abs_min (info_ d))) d.
(** [set_abs_min] and [set_abs_max]; None is a write outside the array. *)
Definition set_at (l : list Z) (i v : Z) : option (list Z) :=
  match l !! Z.to_nat i with Some _ => Some (<[Z.to_nat i := v]> l) | None => None end.
Definition set_abs_min (bit v : Z) (d : device) : option device :=
  l ← set_at (abs_min (info_ d)) bit v;
  Some (with_info (Info (dev_name (info_ d)) (driver_version (info_ d)) (dev_id (info_ d))
    (physical_location (info_ d)) (unique_id (info_ d)) (masks (info_ d)) (abs_max (info_ d)) l) d).
Definition set_abs_max (bit v : Z) (d : device) : option device :=
  l ← set_at (abs_max (info_ d)) bit v;
  Some (with_info (Info (dev_name (info_ d)) (driver_version (info_ d)) (dev_id (info_ d))
    (physical_location (info_ d)) (unique_id (info_ d)) (masks (info_ d)) l (abs_min (info_ d))) d).

(** * Setting up the uinput device *)

(** What the host answers: the descriptor of /dev/uinput, if it can be opened,
    each request after all that was asked before it, the
    successive listings of /sys/class/input (a name with its device/name), the
    device number of an event path, and the successive contents of a udev
    record. *)
Record host := Host {
  open_fd : option Z;
  request_ok : list kernel_call -> request -> bool;
  listings : list (list (bytes * bytes));
  event_stat : bytes -> option (Z * Z);
  udev_lines : bytes -> list (list bytes)
}.

Section host.
Context (h : host).

Section descriptor.
(** The local descriptor of [create_uinput_device]. *)
Context (fd : Z).

(** A failed request leaves through [fail()], modelled as an exception that
    [create_uinput_device] catches. *)
Definition ioctl (r : request) : M (list kernel_call) unit := fun s =>
  (s ++ [Request fd r], if request_ok h s r then Ret tt else Throw SystemError).

Definition has_bit (m : list Z) (bit : Z) : outcome bool :=
  match m !! Z.to_nat (bit `div` 8) with
  | Some b => Ret (negb (Z.land b (Z.shiftl 1 (bit `mod` 8)) =? 0))
  | None => Undef
  end.

(** [for (bit = 0; bit <= max; ++bit)] with the flag [any]. *)
Fixpoint offer_bits (k : mask) (ev : Z) (m : list Z) (any : bool) (bits : list Z) : M (list kernel_call) unit :=
  match bits with
  | [] => mret tt
  | bit :: bits' =>
      set ← lift (has_bit m bit);
      if (set : bool) then
        (if any then mret tt else ioctl (SetEvBit ev)) ≫= fun _ =>
        ioctl (SetBit k bit) ≫= fun _ =>
        offer_bits k ev m true bits'
      else offer_bits k ev m any bits'
  end.
Definition bits_to (max : Z) : list Z := seqZ 0 (max + 1).

Definition sets : list (mask * Z) :=
  [(KeyMask, EV_KEY); (AbsMask, EV_ABS); (RelMask, EV_REL); (SwMask, EV_SW); (LedMask, EV_LED); (FfMask, EV_FF)].

(** Up to the creation of the device. *)
Definition describe (i : device_info) : M (list kernel_call) unit :=
  ioctl (SetEvBit EV_SYN) ≫= fun _ =>
  for_each (fun s => offer_bits s.1 s.2 (masks i s.1) false (bits_to (max_bit s.1))) sets ≫= fun _ =>
  offer_bits PropMask 0 (masks i PropMask) true (bits_to (max_bit PropMask)) ≫= fun _ =>
  (if is_empty (physical_location i) then mret tt else ioctl (SetPhys (physical_location i))) ≫= fun _ =>
  ioctl (WriteUserDev (dev_name i) (dev_id i) (abs_min i) (abs_max i)) ≫= fun _ =>
  ioctl DevCreate.

End descriptor.

(** The event device that carries our name, in one listing. *)
Fixpoint find_entry (name : bytes) (l : list (bytes * bytes)) : option bytes :=
  match l with
  | [] => None
  | (entry, value) :: l' =>
      if starts_with entry (str "event") && bytes_eqb value name then Some (str "/dev/input/" ++ entry)
      else find_entry name l'
  end.
(** The 50 attempts, which stop when the path is known. *)
Fixpoint find_path (attempts : list (list (bytes * bytes))) (name path : bytes) : bytes :=
  match attempts with
  | [] => path
  | l :: rest =>
      if is_empty path then find_path rest name (default [] (find_entry name l)) else path
  end.

Definition udev_record (dev : Z * Z) : bytes :=
  str "/run/udev/data/c" ++ print_d dev.1 ++ str ":" ++ print_d dev.2.
(** The 100 readings of the record: the two flags so far. *)
Fixpoint udev_flags (attempts : list (list bytes)) (f : bool * bool) : bool * bool :=
  match attempts with
  | [] => f
  | lines :: rest =>
      let f' := (f.1 || existsb (bytes_eqb (str "E:LIBINPUT_IGNORE_DEVICE=1")) lines,
                 f.2 || existsb (bytes_eqb (str "E:ID_INPUT=0")) lines) in
      if f'.1 && f'.2 then f' else udev_flags rest f'
  end.

Definition with_calls (l : list kernel_call) (d : device) : device :=
  Device (info_ d) (uinput_fd_ d) (uinput_event_path_ d) (written d) l.
Definition destroy_uinput_device (d : device) : device :=
  match uinput_fd_ d with
  | Some fd => Device (info_ d) None [] (written d) (kernel_calls d ++ [Request fd DevDestroy; CloseFd fd])
  | None => d
  end.
Definition with_path (path : bytes) (d : device) : device :=
  Device (info_ d) (uinput_fd_ d) path (written d) (kernel_calls d).

(** [fail()] of [create_uinput_device], alone and after UI_DEV_DESTROY; [l] is
    what was asked before. *)
Definition fail (fd : Z) (l : list kernel_call) (d : device) : device * outcome bool :=
  (with_calls (l ++ [CloseFd fd]) d, Ret false).
Definition destroy_and_fail (fd : Z) (l : list kernel_call) (d : device) : device * outcome bool :=
  fail fd (l ++ [Request fd DevDestroy]) d.

Definition create_uinput_device (d : device) : device * outcome bool :=
  if bool_decide (is_Some (uinput_fd_ d)) then (d, Ret true)
  else match open_fd h with
  | None => (d, Ret false)
  | Some fd =>
       match describe fd (info_ d) (kernel_calls d) with
       | (l, Throw _) => fail fd l d
       | (l, Aborted) => (with_calls l d, Aborted)
       | (l, Undef) => (with_calls l d, Undef)
       | (l, Ret _) =>
           match ioctl fd GetSysname l with
           | (l, Ret _) =>
               let path := find_path (take 50 (listings h)) (dev_name (info_ d)) (uinput_event_path_ d) in
               let d := with_path path d in
               if is_empty path then destroy_and_fail fd l d
               else match event_stat h path with
                    | None => destroy_and_fail fd l d
                    | Some dev =>
                        let f := udev_flags (take 100 (udev_lines h (udev_record dev))) (false, false) in
                        if negb f.1 || negb f.2 then destroy_and_fail fd l (with_path [] d)
                        else (Device (info_ d) (Some fd) path (written d) l, Ret true)
                    end
           | (l, _) => destroy_and_fail fd l d
           end
       end
  end.
End host.
End kernel.

(** * Delivery *)

(** What [write] returns; [WouldBlock] with the answer of the [poll] that
    follows. *)
Inductive write_answer := Wrote (n : nat) | Interrupted | WouldBlock (writable : bool) | WriteError.

(** The loop of [deliver_events] over the answers of [write]; None while the
    loop still runs when they end.  The bytes are those handed over. *)
Fixpoint write_all (answers : list write_answer) (data : bytes) (written : nat) (out : bytes)
    : option (bool * bytes) :=
  if (length data <=? written)%nat then Some (true, out)
  else match answers with
       | [] => None
       | a :: rest =>
           match a with
           | Wrote n =>
               if (0 <? n)%nat then
                 let out := out ++ take n (drop written data) in
                 if negb (n mod sizeof_compat_event =? 0)%nat then Some (false, out)
                 else write_all rest data (written + n) out
               else Some (false, out)
           | Interrupted => write_all rest data written out
           | WouldBlock true => write_all rest data written out
           | WouldBlock false | WriteError => Some (false, out)
           end
       end.

(** The sends to the legacy connections, a map by connection id; [sent] is
    whether a send succeeds.  [Connections::at] throws for an unknown id. *)
Definition legacy_send (sent : Z -> bool) (connections : gset Z) (id : Z) : bool :=
  bool_decide (id ∈ connections) && sent id.
Definition legacy_ids (connections : gset Z) : list Z := seqZ 0 (Z.of_nat (size connections)).

Definition with_written (out : bytes) (d : device) : device :=
  Device (info_ d) (uinput_fd_ d) (uinput_event_path_ d) (written d ++ out) (kernel_calls d).
(** The records, the connections served, and the result. *)
Definition deliver_events (sent : Z -> bool) (connections : gset Z) (answers : list write_answer)
    (es : list event) (now : Z) (legacy : bool) (d : device) : option (device * list Z * bool) :=
  match es with
  | [] => Some (d, [], true)
  | _ =>
      let data := encode_events now es in
      let ids := if legacy then legacy_ids connections else [] in
      let served := filter (fun id => legacy_send sent connections id = true) ids in
      let ok := forallb (legacy_send sent connections) ids in
      if negb (bool_decide (is_Some (uinput_fd_ d))) then Some (d, served, if legacy then ok else false)
      else match write_all answers data 0 [] with
           | None => None
           | Some (true, out) =>
               Some (with_written out d, served, ok)
           | Some (false, out) =>
               Some (destroy_uinput_device (with_written out d), served, false)
           end
  end.

(** * Lemmas: records *)

Definition event_ok (e : event) : Prop := 0 <= type e < 2 ^ 16 /\ 0 <= code e < 2 ^ 16 /\ in_i32 (value e).

Lemma length_compat_event now e : length (compat_event now e) = sizeof_compat_event.
Proof. unfold compat_event. by rewrite !length_app, !length_le_bytes. Qed.

Lemma i32_u32 z : in_i32 z -> i32 (u32 z) = z.
Proof.
  unfold i32, u32, in_i32. intros H. rewrite Zplus_mod_idemp_l, Z.mod_small; lia.
Qed.

Lemma read_compat_event now e : event_ok e -> read_record (compat_event now e) = e.
Proof.
  intros (Ht & Hc & Hv). unfold read_record, compat_event.
  set (p := le_bytes 8 _). set (q := le_bytes 8 _). set (a := le_bytes 2 _). set (b := le_bytes 2 _). set (c := le_bytes 4 _).
  assert (drop 16 (p ++ q ++ a ++ b ++ c) = a ++ b ++ c) as ->.
  { rewrite app_assoc. apply drop_app_length'. unfold p, q. by rewrite length_app, !length_le_bytes. }
  assert (drop 18 (p ++ q ++ a ++ b ++ c) = b ++ c) as ->.
  { rewrite !app_assoc, <- (app_assoc _ b c). apply drop_app_length'. unfold p, q, a. by rewrite !length_app, !length_le_bytes. }
  assert (drop 20 (p ++ q ++ a ++ b ++ c) = c) as ->.
  { rewrite !app_assoc. apply drop_app_length'. unfold p, q, a, b. by rewrite !length_app, !length_le_bytes. }
  rewrite (take_app_length' a) by (unfold a; by rewrite length_le_bytes).
  rewrite (take_app_length' b) by (unfold b; by rewrite length_le_bytes). unfold a, b, c.
  rewrite take_ge by by rewrite length_le_bytes.
  rewrite !le_value_bytes. change (2 ^ (8 * Z.of_nat 2)) with (2 ^ 16). change (2 ^ (8 * Z.of_nat 4)) with (2 ^ 32).
  rewrite (Z.mod_small (u32 _)) by apply u32_range.
  rewrite i32_u32, !Z.mod_small by done. by destruct e.
Qed.

Lemma length_encode now es : length (encode_events now es) = (length es * sizeof_compat_event)%nat.
Proof.
  unfold encode_events. induction es as [|e es IH]; [done|]. rewrite fmap_cons. cbn [concat].
  rewrite length_app, length_compat_event, IH. done.
Qed.

Lemma encode_take now es j : take (j * sizeof_compat_event) (encode_events now es) = encode_events now (take j es).
Proof.
  revert j; induction es as [|e es IH]; intros [|j]; try done.
  unfold encode_events in *. cbn [take]. rewrite !fmap_cons. cbn [concat].
  rewrite <- IH. change (S j * sizeof_compat_event)%nat with (sizeof_compat_event + j * sizeof_compat_event)%nat.
  apply take_app_add'. by rewrite length_compat_event.
Qed.

(** What a reader of whole records gets is what was written. *)
Lemma read_encoded now es : Forall event_ok es -> read_records (length es) (encode_events now es) = es.
Proof.
  induction 1 as [|e es He _ IH]; [done|]. unfold encode_events. rewrite fmap_cons. cbn [concat length read_records].
  rewrite (proj2 (Nat.ltb_ge _ _)) by (rewrite length_app, length_compat_event; lia).
  rewrite take_app_length' by by rewrite length_compat_event.
  rewrite drop_app_length' by by rewrite length_compat_event.
  rewrite read_compat_event by done. unfold encode_events in IH. by rewrite IH.
Qed.

(** * Lemmas: the write loop *)

Definition final (a : write_answer) : Prop :=
  match a with Interrupted | WouldBlock true => False | _ => True end.
#[global] Instance final_dec a : Decision (final a).
Proof. destruct a as [| |[]|]; simpl; apply _. Defined.
(** A driver that takes whole records. *)
Definition whole (a : write_answer) : Prop :=
  match a with Wrote n => (n mod sizeof_compat_event = 0)%nat | _ => True end.

Lemma write_all_spec answers data w out r o : out = take w data ->
  write_all answers data w out = Some (r, o) ->
  (r = true -> o = data) /\
  (exists m, o = take m data /\ (Forall whole answers -> w mod sizeof_compat_event = 0 -> m mod sizeof_compat_event = 0)%nat).
Proof.
  revert w out; induction answers as [|a answers IH]; intros w out ->; cbn [write_all];
    (destruct (length data <=? w)%nat eqn:El; bdestruct_all;
     [intros [= <- <-]; split; [intros _; by rewrite take_ge|by exists w]|]); [done|].
  destruct a as [n| |[]|].
  - destruct (0 <? n)%nat eqn:En; bdestruct_all; [|intros [= <- <-]; split; [done|by exists w]].
    rewrite take_take_drop. destruct (negb _) eqn:Em.
    + intros [= <- <-]. split; [done|]. exists (w + n)%nat. split; [done|].
      intros Hw. inversion Hw as [|? ? Hn _]; subst. cbn [whole] in Hn. by rewrite Hn in Em.
    + apply negb_false_iff, Nat.eqb_eq in Em. intros Hr. destruct (IH _ _ eq_refl Hr) as [H1 (m & H2 & H3)].
      split; [done|]. exists m. split; [done|]. intros Hw Hw0. inversion Hw; subst. apply H3; [done|].
      rewrite Nat.Div0.add_mod, Hw0, Em. done.
  - intros Hr. destruct (IH _ _ eq_refl Hr) as [H1 (m & H2 & H3)]. split; [done|]. exists m. split; [done|].
    intros Hw. inversion Hw; subst. by apply H3.
  - intros Hr. destruct (IH _ _ eq_refl Hr) as [H1 (m & H2 & H3)]. split; [done|]. exists m. split; [done|].
    intros Hw. inversion Hw; subst. by apply H3.
  - intros [= <- <-]. split; [done|by exists w].
  - intros [= <- <-]. split; [done|by exists w].
Qed.

Lemma write_all_ends answers data w out :
  (length data <= w + length (filter final answers) * sizeof_compat_event)%nat ->
  is_Some (write_all answers data w out).
Proof.
  revert w out; induction answers as [|a answers IH]; intros w out Hl; cbn [write_all];
    (destruct (length data <=? w)%nat eqn:El; bdestruct_all; [by eexists|]); [simpl in Hl; lia|].
  rewrite filter_cons in Hl.
  destruct a as [n| |[]|]; cbn [final] in Hl; try (by eexists).
  - destruct (0 <? n)%nat eqn:En; bdestruct_all; [|by eexists].
    destruct (negb _) eqn:Em; [by eexists|]. apply negb_false_iff, Nat.eqb_eq in Em.
    apply IH. rewrite decide_True in Hl by done. cbn [length] in Hl.
    assert (sizeof_compat_event <= n)%nat by (apply Nat.Div0.mod_divides in Em as [c ->]; destruct c; lia). lia.
  - apply IH. by rewrite decide_False in Hl by tauto.
  - apply IH. by rewrite decide_False in Hl by tauto.
Qed.

(** * Lemmas: capability masks *)

Lemma land_shiftl_bit x k : 0 <= k -> negb (Z.land x (Z.shiftl 1 k) =? 0) = Z.testbit x k.
Proof.
  intros Hk. rewrite Z.shiftl_1_l. destruct (Z.testbit x k) eqn:E.
  - apply negb_true_iff, Z.eqb_neq. intros H0.
    assert (Z.testbit (Z.land x (2 ^ k)) k = false) as Ht by (by rewrite H0, Z.bits_0).
    by rewrite Z.land_spec, E, Z.pow2_bits_true in Ht.
  - apply negb_false_iff, Z.eqb_eq. apply Z.bits_inj'. intros n Hn. rewrite Z.land_spec, Z.bits_0.
    destruct (decide (n = k)) as [->|Hne]; [by rewrite E|]. by rewrite Z.pow2_bits_false, andb_false_r by lia.
Qed.

Lemma has_bit_testbit m bit b : m !! Z.to_nat (bit `div` 8) = Some b ->
  has_bit m bit = Ret (Z.testbit b (bit `mod` 8)).
Proof. intros H. unfold has_bit. rewrite H, land_shiftl_bit; [done|]. apply Z.mod_pos_bound. lia. Qed.

Lemma set_bit_length m b m' : set_bit m b = Some m' -> length m' = length m.
Proof. unfold set_bit. intros (x & _ & [= <-])%bind_Some. apply length_insert. Qed.

Lemma has_set_bit m b m' b' : 0 <= b -> 0 <= b' -> set_bit m b = Some m' ->
  has_bit m' b' = if b' =? b then Ret true else has_bit m b'.
Proof.
  intros Hb Hb'. unfold set_bit. intros (x & Hx & [= <-])%bind_Some.
  pose proof (Z.mod_pos_bound b 8 ltac:(lia)). pose proof (Z.mod_pos_bound b' 8 ltac:(lia)).
  pose proof (Z_div_mod_eq_full b 8). pose proof (Z_div_mod_eq_full b' 8).
  destruct (decide (b' `div` 8 = b `div` 8)) as [Hd|Hd].
  - rewrite (has_bit_testbit _ _ (Z.lor x (Z.shiftl 1 (b `mod` 8)))).
    2: { rewrite Hd. apply list_lookup_insert_eq. by eapply lookup_lt_Some. }
    rewrite Z.lor_spec, Z.shiftl_1_l. destruct (b' =? b) eqn:E; bdestruct_all.
    + replace b' with b by lia. by rewrite Z.pow2_bits_true, orb_true_r by lia.
    + rewrite Z.pow2_bits_false, orb_false_r by lia. symmetry. apply has_bit_testbit. by rewrite Hd.
  - assert (b' =? b = false) as -> by (apply Z.eqb_neq; congruence).
    unfold has_bit. rewrite list_lookup_insert_ne; [done|].
    intros He. apply Hd. apply Z2Nat.inj in He; [done|apply Z.div_pos; lia..].
Qed.

(** The calls of [set_*_bit] that describe a device. *)
Fixpoint set_mask_bits (ops : list (mask * Z)) (d : device) : option device :=
  match ops with
  | [] => Some d
  | (k, bit) :: ops' => set_mask_bit k bit d ≫= set_mask_bits ops'
  end.

Lemma set_mask_bits_spec ops d d' k b : Forall (fun o => 0 <= o.2) ops -> 0 <= b ->
  set_mask_bits ops d = Some d' ->
  length (masks (info_ d') k) = length (masks (info_ d) k) /\
  has_bit (masks (info_ d') k) b = if bool_decide ((k, b) ∈ ops) then Ret true else has_bit (masks (info_ d) k) b.
Proof.
  intros Ho Hb. revert d; induction Ho as [|[k0 b0] ops Hb0 _ IH]; intros d; [by intros [= <-]|].
  cbn [set_mask_bits snd] in *. intros (d1 & Hd1 & Hr)%bind_Some.
  destruct (IH _ Hr) as [IH1 IH2]. rewrite IH1, IH2.
  unfold set_mask_bit in Hd1. apply bind_Some in Hd1 as (m & Hm & [= <-]). cbn.
  destruct (decide (k0 = k)) as [->|Hne].
  - rewrite fn_lookup_insert. split; [by eapply set_bit_length|]. rewrite (has_set_bit _ _ _ b Hb0 Hb Hm).
    repeat case_bool_decide; destruct (b =? b0) eqn:E; bdestruct_all; try done; set_solver.
  - rewrite fn_lookup_insert_ne by done. split; [done|].
    repeat case_bool_decide; try done; set_solver.
Qed.

(** * Lemmas: the set-up *)

Section setup.
Context (max_bit : mask -> Z) (max_nonneg : forall k, 0 <= max_bit k) (h : host) (fd : Z).

Definition is_set (m : list Z) (bit : Z) : bool :=
  match has_bit m bit with Ret b => b | _ => false end.
(** The requests of [offer_bits]. *)
Definition offers (k : mask) (ev : Z) (m : list Z) (any : bool) (bits : list Z) : list request :=
  match filter (fun b => is_set m b = true) bits with
  | [] => []
  | l => (if any then [] else [SetEvBit ev]) ++ (SetBit k <$> l)
  end.

Lemma ioctl_ret r s s' u : ioctl h fd r s = (s', Ret u) -> s' = s ++ [Request fd r].
Proof. unfold ioctl. intros H. by case_match; simplify_eq. Qed.

Lemma offer_bits_ret k ev m any bits s s' u : offer_bits h fd k ev m any bits s = (s', Ret u) ->
  s' = s ++ (Request fd <$> offers k ev m any bits).
Proof.
  revert any s; induction bits as [|b bits IH]; intros any s; cbn [offer_bits].
  { intros [= <- _]. by rewrite app_nil_r. }
  intros (s1 & x & Hx & H)%M_bind_ret_inv. unfold lift in Hx. injection Hx as -> Hx.
  assert (is_set m b = x) as Hs by (unfold is_set; by rewrite Hx).
  unfold offers. rewrite filter_cons. destruct x.
  - apply M_bind_ret_inv in H as (s2 & [] & He & H). apply M_bind_ret_inv in H as (s3 & [] & Hb & H).
    apply ioctl_ret in Hb as ->. apply IH in H as ->. rewrite decide_True by done. rewrite fmap_cons.
    assert (offers k ev m true bits = SetBit k <$> filter (fun b => is_set m b = true) bits) as ->.
    { unfold offers. by destruct (filter _ bits). }
    destruct any; [injection He as <-|apply ioctl_ret in He as ->]; by rewrite <- !app_assoc.
  - rewrite decide_False by congruence. by apply IH.
Qed.

(** The bits of a mask that the loop reads are all inside it. *)
Lemma offer_bits_total k ev m any bits s :
  Forall (fun b => is_Some (m !! Z.to_nat (b `div` 8))) bits ->
  (exists s' e, offer_bits h fd k ev m any bits s = (s', Throw e)) \/
  (exists s', offer_bits h fd k ev m any bits s = (s', Ret tt)).
Proof.
  intros Hb. revert any s; induction Hb as [|b bits [x Hx] _ IH]; intros any s; cbn [offer_bits]; [right; by eexists|].
  unfold mbind, M_bind, lift. rewrite (has_bit_testbit _ _ _ Hx).
  assert (forall r s1, (ioctl h fd r s1 = (s1 ++ [Request fd r], Ret tt)) \/ ioctl h fd r s1 = (s1 ++ [Request fd r], Throw SystemError)) as Hio.
  { intros r s1. unfold ioctl. case_match; tauto. }
  destruct (Z.testbit x _); [|apply IH].
  destruct any; unfold mret, M_ret.
  - destruct (Hio (SetBit k b) s) as [-> | ->]; [apply IH|left; by eexists _, _].
  - destruct (Hio (SetEvBit ev) s) as [-> | ->]; [|left; by eexists _, _].
    destruct (Hio (SetBit k b) (s ++ [Request fd (SetEvBit ev)])) as [-> | ->]; [apply IH|left; by eexists _, _].
Qed.

Lemma elem_of_offers k ev m any bits k' b :
  SetBit k' b ∈ offers k ev m any bits <-> k' = k /\ b ∈ bits /\ is_set m b = true.
Proof.
  unfold offers. destruct (filter _ bits) as [|c l] eqn:E.
  - split; [by intros []%not_elem_of_nil|]. intros (_ & Hb & Hs). exfalso.
    assert (b ∈ filter (fun b => is_set m b = true) bits) as Hf by (by apply list_elem_of_filter).
    rewrite E in Hf. by apply not_elem_of_nil in Hf.
  - rewrite <- E, elem_of_app, list_elem_of_fmap. split.
    + intros [Ha|(y & [= -> ->] & Hy)].
      * destruct any; [by apply not_elem_of_nil in Ha|]. by apply list_elem_of_singleton in Ha.
      * apply list_elem_of_filter in Hy as [? ?]. done.
    + intros (-> & Hb & Hs). right. exists b. split; [done|]. by apply list_elem_of_filter.
Qed.

Definition offers_of (i : device_info) (s : mask * Z) : list request :=
  offers s.1 s.2 (masks i s.1) false (bits_to (max_bit s.1)).
(** All that [describe] requests. *)
Definition description (i : device_info) : list request :=
  [SetEvBit EV_SYN] ++ concat (offers_of i <$> sets) ++
  offers PropMask 0 (masks i PropMask) true (bits_to (max_bit PropMask)) ++
  (if is_empty (physical_location i) then [] else [SetPhys (physical_location i)]) ++
  [WriteUserDev (dev_name i) (dev_id i) (abs_min i) (abs_max i); DevCreate].

Lemma for_each_appends {A} (f : A -> M (list kernel_call) unit) g l s s' u :
  (forall a s s' u, f a s = (s', Ret u) -> s' = s ++ g a) ->
  for_each f l s = (s', Ret u) -> s' = s ++ concat (g <$> l).
Proof.
  intros Hf. revert s; induction l as [|a l IH]; intros s; cbn [for_each].
  { intros [= <- _]. by rewrite app_nil_r. }
  intros (s1 & x & Hx%Hf & H)%M_bind_ret_inv. apply IH in H as ->. subst s1.
  rewrite fmap_cons. cbn [concat]. by rewrite app_assoc.
Qed.

Lemma describe_ret i s s' u : describe max_bit h fd i s = (s', Ret u) -> s' = s ++ (Request fd <$> description i).
Proof.
  unfold describe. intros (s1 & ? & H1%ioctl_ret & H)%M_bind_ret_inv.
  apply M_bind_ret_inv in H as (s2 & ? & H2 & H).
  apply (for_each_appends _ (fun s => Request fd <$> offers_of i s)) in H2.
  2: { intros a ? ? ?. apply offer_bits_ret. }
  apply M_bind_ret_inv in H as (s3 & ? & H3%offer_bits_ret & H).
  apply M_bind_ret_inv in H as (s4 & ? & H4 & H).
  apply M_bind_ret_inv in H as (s5 & ? & H5%ioctl_ret & H%ioctl_ret).
  unfold description, sets in *. rewrite !fmap_cons, fmap_nil in *. cbn [concat] in *. rewrite !fmap_app. subst.
  destruct (is_empty _).
  - injection H4 as <- _. cbn. rewrite <- !app_assoc. done.
  - apply ioctl_ret in H4 as ->. cbn. rewrite <- !app_assoc. done.
Qed.

Lemma elem_of_bits_to b k : b ∈ bits_to (max_bit k) <-> 0 <= b <= max_bit k.
Proof. unfold bits_to. rewrite elem_of_seqZ. lia. Qed.

Lemma description_bits i k b :
  SetBit k b ∈ description i <-> 0 <= b <= max_bit k /\ is_set (masks i k) b = true.
Proof.
  assert (SetBit k b ∈ (if is_empty (physical_location i) then [] else [SetPhys (physical_location i)]) ++
    [WriteUserDev (dev_name i) (dev_id i) (abs_min i) (abs_max i); DevCreate] <-> False) as Hend.
  { split; [|done]. destruct (is_empty _); simpl; rewrite !elem_of_cons, elem_of_nil; naive_solver. }
  assert (SetBit k b ∈ [SetEvBit EV_SYN] <-> False) as Hsyn by (rewrite list_elem_of_singleton; naive_solver).
  unfold description. rewrite elem_of_app, Hsyn, elem_of_app, elem_of_app, Hend.
  unfold sets, offers_of. rewrite !fmap_cons, fmap_nil. cbn [concat fst snd].
  rewrite !elem_of_app, elem_of_nil, !elem_of_offers, <- elem_of_bits_to.
  destruct k; naive_solver.
Qed.

Lemma offers_no_destroy k ev m any bits : DevDestroy ∉ offers k ev m any bits.
Proof.
  unfold offers. destruct (filter _ bits) as [|c l]; [apply not_elem_of_nil|].
  rewrite elem_of_app, list_elem_of_fmap. intros [H|(y & ? & _)]; [|done].
  destruct any; [by apply not_elem_of_nil in H|]. by apply list_elem_of_singleton in H.
Qed.

Lemma description_creates i : DevCreate ∈ description i.
Proof. unfold description. rewrite !elem_of_app. do 4 right. by right; left. Qed.

Lemma description_no_destroy i : DevDestroy ∉ description i.
Proof.
  unfold description. rewrite !elem_of_app. intros [H|[H|[H|[H|H]]]].
  - by apply list_elem_of_singleton in H.
  - unfold sets, offers_of in H. rewrite !fmap_cons, fmap_nil in H. cbn [concat fst snd] in H.
    rewrite !elem_of_app, elem_of_nil in H. pose proof offers_no_destroy. naive_solver.
  - by apply offers_no_destroy in H.
  - destruct (is_empty _); [by apply not_elem_of_nil in H|]. by apply list_elem_of_singleton in H.
  - rewrite !elem_of_cons, elem_of_nil in H. naive_solver.
Qed.

(** With masks of whole bytes no read is outside them. *)
Lemma describe_total i s : (forall k, (max_bit k + 1) `mod` 8 = 0) ->
  (forall k, length (masks i k) = mask_size max_bit k) ->
  (exists s' e, describe max_bit h fd i s = (s', Throw e)) \/ (exists s', describe max_bit h fd i s = (s', Ret tt)).
Proof.
  intros Hal Hlen.
  assert (forall k, Forall (fun b => is_Some (masks i k !! Z.to_nat (b `div` 8))) (bits_to (max_bit k))) as Hin.
  { intros k. apply Forall_forall. intros b Hb%elem_of_bits_to. apply lookup_lt_is_Some. rewrite Hlen.
    unfold mask_size. apply Z2Nat.inj_lt; [apply Z.div_pos; lia..|].
    specialize (Hal k). pose proof (Z_div_mod_eq_full (max_bit k + 1) 8). apply Z.div_lt_upper_bound; lia. }
  set (fine (c : M (list kernel_call) unit) := forall s1 : list kernel_call, (exists s' e, c s1 = (s', Throw e)) \/ (exists s', c s1 = (s', Ret tt))).
  assert (forall (c : M (list kernel_call) unit) (f : unit -> M (list kernel_call) unit), fine c -> fine (f tt) -> fine (c ≫= f)) as Hbind.
  { intros c f Hc Hf s1. unfold mbind, M_bind.
    destruct (Hc s1) as [(s2 & e & ->)|(s2 & ->)]; [left; by eexists _, _|apply Hf]. }
  assert (forall r, fine (ioctl h fd r)) as Hio.
  { intros r s1. unfold ioctl. case_match; [right; by eexists|left; by eexists _, _]. }
  assert (forall k ev any, fine (offer_bits h fd k ev (masks i k) any (bits_to (max_bit k)))) as Hof.
  { intros k ev any s1. apply offer_bits_total, Hin. }
  assert (fine (mret tt)) as Hret by (intros s1; right; by eexists).
  revert s. change (fine (describe max_bit h fd i)). unfold describe, sets. cbn [for_each fst snd].
  repeat first [apply Hio|apply Hof|exact Hret|apply Hbind|destruct (is_empty _)].
Qed.
End setup.

Lemma elem_of_take_elem {A} (x : A) n l : x ∈ take n l -> x ∈ l.
Proof. intros (i & Hi & _)%elem_of_take. by eapply list_elem_of_lookup_2. Qed.

(** * Theorems *)

Lemma find_path_nonempty attempts name : forall path, find_path attempts name path <> [] ->
  path <> [] /\ find_path attempts name path = path \/
  exists l entry value, l ∈ attempts /\ (entry, value) ∈ l /\ starts_with entry (str "event") = true /\
    value = name /\ find_path attempts name path = str "/dev/input/" ++ entry.
Proof.
  induction attempts as [|l rest IH]; intros path; cbn [find_path]; [by left|].
  destruct (is_empty path) eqn:E; [|left; by destruct path].
  destruct (find_entry name l) as [p|] eqn:Ef; cbn [default].
  2: { intros H. destruct (IH _ H) as [[? _]|(l' & e & v & ? & ?)]; [done|right].
       exists l', e, v. split; [by right|done]. }
  assert (exists entry, (entry, name) ∈ l /\ starts_with entry (str "event") = true /\ p = str "/dev/input/" ++ entry)
    as (entry & He & Hs & ->).
  { clear -Ef. induction l as [|[en v] l IH]; [done|]. simpl in Ef.
    destruct (starts_with en _) eqn:E1; cbn [andb] in Ef; [destruct (bytes_eqb v name) eqn:E2|].
    - injection Ef as <-. apply bool_decide_eq_true in E2 as ->. exists en. split; [by left|done].
    - destruct (IH Ef) as (e & ? & ?). exists e. split; [by right|done].
    - destruct (IH Ef) as (e & ? & ?). exists e. split; [by right|done]. }
  intros _. right. exists l, entry, name. split; [by left|]. split; [done|]. split; [done|]. split; [done|].
  destruct rest; [done|]. done.
Qed.

Lemma udev_flags_found attempts : forall f, udev_flags attempts f = (true, true) ->
  (f.1 = true \/ exists l, l ∈ attempts /\ str "E:LIBINPUT_IGNORE_DEVICE=1" ∈ l) /\
  (f.2 = true \/ exists l, l ∈ attempts /\ str "E:ID_INPUT=0" ∈ l).
Proof.
  assert (forall s l, existsb (bytes_eqb s) l = true -> s ∈ l) as Hex.
  { intros s l (x & Hx & He)%existsb_exists. apply bool_decide_eq_true in He as ->. by apply list_elem_of_In. }
  induction attempts as [|l rest IH]; intros f; cbn [udev_flags]; [intros ->; by split; left|].
  match goal with |- context [if _ then ?g else _] => set (f' := g) end.
  intros H. assert ((f'.1 = true \/ exists l, l ∈ rest /\ str "E:LIBINPUT_IGNORE_DEVICE=1" ∈ l) /\
    (f'.2 = true \/ exists l, l ∈ rest /\ str "E:ID_INPUT=0" ∈ l)) as [H1 H2].
  { destruct (f'.1 && f'.2); [|by apply IH]. rewrite H. by split; left. }
  unfold f' in H1, H2. cbn [fst snd] in H1, H2. rewrite orb_true_iff in H1, H2. split.
  - destruct H1 as [[?|?%Hex]|(l' & ? & ?)]; [by left|right; exists l; by split; [left|]|right; exists l'; by split; [right|]].
  - destruct H2 as [[?|?%Hex]|(l' & ? & ?)]; [by left|right; exists l; by split; [left|]|right; exists l'; by split; [right|]].
Qed.

(** A description that was refused, or read outside a mask, asked for things
    of the descriptor and no more. *)
Lemma describe_requests max_bit h fd i s :
  exists rs, (describe max_bit h fd i s).1 = s ++ (Request fd <$> rs) /\ GetSysname ∉ rs /\ DevDestroy ∉ rs.
Proof.
  set (fine (c : M (list kernel_call) unit) := forall s, exists rs, (c s).1 = s ++ (Request fd <$> rs) /\ GetSysname ∉ rs /\ DevDestroy ∉ rs).
  assert (Hbind : forall (c : M (list kernel_call) unit) f, fine c -> (forall u, fine (f u)) -> fine (c ≫= f)).
  { intros c f Hc Hf s1. destruct (Hc s1) as (rs & E & H1 & H2). unfold mbind, M_bind.
    destruct (c s1) as [s2 [u| | |]]; cbn in *; subst; try by exists rs.
    destruct (Hf u (s1 ++ (Request fd <$> rs))) as (rs' & E' & H1' & H2'). exists (rs ++ rs').
    rewrite E', fmap_app, app_assoc, !elem_of_app. split_and!; [done|tauto|tauto]. }
  assert (Hnil : forall o, fine (fun s => (s, o))).
  { intros o s1. exists []. rewrite app_nil_r. split_and!; [done|apply not_elem_of_nil..]. }
  assert (Hio : forall r, r <> GetSysname -> r <> DevDestroy -> fine (ioctl h fd r)).
  { intros r H1 H2 s1. exists [r]. rewrite !list_elem_of_singleton. split_and!; congruence || done. }
  assert (Hof : forall k ev m bits any, fine (offer_bits h fd k ev m any bits)).
  { intros k ev m bits. induction bits as [|b bits IH]; intros any; cbn [offer_bits]; [apply Hnil|].
    destruct (has_bit m b) as [[]| | |]; try apply (Hnil (Throw _)); try apply (Hnil Aborted); try apply (Hnil Undef);
      [|apply (IH any)].
    apply (Hbind (if any then mret tt else ioctl h fd (SetEvBit ev))); [destruct any; [apply Hnil|by apply Hio]|].
    intros _. apply Hbind; [by apply Hio|auto]. }
  cut (fine (describe max_bit h fd i)); [by auto|]. unfold describe. apply Hbind; [by apply Hio|intros _].
  apply Hbind; [|intros _; apply Hbind; [apply Hof|intros _; apply Hbind; [|intros _; apply Hbind; [by apply Hio|intros _; by apply Hio]]]].
  - generalize sets. intros l. induction l as [|x l IH]; cbn [for_each]; [apply Hnil|]. apply Hbind; [apply Hof|done].
  - destruct (is_empty _); [apply Hnil|by apply Hio].
Qed.

(** The end of a set-up that created the device and gives it up. *)
Lemma failed_setup fd l rs d d1 d' r :
  l = kernel_calls d ++ (Request fd <$> rs) -> info_ d1 = info_ d -> written d1 = written d -> uinput_fd_ d1 = None ->
  destroy_and_fail fd l d1 = (d', r) ->
  r = Ret false /\ info_ d' = info_ d /\ written d' = written d /\ uinput_fd_ d' = None /\
  exists rs', kernel_calls d' = kernel_calls d ++ (Request fd <$> rs') ++ [CloseFd fd] /\ last rs' = Some DevDestroy.
Proof.
  unfold destroy_and_fail, fail. intros -> H1 H2 H3 [= <- <-]. cbn. split_and!; try done.
  exists (rs ++ [DevDestroy]). rewrite fmap_app, last_snoc, <- !app_assoc. done.
Qed.

(** C29: The uinput set-up fails closed, and its descriptor is neither leaked nor
    used when it is gone. A device whose set-up reports success keeps the
    descriptor it opened and has not closed it; it was given on it exactly the
    capability bits its description set, was created and not destroyed, and some
    reading of the udev record of its event node carried both marks that keep it
    away from the host; the node was found under the device's name, unless an
    earlier attempt left its path in the object ([stale_event_path]). A set-up
    that reports failure has no descriptor: the one it opened, if any, was
    closed once and last, after the created device on it was destroyed. With
    masks of whole bytes no read is outside them. *)
Theorem uinput_fails_closed (max_bit : mask -> Z) (h : host) ops d0 d d' r :
  (forall k, 0 <= max_bit k) -> Forall (fun o => 0 <= o.2) ops ->
  set_mask_bits ops (device_init max_bit) = Some d0 -> masks (info_ d) = masks (info_ d0) ->
  uinput_fd_ d = None -> create_uinput_device max_bit h d = (d', r) ->
  info_ d' = info_ d /\ written d' = written d /\
  (r = Ret false -> uinput_fd_ d' = None /\
     match open_fd h with
     | None => kernel_calls d' = kernel_calls d
     | Some fd => exists rs, kernel_calls d' = kernel_calls d ++ (Request fd <$> rs) ++ [CloseFd fd] /\
         (GetSysname ∈ rs -> last rs = Some DevDestroy)
     end) /\
  (r = Ret true -> exists fd rs, open_fd h = Some fd /\ uinput_fd_ d' = Some fd /\
     kernel_calls d' = kernel_calls d ++ (Request fd <$> rs) /\ DevCreate ∈ rs /\ DevDestroy ∉ rs /\
     (forall k b, SetBit k b ∈ rs <-> (k, b) ∈ ops /\ 0 <= b <= max_bit k) /\
     exists dev l1 l2, event_stat h (uinput_event_path_ d') = Some dev /\
       l1 ∈ udev_lines h (udev_record dev) /\ str "E:LIBINPUT_IGNORE_DEVICE=1" ∈ l1 /\
       l2 ∈ udev_lines h (udev_record dev) /\ str "E:ID_INPUT=0" ∈ l2 /\
       (uinput_event_path_ d = [] -> exists l entry, uinput_event_path_ d' = str "/dev/input/" ++ entry /\
          l ∈ listings h /\ (entry, dev_name (info_ d)) ∈ l)) /\
  ((forall k, (max_bit k + 1) `mod` 8 = 0) -> exists b, r = Ret b).
Proof.
  intros Hmax Hops Hset Hm Hfd. unfold create_uinput_device. rewrite Hfd.
  assert (forall k b, 0 <= b -> is_set (masks (info_ d) k) b = true <-> (k, b) ∈ ops) as Hbits.
  { intros k b Hb. destruct (set_mask_bits_spec _ _ _ k b Hops Hb Hset) as [_ H2]. rewrite Hm. unfold is_set. rewrite H2.
    case_bool_decide; [done|]. split; [|done]. cbn. unfold has_bit. clear.
    destruct (replicate _ 0 !! _) eqn:H; [|done]. apply lookup_replicate in H as [-> _]. by rewrite Z.land_0_l. }
  assert (forall k, length (masks (info_ d) k) = mask_size max_bit k) as Hlen.
  { intros k. destruct (set_mask_bits_spec _ _ _ k 0 Hops ltac:(lia) Hset) as [H1 _]. rewrite Hm, H1. cbn. apply length_replicate. }
  rewrite bool_decide_false by (by intros [? ?]).
  destruct (open_fd h) as [fd|]; [|intros [= <- <-]; split_and!; try done; by eexists].
  destruct (describe_requests max_bit h fd (info_ d) (kernel_calls d)) as (rs0 & Hrs0 & Hns & _).
  destruct (describe max_bit h fd (info_ d) (kernel_calls d)) as [s o] eqn:Ed. cbn [fst] in Hrs0.
  assert ((forall k, (max_bit k + 1) `mod` 8 = 0) -> o <> Aborted /\ o <> Undef) as Htot.
  { intros Hal. destruct (describe_total max_bit h fd (info_ d) (kernel_calls d) Hal Hlen) as [(s' & e & H)|(s' & H)];
      rewrite Ed in H; by injection H as -> ->. }
  destruct o as [[]|e| |]; [| |intros [= <- <-]; split_and!; try done; by intros [? ?]%Htot..].
  2: { intros [= <- <-]. split_and!; try done; [|by eexists]. intros _. split; [done|]. exists rs0. cbn. rewrite Hrs0, <- app_assoc. done. }
  apply describe_ret in Ed. remember (description max_bit (info_ d)) as desc eqn:Edesc. subst s.
  destruct (ioctl h fd GetSysname _) as [s o] eqn:Eg.
  assert (s = kernel_calls d ++ (Request fd <$> desc ++ [GetSysname])) as ->
    by (unfold ioctl in Eg; injection Eg as <- _; rewrite fmap_app, app_assoc; done). clear Eg.
  match goal with |- _ -> ?G => assert (Hgone : forall d1, info_ d1 = info_ d -> written d1 = written d -> uinput_fd_ d1 = None ->
    destroy_and_fail fd (kernel_calls d ++ (Request fd <$> desc ++ [GetSysname])) d1 = (d', r) -> G) end.
  { intros d1 H1 H2 H3 H. destruct (failed_setup _ _ _ d _ _ _ eq_refl H1 H2 H3 H) as (-> & -> & -> & -> & rs' & Hk & Hl).
    split_and!; try done; [|by eexists]. intros _. split; [done|]. by exists rs'. }
  destruct o as [[]|e| |]; [|by apply Hgone..].
  set (path := find_path _ _ _). destruct (is_empty path) eqn:Ep; [by apply Hgone|].
  destruct (event_stat h path) as [dev|] eqn:Es; [|by apply Hgone].
  destruct (udev_flags _ _) as [f1 f2] eqn:Ef. cbn [fst snd].
  destruct (negb f1 || negb f2) eqn:En; [by apply Hgone|]. clear Hgone.
  apply orb_false_iff in En as [->%negb_false_iff ->%negb_false_iff].
  intros [= <- <-]. split_and!; try done; [|by eexists]. intros _. exists fd, (desc ++ [GetSysname]). cbn.
  apply udev_flags_found in Ef as [[?|(l1 & Hl1 & ?)] [?|(l2 & Hl2 & ?)]]; try done.
  apply elem_of_take_elem in Hl1, Hl2. rewrite Edesc. split_and!; try done.
  - rewrite elem_of_app. left. apply description_creates.
  - rewrite elem_of_app. intros [Hd|Hd%list_elem_of_singleton]; [by apply description_no_destroy in Hd|done].
  - intros k b. rewrite elem_of_app, list_elem_of_singleton, description_bits.
    split; [intros [[Hb Hi]|]; [|done]; split; [|done]; apply Hbits; [lia|done]|].
    intros [Hi Hb]. left. split; [done|]. apply Hbits; [lia|done].
  - exists dev, l1, l2. split_and!; try done. intros Hpath. subst path. rewrite Hpath in *.
    destruct (find_path_nonempty (take 50 (listings h)) (dev_name (info_ d)) []) as [[? _]|(l & en & v & Hl & Hv & _ & -> & Hp)];
      [by intros E; rewrite E in Ep|done|]. apply elem_of_take_elem in Hl. by exists l, en.
Qed.

(** Delivery to the uinput device, whatever the driver answers: true
    means that the device was given the records of all the events, in order,
    from which a reader gets the same events; false means that it is closed
    and was given a prefix of the records, whole ones if the driver takes
    whole ones. As soon as the driver has answered, retries apart, once per
    event the call returns. *)
Theorem device_delivery sent connections answers es now d :
  Forall event_ok es ->
  (forall d' ids r, deliver_events sent connections answers es now false d = Some (d', ids, r) ->
     ids = [] /\ info_ d' = info_ d /\ exists l, written d' = written d ++ l /\
     (r = true -> l = encode_events now es /\ read_records (length es) l = es /\ uinput_fd_ d' = uinput_fd_ d) /\
     (r = false -> uinput_fd_ d' = None /\ (exists m, l = take m (encode_events now es)) /\
        (Forall whole answers -> exists j, l = encode_events now (take j es) /\
           read_records (length (take j es)) l = take j es))) /\
  ((length es <= length (filter final answers))%nat ->
     is_Some (deliver_events sent connections answers es now false d)).
Proof.
  intros Hes. unfold deliver_events. split.
  - intros d' ids r. destruct es as [|e es'] eqn:Ee.
    { intros [= <- <- <-]. split_and!; [done..|]. exists []. by rewrite app_nil_r. }
    rewrite <- Ee in *. clear Ee. cbn [filter forallb]. case_bool_decide as Ef; cbn [negb].
    2: { intros [= <- <- <-]. split_and!; [done..|]. exists []. rewrite app_nil_r. split; [done|]. split; [done|].
         intros _. split; [by apply eq_None_not_Some|]. split; [by exists 0%nat|]. intros _. by exists 0%nat. }
    destruct (write_all _ _ _ _) as [[ok out]|] eqn:Ew; [|done].
    destruct (write_all_spec _ _ 0 [] _ _ eq_refl Ew) as [Hall (m & Hout & Hm)].
    destruct Ef as [fd Ef]. unfold destroy_uinput_device. cbn [uinput_fd_ with_written]. rewrite ?Ef.
    destruct ok; intros [= <- <- <-]; split_and!; try done; exists out; split_and!; try done.
    + intros _. rewrite (Hall eq_refl). split; [done|]. by rewrite read_encoded.
    + cbn. intros _. split; [done|]. split; [by exists m|]. intros Hw. specialize (Hm Hw eq_refl).
      apply Nat.Div0.mod_divides in Hm as [j ->]. exists j. rewrite Hout, Nat.mul_comm, encode_take.
      split; [done|]. apply read_encoded. by apply Forall_take.
  - intros Hl. destruct es as [|e es'] eqn:Ee; [by eexists|]. rewrite <- Ee in *.
    destruct (negb _); [by eexists|].
    destruct (write_all_ends answers (encode_events now es) 0 []) as [[[] out] ->]; [|by eexists..].
    rewrite length_encode. apply Nat.mul_le_mono_r. lia.
Qed.

(** ** A key device *)

(** The masks of Linux 6. *)
Definition linux_max (k : mask) : Z :=
  match k with KeyMask => 767 | AbsMask => 63 | RelMask => 15 | SwMask => 16 | LedMask => 15 | FfMask => 127 | PropMask => 31 end.
(** A kernel with fewer codes and masks of whole bytes. *)
Definition small_max (k : mask) : Z := match k with KeyMask => 31 | _ => 7 end.

Definition key_ops : list (mask * Z) := [(KeyMask, 30); (KeyMask, 17); (PropMask, 0)].
Definition key_device (max_bit : mask -> Z) : device :=
  set_name (str "kbd") (default (device_init max_bit) (set_mask_bits key_ops (device_init max_bit))).
Definition good_host : host :=
  Host (Some 7) (fun _ _ => true) [[]; [(str "mouse0", str "kbd"); (str "event7", str "kbd")]]
    (fun _ => Some (13, 71)) (fun _ => [[str "E:ID_INPUT=0"]; [str "E:LIBINPUT_IGNORE_DEVICE=1"]]).

Lemma uinput_fails_closed_witness :
  let c := create_uinput_device small_max good_host (key_device small_max) in
  c.2 = Ret true /\ uinput_fd_ c.1 = Some 7 /\ uinput_event_path_ c.1 = str "/dev/input/event7" /\
  Request 7 (SetBit KeyMask 17) ∈ kernel_calls c.1.
Proof.
  cbn zeta. destruct (create_uinput_device _ _ _) as [d' r] eqn:E. cbn [fst snd].
  assert (r = Ret true /\ uinput_fd_ d' = Some 7 /\ uinput_event_path_ d' = str "/dev/input/event7") as (Hr & Hfd & Hp).
  { vm_compute in E. injection E as <- <-. by vm_compute. }
  split_and!; [done|done|done|].
  assert (exists d0, set_mask_bits key_ops (device_init small_max) = Some d0 /\
    masks (info_ (key_device small_max)) = masks (info_ d0)) as (d0 & Hs & Hm).
  { unfold key_device. destruct (set_mask_bits _ _) as [d0|] eqn:Es; [by exists d0|by vm_compute in Es]. }
  assert (forall k, 0 <= small_max k) as Hmax by (intros []; vm_compute; done).
  assert (Forall (fun o : mask * Z => 0 <= o.2) key_ops) as Hops by (repeat constructor; vm_compute; done).
  assert (uinput_fd_ (key_device small_max) = None) as Hf by by vm_compute.
  destruct (uinput_fails_closed small_max good_host key_ops d0 _ _ _ Hmax Hops Hs Hm Hf E) as (_ & _ & _ & H & _).
  destruct (H Hr) as (fd & rs & Ho & _ & Hk & _ & _ & Hbits & _). injection Ho as <-. rewrite Hk, elem_of_app. right.
  apply list_elem_of_fmap_2. apply Hbits. split; [|by vm_compute]. right. left.
Defined.

Definition tap : list event := [Event EV_KEY 30 1; Event EV_SYN SYN_REPORT 0].
Definition open_device : device := Device (info_ (key_device small_max)) (Some 7) (str "/dev/input/event7") [] [].

Lemma device_delivery_witness :
  Forall event_ok tap /\
  (exists d', deliver_events (fun _ => true) ∅ [Interrupted; Wrote 24; WouldBlock true; Wrote 24] tap 5 false open_device
                = Some (d', [], true) /\ read_records 2 (written d') = tap).
Proof.
  assert (Forall event_ok tap) as Ht by (repeat constructor; vm_compute; done).
  split; [done|].
  destruct (device_delivery (fun _ => true) ∅ [Interrupted; Wrote 24; WouldBlock true; Wrote 24] tap 5 open_device Ht) as [H1 H2].
  destruct (H2 ltac:(vm_compute; lia)) as [[[d' ids] r] Hd]. exists d'.
  destruct (H1 _ _ _ Hd) as (-> & _ & l & Hl & Htrue & _).
  assert (r = true) as -> by (clear -Hd; vm_compute in Hd; by injection Hd).
  split; [done|]. rewrite Hl. by apply Htrue.
Defined.

(** ** What the set-up gets wrong *)

(** With 17 switches the mask has two bytes, and the loop reads a third. *)
Lemma sw_mask_overrun : (create_uinput_device linux_max good_host (key_device linux_max)).2 = Undef.
Proof. by vm_compute. Qed.

(** When the node cannot be examined the path stays, and the next attempt
    examines it again instead of looking for its own device. *)
Lemma stale_event_path :
  let gone := Host (Some 7) (fun _ _ => true) (listings good_host) (fun _ => None) (udev_lines good_host) in
  let other := Host (Some 7) (fun _ _ => true) [[(str "event9", str "kbd")]] (event_stat good_host) (udev_lines good_host) in
  let d := (create_uinput_device small_max gone (key_device small_max)).1 in
  uinput_event_path_ (create_uinput_device small_max other d).1 = str "/dev/input/event7" /\
  (create_uinput_device small_max other d).2 = Ret true.
Proof. by vm_compute. Qed.

(** After client 0 has left, clients 1 and 2 are served as 0 and 1. *)
Lemma legacy_client_missed :
  (fun x => (x.1.2, x.2)) <$> deliver_events (fun _ => true) {[1; 2]} [] tap 5 true (key_device small_max)
  = Some ([1], false).
Proof. by vm_compute. Qed.
