(* ===== verification/Memory.v ===== *)
(** The memory limits of the container and its swap file
    (memory_manager.cpp): sizes and the configuration file, the limits handed
    to LXC, and the creation and activation of the swap file. The file system,
    the swap table of the kernel and the commands that are run are outside: the
    model keeps the files and the table, and takes every answer as a
    parameter. *)

From S2P Require Import Prelude.

Local Open Scope Z_scope.

(** * Strings and sizes *)

Definition trim_right (s : bytes) : bytes := reverse (skip_spaces (reverse s)).
Definition trim (s : bytes) : bytes := trim_right (skip_spaces s).

Definition to_lower (b : byte) : byte :=
  if (65 <=? bval b) && (bval b <=? 90) then to_byte (bval b + 32) else b.
Definition lower (s : bytes) : bytes := to_lower <$> s.

Definition one_of (s : bytes) (l : list string) : bool := existsb (fun t => bytes_eqb s (str t)) l.

Definition parse_bool (value : bytes) : outcome bool :=
  let normalized := lower (trim value) in
  if one_of normalized ["1"; "true"; "yes"; "on"]%string then Ret true
  else if one_of normalized ["0"; "false"; "no"; "off"]%string then Ret false
  else Throw RuntimeError.

(** [std::stoull] in base 10: the value and the rest of the string; None
    where it throws.  A minus sign negates modulo 2^64, as [strtoull] does. *)
Definition UINT64_MAX : Z := 2 ^ 64 - 1.
Definition stoull (s : bytes) : option (Z * bytes) :=
  let l := skip_spaces s in
  let (neg, l) := match l with
                  | b :: l' => if Byte.eqb b x2d then (true, l')
                               else if Byte.eqb b x2b then (false, l') else (false, l)
                  | [] => (false, [])
                  end in
  let (ds, rest) := span_digits l in
  match ds with
  | [] => None
  | _ => let v := digits_value ds in
         if v <=? UINT64_MAX then Some (if (neg : bool) then u64 (- v) else v, rest) else None
  end.

Definition multiplier (suffix : bytes) : option Z :=
  if is_empty suffix || bytes_eqb suffix (str "b") then Some 1
  else if one_of suffix ["k"; "kb"; "kib"]%string then Some (2 ^ 10)
  else if one_of suffix ["m"; "mb"; "mib"]%string then Some (2 ^ 20)
  else if one_of suffix ["g"; "gb"; "gib"]%string then Some (2 ^ 30)
  else if one_of suffix ["t"; "tb"; "tib"]%string then Some (2 ^ 40)
  else None.

(** The size and whether it is "max". *)
Definition parse_size (input : bytes) (allow_max : bool) : outcome (Z * bool) :=
  let value := lower (trim input) in
  if allow_max && bytes_eqb value (str "max") then Ret (0, true)
  else if is_empty value then Throw RuntimeError
  else match stoull value with
       | None => Throw RuntimeError
       | Some (number, suffix) =>
           match multiplier suffix with
           | None => Throw RuntimeError
           | Some m => if UINT64_MAX `div` m <? number then Throw RuntimeError else Ret (u64 (number * m), false)
           end
       end.

Definition normalize_limit (value : bytes) : outcome bytes :=
  r <-! parse_size value true; Ret (if (r.2 : bool) then str "max" else print_d r.1).

(** * The configuration file *)

(** [std::map<std::string, std::string>], by ascending key. *)
Fixpoint bytes_ltb (a b : bytes) : bool :=
  match a, b with
  | _, [] => false
  | [], _ :: _ => true
  | x :: a', y :: b' => (bval x <? bval y) || ((bval x =? bval y) && bytes_ltb a' b')
  end.
Definition dictionary : Type := list (bytes * bytes).
Fixpoint dict_set (k v : bytes) (d : dictionary) : dictionary :=
  match d with
  | [] => [(k, v)]
  | (k', v') :: d' =>
      if bytes_eqb k k' then (k, v) :: d'
      else if bytes_ltb k k' then (k, v) :: d else (k', v') :: dict_set k v d'
  end.

(** [find('=')] *)
Fixpoint split_at (c : byte) (s : bytes) : option (bytes * bytes) :=
  match s with
  | [] => None
  | b :: s' => if Byte.eqb b c then Some ([], s')
               else match split_at c s' with Some (a, r) => Some (b :: a, r) | None => None end
  end.

Fixpoint read_lines (lines : list bytes) (result : dictionary) : outcome dictionary :=
  match lines with
  | [] => Ret result
  | l :: lines' =>
      let line := trim l in
      match line with
      | [] => read_lines lines' result
      | c :: _ =>
          if Byte.eqb c x23 || Byte.eqb c x3b then read_lines lines' result
          else match split_at x3d line with
               | None => Throw RuntimeError
               | Some (a, r) =>
                   let key := trim a in
                   let value := trim r in
                   if is_empty key then Throw RuntimeError
                   else read_lines lines' (dict_set key value result)
               end
      end
  end.

Inductive file_state := Absent | Unreadable | Contents (s : bytes).
Definition read_config_file (f : file_state) : outcome dictionary :=
  match f with
  | Contents s => read_lines (getlines [] s) []
  | _ => Throw RuntimeError
  end.

Record configuration := Configuration {
  swap_enabled : bool;
  swap_file : bytes;
  swap_file_size : Z;
  memory_high : bytes;
  memory_max : bytes;
  memory_swap_max : bytes;
  source : bytes
}.
Definition default_configuration : configuration :=
  Configuration false (str "/var/lib/anbox/anbox.swap") 0 [] [] [] [].

(** The handlers, one for each key that is known. *)
Definition handler (key : bytes) : option (bytes -> configuration -> outcome configuration) :=
  if bytes_eqb key (str "android.memory.high") then Some (fun v c =>
    l <-! normalize_limit v; Ret (Configuration (swap_enabled c) (swap_file c) (swap_file_size c) l (memory_max c) (memory_swap_max c) (source c)))
  else if bytes_eqb key (str "android.memory.max") then Some (fun v c =>
    l <-! normalize_limit v; Ret (Configuration (swap_enabled c) (swap_file c) (swap_file_size c) (memory_high c) l (memory_swap_max c) (source c)))
  else if bytes_eqb key (str "android.memory.swap.max") then Some (fun v c =>
    l <-! normalize_limit v; Ret (Configuration (swap_enabled c) (swap_file c) (swap_file_size c) (memory_high c) (memory_max c) l (source c)))
  else if bytes_eqb key (str "android.swap.enabled") then Some (fun v c =>
    b <-! parse_bool v; Ret (Configuration b (swap_file c) (swap_file_size c) (memory_high c) (memory_max c) (memory_swap_max c) (source c)))
  else if bytes_eqb key (str "android.swap.file") then Some (fun v c =>
    Ret (Configuration (swap_enabled c) v (swap_file_size c) (memory_high c) (memory_max c) (memory_swap_max c) (source c)))
  else if bytes_eqb key (str "android.swap.file_size") then Some (fun v c =>
    n <-! parse_size v false; Ret (Configuration (swap_enabled c) (swap_file c) n.1 (memory_high c) (memory_max c) (memory_swap_max c) (source c)))
  else None.

Fixpoint handle_values (values : dictionary) (c : configuration) : outcome configuration :=
  match values with
  | [] => Ret c
  | (key, value) :: values' =>
      match handler key with
      | None => Throw RuntimeError
      | Some h => c <-! h value c; handle_values values' c
      end
  end.

Definition numeric (l : bytes) : bool := negb (is_empty l) && negb (bytes_eqb l (str "max")).
(** The checks after the values are read. *)
Definition check_configuration (c : configuration) : outcome configuration :=
  if negb (is_empty (swap_file c)) && negb (starts_with (swap_file c) (str "/")) then Throw RuntimeError
  else if swap_enabled c && (swap_file_size c =? 0) then Throw RuntimeError
  else if numeric (memory_high c) && numeric (memory_max c) then
    match stoull (memory_high c), stoull (memory_max c) with
    | Some (h, _), Some (m, _) => if m <? h then Throw RuntimeError else Ret c
    | _, _ => Throw OutOfRange
    end
  else Ret c.

(** The candidates are the path of the environment variable, or the fixed
    ones and the one of the data directory. *)
Definition candidates (env_path data_path : bytes) : list bytes :=
  if is_empty env_path then [str "/etc/anbox/memory.conf"; str "/var/lib/anbox/memory.conf"; data_path]
  else [env_path].
(** The first that exists. *)
Fixpoint select (files : bytes -> file_state) (l : list bytes) : option bytes :=
  match l with
  | [] => None
  | p :: l' => match files p with Absent => select files l' | _ => Some p end
  end.
Definition load_configuration (env_path data_path : bytes) (files : bytes -> file_state) : outcome configuration :=
  match select files (candidates env_path data_path) with
  | None => Ret default_configuration
  | Some selected =>
      values <-! read_config_file (files selected);
      c <-! handle_values values (Configuration false (str "/var/lib/anbox/anbox.swap") 0 [] [] [] selected);
      check_configuration c
  end.

(** The settings made in the LXC configuration. *)
Definition apply_lxc_limits (cgroup2 : bool) (c : configuration) : outcome (list (bytes * bytes)) :=
  if is_empty (memory_high c) && is_empty (memory_max c) && is_empty (memory_swap_max c) then Ret []
  else if negb cgroup2 then Throw RuntimeError
  else Ret ((if is_empty (memory_high c) then [] else [(str "lxc.cgroup2.memory.high", memory_high c)]) ++
            (if is_empty (memory_max c) then [] else [(str "lxc.cgroup2.memory.max", memory_max c)]) ++
            (if is_empty (memory_swap_max c) then [] else [(str "lxc.cgroup2.memory.swap.max", memory_swap_max c)])).

(** * The swap file *)

(** A file as far as the checks see it; [signature] is what reading the last
    ten bytes of the first page gives. *)
Record file := File {
  regular : bool;
  root_owned : bool;
  mode : Z;
  f_size : Z;
  blocks : Z;
  signature : bytes
}.
(** A directory entry: the file, or a symbolic link with the file it leads to. *)
Inductive node := Node (f : file) | Link (target : option file).
Definition follow (n : node) : option file := match n with Node f => Some f | Link t => t end.

(** The files, the first fields of /proc/swaps, and our descriptor of the
    temporary file: open, and how often it was closed again after that. *)
Record store := Store {
  files : gmap bytes node;
  swaps : list bytes;
  fd_open : bool;
  stray_closes : nat
}.
Definition with_files (f : gmap bytes node) (s : store) : store := Store f (swaps s) (fd_open s) (stray_closes s).
Definition with_swaps (l : list bytes) (s : store) : store := Store (files s) l (fd_open s) (stray_closes s).

(** What the system answers. *)
Record system := System {
  is_root : bool;
  parent_is_directory : bool;
  lstat_ok : bool;
  chmod_ok : bool;
  open_temporary_ok : bool;
  statfs_type : option Z;
  getflags_ok : bool;
  setflags_ok : bool;
  fallocate_code : Z;
  fallocated_blocks : Z;
  fstat_ok : bool;
  fsync_ok : bool;
  mkswap : file -> Z * file;
  rename_ok : bool;
  swapon_code : Z;
  swapoff_code : Z;
  (* the name as the kernel prints it in /proc/swaps *)
  printed : bytes -> bytes
}.

Definition swapspace2 : bytes := str "SWAPSPACE2".
Definition has_swap_signature (path : bytes) (s : store) : bool :=
  match files s !! path ≫= follow with Some f => bytes_eqb (signature f) swapspace2 | None => false end.
Definition is_regular_file (path : bytes) (s : store) : bool :=
  match files s !! path ≫= follow with Some f => regular f | None => false end.
Definition exists_ (path : bytes) (s : store) : bool := bool_decide (is_Some (files s !! path ≫= follow)).
Definition configured_swap_active (path : bytes) (s : store) : bool := bool_decide (path ∈ swaps s).

Definition require (b : bool) : M store unit := if b then mret tt else throw RuntimeError.
(** [try { c } catch (...) { cleanup; throw; }] *)
Definition on_throw {A} (c : M store A) (cleanup : M store unit) : M store A := fun s =>
  match c s with
  | (s', Throw e) => ((cleanup s').1, Throw e)
  | r => r
  end.

Definition close_fd : M store unit := modify (fun s =>
  if fd_open s then Store (files s) (swaps s) false (stray_closes s)
  else Store (files s) (swaps s) false (S (stray_closes s))).
(** The code ignores whether [unlink] succeeds; here it does: where it fails,
    the temporary file stays, which nothing else depends on. *)
Definition unlink (path : bytes) : M store unit := modify (fun s => with_files (delete path (files s)) s).
Definition update_file (path : bytes) (g : file -> file) : M store unit := modify (fun s =>
  match files s !! path with
  | Some (Node f) => with_files (<[path := Node (g f)]> (files s)) s
  | _ => s
  end).
Definition chmod600 (f : file) : file := File (regular f) (root_owned f) 384 (f_size f) (blocks f) (signature f).
Definition allocate (n b : Z) (f : file) : file :=
  File (regular f) (root_owned f) (mode f) (Z.max (f_size f) n) b (signature f).

Definition btrfs_super_magic : Z := 2435016766.
Definition ext_super_magic : Z := 61267.
Definition f2fs_super_magic : Z := 4076150800.
Definition xfs_super_magic : Z := 1481003842.

Section swap.
Context (sys : system).

Definition validate_swap_filesystem : M store unit :=
  match statfs_type sys with
  | None => throw RuntimeError
  | Some t =>
      if negb (t =? ext_super_magic) && negb (t =? xfs_super_magic) &&
         negb (t =? btrfs_super_magic) && negb (t =? f2fs_super_magic) then throw RuntimeError
      else if t =? btrfs_super_magic then
        require (getflags_ok sys) ≫= fun _ => require (setflags_ok sys)
      else mret tt
  end.

(** The existing swap file of [create_swap]. *)
Definition check_existing (path : bytes) (size : Z) : M store unit :=
  require (lstat_ok sys) ≫= fun _ =>
  s ← get;
  match files s !! path with
  | Some (Node f) =>
      require (regular f && root_owned f) ≫= fun _ =>
      require (u64 (f_size f) =? size) ≫= fun _ =>
      require (has_swap_signature path s) ≫= fun _ =>
      if chmod_ok sys then update_file path chmod600 else mret tt
  | _ => throw RuntimeError
  end.

(** The body of the [try]. *)
Definition fill_temporary (temporary path : bytes) (size : Z) : M store unit :=
  validate_swap_filesystem ≫= fun _ =>
  require (fallocate_code sys =? 0) ≫= fun _ =>
  update_file temporary (allocate size (fallocated_blocks sys)) ≫= fun _ =>
  require (fstat_ok sys) ≫= fun _ =>
  s ← get;
  require (match files s !! temporary with Some (Node f) => size <=? u64 (u64 (blocks f) * 512) | _ => false end) ≫= fun _ =>
  require (fsync_ok sys) ≫= fun _ =>
  close_fd ≫= fun _ =>
  s ← get;
  let code := match files s !! temporary with Some (Node f) => (mkswap sys f).1 | _ => 1 end in
  update_file temporary (fun f => (mkswap sys f).2) ≫= fun _ =>
  require (code =? 0) ≫= fun _ =>
  s ← get;
  if rename_ok sys then
    match files s !! temporary with
    | Some n => modify (with_files (<[path := n]> (delete temporary (files s))))
    | None => throw RuntimeError
    end
  else throw RuntimeError.

(** [create_swap] with the configuration it loads; [temporary] is the path
    with the suffix of our process. *)
Definition create_swap (c : configuration) (temporary : bytes) : M store unit :=
  require (is_root sys) ≫= fun _ =>
  require (negb (swap_file_size c =? 0)) ≫= fun _ =>
  require (parent_is_directory sys) ≫= fun _ =>
  s ← get;
  if exists_ (swap_file c) s then check_existing (swap_file c) (swap_file_size c)
  else
    require (open_temporary_ok sys && negb (bool_decide (is_Some (files s !! temporary)))) ≫= fun _ =>
    modify (fun s => Store (<[temporary := Node (File true true 384 0 0 [])]> (files s)) (swaps s) true (stray_closes s)) ≫= fun _ =>
    on_throw (fill_temporary temporary (swap_file c) (swap_file_size c))
      (close_fd ≫= fun _ => unlink temporary).

Definition swapon (path : bytes) : M store unit :=
  if swapon_code sys =? 0 then modify (fun s => with_swaps (swaps s ++ [printed sys path]) s)
  else throw RuntimeError.
Definition swapoff (path : bytes) : M store unit :=
  if swapoff_code sys =? 0 then modify (fun s => with_swaps (filter (fun p => p <> printed sys path) (swaps s)) s)
  else throw RuntimeError.

Definition activate (c : configuration) : M store unit :=
  s ← get;
  require (is_regular_file (swap_file c) s) ≫= fun _ =>
  require (has_swap_signature (swap_file c) s) ≫= fun _ =>
  if configured_swap_active (swap_file c) s then mret tt else swapon (swap_file c).
Definition enable_swap (c : configuration) : M store unit :=
  require (is_root sys) ≫= fun _ => activate c.
Definition disable_swap (c : configuration) : M store unit :=
  require (is_root sys) ≫= fun _ =>
  s ← get;
  if configured_swap_active (swap_file c) s then swapoff (swap_file c) else mret tt.
(** At the start of the container. *)
Definition prepare_configured_swap (c : configuration) : M store unit :=
  if swap_enabled c then require (is_root sys) ≫= fun _ => activate c else mret tt.
End swap.

(** * Lemmas: strings *)

Lemma lower_app a b : lower (a ++ b) = lower a ++ lower b.
Proof. apply fmap_app. Qed.
Lemma to_lower_space b : is_space (to_lower b) = is_space b.
Proof. by destruct b. Qed.
Lemma to_lower_digit b : is_digit (to_lower b) = is_digit b.
Proof. by destruct b. Qed.

Definition spaces (w : bytes) : Prop := Forall (fun b => is_space b = true) w.
Definition solid (s : bytes) : Prop := Forall (fun b => is_space b = false) s.

Lemma skip_spaces_app w s : spaces w -> skip_spaces (w ++ s) = skip_spaces s.
Proof. induction 1 as [|b w Hb _ IH]; [done|]. simpl. by rewrite Hb. Qed.
Lemma skip_spaces_solid s : solid s -> skip_spaces s = s.
Proof. destruct 1 as [|b s Hb _]; [done|]. simpl. by rewrite Hb. Qed.

Lemma trim_solid w1 s w2 : spaces w1 -> spaces w2 -> solid s -> trim (w1 ++ s ++ w2) = s.
Proof.
  intros H1 H2 Hs. unfold trim, trim_right. rewrite skip_spaces_app by done.
  destruct Hs as [|b s Hb Hs].
  - assert (skip_spaces w2 = []) as Hw by (rewrite <- (app_nil_r w2); by rewrite skip_spaces_app).
    simpl. by rewrite Hw.
  - change ((b :: s) ++ w2) with (b :: (s ++ w2)). cbn [skip_spaces]. rewrite Hb.
    change (b :: s ++ w2) with ((b :: s) ++ w2). rewrite reverse_app, skip_spaces_app by by apply Forall_reverse.
    rewrite skip_spaces_solid by (apply Forall_reverse; by constructor). apply reverse_involutive.
Qed.

Lemma print_d_decimal n : 0 <= n < 10 ^ 64 ->
  exists d ds, print_d n = digit_char <$> (d :: ds) /\ Forall (fun d => 0 <= d < 10) (d :: ds) /\
    base_value 10 (d :: ds) 0 = n.
Proof. intros Hn. unfold print_d. rewrite (proj2 (Z.ltb_ge n 0)) by lia. by apply print_decimal. Qed.

Lemma digit_char_solid ds : Forall (fun d => 0 <= d < 10) ds -> solid (digit_char <$> ds).
Proof. intros Hds. unfold solid. rewrite Forall_fmap. eapply Forall_impl; [exact Hds|]. intros d Hd. by apply digit_char_decimal. Qed.
Lemma digit_char_lower ds : Forall (fun d => 0 <= d < 10) ds -> lower (digit_char <$> ds) = digit_char <$> ds.
Proof.
  unfold lower. induction 1 as [|d ds Hd _ IH]; [done|]. rewrite !fmap_cons. f_equal; [|done].
  destruct (digit_char_decimal d Hd) as [H _]. revert H. generalize (digit_char d). by intros [].
Qed.

(** A printed number and what follows it. *)
Lemma stoull_print n r : 0 <= n < 10 ^ 64 -> match r with b :: _ => is_digit b = false | [] => True end ->
  stoull (print_d n ++ r) = if n <=? UINT64_MAX then Some (n, r) else None.
Proof.
  intros Hn Hr. destruct (print_d_decimal n Hn) as (d & ds & -> & Hds & Hv).
  pose proof (span_digits_rest (d :: ds) r Hds Hr) as Hs. pose proof (digits_value_spec (d :: ds) Hds) as Hdv.
  destruct (digit_char_decimal d (Forall_inv Hds)) as (_ & Hsp & _ & Hm & Hp).
  unfold stoull. rewrite fmap_cons in *. cbn [app skip_spaces]. rewrite Hsp. cbv iota zeta. rewrite Hm, Hp.
  cbn [app] in Hs. rewrite Hs. rewrite Hdv, Hv. done.
Qed.

Lemma stoull_range s v r : stoull s = Some (v, r) -> 0 <= v <= UINT64_MAX.
Proof.
  unfold stoull. destruct (match skip_spaces s with [] => _ | _ => _ end) as [neg l].
  destruct (span_digits l) as [ds rest] eqn:Es. destruct ds as [|b ds]; [done|].
  destruct (_ <=? _) eqn:El; [|done]. intros [= <- <-]. bdestruct_all. destruct neg.
  - unfold u64, UINT64_MAX. pose proof (Z.mod_pos_bound (- digits_value (b :: ds)) (2 ^ 64)). lia.
  - split; [|done]. assert (forall l v, 0 <= v -> Forall (fun b => is_digit b = true) l ->
      0 <= fold_left (fun v d => 10 * v + digit_value d) l v) as Hpos.
    { induction l0 as [|x l0 IH]; intros v Hv Hl; [done|]. inversion Hl as [|? ? Hx Hl']; subst. simpl. apply IH; [|done].
      unfold is_digit, digit_value in *. bdestruct_all. lia. }
    apply Hpos; [done|].
    assert (forall l, Forall (fun b => is_digit b = true) (span_digits l).1) as Hd.
    { clear. induction l as [|x l IH]; simpl; [constructor|]. destruct (is_digit x) eqn:E; [|constructor].
      destruct (span_digits l). by constructor. }
    specialize (Hd l). by rewrite Es in Hd.
Qed.

(** * Lemmas: sizes *)

Definition unit_name (s : bytes) : Prop :=
  solid s /\ Forall (fun b => is_digit b = false) s /\ s <> str "max".

Lemma one_of_unit s l : one_of s l = true -> Forall (fun t => unit_name (str t)) l -> unit_name s.
Proof.
  intros (t & Ht & He)%existsb_exists Hl. apply bool_decide_eq_true in He as ->.
  rewrite Forall_forall in Hl. apply Hl. by apply list_elem_of_In.
Qed.

Lemma multiplier_cases s m : multiplier s = Some m -> 1 <= m /\ unit_name s.
Proof.
  assert (forall t, solid t -> Forall (fun b => is_digit b = false) t -> t <> str "max" -> unit_name t) as Hu by done.
  unfold multiplier. destruct (is_empty s || _) eqn:E0.
  { intros [= <-]. split; [done|]. apply orb_true_iff in E0 as [He|He%bool_decide_eq_true].
    - destruct s; [|done]. by apply Hu; [constructor|constructor|].
    - subst s. by apply Hu; repeat constructor. }
  repeat match goal with
  | |- context [if one_of s ?l then _ else _] =>
      let E := fresh "E" in destruct (one_of s l) eqn:E;
      [intros [= <-]; split; [done|]; eapply one_of_unit; [exact E|];
       repeat (apply Forall_cons; split; [by apply Hu; repeat constructor|]); constructor|]
  end. done.
Qed.

Lemma lower_name u : unit_name (lower u) -> solid u /\ Forall (fun b => is_digit b = false) u.
Proof.
  unfold unit_name, solid, lower. rewrite !Forall_fmap. intros (H1 & H2 & _). split.
  - eapply Forall_impl; [exact H1|]. intros b. unfold compose. by rewrite to_lower_space.
  - eapply Forall_impl; [exact H2|]. intros b. unfold compose. by rewrite to_lower_digit.
Qed.

(** A number with a unit, in any case and with spaces around it. *)
Lemma parse_size_print n u m w1 w2 allow :
  0 <= n < 10 ^ 64 -> multiplier (lower u) = Some m -> spaces w1 -> spaces w2 ->
  parse_size (w1 ++ print_d n ++ u ++ w2) allow =
    if n * m <=? UINT64_MAX then Ret (n * m, false) else Throw RuntimeError.
Proof.
  intros Hn Hm H1 H2. destruct (multiplier_cases _ _ Hm) as [Hm1 Hu]. destruct (lower_name u Hu) as [Hus Hud].
  destruct (print_d_decimal n Hn) as (d & ds & Hp & Hds & _).
  pose proof (digit_char_solid _ Hds) as Hsol. pose proof (digit_char_lower _ Hds) as Hlow. rewrite <- Hp in Hsol, Hlow.
  unfold parse_size. rewrite (app_assoc (print_d n)), trim_solid by (done || by apply Forall_app_2).
  rewrite lower_app, Hlow.
  assert (bytes_eqb (print_d n ++ lower u) (str "max") = false) as ->.
  { apply bool_decide_eq_false. rewrite Hp, fmap_cons. intros [= He _].
    destruct (digit_char_decimal d (Forall_inv Hds)) as [Hd _]. by rewrite He in Hd. }
  rewrite andb_false_r.
  assert (is_empty (print_d n ++ lower u) = false) as -> by by rewrite Hp.
  rewrite stoull_print; [|done|].
  2: { destruct Hu as (_ & Hu & _). destruct (lower u); [done|]. by inversion Hu. }
  unfold UINT64_MAX in *. destruct (n <=? 2 ^ 64 - 1) eqn:En; bdestruct_all.
  - rewrite Hm. assert (n * m <= 2 ^ 64 - 1 <-> n <= (2 ^ 64 - 1) `div` m) as Hdiv.
    { rewrite Z.mul_comm. split; intros H; [by apply Z.div_le_lower_bound; [lia|]|].
      pose proof (Z.mul_div_le (2 ^ 64 - 1) m ltac:(lia)). nia. }
    destruct (_ <? n) eqn:E1; destruct (n * m <=? _) eqn:E2; bdestruct_all; try lia; [done|].
    unfold u64. rewrite Z.mod_small; [done|]. nia.
  - assert (n * m <=? 2 ^ 64 - 1 = false) as ->; [|done]. apply Z.leb_gt. nia.
Qed.

(** Conversely, what is accepted is "max", or digits and a unit, with a sign
    that may be a minus: the number is then what is missing to 2^64. *)
Definition read_number (sign ds : bytes) : Z :=
  if bytes_eqb sign (str "-") then (2 ^ 64 - digits_value ds) `mod` 2 ^ 64 else digits_value ds.
Definition accepted (v : bytes) (allow : bool) (n : Z) (is_max : bool) : Prop :=
  (is_max = true /\ n = 0 /\ allow = true /\ lower (trim v) = str "max") \/
  (is_max = false /\ exists w sign ds u m,
     lower (trim v) = w ++ sign ++ ds ++ u /\ spaces w /\ sign ∈ [[]; str "+"; str "-"] /\
     ds <> [] /\ Forall (fun b => is_digit b = true) ds /\ digits_value ds <= UINT64_MAX /\ multiplier u = Some m /\
     n = read_number sign ds * m /\ n <= UINT64_MAX).

Lemma skip_spaces_spec l : exists w, l = w ++ skip_spaces l /\ spaces w.
Proof.
  assert (spaces []) as H0 by constructor.
  induction l as [|b l [w [Hl Hw]]]; [by exists []|]. cbn [skip_spaces]. destruct (is_space b) eqn:E; [|by exists []].
  exists (b :: w). split; [by rewrite Hl at 1|by constructor].
Qed.
Lemma span_digits_split l : l = (span_digits l).1 ++ (span_digits l).2 /\ Forall (fun b => is_digit b = true) (span_digits l).1.
Proof.
  induction l as [|b l [Hl Hd]]; [done|]. cbn [span_digits]. destruct (is_digit b) eqn:E; [|done].
  destruct (span_digits l) as [ds r]. cbn [fst snd] in *. split; [by rewrite Hl at 1|by constructor].
Qed.
Lemma digits_value_nonneg ds : Forall (fun b => is_digit b = true) ds -> 0 <= digits_value ds.
Proof.
  intros Hd. unfold digits_value.
  assert (forall a, 0 <= a -> 0 <= fold_left (fun v d => 10 * v + digit_value d) ds a) as H; [|by apply H].
  induction Hd as [|b ds Hb _ IH]; intros a Ha; [done|]. apply IH. unfold is_digit in Hb. apply andb_prop in Hb as [H1 H2].
  bdestruct_all. unfold digit_value. lia.
Qed.
Lemma stoull_accepts s n rest : stoull s = Some (n, rest) -> exists w sign ds,
  s = w ++ sign ++ ds ++ rest /\ spaces w /\ sign ∈ [[]; str "+"; str "-"] /\
  ds <> [] /\ Forall (fun b => is_digit b = true) ds /\ digits_value ds <= UINT64_MAX /\ n = read_number sign ds.
Proof.
  destruct (skip_spaces_spec s) as (w & Hs & Hw). unfold stoull.
  assert (exists sign l, skip_spaces s = sign ++ l /\ sign ∈ [[]; str "+"; str "-"] /\
    match skip_spaces s with
    | b :: l' => if Byte.eqb b x2d then (true, l') else if Byte.eqb b x2b then (false, l') else (false, skip_spaces s)
    | [] => (false, [])
    end = (bytes_eqb sign (str "-"), l)) as (sign & l & Hl & Hsign & ->).
  { destruct (skip_spaces s) as [|b l']; [exists [], []; split_and!; [done|left|done]|].
    destruct (Byte.eqb b x2d) eqn:E1; [apply Byte.byte_dec_bl in E1 as ->; exists (str "-"), l'; split_and!; [done|set_solver|done]|].
    destruct (Byte.eqb b x2b) eqn:E2; [apply Byte.byte_dec_bl in E2 as ->; exists (str "+"), l'; split_and!; [done|set_solver|done]|].
    exists [], (b :: l'). split_and!; [done|left|done]. }
  destruct (span_digits_split l) as [Hspan Hd]. destruct (span_digits l) as [ds r]. cbn [fst snd] in *.
  destruct ds as [|d ds]; [done|]. destruct (_ <=? _) eqn:Ev; [|done]. intros [= <- <-]. bdestruct_all.
  exists w, sign, (d :: ds). split_and!; try done; [by rewrite <- Hspan, <- Hl|].
  unfold read_number. destruct (bytes_eqb _ _); [|done]. unfold u64.
  replace (- digits_value (d :: ds)) with (2 ^ 64 - digits_value (d :: ds) + (-1) * 2 ^ 64) by lia. by rewrite Z.mod_add.
Qed.
Lemma parse_size_accepts v allow n mx : parse_size v allow = Ret (n, mx) -> accepted v allow n mx.
Proof.
  unfold parse_size. destruct (allow && _) eqn:Emax.
  { intros [= <- <-]. apply andb_prop in Emax as [-> Em%bool_decide_eq_true]. left. done. }
  destruct (is_empty _); [done|]. destruct (stoull _) as [[number u]|] eqn:Est; [|done].
  destruct (multiplier u) as [m|] eqn:Em; [|done]. destruct (_ <? number) eqn:Eov; [done|]. intros [= <- <-]. right. split; [done|].
  destruct (stoull_accepts _ _ _ Est) as (w & sign & ds & Hv & Hw & Hsign & Hds & Hd & Hr & Hn).
  apply Z.ltb_ge in Eov.
  assert (0 <= number) as H0.
  { rewrite Hn. unfold read_number. destruct (bytes_eqb sign (str "-")); [|by apply digits_value_nonneg].
    pose proof (Z.mod_pos_bound (2 ^ 64 - digits_value ds) (2 ^ 64)). lia. }
  assert (1 <= m) as Hm by (by destruct (multiplier_cases u m Em)).
  assert (number * m <= UINT64_MAX) as Hle by (pose proof (Z.mul_div_le UINT64_MAX m ltac:(lia)); nia).
  assert (u64 (number * m) = number * m) as Hu by (unfold u64; apply Z.mod_small; unfold UINT64_MAX in Hle; nia).
  exists w, sign, ds, u, m. rewrite Hu, <- Hn. split_and!; done.
Qed.

Lemma parse_size_range s allow v b : parse_size s allow = Ret (v, b) -> 0 <= v <= UINT64_MAX.
Proof.
  unfold parse_size. repeat case_match; try done; intros [= <- <-]; [done|].
  unfold u64, UINT64_MAX. pose proof (Z.mod_pos_bound (z * z0) (2 ^ 64)). lia.
Qed.
Lemma parse_size_throws s allow : (exists r, parse_size s allow = Ret r) \/ parse_size s allow = Throw RuntimeError.
Proof. unfold parse_size. repeat case_match; eauto. Qed.

(** A limit of the configuration: unset, "max", or a number of bytes. *)
Definition limit_ok (l : bytes) : Prop := l = [] \/ l = str "max" \/ exists n, 0 <= n <= UINT64_MAX /\ l = print_d n.

Lemma normalize_limit_ok v l : normalize_limit v = Ret l -> limit_ok l.
Proof.
  unfold normalize_limit. destruct (parse_size v true) as [[n b]| | |] eqn:E; try done. cbn. intros [= <-].
  apply parse_size_range in E. destruct b; [by right; left|]. right; right. by exists n.
Qed.

Lemma uint64_decimal n : 0 <= n <= UINT64_MAX -> 0 <= n < 10 ^ 64.
Proof. unfold UINT64_MAX. intros H. assert (2 ^ 64 < 10 ^ 64) by done. lia. Qed.

Lemma normalize_limit_idem v l : normalize_limit v = Ret l -> normalize_limit l = Ret l.
Proof.
  unfold normalize_limit at 1. destruct (parse_size v true) as [[n b]| | |] eqn:E; try done. cbn. intros [= <-].
  apply parse_size_range in E. destruct b; [done|]. unfold normalize_limit.
  pose proof (parse_size_print n [] 1 [] [] true (uint64_decimal n E) eq_refl ltac:(constructor) ltac:(constructor)) as Hp.
  rewrite app_nil_r in Hp. cbn [app] in Hp. rewrite Hp, Z.mul_1_r.
  by rewrite (proj2 (Z.leb_le _ _)) by lia.
Qed.

(** * Lemmas: the dictionary *)

Lemma bytes_ltb_trans a b c : bytes_ltb a b = true -> bytes_ltb b c = true -> bytes_ltb a c = true.
Proof.
  revert b c; induction a as [|x a IH]; intros [|y b] [|z c]; simpl; try done.
  intros H1 H2. apply orb_true_iff in H1 as [H1|[H1 H1']%andb_true_iff];
    apply orb_true_iff in H2 as [H2|[H2 H2']%andb_true_iff]; bdestruct_all; apply orb_true_iff.
  - left. apply Z.ltb_lt. lia.
  - left. apply Z.ltb_lt. lia.
  - left. apply Z.ltb_lt. lia.
  - right. rewrite (IH b c) by done. rewrite (proj2 (Z.eqb_eq _ _)) by lia. done.
Qed.
Lemma bytes_ltb_irrefl a : bytes_ltb a a = false.
Proof. induction a as [|x a IH]; [done|]. simpl. by rewrite Z.ltb_irrefl, IH, andb_false_r. Qed.
Lemma bval_inj a b : bval a = bval b -> a = b.
Proof. intros H. by rewrite <- (to_byte_bval a), <- (to_byte_bval b), H. Qed.
Lemma bytes_ltb_total a b : bytes_ltb a b = false -> a <> b -> bytes_ltb b a = true.
Proof.
  revert b; induction a as [|x a IH]; intros [|y b]; simpl; try done.
  intros [H1 H2]%orb_false_iff Hne. bdestruct_all. apply orb_true_iff.
  destruct (bval x =? bval y) eqn:E; bdestruct_all.
  - right. apply bval_inj in E as ->. rewrite Z.eqb_refl. cbn [andb] in *. apply IH; [done|congruence].
  - left. apply Z.ltb_lt. lia.
Qed.

Definition key_lt (a b : bytes * bytes) : Prop := bytes_ltb a.1 b.1 = true.
Definition sorted_keys (d : dictionary) : Prop := StronglySorted key_lt d.

Lemma dict_set_keys k v d : forall x, x ∈ (dict_set k v d).*1 -> x = k \/ x ∈ d.*1.
Proof.
  induction d as [|[k' v'] d IH]; simpl; intros x.
  { rewrite list_elem_of_singleton. tauto. }
  repeat case_match; simpl; rewrite !elem_of_cons.
  - tauto.
  - tauto.
  - intros [->|Hx]; [tauto|]. apply IH in Hx. tauto.
Qed.

Lemma dict_set_sorted k v d : sorted_keys d -> sorted_keys (dict_set k v d).
Proof.
  unfold sorted_keys. induction 1 as [|[k' v'] d Hs IH Hf]; simpl; [by repeat constructor|].
  destruct (bytes_eqb k k') eqn:Ek.
  { apply bool_decide_eq_true in Ek as ->. by constructor. }
  apply bool_decide_eq_false in Ek. destruct (bytes_ltb k k') eqn:El.
  - constructor; [by constructor|]. constructor; [done|]. eapply Forall_impl; [exact Hf|].
    intros x Hx. by eapply bytes_ltb_trans.
  - constructor; [done|]. apply Forall_forall. intros x Hx.
    assert (x.1 ∈ (dict_set k v d).*1) as Hx1 by by apply list_elem_of_fmap_2.
    unfold key_lt. simpl. apply dict_set_keys in Hx1 as [->|Hx1]; [apply bytes_ltb_total; [done|congruence]|].
    apply list_elem_of_fmap in Hx1 as (y & -> & Hy). rewrite Forall_forall in Hf. by apply Hf.
Qed.

Fixpoint dict_get (k : bytes) (d : dictionary) : option bytes :=
  match d with
  | [] => None
  | (k', v) :: d' => if bytes_eqb k k' then Some v else dict_get k d'
  end.
Lemma dict_get_set k k' v d : dict_get k (dict_set k' v d) = if bytes_eqb k k' then Some v else dict_get k d.
Proof.
  unfold bytes_eqb. induction d as [|[k2 v2] d IH]; simpl; [done|]. unfold bytes_eqb.
  destruct (decide (k' = k2)) as [->|Hne].
  - rewrite (bool_decide_true (k2 = k2)) by done. simpl. unfold bytes_eqb. by repeat case_bool_decide.
  - rewrite (bool_decide_false (k' = k2)) by done. destruct (bytes_ltb k' k2); simpl; unfold bytes_eqb; [by repeat case_bool_decide|].
    rewrite IH. repeat case_bool_decide; congruence.
Qed.
Lemma dict_get_none k d : dict_get k d = None -> k ∉ d.*1.
Proof.
  induction d as [|[k' v] d IH]; simpl; [intros _; apply not_elem_of_nil|].
  destruct (bytes_eqb k k') eqn:E; [done|]. apply bool_decide_eq_false in E. intros H%IH. by apply not_elem_of_cons.
Qed.

(** The assignments of a file, in order; the last one to a key counts. *)
Fixpoint assignments (lines : list bytes) : list (bytes * bytes) :=
  match lines with
  | [] => []
  | l :: lines' =>
      match trim l with
      | [] => assignments lines'
      | c :: line =>
          if Byte.eqb c x23 || Byte.eqb c x3b then assignments lines'
          else match split_at x3d (c :: line) with
               | None => assignments lines'
               | Some (a, r) => (trim a, trim r) :: assignments lines'
               end
      end
  end.
Fixpoint last_value (k : bytes) (l : list (bytes * bytes)) : option bytes :=
  match l with
  | [] => None
  | (k', v) :: l' => match last_value k l' with
                     | Some w => Some w
                     | None => if bytes_eqb k k' then Some v else None
                     end
  end.

Lemma read_lines_spec lines : forall d d', sorted_keys d -> read_lines lines d = Ret d' ->
  sorted_keys d' /\ forall k, dict_get k d' =
    match last_value k (assignments lines) with Some v => Some v | None => dict_get k d end.
Proof.
  induction lines as [|l lines IH]; intros d d' Hd; cbn [read_lines assignments]; [by intros [= <-]|].
  destruct (trim l) as [|c line]; [by apply IH|]. destruct (_ || _); [by apply IH|].
  destruct (split_at x3d (c :: line)) as [[a r]|]; [|done]. destruct (is_empty _); [done|].
  intros H. destruct (IH _ _ (dict_set_sorted _ _ _ Hd) H) as [H1 H2]. split; [done|].
  intros k. rewrite H2, dict_get_set. cbn [last_value]. by destruct (last_value k _), (bytes_eqb k (trim a)).
Qed.
Lemma read_lines_throws lines : forall d, (exists r, read_lines lines d = Ret r) \/ read_lines lines d = Throw RuntimeError.
Proof. induction lines as [|l lines IH]; intros d; cbn [read_lines]; [eauto|]. repeat case_match; eauto. Qed.

(** * Lemmas: the handlers *)

Lemma handler_throws k h v c : handler k = Some h -> (exists c', h v c = Ret c') \/ h v c = Throw RuntimeError.
Proof.
  assert (forall v, (exists l, normalize_limit v = Ret l) \/ normalize_limit v = Throw RuntimeError) as Hn.
  { intros v'. unfold normalize_limit. destruct (parse_size_throws v' true) as [[r ->]| ->]; cbn; eauto. }
  unfold handler. repeat case_match; intros [= <-]; cbv beta;
    try (destruct (Hn v) as [[l ->]| ->]; cbn; by eauto).
  - unfold parse_bool. repeat case_match; cbn; eauto.
  - eauto.
  - destruct (parse_size_throws v false) as [[r ->]| ->]; cbn; eauto.
Qed.

Lemma handle_values_throws vals : forall c, (exists c', handle_values vals c = Ret c') \/ handle_values vals c = Throw RuntimeError.
Proof.
  induction vals as [|[k v] vals IH]; intros c; cbn [handle_values]; [eauto|].
  destruct (handler k) as [h|] eqn:Eh; [|eauto]. destruct (handler_throws _ _ v c Eh) as [[c' ->]| ->]; cbn; [apply IH|eauto].
Qed.

Lemma handle_values_known vals : forall c c', handle_values vals c = Ret c' -> Forall (fun kv => is_Some (handler kv.1)) vals.
Proof.
  induction vals as [|[k v] vals IH]; intros c c'; cbn [handle_values]; [constructor|].
  destruct (handler k) as [h|] eqn:Eh; [|done]. destruct (h v c) as [c1| | |]; try done. cbn. intros H.
  constructor; [by exists h|by eapply IH].
Qed.

(** The field that belongs to a key. *)
Lemma handle_values_field {A} (g : configuration -> A) (p : bytes -> outcome A) key vals :
  (forall k h v c c', handler k = Some h -> h v c = Ret c' -> if bytes_eqb key k then p v = Ret (g c') else g c' = g c) ->
  sorted_keys vals -> forall c c', handle_values vals c = Ret c' ->
  match dict_get key vals with Some v => p v = Ret (g c') | None => g c' = g c end.
Proof.
  intros Hh Hs. induction Hs as [|[k v] vals Hs IH Hf]; intros c c'; cbn [handle_values dict_get]; [by intros [= <-]|].
  destruct (handler k) as [h|] eqn:Eh; [|done]. destruct (h v c) as [c1| | |] eqn:E1; try done. cbn. intros H.
  specialize (Hh _ _ _ _ _ Eh E1). specialize (IH _ _ H). destruct (bytes_eqb key k) eqn:Ek.
  - apply bool_decide_eq_true in Ek as ->.
    assert (dict_get k vals = None) as Hn.
    { clear -Hf. induction Hf as [|[k2 v2] vals H2 _ IH]; [done|]. simpl. unfold bytes_eqb.
      rewrite bool_decide_false; [done|]. intros ->. unfold key_lt in H2. simpl in H2. by rewrite bytes_ltb_irrefl in H2. }
    rewrite Hn in IH. by rewrite IH.
  - destruct (dict_get key vals); [done|]. by rewrite IH.
Qed.

Definition parse_number (v : bytes) : outcome Z := r <-! parse_size v false; Ret r.1.
(** Field [g] after handling key [k]: parsed if [k] is its key, else kept. *)
Definition updates {A} (key k v : bytes) (p : bytes -> outcome A) (g : configuration -> A) (c c' : configuration) : Prop :=
  if bytes_eqb key k then p v = Ret (g c') else g c' = g c.

Ltac keys_differ := unfold updates, bytes_eqb;
  match goal with |- context [bool_decide (?a = ?b)] =>
    rewrite (bool_decide_false (a = b)) by (let H := fresh in intros H; vm_compute in H; discriminate H) end.
Ltac keys_agree := unfold updates, bytes_eqb; rewrite bool_decide_true by done.

(** The six handlers write six different fields. *)
Lemma handler_fields k h v c c' : handler k = Some h -> h v c = Ret c' ->
  updates (str "android.memory.high") k v normalize_limit memory_high c c' /\
  updates (str "android.memory.max") k v normalize_limit memory_max c c' /\
  updates (str "android.memory.swap.max") k v normalize_limit memory_swap_max c c' /\
  updates (str "android.swap.enabled") k v parse_bool swap_enabled c c' /\
  updates (str "android.swap.file") k v Ret swap_file c c' /\
  updates (str "android.swap.file_size") k v parse_number swap_file_size c c' /\
  source c' = source c.
Proof.
  unfold handler, bytes_eqb.
  repeat (match goal with |- context [bool_decide (k = ?s)] => destruct (bool_decide_reflect (k = s)) as [->|_] end;
    [intros [= <-]; cbv beta; unfold parse_number;
     repeat match goal with |- context [obind ?o _] => destruct o as [r| | |] eqn:Er; [cbn [obind]|done..] end;
     intros [= <-]; split_and!; first [keys_differ; done|keys_agree; rewrite ?Er; done|done]|]).
  done.
Qed.

Section fields.
Context (vals : dictionary) (Hs : sorted_keys vals) (c c' : configuration) (H : handle_values vals c = Ret c').

Definition field {A} (key : string) (p : bytes -> outcome A) (g : configuration -> A) : Prop :=
  match dict_get (str key) vals with Some v => p v = Ret (g c') | None => g c' = g c end.

Lemma all_fields :
  field "android.memory.high" normalize_limit memory_high /\
  field "android.memory.max" normalize_limit memory_max /\
  field "android.memory.swap.max" normalize_limit memory_swap_max /\
  field "android.swap.enabled" parse_bool swap_enabled /\
  field "android.swap.file" Ret swap_file /\
  field "android.swap.file_size" parse_number swap_file_size.
Proof.
  split_and!; (eapply handle_values_field; [|exact Hs|exact H]);
    intros k h v x x' Hk Hx; destruct (handler_fields _ _ _ _ _ Hk Hx) as (?&?&?&?&?&?&?); assumption.
Qed.
Lemma field_source : source c' = source c.
Proof.
  clear Hs. revert c H. induction vals as [|[k v] l IH]; intros c0; cbn [handle_values]; [by intros [= <-]|].
  destruct (handler k) as [h|] eqn:Eh; [|done]. destruct (h v c0) as [c1| | |] eqn:E1; try done. cbn. intros H1.
  rewrite (IH _ H1). by apply (handler_fields _ _ _ _ _ Eh E1).
Qed.
End fields.

Definition well_formed (c : configuration) : Prop :=
  limit_ok (memory_high c) /\ limit_ok (memory_max c) /\ limit_ok (memory_swap_max c) /\
  0 <= swap_file_size c <= UINT64_MAX /\
  (swap_file c = [] \/ exists p, swap_file c = str "/" ++ p) /\
  (swap_enabled c = true -> swap_file_size c <> 0) /\
  (forall h m, 0 <= h <= UINT64_MAX -> 0 <= m <= UINT64_MAX ->
     memory_high c = print_d h -> memory_max c = print_d m -> h <= m).

Lemma print_d_numeric n : 0 <= n <= UINT64_MAX ->
  numeric (print_d n) = true /\ stoull (print_d n) = Some (n, []).
Proof.
  intros Hn. pose proof (uint64_decimal n Hn) as Hd. split.
  - destruct (print_d_decimal n Hd) as (d & ds & -> & Hds & _). unfold numeric. rewrite fmap_cons. cbn [is_empty negb andb].
    apply negb_true_iff, bool_decide_eq_false. intros [= He _].
    destruct (digit_char_decimal d (Forall_inv Hds)) as [H _]. by rewrite He in H.
  - pose proof (stoull_print n [] Hd I) as H. rewrite app_nil_r in H. rewrite H.
    by rewrite (proj2 (Z.leb_le _ _)) by lia.
Qed.

Lemma limit_numeric l : limit_ok l -> numeric l = true -> exists n, 0 <= n <= UINT64_MAX /\ l = print_d n /\ stoull l = Some (n, []).
Proof.
  intros [->|[->|(n & Hn & ->)]] H; [done|done|]. exists n. split; [done|]. split; [done|]. by apply print_d_numeric.
Qed.

Lemma default_well_formed : well_formed default_configuration.
Proof.
  unfold well_formed. cbn. split_and!; try done; try (by left).
  - right. by eexists.
  - intros h m Hh _ He. destruct (print_d_decimal h (uint64_decimal h Hh)) as (d & ds & Hp & _). by rewrite Hp in He.
Qed.

Lemma check_configuration_spec c : limit_ok (memory_high c) -> limit_ok (memory_max c) -> limit_ok (memory_swap_max c) ->
  0 <= swap_file_size c <= UINT64_MAX ->
  (check_configuration c = Ret c /\ well_formed c) \/ check_configuration c = Throw RuntimeError.
Proof.
  intros Hh Hm Hs Hz. unfold check_configuration.
  destruct (negb _ && negb _) eqn:Ef; [by right|].
  assert (swap_file c = [] \/ exists p, swap_file c = str "/" ++ p) as Hf.
  { apply andb_false_iff in Ef as [Ef|Ef]; apply negb_false_iff in Ef; [left; by destruct (swap_file c)|right].
    by apply starts_with_spec. }
  destruct (swap_enabled c && _) eqn:Ee; [by right|].
  assert (swap_enabled c = true -> swap_file_size c <> 0) as He.
  { intros H. rewrite H in Ee. by apply Z.eqb_neq. }
  destruct (numeric (memory_high c) && numeric (memory_max c)) eqn:En.
  - apply andb_true_iff in En as [En1 En2].
    destruct (limit_numeric _ Hh En1) as (h & Hhr & Hhp & ->). destruct (limit_numeric _ Hm En2) as (m & Hmr & Hmp & ->).
    destruct (m <? h) eqn:El; [by right|left]. bdestruct_all. split; [done|]. split_and!; try done; try lia.
    intros h' m' Hh' Hm' H1 H2. destruct (print_d_numeric h Hhr) as [_ P1], (print_d_numeric m Hmr) as [_ P2].
    destruct (print_d_numeric h' Hh') as [_ P3], (print_d_numeric m' Hm') as [_ P4].
    rewrite <- H1, Hhp, P1 in P3. rewrite <- H2, Hmp, P2 in P4. simplify_eq. lia.
  - left. split; [done|]. split_and!; try done; try lia. intros h m Hhr Hmr H1 H2. exfalso.
    rewrite H1, H2 in En. destruct (print_d_numeric h Hhr) as [E1 _], (print_d_numeric m Hmr) as [E2 _].
    by rewrite E1, E2 in En.
Qed.

(** Field [g] of [c] is what the last assignment to [key] says, or its default. *)
Definition says {A} (given : list (bytes * bytes)) (c : configuration) (key : string) (p : bytes -> outcome A)
    (g : configuration -> A) : Prop :=
  match last_value (str key) given with Some v => p v = Ret (g c) | None => g c = g default_configuration end.

(** * Theorems: the configuration *)

(** C36: The memory configuration. Loading either throws [runtime_error] or
    gives a well-formed configuration: limits that are unset, "max" or a number
    of bytes in 64 bits, an absolute swap file, a size whenever swap is
    enabled, and a high limit not above the maximum. Without a file it is the
    default; otherwise every key of the first file that exists is known and
    each field is what the last assignment to its key says, or its default. A
    size that is a decimal without a sign, and a unit, in any case and with
    spaces around it, is exactly the number times the unit, and is rejected if
    that exceeds 64 bits. What is accepted at all has digits and a unit (or is
    "max"); it may have a sign, and a minus is not rejected: the number is then
    what is missing to 2^64, so -1 is the largest size ([negative_size]).
    Normalizing a limit twice changes nothing; and LXC gets exactly the limits
    that are set. *)
Theorem memory_configuration env_path data_path files :
  match load_configuration env_path data_path files with
  | Ret c =>
      well_formed c /\
      (select files (candidates env_path data_path) = None /\ c = default_configuration \/
       exists text, select files (candidates env_path data_path) = Some (source c) /\ files (source c) = Contents text /\
         let given := assignments (getlines [] text) in
         (forall k v, last_value k given = Some v -> is_Some (handler k)) /\
         says given c "android.memory.high" normalize_limit memory_high /\
         says given c "android.memory.max" normalize_limit memory_max /\
         says given c "android.memory.swap.max" normalize_limit memory_swap_max /\
         says given c "android.swap.enabled" parse_bool swap_enabled /\
         says given c "android.swap.file" Ret swap_file /\
         says given c "android.swap.file_size" parse_number swap_file_size) /\
      (forall l, apply_lxc_limits true c = Ret l -> forall k v, (k, v) ∈ l <-> v <> [] /\
         (k = str "lxc.cgroup2.memory.high" /\ v = memory_high c \/
          k = str "lxc.cgroup2.memory.max" /\ v = memory_max c \/
          k = str "lxc.cgroup2.memory.swap.max" /\ v = memory_swap_max c))
  | Throw e => e = RuntimeError
  | _ => False
  end /\
  (forall n u m w1 w2 allow, 0 <= n < 10 ^ 64 -> multiplier (lower u) = Some m -> spaces w1 -> spaces w2 ->
     parse_size (w1 ++ print_d n ++ u ++ w2) allow =
       if n * m <=? UINT64_MAX then Ret (n * m, false) else Throw RuntimeError) /\
  (forall v allow n mx, parse_size v allow = Ret (n, mx) -> accepted v allow n mx) /\
  (forall v l, normalize_limit v = Ret l -> normalize_limit l = Ret l).
Proof.
  split; [|split; [apply parse_size_print|split; [apply parse_size_accepts|apply normalize_limit_idem]]].
  assert (forall c l, apply_lxc_limits true c = Ret l -> forall k v, (k, v) ∈ l <-> v <> [] /\
         (k = str "lxc.cgroup2.memory.high" /\ v = memory_high c \/
          k = str "lxc.cgroup2.memory.max" /\ v = memory_max c \/
          k = str "lxc.cgroup2.memory.swap.max" /\ v = memory_swap_max c)) as Hlxc.
  { intros c l Hl k v.
    assert (forall k0 v0 : bytes, (k, v) ∈ (if is_empty v0 then [] else [(k0, v0)]) <-> v <> [] /\ k = k0 /\ v = v0) as Hone.
    { intros k0 [|b v0]; cbn [is_empty]; rewrite ?elem_of_nil, ?list_elem_of_singleton; naive_solver. }
    unfold apply_lxc_limits in Hl. cbn [negb] in Hl. destruct (is_empty (memory_high c) && _ && _) eqn:E; injection Hl as <-.
    - rewrite !andb_true_iff in E. destruct E as [[E1 E2] E3].
      destruct (memory_high c), (memory_max c), (memory_swap_max c); try done. rewrite elem_of_nil. naive_solver.
    - rewrite !elem_of_app, !Hone. tauto. }
  unfold load_configuration. destruct (select _ _) as [path|] eqn:Esel; cbn zeta.
  2: { split; [apply default_well_formed|]. split; [by left|by apply Hlxc]. }
  destruct (files path) as [| |text] eqn:Ef; cbn [read_config_file obind]; [done..|].
  destruct (read_lines_throws (getlines [] text) []) as [[vals Hv]|Hv]; rewrite Hv; cbn [obind]; [|done].
  destruct (read_lines_spec _ [] vals ltac:(constructor) Hv) as [Hsort Hget].
  set (c0 := Configuration _ _ _ _ _ _ _).
  destruct (handle_values_throws vals c0) as [[c Hc]|Hc]; rewrite Hc; cbn [obind]; [|done].
  destruct (all_fields vals Hsort c0 c Hc) as (F1 & F2 & F3 & F4 & F5 & F6).
  pose proof (field_source vals c0 c Hc) as Fs. cbn in Fs.
  assert (forall key g, field vals c0 c key normalize_limit g -> g c0 = [] -> limit_ok (g c)) as Hlim.
  { intros key g HF H0. unfold field in HF. destruct (dict_get _ _); [by eapply normalize_limit_ok|left; congruence]. }
  assert (0 <= swap_file_size c <= UINT64_MAX) as Hz.
  { unfold field in F6. destruct (dict_get _ _) as [v|]; [|by rewrite F6]. unfold parse_number in F6.
    destruct (parse_size v false) as [[n b]| | |] eqn:E; try done. cbn in F6. injection F6 as <-. by eapply parse_size_range. }
  destruct (check_configuration_spec c) as [[-> Hwf]| ->]; [by eapply Hlim|by eapply Hlim|by eapply Hlim|done| |done].
  split; [done|]. split; [|by apply Hlxc]. right. exists text. rewrite Fs. split; [done|]. split; [done|].
  assert (forall k, dict_get k vals = last_value k (assignments (getlines [] text))) as Hg.
  { intros k. rewrite Hget. by destruct (last_value k _). }
  unfold field, says in *. rewrite !Hg in *. split_and!; try done.
  intros k v Hkv. rewrite <- Hg in Hkv. pose proof (handle_values_known _ _ _ Hc) as Hk.
  clear -Hk Hkv. induction Hk as [|[k' v'] vals Hk _ IH]; [done|]. simpl in Hkv. destruct (bytes_eqb k k') eqn:E; [|by apply IH].
  apply bool_decide_eq_true in E as ->. done.
Qed.

(** * Lemmas: the swap file *)

Definition set_signature (f : file) : file := File (regular f) (root_owned f) (mode f) (f_size f) (blocks f) swapspace2.
(** What [mkswap] promises when it succeeds. *)
Definition mkswap_law (sys : system) : Prop := forall f, (mkswap sys f).1 = 0 -> (mkswap sys f).2 = set_signature f.

(** A swap file of a given size, fully allocated, for root alone. *)
Definition swap_ready (size : Z) (f : file) : Prop :=
  regular f = true /\ root_owned f = true /\ mode f = 384 /\ f_size f = size /\
  size <= u64 (u64 (blocks f) * 512) /\ signature f = swapspace2.

(** Nothing but the temporary file changes. *)
Definition only_temporary (temporary : bytes) (s s' : store) : Prop :=
  (forall p, p <> temporary -> files s' !! p = files s !! p) /\ swaps s' = swaps s.

Lemma require_bind {A} b (k : unit -> M store A) s :
  (require b ≫= k) s = if b then k tt s else (s, Throw RuntimeError).
Proof. by destruct b. Qed.
Lemma modify_bind {A} f (k : unit -> M store A) s : (modify f ≫= k) s = k tt (f s).
Proof. done. Qed.
Lemma update_bind {A} p g f (k : unit -> M store A) s : files s !! p = Some (Node f) ->
  (update_file p g ≫= k) s = k tt (with_files (<[p := Node (g f)]> (files s)) s).
Proof. intros H. unfold update_file. by rewrite modify_bind, H. Qed.
Lemma close_bind {A} (k : unit -> M store A) s : fd_open s = true ->
  (close_fd ≫= k) s = k tt (Store (files s) (swaps s) false (stray_closes s)).
Proof. intros H. unfold close_fd. by rewrite modify_bind, H. Qed.
Lemma get_bind {A} (k : store -> M store A) s : (get ≫= k) s = k s s.
Proof. done. Qed.

Section swap_lemmas.
Context (sys : system) (Hmk : mkswap_law sys).

Lemma validate_cases s : exists r, validate_swap_filesystem sys s = (s, r) /\ (r = Ret tt \/ r = Throw RuntimeError).
Proof.
  unfold validate_swap_filesystem. destruct (statfs_type sys) as [t|]; [|eauto].
  destruct (_ && _); [eauto|]. destruct (_ =? _); [|eauto]. rewrite require_bind.
  destruct (getflags_ok sys); [|eauto]. unfold require. destruct (setflags_ok sys); eauto.
Qed.

Lemma fill_temporary_spec temporary path size s s' r :
  files s !! temporary = Some (Node (File true true 384 0 0 [])) -> fd_open s = true -> temporary <> path -> 0 <= size ->
  fill_temporary sys temporary path size s = (s', r) ->
  (r = Ret tt /\ swaps s' = swaps s /\ fd_open s' = false /\ stray_closes s' = stray_closes s /\
     exists f, files s' = <[path := Node f]> (delete temporary (files s)) /\ swap_ready size f) \/
  (r = Throw RuntimeError /\ only_temporary temporary s s' /\ stray_closes s' = stray_closes s).
Proof.
  intros Ht Hfd Hne Hsize. unfold fill_temporary. unfold mbind at 1, M_bind at 1.
  destruct (validate_cases s) as (r0 & -> & [->| ->]).
  2: { intros [= <- <-]. by right. }
  rewrite require_bind. destruct (fallocate_code sys =? 0); [|intros [= <- <-]; by right].
  rewrite (update_bind _ _ _ _ _ Ht).
  set (s1 := with_files _ s). rewrite require_bind.
  assert (only_temporary temporary s s1) as H1 by (split; [intros p Hp; by apply lookup_insert_ne|done]).
  destruct (fstat_ok sys); [|intros [= <- <-]; by right].
  rewrite get_bind, require_bind.
  assert (files s1 !! temporary = Some (Node (allocate size (fallocated_blocks sys) (File true true 384 0 0 [])))) as Ht1
    by apply lookup_insert_eq.
  rewrite Ht1. destruct (size <=? _) eqn:Eb; [|intros [= <- <-]; by right].
  rewrite require_bind. destruct (fsync_ok sys); [|intros [= <- <-]; by right].
  rewrite close_bind by done.
  set (s2 := Store _ _ false _). rewrite get_bind. change (files s2) with (files s1). rewrite Ht1. cbv iota zeta.
  rewrite (update_bind _ _ _ _ s2 Ht1).
  set (f1 := allocate _ _ _) in *. set (s3 := with_files _ s2). rewrite require_bind.
  assert (only_temporary temporary s s3) as H3.
  { split; [|done]. intros p Hp. unfold s3. cbn. rewrite lookup_insert_ne by done. by apply H1. }
  destruct ((mkswap sys f1).1 =? 0) eqn:Em; [|intros [= <- <-]; by right].
  rewrite get_bind. destruct (rename_ok sys); [|intros [= <- <-]; by right].
  assert (files s3 !! temporary = Some (Node (mkswap sys f1).2)) as -> by apply lookup_insert_eq.
  intros [= <- <-]. left. bdestruct_all. split_and!; try done. exists (mkswap sys f1).2. split.
  - cbn. unfold s3. cbn. f_equal. rewrite !delete_insert_eq. done.
  - rewrite Hmk by done. unfold swap_ready. cbn in *. split_and!; try done. lia.
Qed.
End swap_lemmas.

Lemma check_existing_spec sys path size s s' r : check_existing sys path size s = (s', r) ->
  (r = Throw RuntimeError /\ s' = s) \/
  (r = Ret tt /\ exists f, files s !! path = Some (Node f) /\ regular f = true /\ root_owned f = true /\
     u64 (f_size f) = size /\ signature f = swapspace2 /\
     s' = if chmod_ok sys then with_files (<[path := Node (chmod600 f)]> (files s)) s else s).
Proof.
  unfold check_existing. rewrite require_bind. destruct (lstat_ok sys); [|intros [= <- <-]; by left].
  rewrite get_bind. destruct (files s !! path) as [[f|t]|] eqn:Ef; try (intros [= <- <-]; by left).
  rewrite require_bind. destruct (regular f && root_owned f) eqn:E1; [|intros [= <- <-]; by left].
  rewrite require_bind. destruct (u64 (f_size f) =? size) eqn:E2; [|intros [= <- <-]; by left].
  rewrite require_bind. destruct (has_swap_signature path s) eqn:E3; [|intros [= <- <-]; by left].
  apply andb_true_iff in E1 as [Hreg Hroot]. apply Z.eqb_eq in E2. unfold has_swap_signature in E3. rewrite Ef in E3. cbn in E3.
  apply bool_decide_eq_true in E3. intros Hc. right.
  assert (r = Ret tt /\ s' = if chmod_ok sys then with_files (<[path := Node (chmod600 f)]> (files s)) s else s) as [-> ->].
  { destruct (chmod_ok sys); [|by injection Hc as <- <-]. unfold update_file, modify in Hc. rewrite Ef in Hc. by injection Hc as <- <-. }
  split; [done|]. by exists f.
Qed.

Lemma create_swap_cases sys c temporary s s' r :
  mkswap_law sys -> temporary <> swap_file c -> 0 <= swap_file_size c -> fd_open s = false ->
  create_swap sys c temporary s = (s', r) ->
  (r = Throw RuntimeError /\ files s' = files s /\ swaps s' = swaps s /\ fd_open s' = false) \/
  (r = Ret tt /\ swaps s' = swaps s /\ fd_open s' = false /\
   if exists_ (swap_file c) s then
     exists f, files s !! swap_file c = Some (Node f) /\ regular f = true /\ root_owned f = true /\
       u64 (f_size f) = swap_file_size c /\ signature f = swapspace2 /\
       files s' = if chmod_ok sys then <[swap_file c := Node (chmod600 f)]> (files s) else files s
   else exists f, files s' = <[swap_file c := Node f]> (files s) /\ swap_ready (swap_file_size c) f).
Proof.
  intros Hmk Hne Hz Hfd. unfold create_swap. set (path := swap_file c) in *. set (size := swap_file_size c) in *.
  rewrite require_bind. destruct (is_root sys); [|intros [= <- <-]; by left].
  rewrite require_bind. destruct (negb _); [|intros [= <- <-]; by left].
  rewrite require_bind. destruct (parent_is_directory sys); [|intros [= <- <-]; by left].
  rewrite get_bind. destruct (exists_ path s).
  { intros [[-> ->]|(-> & f & ? & ? & ? & ? & ? & ->)]%check_existing_spec; [by left|right].
    split; [done|]. split; [by destruct (chmod_ok sys)|]. split; [by destruct (chmod_ok sys)|].
    exists f. split_and!; try done. by destruct (chmod_ok sys). }
  rewrite require_bind. destruct (open_temporary_ok sys && negb _) eqn:Eo; [|intros [= <- <-]; by left].
  apply andb_true_iff in Eo as [_ Ht%negb_true_iff%bool_decide_eq_false]. apply eq_None_not_Some in Ht.
  rewrite modify_bind. set (s1 := Store _ _ true _). unfold on_throw.
  destruct (fill_temporary sys temporary path size s1) as [s2 r2] eqn:Ef.
  apply fill_temporary_spec in Ef as [(-> & Hsw & Hfd2 & _ & f & Hf & Hr)|(-> & [Hf Hsw] & _)];
    [..|done|apply lookup_insert_eq|done|done|done].
  - intros [= <- <-]. right. split_and!; try done. exists f. split; [|done]. rewrite Hf. f_equal. unfold s1. cbn.
    by rewrite delete_insert_id.
  - unfold close_fd, unlink. rewrite modify_bind. set (s3 := if fd_open s2 then _ else _). intros [= <- <-]. left.
    assert (files s3 = files s2 /\ swaps s3 = swaps s2 /\ fd_open s3 = false) as (H1 & H2 & H3)
      by (unfold s3; by destruct (fd_open s2)).
    split; [done|]. cbn. rewrite H1, H2. split_and!; try done. apply map_eq. intros p.
    destruct (decide (p = temporary)) as [->|Hp]; [by rewrite lookup_delete_eq|].
    rewrite lookup_delete_ne, Hf by done. unfold s1. cbn. by apply lookup_insert_ne.
Qed.

Lemma activate_cases sys c s s' r : activate sys c s = (s', r) ->
  (r = Throw RuntimeError /\ s' = s) \/
  (r = Ret tt /\ is_regular_file (swap_file c) s = true /\ has_swap_signature (swap_file c) s = true /\
   (configured_swap_active (swap_file c) s = true /\ s' = s \/
    configured_swap_active (swap_file c) s = false /\ s' = with_swaps (swaps s ++ [printed sys (swap_file c)]) s)).
Proof.
  unfold activate. rewrite get_bind, require_bind. destruct (is_regular_file _ _); [|intros [= <- <-]; by left].
  rewrite require_bind. destruct (has_swap_signature _ _); [|intros [= <- <-]; by left].
  destruct (configured_swap_active _ _) eqn:Ea.
  - intros [= <- <-]. right. tauto.
  - unfold swapon. destruct (swapon_code sys =? 0); intros [= <- <-]; [right|by left]. tauto.
Qed.

(** * Theorems: the swap file *)

(** C37: The swap file is created safely. Whatever the system answers,
    [create_swap] either throws and leaves every file as it was and no
    descriptor open, or leaves at the configured path a root-owned regular file
    with the swap signature and the configured size: the existing one, of which
    it changes at most the mode, or a new one that is fully allocated and for
    root alone; no other file changes and no temporary one stays. Enabling
    makes exactly this file active (for a name that the kernel prints as it
    is) if it is a swap file, disabling makes it inactive, and a failure of
    either leaves the swap areas as they were; an enabled configuration is
    active when the container starts, or its start throws. *)
Theorem swap_file_safe sys c temporary s :
  mkswap_law sys -> printed sys (swap_file c) = swap_file c -> temporary <> swap_file c ->
  0 <= swap_file_size c -> fd_open s = false ->
  let path := swap_file c in
  (forall s' r, create_swap sys c temporary s = (s', r) ->
     swaps s' = swaps s /\ fd_open s' = false /\
     (r = Throw RuntimeError /\ files s' = files s \/
      r = Ret tt /\ (forall p, p <> path -> files s' !! p = files s !! p) /\
      exists f, files s' !! path = Some (Node f) /\ regular f = true /\ root_owned f = true /\
        u64 (f_size f) = u64 (swap_file_size c) /\ signature f = swapspace2 /\
        (if exists_ path s then
           exists f0, files s !! path = Some (Node f0) /\ (f = f0 \/ f = chmod600 f0)
         else swap_ready (swap_file_size c) f))) /\
  (forall s' r, enable_swap sys c s = (s', r) ->
     files s' = files s /\
     (r = Throw RuntimeError /\ s' = s \/
      r = Ret tt /\ path ∈ swaps s' /\ has_swap_signature path s = true /\
      forall p, p <> path -> p ∈ swaps s' <-> p ∈ swaps s)) /\
  (forall s' r, disable_swap sys c s = (s', r) ->
     files s' = files s /\
     (r = Throw RuntimeError /\ s' = s \/
      r = Ret tt /\ path ∉ swaps s' /\ forall p, p <> path -> p ∈ swaps s' <-> p ∈ swaps s)) /\
  (forall s' r, prepare_configured_swap sys c s = (s', r) ->
     r = Throw RuntimeError /\ s' = s \/
     r = Ret tt /\ files s' = files s /\ (swap_enabled c = true -> path ∈ swaps s')).
Proof.
  intros Hmk Hpr Hne Hz Hfd path.
  assert (forall s' r, activate sys c s = (s', r) -> files s' = files s /\
     (r = Throw RuntimeError /\ s' = s \/ r = Ret tt /\ path ∈ swaps s' /\ has_swap_signature path s = true /\
      forall p, p <> path -> p ∈ swaps s' <-> p ∈ swaps s)) as Hact.
  { intros s' r [[-> ->]|(-> & _ & Hsig & [[Ha ->]|[_ ->]])]%activate_cases; split; try done.
    - by left.
    - right. split_and!; try done. by apply bool_decide_eq_true in Ha.
    - right. cbn. rewrite Hpr. split_and!; try done; [set_solver|]. intros p Hp. unfold path in Hp. set_solver. }
  split; [|split; [|split]].
  - intros s' r [(-> & Hf & Hsw & Hc)|(-> & Hsw & Hc & H)]%create_swap_cases; try done; (split; [done|split; [done|]]); [by left|].
    right. split; [done|]. unfold path in *. destruct (exists_ (swap_file c) s).
    + destruct H as (f & Hf & H1 & H2 & <- & H4 & ->). rewrite <- H4. split.
      { intros p Hp. destruct (chmod_ok sys); [by rewrite lookup_insert_ne|done]. }
      assert (u64 (u64 (f_size f)) = u64 (f_size f)) as Hu by (unfold u64; apply Z.mod_mod; lia). rewrite Hu.
      destruct (chmod_ok sys).
      * exists (chmod600 f). rewrite lookup_insert_eq. split_and!; try done. exists f. tauto.
      * exists f. split_and!; try done. exists f. tauto.
    + destruct H as (f & -> & Hr). split; [intros p Hp; by rewrite lookup_insert_ne|].
      exists f. rewrite lookup_insert_eq. pose proof Hr as (H1 & H2 & _ & H4 & _ & H6). by rewrite H4.
  - intros s' r. unfold enable_swap. rewrite require_bind. destruct (is_root sys); [apply Hact|].
    intros [= <- <-]. split; [done|by left].
  - intros s' r. unfold disable_swap. rewrite require_bind. destruct (is_root sys); [|intros [= <- <-]; split; [done|by left]].
    rewrite get_bind. unfold configured_swap_active. case_bool_decide as Ha.
    + unfold swapoff. destruct (swapoff_code sys =? 0); intros [= <- <-]; [|split; [done|by left]].
      split; [done|]. right. cbn. rewrite Hpr. split; [done|]. split.
      * rewrite list_elem_of_filter. naive_solver.
      * intros p Hp. rewrite list_elem_of_filter. naive_solver.
    + intros [= <- <-]. split; [done|]. right. tauto.
  - intros s' r. unfold prepare_configured_swap. destruct (swap_enabled c); [|intros [= <- <-]; by right].
    rewrite require_bind. destruct (is_root sys); [|intros [= <- <-]; by left].
    intros [Hf [[-> ->]|(-> & Hin & _)]]%Hact; [by left|by right].
Qed.

(** ** A configuration file *)

Definition example_files (p : bytes) : file_state :=
  if bytes_eqb p (str "/etc/anbox/memory.conf")
  then Contents (str "# limits" ++ [x0a] ++ str " android.memory.high = 1 " ++ [x0a] ++ str "android.memory.high=512M" ++ [x0a] ++
                 str "android.memory.max=max")
  else Absent.

Lemma memory_configuration_witness :
  exists c, load_configuration [] (str "/data/memory.conf") example_files = Ret c /\ well_formed c /\
    memory_high c = str "536870912" /\ memory_max c = str "max".
Proof.
  pose proof (memory_configuration [] (str "/data/memory.conf") example_files) as [H _].
  destruct (load_configuration _ _ _) as [c| | |] eqn:E; [|by vm_compute in E..].
  exists c. split; [done|]. split; [apply H|]. vm_compute in E. by injection E as <-.
Defined.

(** ** A system where everything succeeds *)

Definition good_system : system :=
  System true true true true true (Some ext_super_magic) true true 0 8 true true
    (fun f => (0, set_signature f)) true 0 0 (fun p => p).
Definition swap_configuration : configuration :=
  Configuration true (str "/swap") 4096 [] [] [] (str "/etc/anbox/memory.conf").
Definition no_swap : store := Store ∅ [] false 0.

Lemma swap_file_safe_witness :
  mkswap_law good_system /\ (create_swap good_system swap_configuration (str "/swap.tmp.1") no_swap).2 = Ret tt /\
  exists f, files (create_swap good_system swap_configuration (str "/swap.tmp.1") no_swap).1 !! str "/swap" = Some (Node f) /\
    u64 (f_size f) = 4096.
Proof.
  assert (mkswap_law good_system) as Hmk by (by intros f).
  split; [done|]. split; [by vm_compute|].
  destruct (create_swap good_system swap_configuration (str "/swap.tmp.1") no_swap) as [s' r] eqn:E.
  assert (r = Ret tt) as Hr by (transitivity ((s', r).2); [done|]; rewrite <- E; by vm_compute).
  destruct (swap_file_safe good_system swap_configuration (str "/swap.tmp.1") no_swap Hmk eq_refl ltac:(done) ltac:(done) eq_refl)
    as (H & _).
  destruct (H s' r E) as (_ & _ & [[H1 _]|(_ & _ & f & Hf & _ & _ & Hs & _)]); [congruence|]. exists f. by split.
Defined.

(** ** What goes wrong *)

(** [std::stoull] takes a sign: minus one is a size, the largest. *)
Lemma negative_size : parse_size (str "-1") false = Ret (UINT64_MAX, false) /\ normalize_limit (str "-1") = Ret (print_d UINT64_MAX).
Proof. by vm_compute. Qed.

(** If [mkswap] or the renaming fails, the descriptor is closed twice. *)
Lemma closed_twice :
  let sys := System true true true true true (Some ext_super_magic) true true 0 8 true true
    (fun f => (1, f)) true 0 0 (fun p => p) in
  stray_closes (create_swap sys swap_configuration (str "/swap.tmp.1") no_swap).1 = 1%nat.
Proof. by vm_compute. Qed.

(** The kernel prints a space in the name as \040: the file is switched on but
    never found active, so that it cannot be switched off. *)
Lemma space_never_active :
  let sys := System true true true true true (Some ext_super_magic) true true 0 8 true true
    (fun f => (0, set_signature f)) true 0 0 (fun p => concat ((fun b => if is_space b then str "\040" else [b]) <$> p)) in
  let c := Configuration true (str "/a b") 4096 [] [] [] [] in
  let s := (enable_swap sys c (create_swap sys c (str "/t") no_swap).1).1 in
  swaps s = [str "/a\040b"] /\ disable_swap sys c s = (s, Ret tt).
Proof. by vm_compute. Qed.
