(* ===== verification/Sdl.v ===== *)
(** The event thread of the SDL platform (platform/sdl/platform.cpp,
    platform/sdl/keycode_converter.cpp): which host events reach which input
    device, the pointer coordinates, the touch slots, and the callbacks of the
    windows. It drives the state machines of Input.v through their calls and
    maps coordinates with the viewports of Geometry.v. SDL, the renderer and the
    window manager are outside: their answers come with each event, the calls
    made to them are recorded. *)

From Stdlib Require Import Strings.String.
From S2P Require Import Prelude Geometry Input.

Local Open Scope Z_scope.

(** * Key codes *)

(** An [SDL_Scancode] is known by the name of its enumerator, without
    SDL_SCANCODE_. *)
Definition scancode : Type := string.
Definition code_map : list scancode := [
    "UNKNOWN"; "ESCAPE"; "1"; "2"; "3"; "4"; "5"; "6"; "7"; "8"; "9"; "0"; "MINUS"; "EQUALS";
    "BACKSPACE"; "TAB"; "Q"; "W"; "E"; "R"; "T"; "Y"; "U"; "I"; "O"; "P"; "LEFTBRACKET";
    "RIGHTBRACKET"; "RETURN"; "LCTRL"; "A"; "S"; "D"; "F"; "G"; "H"; "J"; "K"; "L"; "SEMICOLON";
    "APOSTROPHE"; "GRAVE"; "LSHIFT"; "BACKSLASH"; "Z"; "X"; "C"; "V"; "B"; "N"; "M"; "COMMA";
    "PERIOD"; "SLASH"; "RSHIFT"; "KP_MULTIPLY"; "LALT"; "SPACE"; "CAPSLOCK"; "F1"; "F2"; "F3"; "F4";
    "F5"; "F6"; "F7"; "F8"; "F9"; "F10"; "NUMLOCKCLEAR"; "SCROLLLOCK"; "KP_7"; "KP_8"; "KP_9";
    "KP_MINUS"; "KP_4"; "KP_5"; "KP_6"; "KP_PLUS"; "KP_1"; "KP_2"; "KP_3"; "KP_0"; "KP_PERIOD";
    "UNKNOWN"; "LANG5"; "UNKNOWN"; "F11"; "F12"; "UNKNOWN"; "LANG3"; "LANG4"; "UNKNOWN"; "LANG3";
    "UNKNOWN"; "KP_COMMA"; "KP_ENTER"; "RCTRL"; "KP_DIVIDE"; "SYSREQ"; "RALT"; "UNKNOWN"; "HOME";
    "UP"; "PAGEUP"; "LEFT"; "RIGHT"; "END"; "DOWN"; "PAGEDOWN"; "INSERT"; "DELETE"; "UNKNOWN";
    "MUTE"; "VOLUMEDOWN"; "VOLUMEUP"; "POWER"; "KP_EQUALS"; "KP_MINUS"; "PAUSE"; "UNKNOWN";
    "KP_COMMA"; "LANG1"; "LANG2"; "INTERNATIONAL3"; "LGUI"; "RGUI"; "APPLICATION"; "STOP"; "AGAIN";
    "UNKNOWN"; "UNDO"; "UNKNOWN"; "COPY"; "UNKNOWN"; "PASTE"; "FIND"; "CUT"; "HELP"; "MENU";
    "CALCULATOR"; "UNKNOWN"; "SLEEP"; "UNKNOWN"; "UNKNOWN"; "UNKNOWN"; "UNKNOWN"; "UNKNOWN"; "APP1";
    "APP1"; "WWW"; "UNKNOWN"; "UNKNOWN"; "UNKNOWN"; "UNKNOWN"; "MAIL"; "AC_BOOKMARKS"; "COMPUTER";
    "AC_BACK"; "AC_FORWARD"; "UNKNOWN"; "EJECT"; "UNKNOWN"; "AUDIONEXT"; "AUDIOPLAY"; "AUDIOPREV";
    "AUDIOSTOP"; "UNKNOWN"; "UNKNOWN"; "UNKNOWN"; "UNKNOWN"; "UNKNOWN"; "AC_HOME"; "AC_REFRESH";
    "UNKNOWN"; "UNKNOWN"; "UNKNOWN"; "UNKNOWN"; "UNKNOWN"; "KP_LEFTPAREN"; "KP_RIGHTPAREN";
    "UNKNOWN"; "AGAIN"; "F13"; "F14"; "F15"; "F16"; "F17"; "F18"; "F19"; "F20"; "F21"; "F22"; "F23";
    "F24"; "UNKNOWN"; "UNKNOWN"; "UNKNOWN"; "UNKNOWN"; "UNKNOWN"; "UNKNOWN"; "UNKNOWN"; "UNKNOWN";
    "UNKNOWN"; "UNKNOWN"; "UNKNOWN"; "UNKNOWN"; "UNKNOWN"; "UNKNOWN"; "UNKNOWN"; "UNKNOWN";
    "UNKNOWN"; "UNKNOWN"; "UNKNOWN"; "UNKNOWN"; "UNKNOWN"; "UNKNOWN"; "UNKNOWN"; "UNKNOWN";
    "UNKNOWN"; "UNKNOWN"; "UNKNOWN"; "UNKNOWN"; "UNKNOWN"; "UNKNOWN"; "UNKNOWN"; "UNKNOWN";
    "UNKNOWN"; "UNKNOWN"; "UNKNOWN"; "UNKNOWN"; "UNKNOWN"; "UNKNOWN"; "UNKNOWN"; "UNKNOWN";
    "UNKNOWN"; "UNKNOWN"; "UNKNOWN"; "UNKNOWN"; "UNKNOWN"; "UNKNOWN"; "UNKNOWN"; "UNKNOWN";
    "UNKNOWN"; "UNKNOWN"; "UNKNOWN"; "UNKNOWN"; "UNKNOWN"; "UNKNOWN"
  ]%string.

(** The first index that holds the scancode. *)
Fixpoint convert_from (n : Z) (l : list scancode) (s : scancode) : Z :=
  match l with
  | [] => KEY_RESERVED
  | c :: l' => if String.eqb c s then n else convert_from (n + 1) l' s
  end.
Definition convert (s : scancode) : Z := convert_from 0 code_map s.

Definition BTN_LEFT : Z := 272.
Definition BTN_RIGHT : Z := 273.
Definition BTN_MIDDLE : Z := 274.
Definition BTN_SIDE : Z := 275.
Definition BTN_EXTRA : Z := 276.
Inductive mouse_button := ButtonLeft | ButtonMiddle | ButtonRight | ButtonX1 | ButtonX2 | ButtonOther.
Definition convert_mouse_button (b : mouse_button) : Z :=
  match b with
  | ButtonLeft => BTN_LEFT
  | ButtonRight => BTN_RIGHT
  | ButtonMiddle => BTN_MIDDLE
  | ButtonX1 => BTN_SIDE
  | ButtonX2 => BTN_EXTRA
  | ButtonOther => 0
  end.

(** The time of an event from its age in SDL's millisecond ticks. *)
Definition event_time_ns (now ticks timestamp : Z) : Z :=
  if timestamp =? 0 then now
  else let age_ns := u64 (u32 (ticks - timestamp) * 1000000) in
       if age_ns <? now then now - age_ns else now.

(** * State *)

(** A live window: what the platform asks of it. *)
Record host_window := HostWindow { sdl_id : Z; native_handle : Z; w_frame : rect; w_task : Z }.
Record config := Config { legacy_input : bool; no_touch_emulation : bool; single_window : bool }.

Inductive target := PointerDevice | KeyboardDevice | TouchDevice.
(** Calls to the renderer and the window manager, and the signal raised. *)
Inductive outside_call :=
  | UpdateHostWindow (native w h : Z)
  | ResizeTask (task : Z) (frame : rect)
  | SetFocusedTask (task : Z)
  | RemoveTask (task : Z)
  | RaiseSigterm.

(** [windows_] holds weak pointers: None is one that has expired. *)
Record platform := Platform {
  inp : input;
  windows_ : gmap Z (option host_window);
  focused_ : Z;
  pointer_locked_ : bool;
  touch_slots : list Z;
  last_slot : Z;
  rejected_ : Z;
  invalid_viewports_ : Z;
  video_closed_ : bool;
  sent : list (target * list Input.event);
  outside : list outside_call
}.

Definition MAX_FINGERS : nat := 10.
Definition MAX_TRACKING_ID : Z := 10.
Definition emulated_touch_id : Z := 0.
Definition platform_init (i : input) : platform :=
  Platform i ∅ 0 false (replicate MAX_FINGERS (-1)) (-1) 0 0 false [] [].

Definition with_input (i : input) (p : platform) : platform :=
  Platform i (windows_ p) (focused_ p) (pointer_locked_ p) (touch_slots p) (last_slot p) (rejected_ p)
    (invalid_viewports_ p) (video_closed_ p) (sent p) (outside p).
Definition with_windows (m : gmap Z (option host_window)) (p : platform) : platform :=
  Platform (inp p) m (focused_ p) (pointer_locked_ p) (touch_slots p) (last_slot p) (rejected_ p)
    (invalid_viewports_ p) (video_closed_ p) (sent p) (outside p).
Definition with_focus (f : Z) (p : platform) : platform :=
  Platform (inp p) (windows_ p) f (pointer_locked_ p) (touch_slots p) (last_slot p) (rejected_ p)
    (invalid_viewports_ p) (video_closed_ p) (sent p) (outside p).
Definition with_lock (b : bool) (p : platform) : platform :=
  Platform (inp p) (windows_ p) (focused_ p) b (touch_slots p) (last_slot p) (rejected_ p)
    (invalid_viewports_ p) (video_closed_ p) (sent p) (outside p).
Definition with_slots (l : list Z) (last : Z) (p : platform) : platform :=
  Platform (inp p) (windows_ p) (focused_ p) (pointer_locked_ p) l last (rejected_ p)
    (invalid_viewports_ p) (video_closed_ p) (sent p) (outside p).
Definition with_video (b : bool) (p : platform) : platform :=
  Platform (inp p) (windows_ p) (focused_ p) (pointer_locked_ p) (touch_slots p) (last_slot p) (rejected_ p)
    (invalid_viewports_ p) b (sent p) (outside p).
Definition send (t : target) (es : list Input.event) (p : platform) : platform :=
  Platform (inp p) (windows_ p) (focused_ p) (pointer_locked_ p) (touch_slots p) (last_slot p) (rejected_ p)
    (invalid_viewports_ p) (video_closed_ p) (sent p ++ [(t, es)]) (outside p).
Definition tell (c : outside_call) (p : platform) : platform :=
  Platform (inp p) (windows_ p) (focused_ p) (pointer_locked_ p) (touch_slots p) (last_slot p) (rejected_ p)
    (invalid_viewports_ p) (video_closed_ p) (sent p) (outside p ++ [c]).

(** What SDL and the renderer answer while an event is handled. *)
Record sdl := Sdl {
  now : Z;
  time : Z;                                       (* [event_time_ns] of the event *)
  rendered : Z -> option rendered_viewport;       (* [Renderer::renderedViewport] *)
  display_width : Z;
  display_height : Z;
  window_exists : Z -> bool;                      (* [SDL_GetWindowFromID] *)
  grabbed : bool -> bool;                         (* [SDL_GetWindowGrab] after setting it *)
  mouse_state : Z * Z;
  window_size : Z -> Z * Z;
  unrepresentable : Z                              (* an [int] from a value outside it *)
}.

Section events.
Context (cfg : config) (env : sdl).

(** * Pointer coordinates *)

(** The first live window with the id, in the order of the map. *)
Fixpoint find_window (id : Z) (l : list (Z * option host_window)) : option host_window :=
  match l with
  | [] => None
  | (_, Some w) :: l' => if sdl_id w =? id then Some w else find_window id l'
  | (_, None) :: l' => find_window id l'
  end.
Definition window_for_sdl_id (id : Z) (p : platform) : option host_window := find_window id (by_key (windows_ p)).

(** [viewport_valid] is whether there is a viewport that is valid. *)
Definition diagnose_rejected_pointer (viewport_valid : bool) (p : platform) : platform :=
  Platform (inp p) (windows_ p) (focused_ p) (pointer_locked_ p) (touch_slots p) (last_slot p) (rejected_ p + 1)
    (if viewport_valid then invalid_viewports_ p else invalid_viewports_ p + 1) (video_closed_ p) (sent p) (outside p).

Definition map_pointer_android (window_id x y : Z) (p : platform) : platform * option (Z * Z) :=
  match window_for_sdl_id window_id p with
  | None => (diagnose_rejected_pointer false p, None)
  | Some w =>
      match rendered env (native_handle w) with
      | None => (diagnose_rejected_pointer false p, None)
      | Some v =>
          match rv_map_absolute (unrepresentable env) v x y with
          | None => (diagnose_rejected_pointer (rv_valid v) p, None)
          | Some (ax, ay) =>
              (p, Some (if single_window cfg then (ax, ay) else (ax + left_ (w_frame w), ay + top_ (w_frame w))))
          end
      end
  end.

Definition pointer_axis_max : Z := 65535.
Definition to_axis (size v : Z) : Z :=
  let n := Z.max 1 size in
  clamp (if n <=? 1 then 0 else i32 (Z.quot (v * pointer_axis_max) (n - 1))) 0 pointer_axis_max.
Definition map_pointer_absolute (window_id x y : Z) (p : platform) : platform * option (Z * Z) :=
  match map_pointer_android window_id x y p with
  | (p, None) => (p, None)
  | (p, Some (ax, ay)) => (p, Some (to_axis (i32 (display_width env)) ax, to_axis (i32 (display_height env)) ay))
  end.

Definition map_pointer_relative (window_id dx dy : Z) (p : platform) : platform * option (Z * Z) :=
  match window_for_sdl_id window_id p with
  | None => (diagnose_rejected_pointer false p, None)
  | Some w =>
      match rendered env (native_handle w) with
      | None => (diagnose_rejected_pointer false p, None)
      | Some v => (p, rv_map_relative (unrepresentable env) v dx dy)
      end
  end.

(** * Touch slots *)

Fixpoint find_slot_from (i : Z) (l : list Z) (id : Z) : Z :=
  match l with
  | [] => -1
  | s :: l' => if s =? id then i else find_slot_from (i + 1) l' id
  end.
Definition find_touch_slot (id : Z) (p : platform) : Z := find_slot_from 0 (touch_slots p) id.

Definition ABS_MT_SLOT : Z := 47.
Definition ABS_MT_POSITION_X : Z := 53.
Definition ABS_MT_POSITION_Y : Z := 54.
Definition ABS_MT_TRACKING_ID : Z := 57.

Definition push_slot (slot : Z) (p : platform) : platform * list Input.event :=
  if last_slot p =? slot then (p, [])
  else (with_slots (touch_slots p) slot p, [Event EV_ABS ABS_MT_SLOT slot]).
Definition set_slot (slot id : Z) (p : platform) : platform :=
  with_slots (<[Z.to_nat slot := id]> (touch_slots p)) (last_slot p) p.

Definition push_finger_down (x y finger_id : Z) (p : platform) : platform * list Input.event :=
  let slot := find_touch_slot (-1) p in
  if slot =? -1 then (p, [])
  else
    let (p, es) := push_slot slot (set_slot slot finger_id p) in
    (p, es ++ [Event EV_ABS ABS_MT_TRACKING_ID (Z.rem finger_id MAX_TRACKING_ID + 1);
               Event EV_ABS ABS_MT_POSITION_X x; Event EV_ABS ABS_MT_POSITION_Y y; syn_report]).
Definition push_finger_up (finger_id : Z) (p : platform) : platform * list Input.event :=
  let slot := find_touch_slot finger_id p in
  if slot =? -1 then (p, [])
  else
    let (p, es) := push_slot slot p in
    (set_slot slot (-1) p, es ++ [Event EV_ABS ABS_MT_TRACKING_ID (-1); syn_report]).
Definition push_finger_motion (x y finger_id : Z) (p : platform) : platform * list Input.event :=
  let slot := find_touch_slot finger_id p in
  if slot =? -1 then (p, [])
  else
    let (p, es) := push_slot slot p in
    (p, es ++ [Event EV_ABS ABS_MT_POSITION_X x; Event EV_ABS ABS_MT_POSITION_Y y; syn_report]).

Definition send_events (t : target) (es : list Input.event) (p : platform) : platform :=
  match es with [] => p | _ => send t es p end.
Definition send_touch (r : platform * list Input.event) : platform := send_events TouchDevice r.2 r.1.
(** A mouse batch is closed with a report. *)
Definition send_mouse (es : list Input.event) (p : platform) : platform :=
  match es with [] => p | _ => send PointerDevice (es ++ [syn_report]) p end.

(** * Releases and the pointer lock *)

Definition reboxed (c : host_call) (p : platform) : platform := with_input (call (now env) (time env) c (inp p)) p.

Definition release_reboxed_input (p : platform) : platform :=
  if legacy_input cfg then p
  else
    let p := with_input (call (now env) (now env) CallReleaseAll (inp p)) p in
    if negb (no_touch_emulation cfg) && (0 <=? find_touch_slot emulated_touch_id p)
    then send_touch (push_finger_up emulated_touch_id p) else p.

Definition set_pointer_locked (locked : bool) (p : platform) : platform :=
  if window_exists env (focused_ p) then with_lock (grabbed env locked) p else p.

(** * Host events *)

Inductive finger_event := FingerDown | FingerUp | FingerMotion.
(** The events of [process_events]; [control] is the answer of
    [process_window_control_event], the point of a finger that of
    [calculate_touch_coordinates]. *)
Inductive host_event :=
  | SdlQuit
  | SdlKey (down : bool) (window : Z) (code : scancode) (repeat ctrl_alt : bool)
  | SdlMotion (window x y xrel yrel : Z) (control : bool)
  | SdlButton (down : bool) (window : Z) (button : mouse_button) (x y : Z) (control : bool)
  | SdlWheel (window wx wy : Z) (flipped : bool)
  | SdlFinger (kind : finger_event) (id : Z) (point : option (Z * Z)).

(** [process_input_event]: the legacy path, the touch screen and the
    emulated touch. *)
Definition process_input_event (e : host_event) (p : platform) : platform :=
  match e with
  | SdlButton true window _ x y _ =>
      match map_pointer_android window x y p with
      | (p, None) => p
      | (p, Some (ax, ay)) =>
          if no_touch_emulation cfg
          then send_mouse [Event EV_ABS ABS_X ax; Event EV_ABS ABS_Y ay; Event EV_KEY BTN_LEFT 1] p
          else send_touch (push_finger_down ax ay emulated_touch_id p)
      end
  | SdlButton false _ _ _ _ _ =>
      if no_touch_emulation cfg then send_mouse [Event EV_KEY BTN_LEFT 0] p
      else send_touch (push_finger_up emulated_touch_id p)
  | SdlMotion window x y _ _ _ =>
      match map_pointer_android window x y p with
      | (p, None) => p
      | (p, Some (ax, ay)) =>
          if no_touch_emulation cfg then send_mouse [Event EV_ABS ABS_X ax; Event EV_ABS ABS_Y ay] p
          else send_touch (push_finger_motion ax ay emulated_touch_id p)
      end
  | SdlWheel window _ wy _ =>
      if no_touch_emulation cfg then send_mouse [Event EV_REL REL_WHEEL wy] p
      else match map_pointer_android window (mouse_state env).1 (mouse_state env).2 p with
           | (p, None) => p
           | (p, Some (ax, ay)) =>
               send_mouse [Event EV_ABS ABS_X ax; Event EV_ABS ABS_Y ay; Event EV_REL REL_WHEEL wy] p
           end
  | SdlKey down _ code _ _ =>
      let c := convert code in
      if c =? KEY_RESERVED then p
      else send_events KeyboardDevice [Event EV_KEY c (if down then 1 else 0)] p
  | SdlFinger FingerDown id (Some (x, y)) => send_touch (push_finger_down x y (i32 id) p)
  | SdlFinger FingerMotion id (Some (x, y)) => send_touch (push_finger_motion x y (i32 id) p)
  | SdlFinger FingerUp id _ => send_touch (push_finger_up (i32 id) p)
  | SdlFinger _ _ None => p
  | SdlQuit => p
  end.

Definition event_window (e : host_event) : Z :=
  match e with
  | SdlKey _ w _ _ _ | SdlMotion w _ _ _ _ _ | SdlButton _ w _ _ _ _ | SdlWheel w _ _ _ => w
  | _ => 0
  end.

Definition process_reboxed_input_event (e : host_event) (p : platform) : platform :=
  if (event_window e =? 0) || negb (event_window e =? focused_ p) then p
  else match e with
  | SdlKey down _ code repeat _ => reboxed (CallKey (convert code) down repeat) p
  | SdlMotion window x y xrel yrel _ =>
      if negb (no_touch_emulation cfg) then process_input_event e p
      else if pointer_locked_ p then
        match map_pointer_relative window xrel yrel p with
        | (p, Some (dx, dy)) => reboxed (CallRelative dx dy) p
        | (p, None) => p
        end
      else
        match map_pointer_absolute window x y p with
        | (p, Some (ax, ay)) => reboxed (CallAbsolute ax ay) p
        | (p, None) => p
        end
  | SdlButton down window b x y _ =>
      if negb (no_touch_emulation cfg) then process_input_event e p
      else
        let code := convert_mouse_button b in
        if code =? 0 then p
        else if down && negb (pointer_locked_ p) then
          match map_pointer_absolute window x y p with
          | (p, None) => p
          | (p, Some (ax, ay)) => reboxed (CallButton code down) (reboxed (CallAbsolute ax ay) p)
          end
        else reboxed (CallButton code down) p
  | SdlWheel window wx wy flipped =>
      let scroll := reboxed (if flipped : bool then CallWheel (- wy) (- wx) else CallWheel wy wx) in
      if negb (pointer_locked_ p) then
        match map_pointer_absolute window (mouse_state env).1 (mouse_state env).2 p with
        | (p, None) => p
        | (p, Some (ax, ay)) => scroll (reboxed (CallAbsolute ax ay) p)
        end
      else
        match window_for_sdl_id window p ≫= fun w => rendered env (native_handle w) with
        | None => diagnose_rejected_pointer false p
        | Some _ => scroll p
        end
  | _ => p
  end.

(** The body of [process_events]. *)
Definition process_event (e : host_event) (p : platform) : platform :=
  match e with
  | SdlQuit => with_video true (release_reboxed_input p)
  | SdlKey down _ code repeat ctrl_alt =>
      if down && negb repeat && String.eqb code "R" && ctrl_alt then set_pointer_locked (negb (pointer_locked_ p)) p
      else if legacy_input cfg then process_input_event e p else process_reboxed_input_event e p
  | SdlMotion window _ _ _ _ control | SdlButton _ window _ _ _ control =>
      if bool_decide (is_Some (window_for_sdl_id window p)) && control then p
      else if legacy_input cfg then process_input_event e p else process_reboxed_input_event e p
  | SdlWheel _ _ _ _ => if legacy_input cfg then process_input_event e p else process_reboxed_input_event e p
  | SdlFinger _ _ _ => process_input_event e p
  end.
End events.

(** * The callbacks of the windows *)

Section callbacks.
Context (cfg : config) (env : sdl).

Definition live (id : Z) (p : platform) : option host_window := mjoin (windows_ p !! id).
Definition update_host_window (w : host_window) (p : platform) : platform :=
  let (x, y) := window_size env (native_handle w) in tell (UpdateHostWindow (native_handle w) x y) p.
Definition set_frame (id : Z) (w : host_window) (f : rect) (p : platform) : platform :=
  with_windows (<[id := Some (HostWindow (sdl_id w) (native_handle w) f (w_task w))]> (windows_ p)) p.

(** [create_window] from the point where the window object exists. *)
Definition create_window (id : Z) (w : host_window) (p : platform) : platform :=
  let p := with_focus (sdl_id w) p in
  let p := match windows_ p !! id with Some _ => p | None => with_windows (<[id := Some w]> (windows_ p)) p end in
  update_host_window w p.

Definition window_deleted (id : Z) (p : platform) : platform :=
  match windows_ p !! id with
  | None => p
  | Some entry =>
      let p := match entry with
               | None => p
               | Some w =>
                   let p := release_reboxed_input cfg env p in
                   let p := if sdl_id w =? focused_ p then set_pointer_locked env false p else p in
                   tell (RemoveTask (w_task w)) p
               end in
      let p := with_windows (delete id (windows_ p)) p in
      if single_window cfg then tell RaiseSigterm p else p
  end.

Definition window_wants_focus (id : Z) (p : platform) : platform :=
  match live id p with
  | None => p
  | Some w => tell (SetFocusedTask (w_task w)) (with_focus (sdl_id w) p)
  end.

Definition window_lost_focus (id : Z) (p : platform) : platform :=
  match live id p with
  | None => p
  | Some w =>
      if sdl_id w =? focused_ p
      then with_focus 0 (set_pointer_locked env false (release_reboxed_input cfg env p)) else p
  end.

Definition invalidate_window_viewport (id : Z) (p : platform) : platform :=
  match live id p with None => p | Some w => update_host_window w p end.
Definition window_hidden (id : Z) (p : platform) : platform :=
  let p := invalidate_window_viewport id p in
  let p := release_reboxed_input cfg env p in
  let p := if pointer_locked_ p then set_pointer_locked env false p else p in
  match live id p with
  | Some w => if sdl_id w =? focused_ p then with_focus 0 p else p
  | None => p
  end.

Definition window_moved (id x y : Z) (p : platform) : platform :=
  match live id p with
  | None => p
  | Some w =>
      let p := update_host_window w p in
      if single_window cfg then p
      else
        let f := translate (w_frame w) x y in
        tell (ResizeTask (w_task w) f) (set_frame id w f p)
  end.
Definition window_resized (id w h : Z) (p : platform) : platform :=
  match live id p with
  | None => p
  | Some win =>
      let p := tell (UpdateHostWindow (native_handle win) w h) p in
      let f := if single_window cfg then translate (w_frame win) 0 0 else w_frame win in
      let f := resize f w h in
      tell (ResizeTask (w_task win) f) (set_frame id win f p)
  end.

Inductive callback :=
  | Created (id : Z) (w : host_window)
  | Deleted (id : Z)
  | WantsFocus (id : Z)
  | LostFocus (id : Z)
  | Hidden (id : Z)
  | Moved (id x y : Z)
  | Resized (id w h : Z)
  | LifecycleChanged (id : Z)
  | Expired (id : Z).     (* the owner of the window lets it go *)
Definition run_callback (c : callback) (p : platform) : platform :=
  match c with
  | Created id w => create_window id w p
  | Deleted id => window_deleted id p
  | WantsFocus id => window_wants_focus id p
  | LostFocus id => window_lost_focus id p
  | Hidden id => window_hidden id p
  | Moved id x y => window_moved id x y p
  | Resized id w h => window_resized id w h p
  | LifecycleChanged id => invalidate_window_viewport id p
  | Expired id => match windows_ p !! id with Some _ => with_windows (<[id := None]> (windows_ p)) p | None => p end
  end.
End callbacks.

(** SDL numbers windows from 1; fingers are numbered from 0 within an int. *)
Definition event_ok (e : host_event) : Prop := match e with SdlFinger _ id _ => 0 <= i32 id | _ => True end.
Definition callback_ok (c : callback) : Prop := match c with Created _ w => sdl_id w <> 0 | _ => True end.

(** A run of the platform: host events and callbacks on the event thread,
    interleaved with the steps of the dispatcher's worker and its failure
    handler, and the stop of the dispatcher. *)
Definition with_dispatcher (d : dispatcher) (p : platform) : platform := with_input (Input (kb (inp p)) (ptr (inp p)) d) p.
(** The dispatcher beside the event thread. *)
Inductive background : platform -> platform -> Prop :=
  | on_work d p : work (disp (inp p)) d -> background p (with_dispatcher d p)
  | on_wake p : worker_ (disp (inp p)) = WWaiting true ->
      background p (with_dispatcher (with_worker (disp (inp p)) (WWaiting false)) p)
  | on_failure p : worker_ (disp (inp p)) = WFailed ->
      background p (with_input (Input (keyboard_reset (kb (inp p))) (pointer_reset (ptr (inp p)))
                                  (with_worker (disp (inp p)) (WWaiting false))) p)
  | on_stop p : background p (with_dispatcher (stop (disp (inp p))) p).
Inductive platform_step (cfg : config) : platform -> platform -> Prop :=
  | on_event env e p : event_ok e -> platform_step cfg p (process_event cfg env e p)
  | on_callback env c p : callback_ok c -> platform_step cfg p (run_callback cfg env c p)
  | on_video_init p : platform_step cfg p (with_video false p)   (* before a window is made *)
  | on_background p p' : background p p' -> platform_step cfg p p'.

(** * Lemmas: the input behind the platform *)

(** Nothing happens to the state machines, the windows and the focus. *)
Definition same (p p' : platform) : Prop :=
  inp p' = inp p /\ windows_ p' = windows_ p /\ focused_ p' = focused_ p.
#[global] Instance same_refl : Reflexive same.
Proof. by intros p. Qed.
#[global] Instance same_trans : Transitive same.
Proof. intros p q r (?&?&?) (?&?&?). split_and!; congruence. Qed.

(** The batches sent to the touch screen. *)
Definition touch_batches (p : platform) : list (list Input.event) :=
  flat_map (fun b => match b.1 with TouchDevice => [b.2] | _ => [] end) (sent p).
(** Nothing happens to the touch screen. *)
Definition same_touch (p p' : platform) : Prop :=
  touch_slots p' = touch_slots p /\ last_slot p' = last_slot p /\ touch_batches p' = touch_batches p.
#[global] Instance same_touch_refl : Reflexive same_touch.
Proof. by intros p. Qed.
#[global] Instance same_touch_trans : Transitive same_touch.
Proof. intros p q r (?&?&?) (?&?&?). split_and!; congruence. Qed.

Section pieces.
Context (cfg : config) (env : sdl).

Lemma map_pointer_android_same window x y p :
  same p (map_pointer_android cfg env window x y p).1 /\ same_touch p (map_pointer_android cfg env window x y p).1.
Proof. unfold map_pointer_android. by repeat case_match. Qed.
Lemma map_pointer_absolute_same window x y p :
  same p (map_pointer_absolute cfg env window x y p).1 /\ same_touch p (map_pointer_absolute cfg env window x y p).1.
Proof.
  unfold map_pointer_absolute. pose proof (map_pointer_android_same window x y p) as H.
  destruct (map_pointer_android _ _ _ _ _ _) as [p' [[ax ay]|]]; exact H.
Qed.
Lemma map_pointer_relative_same window x y p :
  same p (map_pointer_relative env window x y p).1 /\ same_touch p (map_pointer_relative env window x y p).1.
Proof. unfold map_pointer_relative. by repeat case_match. Qed.

Lemma push_slot_same slot p : same p (push_slot slot p).1.
Proof. unfold push_slot. by case_match. Qed.
Lemma send_touch_same r : same r.1 (send_touch r).
Proof. unfold send_touch, send_events. by case_match. Qed.
Lemma push_finger_down_same x y id p : same p (send_touch (push_finger_down x y id p)).
Proof.
  etrans; [|apply send_touch_same]. unfold push_finger_down. case_match; [done|].
  pose proof (push_slot_same (find_touch_slot (-1) p) (set_slot (find_touch_slot (-1) p) id p)) as H1.
  by destruct (push_slot _ _).
Qed.
Lemma push_finger_up_same id p : same p (send_touch (push_finger_up id p)).
Proof.
  etrans; [|apply send_touch_same]. unfold push_finger_up. case_match; [done|].
  pose proof (push_slot_same (find_touch_slot id p) p) as H1. by destruct (push_slot _ _).
Qed.
Lemma push_finger_motion_same x y id p : same p (send_touch (push_finger_motion x y id p)).
Proof.
  etrans; [|apply send_touch_same]. unfold push_finger_motion. case_match; [done|].
  pose proof (push_slot_same (find_touch_slot id p) p) as H1. by destruct (push_slot _ _).
Qed.

Lemma process_input_event_same e p : same p (process_input_event cfg env e p).
Proof.
  destruct e as [|down w c r ca|w x y xr yr ct|[] w b x y ct|w wx wy fl|[] id [[x y]|]]; cbn [process_input_event]; try done.
  - case_match; done.
  - pose proof (map_pointer_android_same w x y p) as [Hs _]. destruct (map_pointer_android _ _ _ _ _ _) as [q [[ax ay]|]]; [|done].
    etrans; [exact Hs|]. case_match; [done|apply push_finger_motion_same].
  - pose proof (map_pointer_android_same w x y p) as [Hs _]. destruct (map_pointer_android _ _ _ _ _ _) as [q [[ax ay]|]]; [|done].
    etrans; [exact Hs|]. case_match; [done|apply push_finger_down_same].
  - case_match; [done|apply push_finger_up_same].
  - case_match; [done|]. pose proof (map_pointer_android_same w (mouse_state env).1 (mouse_state env).2 p) as [Hs _].
    by destruct (map_pointer_android _ _ _ _ _ _) as [q [[ax ay]|]].
  - apply push_finger_down_same.
  - apply push_finger_up_same.
  - apply push_finger_up_same.
  - apply push_finger_motion_same.
Qed.

(** Nothing is held by the guest. *)
Definition unheld (p : platform) : Prop :=
  injected_held_ (keys (kb (inp p))) = ∅ /\ injected_held_ (buttons (ptr (inp p))) = ∅.
Definition focused (p : platform) : Prop := legacy_input cfg = false /\ focused_ p <> 0.

(** The part of a handler that the state machines see: calls, made while a
    window has the focus, or releases. *)
Definition handled (p p' : platform) : Prop :=
  rtc input_step (inp p) (inp p') /\ windows_ p' = windows_ p /\ focused_ p' = focused_ p /\
  (unheld p' \/ inp p' = inp p \/ focused p).
#[local] Instance handled_refl : Reflexive handled.
Proof. intros p. split_and!; [apply rtc_refl|done..|]. by right; left. Qed.
#[local] Instance handled_trans : Transitive handled.
Proof.
  intros p q r (H1&H2&H3&H4) (K1&K2&K3&K4). split_and!; [by etrans|congruence..|].
  unfold focused, unheld in *. rewrite H3 in K4. destruct K4 as [K4|[K4|K4]]; [by left| |by right; right].
  rewrite K4. tauto.
Qed.
Lemma same_handled p p' : same p p' -> handled p p'.
Proof. intros (H1&H2&H3). split_and!; [rewrite H1; apply rtc_refl|done..|]. by right; left. Qed.

Lemma reboxed_handled c p : focused p -> handled p (reboxed env c p).
Proof. intros Hf. split_and!; [apply rtc_once, step_call|done..|]. by right; right. Qed.
Lemma release_reboxed_input_handled p : handled p (release_reboxed_input cfg env p).
Proof.
  unfold release_reboxed_input. destruct (legacy_input cfg); [done|].
  set (q := with_input _ p). assert (handled p q) as Hq.
  { split_and!; [apply rtc_once, step_call|done..|]. left. split; unfold q, with_input; cbn [inp]; apply released_all. }
  destruct (_ && _); [|done]. etrans; [exact Hq|]. apply same_handled, push_finger_up_same.
Qed.
Lemma release_unheld p : legacy_input cfg = false -> unheld (release_reboxed_input cfg env p).
Proof.
  intros Hl. unfold release_reboxed_input. rewrite Hl. set (q := with_input _ p).
  assert (unheld q) as Hq by (split; unfold q, with_input; cbn [inp]; apply released_all).
  destruct (_ && _); [|done]. destruct (push_finger_up_same emulated_touch_id q) as [H _].
  unfold unheld. by rewrite H.
Qed.
Lemma set_pointer_locked_same b p : same p (set_pointer_locked env b p).
Proof. unfold set_pointer_locked. by case_match. Qed.

Lemma same_focused p q : same p q -> focused p -> focused q.
Proof. intros (_ & _ & H). unfold focused. by rewrite H. Qed.
Lemma reboxed_after c p q : focused p -> handled p q -> handled p (reboxed env c q).
Proof.
  intros Hf Hq. etrans; [exact Hq|]. apply reboxed_handled.
  destruct Hq as (_ & _ & H & _). unfold focused in *. by rewrite H.
Qed.
Lemma absolute_handled window x y p q o : map_pointer_absolute cfg env window x y p = (q, o) -> handled p q.
Proof. intros H. destruct (map_pointer_absolute_same window x y p) as [Hs _]. rewrite H in Hs. by apply same_handled. Qed.

Lemma process_reboxed_input_event_handled e p : legacy_input cfg = false ->
  handled p (process_reboxed_input_event cfg env e p).
Proof.
  intros Hl. unfold process_reboxed_input_event.
  destruct (event_window e =? 0) eqn:E0; [done|]. destruct (event_window e =? focused_ p) eqn:E1; [cbn [negb orb]|done].
  bdestruct_all. assert (focused p) as Hf by (split; [done|lia]).
  assert (forall c, handled p (reboxed env c p)) as Hr by (intros; by apply reboxed_handled).
  destruct e as [|down w c r ca|w x y xr yr ct|down w b x y ct|w wx wy fl|k id pt]; try done.
  - destruct (negb _); [apply same_handled, process_input_event_same|]. destruct (pointer_locked_ p).
    + destruct (map_pointer_relative_same w xr yr p) as [Hs%same_handled _].
      destruct (map_pointer_relative _ _ _ _ _) as [q [[dx dy]|]]; [by apply reboxed_after|done].
    + destruct (map_pointer_absolute _ _ _ _ _ _) as [q o] eqn:Em. apply absolute_handled in Em.
      destruct o as [[ax ay]|]; [by apply reboxed_after|done].
  - destruct (negb _); [apply same_handled, process_input_event_same|]. destruct (_ =? 0); [done|].
    destruct (_ && _); [|by apply Hr].
    destruct (map_pointer_absolute _ _ _ _ _ _) as [q o] eqn:Em. apply absolute_handled in Em.
    destruct o as [[ax ay]|]; [by repeat (apply reboxed_after; [done|])|done].
  - destruct (negb _).
    + destruct (map_pointer_absolute _ _ _ _ _ _) as [q o] eqn:Em. apply absolute_handled in Em.
      destruct o as [[ax ay]|]; [by repeat (apply reboxed_after; [done|])|done].
    + destruct (_ ≫= _); [apply Hr|by apply same_handled].
Qed.

Lemma process_event_handled e p : handled p (process_event cfg env e p).
Proof.
  assert (forall e, handled p (if legacy_input cfg then process_input_event cfg env e p
    else process_reboxed_input_event cfg env e p)) as He.
  { intros e'. destruct (legacy_input cfg) eqn:E; [apply same_handled, process_input_event_same|].
    by apply process_reboxed_input_event_handled. }
  destruct e as [|down w c r ca|w x y xr yr ct|down w b x y ct|w wx wy fl|k id pt]; unfold process_event.
  - exact (release_reboxed_input_handled p).
  - destruct (_ && _); [apply same_handled, set_pointer_locked_same|apply He].
  - destruct (_ && _); [done|apply He].
  - destruct (_ && _); [done|apply He].
  - apply He.
  - apply same_handled, process_input_event_same.
Qed.
(** Live windows have an id, and without a focused window the guest holds
    nothing. *)
Definition identified (o : option host_window) : Prop := match o with Some w => sdl_id w <> 0 | None => True end.
Definition platform_inv (p : platform) : Prop :=
  map_Forall (fun _ => identified) (windows_ p) /\ (legacy_input cfg = true \/ focused_ p = 0 -> unheld p).
(** One step for the state machines and the invariant. *)
Definition steps (p p' : platform) : Prop := rtc input_step (inp p) (inp p') /\ platform_inv p'.

Lemma handled_inv p p' : handled p p' -> platform_inv p -> platform_inv p'.
Proof.
  intros (_ & Hw & Hf & Hu) [Iw If]. split; [by rewrite Hw|]. rewrite Hf. intros H. specialize (If H).
  destruct Hu as [Hu|[Hu|[Hl Hn]]]; [done| |destruct H as [H|H]; congruence]. unfold unheld. by rewrite Hu.
Qed.
Lemma handled_steps p p' : platform_inv p -> handled p p' -> steps p p'.
Proof. intros Hi H. split; [by apply H|by eapply handled_inv]. Qed.
Lemma steps_tell c p p' : steps p p' -> steps p (tell c p').
Proof. done. Qed.
Lemma steps_windows p p' m : map_Forall (fun _ => identified) m -> steps p p' -> steps p (with_windows m p').
Proof. intros Hm (H & _ & Hf). by split. Qed.
Lemma steps_focus p p' f : f <> 0 -> steps p p' -> steps p (with_focus f p').
Proof.
  intros Hf (H & Hw & Hu). split; [done|]. split; [done|]. cbn. intros [Hc|Hc]; [|done]. apply Hu. by left.
Qed.
Lemma steps_unfocus p p' : unheld p' -> steps p p' -> steps p (with_focus 0 p').
Proof. intros Hu (H & Hw & _). by split. Qed.
Lemma identified_live id p w : platform_inv p -> live id p = Some w -> sdl_id w <> 0.
Proof.
  intros [Hw _]. unfold live. destruct (windows_ p !! id) as [[w'|]|] eqn:E; cbn; try done. intros [= <-]. exact (Hw _ _ E).
Qed.
Lemma update_host_window_handled w p : handled p (update_host_window env w p).
Proof. apply same_handled. unfold update_host_window. by case_match. Qed.
Lemma release_unheld_inv p : platform_inv p -> unheld (release_reboxed_input cfg env p).
Proof.
  intros [_ Hf]. destruct (legacy_input cfg) eqn:E; [|by apply release_unheld].
  unfold release_reboxed_input. rewrite E. apply Hf. by left.
Qed.
Lemma set_pointer_locked_unheld b p : unheld p -> unheld (set_pointer_locked env b p).
Proof. unfold set_pointer_locked. by case_match. Qed.

Lemma lookup_identified id w p : platform_inv p -> sdl_id w <> 0 ->
  map_Forall (fun _ => identified) (<[id := Some w]> (windows_ p)).
Proof. intros [Hw _] Hi. by apply map_Forall_insert_2. Qed.

Lemma steps_update p p' w : steps p p' -> steps p (update_host_window env w p').
Proof.
  intros [H Hi]. pose proof (update_host_window_handled w p') as Hh.
  split; [etrans; [exact H|apply Hh]|by eapply handled_inv].
Qed.
Lemma steps_frame id w f p p' : sdl_id w <> 0 -> steps p p' -> steps p (set_frame id w f p').
Proof. intros Hn H. apply steps_windows; [|done]. apply lookup_identified; [apply H|done]. Qed.

Lemma create_window_steps id w p : platform_inv p -> sdl_id w <> 0 -> steps p (create_window env id w p).
Proof.
  intros Hi Hn. unfold create_window. apply steps_update.
  assert (steps p (with_focus (sdl_id w) p)) by (by apply steps_focus, handled_steps).
  destruct (_ !! id); [done|]. apply steps_windows; [|done]. by apply (lookup_identified id w p).
Qed.
Lemma released_handled p : handled p (set_pointer_locked env false (release_reboxed_input cfg env p)).
Proof. etrans; [apply release_reboxed_input_handled|apply same_handled, set_pointer_locked_same]. Qed.
Lemma window_deleted_steps id p : platform_inv p -> steps p (window_deleted cfg env id p).
Proof.
  intros Hi. unfold window_deleted. destruct (windows_ p !! id) as [o|]; [|by apply handled_steps].
  set (q := match o with Some _ => _ | None => _ end). assert (handled p q) as Hq.
  { unfold q. destruct o as [w|]; [|done]. etrans; [|by apply same_handled].
    case_match; [apply released_handled|apply release_reboxed_input_handled]. }
  assert (steps p (with_windows (delete id (windows_ q)) q)) as Hd.
  { apply steps_windows; [|by apply handled_steps]. destruct Hq as (_ & -> & _). apply map_Forall_delete, Hi. }
  by case_match.
Qed.
Lemma window_lost_focus_steps id p : platform_inv p -> steps p (window_lost_focus cfg env id p).
Proof.
  intros Hi. unfold window_lost_focus. assert (steps p p) by (by apply handled_steps).
  destruct (live id p) as [w|]; [|done]. destruct (_ =? _); [|done].
  apply steps_unfocus; [by apply set_pointer_locked_unheld, release_unheld_inv|].
  apply handled_steps; [done|apply released_handled].
Qed.
Lemma window_hidden_steps id p : platform_inv p -> steps p (window_hidden cfg env id p).
Proof.
  intros Hi. unfold window_hidden, invalidate_window_viewport.
  set (q := match live id p with Some _ => _ | None => _ end).
  assert (handled p q) as Hq by (unfold q; destruct (live id p); [apply update_host_window_handled|done]).
  assert (platform_inv q) as Hiq by (by eapply handled_inv).
  set (r := if pointer_locked_ _ then _ else _).
  assert (handled q r /\ unheld r) as [Hr Hu].
  { unfold r. destruct (pointer_locked_ _); split.
    - apply released_handled.
    - by apply set_pointer_locked_unheld, release_unheld_inv.
    - apply release_reboxed_input_handled.
    - by apply release_unheld_inv. }
  assert (steps p r) as Hs by (apply handled_steps; [done|by etrans]).
  destruct (live id r) as [w|]; [|done]. destruct (_ =? _); [|done]. by apply steps_unfocus.
Qed.

Lemma run_callback_steps c p : platform_inv p -> callback_ok c -> steps p (run_callback cfg env c p).
Proof.
  intros Hi Hc. assert (steps p p) as H0 by (by apply handled_steps).
  pose proof (fun id w => identified_live id p w Hi) as Hid.
  destruct c as [id w|id|id|id|id|id x y|id w h|id|id]; cbn [run_callback].
  - by apply create_window_steps.
  - by apply window_deleted_steps.
  - unfold window_wants_focus. destruct (live id p) as [w|] eqn:E; [|done].
    apply steps_tell, steps_focus; [|done]. by eapply Hid.
  - by apply window_lost_focus_steps.
  - by apply window_hidden_steps.
  - unfold window_moved. destruct (live id p) as [w|] eqn:E; [|done].
    pose proof (steps_update p p w H0). destruct (single_window cfg); [done|].
    apply steps_tell, steps_frame; [by eapply Hid|done].
  - unfold window_resized. destruct (live id p) as [win|] eqn:E; [|done].
    apply steps_tell, steps_frame; [by eapply Hid|]. by apply steps_tell.
  - unfold invalidate_window_viewport. destruct (live id p) as [w|]; [by apply steps_update|done].
  - destruct (windows_ p !! id); [|done]. apply steps_windows; [|done]. apply map_Forall_insert_2; [done|apply Hi].
Qed.
End pieces.

Lemma platform_step_steps cfg p p' : platform_inv cfg p -> platform_step cfg p p' -> steps cfg p p'.
Proof.
  intros Hi Hs. destruct Hs as [env e p He|env c p Hc|p|p p' [d q Hw|q Hw|q Hw|q]].
  - apply handled_steps; [done|apply process_event_handled].
  - by apply run_callback_steps.
  - by apply handled_steps, same_handled.
  - split; [by apply rtc_once, step_work|exact Hi].
  - split; [by apply rtc_once, step_spurious|exact Hi].
  - split; [by apply rtc_once, step_handler|]. destruct Hi as [Hw' _]. split; [exact Hw'|]. by intros _.
  - split; [by apply rtc_once, step_stop|exact Hi].
Qed.
Lemma platform_reachable cfg i p : platform_inv cfg (platform_init i) -> rtc (platform_step cfg) (platform_init i) p ->
  rtc input_step i (inp p) /\ platform_inv cfg p.
Proof.
  intros Hi H. pattern p. revert p H. apply rtc_ind_r.
  - split; [apply rtc_refl|done].
  - intros q r _ Hst [H1 H2]. destruct (platform_step_steps _ _ _ H2 Hst) as [H3 H4]. split; [by etrans|done].
Qed.

(** * Lemmas: the touch screen *)

#[global] Instance event_eq_dec : EqDecision Input.event.
Proof. solve_decision. Defined.
(** A reader of the multi-touch protocol: the slot chosen (-1 before the
    first choice) and the contact of each slot, -1 for none. It refuses a slot
    outside the device, a contact on a slot that has one, the end or the
    position of a contact that is not there, and any other event. *)
Record mt_reader := MtReader { mt_slot : Z; mt_contacts : list Z }.
Definition mt_feed (g : mt_reader) (e : Input.event) : option mt_reader :=
  if negb (type e =? EV_ABS) then (if bool_decide (e = syn_report) then Some g else None)
  else if code e =? ABS_MT_SLOT then
    if (0 <=? value e) && (value e <? Z.of_nat (length (mt_contacts g)))
    then Some (MtReader (value e) (mt_contacts g)) else None
  else
    if mt_slot g <? 0 then None
    else
      match mt_contacts g !! Z.to_nat (mt_slot g) with
      | None => None
      | Some c =>
          if code e =? ABS_MT_TRACKING_ID then
            if bool_decide (c < 0 <-> value e < 0) then None
            else Some (MtReader (mt_slot g) (<[Z.to_nat (mt_slot g) := value e]> (mt_contacts g)))
          else if ((code e =? ABS_MT_POSITION_X) || (code e =? ABS_MT_POSITION_Y)) && (0 <=? c) then Some g
          else None
      end.
Fixpoint mt_read (es : list Input.event) (g : mt_reader) : option mt_reader :=
  match es with [] => Some g | e :: es' => mt_feed g e ≫= mt_read es' end.

Lemma mt_read_app es fs g : mt_read (es ++ fs) g = mt_read es g ≫= mt_read fs.
Proof. revert g; induction es as [|e es IH]; intros g; [done|]. simpl. destruct (mt_feed g e); [apply IH|done]. Qed.

(** What the device sees of a slot that holds a finger. *)
Definition tracking (id : Z) : Z := if id =? -1 then -1 else Z.rem id MAX_TRACKING_ID + 1.
(** A batch is one frame: it ends with its only report. *)
Definition frame_of_events (es : list Input.event) : Prop := exists fs, es = fs ++ [syn_report] /\ fs <> [] /\ syn_report ∉ fs.

Record touch_inv (p : platform) : Prop := {
  t_length : length (touch_slots p) = MAX_FINGERS;
  t_last : -1 <= last_slot p < 10;
  t_ids : Forall (fun id => -1 <= id) (touch_slots p);
  t_frames : Forall frame_of_events (touch_batches p);
  t_read : mt_read (concat (touch_batches p)) (MtReader (-1) (replicate MAX_FINGERS (-1))) =
    Some (MtReader (last_slot p) (tracking <$> touch_slots p))
}.
Lemma touch_init i : touch_inv (platform_init i).
Proof. split; try done. repeat constructor; lia. Qed.

Lemma same_touch_inv p q : same_touch p q -> touch_inv p -> touch_inv q.
Proof. intros (H1&H2&H3) []. by split; rewrite ?H1, ?H2, ?H3. Qed.

Lemma find_slot_from_spec l id i :
  (find_slot_from i l id = -1 /\ id ∉ l) \/
  exists k, find_slot_from i l id = i + Z.of_nat k /\ l !! k = Some id /\ id ∉ take k l.
Proof.
  revert i; induction l as [|s l IH]; intros i; [left; split; [done|set_solver]|]. cbn.
  destruct (s =? id) eqn:E; bdestruct_all.
  - subst. right. exists 0%nat. split_and!; [lia|done|set_solver].
  - destruct (IH (i + 1)) as [[-> Hn]|(k & -> & Hk & Hn)]; [left; set_solver|].
    right. exists (S k). split_and!; [lia|done|cbn; set_solver].
Qed.
Lemma find_touch_slot_spec id p : touch_inv p ->
  (find_touch_slot id p = -1 /\ id ∉ touch_slots p) \/
  exists k, find_touch_slot id p = Z.of_nat k /\ (k < MAX_FINGERS)%nat /\ touch_slots p !! k = Some id /\
    id ∉ take k (touch_slots p).
Proof.
  intros Ht. unfold find_touch_slot. destruct (find_slot_from_spec (touch_slots p) id 0) as [?|(k & -> & Hk & Hn)]; [by left|].
  right. exists k. split_and!; [lia| |done..]. rewrite <- (t_length p Ht). by eapply lookup_lt_Some.
Qed.

Lemma touch_batches_send es p : touch_batches (send TouchDevice es p) = touch_batches p ++ [es].
Proof. unfold touch_batches, send. cbn. by rewrite flat_map_app. Qed.

(** The slot is chosen only when it changes. *)
Definition choose (last slot : Z) : list Input.event := if last =? slot then [] else [Event EV_ABS ABS_MT_SLOT slot].
Lemma choose_read last k ids : length ids = MAX_FINGERS -> (k < MAX_FINGERS)%nat ->
  mt_read (choose last (Z.of_nat k)) (MtReader last ids) = Some (MtReader (Z.of_nat k) ids).
Proof.
  unfold choose, MAX_FINGERS. intros Hl Hk. destruct (last =? Z.of_nat k) eqn:E; bdestruct_all; [by subst|].
  cbn [mt_read]. unfold mt_feed. cbn [type code value mt_contacts]. rewrite Hl.
  change (EV_ABS =? EV_ABS) with true. change (ABS_MT_SLOT =? ABS_MT_SLOT) with true. cbn [negb].
  by rewrite (proj2 (Z.leb_le _ _)), (proj2 (Z.ltb_lt _ _)) by lia.
Qed.

(** A frame [fs] that leaves [id'] on slot [k]. *)
Lemma frame_inv p q k id id' fs : touch_inv p -> touch_slots p !! k = Some id -> -1 <= id' ->
  mt_read fs (MtReader (Z.of_nat k) (tracking <$> touch_slots p)) =
    Some (MtReader (Z.of_nat k) (<[k := tracking id']> (tracking <$> touch_slots p))) ->
  syn_report ∉ fs -> fs <> [] ->
  touch_slots q = <[k := id']> (touch_slots p) -> last_slot q = Z.of_nat k -> touch_batches q = touch_batches p ->
  touch_inv (send_touch (q, choose (last_slot p) (Z.of_nat k) ++ fs ++ [syn_report])).
Proof.
  intros [Hl Hs Hi Hf Hr] Hid Hid' Hfs Hsyn Hne Hq1 Hq2 Hq3. unfold send_touch, send_events. cbn [fst snd].
  pose proof (lookup_lt_Some _ _ _ Hid) as Hk. rewrite Hl in Hk.
  destruct (choose _ _ ++ _) as [|e es] eqn:Ees; [by destruct (choose _ _), fs|]. rewrite <- Ees.
  split; rewrite ?touch_batches_send; cbn [touch_slots last_slot send]; rewrite ?Hq1, ?Hq2, ?Hq3.
  - by rewrite length_insert.
  - unfold MAX_FINGERS in Hk. lia.
  - by apply Forall_insert.
  - apply Forall_app_2; [done|]. apply Forall_singleton. exists (choose (last_slot p) (Z.of_nat k) ++ fs).
    split_and!; [by rewrite app_assoc|by destruct (choose _ _), fs|].
    unfold choose. rewrite not_elem_of_app. split; [|done]. case_match; set_solver.
  - rewrite concat_app, mt_read_app, Hr. cbn [mbind option_bind concat]. rewrite app_nil_r, mt_read_app.
    rewrite choose_read by (by rewrite ?length_fmap). cbn [mbind option_bind].
    by rewrite mt_read_app, Hfs, list_fmap_insert.
Qed.

Lemma push_slot_spec k p : push_slot k p = (with_slots (touch_slots p) k p, choose (last_slot p) k).
Proof. unfold push_slot, choose. destruct (last_slot p =? k) eqn:E; [|done]. bdestruct_all. subst. by destruct p. Qed.

(** The reader on a slot [k] whose contact is [c]. *)
Section slot.
Context (k : nat) (l : list Z) (c : Z) (Hk : l !! k = Some c).
Notation on_slot := (MtReader (Z.of_nat k)).
Lemma feed_slot e : type e = EV_ABS -> code e <> ABS_MT_SLOT -> mt_feed (on_slot l) e =
  if code e =? ABS_MT_TRACKING_ID then
    if bool_decide (c < 0 <-> value e < 0) then None else Some (on_slot (<[k := value e]> l))
  else if ((code e =? ABS_MT_POSITION_X) || (code e =? ABS_MT_POSITION_Y)) && (0 <=? c) then Some (on_slot l) else None.
Proof.
  intros Ht Hc. unfold mt_feed. cbn [mt_slot mt_contacts]. rewrite Ht, Nat2Z.id, Hk.
  rewrite (proj2 (Z.eqb_neq _ _) Hc), (proj2 (Z.ltb_ge _ _)) by lia. done.
Qed.
Lemma feed_position c' v : 0 <= c -> c' = ABS_MT_POSITION_X \/ c' = ABS_MT_POSITION_Y ->
  mt_feed (on_slot l) (Event EV_ABS c' v) = Some (on_slot l).
Proof.
  intros Hc Hc'. rewrite feed_slot by (by destruct Hc' as [-> | ->]). cbn [code].
  rewrite (proj2 (Z.leb_le _ _)) by done. by destruct Hc' as [-> | ->].
Qed.
Lemma feed_contact v : ~ (c < 0 <-> v < 0) ->
  mt_feed (on_slot l) (Event EV_ABS ABS_MT_TRACKING_ID v) = Some (on_slot (<[k := v]> l)).
Proof. intros Hc. rewrite feed_slot by done. cbn [code value]. by rewrite bool_decide_false. Qed.
Lemma read_position x y : 0 <= c ->
  mt_read [Event EV_ABS ABS_MT_POSITION_X x; Event EV_ABS ABS_MT_POSITION_Y y] (on_slot l) = Some (on_slot l).
Proof. intros Hc. cbn [mt_read]. rewrite feed_position by auto. cbn [mbind option_bind]. by rewrite feed_position by auto. Qed.
End slot.

Lemma tracking_bounds id : 0 <= id -> 1 <= tracking id <= 10.
Proof.
  intros H. unfold tracking. rewrite (proj2 (Z.eqb_neq _ _)) by lia. unfold MAX_TRACKING_ID.
  pose proof (Z.rem_bound_pos id 10). lia.
Qed.

Lemma push_finger_down_inv x y id p : touch_inv p -> 0 <= id -> touch_inv (send_touch (push_finger_down x y id p)).
Proof.
  intros Ht Hid. unfold push_finger_down. destruct (find_touch_slot_spec (-1) p Ht) as [[-> _]|(k & -> & Hk & Hl & _)]; [done|].
  rewrite (proj2 (Z.eqb_neq _ _)) by lia. rewrite push_slot_spec. pose proof (tracking_bounds id Hid).
  change (last_slot (set_slot _ _ p)) with (last_slot p).
  replace (Z.rem id MAX_TRACKING_ID + 1) with (tracking id)
    by (unfold tracking; by rewrite (proj2 (Z.eqb_neq _ _)) by lia).
  apply (frame_inv p _ k (-1) id [_; _; _]); try done; [lia| |set_solver|].
  - assert ((tracking <$> touch_slots p) !! k = Some (-1)) as Hc by (by rewrite list_lookup_fmap, Hl).
    change (mt_read [?a; ?b; ?c] ?g) with (mt_feed g a ≫= mt_read [b; c]).
    rewrite (feed_contact _ _ (-1)) by (done || lia). cbn [mbind option_bind].
    apply (read_position _ _ (tracking id)); [|lia]. apply list_lookup_insert_eq. by eapply lookup_lt_Some.
  - cbn. by rewrite Nat2Z.id.
Qed.

(** A finger other than -1 is found on a slot where the reader sees a contact. *)
Lemma found_contact id p k : 0 <= id -> touch_slots p !! k = Some id ->
  (tracking <$> touch_slots p) !! k = Some (tracking id) /\ 0 <= tracking id.
Proof. intros Hid Hk. rewrite list_lookup_fmap, Hk. split; [done|]. pose proof (tracking_bounds id Hid). lia. Qed.

Lemma push_finger_up_inv id p : touch_inv p -> 0 <= id -> touch_inv (send_touch (push_finger_up id p)).
Proof.
  intros Ht Hid. unfold push_finger_up. destruct (find_touch_slot_spec id p Ht) as [[-> _]|(k & -> & Hk & Hl & _)]; [done|].
  rewrite (proj2 (Z.eqb_neq _ _)) by lia. rewrite push_slot_spec. destruct (found_contact _ _ _ Hid Hl) as [Hc Hp].
  apply (frame_inv p _ k id (-1) [_]); try done; [|set_solver|].
  - cbn [mt_read]. by rewrite (feed_contact _ _ (tracking id)) by (done || lia).
  - cbn. by rewrite Nat2Z.id.
Qed.
Lemma push_finger_motion_inv x y id p : touch_inv p -> 0 <= id -> touch_inv (send_touch (push_finger_motion x y id p)).
Proof.
  intros Ht Hid. unfold push_finger_motion. destruct (find_touch_slot_spec id p Ht) as [[-> _]|(k & -> & Hk & Hl & _)]; [done|].
  rewrite (proj2 (Z.eqb_neq _ _)) by lia. rewrite push_slot_spec. destruct (found_contact _ _ _ Hid Hl) as [Hc Hp].
  apply (frame_inv p _ k id id [_; _]); try done; [lia| |set_solver|].
  - rewrite (list_insert_id _ _ (tracking id)) by done. by apply (read_position _ _ (tracking id)).
  - cbn. by rewrite list_insert_id.
Qed.

Lemma emulated_touch_id_ok : 0 <= emulated_touch_id.
Proof. done. Qed.
Create HintDb touch.
#[local] Hint Resolve push_finger_down_inv push_finger_up_inv push_finger_motion_inv emulated_touch_id_ok : touch.

Section touch.
Context (cfg : config) (env : sdl).

Lemma send_other_touch t es p : t <> TouchDevice -> same_touch p (send t es p).
Proof.
  intros Ht. split_and!; [done..|]. unfold touch_batches, send. cbn. rewrite flat_map_app. destruct t; [| |done]; apply app_nil_r.
Qed.
Lemma send_mouse_touch es p : touch_inv p -> touch_inv (send_mouse es p).
Proof. intros Ht. unfold send_mouse. destruct es; [done|]. by eapply same_touch_inv; [apply send_other_touch|]. Qed.
Lemma android_touch window x y p q o : map_pointer_android cfg env window x y p = (q, o) -> touch_inv p -> touch_inv q.
Proof. intros H. destruct (map_pointer_android_same cfg env window x y p) as [_ Hs]. rewrite H in Hs. by apply same_touch_inv. Qed.
Lemma absolute_touch window x y p q o : map_pointer_absolute cfg env window x y p = (q, o) -> touch_inv p -> touch_inv q.
Proof. intros H. destruct (map_pointer_absolute_same cfg env window x y p) as [_ Hs]. rewrite H in Hs. by apply same_touch_inv. Qed.
Lemma relative_touch window x y p q o : map_pointer_relative env window x y p = (q, o) -> touch_inv p -> touch_inv q.
Proof. intros H. destruct (map_pointer_relative_same env window x y p) as [_ Hs]. rewrite H in Hs. by apply same_touch_inv. Qed.
#[local] Hint Resolve send_mouse_touch android_touch absolute_touch relative_touch : touch.

Lemma process_input_event_touch e p : event_ok e -> touch_inv p -> touch_inv (process_input_event cfg env e p).
Proof.
  intros He Ht.
  destruct e as [|down w c r ca|w x y xr yr ct|[] w b x y ct|w wx wy fl|[] id [[x y]|]]; cbn [process_input_event] in *;
    repeat case_match; simplify_eq; eauto with touch.
  all: by eapply same_touch_inv; [apply send_other_touch|].
Qed.

Lemma reboxed_touch c p : touch_inv p -> touch_inv (reboxed env c p).
Proof. by apply same_touch_inv. Qed.
#[local] Hint Resolve reboxed_touch : touch.
Lemma process_reboxed_input_event_touch e p : event_ok e -> touch_inv p -> touch_inv (process_reboxed_input_event cfg env e p).
Proof.
  intros He Ht. pose proof (process_input_event_touch e p He Ht). unfold process_reboxed_input_event.
  destruct (_ || _); [done|]. destruct e; repeat case_match; simplify_eq; eauto with touch. by apply (same_touch_inv p).
Qed.
Lemma release_reboxed_input_touch p : touch_inv p -> touch_inv (release_reboxed_input cfg env p).
Proof.
  intros Ht. unfold release_reboxed_input. destruct (legacy_input cfg); [done|]. set (q := with_input _ p).
  assert (touch_inv q) by (by apply (same_touch_inv p)). case_match; eauto with touch.
Qed.
Lemma set_pointer_locked_touch b p : touch_inv p -> touch_inv (set_pointer_locked env b p).
Proof. unfold set_pointer_locked. case_match; [|done]. by apply same_touch_inv. Qed.
#[local] Hint Resolve process_input_event_touch process_reboxed_input_event_touch
  release_reboxed_input_touch set_pointer_locked_touch : touch.
Lemma process_event_touch e p : event_ok e -> touch_inv p -> touch_inv (process_event cfg env e p).
Proof.
  intros He Ht. destruct e; unfold process_event; repeat case_match; eauto with touch.
  apply (same_touch_inv (release_reboxed_input cfg env p)); [done|by apply release_reboxed_input_touch].
Qed.

(** The callbacks touch the screen only through the releases. *)
Lemma tell_touch c p : touch_inv p -> touch_inv (tell c p).
Proof. by apply same_touch_inv. Qed.
Lemma with_focus_touch f p : touch_inv p -> touch_inv (with_focus f p).
Proof. by apply same_touch_inv. Qed.
Lemma with_windows_touch m p : touch_inv p -> touch_inv (with_windows m p).
Proof. by apply same_touch_inv. Qed.
Lemma update_host_window_touch w p : touch_inv p -> touch_inv (update_host_window env w p).
Proof. unfold update_host_window. case_match. apply tell_touch. Qed.
#[local] Hint Resolve tell_touch with_focus_touch with_windows_touch update_host_window_touch : touch.
Lemma run_callback_touch c p : touch_inv p -> touch_inv (run_callback cfg env c p).
Proof.
  intros Ht. destruct c; cbn [run_callback]; unfold create_window, window_deleted, window_wants_focus,
    window_lost_focus, window_hidden, invalidate_window_viewport, window_moved, window_resized, set_frame;
    repeat case_match; eauto 8 with touch.
Qed.
End touch.

Lemma touch_reachable cfg i p : rtc (platform_step cfg) (platform_init i) p -> touch_inv p.
Proof.
  intros H. pattern p. revert p H. apply rtc_ind_r; [apply touch_init|].
  intros q r _ Hst Ht. destruct Hst as [env e q He|env c q Hc|q|q r [d q' Hw|q' Hw|q' Hw|q']];
    [by apply process_event_touch|by apply run_callback_touch|by apply (same_touch_inv q)|by apply (same_touch_inv q')..].
Qed.

(** * Lemmas: what is sent past the state machines *)

Definition touch_only (p : platform) : Prop := Forall (fun b => b.1 = TouchDevice) (sent p).
Section direct.
Context (cfg : config) (env : sdl) (Hl : legacy_input cfg = false).

Lemma push_finger_down_sent x y id p : sent (push_finger_down x y id p).1 = sent p.
Proof. unfold push_finger_down, push_slot. by repeat (case_match; simplify_eq/=). Qed.
Lemma push_finger_up_sent id p : sent (push_finger_up id p).1 = sent p.
Proof. unfold push_finger_up, push_slot. by repeat (case_match; simplify_eq/=). Qed.
Lemma push_finger_motion_sent x y id p : sent (push_finger_motion x y id p).1 = sent p.
Proof. unfold push_finger_motion, push_slot. by repeat (case_match; simplify_eq/=). Qed.
Lemma send_touch_only r : touch_only r.1 -> touch_only (send_touch r).
Proof.
  intros H. unfold send_touch, send_events. destruct r.2; [done|]. apply Forall_app_2; [exact H|by apply Forall_singleton].
Qed.
Lemma pushed_only p r : sent r.1 = sent p -> touch_only p -> touch_only (send_touch r).
Proof. intros H Hp. apply send_touch_only. unfold touch_only. by rewrite H. Qed.
Lemma map_pointer_sent window x y p :
  sent (map_pointer_android cfg env window x y p).1 = sent p /\ sent (map_pointer_absolute cfg env window x y p).1 = sent p /\
  sent (map_pointer_relative env window x y p).1 = sent p.
Proof.
  assert (sent (map_pointer_android cfg env window x y p).1 = sent p) as H
    by (unfold map_pointer_android, diagnose_rejected_pointer; by repeat case_match).
  split; [done|]. split.
  - unfold map_pointer_absolute. revert H. by destruct (map_pointer_android _ _ _ _ _ _) as [q [[]|]].
  - unfold map_pointer_relative, diagnose_rejected_pointer. by repeat case_match.
Qed.
Lemma mapped_only window x y p q o : touch_only p ->
  map_pointer_android cfg env window x y p = (q, o) \/ map_pointer_absolute cfg env window x y p = (q, o) \/
  map_pointer_relative env window x y p = (q, o) -> touch_only q.
Proof.
  intros Hp H. destruct (map_pointer_sent window x y p) as (H1 & H2 & H3). unfold touch_only.
  destruct H as [H|[H|H]]; rewrite H in *; cbn [fst] in *; first [by rewrite H1 | by rewrite H2 | by rewrite H3].
Qed.
Lemma release_only p : touch_only p -> touch_only (release_reboxed_input cfg env p).
Proof.
  intros Hp. unfold release_reboxed_input. rewrite Hl. case_match; [|done].
  eapply pushed_only; [apply push_finger_up_sent|done].
Qed.
Lemma reboxed_only c p : touch_only p -> touch_only (reboxed env c p).
Proof. done. Qed.
Lemma process_input_event_only e p : no_touch_emulation cfg = false ->
  match e with SdlMotion _ _ _ _ _ _ | SdlButton _ _ _ _ _ _ => True | _ => False end ->
  touch_only p -> touch_only (process_input_event cfg env e p).
Proof.
  intros Hn He Hp. destruct e as [| |w x y xr yr ct|[] w b x y ct| |]; try done; cbn [process_input_event]; rewrite Hn.
  - destruct (map_pointer_android _ _ _ _ _ _) as [q [[ax ay]|]] eqn:E;
      (assert (touch_only q) as Hq by (eapply mapped_only; eauto)); [|done].
    eapply pushed_only; [apply push_finger_motion_sent|done].
  - destruct (map_pointer_android _ _ _ _ _ _) as [q [[ax ay]|]] eqn:E;
      (assert (touch_only q) as Hq by (eapply mapped_only; eauto)); [|done].
    eapply pushed_only; [apply push_finger_down_sent|done].
  - eapply pushed_only; [apply push_finger_up_sent|done].
Qed.
Lemma diagnosed_only b p : touch_only p -> touch_only (diagnose_rejected_pointer b p).
Proof. unfold diagnose_rejected_pointer. by repeat case_match. Qed.
Lemma process_reboxed_input_event_only e p : touch_only p -> touch_only (process_reboxed_input_event cfg env e p).
Proof.
  intros Hp. unfold process_reboxed_input_event. destruct (_ || _); [done|].
  destruct e as [| |w x y xr yr ct|down w b x y ct|w wx wy fl|]; try done.
  - destruct (no_touch_emulation cfg) eqn:En; cbn [negb]; [|by apply process_input_event_only].
    case_match; case_match; repeat case_match; simplify_eq; try apply reboxed_only; eapply mapped_only; eauto.
  - destruct (no_touch_emulation cfg) eqn:En; cbn [negb]; [|by apply process_input_event_only].
    repeat case_match; simplify_eq; repeat apply reboxed_only; try done; eapply mapped_only; eauto.
  - repeat case_match; simplify_eq; repeat apply reboxed_only; try done; try (by apply diagnosed_only); eapply mapped_only; eauto.
Qed.
Lemma process_event_only e p : touch_only p -> touch_only (process_event cfg env e p).
Proof.
  intros Hp. pose proof (process_reboxed_input_event_only e p Hp) as Hr.
  destruct e as [| | | | |kind id point]; unfold process_event; rewrite ?Hl.
  - exact (release_only p Hp).
  - destruct (_ && _); [|done]. unfold set_pointer_locked. by case_match.
  - by destruct (_ && _).
  - by destruct (_ && _).
  - done.
  - destruct kind, point as [[x y]|]; cbn [process_input_event]; try done;
      (eapply pushed_only; [first [apply push_finger_down_sent | apply push_finger_up_sent | apply push_finger_motion_sent]|done]).
Qed.
Lemma run_callback_only c p : touch_only p -> touch_only (run_callback cfg env c p).
Proof.
  intros Hp. pose proof (release_only p Hp) as Hr.
  destruct c as [id w|id|id|id|id|id x y|id w h|id|id]; cbn [run_callback].
  - unfold create_window, update_host_window. by repeat case_match.
  - unfold window_deleted, set_pointer_locked. by repeat case_match.
  - unfold window_wants_focus. by repeat case_match.
  - unfold window_lost_focus, set_pointer_locked. by repeat case_match.
  - unfold window_hidden, invalidate_window_viewport. set (q := match live id p with Some _ => _ | None => _ end).
    assert (touch_only q) as Hq by (unfold q, update_host_window; by repeat case_match).
    pose proof (release_only q Hq) as Hrq. unfold set_pointer_locked. by repeat case_match.
  - unfold window_moved, set_frame, update_host_window. by repeat case_match.
  - unfold window_resized, set_frame. by repeat case_match.
  - unfold invalidate_window_viewport, update_host_window. by repeat case_match.
  - by repeat case_match.
Qed.
End direct.
Lemma only_reachable cfg i p : legacy_input cfg = false -> rtc (platform_step cfg) (platform_init i) p -> touch_only p.
Proof.
  intros Hl H. pattern p. revert p H. apply rtc_ind_r; [constructor|].
  intros q r _ Hst Ht. destruct Hst as [env e q He|env c q Hc|q|q r [d q' Hw|q' Hw|q' Hw|q']]; try done;
    [by apply process_event_only|by apply run_callback_only].
Qed.

(** * Lemmas: the axes *)

Lemma to_axis_spec n v : 2 <= n <= 65536 -> 0 <= v < n ->
  to_axis n v = v * pointer_axis_max / (n - 1).
Proof.
  intros Hn Hv. unfold to_axis. rewrite Z.max_r by lia. rewrite (proj2 (Z.leb_gt _ _)) by lia.
  unfold pointer_axis_max.
  assert (0 <= v * 65535 / (n - 1) <= 65535) as Hq.
  { split; [apply Z.div_pos; lia|]. apply Z.div_le_upper_bound; lia. }
  rewrite Z.quot_div_nonneg by lia. rewrite i32_id by (unfold in_i32; lia).
  unfold clamp. by rewrite !(proj2 (Z.ltb_ge _ _)) by lia.
Qed.
Lemma to_axis_range n v : 0 <= to_axis n v <= 65535.
Proof. unfold to_axis. apply clamp_range. done. Qed.

(** A key code of the table is the first index that holds the scancode. *)
Lemma convert_from_spec l n s : (s ∉ l /\ convert_from n l s = KEY_RESERVED) \/
  exists k, l !! k = Some s /\ s ∉ take k l /\ convert_from n l s = n + Z.of_nat k.
Proof.
  revert n; induction l as [|c l IH]; intros n; [left; split; [set_solver|done]|]. cbn.
  destruct (String.eqb c s) eqn:E.
  - apply String.eqb_eq in E as ->. right. exists 0%nat. split_and!; [done|set_solver|lia].
  - apply String.eqb_neq in E. destruct (IH (n + 1)) as [[Hs ->]|(k & Hk & Hn & ->)]; [left; set_solver|].
    right. exists (S k). split_and!; [done|cbn; set_solver|lia].
Qed.
Lemma code_map_length : length code_map = 249%nat.
Proof. reflexivity. Qed.

(** * Theorems *)

(** C33: What the guest's keyboard and pointer are told, whatever the host
    sends and in whatever order windows are created, moved, focused, hidden and
    deleted, when the legacy input is not selected.  Nothing is sent to them
    directly: only fingers are.  So, as long as the transport works, the keys
    and buttons that what was submitted leaves pressed are exactly those the
    platform has recorded as injected, all of them held on the host; and while
    no window has the focus there are none.  The live windows all have an SDL
    id, in either mode.  (The legacy input sends presses directly, and nothing
    releases them: [legacy_press_kept].) *)
Theorem platform_input cfg fwd capacity reserve p :
  rtc (platform_step cfg) (platform_init (input_init fwd capacity reserve)) p ->
  let d := disp (inp p) in
  let k := keys (kb (inp p)) in let b := buttons (ptr (inp p)) in
  (forall id w, live id p = Some w -> sdl_id w <> 0) /\
  (legacy_input cfg = false ->
     (forall es, (KeyboardDevice, es) ∉ sent p /\ (PointerDevice, es) ∉ sent p) /\
     injected_held_ k ⊆ host_held_ k /\ injected_held_ b ⊆ host_held_ b /\
     (clean d -> run Keyboard_ (pipeline d) ∅ = Some (injected_held_ k) /\
                 run Pointer_ (pipeline d) ∅ = Some (injected_held_ b)) /\
     (focused_ p = 0 -> injected_held_ k = ∅ /\ injected_held_ b = ∅)).
Proof.
  intros H. cbn. pose proof (fun Hl => only_reachable cfg _ p Hl H) as Ho.
  apply platform_reachable in H as [Hr Hi]; [|by split; [apply map_Forall_empty|]].
  split; [intros id w; by eapply identified_live|]. intros Hl. specialize (Ho Hl).
  destruct (reachable_input _ _ _ _ Hr) as ((_ & Hk & Hb & Htk & Htp & _) & _). split_and!.
  - intros es. unfold touch_only in Ho. rewrite Forall_forall in Ho.
    split; intros Hin; by apply Ho in Hin.
  - apply Hk.
  - apply Hb.
  - intros Hc. split; [by apply Htk|by apply Htp].
  - intros Hf. apply (proj2 Hi). by right.
Qed.

(** C34: What is sent to the touch screen is a well-formed multi-touch stream:
    every batch is one frame, closed by its only report; a reader never meets
    a position or an end of a contact that is not there, a contact on an
    occupied slot or a slot that does not exist; and after every step it sees
    a contact on exactly the slots where the platform records a finger, under
    the finger's tracking id.  The ids of the fingers are taken to be not
    negative, as SDL gives them on Linux ([event_ok]); a tracking id is the
    finger's modulo ten, plus one, so two fingers may share one
    ([shared_tracking_id]). *)
Theorem touch_protocol cfg i p :
  rtc (platform_step cfg) (platform_init i) p ->
  length (touch_slots p) = MAX_FINGERS /\
  Forall frame_of_events (touch_batches p) /\
  mt_read (concat (touch_batches p)) (MtReader (-1) (replicate MAX_FINGERS (-1))) =
    Some (MtReader (last_slot p) (tracking <$> touch_slots p)) /\
  (forall k id, touch_slots p !! k = Some id -> id <> -1 -> 0 <= id /\ tracking id = id `mod` 10 + 1).
Proof.
  intros H. pose proof (touch_reachable _ _ _ H) as Ht. destruct Ht as [H1 _ H3 H4 H5]. split_and!; try done.
  intros k id Hk Hn. rewrite Forall_forall in H3. specialize (H3 id ltac:(by eapply list_elem_of_lookup_2)).
  split; [lia|]. unfold tracking. rewrite (proj2 (Z.eqb_neq _ _) Hn). unfold MAX_TRACKING_ID. by rewrite Z.rem_mod_nonneg by lia.
Qed.

(** The absolute axes: any point maps into the device's range; the pixels of a
    display of at most 65536 columns map in order to different values, within
    one step below the exact proportion, the first to 0 and the last to
    65535. *)
Lemma pointer_axis n v : 2 <= n <= 65536 -> 0 <= v < n ->
  (to_axis n v * (n - 1) <= v * pointer_axis_max < (to_axis n v + 1) * (n - 1)) /\
  to_axis n 0 = 0 /\ to_axis n (n - 1) = pointer_axis_max /\
  (forall v', v < v' < n -> to_axis n v < to_axis n v').
Proof.
  intros Hn Hv. rewrite !to_axis_spec by lia. unfold pointer_axis_max.
  pose proof (Z.div_mod (v * 65535) (n - 1)) as Hd. pose proof (Z.mod_pos_bound (v * 65535) (n - 1)) as Hm.
  split_and!; [nia|nia|by rewrite Z.mul_0_l, Z.div_0_l by lia|by rewrite Z.mul_comm, Z.div_mul by lia|].
  intros v' Hv'. rewrite to_axis_spec by lia. unfold pointer_axis_max.
  assert (v * 65535 / (n - 1) + 1 <= v' * 65535 / (n - 1)); [|lia]. apply Z.div_le_lower_bound; nia.
Qed.

(** The table of keys, read from both sides: a code other than
    [KEY_RESERVED] is the first index of its scancode, a scancode outside the
    table has none. *)
Lemma convert_spec s : 0 <= convert s < 249 /\
  (convert s <> KEY_RESERVED -> code_map !! Z.to_nat (convert s) = Some s) /\
  (s ∉ code_map -> convert s = KEY_RESERVED).
Proof.
  unfold convert. destruct (convert_from_spec code_map 0 s) as [[Hs ->]|(k & Hk & Hn & ->)]; [by split_and!|].
  pose proof (lookup_lt_Some _ _ _ Hk) as Hl. rewrite code_map_length in Hl.
  rewrite Z.add_0_l, Nat2Z.id. split_and!; [lia|lia|done|]. intros []. by eapply list_elem_of_lookup_2.
Qed.

(** * Witnesses *)

Definition a_window : host_window := HostWindow 7 1 (Rect 0 0 100 100) 3.
Definition an_env : sdl := Sdl 5 5
  (fun _ => Some (RenderedViewport true 100 100 100 100 (Rect 0 0 100 100) 100 100 R0 1)) 100 100 (fun _ => true) (fun b => b) (0, 0) (fun _ => (100, 100)) 0.

Definition an_input : input := input_init false 4 1.
(** A window is created, key A and then the left button are pressed on it, it
    loses the focus. *)
Definition reboxed_cfg : config := Config false true false.
Definition key_pressed : platform :=
  process_event reboxed_cfg an_env (SdlKey true 7 "A" false false)
    (run_callback reboxed_cfg an_env (Created 3 a_window) (platform_init an_input)).
Definition button_pressed : platform :=
  process_event reboxed_cfg an_env (SdlButton true 7 ButtonLeft 50 50 false) key_pressed.
Definition focus_lost : platform := run_callback reboxed_cfg an_env (LostFocus 3) button_pressed.

Lemma button_pressed_reachable : rtc (platform_step reboxed_cfg) (platform_init an_input) button_pressed.
Proof. do 3 (eapply rtc_r; [|by constructor]). apply rtc_refl. Qed.

Lemma platform_input_witness :
  rtc (platform_step reboxed_cfg) (platform_init an_input) focus_lost /\
  injected_held_ (keys (kb (inp button_pressed))) = {[30]} /\
  injected_held_ (buttons (ptr (inp button_pressed))) = {[BTN_LEFT]} /\
  injected_held_ (keys (kb (inp focus_lost))) = ∅ /\
  run Keyboard_ (pipeline (disp (inp focus_lost))) ∅ = Some ∅.
Proof.
  assert (rtc (platform_step reboxed_cfg) (platform_init an_input) focus_lost) as H.
  { eapply rtc_r; [apply button_pressed_reachable|]. by apply on_callback. }
  split; [exact H|]. split; [by vm_compute|]. split; [by vm_compute|].
  destruct (platform_input reboxed_cfg false 4 1 focus_lost H) as (_ & Hf).
  destruct Hf as (_ & _ & _ & Hr & Hu); [done|]. destruct Hu as [Hk _]; [by vm_compute|]. split; [exact Hk|].
  rewrite Hk in Hr. apply Hr. split; [by vm_compute|vm_compute; repeat constructor].
Defined.

(** In the legacy mode a key that is down when the focus is lost stays down. *)
Definition legacy_cfg : config := Config true true false.
Lemma legacy_press_kept : exists p,
  rtc (platform_step legacy_cfg) (platform_init an_input) p /\ focused_ p = 0 /\
  sent p = [(KeyboardDevice, [Event EV_KEY 30 1])].
Proof.
  exists (run_callback legacy_cfg an_env (LostFocus 3) (process_event legacy_cfg an_env (SdlKey true 7 "A" false false)
    (run_callback legacy_cfg an_env (Created 3 a_window) (platform_init an_input)))).
  split; [|by vm_compute]. do 3 (eapply rtc_r; [|by constructor]). apply rtc_refl.
Qed.

(** Two fingers on the screen, moved and lifted. *)
Definition fingers (l : list host_event) : platform :=
  foldl (fun p e => process_event reboxed_cfg an_env e p) (platform_init an_input) l.
Lemma fingers_reachable cfg env l p :
  Forall event_ok l -> rtc (platform_step cfg) p (foldl (fun p e => process_event cfg env e p) p l).
Proof.
  revert p; induction l as [|e l IH]; intros p Hl; [apply rtc_refl|].
  apply Forall_cons in Hl as [He Hl]. eapply rtc_l; [by apply on_event|by apply IH].
Qed.
Definition two_fingers : list host_event :=
  [SdlFinger FingerDown 4 (Some (10, 20)); SdlFinger FingerDown 5 (Some (30, 40));
   SdlFinger FingerMotion 4 (Some (11, 21)); SdlFinger FingerUp 4 None].
Lemma touch_protocol_witness :
  rtc (platform_step reboxed_cfg) (platform_init an_input) (fingers two_fingers) /\
  mt_read (concat (touch_batches (fingers two_fingers))) (MtReader (-1) (replicate MAX_FINGERS (-1))) =
    Some (MtReader 0 ([-1; 6] ++ replicate 8 (-1))).
Proof.
  assert (rtc (platform_step reboxed_cfg) (platform_init an_input) (fingers two_fingers)) as H.
  { apply fingers_reachable. repeat constructor; by vm_compute. }
  split; [exact H|]. destruct (touch_protocol reboxed_cfg an_input _ H) as (_ & _ & Hr & _). rewrite Hr. by vm_compute.
Defined.

(** Two fingers whose ids differ by ten are on the screen with the same
    tracking id. *)
Lemma shared_tracking_id :
  let p := fingers [SdlFinger FingerDown 1 (Some (10, 20)); SdlFinger FingerDown 11 (Some (30, 40))] in
  rtc (platform_step reboxed_cfg) (platform_init an_input) p /\
  option_map mt_contacts (mt_read (concat (touch_batches p)) (MtReader (-1) (replicate MAX_FINGERS (-1)))) =
    Some ([2; 2] ++ replicate 8 (-1)).
Proof.
  split; [|by vm_compute]. apply fingers_reachable. repeat constructor; by vm_compute.
Qed.

(** With the emulated touch, two mouse buttons put the one emulated finger on
    two slots; losing the focus lifts only one of them. *)
Definition emulated_cfg : config := Config false false true.
Definition two_buttons : list host_event :=
  [SdlButton true 7 ButtonLeft 50 50 false; SdlButton true 7 ButtonRight 50 50 false].
Definition emulated_window : platform :=
  run_callback emulated_cfg an_env (Created 3 a_window) (platform_init an_input).
Definition two_buttons_down : platform :=
  foldl (fun p e => process_event emulated_cfg an_env e p) emulated_window two_buttons.
Lemma emulated_touch_stuck : exists p,
  rtc (platform_step emulated_cfg) (platform_init an_input) p /\ focused_ p = 0 /\
  touch_slots p = [-1; 0] ++ replicate 8 (-1).
Proof.
  exists (run_callback emulated_cfg an_env (LostFocus 3) two_buttons_down). split; [|by vm_compute].
  eapply rtc_r; [|exact (on_callback emulated_cfg an_env (LostFocus 3) two_buttons_down I)].
  eapply rtc_l; [exact (on_callback emulated_cfg an_env (Created 3 a_window) (platform_init an_input) ltac:(done))|].
  apply (fingers_reachable emulated_cfg an_env two_buttons emulated_window). by repeat constructor.
Qed.
