(* ===== verification/InitRc.v ===== *)
(** The init files of the container (container/lxc_container.cpp,
    [add_container_service_labels]): Android's rc files are rewritten, line by
    line, so that init can start services without SELinux, and the rewritten
    copies are bound over the originals. *)

From S2P Require Import Prelude.

Local Open Scope Z_scope.

(** * Strings *)

Definition blank (b : byte) : bool := Byte.eqb b x20 || Byte.eqb b x09.
(** A line is its indentation, up to [find_first_not_of(" \t")], and the rest;
    the rest is empty where that is npos. *)
Fixpoint indentation (l : bytes) : bytes * bytes :=
  match l with
  | b :: l' => if blank b then let (i, r) := indentation l' in (b :: i, r) else ([], l)
  | [] => ([], [])
  end.
(** The text before and after the first occurrence of [p], as [find]. *)
Fixpoint split_sub (p s : bytes) : option (bytes * bytes) :=
  if starts_with s p then Some ([], drop (length p) s)
  else match s with
       | [] => None
       | b :: s' => prod_map (cons b) id <$> split_sub p s'
       end.
Definition contains (p s : bytes) : bool := bool_decide (is_Some (split_sub p s)).

Definition print_lines (l : list bytes) : bytes := concat ((fun line => line ++ [x0a]) <$> l).

(** * Rewriting a line *)

(** Which file is rewritten: whether it is hw/init.rc, its name, and whether
    the host has /dev/ashmem. *)
Record rc_file := RcFile { is_hw_init : bool; filename : bytes; has_ashmem : bool }.

Section rewrite.
Context (f : rc_file).
Definition named (s : string) : bool := bytes_eqb (filename f) (str s).

(** The rest of a line and whether it was changed. *)
Definition replace_if (b : bool) (s : string) (r : bytes * bool) : bytes * bool :=
  if b then (str s, true) else r.
Definition hide_fusectl (r : bytes * bool) : bytes * bool :=
  replace_if (is_hw_init f && bytes_eqb r.1 (str "mount fusectl none /sys/fs/fuse/connections"))
    "# Anbox Reboxed: host fusectl connections are hidden" r.
Definition use_memfd (r : bytes * bool) : bytes * bool :=
  replace_if (negb (has_ashmem f) && is_hw_init f && bytes_eqb r.1 (str "setprop sys.use_memfd false"))
    "setprop sys.use_memfd true" r.
Definition generic_app_process : bytes := str "/system/bin/app_process ".
Definition zygote32 (r : bytes * bool) : bytes * bool :=
  if named "init.zygote32.rc" && starts_with r.1 (str "service ") then
    match split_sub generic_app_process r.1 with
    | Some (a, b) => (a ++ str "/system/bin/app_process32" ++ str " " ++ b, true)
    | None => r
    end
  else r.
Definition skip_keymaster (r : bytes * bool) : bytes * bool :=
  replace_if (contains (str "/system/bin/vdc keymaster earlyBootEnded") r.1)
    "exec u:r:init:s0 -- /system/bin/true" r.
Definition exec_replacements : list (string * string) := [
  ("exec - ", "exec u:r:init:s0 ");
  ("exec -- ", "exec u:r:init:s0 -- ");
  ("exec_background - ", "exec_background u:r:init:s0 ");
  ("exec_background -- ", "exec_background u:r:init:s0 -- ")]%string.
Fixpoint label_exec (l : list (string * string)) (r : bytes * bool) : bytes * bool :=
  match l with
  | [] => r
  | (p, q) :: l' =>
      if starts_with r.1 (str p) then (str q ++ drop (length (str p)) r.1, true) else label_exec l' r
  end.

Definition rewrite_rest (rest : bytes) : bytes * bool :=
  label_exec exec_replacements (skip_keymaster (zygote32 (use_memfd (hide_fusectl (rest, false))))).
Definition rewrite_line (line : bytes) : bytes * bool :=
  let (indent, rest) := indentation line in
  match rest with
  | [] => (line, false)
  | _ => let r := rewrite_rest rest in (indent ++ r.1, r.2)
  end.

(** * Services *)

Definition is_service (line : bytes) : bool := starts_with line (str "service ").
(** The last character that is not blank is a backslash. *)
Definition continued (line : bytes) : bool :=
  match (indentation (reverse line)).2 with b :: _ => Byte.eqb b x5c | [] => false end.

(** The options that follow a service are searched for its label. *)
Fixpoint has_seclabel (l : list bytes) : bool :=
  match l with
  | [] => false
  | line :: l' =>
      match line with
      | [] => has_seclabel l'
      | b :: _ =>
          if negb (blank b) then false
          else if starts_with (indentation line).2 (str "seclabel ") then true
          else has_seclabel l'
      end
  end.

Definition seclabel : bytes := str "    seclabel u:r:init:s0".
Definition preload_pipe : bytes := str "    setenv LD_PRELOAD /data/anbox/libanbox_pipe_compat.so".
Definition preload_installd : bytes := str "    setenv LD_PRELOAD /data/anbox/libanbox_installd_selinux_compat.so".
Definition preload_zygote : bytes :=
  str "    setenv LD_PRELOAD /data/anbox/libanbox_ashmem_ioctl_compat.so:/data/anbox/libanbox_pipe_compat.so".
Definition preload_zygote32 : bytes :=
  str "    setenv LD_PRELOAD /data/anbox/libanbox_ashmem_ioctl_compat32.so:/data/anbox/libanbox_pipe_compat32.so".

(** The lines added after the declaration of a service, of which [last] is the
    last physical line and [rest] what follows it. *)
Definition added_options (last : bytes) (rest : list bytes) : list bytes :=
  (if named "surfaceflinger.rc" then [preload_pipe] else []) ++
  (if named "installd.rc" then [preload_installd] else []) ++
  (if named "init.zygote64.rc" || (named "init.zygote64_32.rc" && starts_with last (str "service zygote "))
   then [preload_zygote] else []) ++
  (if named "init.zygote32.rc" || (named "init.zygote64_32.rc" && starts_with last (str "service zygote_secondary "))
   then [preload_zygote32] else []) ++
  (if has_seclabel rest then [] else [seclabel]).

(** The loop over the lines. [declaring] says that the line continues the
    declaration of a service: such lines are copied as they are, and the
    options are added after the last of them. *)
Fixpoint label_lines (declaring : bool) (l : list bytes) : list bytes * bool :=
  match l with
  | [] => ([], false)
  | line :: l' =>
      let (out, ch) := if declaring then (line, false) else rewrite_line line in
      if declaring || is_service line then
        if continued line && negb (match l' with [] => true | _ => false end) then
          let (outs, chs) := label_lines true l' in (out :: outs, ch || chs)
        else
          let opts := added_options line l' in
          let (outs, chs) := label_lines false l' in
          (out :: opts ++ outs, ch || negb (match opts with [] => true | _ => false end) || chs)
      else
        let (outs, chs) := label_lines false l' in (out :: outs, ch || chs)
  end.

(** A file: None where the original is kept.  [appended] is the text that
    hw/init.rc ends with. *)
Definition label_file (appended content : bytes) : option bytes :=
  let (outs, ch) := label_lines false (getlines [] content) in
  if is_hw_init f then Some (print_lines outs ++ appended)
  else if ch then Some (print_lines outs) else None.
End rewrite.

(** * The services of the container *)

(** The replacements of apexd.rc and netbpfload.rc, and what hw/init.rc ends
    with. *)
Definition compat_apexd_init : bytes := print_lines (str <$> [
  "# Container-only replacement for Android's stock apexd service file.";
  "# Explicit labels avoid policy transition lookup when SELinux is disabled.";
  "service apexd /system/bin/apexd";
  "    interface aidl apexservice";
  "    class core";
  "    user root";
  "    group system";
  "    oneshot";
  "    disabled";
  "    reboot_on_failure reboot,apexd-failed";
  "    capabilities CHOWN DAC_OVERRIDE DAC_READ_SEARCH FOWNER SYS_ADMIN";
  "    seclabel u:r:init:s0";
  "";
  "service apexd-bootstrap /system/bin/apexd --bootstrap";
  "    user root";
  "    group system";
  "    oneshot";
  "    disabled";
  "    reboot_on_failure reboot,bootloader,bootstrap-apexd-failed";
  "    capabilities SYS_ADMIN";
  "    seclabel u:r:init:s0";
  "";
  "service apexd-snapshotde /system/bin/apexd --snapshotde";
  "    user root";
  "    group system";
  "    oneshot";
  "    disabled";
  "    capabilities CHOWN DAC_OVERRIDE DAC_READ_SEARCH FOWNER";
  "    seclabel u:r:init:s0"]%string).
Definition compat_bpf_init : bytes := print_lines (str <$> [
  "# Run the real Android 15 loader before netd. The executable is an exact";
  "# APEX copy with only its LTS-kernel policy predicate relaxed.";
  "on load_bpf_programs";
  "    exec_start bpfloader";
  "";
  "service bpfloader /system/bin/netutils-wrapper-1.0";
  "    capabilities CHOWN DAC_OVERRIDE SYS_ADMIN NET_ADMIN";
  "    group root graphics network_stack net_admin net_bw_acct net_bw_stats net_raw system";
  "    user root";
  "    file /dev/kmsg w";
  "    rlimit memlock 1073741824 1073741824";
  "    oneshot";
  "    reboot_on_failure reboot,bpfloader-failed";
  "    seclabel u:r:init:s0"]%string).
Definition compat_derive_classpath_init : bytes := print_lines (str <$> [
  "# Container-only early definition for the sdkext APEX service.";
  "# The wrapper runs the platform tool, then injects Anbox Reboxed bootclasspath";
  "# compatibility stubs before init imports /data/system/environ/classpath.";
  "service derive_classpath /vendor/bin/anbox_derive_classpath";
  "    user system";
  "    group system reserved_disk";
  "    oneshot";
  "    disabled";
  "    seclabel u:r:init:s0"]%string).
Definition compat_extservices_apex_init : bytes := print_lines (str <$> [
  "# Container-only APEX compatibility for Android 15 GSI.";
  "# apexd leaves com.android.extservices inactive in this container, but";
  "# PackageManager requires the real android.ext.services package.";
  "on post-fs-data";
  "    mkdir /apex/com.android.extservices 0755 root root";
  "    mount none /system/apex/com.android.extservices.apex /apex/com.android.extservices bind ro"]%string).
Definition compat_graphics_init : bytes := print_lines (str <$> [
  "# Container-only early definitions for the API 35 ranchu graphics stack.";
  "# Vendor init files are imported after class core starts in second-stage mode.";
  "on early-init";
  "    start vendor.hwservicemanager";
  "";
  "on post-fs-data";
  "    mkdir /data/anbox 0755 system system";
  "    mkdir /data/data 0711 system system";
  "    mkdir /data/user/0 0711 system system";
  "    mount none /data/user/0 /data/data bind";
  "    mkdir /data/user_de/0 0711 system system";
  "    mkdir /data/user/0/com.android.providers.telephony 0700 radio radio";
  "    mkdir /data/user/0/com.android.providers.telephony/databases 0700 radio radio";
  "    mkdir /data/user_de/0/com.android.providers.telephony 0700 radio radio";
  "    mkdir /data/user_de/0/com.android.providers.telephony/databases 0700 radio radio";
  "    mkdir /data/system_ce/0 0770 system system";
  "    mkdir /data/system_de/0 0770 system system";
  "    mkdir /data/misc_ce/0 0771 system misc";
  "    mkdir /data/misc_de/0 0771 system misc";
  "    mkdir /data/misc/profiles 0771 system system";
  "    mkdir /data/misc/profiles/cur 0771 system system";
  "    mkdir /data/misc/profiles/cur/0 0771 system system";
  "    mkdir /data/misc/profiles/ref 0771 system system";
  "    chmod 0750 /mnt/user";
  "    chown root media_rw /mnt/user";
  "    chmod 0710 /mnt/user/0";
  "    chown shell everybody /mnt/user/0";
  "    chmod 0700 /mnt/user/0/emulated";
  "    chown root root /mnt/user/0/emulated";
  "    chmod 0710 /mnt/pass_through/0";
  "    chown root media_rw /mnt/pass_through/0";
  "    chmod 0710 /mnt/pass_through/0/emulated";
  "    chown root media_rw /mnt/pass_through/0/emulated";
  "    mkdir /mnt/runtime/default/emulated 0700 root root";
  "    mkdir /mnt/runtime/read/emulated 0700 root root";
  "    mkdir /mnt/runtime/write/emulated 0700 root root";
  "    mkdir /mnt/runtime/full/emulated 0700 root root";
  "    chmod 0700 /mnt/runtime/default/emulated";
  "    chmod 0700 /mnt/runtime/read/emulated";
  "    chmod 0700 /mnt/runtime/write/emulated";
  "    chmod 0700 /mnt/runtime/full/emulated";
  "    chown root root /mnt/runtime/default/emulated";
  "    chown root root /mnt/runtime/read/emulated";
  "    chown root root /mnt/runtime/write/emulated";
  "    chown root root /mnt/runtime/full/emulated";
  "    chmod 0755 /data/anbox/libanbox_pipe_compat.so";
  "    chmod 0755 /data/anbox/libanbox_pipe_compat32.so";
  "    start installd";
  "";
  "# ART APEX init.rc is not imported by the direct second-stage path. Keep";
  "# this declaration synchronized with /apex/com.android.art/etc/init.rc so";
  "# PackageManager can resolve the lazy aidl/artd interface for dexopt.";
  "service artd /apex/com.android.art/bin/artd";
  "    interface aidl artd";
  "    disabled";
  "    oneshot";
  "    class core";
  "    user artd";
  "    group artd";
  "    capabilities DAC_OVERRIDE DAC_READ_SEARCH FOWNER CHOWN";
  "    seclabel u:r:init:s0";
  "";
  "on boot";
  "    start artd";
  "    start gatekeeperd";
  "    start storaged";
  "    start media";
  "    start mediaextractor";
  "    start anbox-media-swcodec";
  "    start mediametrics";
  "    start statsd";
  "";
  "# This container image has no interactive Setup Wizard. Mark its primary";
  "# user provisioned once framework services are ready; otherwise Android 15";
  "# Settings deliberately finishes its launch and returns to Home.";
  "on property:sys.boot_completed=1";
  "    exec_background u:r:init:s0 root root -- /system/bin/settings put global device_provisioned 1";
  "    exec_background u:r:init:s0 root root -- /system/bin/settings put secure user_setup_complete 1";
  "";
  "service vendor.hwservicemanager /system/system_ext/bin/hwservicemanager";
  "    class core animation";
  "    user system";
  "    group system readproc";
  "    seclabel u:r:init:s0";
  "    onrestart setprop hwservicemanager.ready false";
  "    onrestart class_restart --only-enabled main";
  "    onrestart class_restart --only-enabled hal";
  "";
  "# The media.swcodec APEX rc is not imported by the container's direct";
  "# second-stage init path. Codec2's goldfish mapper also needs the same";
  "# qemu-pipe compatibility shim used by the graphics services. Without it,";
  "# MediaProvider blocks during startup and emulated storage never mounts.";
  "service anbox-media-swcodec /apex/com.android.media.swcodec/bin/mediaswcodec";
  "    class main";
  "    user mediacodec";
  "    group camera drmrpc mediadrm";
  "    ioprio rt 4";
  "    setenv LD_LIBRARY_PATH /data/anbox";
  "    setenv LD_PRELOAD libanbox_pipe_compat.so";
  "    seclabel u:r:init:s0";
  "";
  "service vendor.gralloc-3-0 /vendor/bin/hw/android.hardware.graphics.allocator@3.0-service.ranchu";
  "    interface android.hardware.graphics.allocator@3.0::IAllocator default";
  "    class hal animation";
  "    user system";
  "    group graphics drmrpc";
  "    capabilities SYS_NICE";
  "    setenv LD_PRELOAD /vendor/lib64/libanbox_pipe_compat.so";
  "    seclabel u:r:init:s0";
  "    onrestart restart surfaceflinger";
  "";
  "service vendor.graphics-composer-3 /vendor/bin/hw/android.hardware.graphics.composer3-service.ranchu";
  "    interface aidl android.hardware.graphics.composer3.IComposer/default";
  "    class hal animation";
  "    user system";
  "    group graphics drmrpc";
  "    capabilities SYS_NICE";
  "    setenv LD_PRELOAD /vendor/lib64/libanbox_pipe_compat.so";
  "    seclabel u:r:init:s0";
  "    onrestart restart surfaceflinger";
  "";
  "service statsd /apex/com.android.os.statsd/bin/statsd";
  "    override";
  "    class main";
  "    socket statsdw dgram+passcred 0222 statsd statsd";
  "    user statsd";
  "    group statsd log";
  "    task_profiles ProcessCapacityHigh HighEnergySaving";
  "    seclabel u:r:init:s0"]%string).
Definition compat_security_hal_init : bytes := print_lines (str <$> [
  "# Container-only early definitions for the API 35 software security HAL stack.";
  "# Keystore2 starts early and needs KeyMint visible before late vendor imports.";
  "on early-init";
  "    start vendor.keymint-default";
  "    start vendor.gatekeeper-1-0";
  "";
  "service vendor.keymint-default /vendor/bin/hw/android.hardware.security.keymint-service";
  "    interface aidl android.hardware.security.keymint.IKeyMintDevice/default";
  "    interface aidl android.hardware.security.keymint.IRemotelyProvisionedComponent/default";
  "    interface aidl android.hardware.security.secureclock.ISecureClock/default";
  "    interface aidl android.hardware.security.sharedsecret.ISharedSecret/default";
  "    class hal";
  "    user nobody";
  "    seclabel u:r:init:s0";
  "";
  "service vendor.gatekeeper-1-0 /vendor/bin/hw/android.hardware.gatekeeper@1.0-service.software";
  "    interface android.hardware.gatekeeper@1.0::IGatekeeper default";
  "    class hal";
  "    user system";
  "    group system";
  "    seclabel u:r:init:s0"]%string).

(** The end of hw/init.rc, with the init file of the signature-spoof overlay
    where that is enabled. *)
Definition appended_init (signature_init : option bytes) : bytes :=
  [x0a] ++ compat_derive_classpath_init ++ [x0a] ++ compat_extservices_apex_init ++
  [x0a] ++ compat_graphics_init ++ [x0a] ++ compat_security_hal_init ++
  match signature_init with Some s => [x0a] ++ s | None => [] end.

(** * The directories *)

(** A regular file of an init directory, by its path below it. *)
Record init_file := InitFile { relative : bytes; content : bytes }.
Fixpoint last_slash (cur s : bytes) : bytes :=
  match s with
  | [] => cur
  | b :: s' => if Byte.eqb b x2f then last_slash s' s' else last_slash cur s'
  end.
Definition base_name (path : bytes) : bytes := last_slash path path.
Definition ends_with (s suffix : bytes) : bool := starts_with (reverse s) (reverse suffix).
(** The file is an rc file other than the two that are replaced as a whole. *)
Definition rewritten (path : bytes) : bool :=
  ends_with (base_name path) (str ".rc") &&
  negb (bytes_eqb (base_name path) (str "apexd.rc")) && negb (bytes_eqb (base_name path) (str "netbpfload.rc")).

(** [add_container_service_labels]: the copies that are written, and bound
    over the files of the same path. *)
Definition label_init_file (has_ashmem : bool) (signature_init : option bytes) (i : init_file) : option init_file :=
  if rewritten (relative i) then
    InitFile (relative i) <$>
      label_file (RcFile (bytes_eqb (relative i) (str "hw/init.rc")) (base_name (relative i)) has_ashmem)
        (appended_init signature_init) (content i)
  else None.
Definition add_container_service_labels (has_ashmem : bool) (signature_init : option bytes) (l : list init_file)
    : list init_file :=
  omap (label_init_file has_ashmem signature_init) l.

(** * Specification *)

(** ** The language of init *)

(** A line in words. *)
Fixpoint init_words (cur line : bytes) : list bytes :=
  match line with
  | [] => if is_empty cur then [] else [cur]
  | b :: line' =>
      if blank b then if is_empty cur then init_words [] line' else cur :: init_words [] line'
      else init_words (cur ++ [b]) line'
  end.
(** The statements of a file: a line that ends in a backslash goes on in the
    next one, behind its indentation. *)
Definition folds (line : bytes) : bool := match last line with Some b => Byte.eqb b x5c | None => false end.
Fixpoint statements (before : bytes) (l : list bytes) : list (list bytes) :=
  match l with
  | [] => if is_empty before then [] else [init_words [] before]
  | line :: l' =>
      let text := before ++ (if is_empty before then line else (indentation line).2) in
      if folds line then statements (removelast text) l' else init_words [] text :: statements [] l'
  end.
(** A statement that begins with one of three words opens a section; the others
    belong to the section before them.  What is in front of the first section
    and the sections, each with its statements. *)
Definition opens (w : list bytes) : bool :=
  match w with
  | first :: _ => bool_decide (first ∈ [str "service"; str "on"; str "import"])
  | [] => false
  end.
Fixpoint sections (st : list (list bytes)) : list (list bytes) * list (list bytes * list (list bytes)) :=
  match st with
  | [] => ([], [])
  | w :: st' =>
      let (body, rest) := sections st' in
      if opens w then ([], (w, body) :: rest) else (w :: body, rest)
  end.
Definition is_label (w : list bytes) : bool :=
  match w with first :: _ :: _ => bytes_eqb first (str "seclabel") | _ => false end.
Definition labelled_section (s : list bytes * list (list bytes)) : bool :=
  match s.1 with
  | first :: _ => negb (bytes_eqb first (str "service")) || existsb is_label s.2
  | [] => true
  end.
(** Every service of a file has a label. *)
Definition services_labelled (l : list bytes) : bool := forallb labelled_section (sections (statements [] l)).2.

(** ** Files of the usual form *)

(** No blank follows a last backslash. *)
Fixpoint clean_end (line : bytes) : bool :=
  match line with
  | [] => true
  | b :: line' => (negb (Byte.eqb b x5c) || is_empty line' || negb (forallb blank line')) && clean_end line'
  end.
(** What the rewriting takes for granted: only declarations of services are
    continued, and the last one ends before the file does; a declaration
    begins with [service] and one space, the other sections begin in the first
    column too, and a label is not empty. *)
Fixpoint conventional (inside : bool) (l : list bytes) : bool :=
  match l with
  | [] => negb inside
  | line :: l' =>
      clean_end line &&
      if inside then conventional (folds line) l'
      else match init_words [] line with
           | [] => negb (folds line) && conventional false l'
           | first :: args =>
               if bytes_eqb first (str "service") then starts_with line (str "service ") && conventional (folds line) l'
               else negb (folds line) &&
                    (negb (opens (first :: args)) || negb (match line with b :: _ => blank b | [] => true end)) &&
                    (negb (bytes_eqb first (str "seclabel")) || is_label (first :: args)) &&
                    conventional false l'
           end
  end.
(** The command that is replaced is no part of a service or of a label. *)
Definition plain (line : bytes) : Prop :=
  is_service line = true \/ starts_with (indentation line).2 (str "seclabel ") = true ->
  contains (str "/system/bin/vdc keymaster earlyBootEnded") (indentation line).2 = false.

(** [m] is [l] with some lines rewritten and some option lines added. *)
Definition option_lines : list bytes := [seclabel; preload_pipe; preload_installd; preload_zygote; preload_zygote32].
Inductive extended (f : rc_file) : list bytes -> list bytes -> Prop :=
  | extended_nil : extended f [] []
  | extended_line a b l m : b = a \/ b = (rewrite_line f a).1 -> extended f l m -> extended f (a :: l) (b :: m)
  | extended_option o l m : o ∈ option_lines -> extended f l m -> extended f l (o :: m).

(** * Lemmas: the labels as the search finds them *)

(** Every declaration ends before the file does, and the search for a label
    succeeds behind it. *)
Fixpoint complete (declaring : bool) (l : list bytes) : bool :=
  match l with
  | [] => negb declaring
  | line :: l' =>
      if declaring || is_service line then
        if continued line then complete true l' else has_seclabel l' && complete false l'
      else complete false l'
  end.
(** Every declaration ends before the file does. *)
Fixpoint whole (declaring : bool) (l : list bytes) : bool :=
  match l with
  | [] => negb declaring
  | line :: l' =>
      if declaring || is_service line then whole (continued line) l' else whole false l'
  end.
(** * Lemmas: strings *)

Lemma indentation_spec l : l = (indentation l).1 ++ (indentation l).2 /\
  Forall (fun b => blank b = true) (indentation l).1 /\
  match (indentation l).2 with b :: _ => blank b = false | [] => True end.
Proof.
  induction l as [|b l IH]; [done|]. cbn. destruct (blank b) eqn:E; [|done].
  destruct (indentation l) as [i r]. cbn in *. destruct IH as (-> & ? & ?). split_and!; [done|by constructor|done].
Qed.
Lemma indentation_app i r : Forall (fun b => blank b = true) i ->
  match r with b :: _ => blank b = false | [] => True end -> indentation (i ++ r) = (i, r).
Proof.
  intros Hi Hr. induction Hi as [|b i Hb Hi IH]; cbn; [|by rewrite Hb, IH].
  destruct r as [|b r]; [done|]. cbn. by rewrite Hr.
Qed.
Lemma indentation_rest_app x y : (indentation (x ++ y)).2 =
  match (indentation x).2 with [] => (indentation y).2 | r => r ++ y end.
Proof.
  induction x as [|b x IH]; [done|]. cbn. destruct (blank b); [|done].
  destruct (indentation (x ++ y)), (indentation x). cbn in *. exact IH.
Qed.

Lemma split_sub_spec p s a b : split_sub p s = Some (a, b) -> s = a ++ p ++ b.
Proof.
  revert a; induction s as [|c s IH]; intros a; cbn [split_sub].
  - destruct p; [by intros [= <- <-]|done].
  - destruct (starts_with (c :: s) p) eqn:E.
    + intros [= <- <-]. apply starts_with_spec in E as [k ->]. by rewrite drop_app_length.
    + destruct (split_sub p s) as [[a' b']|]; [|done]. intros [= <- <-]. cbn. f_equal. by apply IH.
Qed.

Lemma continued_app a b : continued (a ++ b) =
  match (indentation (reverse b)).2 with [] => continued a | c :: _ => Byte.eqb c x5c end.
Proof.
  unfold continued. rewrite reverse_app, indentation_rest_app. by destruct (indentation (reverse b)) as [? []].
Qed.

Lemma continued_congr a b y : continued a = continued b -> continued (a ++ y) = continued (b ++ y).
Proof. intros H. rewrite !continued_app. by destruct (indentation (reverse y)).2. Qed.

Lemma getlines_acc cur s : Forall (fun b => b <> x0a) cur ->
  forall line, line ∈ getlines cur s -> Forall (fun b => b <> x0a) line.
Proof.
  revert cur; induction s as [|b s IH]; intros cur Hc line; cbn.
  - destruct (is_empty cur); [by intros ?%elem_of_nil|]. by intros ->%list_elem_of_singleton.
  - destruct (Byte.eqb b x0a) eqn:E.
    + intros [->|H]%elem_of_cons; [done|]. eapply IH; [|exact H]. constructor.
    + apply IH. apply Forall_app_2; [done|]. constructor; [|done]. intros ->. revert E. by rewrite (Byte.byte_dec_lb eq_refl).
Qed.
Lemma getlines_line cur line s : Forall (fun b => b <> x0a) line ->
  getlines cur (line ++ x0a :: s) = (cur ++ line) :: getlines [] s.
Proof.
  intros Hl. revert cur. induction Hl as [|b line Hb Hl IH]; intros cur; cbn; [by rewrite app_nil_r|].
  destruct (Byte.eqb b x0a) eqn:E; [by apply Byte.byte_dec_bl in E|]. by rewrite IH, <- app_assoc.
Qed.
Lemma getlines_print l s : Forall (Forall (fun b => b <> x0a)) l -> getlines [] (print_lines l ++ s) = l ++ getlines [] s.
Proof.
  intros Hl. induction Hl as [|line l Hb Hl IH]; [done|]. unfold print_lines in *. rewrite fmap_cons. cbn [concat].
  rewrite <- !app_assoc. cbn. rewrite getlines_line by done. by rewrite IH.
Qed.

Lemma contains_spec p s : contains p s = true <-> exists a b, s = a ++ p ++ b.
Proof.
  unfold contains. rewrite bool_decide_eq_true. split.
  - intros [[a b] H]. exists a, b. by apply split_sub_spec.
  - intros (a & b & ->). induction a as [|c a IH]; cbn [app].
    + unfold is_Some. destruct (p ++ b) eqn:E; cbn [split_sub]; rewrite <- E, starts_with_app; by eexists.
    + cbn [split_sub]. destruct (starts_with _ p); [by eexists|]. destruct IH as [[x y] ->]. by eexists.
Qed.
Lemma contains_app_l p x y : contains p x = true -> contains p (x ++ y) = true.
Proof. rewrite !contains_spec. intros (a & b & ->). exists a, (b ++ y). by rewrite <- !app_assoc. Qed.
Lemma contains_app_r p x y : contains p y = true -> contains p (x ++ y) = true.
Proof. rewrite !contains_spec. intros (a & b & ->). exists (x ++ a), b. by rewrite <- !app_assoc. Qed.
(** A character that is not in [p] separates. *)
Lemma contains_split p x c y : c ∉ p -> contains p (x ++ c :: y) = true -> contains p x = true \/ contains p y = true.
Proof.
  rewrite !contains_spec. intros Hc (a & b & H). symmetry in H. apply app_eq_app in H as [k [[-> H]|[-> H]]].
  - destruct k as [|d k]; cbn in H.
    + destruct p as [|d p]; [right; exists [], y; done|]. injection H as -> H. set_solver.
    + injection H as -> H. right. by exists k, b.
  - apply app_eq_app in H as [k' [[-> H]|[-> H]]].
    + destruct k' as [|d k']; cbn in H; [left; exists a, []; by rewrite !app_nil_r|].
      injection H as -> H. set_solver.
    + left. exists a, k'. done.
Qed.

(** * Lemmas: rewriting *)

Section lemmas.
Context (f : rc_file).
Abbreviation vdc := (str "/system/bin/vdc keymaster earlyBootEnded").

Lemma replace_if_cases b s r : replace_if b s r = (str s, true) /\ b = true \/ replace_if b s r = r /\ b = false.
Proof. unfold replace_if. destruct b; auto. Qed.

(** [zygote32] neither makes nor hides the command, and keeps what a service
    line begins and ends with. *)
Lemma zygote32_spec rest b : let r := zygote32 f (rest, b) in
  r = (rest, b) \/
  exists x y, rest = x ++ generic_app_process ++ y /\ r = (x ++ str "/system/bin/app_process32" ++ str " " ++ y, true) /\
    named f "init.zygote32.rc" = true /\ starts_with rest (str "service ") = true.
Proof.
  unfold zygote32. cbn [fst]. destruct (named f _ && _) eqn:E; [|by left]. apply andb_prop in E as [E1 E2].
  destruct (split_sub _ _) as [[x y]|] eqn:Es; [|by left]. right. exists x, y. apply split_sub_spec in Es. done.
Qed.
Lemma zygote32_plain rest b : contains vdc rest = false -> contains vdc (zygote32 f (rest, b)).1 = false.
Proof.
  intros H. destruct (zygote32_spec rest b) as [->|(x & y & -> & -> & _)]; [done|]. cbn [fst].
  apply not_true_iff_false. intros Hc. apply not_true_iff_false in H. apply H. clear H.
  change (x ++ str "/system/bin/app_process32" ++ str " " ++ y)
    with (x ++ str "/system/bin/app_process" ++ x33 :: (x32 :: str " " ++ y)) in Hc.
  rewrite app_assoc in Hc. apply contains_split in Hc as [Hc|Hc]; [..|by vm_compute; set_solver].
  - unfold generic_app_process. change (str "/system/bin/app_process ") with (str "/system/bin/app_process" ++ str " ").
    rewrite <- app_assoc, app_assoc. by apply contains_app_l.
  - change (x32 :: str " " ++ y) with ([] ++ x32 :: (str " " ++ y)) in Hc.
    apply contains_split in Hc as [Hc|Hc]; [by vm_compute in Hc| |by vm_compute; set_solver].
    change generic_app_process with (str "/system/bin/app_process" ++ str " "). rewrite <- app_assoc.
    do 2 apply contains_app_r. done.
Qed.
Lemma service_prefix x y k : x ++ generic_app_process ++ y = str "service " ++ k -> exists k', x = str "service " ++ k'.
Proof.
  intros H. apply app_eq_app in H as [k' [[-> _]|[H1 H2]]]; [by exists k'|].
  destruct k' as [|c k']; [exists []; by rewrite app_nil_r in *|]. injection H2 as <- _.
  assert (x2f ∈ str "service ") as Hin by (rewrite H1; set_solver). exfalso. revert Hin. vm_compute. set_solver.
Qed.
Lemma rewrite_service rest : starts_with rest (str "service ") = true -> contains vdc rest = false ->
  rewrite_rest f rest = zygote32 f (rest, false) /\ starts_with (rewrite_rest f rest).1 (str "service ") = true.
Proof.
  intros Hs Hc. assert (rewrite_rest f rest = label_exec exec_replacements (zygote32 f (rest, false))) as ->.
  { unfold rewrite_rest, hide_fusectl, use_memfd, skip_keymaster. cbn [fst].
    destruct (replace_if_cases (is_hw_init f && bytes_eqb rest (str "mount fusectl none /sys/fs/fuse/connections"))
      "# Anbox Reboxed: host fusectl connections are hidden" (rest, false)) as [[_ [_ H]%andb_prop]|[-> _]].
    { apply bool_decide_eq_true in H. by rewrite H in Hs. }
    destruct (replace_if_cases (negb (has_ashmem f) && is_hw_init f && bytes_eqb (rest, false).1 (str "setprop sys.use_memfd false"))
      "setprop sys.use_memfd true" (rest, false)) as [[_ [_ H]%andb_prop]|[-> _]].
    { apply bool_decide_eq_true in H. cbn in H. by rewrite H in Hs. }
    unfold replace_if. by rewrite zygote32_plain. }
  destruct (zygote32_spec rest false) as [->|(x & y & -> & -> & _)]; apply starts_with_spec in Hs as [k Hk].
  - rewrite Hk. split; [done|apply (starts_with_app (str "service "))].
  - destruct (service_prefix _ _ _ Hk) as [k' ->]. rewrite <- !app_assoc.
    split; [done|apply (starts_with_app (str "service "))].
Qed.
Lemma rewrite_service_continued rest : starts_with rest (str "service ") = true -> contains vdc rest = false ->
  continued (rewrite_rest f rest).1 = continued rest.
Proof.
  intros Hs Hc. destruct (rewrite_service rest Hs Hc) as [-> _].
  destruct (zygote32_spec rest false) as [->|(x & y & -> & -> & _)]; [done|]. cbn [fst].
  rewrite !app_assoc. apply continued_congr. rewrite <- app_assoc, !continued_app. done.
Qed.

(** A rest that is no service does not become one. *)
Lemma rewrite_other rest : starts_with rest (str "service ") = false ->
  starts_with (rewrite_rest f rest).1 (str "service ") = false.
Proof.
  intros Hs. unfold rewrite_rest.
  assert (forall r, starts_with r.1 (str "service ") = false ->
    starts_with (label_exec exec_replacements (skip_keymaster (zygote32 f r))).1 (str "service ") = false) as Hr.
  { intros [r b] H. assert (zygote32 f (r, b) = (r, b)) as ->.
    { unfold zygote32. cbn [fst] in *. by rewrite H, andb_false_r. }
    unfold skip_keymaster. destruct (replace_if_cases (contains vdc (r, b).1) "exec u:r:init:s0 -- /system/bin/true" (r, b))
      as [[-> _]|[-> _]]; [done|].
    unfold exec_replacements, label_exec. by repeat case_match. }
  apply Hr. unfold use_memfd, hide_fusectl.
  destruct (replace_if_cases (is_hw_init f && bytes_eqb (rest, false).1 (str "mount fusectl none /sys/fs/fuse/connections"))
    "# Anbox Reboxed: host fusectl connections are hidden" (rest, false)) as [[-> _]|[-> _]];
  unfold replace_if; by case_match.
Qed.

(** What starts with a character that no pattern starts with is kept. *)
Lemma rewrite_kept rest : starts_with rest (str "seclabel ") = true -> contains vdc rest = false ->
  rewrite_rest f rest = (rest, false).
Proof.
  intros [k ->]%starts_with_spec Hc. unfold rewrite_rest, hide_fusectl, use_memfd, skip_keymaster, zygote32.
  assert (forall s, str "seclabel " ++ k <> str s -> bytes_eqb (str "seclabel " ++ k) (str s) = false) as Hn
    by (intros s Hs; by apply bool_decide_eq_false).
  cbn [fst]. rewrite Hn by discriminate. rewrite andb_false_r. cbn [replace_if fst].
  rewrite Hn by discriminate. rewrite andb_false_r. cbn [replace_if fst].
  change (starts_with (str "seclabel " ++ k) (str "service ")) with false. rewrite andb_false_r. cbn [fst]. by rewrite Hc.
Qed.
(** The rest stays a rest: it begins with a character that is not blank. *)
Definition headed (r : bytes) : Prop := match r with b :: _ => blank b = false | [] => False end.
Lemma rewrite_headed rest : headed rest -> headed (rewrite_rest f rest).1.
Proof.
  intros H. unfold rewrite_rest, hide_fusectl, use_memfd, skip_keymaster.
  assert (forall b s r, headed r.1 -> headed (str s) -> headed (replace_if b s r).1) as Hi
    by (intros b s r ? ?; unfold replace_if; by destruct b).
  assert (forall r, headed r.1 -> headed (zygote32 f r).1) as Hz.
  { intros [r b] Hr. destruct (zygote32_spec r b) as [->|(x & y & Hx & -> & _)]; [done|]. cbn [fst] in *.
    destruct x; [done|]. by rewrite Hx in Hr. }
  assert (forall r, headed r.1 -> headed (label_exec exec_replacements r).1) as He.
  { intros r Hr. unfold exec_replacements, label_exec. by repeat case_match. }
  apply He, Hi; [|done]. apply Hz, Hi; [|done]. by apply Hi.
Qed.

(** ** Lines *)

Lemma rewrite_line_spec line : let (i, r) := indentation line in
  (r = [] /\ rewrite_line f line = (line, false)) \/
  (headed r /\ (rewrite_line f line).1 = i ++ (rewrite_rest f r).1 /\
   indentation (rewrite_line f line).1 = (i, (rewrite_rest f r).1)).
Proof.
  unfold rewrite_line. pose proof (indentation_spec line) as (_ & Hi & Hr).
  destruct (indentation line) as [i r]. cbn [fst snd] in *. destruct r as [|b r]; [by left|]. right.
  split; [done|]. split; [done|]. apply indentation_app; [done|].
  pose proof (rewrite_headed (b :: r) Hr). by destruct (rewrite_rest f (b :: r)).1.
Qed.
Lemma service_indentation line : is_service line = true -> indentation line = ([], line).
Proof. unfold is_service. intros [k ->]%starts_with_spec. done. Qed.

Lemma rewrite_line_service line : is_service line = true -> plain line ->
  is_service (rewrite_line f line).1 = true /\ continued (rewrite_line f line).1 = continued line.
Proof.
  intros Hs Hp. pose proof (rewrite_line_spec line) as H. specialize (Hp (or_introl Hs)).
  rewrite (service_indentation line Hs) in *. destruct H as [[-> _]|(_ & -> & _)]; [done|].
  split; [by apply rewrite_service|by apply rewrite_service_continued].
Qed.
Lemma rewrite_line_other line : is_service line = false -> is_service (rewrite_line f line).1 = false.
Proof.
  intros Hs. pose proof (rewrite_line_spec line) as H. pose proof (indentation_spec line) as (Hl & Hi & _).
  destruct (indentation line) as [i r]. cbn [fst snd] in *. destruct H as [[_ ->]|(_ & -> & _)]; [done|].
  destruct Hi as [|b i Hb _].
  - apply rewrite_other. cbn in Hl. by rewrite <- Hl.
  - unfold is_service. cbn. destruct (Byte.eqb b x73) eqn:E; [|done]. by apply Byte.byte_dec_bl in E as ->.
Qed.

(** ** Files *)

Abbreviation labelled d l := (label_lines f d l).1.
(** The output line and the lines after it. *)
Lemma labelled_cons d line l : labelled d (line :: l) =
  (if d then line else (rewrite_line f line).1) ::
  (if d || is_service line then
     if continued line && negb (match l with [] => true | _ => false end) then labelled true l
     else added_options f line l ++ labelled false l
   else labelled false l).
Proof.
  cbn [label_lines]. destruct d; cbn [orb].
  - destruct (_ && _); destruct (label_lines f _ l); done.
  - destruct (rewrite_line f line) as [out ch]. cbn [fst]. destruct (is_service line); [|by destruct (label_lines f false l)].
    destruct (_ && _); by destruct (label_lines f _ l).
Qed.

Lemma option_line o l : o ∈ option_lines -> o <> seclabel ->
  is_service o = false /\ has_seclabel (o :: l) = has_seclabel l.
Proof.
  unfold option_lines. rewrite !elem_of_cons, elem_of_nil. intros [->|[->|[->|[->|[->|[]]]]]]; by split.
Qed.
Lemma added_options_in line l o : o ∈ added_options f line l -> o ∈ option_lines.
Proof.
  unfold added_options. rewrite !elem_of_app. unfold option_lines.
  repeat match goal with |- context [if ?b then _ else _] => destruct b end; set_solver.
Qed.
Lemma added_options_label line l m : has_seclabel m = true \/ has_seclabel l = false ->
  has_seclabel (added_options f line l ++ m) = true.
Proof.
  intros H. unfold added_options. rewrite <- !app_assoc.
  assert (has_seclabel ((if has_seclabel l then [] else [seclabel]) ++ m) = true) as H0.
  { destruct (has_seclabel l); [by destruct H|done]. }
  repeat (match goal with |- context [if ?b then [_] else []] => destruct b end; cbn [app]); exact H0.
Qed.

Lemma has_seclabel_option line c i r m : indentation line = (c :: i, r) ->
  is_service line = false /\ has_seclabel (line :: m) = starts_with r (str "seclabel ") || has_seclabel m.
Proof.
  intros Hi. pose proof (indentation_spec line) as (Hl & Hb & _). rewrite Hi in Hl, Hb. cbn [fst snd] in Hl, Hb.
  apply Forall_cons in Hb as [Hb _]. rewrite Hl at 1 2. cbn [app has_seclabel]. rewrite Hb. cbn [negb].
  change (c :: i ++ r) with ((c :: i) ++ r). rewrite <- Hl, Hi. split.
  - rewrite Hl. unfold is_service. cbn. destruct (Byte.eqb c x73) eqn:E; [|done]. by apply Byte.byte_dec_bl in E as ->.
  - cbn [snd]. by destruct (starts_with r _).
Qed.

(** A label of the options stays, whatever is rewritten before it. *)
Lemma labelled_seclabel l : Forall plain l -> has_seclabel l = true -> has_seclabel (labelled false l) = true.
Proof.
  induction 1 as [|line l Hp _ IH]; [done|]. intros H. rewrite labelled_cons.
  destruct line as [|b line]; [cbn; by apply IH|].
  destruct (indentation (b :: line)) as [[|c i] r] eqn:Ei.
  { exfalso. pose proof (indentation_spec (b :: line)) as (Hl & _ & Hb). rewrite Ei in Hl, Hb. cbn [fst snd app] in Hl, Hb.
    rewrite <- Hl in Hb. cbn [has_seclabel] in H. by rewrite Hb in H. }
  destruct (has_seclabel_option _ _ _ _ l Ei) as [Hs Hh]. rewrite Hh in H. rewrite Hs. cbn [orb].
  pose proof (rewrite_line_spec (b :: line)) as Hr. rewrite Ei in Hr. unfold plain in Hp. rewrite Ei in Hp. cbn [snd] in Hp.
  destruct Hr as [[-> ->]|(_ & _ & Hr)].
  - cbn [fst]. destruct (has_seclabel_option _ _ _ _ (labelled false l) Ei) as [_ ->]. cbn in H. by apply IH.
  - destruct (has_seclabel_option _ _ _ _ (labelled false l) Hr) as [_ ->]. apply orb_true_iff.
    apply orb_true_iff in H as [H|H]; [left|right; by apply IH]. rewrite rewrite_kept; auto.
Qed.

Lemma complete_options line l m : complete false (added_options f line l ++ m) = complete false m.
Proof.
  assert (Forall (fun o => is_service o = false) (added_options f line l)) as H.
  { apply Forall_forall. intros o Ho%added_options_in. revert Ho. unfold option_lines.
    rewrite !elem_of_cons, elem_of_nil. by intros [->|[->|[->|[->|[->|[]]]]]]. }
  induction H as [|o os Ho _ IH]; [done|]. cbn [app complete]. by rewrite Ho.
Qed.

Lemma labelled_nonempty d line l : exists o m, labelled d (line :: l) = o :: m.
Proof. rewrite labelled_cons. by eexists _, _. Qed.
(** Every service of the rewritten lines has a label. *)
Lemma labelled_complete d l : Forall plain l -> whole d l = true -> complete d (labelled d l) = true.
Proof.
  intros Hp. revert d. induction Hp as [|line l Hline Hl IH]; intros d Hw; [done|]. rewrite labelled_cons.
  assert (forall out, (d || is_service line = true -> d || is_service out = true /\ continued out = continued line) ->
    d || is_service line = true -> complete d (out ::
      (if continued line && negb (match l with [] => true | _ => false end) then labelled true l
       else added_options f line l ++ labelled false l)) = true) as Hdecl.
  { intros out Ho Hs. destruct (Ho Hs) as [H1 H2]. cbn [complete whole] in *. rewrite Hs in Hw. rewrite H1, H2.
    destruct (continued line).
    - destruct l as [|line' l']; [done|]. cbn [andb negb]. by apply IH.
    - cbn [andb]. rewrite complete_options. apply andb_true_iff. split; [|by apply IH].
      apply added_options_label. destruct (has_seclabel l) eqn:E; [left|by right]. by apply labelled_seclabel. }
  destruct d; cbn [orb] in *; [by apply Hdecl|]. destruct (is_service line) eqn:Es.
  - apply Hdecl; [|done]. intros _. by apply rewrite_line_service.
  - cbn [complete whole orb] in *. rewrite Es in Hw. rewrite rewrite_line_other by done. by apply IH.
Qed.

(** Without a change a line, and a file, is as it was. *)
Lemma rewrite_line_unchanged line : (rewrite_line f line).2 = false -> (rewrite_line f line).1 = line.
Proof.
  set (unch := fun g : bytes * bool -> bytes * bool => forall r, (g r).2 = false -> g r = r).
  assert (forall g h, unch g -> unch h -> unch (fun r => g (h r))) as Hc.
  { intros g h Hg Hh r H. cbn beta in *. pose proof (Hg _ H) as E. rewrite E in H |- *. by apply Hh. }
  assert (forall b s, unch (fun r => replace_if (b r) s r)) as Hi by (intros b s r; unfold replace_if; by destruct (b r)).
  assert (forall l, unch (label_exec l)) as He.
  { induction l as [|[p q] l IH]; intros r; [done|]. cbn. destruct (starts_with _ _); [done|apply IH]. }
  assert (unch (zygote32 f)) as Hz.
  { intros [r b] H. destruct (zygote32_spec r b) as [->|(x & y & _ & Hr & _)]; [done|by rewrite Hr in H]. }
  assert (unch (fun r => label_exec exec_replacements (skip_keymaster (zygote32 f (use_memfd f (hide_fusectl f r)))))) as Hr.
  { apply (Hc (label_exec _) (fun r => skip_keymaster (zygote32 f (use_memfd f (hide_fusectl f r))))); [apply He|].
    apply (Hc skip_keymaster (fun r => zygote32 f (use_memfd f (hide_fusectl f r)))); [apply (Hi (fun r => contains vdc r.1))|].
    apply (Hc (zygote32 f) (fun r => use_memfd f (hide_fusectl f r))); [exact Hz|].
    apply (Hc (use_memfd f) (hide_fusectl f)); [apply (Hi (fun r => negb _ && _ && bytes_eqb r.1 _))|].
    apply (Hi (fun r => is_hw_init f && bytes_eqb r.1 _)). }
  unfold rewrite_line. pose proof (indentation_spec line) as (Hl & _). destruct (indentation line) as [i r].
  cbn [fst snd] in Hl. destruct r as [|b r]; [done|]. cbn [fst snd]. intros H. rewrite Hl. f_equal.
  unfold rewrite_rest in *. by rewrite (Hr _ H).
Qed.
Lemma labelled_unchanged d l : (label_lines f d l).2 = false -> labelled d l = l.
Proof.
  revert d. induction l as [|line l IH]; intros d; [done|]. rewrite labelled_cons. cbn [label_lines].
  set (r := if d then (line, false) else rewrite_line f line).
  assert (r.2 = false -> (if d then line else (rewrite_line f line).1) = line) as Hr.
  { unfold r. destruct d; [done|]. apply rewrite_line_unchanged. }
  assert (forall d', (label_lines f d' l).2 = false -> labelled d' l = l) as IH' by auto.
  destruct r as [out ch]. cbn [snd] in Hr. destruct (d || is_service line); [destruct (continued line && _)|].
  - specialize (IH' true). destruct (label_lines f true l) as [outs chs]. cbn [fst snd] in *.
    intros [H1 H2]%orb_false_iff. rewrite Hr, IH' by done. done.
  - specialize (IH' false). destruct (label_lines f false l) as [outs chs]. cbn [fst snd] in *.
    intros [[H1 H2]%orb_false_iff H3]%orb_false_iff. rewrite Hr, IH' by done.
    destruct (added_options f line l); [done|]. done.
  - specialize (IH' false). destruct (label_lines f false l) as [outs chs]. cbn [fst snd] in *.
    intros [H1 H2]%orb_false_iff. rewrite Hr, IH' by done. done.
Qed.

(** Nothing is lost: the lines come out in order, as they were or rewritten,
    with option lines between them. *)
Lemma labelled_extended d l : extended f l (labelled d l).
Proof.
  revert d. induction l as [|line l IH]; intros d; [constructor|]. rewrite labelled_cons.
  constructor; [destruct d; auto|]. destruct (d || is_service line); [|done]. destruct (continued line && _); [done|].
  assert (forall o, o ∈ added_options f line l -> o ∈ option_lines) as H by apply added_options_in.
  induction (added_options f line l) as [|o os IHo]; [apply IH|]. cbn. constructor; [apply H; set_solver|].
  apply IHo. set_solver.
Qed.

(** Lines stay lines. *)
Definition one_line (l : bytes) : Prop := Forall (fun b => b <> x0a) l.
Lemma one_line_str (s : string) : existsb (Byte.eqb x0a) (str s) = false -> one_line (str s).
Proof.
  unfold one_line. induction (str s) as [|b l IH]; [constructor|]. cbn [existsb]. intros [H1 H2]%orb_false_iff.
  constructor; [|by apply IH]. by intros ->.
Qed.
Lemma one_line_app a b : one_line (a ++ b) <-> one_line a /\ one_line b.
Proof. apply Forall_app. Qed.
Lemma rewrite_line_one_line line : one_line line -> one_line (rewrite_line f line).1.
Proof.
  set (keep := fun g : bytes * bool -> bytes * bool => forall r, one_line r.1 -> one_line (g r).1).
  assert (forall b s, existsb (Byte.eqb x0a) (str s) = false -> keep (fun r => replace_if (b r) s r)) as Hi.
  { intros b s Hs r Hr. unfold replace_if. destruct (b r); [by apply one_line_str|done]. }
  assert (keep (zygote32 f)) as Hz.
  { intros [r b] H. destruct (zygote32_spec r b) as [->|(x & y & Hx & -> & _)]; [done|]. cbn [fst] in *. subst r.
    rewrite !one_line_app in *. split_and!; [apply H|by apply one_line_str..|apply H]. }
  assert (keep (label_exec exec_replacements)) as He.
  { intros [r b] H. unfold exec_replacements, label_exec. cbn [fst] in *.
    repeat case_match; cbn [fst]; rewrite ?one_line_app; try done; (split; [by apply one_line_str|by apply Forall_drop]). }
  unfold rewrite_line. pose proof (indentation_spec line) as (Hl & _). destruct (indentation line) as [i r].
  cbn [fst snd] in Hl. destruct r as [|b r]; [done|]. intros H. rewrite Hl, one_line_app in H. cbn [fst].
  rewrite one_line_app. split; [apply H|]. unfold rewrite_rest. apply He, (Hi (fun r => contains _ r.1)); [done|].
  apply Hz, (Hi (fun r => negb _ && _ && bytes_eqb r.1 _)); [done|].
  apply (Hi (fun r => is_hw_init f && bytes_eqb r.1 _)); [done|]. apply H.
Qed.
Lemma labelled_one_line d l : Forall one_line l -> Forall one_line (labelled d l).
Proof.
  intros Hl. assert (extended f l (labelled d l)) as H by apply labelled_extended.
  revert H. generalize (labelled d l) as m. intros m H. induction H as [|a b l m Hb _ IH|o l m Ho _ IH]; [constructor|..].
  - apply Forall_cons in Hl as [Ha Hl]. constructor; [|by apply IH]. destruct Hb as [->| ->]; [done|by apply rewrite_line_one_line].
  - constructor; [|by apply IH]. revert Ho. unfold option_lines. rewrite !elem_of_cons, elem_of_nil.
    intros [->|[->|[->|[->|[->|[]]]]]]; by apply one_line_str.
Qed.
End lemmas.

Lemma getlines_one_line s : Forall one_line (getlines [] s).
Proof. apply Forall_forall. intros line Hl. eapply getlines_acc; [|exact Hl]. constructor. Qed.

(** * Lemmas: the language of init *)

Lemma continued_spec line : continued line = true <-> exists x y, line = x ++ x5c :: y /\ Forall (fun b => blank b = true) y.
Proof.
  unfold continued. pose proof (indentation_spec (reverse line)) as (H1 & H2 & H3).
  destruct (indentation (reverse line)) as [i r]. cbn [fst snd] in *. split.
  - destruct r as [|b r]; [done|]. intros ->%Byte.byte_dec_bl.
    exists (reverse r), (reverse i). split; [|by apply Forall_reverse].
    rewrite <- (reverse_involutive line), H1, reverse_app, reverse_cons, <- app_assoc. done.
  - intros (x & y & -> & Hy). rewrite reverse_app, reverse_cons, <- app_assoc in H1. cbn [app] in H1.
    assert (indentation (reverse y ++ x5c :: reverse x) = (reverse y, x5c :: reverse x)) as Hi
      by (apply indentation_app; [by apply Forall_reverse|done]).
    assert (indentation (i ++ r) = (i, r)) as Hi' by (by apply indentation_app).
    rewrite <- H1, Hi in Hi'. by injection Hi' as _ <-.
Qed.
Lemma forallb_blank y : forallb blank y = true <-> Forall (fun b => blank b = true) y.
Proof. rewrite forallb_forall, Forall_forall. by setoid_rewrite list_elem_of_In. Qed.
Lemma folds_snoc x : folds (x ++ [x5c]) = true.
Proof. unfold folds. by rewrite last_snoc. Qed.
Lemma folds_inv line : folds line = true -> exists x, line = x ++ [x5c].
Proof.
  unfold folds. destruct line as [|b x _] using rev_ind; [done|]. rewrite last_snoc. intros ->%Byte.byte_dec_bl. by exists x.
Qed.
Lemma continued_folds line : clean_end line = true -> continued line = folds line.
Proof.
  intros Hc. apply eq_true_iff_eq. rewrite continued_spec. split.
  - intros (x & y & -> & Hy%forallb_blank). assert (y = []) as ->; [|apply folds_snoc].
    induction x as [|b x IH]; cbn in Hc; apply andb_prop in Hc as [Hc Hr]; [|by apply IH].
    rewrite Hy in Hc. by destruct y.
  - intros [x ->]%folds_inv. by exists x, [].
Qed.

Lemma words_blank i r : Forall (fun b => blank b = true) i -> init_words [] (i ++ r) = init_words [] r.
Proof. induction 1 as [|b i Hb _ IH]; [done|]. cbn. by rewrite Hb. Qed.
Lemma words_indentation line : init_words [] line = init_words [] (indentation line).2.
Proof. destruct (indentation_spec line) as (Hl & Hi & _). rewrite Hl at 1. by apply words_blank. Qed.
(** The words that are read once a word is begun, and of a line that begins
    with one. *)
Lemma words_service k : init_words [] (str "service " ++ k) = str "service" :: init_words [] k.
Proof. done. Qed.
Lemma words_seclabel k : init_words [] (str "seclabel " ++ k) = str "seclabel" :: init_words [] k.
Proof. done. Qed.
Lemma is_service_words line : is_service line = true -> exists k, line = str "service " ++ k /\ init_words [] line = str "service" :: init_words [] k.
Proof. intros [k ->]%starts_with_spec. exists k. split; [done|apply words_service]. Qed.

(** A line of a file of the usual form, outside of declarations. *)
Definition ordinary (line : bytes) : Prop :=
  clean_end line = true /\ folds line = false /\
  match init_words [] line with
  | [] => True
  | first :: args => first <> str "service" /\
      (opens (first :: args) = true -> match line with b :: _ => blank b = false | [] => False end) /\
      (first = str "seclabel" -> is_label (first :: args) = true)
  end.
Lemma conventional_line line l : conventional false (line :: l) = true <->
  (is_service line = true /\ clean_end line = true /\ conventional (folds line) l = true) \/
  (is_service line = false /\ ordinary line /\ conventional false l = true).
Proof.
  unfold ordinary. cbn [conventional]. split.
  - intros [Hc H]%andb_prop. destruct (init_words [] line) as [|first args] eqn:Ew.
    + right. apply andb_prop in H as [H1%negb_true_iff H2]. split; [|done].
      destruct (is_service line) eqn:Es; [|done]. apply is_service_words in Es as (k & _ & Hk). by rewrite Ew in Hk.
    + destruct (bytes_eqb first (str "service")) eqn:Ef.
      { left. apply andb_prop in H as [H1 H2]. done. }
      apply bool_decide_eq_false in Ef. right. rewrite !andb_true_iff in H. destruct H as [[[H1%negb_true_iff H2] H3] H4].
      split; [|split; [|done]].
      { destruct (is_service line) eqn:Es; [|done]. apply is_service_words in Es as (k & _ & Hk). rewrite Ew in Hk. by injection Hk. }
      split_and!; try done.
      * intros Ho. rewrite Ho in H2. destruct line as [|b line]; [done|]. by apply negb_true_iff in H2.
      * intros E. apply orb_true_iff in H3 as [H3|H3]; [|done]. rewrite E in H3. by apply negb_true_iff, bool_decide_eq_false in H3.
  - intros [(Hs & Hc & H)|(Hs & (Hc & Hf & H) & Hl)]; rewrite Hc; cbn [andb].
    + destruct (is_service_words _ Hs) as (k & _ & ->). unfold bytes_eqb. rewrite bool_decide_true by done. unfold is_service in Hs. by rewrite Hs.
    + destruct (init_words [] line) as [|first args]; [by rewrite Hf|]. destruct H as (H1 & H2 & H3).
      unfold bytes_eqb at 1. rewrite bool_decide_false, Hf, Hl by done. cbn [negb andb].
      apply andb_true_iff. split; [|done]. apply andb_true_iff. split.
      * destruct (opens _); [|done]. destruct line; [by destruct (H2 eq_refl)|]. cbn. by rewrite H2.
      * unfold bytes_eqb at 1. case_bool_decide; [by rewrite H3|done].
Qed.

Lemma conventional_whole d l : conventional d l = true -> whole d l = true.
Proof.
  revert d. induction l as [|line l IH]; intros d H; [done|]. destruct d.
  - cbn [conventional whole orb] in *. apply andb_prop in H as [Hc H]. rewrite continued_folds by done. auto.
  - apply conventional_line in H as [(Hs & Hc & H)|(Hs & _ & H)]; cbn [whole orb]; rewrite Hs; [|auto].
    rewrite continued_folds by done. auto.
Qed.
Lemma conventional_app d a b : conventional d a = true -> conventional false b = true -> conventional d (a ++ b) = true.
Proof.
  intros Ha Hb. revert d Ha. induction a as [|line a IH]; intros d Ha; [by destruct d|]. destruct d.
  - cbn [app conventional] in *. apply andb_prop in Ha as [Hc H]. rewrite Hc. by apply IH.
  - cbn [app]. apply conventional_line in Ha. apply conventional_line. naive_solver.
Qed.

(** What the search finds is a label among the statements before the next
    section. *)
Lemma search_finds m : conventional false m = true -> has_seclabel m = true ->
  existsb is_label (sections (statements [] m)).1 = true.
Proof.
  induction m as [|line m IH]; [done|]. intros Hc Hs. apply conventional_line in Hc as [(Hl & _)|(_ & (Hcl & Hf & Hw) & Hm)].
  { unfold is_service in Hl. apply starts_with_spec in Hl as [k ->]. done. }
  cbn [statements is_empty app]. rewrite Hf. cbn [sections]. destruct (sections _) as [body rest] eqn:Es. cbn [fst] in IH.
  assert (has_seclabel m = true -> existsb is_label body = true) as IH' by (intros; by apply IH).
  destruct line as [|b line].
  { cbn in Hs |- *. by apply IH'. }
  destruct (blank b) eqn:Hb; [|cbn in Hs; by rewrite Hb in Hs].
  assert (opens (init_words [] (b :: line)) = false) as Ho.
  { destruct (init_words [] (b :: line)) as [|first args]; [done|]. destruct Hw as (_ & Hw & _).
    destruct (opens _); [|done]. specialize (Hw eq_refl). congruence. }
  rewrite Ho. cbn [fst existsb has_seclabel] in *. rewrite Hb in Hs. cbn [negb] in Hs.
  destruct (starts_with (indentation (b :: line)).2 (str "seclabel ")) eqn:Est; [|rewrite IH' by done; apply orb_true_r].
  apply starts_with_spec in Est as [k Hk]. rewrite words_indentation, Hk, words_seclabel in Hw |- *.
  destruct Hw as (_ & _ & Hw). by rewrite Hw.
Qed.

Lemma labelled_service_section name args body : existsb is_label body = true -> labelled_section (name :: args, body) = true.
Proof. intros H. unfold labelled_section. cbn [fst snd]. by rewrite H, orb_true_r. Qed.

Lemma complete_labelled d m before : conventional d m = true -> complete d m = true ->
  (if d then exists k, before = str "service " ++ k else before = []) ->
  forallb labelled_section (sections (statements before m)).2 = true.
Proof.
  revert d before. induction m as [|line m IH]; intros d before Hc Hk Hb; [destruct d; [discriminate Hc|by rewrite Hb]|].
  (* a physical line of a declaration, whose text begins with [service] *)
  assert (forall text k, (folds line = true -> exists k, removelast text = str "service " ++ k) ->
    text = str "service " ++ k -> clean_end line = true -> conventional (folds line) m = true ->
    (if continued line then complete true m else has_seclabel m && complete false m) = true ->
    forallb labelled_section (sections (if folds line then statements (removelast text) m
      else init_words [] text :: statements [] m)).2 = true) as Hdecl.
  { intros text k Hrl -> Hcl Hm Hcm. rewrite continued_folds in Hcm by done. destruct (folds line).
    - apply (IH true); [done..|by apply Hrl].
    - apply andb_prop in Hcm as [H1 H2]. pose proof (search_finds m Hm H1) as Hf.
      pose proof (IH false [] Hm H2 eq_refl) as Hr. rewrite words_service. cbn [sections].
      destruct (sections _) as [body rest]. cbn [fst snd opens] in *. rewrite bool_decide_true by set_solver.
      cbn [snd forallb]. by rewrite labelled_service_section. }
  cbn [statements]. destruct d.
  - destruct Hb as [k ->]. cbn [is_empty conventional complete orb] in *. apply andb_prop in Hc as [Hcl Hm].
    set (r := (indentation line).2). eapply Hdecl; [|by rewrite <- app_assoc|done..].
    intros [x Hx]%folds_inv. assert (r <> []) as Hr.
    { intros E. pose proof (indentation_spec line) as (Hl & Hi & _). fold r in Hl. rewrite E, app_nil_r in Hl.
      rewrite <- Hl, Hx in Hi. apply Forall_app in Hi as [_ Hi]. by inversion Hi. }
    rewrite removelast_app by done. eexists. by rewrite <- app_assoc.
  - subst before. cbn [is_empty app complete orb] in *. apply conventional_line in Hc as [(Hs & Hcl & Hm)|(Hs & (_ & Hf & Hw) & Hm)].
    + rewrite Hs in Hk. destruct (is_service_words _ Hs) as (k & Hl & _). eapply Hdecl; [|done..].
      intros [x Hx]%folds_inv. rewrite Hl in Hx |- *. destruct k as [|c k] using rev_ind.
      { exfalso. rewrite app_nil_r in Hx. apply (f_equal last) in Hx. by rewrite last_snoc in Hx. }
      rewrite app_assoc, removelast_last. by exists k.
    + rewrite Hs in Hk. rewrite Hf. cbn [sections]. pose proof (IH false [] Hm Hk eq_refl) as Hr.
      destruct (sections _) as [body rest]. cbn [snd] in Hr. destruct (opens _) eqn:Ho; [|done]. cbn [snd forallb].
      rewrite Hr, andb_true_r. unfold labelled_section. cbn [fst]. destruct (init_words [] line) as [|first args]; [done|].
      destruct Hw as (Hw & _). unfold bytes_eqb. by rewrite bool_decide_false.
Qed.

Lemma statements_app d a b before : conventional d a = true ->
  (if d then exists k, before = str "service " ++ k else before = []) ->
  statements before (a ++ b) = statements before a ++ statements [] b.
Proof.
  revert d before. induction a as [|line a IH]; intros d before Ha Hb; [destruct d; [discriminate Ha|by rewrite Hb]|].
  cbn [app statements]. destruct d.
  - cbn [conventional] in Ha. apply andb_prop in Ha as [_ Ha]. destruct Hb as [k ->]. cbn [is_empty].
    destruct (folds line) eqn:Hf; [|cbn [app]; f_equal; by apply (IH false)].
    apply (IH true); [done|]. apply folds_inv in Hf as [x Hx].
    set (r := (indentation line).2). assert (r <> []) as Hr.
    { intros E. pose proof (indentation_spec line) as (Hl & Hi & _). fold r in Hl. rewrite E, app_nil_r in Hl.
      rewrite <- Hl, Hx in Hi. apply Forall_app in Hi as [_ Hi]. by inversion Hi. }
    change (str "service " ++ k) with ([x73;x65;x72;x76;x69;x63;x65;x20] ++ k). rewrite removelast_app by done. eexists. by rewrite <- app_assoc.
  - subst before. cbn [is_empty app]. apply conventional_line in Ha as [(Hs & _ & Hm)|(_ & (_ & Hf & _) & Hm)].
    + destruct (folds line) eqn:Hf; [|cbn [app]; f_equal; by apply (IH false)].
      apply (IH true); [done|]. destruct (is_service_words _ Hs) as (k & Hl & _).
      apply folds_inv in Hf as [x Hx]. rewrite Hl in Hx |- *. destruct k as [|c k] using rev_ind.
      { exfalso. rewrite app_nil_r in Hx. apply (f_equal last) in Hx. by rewrite last_snoc in Hx. }
      rewrite app_assoc, removelast_last. by exists k.
    + rewrite Hf. cbn [app]. f_equal. by apply (IH false).
Qed.

Lemma sections_app a b : forallb labelled_section (sections a).2 = true -> forallb labelled_section (sections b).2 = true ->
  forallb labelled_section (sections (a ++ b)).2 = true /\
  (existsb is_label (sections a).1 = true -> existsb is_label (sections (a ++ b)).1 = true).
Proof.
  intros Ha Hb. induction a as [|w a IH]; [done|]. cbn [app sections] in *.
  destruct (sections a) as [body rest], (sections (a ++ b)) as [body' rest']. cbn [fst snd] in *.
  destruct (opens w); cbn [fst snd forallb existsb] in *.
  - apply andb_prop in Ha as [Hl Ha]. destruct (IH Ha) as [IH1 IH2]. split; [|done]. rewrite IH1, andb_true_r.
    unfold labelled_section in *. cbn [fst snd] in *. destruct w; [done|]. apply orb_true_iff in Hl as [->|Hl]; [done|].
    by rewrite IH2, orb_true_r.
  - destruct (IH Ha) as [IH1 IH2]. split; [done|]. intros [->|H]%orb_true_iff; [done|]. by rewrite IH2, orb_true_r.
Qed.
Lemma services_labelled_app a b : conventional false a = true -> services_labelled a = true -> services_labelled b = true ->
  services_labelled (a ++ b) = true.
Proof. intros Hc Ha Hb. unfold services_labelled. rewrite (statements_app false) by done. by apply sections_app. Qed.


(** * Lemmas: the copies keep the usual form *)

Section copies.
Context (f : rc_file).
Abbreviation labelled d l := (label_lines f d l).1.

Lemma clean_end_mid p c z : blank c = false -> c <> x5c -> clean_end (p ++ c :: z) = clean_end z.
Proof.
  intros Hb Hc. induction p as [|b p IH]; cbn [app clean_end].
  - destruct (Byte.eqb c x5c) eqn:E; [by apply Byte.byte_dec_bl in E|done].
  - rewrite IH. assert (forallb blank (p ++ c :: z) = false) as ->.
    { rewrite forallb_app. cbn. by rewrite Hb, andb_false_r. }
    by rewrite orb_true_r.
Qed.
Lemma clean_end_blank i r : Forall (fun b => blank b = true) i -> clean_end (i ++ r) = clean_end r.
Proof.
  induction 1 as [|b i Hb _ IH]; [done|]. cbn [app clean_end]. rewrite IH.
  destruct (Byte.eqb b x5c) eqn:E; [|done]. by apply Byte.byte_dec_bl in E as ->.
Qed.
Lemma folds_app p c z : folds (p ++ c :: z) = folds (c :: z).
Proof. unfold folds. by rewrite last_app_cons. Qed.

(** The rewriting of a declaration. *)
Lemma rewrite_line_declaration line : is_service line = true -> plain line ->
  is_service (rewrite_line f line).1 = true /\ clean_end (rewrite_line f line).1 = clean_end line /\
  folds (rewrite_line f line).1 = folds line.
Proof.
  intros Hs Hp. split; [by apply rewrite_line_service|].
  pose proof (rewrite_line_spec f line) as H. specialize (Hp (or_introl Hs)).
  rewrite (service_indentation line Hs) in *. cbn [snd] in Hp. destruct H as [[-> _]|(_ & -> & _)]; [done|].
  cbn [app]. destruct (rewrite_service f line Hs Hp) as [-> _].
  destruct (zygote32_spec f line false) as [->|(x & y & -> & -> & _)]; [done|]. cbn [fst].
  change (str "/system/bin/app_process32") with (str "/system/bin/app_process3" ++ [x32]).
  change generic_app_process with (str "/system/bin/app_proces" ++ [x73] ++ [x20]).
  rewrite <- !(app_assoc _ _ _), !(app_assoc x). cbn [app].
  rewrite !clean_end_mid, !folds_app by done. done.
Qed.

(** The rewriting of another line: either nothing, or the line begins with
    another word then. *)
Lemma rewrite_rest_other rest : starts_with rest (str "service ") = false ->
  let o := (rewrite_rest f rest).1 in
  o = rest \/
  o ∈ [str "# Anbox Reboxed: host fusectl connections are hidden"; str "setprop sys.use_memfd true";
       str "exec u:r:init:s0 -- /system/bin/true"] \/
  exists p q t, (p, q) ∈ exec_replacements /\ rest = str p ++ t /\ o = str q ++ t.
Proof.
  intros Hs. cbn zeta. unfold rewrite_rest.
  assert (forall r, starts_with r.1 (str "service ") = false -> zygote32 f r = r) as Hz.
  { intros [r b] H. unfold zygote32. cbn [fst] in *. by rewrite H, andb_false_r. }
  assert (forall r, (label_exec exec_replacements r).1 = r.1 \/
    exists p q t, (p, q) ∈ exec_replacements /\ r.1 = str p ++ t /\ (label_exec exec_replacements r).1 = str q ++ t) as He.
  { intros [r b]. generalize exec_replacements. induction l as [|[p q] l IH]; [by left|]. cbn [label_exec fst].
    destruct (starts_with r (str p)) eqn:E.
    - right. apply starts_with_spec in E as [t ->]. exists p, q, t. split; [left|]. split; [done|]. cbn [fst]. by rewrite drop_app_length.
    - destruct IH as [->|(p' & q' & t & Hin & H)]; [by left|]. right. exists p', q', t. split; [by right|done]. }
  unfold hide_fusectl.
  destruct (replace_if_cases (is_hw_init f && bytes_eqb (rest, false).1 (str "mount fusectl none /sys/fs/fuse/connections"))
    "# Anbox Reboxed: host fusectl connections are hidden" (rest, false)) as [[-> _]|[-> _]].
  { right. left. unfold use_memfd, replace_if. rewrite andb_false_r, Hz by done. left. }
  unfold use_memfd.
  destruct (replace_if_cases (negb (has_ashmem f) && is_hw_init f && bytes_eqb (rest, false).1 (str "setprop sys.use_memfd false"))
    "setprop sys.use_memfd true" (rest, false)) as [[-> _]|[-> _]].
  { right. left. rewrite Hz by done. right. left. }
  rewrite Hz by done. unfold skip_keymaster, replace_if. cbn [fst]. destruct (contains _ rest).
  { right. left. right. right. left. }
  destruct (He (rest, false)) as [->|(p & q & t & H)]; [by left|]. right. right. by exists p, q, t.
Qed.

(** A word that neither opens a section nor is a label. *)
Definition idle_word (w : bytes) : bool :=
  negb (existsb (bytes_eqb w) [str "service"; str "on"; str "import"; str "seclabel"]).
Lemma idle_ordinary line w l : clean_end line = true -> folds line = false -> init_words [] line = w :: l -> idle_word w = true -> ordinary line.
Proof.
  intros Hc Hf Hw Hn. unfold ordinary. rewrite Hw. split; [done|]. split; [done|].
  unfold idle_word in Hn. apply negb_true_iff in Hn. cbn [existsb] in Hn. rewrite !orb_false_iff in Hn.
  unfold bytes_eqb in Hn. rewrite !bool_decide_eq_false in Hn. destruct Hn as (H1 & H2 & H3 & H4 & _).
  split; [done|]. split; [|done]. cbn [opens]. intros Ho%bool_decide_eq_true. rewrite !elem_of_cons, elem_of_nil in Ho.
  by destruct Ho as [?|[?|[?|[]]]].
Qed.
Lemma exec_replaced t : Forall (fun r => clean_end (str r.1 ++ t) = clean_end t /\ clean_end (str r.2 ++ t) = clean_end t /\
  folds (str r.2 ++ t) = folds t /\
  exists w, init_words [] (str r.2 ++ t) = w :: init_words [] (drop (S (length w)) (str r.2) ++ t) /\ idle_word w = true) exec_replacements.
Proof.
  repeat constructor; cbn [fst snd]; try (by destruct t as [|b t]; [|rewrite folds_app]).
  1,2: exists (str "exec"); split; [reflexivity|vm_compute; reflexivity].
  all: exists (str "exec_background"); split; [reflexivity|vm_compute; reflexivity].
Qed.
Lemma replaced_ordinary p q t i : (p, q) ∈ exec_replacements -> Forall (fun b => blank b = true) i ->
  clean_end (i ++ str p ++ t) = true -> folds (i ++ str p ++ t) = false -> ordinary (i ++ str q ++ t).
Proof.
  intros Hpq Hi Hc Hf. rewrite clean_end_blank in Hc by done.
  pose proof (proj1 (Forall_forall _ _) (exec_replaced t) _ Hpq) as (H1 & H2 & H3 & w & Hw & Hn). cbn [fst snd] in *.
  assert (folds t = false) as Ht.
  { destruct t as [|b t]; [done|]. by rewrite app_assoc, folds_app in Hf. }
  apply (idle_ordinary _ w (init_words [] (drop (S (length w)) (str q) ++ t))); [|..|done].
  - rewrite clean_end_blank by done. congruence.
  - destruct (str q ++ t) as [|b z] eqn:E; [done|]. rewrite folds_app. congruence.
  - by rewrite words_blank.
Qed.

Lemma rewrite_line_ordinary line : is_service line = false -> ordinary line -> ordinary (rewrite_line f line).1.
Proof.
  intros Hs (Hc & Hf & Hw). pose proof (rewrite_line_spec f line) as H. pose proof (indentation_spec line) as (Hl & Hi & Hr0).
  pose proof (words_indentation line) as Hwi.
  destruct (indentation line) as [i r]. cbn [fst snd] in *.
  destruct H as [[_ ->]|(Hh & -> & _)]; [done|].
  assert (starts_with r (str "service ") = false) as Hsr.
  { destruct (starts_with r _) eqn:E; [|done]. apply starts_with_spec in E as [k Hk]. rewrite Hwi, Hk, words_service in Hw.
    by destruct Hw. }
  destruct (rewrite_rest_other r Hsr) as [->|[Ho|(p & q & t & Hpq & Hr & ->)]]; [by rewrite <- Hl|..].
  - assert (forall s, (exists b z, str s = b :: z) -> clean_end (str s) = true -> folds (str s) = false ->
      match init_words [] (str s) with w :: _ => idle_word w | [] => false end = true -> ordinary (i ++ str s)) as Hconst.
    { intros s (b & z & Hz) H1 H2 H3. destruct (init_words [] (str s)) as [|w l] eqn:H4; [done|]. apply (idle_ordinary _ w l); [by rewrite clean_end_blank|..|done].
      - by rewrite Hz, folds_app, <- Hz.
      - by rewrite words_blank. }
    rewrite !elem_of_cons, elem_of_nil in Ho.
    destruct Ho as [->|[->|[->|[]]]]; apply Hconst;
      try (vm_compute; reflexivity); by eexists _, _.
  - apply (replaced_ordinary p); [done..| |]; by rewrite <- Hr, <- Hl.
Qed.

Lemma conventional_options line l m : conventional false m = true -> conventional false (added_options f line l ++ m) = true.
Proof.
  intros Hm. assert (Forall (fun o => forall m, conventional false m = true -> conventional false (o :: m) = true) (added_options f line l)) as H.
  { apply Forall_forall. intros o Ho%added_options_in m' Hm'. unfold option_lines in Ho.
    rewrite !elem_of_cons, elem_of_nil in Ho. destruct Ho as [->|[->|[->|[->|[->|[]]]]]]; exact Hm'. }
  induction H as [|o os Ho _ IH]; [done|]. by apply Ho.
Qed.

Lemma labelled_conventional d l : Forall plain l -> conventional d l = true -> conventional d (labelled d l) = true.
Proof.
  intros Hp. revert d. induction Hp as [|line l Hline _ IH]; intros d Hc; [done|]. rewrite labelled_cons.
  assert (clean_end line = true -> conventional (folds line) l = true -> conventional (folds line)
    (if continued line && negb (match l with [] => true | _ => false end) then labelled true l
     else added_options f line l ++ labelled false l) = true) as Hdecl.
  { intros Hcl Hl. rewrite continued_folds by done. destruct (folds line); cbn [andb].
    - destruct l; [done|]. by apply IH.
    - apply conventional_options. by apply IH. }
  destruct d; cbn [orb].
  - cbn [conventional] in *. apply andb_prop in Hc as [Hcl Hl]. rewrite Hcl. by apply Hdecl.
  - apply conventional_line in Hc as [(Hs & Hcl & Hl)|(Hs & Ho & Hl)]; rewrite Hs; apply conventional_line.
    + left. destruct (rewrite_line_declaration line Hs Hline) as (-> & -> & ->). by auto.
    + right. rewrite rewrite_line_other by done. split; [done|]. split; [by apply rewrite_line_ordinary|]. by apply IH.
Qed.
End copies.

(** What hw/init.rc ends with. *)
Lemma appended_labelled sig :
  match sig with Some s => services_labelled (getlines [] s) = true | None => True end ->
  services_labelled (getlines [] (appended_init sig)) = true.
Proof.
  intros Hs.
  set (fixed := [x0a] ++ compat_derive_classpath_init ++ [x0a] ++ compat_extservices_apex_init ++
    [x0a] ++ compat_graphics_init ++ [x0a] ++ compat_security_hal_init).
  assert (fixed = print_lines (getlines [] fixed)) as Hf by by vm_compute.
  assert (conventional false (getlines [] fixed) = true) as Hc by by vm_compute.
  assert (services_labelled (getlines [] fixed) = true) as Hl by by vm_compute.
  assert (appended_init sig = fixed ++ match sig with Some s => [x0a] ++ s | None => [] end) as ->.
  { unfold appended_init, fixed. by rewrite <- !app_assoc. }
  rewrite Hf, getlines_print by apply getlines_one_line. apply services_labelled_app; [done..|]. destruct sig as [s|]; [|done].
  change (getlines [] ([x0a] ++ s)) with ([] :: getlines [] s).
  apply (services_labelled_app [[]]); done.
Qed.

(** * Theorems *)

(** C31: Android's init finds a label in every service.  The file is read as
    init reads it, by a grammar of statements and sections that is not the
    code's search ([services_labelled]): every section that declares a service
    has a seclabel option with an argument.  This holds of every rc file of the
    image as the container sees it (the rewritten copy where there is one, else
    the original), of the services appended to hw/init.rc, and of the files
    that replace apexd.rc and netbpfload.rc.  It is asked of the file that it
    has the usual form ([conventional]: only declarations of services are
    continued, and they end; a declaration begins with [service] and one space,
    every section in the first column; a label is not empty), that the command
    that is replaced is no part of a service or label ([plain]), and of the
    optional file appended last that its services are labelled.  The copy is
    the original, line by line, each line kept or rewritten, with nothing but
    options of services between them and the appended text after them, and has
    the usual form again. *)
Theorem init_services_labelled ashmem sig (i : init_file) :
  rewritten (relative i) = true ->
  Forall plain (getlines [] (content i)) -> conventional false (getlines [] (content i)) = true ->
  match sig with Some s => services_labelled (getlines [] s) = true | None => True end ->
  let f := RcFile (bytes_eqb (relative i) (str "hw/init.rc")) (base_name (relative i)) ashmem in
  let j := default i (label_init_file ashmem sig i) in
  relative j = relative i /\
  services_labelled (getlines [] (content j)) = true /\
  (exists m, extended f (getlines [] (content i)) m /\ conventional false m = true /\
     getlines [] (content j) =
       m ++ (if is_hw_init f then getlines [] (appended_init sig) else [])) /\
  services_labelled (getlines [] compat_apexd_init) = true /\
  services_labelled (getlines [] compat_bpf_init) = true.
Proof.
  intros Hr Hp Hw Hs f j. subst j. unfold label_init_file. rewrite Hr.
  set (l := getlines [] (content i)) in *. unfold label_file. fold f. fold l.
  pose proof (labelled_complete f false l Hp (conventional_whole _ _ Hw)) as Hc. pose proof (labelled_extended f false l) as He.
  pose proof (labelled_one_line f false l (getlines_one_line _)) as Ho. pose proof (labelled_unchanged f false l) as Hu.
  pose proof (labelled_conventional f false l Hp Hw) as Hcv.
  destruct (label_lines f false l) as [outs ch]. cbn [fst snd] in *.
  assert (services_labelled outs = true) as Hl by (by apply (complete_labelled false)).
  assert (forall s, getlines [] (print_lines outs ++ s) = outs ++ getlines [] s) as Hg by (intros; by apply getlines_print).
  assert (getlines [] (print_lines outs) = outs) as Hg0 by (rewrite <- (app_nil_r (print_lines outs)), Hg; apply app_nil_r).
  split; [by repeat case_match|]. apply Logic.and_assoc. split; [|by split; vm_compute].
  destruct (is_hw_init f); cbn [fmap option_fmap option_map from_option id content].
  - rewrite Hg. split; [apply services_labelled_app; [done..|by apply appended_labelled]|]. by exists outs.
  - destruct ch; cbn [fmap option_fmap option_map from_option id content].
    + rewrite Hg0. split; [done|]. exists outs. by rewrite app_nil_r.
    + fold l. pose proof (Hu eq_refl) as E. split; [by rewrite <- E|]. exists outs. by rewrite app_nil_r.
Qed.

(** * Witness *)

Definition an_rc_file : init_file := InitFile (str "bootstat.rc") (print_lines (str <$> [
  "on boot"; "    exec - system -- /system/bin/bootstat";
  "service bootstat /system/bin/bootstat \"; "    --init"; "    class main"; ""; "service other /bin/other"]%string)).
Lemma init_services_labelled_witness :
  label_init_file false None an_rc_file = Some (InitFile (str "bootstat.rc") (print_lines (str <$> [
    "on boot"; "    exec u:r:init:s0 system -- /system/bin/bootstat";
    "service bootstat /system/bin/bootstat \"; "    --init"; "    seclabel u:r:init:s0"; "    class main"; "";
    "service other /bin/other"; "    seclabel u:r:init:s0"]%string))) /\
  services_labelled (getlines [] (content (default an_rc_file (label_init_file false None an_rc_file)))) = true.
Proof.
  split; [by vm_compute|].
  destruct (init_services_labelled false None an_rc_file) as (_ & Hc & _); [by vm_compute| |by vm_compute|done|exact Hc].
  vm_compute getlines. repeat constructor; unfold plain; intros _; by vm_compute.
Defined.

(** The options of the zygote are chosen by the last physical line of its
    declaration: when it is continued, the library is not preloaded. *)
Lemma zygote_continued_not_preloaded :
  let f := RcFile false (str "init.zygote64_32.rc") true in
  preload_zygote ∈ (label_lines f false [str "service zygote /system/bin/app_process64 -Xzygote"]).1 /\
  preload_zygote ∉ (label_lines f false [str "service zygote /system/bin/app_process64 \"; str "    -Xzygote"]).1.
Proof. split; [by apply (bool_decide_unpack _); vm_compute|by apply (bool_decide_unpack _); vm_compute]. Qed.
