(* ===== verification/Image.v ===== *)
(** What the container manager makes of the files of an Android image before it
    starts it (container/lxc_container.cpp): patched copies of two executables,
    a view of the framework made of hard links, the view of decompressed APEX
    packages, and the choice of the signature-spoof overlay. *)

From S2P Require Import Prelude.

Local Open Scope Z_scope.

(** * Patched executables *)

(** A byte of code. *)
Definition code_bytes (l : list Z) : bytes := to_byte <$> l.
Record patch := Patch { p_offset : Z; p_expected : bytes; p_replacement : bytes }.

Definition matches (p : patch) (image : bytes) : bool :=
  bool_decide (take (length (p_expected p)) (drop (Z.to_nat (p_offset p)) image) = p_expected p).
Definition write_at (offset : Z) (r image : bytes) : bytes := list_inserts (Z.to_nat offset) r image.

(** The lambda of [create_selinux_disabled_servicemanager]. *)
Definition apply_patch (p : patch) (image : bytes) : outcome bytes :=
  if negb (length (p_expected p) =? length (p_replacement p))%nat ||
     (Z.of_nat (length image) <? p_offset p + Z.of_nat (length (p_expected p))) || negb (matches p image)
  then Throw RuntimeError
  else Ret (write_at (p_offset p) (p_replacement p) image).
Fixpoint apply_patches (l : list patch) (image : bytes) : outcome bytes :=
  match l with
  | [] => Ret image
  | p :: l' => image <-! apply_patch p image; apply_patches l' image
  end.

Definition servicemanager_patches : list patch := [
  Patch 0x84c1 (code_bytes [0x48; 0x8d; 0x35; 0x28; 0x01; 0x00; 0x00]) (code_bytes [0xe9; 0x34; 0x00; 0x00; 0x00; 0x90; 0x90]);
  Patch 0x89b0 (code_bytes [0x55; 0x48; 0x89; 0xe5; 0x41; 0x57]) (code_bytes [0xb8; 0x01; 0x00; 0x00; 0x00; 0xc3]);
  Patch 0x8be0 (code_bytes [0x55; 0x48; 0x89; 0xe5; 0x53; 0x48]) (code_bytes [0xb8; 0x01; 0x00; 0x00; 0x00; 0xc3])].

(** The destination file: None before it is created, its contents and
    whether it has its mode. *)
Definition destination : Type := option (bytes * bool).
Record answers := Answers { can_create : bool; written : bytes -> bytes; write_good : bool; chmod_ok : bool }.

(** [create_selinux_disabled_servicemanager]: [source] is None where it cannot
    be read.  A write that fails leaves [written] of the image. *)
Definition create_selinux_disabled_servicemanager (a : answers) (source : option bytes) : M destination unit :=
  match source with
  | None => throw RuntimeError
  | Some image =>
      image ← lift (apply_patches servicemanager_patches image);
      if negb (can_create a) then throw RuntimeError
      else if negb (write_good a) then
        modify (fun _ => Some (written a image, false)) ≫= fun _ => throw RuntimeError
      else
        modify (fun _ => Some (image, false)) ≫= fun _ =>
        if chmod_ok a then modify (fun _ => Some (image, true)) else throw RuntimeError
  end.

Definition policy_patch : patch :=
  Patch 0xa442 (code_bytes [0x41; 0x89; 0xc7; 0x84; 0xc0]) (code_bytes [0x41; 0xb7; 0x01; 0xb0; 0x01]).
Definition jit_call : patch :=
  Patch 0xaa20 (code_bytes [0xe8; 0xeb; 0x5e; 0x00; 0x00]) (code_bytes [0xe8; 0xdd; 0x5e; 0x00; 0x00]).
Definition jit_kallsyms_call : patch :=
  Patch 0xaa42 (code_bytes [0xe8; 0xc9; 0x5e; 0x00; 0x00]) (code_bytes [0xe8; 0xbb; 0x5e; 0x00; 0x00]).
Definition jit_stub : patch :=
  Patch 0x10902 (code_bytes (replicate 14 0xcc))
    (code_bytes [0x50; 0xe8; 0x08; 0x00; 0x00; 0x00; 0x59; 0x3c; 0xfe; 0x75; 0x02; 0x31; 0xc0; 0xc3]).

(** The file is changed in place.  A read that does not give the expected
    bytes, one past the end included, throws. *)
Definition expect (p : patch) : M bytes unit :=
  image ← get; if matches p image then mret tt else throw RuntimeError.
Definition overwrite (p : patch) : M bytes unit := modify (write_at (p_offset p) (p_replacement p)).

(** [create_lts_relaxed_netbpfload] once the loader has been extracted; [ok]
    is the answer of the last chmod. *)
Definition create_lts_relaxed_netbpfload (ok : bool) : M bytes unit :=
  expect policy_patch ≫= fun _ =>
  overwrite policy_patch ≫= fun _ =>
  expect jit_call ≫= fun _ =>
  expect jit_kallsyms_call ≫= fun _ =>
  expect jit_stub ≫= fun _ =>
  overwrite jit_call ≫= fun _ =>
  overwrite jit_kallsyms_call ≫= fun _ =>
  overwrite jit_stub ≫= fun _ =>
  if ok then mret tt else throw RuntimeError.
Definition netbpfload_patches : list patch := [policy_patch; jit_call; jit_kallsyms_call; jit_stub].

(** ** Specification *)

(** [image'] is [image] with the patches of [l] and nothing else. *)
Definition covers (p : patch) (k : nat) : Prop := p_offset p <= Z.of_nat k < p_offset p + Z.of_nat (length (p_replacement p)).
Definition only_patched (l : list patch) (image image' : bytes) : Prop :=
  length image' = length image /\
  Forall (fun p => take (length (p_replacement p)) (drop (Z.to_nat (p_offset p)) image') = p_replacement p) l /\
  (forall k, Forall (fun p => ~ covers p k) l -> image' !! k = image !! k).
(** A patch replaces what it expects by as many bytes, and patches do not
    overlap. *)
Definition sized (p : patch) : Prop := 0 <= p_offset p /\ length (p_expected p) = length (p_replacement p).
Fixpoint disjoint_patches (l : list patch) : Prop :=
  match l with
  | [] => True
  | p :: l' => Forall (fun q => p_offset p + Z.of_nat (length (p_replacement p)) <= p_offset q \/
                               p_offset q + Z.of_nat (length (p_replacement q)) <= p_offset p) l' /\ disjoint_patches l'
  end.

(** The destination of the relative call at an address. *)
Definition call_target (address : Z) (call : bytes) : Z :=
  address + 5 + i32 (le_value (drop 1 call)).

(** ** Lemmas *)

Abbreviation slice o n l := (take n (drop o l)).
Lemma lookup_slice {A} (l : list A) o n i : slice o n l !! i = if decide (i < n)%nat then l !! (o + i)%nat else None.
Proof.
  destruct (decide (i < n)%nat); [by rewrite lookup_take_lt, lookup_drop|]. apply lookup_take_ge. lia.
Qed.
Lemma slice_write_same o (r image : bytes) : 0 <= o -> o + Z.of_nat (length r) <= Z.of_nat (length image) ->
  slice (Z.to_nat o) (length r) (write_at o r image) = r.
Proof.
  intros Ho Hl. apply list_eq. intros i. rewrite lookup_slice. destruct (decide _) as [Hi|Hi].
  - unfold write_at. rewrite list_lookup_inserts by lia. f_equal. lia.
  - symmetry. apply lookup_ge_None. lia.
Qed.
Lemma slice_write_other o n o' (r image : bytes) : (o + n <= Z.to_nat o' \/ Z.to_nat o' + length r <= o)%nat ->
  slice o n (write_at o' r image) = slice o n image.
Proof.
  intros H. apply list_eq. intros i. rewrite !lookup_slice. destruct (decide _) as [Hi|Hi]; [|done].
  unfold write_at. destruct H; [apply list_lookup_inserts_lt|apply list_lookup_inserts_ge]; lia.
Qed.
Lemma write_at_other k o (r image : bytes) : 0 <= o -> ~ (o <= Z.of_nat k < o + Z.of_nat (length r)) ->
  write_at o r image !! k = image !! k.
Proof.
  intros Ho H. unfold write_at. destruct (decide (k < Z.to_nat o)%nat);
    [apply list_lookup_inserts_lt|apply list_lookup_inserts_ge]; lia.
Qed.
Lemma length_write_at o r image : length (write_at o r image) = length image.
Proof. apply length_inserts. Qed.

Definition applies (image : bytes) (p : patch) : Prop :=
  p_offset p + Z.of_nat (length (p_expected p)) <= Z.of_nat (length image) /\ matches p image = true.
Definition apart (p q : patch) : Prop :=
  p_offset p + Z.of_nat (length (p_replacement p)) <= p_offset q \/
  p_offset q + Z.of_nat (length (p_replacement q)) <= p_offset p.
Lemma matches_write_other p q image : sized p -> sized q -> apart p q ->
  matches q (write_at (p_offset p) (p_replacement p) image) = matches q image.
Proof.
  intros [Hp1 Hp2] [Hq1 Hq2] Ha. unfold matches. rewrite slice_write_other; [done|]. unfold apart in Ha. lia.
Qed.
Lemma applies_write_other p q image : sized p -> sized q -> apart p q ->
  applies (write_at (p_offset p) (p_replacement p) image) q <-> applies image q.
Proof. intros. unfold applies. by rewrite length_write_at, matches_write_other. Qed.

Lemma apply_patch_spec p image : sized p ->
  (applies image p /\ apply_patch p image = Ret (write_at (p_offset p) (p_replacement p) image)) \/
  (~ applies image p /\ apply_patch p image = Throw RuntimeError).
Proof.
  intros [_ Hs]. unfold apply_patch, applies. rewrite Hs, Nat.eqb_refl. cbn [negb orb].
  destruct (Z.ltb_spec (Z.of_nat (length image)) (p_offset p + Z.of_nat (length (p_replacement p)))); cbn [orb];
    [right; split; [lia|done]|].
  destruct (matches p image); [left|right]; (split; [|done]); [done|intros [_ ?]; done].
Qed.

(** Patches that do not overlap either all apply, and then make exactly their
    changes, or the whole is refused. *)
Lemma apply_patches_spec l image : Forall sized l -> disjoint_patches l ->
  (Forall (applies image) l /\ exists image', apply_patches l image = Ret image' /\ only_patched l image image') \/
  (~ Forall (applies image) l /\ apply_patches l image = Throw RuntimeError).
Proof.
  intros Hs. revert image. induction Hs as [|p l Hp Hs IH]; intros image Hd.
  { left. split; [constructor|]. exists image. split; [done|]. split_and!; [done|constructor|done]. }
  destruct Hd as [Hpl Hd]. cbn [apply_patches].
  destruct (apply_patch_spec p image Hp) as [[Ha ->]|[Hn ->]]; cbn [obind].
  2: { right. split; [|done]. intros [? _]%Forall_cons. done. }
  set (image1 := write_at (p_offset p) (p_replacement p) image).
  assert (Forall (applies image1) l <-> Forall (applies image) l) as Hiff.
  { rewrite !Forall_forall. rewrite Forall_forall in Hs, Hpl.
    split; intros H q Hq; apply (applies_write_other p); (done || by apply Hs || by apply Hpl || by apply H). }
  destruct (IH image1 Hd) as [[H (image' & -> & Hlen & Hrep & Hoth)]|[H ->]].
  2: { right. split; [|done]. intros [_ ?]%Forall_cons. tauto. }
  left. split; [constructor; tauto|]. exists image'. split; [done|]. split; [by rewrite Hlen; apply length_write_at|]. split.
  - constructor; [|done]. destruct Hp as [Hp1 Hp2]. destruct Ha as [Hb _]. rewrite Hp2 in Hb.
    rewrite <- (slice_write_same (p_offset p) (p_replacement p) image) at 2 by done.
    apply list_eq. intros i. rewrite !lookup_slice. destruct (decide _) as [Hi|Hi]; [|done]. apply Hoth.
    eapply Forall_impl; [exact Hpl|]. cbn. intros q Hq. unfold covers. lia.
  - intros k [Hk1 Hk2]%Forall_cons. rewrite Hoth by done. apply write_at_other; [by destruct Hp|done].
Qed.

Lemma matches_applies p image : 0 <= p_offset p -> p_expected p <> [] -> matches p image = true -> applies image p.
Proof.
  intros Ho Hne Hm. split; [|done]. apply bool_decide_eq_true in Hm. apply (f_equal length) in Hm.
  rewrite length_take, length_drop in Hm. destruct (p_expected p); [done|]. cbn [length] in *. lia.
Qed.
Ltac patches_apart :=
  cbn [disjoint_patches]; split_and?; repeat (apply Forall_cons; split); try apply Forall_nil; try done;
  unfold sized, code_bytes; cbn [p_offset p_expected p_replacement]; rewrite ?length_fmap; cbn [length replicate]; lia.
Lemma servicemanager_disjoint : Forall sized servicemanager_patches /\ disjoint_patches servicemanager_patches.
Proof. unfold servicemanager_patches. split; patches_apart. Qed.
Lemma netbpfload_disjoint : Forall sized netbpfload_patches /\ disjoint_patches netbpfload_patches.
Proof. unfold netbpfload_patches, policy_patch, jit_call, jit_kallsyms_call, jit_stub. split; patches_apart. Qed.

(** A patched file is not accepted again. *)
Lemma patched_refused p l image image' : Forall sized (p :: l) -> disjoint_patches (p :: l) ->
  p_expected p <> p_replacement p -> only_patched (p :: l) image image' ->
  apply_patches (p :: l) image' = Throw RuntimeError.
Proof.
  intros Hs Hd Hne (_ & [Hr _]%Forall_cons & _).
  destruct (apply_patches_spec (p :: l) image' Hs Hd) as [[[Ha _]%Forall_cons _]|[_ H]]; [|done].
  exfalso. apply Hne. destruct Ha as [_ Hm]. apply bool_decide_eq_true in Hm.
  apply Forall_cons in Hs as [[_ Hlen] _]. by rewrite <- Hm, Hlen.
Qed.

Lemma bind_expect p (k : unit -> M bytes unit) image :
  (expect p ≫= k) image = if matches p image then k tt image else (image, Throw RuntimeError).
Proof. unfold expect, mbind, M_bind, get. by destruct (matches p image). Qed.
Lemma bind_overwrite p (k : unit -> M bytes unit) image :
  (overwrite p ≫= k) image = k tt (write_at (p_offset p) (p_replacement p) image).
Proof. done. Qed.

(** Patches in place, the checks of the last three between the first change
    and the others: the file is changed as a whole, or refused with at most
    the first patch. *)
Lemma in_place_spec p1 p2 p3 p4 (ok : bool) image :
  Forall sized [p1; p2; p3; p4] -> disjoint_patches [p1; p2; p3; p4] ->
  Forall (fun p => p_expected p <> []) [p1; p2; p3; p4] ->
  let run := (expect p1 ≫= fun _ => overwrite p1 ≫= fun _ => expect p2 ≫= fun _ => expect p3 ≫= fun _ =>
    expect p4 ≫= fun _ => overwrite p2 ≫= fun _ => overwrite p3 ≫= fun _ => overwrite p4 ≫= fun _ =>
    if ok then mret tt else throw RuntimeError) image in
  (Forall (applies image) [p1; p2; p3; p4] /\ exists image', only_patched [p1; p2; p3; p4] image image' /\
     run = (image', if ok then Ret tt else Throw RuntimeError)) \/
  (~ Forall (applies image) [p1; p2; p3; p4] /\
     run = (if matches p1 image then write_at (p_offset p1) (p_replacement p1) image else image, Throw RuntimeError)).
Proof.
  intros Hs Hd Hne run.
  assert (Forall (applies image) [p1; p2; p3; p4] <->
    matches p1 image = true /\ matches p2 image = true /\ matches p3 image = true /\ matches p4 image = true) as Hiff.
  { rewrite !Forall_cons in *. destruct Hs as ((?&?)&(?&?)&(?&?)&(?&?)&_), Hne as (?&?&?&?&_).
    split; [by intros ((_&?)&(_&?)&(_&?)&(_&?)&_)|].
    intros (?&?&?&?). split_and!; [by apply matches_applies..|constructor]. }
  pose proof Hs as Hs0. rewrite !Forall_cons in Hs0. destruct Hs0 as (S1 & S2 & S3 & S4 & _).
  pose proof Hd as (D1 & _). rewrite !Forall_cons in D1. destruct D1 as (D12 & D13 & D14 & _).
  subst run. rewrite bind_expect, Hiff.
  destruct (matches p1 image) eqn:M1; [|by right; split; [intros [? _]|]].
  rewrite bind_overwrite, bind_expect, matches_write_other by done.
  destruct (matches p2 image) eqn:M2; [|by right; split; [intros (_&?&_)|]].
  rewrite bind_expect, matches_write_other by done.
  destruct (matches p3 image) eqn:M3; [|by right; split; [intros (_&_&?&_)|]].
  rewrite bind_expect, matches_write_other by done.
  destruct (matches p4 image) eqn:M4; [|by right; split; [intros (_&_&_&?)|]].
  left. split; [done|].
  destruct (apply_patches_spec [p1; p2; p3; p4] image) as [[_ (image' & He & Ho)]|[Hn _]]; [done|done| |by destruct Hn; apply Hiff].
  exists image'. split; [done|]. revert He. cbn [apply_patches].
  do 4 (unfold apply_patch at 1; destruct (_ || _); [done|]; cbn [obind]). intros [= <-]. by destruct ok.
Qed.

Lemma netbpfload_spec (ok : bool) image :
  (Forall (applies image) netbpfload_patches /\ exists image', only_patched netbpfload_patches image image' /\
     create_lts_relaxed_netbpfload ok image = (image', if ok then Ret tt else Throw RuntimeError)) \/
  (~ Forall (applies image) netbpfload_patches /\ (create_lts_relaxed_netbpfload ok image).2 = Throw RuntimeError).
Proof.
  destruct netbpfload_disjoint as [Hs Hd].
  assert (Forall (fun p => p_expected p <> []) netbpfload_patches) as Hne by (repeat constructor; done).
  destruct (in_place_spec policy_patch jit_call jit_kallsyms_call jit_stub ok image Hs Hd Hne) as [H|[Hn H]]; [by left|right].
  split; [done|]. exact (f_equal snd H).
Qed.

(** * Theorems: executables *)

(** Only the executables they were made for are patched. The copy of the
    service manager is made from a file that holds exactly the expected code
    at every place, and is that file with exactly those places changed;
    otherwise nothing is written. The network loader is patched in place as a
    whole, or refused before it is made executable. A patched file is refused
    the second time. Both patched calls of the loader go to the added code,
    whose own call goes where they went. *)
Theorem image_patches a source d ok image :
  (let r := create_selinux_disabled_servicemanager a source d in
   (r.2 = Ret tt /\ exists image image', source = Some image /\ Forall (applies image) servicemanager_patches /\
      only_patched servicemanager_patches image image' /\ r.1 = Some (image', true) /\
      apply_patches servicemanager_patches image' = Throw RuntimeError) \/
   (r.2 = Throw RuntimeError /\
      ((forall image, source = Some image -> ~ Forall (applies image) servicemanager_patches) -> r.1 = d) /\
      (r.1 = d \/ exists image, r.1 = Some (image, false)))) /\
  (let r := create_lts_relaxed_netbpfload ok image in
   (r.2 = (if ok then Ret tt else Throw RuntimeError) /\ Forall (applies image) netbpfload_patches /\
      only_patched netbpfload_patches image r.1 /\
      (create_lts_relaxed_netbpfload ok r.1).2 = Throw RuntimeError) \/
   (r.2 = Throw RuntimeError /\ ~ Forall (applies image) netbpfload_patches)) /\
  call_target (p_offset jit_call) (p_replacement jit_call) = p_offset jit_stub /\
  call_target (p_offset jit_kallsyms_call) (p_replacement jit_kallsyms_call) = p_offset jit_stub /\
  call_target (p_offset jit_stub + 1) (slice 1 5 (p_replacement jit_stub)) =
    call_target (p_offset jit_call) (p_expected jit_call) /\
  call_target (p_offset jit_kallsyms_call) (p_expected jit_kallsyms_call) =
    call_target (p_offset jit_call) (p_expected jit_call).
Proof.
  split; [|split; [|by vm_compute]].
  - destruct servicemanager_disjoint as [Hs Hd]. unfold create_selinux_disabled_servicemanager.
    destruct source as [image0|]; [|right; split_and!; [done..|by left]].
    destruct (apply_patches_spec servicemanager_patches image0 Hs Hd) as [[Ha (image' & He & Ho)]|[Hn He]];
      unfold mbind, M_bind, lift; rewrite He.
    2: { right. split_and!; [done..|by left]. }
    destruct (can_create a); cbn [negb]; [|right; split_and!; [done..|by left]].
    destruct (write_good a); cbn [negb].
    2: { right. cbn. split; [done|]. split; [intros H; exfalso; by apply (H image0)|]. right. by eexists. }
    assert (apply_patches servicemanager_patches image' = Throw RuntimeError) as Hr
      by (apply (patched_refused _ _ image0 _ Hs Hd); [by vm_compute|exact Ho]).
    destruct (chmod_ok a) eqn:Ec.
    + left. cbn. split; [done|]. by exists image0, image'.
    + right. cbn. split; [done|]. split; [intros H; exfalso; by apply (H image0)|]. right. by eexists.
  - destruct (netbpfload_spec ok image) as [[Ha (image' & Ho & ->)]|[Hn Hf]]; [left|by right; split].
    split_and!; try done. destruct netbpfload_disjoint as [Hs Hd].
    destruct (netbpfload_spec ok image') as [[Ha' _]|[_ Hr]]; [exfalso|done].
    assert (apply_patches netbpfload_patches image' = Throw RuntimeError) as He
      by (apply (patched_refused _ _ image _ Hs Hd); [by vm_compute|exact Ho]).
    destruct (apply_patches_spec netbpfload_patches image' Hs Hd) as [[_ (? & He' & _)]|[? _]]; [by rewrite He in He'|done].
Qed.

(** * Views of the image made of hard links *)

(** The entries of a directory; a regular file is an inode, which several
    entries may share. *)
Inductive tree (A : Type) :=
  | File (inode : A)
  | Symlink (target : bytes)
  | Dir (entries : list (bytes * tree A))
  | Special.
Arguments File {A} inode.
Arguments Symlink {A} target.
Arguments Dir {A} entries.
Arguments Special {A}.

(** The contents of the inodes; [next_inode] is one that is not used. *)
Record inodes := Inodes { contents : gmap nat bytes; next_inode : nat }.
(** The answers of the file system: whether an inode can be linked, whether a
    file can be copied, whether a symbolic link leads to a regular file. *)
Record view_answers := ViewAnswers { link_ok : nat -> bool; copy_ok : bytes -> bool; to_file : bytes -> bool; dir_chmod_ok : bool }.

Section views.
Context (ans : view_answers).

Definition new_file (content : bytes) : M inodes nat :=
  s ← get;
  if copy_ok ans content then
    modify (fun s => Inodes (<[next_inode s := content]> (contents s)) (S (next_inode s))) ≫= fun _ => mret (next_inode s)
  else throw SystemError.
(** [fs::copy_file] to a path that does not exist. *)
Definition copy_inode (i : nat) : M inodes nat :=
  s ← get; match contents s !! i with Some content => new_file content | None => throw SystemError end.

Definition adservices_prefix : bytes := str "boot-framework-adservices.".
Definition entry_list {A} (o : option A) : list A := match o with Some x => [x] | None => [] end.

(** The loop over a directory. *)
Definition copy_each (copy : bytes -> tree nat -> M inodes (option (bytes * tree nat))) :=
  fix go (l : list (bytes * tree nat)) : M inodes (list (bytes * tree nat)) :=
    match l with
    | [] => mret []
    | (n, e) :: l' => o ← copy n e; r ← go l'; mret (entry_list o ++ r)
    end.
(** [copy_framework_entry]: the entry made for [name], if any. *)
Fixpoint copy_framework_entry (inside_x86 : bool) (name : bytes) (t : tree nat) : M inodes (option (bytes * tree nat)) :=
  if inside_x86 && starts_with name adservices_prefix then mret None
  else match t with
       | Symlink target => mret (Some (name, Symlink target))
       | Dir entries =>
           let child_inside_x86 := inside_x86 || bytes_eqb name (str "x86") in
           es ← copy_each (copy_framework_entry child_inside_x86) entries;
           mret (Some (name, Dir es))
       | File i =>
           if link_ok ans i then mret (Some (name, File i))
           else j ← copy_inode i; mret (Some (name, File j))
       | Special => mret None
       end.
Fixpoint find_entry {A} (name : bytes) (l : list (bytes * tree A)) : option (tree A) :=
  match l with
  | [] => None
  | (n, e) :: l' => if bytes_eqb n name then Some e else find_entry name l'
  end.
Definition without {A} (name : bytes) (l : list (bytes * tree A)) : list (bytes * tree A) :=
  List.filter (fun e => negb (bytes_eqb e.1 name)) l.

Definition stub_name : bytes := str "anbox-ondevicepersonalization-stub.jar".
Definition services_jar : bytes := str "services.jar".
(** [copy_file] with [overwrite_existing]: an inode that is there is written;
    what a link leads to is not part of the model. *)
Definition install_stub (content : bytes) (view : list (bytes * tree nat)) : M inodes (list (bytes * tree nat)) :=
  match find_entry stub_name view with
  | None => j ← new_file content; mret (view ++ [(stub_name, File j)])
  | Some (File i) =>
      if copy_ok ans content
      then modify (fun s => Inodes (<[i := content]> (contents s)) (next_inode s)) ≫= fun _ => mret view
      else throw SystemError
  | Some (Symlink _) => lift Undef
  | Some (Dir _) | Some Special => throw SystemError
  end.

(** [recursive_directory_iterator] over the artifacts of services.jar. *)
Definition stale {A} (name : bytes) (t : tree A) : bool :=
  starts_with name (str "services.") &&
  match t with File _ => true | Symlink target => to_file ans target | _ => false end.
Fixpoint remove_stale {A} (t : tree A) : tree A :=
  match t with
  | Dir entries =>
      Dir ((fix prune (l : list (bytes * tree A)) : list (bytes * tree A) :=
              match l with
              | [] => []
              | (n, e) :: l' => if stale n e then prune l' else (n, remove_stale e) :: prune l'
              end) entries)
  | _ => t
  end.
Definition clean_oat {A} (l : list (bytes * tree A)) : list (bytes * tree A) :=
  (fun '(n, e) => if bytes_eqb n (str "oat") then (n, remove_stale e) else (n, e)) <$> l.

Definition install_services (content : bytes) (view : list (bytes * tree nat)) : M inodes (list (bytes * tree nat)) :=
  match find_entry services_jar view with
  | Some (Dir (_ :: _)) => throw SystemError
  | _ =>
      j ← new_file content;
      let view := without services_jar view ++ [(services_jar, File j)] in
      match find_entry (str "oat") view with
      | Some (Symlink _) => lift Undef
      | _ => mret (clean_oat view)
      end
  end.

(** [create_framework_view] for an image whose framework directory has the
    adservices profile: the view, in place of what the target was. *)
Definition create_framework_view (source : list (bytes * tree nat)) (stub patched_services : option bytes)
    : M inodes (list (bytes * tree nat)) :=
  view ← copy_each (copy_framework_entry false) source;
  view ← match stub with Some content => install_stub content view | None => mret view end;
  view ← match patched_services with Some content => install_services content view | None => mret view end;
  if dir_chmod_ok ans then mret view else throw RuntimeError.
End views.

(** ** Specification *)

Fixpoint tree_map {A B} (f : A -> B) (t : tree A) : tree B :=
  match t with
  | File i => File (f i)
  | Symlink target => Symlink target
  | Dir entries => Dir ((fun '(n, e) => (n, tree_map f e)) <$> entries)
  | Special => Special
  end.
Definition entries_map {A B} (f : A -> B) (l : list (bytes * tree A)) : list (bytes * tree B) :=
  (fun '(n, e) => (n, tree_map f e)) <$> l.

(** What a reader of the view should find, from what a reader of the image
    finds: the profiles of adservices and special files are left out. *)
Definition visible_each {A} (view : bytes -> tree A -> option (bytes * tree A)) :=
  fix go (l : list (bytes * tree A)) : list (bytes * tree A) :=
    match l with [] => [] | (n, e) :: l' => entry_list (view n e) ++ go l' end.
Fixpoint visible {A} (inside_x86 : bool) (name : bytes) (t : tree A) : option (bytes * tree A) :=
  if inside_x86 && starts_with name adservices_prefix then None
  else match t with
       | Dir entries =>
           let child_inside_x86 := inside_x86 || bytes_eqb name (str "x86") in
           Some (name, Dir (visible_each (visible child_inside_x86) entries))
       | Special => None
       | _ => Some (name, t)
       end.
Definition framework_spec (ans : view_answers) (source : list (bytes * tree (option bytes))) (stub patched_services : option bytes)
    : list (bytes * tree (option bytes)) :=
  let view := visible_each (visible false) source in
  let view := match stub with Some content => view ++ [(stub_name, File (Some content))] | None => view end in
  match patched_services with
  | Some content => clean_oat ans (without services_jar view ++ [(services_jar, File (Some content))])
  | None => view
  end.

(** The inodes of a tree. *)
Fixpoint bounded (n : nat) (t : tree nat) : Prop :=
  match t with
  | File i => (i < n)%nat
  | Dir entries => (fix all (l : list (bytes * tree nat)) : Prop := match l with [] => True | (_, e) :: l' => bounded n e /\ all l' end) entries
  | _ => True
  end.
Definition bounded_entries (n : nat) (l : list (bytes * tree nat)) : Prop := Forall (fun e => bounded n e.2) l.

(** ** Lemmas *)

Section tree_induction.
Context {A : Type} (P : tree A -> Prop).
Context (HF : forall i, P (File i)) (HL : forall target, P (Symlink target)) (HS : P Special)
  (HD : forall entries, Forall (fun e => P e.2) entries -> P (Dir entries)).
Fixpoint tree_ind' (t : tree A) : P t :=
  match t with
  | File i => HF i
  | Symlink target => HL target
  | Special => HS
  | Dir entries =>
      HD entries ((fix all (l : list (bytes * tree A)) : Forall (fun e => P e.2) l :=
        match l with [] => Forall_nil_2 _ | e :: l' => Forall_cons_2 _ e l' (tree_ind' e.2) (all l') end) entries)
  end.
End tree_induction.

Lemma bounded_dir n entries : bounded n (Dir entries) <-> bounded_entries n entries.
Proof.
  unfold bounded_entries. induction entries as [|[m e] l IH]; [split; [constructor|done]|].
  rewrite Forall_cons, <- IH. done.
Qed.
Lemma bounded_mono n m t : (n <= m)%nat -> bounded n t -> bounded m t.
Proof.
  intros Hn. induction t as [i| | |l IH] using tree_ind'; [cbn; lia|done|done|]. rewrite !bounded_dir. unfold bounded_entries.
  rewrite !Forall_forall in *. auto.
Qed.
(** A step only adds inodes. *)
Definition unused (s : inodes) : Prop := forall i, is_Some (contents s !! i) -> (i < next_inode s)%nat.
Definition grows (s s' : inodes) : Prop :=
  unused s' /\ (next_inode s <= next_inode s')%nat /\ forall i, (i < next_inode s)%nat -> contents s' !! i = contents s !! i.
Lemma grows_refl s : unused s -> grows s s.
Proof. intros H. unfold grows. split_and!; [done|lia|done]. Qed.
Lemma grows_trans s s' s'' : grows s s' -> grows s' s'' -> grows s s''.
Proof. intros (_&H2&H3) (K1&K2&K3). unfold grows. split_and!; [done|lia|]. intros i Hi. rewrite K3 by lia. by apply H3. Qed.

Definition seen (s : inodes) (i : nat) : option bytes := contents s !! i.
Lemma tree_map_grows s s' t : grows s s' -> bounded (next_inode s) t -> tree_map (seen s') t = tree_map (seen s) t.
Proof.
  intros (_ & _ & H). induction t as [i| | |l IH] using tree_ind'; [|done|done|].
  - cbn. intros Hi. unfold seen. by rewrite H.
  - rewrite bounded_dir. intros Hb. cbn. f_equal. unfold bounded_entries in Hb.
    induction IH as [|[n e] l He _ IHl]; [done|]. apply Forall_cons in Hb as [Hb1 Hb2]. cbn in *. by rewrite He, IHl.
Qed.
Lemma entries_map_grows s s' l : grows s s' -> bounded_entries (next_inode s) l ->
  entries_map (seen s') l = entries_map (seen s) l.
Proof.
  intros Hg Hb. unfold entries_map, bounded_entries in *. induction Hb as [|[n e] l He _ IH]; [done|].
  cbn in *. by rewrite (tree_map_grows _ _ _ Hg He), IH.
Qed.

Section view_lemmas.
Context (ans : view_answers).

(** A call from [s] adds inodes only, and either throws or gives a result with
    [Q]. *)
Definition view_call {R} (c : M inodes R) (s : inodes) (Q : R -> inodes -> Prop) : Prop :=
  let r := c s in grows s r.1 /\ match r.2 with Ret x => Q x r.1 | Throw _ => True | _ => False end.
Lemma view_ret {R} (x : R) s (Q : R -> inodes -> Prop) : unused s -> Q x s -> view_call (mret x) s Q.
Proof. intros Hu H. split; [by apply grows_refl|done]. Qed.
Lemma view_throw {R} e s (Q : R -> inodes -> Prop) : unused s -> view_call (throw e) s Q.
Proof. intros Hu. split; [by apply grows_refl|done]. Qed.
Lemma view_bind {R R'} (c : M inodes R) (k : R -> M inodes R') s Q Q' : view_call c s Q ->
  (forall x s', grows s s' -> Q x s' -> view_call (k x) s' Q') -> view_call (c ≫= k) s Q'.
Proof.
  unfold view_call, mbind, M_bind. destruct (c s) as [s' [x|e| |]]; cbn [fst snd]; intros [Hg Hq] Hk; [|by split|done..].
  destruct (Hk x s' Hg Hq) as [Hg' Hq']. split; [by eapply grows_trans|done].
Qed.
Lemma view_mono {R} (c : M inodes R) s (Q Q' : R -> inodes -> Prop) : view_call c s Q ->
  (forall x s', grows s s' -> Q x s' -> Q' x s') -> view_call c s Q'.
Proof. intros [Hg Hq] H. split; [done|]. destruct (c s) as [s' [x|e| |]]; cbn in *; auto. Qed.

Definition holds (content : option bytes) (j : nat) (s : inodes) : Prop := seen s j = content /\ (j < next_inode s)%nat.
Lemma new_file_spec content s : unused s -> view_call (new_file ans content) s (holds (Some content)).
Proof.
  intros Hu. unfold new_file, mbind, M_bind, get. destruct (copy_ok ans content); [|by apply view_throw].
  unfold view_call, grows, holds, seen. cbn. split_and!; [|lia| |by rewrite lookup_insert_eq|lia].
  - intros i. cbn. destruct (decide (i = next_inode s)) as [->|Hi]; [lia|]. rewrite lookup_insert_ne by done.
    intros Hs%Hu. lia.
  - intros i Hi. apply lookup_insert_ne. lia.
Qed.
Lemma copy_inode_spec i s : unused s -> view_call (copy_inode ans i) s (holds (seen s i)).
Proof.
  intros Hu.
  change (view_call (match contents s !! i with Some content => new_file ans content | None => throw SystemError end) s
    (holds (contents s !! i))).
  destruct (contents s !! i); [by apply new_file_spec|by apply view_throw].
Qed.

(** An entry, seen in [s'], is [visible] of what it was in [s]. *)
Definition copied (s : inodes) (b : bool) (name : bytes) (t : tree nat) (o : option (bytes * tree nat)) (s' : inodes) : Prop :=
  entries_map (seen s') (entry_list o) = entry_list (visible b name (tree_map (seen s) t)) /\
  bounded_entries (next_inode s') (entry_list o).
Definition all_copied (s : inodes) (b : bool) (l es : list (bytes * tree nat)) (s' : inodes) : Prop :=
  entries_map (seen s') es = visible_each (visible b) (entries_map (seen s) l) /\ bounded_entries (next_inode s') es.
Lemma copy_each_spec b l s :
  Forall (fun e => forall b n s, unused s -> bounded (next_inode s) e.2 ->
    view_call (copy_framework_entry ans b n e.2) s (copied s b n e.2)) l ->
  unused s -> bounded_entries (next_inode s) l ->
  view_call (copy_each (copy_framework_entry ans b) l) s (all_copied s b l).
Proof.
  intros H. revert s. induction H as [|[n e] l He _ IH]; intros s Hu Hb.
  { apply view_ret; [done|]. split; [done|constructor]. }
  apply Forall_cons in Hb as [Hb1 Hb2]. cbn [copy_each snd] in *.
  eapply view_bind; [by apply He|]. intros o s1 Hg1 [Ho1 Ho2]. pose proof Hg1 as (Hu1 & Hn1 & _).
  eapply view_bind.
  { apply IH; [done|]. eapply Forall_impl; [exact Hb2|]. intros ?. by apply bounded_mono. }
  intros es s2 Hg2 [He1 He2]. pose proof Hg2 as (Hu2 & Hn2 & _). apply view_ret; [done|]. split.
  - cbn [entries_map fmap list_fmap visible_each]. unfold entries_map at 1. rewrite fmap_app. f_equal.
    + rewrite <- Ho1. by apply (entries_map_grows s1 s2).
    + change (entries_map (seen s2) es = visible_each (visible b) (entries_map (seen s) l)).
      rewrite He1. f_equal. by apply (entries_map_grows s s1).
  - apply Forall_app_2; [|done]. eapply Forall_impl; [exact Ho2|]. intros ?. by apply bounded_mono.
Qed.
Lemma copy_entry_spec t : forall b n s, unused s -> bounded (next_inode s) t ->
  view_call (copy_framework_entry ans b n t) s (copied s b n t).
Proof.
  induction t as [i|target| |l IH] using tree_ind'; intros b n s Hu Hb; cbn [copy_framework_entry];
    unfold copied; cbn [visible tree_map]; destruct (b && starts_with n adservices_prefix) eqn:Eb;
    try solve [apply view_ret; [done|]; split; [done|constructor]].
  - destruct (link_ok ans i).
    { apply view_ret; [done|]. split; [done|]. by repeat constructor. }
    eapply view_bind; [by apply copy_inode_spec|]. intros j s' Hg [Hj Hn]. apply view_ret; [apply Hg|].
    cbn. rewrite Hj. split; [done|]. by repeat constructor.
  - apply view_ret; [done|]. split; [done|]. by repeat constructor.
  - eapply view_bind; [apply copy_each_spec; [exact IH|done|by apply bounded_dir]|].
    intros es s' Hg [He1 He2]. apply view_ret; [apply Hg|]. split.
    + cbn. f_equal. f_equal. f_equal. exact He1.
    + repeat constructor. by apply bounded_dir.
Qed.
Lemma copy_all_spec b l s : unused s -> bounded_entries (next_inode s) l ->
  view_call (copy_each (copy_framework_entry ans b) l) s (all_copied s b l).
Proof. intros. apply copy_each_spec; [|done..]. apply Forall_forall. intros e _ b' n s'. apply copy_entry_spec. Qed.

(** The operations on the view commute with reading it. *)
Lemma find_entry_map {A B} (f : A -> B) name l : find_entry name (entries_map f l) = tree_map f <$> find_entry name l.
Proof. induction l as [|[n e] l IH]; [done|]. cbn. by destruct (bytes_eqb n name). Qed.
Lemma without_map {A B} (f : A -> B) name l : without name (entries_map f l) = entries_map f (without name l).
Proof. induction l as [|[n e] l IH]; [done|]. cbn. destruct (bytes_eqb n name); cbn; [exact IH|f_equal; exact IH]. Qed.
Lemma remove_stale_map {A B} (f : A -> B) t : remove_stale ans (tree_map f t) = tree_map f (remove_stale ans t).
Proof.
  induction t as [i|target| |l IH] using tree_ind'; [done..|]. cbn. f_equal.
  induction IH as [|[n e] l He _ IHl]; [done|]. cbn in *.
  assert (stale ans n (tree_map f e) = stale ans n e) as -> by (by destruct e).
  destruct (stale ans n e); [exact IHl|]. cbn. f_equal; [by f_equal|exact IHl].
Qed.
Lemma clean_oat_map {A B} (f : A -> B) l : clean_oat ans (entries_map f l) = entries_map f (clean_oat ans l).
Proof.
  induction l as [|[n e] l IH]; [done|]. cbn. destruct (bytes_eqb n _); cbn; f_equal; try exact IH. by rewrite remove_stale_map.
Qed.
Lemma find_visible {A} b name (l : list (bytes * tree A)) : find_entry name l = None ->
  find_entry name (visible_each (visible b) l) = None.
Proof.
  induction l as [|[n e] l IH]; [done|]. cbn. destruct (bytes_eqb n name) eqn:En; [done|]. intros H.
  destruct e; cbn; destruct (b && _); cbn; rewrite ?En; auto.
Qed.
Lemma find_entry_in {A} name (l : list (bytes * tree A)) e : find_entry name l = Some e -> (name, e) ∈ l.
Proof.
  induction l as [|[n e'] l IH]; [done|]. cbn. destruct (bytes_eqb n name) eqn:E.
  - apply bool_decide_eq_true in E as ->. intros [= ->]. by left.
  - intros H. right. by apply IH.
Qed.
Lemma find_entry_app {A} name (l m : list (bytes * tree A)) :
  find_entry name (l ++ m) = match find_entry name l with Some e => Some e | None => find_entry name m end.
Proof. induction l as [|[n e] l IH]; [done|]. cbn. by destruct (bytes_eqb n name). Qed.
Lemma find_without {A} name other (l : list (bytes * tree A)) : name <> other ->
  find_entry name (without other l) = find_entry name l.
Proof.
  intros Hne. induction l as [|[n e] l IH]; [done|]. cbn. destruct (bytes_eqb n other) eqn:E; cbn.
  - apply bool_decide_eq_true in E as ->. unfold bytes_eqb. rewrite bool_decide_false by done. exact IH.
  - by destruct (bytes_eqb n name).
Qed.
Lemma visible_symlink {A} b name target (l : list (bytes * tree A)) :
  (name, Symlink target) ∈ visible_each (visible b) l -> (name, Symlink target) ∈ l.
Proof.
  induction l as [|[n e] l IH]; [done|]. cbn. rewrite elem_of_app. intros [H|H]; [|right; by apply IH].
  assert ((n, e) = (name, Symlink target)) as ->; [|left].
  destruct e; cbn in H; destruct (b && _); cbn in H; rewrite ?list_elem_of_singleton, ?elem_of_nil in H; done.
Qed.

(** What the view is known to be: read in [s], it is [v]. *)
Definition reads (v : list (bytes * tree (option bytes))) (es : list (bytes * tree nat)) (s : inodes) : Prop :=
  entries_map (seen s) es = v /\ bounded_entries (next_inode s) es.
Lemma reads_snoc v es s s' name content j : grows s s' -> reads v es s -> holds (Some content) j s' ->
  reads (v ++ [(name, File (Some content))]) (es ++ [(name, File j)]) s'.
Proof.
  intros Hg [He Hb] [Hj Hn]. split.
  - unfold entries_map. rewrite fmap_app. cbn. rewrite Hj. f_equal. rewrite <- He. by apply (entries_map_grows s s').
  - apply Forall_app_2; [|by repeat constructor]. eapply Forall_impl; [exact Hb|]. intros ?. apply bounded_mono, Hg.
Qed.
Lemma bounded_filter n es name : bounded_entries n es -> bounded_entries n (without name es).
Proof.
  unfold bounded_entries, without. induction 1 as [|e es He _ IH]; [constructor|]. cbn. destruct (negb _); [by constructor|done].
Qed.
Lemma bounded_stale n t : bounded n t -> bounded n (remove_stale ans t).
Proof.
  induction t as [i|target| |l IH] using tree_ind'; [done..|]. intros Hb%bounded_dir. cbn [remove_stale]. apply bounded_dir.
  unfold bounded_entries in *. induction IH as [|[m e] l He _ IHl]; [constructor|]. apply Forall_cons in Hb as [H1 H2].
  cbn in *. destruct (stale ans m e); [by apply IHl|]. constructor; [by apply He|by apply IHl].
Qed.

Lemma install_stub_spec v es content s : unused s -> reads v es s -> find_entry stub_name v = None ->
  view_call (install_stub ans content es) s (reads (v ++ [(stub_name, File (Some content))])).
Proof.
  intros Hu Hr Hn. unfold install_stub. destruct (find_entry stub_name es) eqn:E.
  { pose proof Hr as [He _]. rewrite <- He, find_entry_map, E in Hn. done. }
  eapply view_bind; [by apply new_file_spec|]. intros j s' Hg Hj. apply view_ret; [apply Hg|]. by eapply reads_snoc.
Qed.
Lemma install_services_spec v es content s : unused s -> reads v es s ->
  (forall target, find_entry (str "oat") v <> Some (Symlink target)) ->
  view_call (install_services ans content es) s
    (reads (clean_oat ans (without services_jar v ++ [(services_jar, File (Some content))]))).
Proof.
  intros Hu Hr Hn. unfold install_services. pose proof Hr as [He Hb].
  assert (view_call (new_file ans content ≫= fun j =>
    match find_entry (str "oat") (without services_jar es ++ [(services_jar, File j)]) with
    | Some (Symlink _) => lift Undef
    | _ => mret (clean_oat ans (without services_jar es ++ [(services_jar, File j)]))
    end) s (reads (clean_oat ans (without services_jar v ++ [(services_jar, File (Some content))])))) as H.
  { eapply view_bind; [by apply new_file_spec|]. intros j s' Hg Hj.
    assert (reads (without services_jar v) (without services_jar es) s) as Hr'
      by (split; [by rewrite <- without_map, He|by apply bounded_filter]).
    pose proof (reads_snoc _ _ s s' services_jar content j Hg Hr' Hj) as [He' Hb'].
    set (view := without services_jar es ++ [(services_jar, File j)]) in *.
    assert (forall target, find_entry (str "oat") view <> Some (Symlink target)) as Hoat.
    { intros target Ht. unfold view in Ht. rewrite find_entry_app, find_without in Ht by done.
      destruct (find_entry (str "oat") es) as [e|] eqn:Ee; [|done]. injection Ht as ->.
      apply (Hn target). by rewrite <- He, find_entry_map, Ee. }
    assert (view_call (mret (clean_oat ans view)) s'
      (reads (clean_oat ans (without services_jar v ++ [(services_jar, File (Some content))])))) as Hret.
    { apply view_ret; [apply Hg|]. split; [by rewrite <- clean_oat_map, He'|]. unfold bounded_entries, clean_oat.
      apply Forall_fmap. eapply Forall_impl; [exact Hb'|]. intros [n e] Hbe. cbn in *.
      destruct (bytes_eqb n _); [by apply bounded_stale|done]. }
    destruct (find_entry (str "oat") view) as [[]|] eqn:Eo; try exact Hret. by destruct (Hoat target). }
  destruct (find_entry services_jar es) as [[| |[|]|]|]; try exact H. by apply view_throw.
Qed.
End view_lemmas.

(** * Theorem: the framework view *)

(** C32: The framework view never writes the image, provided the image has no
    file of the stub's name and its oat is no symbolic link. Its files are hard
    links to the image's where the file system allows it, so an image that has
    a file of that name is written through its link ([stub_written_through_link]);
    with the two assumptions, whatever the file system answers, and wherever an
    error stops it, no inode the image had changes, and a view that is
    completed reads as the image with the adservices profiles of x86 left out,
    the stub added, services.jar replaced and its stale artifacts removed.  The
    entries of the image name inodes that exist, and inodes not made yet are
    unused. *)
Theorem framework_view ans source stub patched_services s :
  unused s -> bounded_entries (next_inode s) source ->
  find_entry stub_name source = None -> (forall target, (str "oat", Symlink target) ∉ source) ->
  let r := create_framework_view ans source stub patched_services s in
  (forall i, (i < next_inode s)%nat -> contents r.1 !! i = contents s !! i) /\
  match r.2 with
  | Ret view => entries_map (seen r.1) view = framework_spec ans (entries_map (seen s) source) stub patched_services
  | Throw _ => True
  | _ => False
  end.
Proof.
  intros Hu Hb Hstub Hoat.
  enough (view_call (create_framework_view ans source stub patched_services) s
    (reads (framework_spec ans (entries_map (seen s) source) stub patched_services))) as [(_ & _ & Hc) Hr].
  { split; [exact Hc|]. by destruct (_.2); [destruct Hr|..]. }
  unfold create_framework_view, framework_spec. set (v := visible_each (visible false) (entries_map (seen s) source)).
  eapply view_bind; [by apply copy_all_spec|]. intros es s1 Hg1 Hr1. change (reads v es s1) in Hr1.
  assert (find_entry stub_name v = None) as Hv by (apply find_visible; by rewrite find_entry_map, Hstub).
  set (v1 := match stub with Some content => _ | None => v end).
  eapply view_bind with (Q := reads v1).
  { unfold v1. destruct stub; [apply install_stub_spec; [apply Hg1|done..]|by apply view_ret; [apply Hg1|]]. }
  intros es1 s2 Hg2 Hr2. set (v2 := match patched_services with Some content => _ | None => v1 end).
  eapply view_bind with (Q := reads v2).
  - destruct patched_services as [content|].
    + apply install_services_spec; [apply Hg2|exact Hr2|]. intros target Ht. apply (Hoat target).
      assert (find_entry (str "oat") v = Some (Symlink target)) as Ho.
      { revert Ht. unfold v1. destruct stub; [|done]. rewrite find_entry_app. by destruct (find_entry (str "oat") v). }
      apply find_entry_in, visible_symlink in Ho. unfold entries_map in Ho.
      apply list_elem_of_fmap in Ho as ([n e] & He & Hin). destruct e; by simplify_eq/=.
    + apply view_ret; [apply Hg2|exact Hr2].
  - intros es2 s3 Hg3 Hr3. destruct (dir_chmod_ok ans); [by apply view_ret; [apply Hg3|]|by apply view_throw, Hg3].
Qed.

(** * The decompressed APEX packages *)

(** A file of the image's system/apex. *)
Record apex := Apex { apex_name : bytes; apex_regular : bool; apex_content : bytes }.
(** The view, where it exists, and the directory it is built in. *)
Record apex_dirs := ApexDirs { apex_view : option (gmap bytes bytes); building : option (gmap bytes bytes) }.
(** unzip of the package inside a compressed one, None where it fails; whether
    a file can be copied, the marker written and the directory renamed. *)
Record apex_answers := ApexAnswers {
  unzip : bytes -> option bytes;
  apex_copy_ok : bytes -> bool;
  marker_ok : bool;
  rename_ok : bool
}.

Section apexes.
Context (ans : apex_answers).

Definition apex_marker : bytes := str ".anbox-apex-view".
Definition apex_signature (l : list apex) : bytes :=
  concat ((fun a => apex_name a ++ [x3a] ++ print_u 10 (Z.of_nat (length (apex_content a))) ++ [x0a]) <$>
            List.filter apex_regular l).

(** The stem of a compressed package. *)
Definition capex_stem (name : bytes) : option bytes :=
  if starts_with (reverse name) (reverse (str ".capex")) then Some (take (length name - 6) name) else None.
Definition put_file (name content : bytes) : M apex_dirs unit :=
  modify (fun s => ApexDirs (apex_view s) (<[name := content]> <$> building s)).
Definition add_apex (a : apex) : M apex_dirs unit :=
  if negb (apex_regular a) then mret tt
  else match capex_stem (apex_name a) with
       | Some stem =>
           match unzip ans (apex_content a) with
           | Some content => put_file (stem ++ str ".apex") content
           | None => put_file (stem ++ str ".apex") [] ≫= fun _ => throw RuntimeError
           end
       | None => if apex_copy_ok ans (apex_name a) then put_file (apex_name a) (apex_content a) else throw SystemError
       end.

(** [create_decompressed_apex_view]: [l] and [l'] are the two listings of the
    same directory. *)
Definition create_decompressed_apex_view (l l' : list apex) : M apex_dirs unit :=
  s ← get;
  if bool_decide ((apex_view s ≫= fun d => d !! apex_marker) = Some (apex_signature l)) then mret tt
  else
    modify (fun s => ApexDirs (apex_view s) (Some ∅)) ≫= fun _ =>
    for_each add_apex l' ≫= fun _ =>
    put_file apex_marker (apex_signature l) ≫= fun _ =>
    if negb (marker_ok ans) then throw RuntimeError
    else
      modify (fun s => ApexDirs None (building s)) ≫= fun _ =>
      if rename_ok ans then modify (fun s => ApexDirs (building s) None) else throw SystemError.
End apexes.

(** ** Specification *)

(** The name and contents under which a package is seen. *)
Definition apex_target (a : apex) : bytes :=
  match capex_stem (apex_name a) with Some stem => stem ++ str ".apex" | None => apex_name a end.
Definition apex_payload (ans : apex_answers) (a : apex) : option bytes :=
  match capex_stem (apex_name a) with Some _ => unzip ans (apex_content a) | None => Some (apex_content a) end.
(** The packages of a listing, by distinct names none of which is the marker. *)
Definition apex_listing (l : list apex) : Prop :=
  NoDup (apex_target <$> List.filter apex_regular l) /\ apex_marker ∉ (apex_target <$> List.filter apex_regular l).
Definition apex_complete (ans : apex_answers) (l : list apex) (d : gmap bytes bytes) : Prop :=
  d !! apex_marker = Some (apex_signature l) /\
  (forall a, a ∈ l -> apex_regular a = true -> d !! apex_target a = apex_payload ans a).

(** ** Lemmas *)

Section apex_lemmas.
Context (ans : apex_answers).
Lemma add_apex_spec a s : let r := add_apex ans a s in
  apex_view r.1 = apex_view s /\
  (r.2 = Throw RuntimeError \/ r.2 = Throw SystemError \/
   r.2 = Ret tt /\ building r.1 = (if apex_regular a then (fun d => match apex_payload ans a with Some c => <[apex_target a := c]> d | None => d end) <$> building s
                                  else building s) /\
     (apex_regular a = true -> is_Some (apex_payload ans a))).
Proof.
  unfold add_apex, apex_payload, apex_target. destruct (apex_regular a); cbn [negb]; [|split; [done|]; right; right; done].
  destruct (capex_stem _) as [stem|].
  - destruct (unzip ans _) as [content|]; [|by split; [|left]]. split; [done|]. right; right. split_and!; [done..|by eexists].
  - destruct (apex_copy_ok ans _); [|by split; [|right; left]]. split; [done|]. right; right. split_and!; [done..|by eexists].
Qed.

Lemma for_each_apex l s d : building s = Some d -> let r := for_each (add_apex ans) l s in
  apex_view r.1 = apex_view s /\
  (r.2 = Throw RuntimeError \/ r.2 = Throw SystemError \/
   r.2 = Ret tt /\ exists d', building r.1 = Some d' /\
     (apex_listing l -> forall a, a ∈ l -> apex_regular a = true -> d' !! apex_target a = apex_payload ans a) /\
     (forall n, n ∉ (apex_target <$> List.filter apex_regular l) -> d' !! n = d !! n)).
Proof.
  revert s d. induction l as [|a l IH]; intros s d Hd.
  { split; [done|]. right; right. split; [done|]. exists d. split; [done|]. split; [|done]. intros _ a Ha. by apply elem_of_nil in Ha. }
  cbn [for_each]. pose proof (add_apex_spec a s) as [Hv Ha]. unfold mbind, M_bind.
  destruct (add_apex ans a s) as [s1 r1]. cbn [fst snd] in *.
  destruct Ha as [->|[->|(-> & Hb & Hp)]]; [by split; [|left]|by split; [|right; left]|].
  assert (exists d1, building s1 = Some d1 /\
    (apex_regular a = true -> d1 !! apex_target a = apex_payload ans a) /\
    (forall n, apex_regular a = false \/ n <> apex_target a -> d1 !! n = d !! n)) as (d1 & Hd1 & H1 & H2).
  { rewrite Hb, Hd. destruct (apex_regular a); cbn [fmap option_fmap option_map].
    - destruct (Hp eq_refl) as [c ->]. eexists. split; [done|]. split; [intros _; by rewrite lookup_insert_eq|].
      intros n [?|Hn]; [done|]. by rewrite lookup_insert_ne.
    - exists d. by split_and!. }
  destruct (IH s1 d1 Hd1) as [Hv2 H]. split; [by rewrite Hv2|].
  destruct H as [->|[->|(-> & d' & Hd' & H3 & H4)]]; [by left|by right; left|]. right; right. split; [done|].
  exists d'. split; [done|]. split.
  - intros [Hnd Hm] b Hb' Hreg. cbn [List.filter] in Hnd, Hm. apply elem_of_cons in Hb' as [->|Hb'].
    + rewrite Hreg in Hnd. cbn in Hnd. apply NoDup_cons in Hnd as [Hnin _]. rewrite H4 by done. by apply H1.
    + apply H3; [|done..]. destruct (apex_regular a); [|by split]. cbn in Hnd, Hm.
      apply NoDup_cons in Hnd as [_ Hnd]. split; [done|]. set_solver.
  - intros n Hn. cbn [List.filter] in Hn. destruct (apex_regular a) eqn:Er; cbn in Hn.
    + rewrite H4 by set_solver. apply H2. right. set_solver.
    + rewrite H4 by done. apply H2. by left.
Qed.
End apex_lemmas.

(** The view of decompressed packages is complete or not there. If every
    view that carries the current signature is complete, then so it is after
    any run: one that succeeds leaves a view with the signature, made of every
    package under its name (a compressed one decompressed), or the view that
    was there with it; one that fails leaves the view that was there, or none.
    After a success the next run changes nothing. *)
Theorem apex_view_complete ans (l l' : list apex) s :
  apex_listing l -> l' ≡ₚ l ->
  (forall d, apex_view s = Some d -> d !! apex_marker = Some (apex_signature l) -> apex_complete ans l d) ->
  let r := create_decompressed_apex_view ans l l' s in
  (r.2 = Ret tt /\ (exists d, apex_view r.1 = Some d /\ apex_complete ans l d) /\
     (forall ans' l'', create_decompressed_apex_view ans' l l'' r.1 = (r.1, Ret tt))) \/
  ((r.2 = Throw RuntimeError \/ r.2 = Throw SystemError) /\ (apex_view r.1 = apex_view s \/ apex_view r.1 = None)).
Proof.
  intros Hl Hp Hs r. subst r.
  assert (forall d s, apex_view s = Some d -> d !! apex_marker = Some (apex_signature l) ->
    forall ans' l'', create_decompressed_apex_view ans' l l'' s = (s, Ret tt)) as Hagain.
  { clear. intros d s Hd Hm ans' l''. unfold create_decompressed_apex_view, mbind at 1, M_bind at 1, get.
    by rewrite bool_decide_true by (rewrite Hd; exact Hm). }
  destruct (decide ((apex_view s ≫= fun d => d !! apex_marker) = Some (apex_signature l))) as [Hm|Hm].
  { destruct (apex_view s) as [d|] eqn:Hd; [|done]. cbn in Hm. rewrite (Hagain d s Hd Hm). left. cbn [fst snd].
    split; [done|]. split; [|by apply (Hagain d)]. exists d. split; [done|]. by apply Hs. }
  destruct (create_decompressed_apex_view ans l l' s) as [s' res] eqn:E. cbn [fst snd].
  unfold create_decompressed_apex_view in E. unfold mbind at 1, M_bind at 1, get in E. rewrite bool_decide_false in E by done.
  unfold mbind, M_bind, modify at 1 in E. set (s0 := ApexDirs (apex_view s) (Some ∅)) in E.
  destruct (for_each_apex ans l' s0 ∅ eq_refl) as [Hv H].
  destruct (for_each (add_apex ans) l' s0) as [s1 r1]. cbn [fst snd] in *.
  destruct H as [->|[->|(-> & d' & Hd' & H3 & H4)]]; [injection E as <- <-; right; split; [by left|left; exact Hv]
    |injection E as <- <-; right; split; [by right|left; exact Hv]|].
  unfold put_file in E. cbn in E. destruct (marker_ok ans); cbn in E; [|injection E as <- <-; right; split; [by left|left; exact Hv]].
  destruct (rename_ok ans); injection E as <- <-; [left|right; split; [by right|by right]]. cbn. rewrite Hd'. cbn. split; [done|].
  set (d := <[apex_marker := apex_signature l]> d').
  assert (d !! apex_marker = Some (apex_signature l)) as Hdm by apply lookup_insert_eq.
  split; [|by apply (Hagain d)]. exists d. split; [done|]. split; [done|]. intros a Ha Hreg.
  assert (apex_target <$> List.filter apex_regular l' ≡ₚ apex_target <$> List.filter apex_regular l) as Hperm.
  { assert (List.filter apex_regular l' ≡ₚ List.filter apex_regular l) as Hf; [|by rewrite Hf].
    clear -Hp. induction Hp; cbn; repeat case_match; try done; [by f_equiv|by apply perm_swap|by etrans]. }
  destruct Hl as [Hnd Hnm]. unfold d. rewrite lookup_insert_ne.
  - apply H3; [|by rewrite Hp|done]. split; by rewrite Hperm.
  - intros Heq. apply Hnm. rewrite Heq. apply list_elem_of_fmap. exists a. split; [done|].
    apply list_elem_of_In, filter_In. split; [by apply list_elem_of_In|done].
Qed.

(** * Witnesses *)

Definition an_answers : apex_answers := ApexAnswers (fun c => Some (drop 1 c)) (fun _ => true) true true.
Definition some_apexes : list apex :=
  [Apex (str "art.capex") true [x01; x02]; Apex (str "wifi.apex") true [x03]; Apex (str "dir") false []].
Lemma apex_view_complete_witness :
  apex_listing some_apexes /\
  exists d, apex_view (create_decompressed_apex_view an_answers some_apexes some_apexes (ApexDirs None None)).1 = Some d /\
    d !! str "art.apex" = Some [x02].
Proof.
  assert (apex_listing some_apexes) as Hl by (split; [by apply (bool_decide_unpack _); vm_compute|by apply (bool_decide_unpack _); vm_compute]).
  split; [done|].
  destruct (apex_view_complete an_answers some_apexes some_apexes (ApexDirs None None) Hl) as [(_ & (d & Hd & _ & Hc) & _)|[[H|H] _]];
    [done|done| |by vm_compute in H..].
  exists d. split; [exact Hd|]. apply (Hc (Apex (str "art.capex") true [x01; x02])); [by left|done].
Defined.

(** The signature is made of names and sizes: a package replaced by another
    of the same size is not noticed, and the old one stays in the view. *)
Lemma apex_view_stale :
  let old := [Apex (str "wifi.apex") true [x03]] in
  let new := [Apex (str "wifi.apex") true [x04]] in
  let s := (create_decompressed_apex_view an_answers old old (ApexDirs None None)).1 in
  create_decompressed_apex_view an_answers new new s = (s, Ret tt) /\
  (apex_view s ≫= fun d => d !! str "wifi.apex") = Some [x03].
Proof. by vm_compute. Qed.

Definition a_framework : list (bytes * tree nat) := [
  (str "x86", Dir [(str "boot-framework-adservices.art", File 0%nat); (str "boot.art", File 1%nat)]);
  (str "services.jar", File 2%nat); (str "oat", Dir [(str "services.odex", File 3%nat); (str "other.odex", File 4%nat)])].
Definition image_inodes : inodes :=
  Inodes (list_to_map [(0%nat, [x00]); (1%nat, [x01]); (2%nat, [x02]); (3%nat, [x03]); (4%nat, [x04])]) 5.
Definition view_ok : view_answers := ViewAnswers (fun i => negb (i =? 4)%nat) (fun _ => true) (fun _ => true) true.
Lemma framework_view_witness :
  let r := create_framework_view view_ok a_framework (Some [x0a]) (Some [x0b]) image_inodes in
  contents r.1 !! 2%nat = Some [x02] /\
  match r.2 with
  | Ret view => entries_map (seen r.1) view = [
      (str "x86", Dir [(str "boot.art", File (Some [x01]))]); (str "oat", Dir [(str "other.odex", File (Some [x04]))]);
      (stub_name, File (Some [x0a])); (str "services.jar", File (Some [x0b]))]
  | _ => False
  end.
Proof.
  intros r. assert (unused image_inodes) as Hu.
  { intros i [c Hc]. destruct (decide (i < 5)%nat) as [|Hi]; [done|]. exfalso.
    unfold image_inodes in Hc. cbn [contents list_to_map foldr fst snd] in Hc.
    by rewrite !lookup_insert_ne, lookup_empty in Hc by lia. }
  destruct (framework_view view_ok a_framework (Some [x0a]) (Some [x0b]) image_inodes Hu) as [Hc Hr];
    [cbn; repeat constructor; cbn; lia|done| |].
  { intros target. unfold a_framework. rewrite !elem_of_cons, elem_of_nil. by intros [?|[?|[?|[]]]]. }
  split; [by apply (Hc 2%nat); cbn; lia|].
  subst r. destruct (create_framework_view _ _ _ _ _) as [s' [view|e| |]] eqn:E; [exact Hr|by vm_compute in E..].
Defined.

(** An image that already has a file of the stub's name is written through the
    hard link. *)
Lemma stub_written_through_link :
  let r := create_framework_view view_ok [(stub_name, File 2%nat)] (Some [x0a]) None image_inodes in
  contents image_inodes !! 2%nat = Some [x02] /\ contents r.1 !! 2%nat = Some [x0a].
Proof. by vm_compute. Qed.
