(* ===== verification/Lxc.v ===== *)
(** The container itself (container/lxc_container.cpp, the binder devices of
    common/binder_device_allocator.cpp, and the calls of
    container/management_api_skeleton.cpp): what [LxcContainer] asks of the
    system and of liblxc, in which order, and what it does with the answers. *)

From S2P Require Import Prelude BinaryWriter Memory InitRc.

Local Open Scope Z_scope.

(** * The system *)

(** What the program asks without changing anything. *)
Inductive query :=
  | IsRoot
  | IsRunning
  | EnvSet (name : bytes)
  | Exists (path : bytes)
  | IsDirectory (path : bytes)
  | IsRegular (path : bytes)
  | IsSymlink (path : bytes).
(** What it does. The answer says whether it succeeded; [Create] opens a file
    for writing and truncates it, [AddLoop] succeeds where the device was
    there, [Prepare] is one of the steps modelled in Image.v and Memory.v. *)
Inductive preparation :=
  | FrameworkView (target stub services : bytes)
  | SystemAppView (target app_dir : bytes)
  | ApexView (target : bytes)
  | Netbpfload (apex target : bytes)
  | ServiceManager (target : bytes)
  | ConfiguredSwap.
Inductive op :=
  | NewContainer
  | StopContainer
  | StartContainer
  | SaveConfig
  | PutContainer
  | SetConfig (key value : bytes)
  | Unlink (path : bytes)
  | CreateDirectories (path : bytes)
  | RemoveAll (path : bytes)
  | Remove (path : bytes)
  | Rename (path target : bytes)
  | CopyFile (path target : bytes)
  | CreateSymlink (target path : bytes)
  | Create (path : bytes)
  | Write (path content : bytes)
  | Chmod (path : bytes) (mode : Z)
  | Chown (path : bytes) (uid gid : Z)
  | Mknod (path : bytes) (mode dev : Z)
  | Sleep
  | OpenLoopControl
  | CloseLoopControl
  | AddLoop (id : Z)
  | OpenBinderControl
  | CloseBinderControl
  | AddBinder (name : bytes)
  | ReleaseBinder (path : bytes)
  | Prepare (p : preparation).
Inductive event := Asked (q : query) (b : bool) | Did (o : op) (b : bool).

#[global] Instance query_eq_dec : EqDecision query.
Proof. solve_decision. Defined.
#[global] Instance preparation_eq_dec : EqDecision preparation.
Proof. solve_decision. Defined.
#[global] Instance op_eq_dec : EqDecision op.
Proof. solve_decision. Defined.
#[global] Instance lxc_event_eq_dec : EqDecision event.
Proof. solve_decision. Defined.

Record stat_t := Stat { st_mode : Z; st_uid : Z; st_gid : Z; st_rdev : Z }.
(** The answers, which may depend on all that happened before (the newest
    event first): [act] of [AddBinder] is answered by [add_binder]. *)
Inductive binder_answer := BinderAdded | BinderExists | BinderFails.
Record system := System {
  ask : list event -> query -> bool;
  act : list event -> op -> bool;
  add_binder : list event -> bytes -> binder_answer;
  stat : list event -> bytes -> option stat_t;
  lstat : list event -> bytes -> option stat_t;
  read_file : list event -> bytes -> option bytes;
  list_directory : list event -> bytes -> option (list bytes);
  list_init : list event -> bytes -> option (list init_file);
  memory_files : list event -> bytes -> file_state;
  memory_path : bytes;
  cgroup2 : bool;
  (** The order in which a hash table is gone through. *)
  iterate : forall A, list (bytes * A) -> list (bytes * A)
}.
Arguments iterate _ {A} l.
(** The flags of the build, the byte order and the directory of the data. *)
Record build := Build { lxc2 : bool; snap_confinement : bool; little_endian : bool; data_path : bytes }.

(** * State *)

Inductive state := inactive | running.
Record lxc_container := LxcContainer {
  state_ : state;
  container_ : bool;
  privileged_ : bool;
  rootfs_overlay_ : bool;
  container_network_address_ : bytes;
  container_network_gateway_ : bytes;
  container_network_dns_servers_ : list bytes;
  creds_ : Z * Z;
  binder_devices_ : list bytes;
  runtime_directories_to_restore_ : list bytes
}.
(** With the counter of binder devices, which is static, and what happened. *)
Record world := World { object : lxc_container; next_id : Z; trace : list event }.

Definition with_state (x : state) (o : lxc_container) : lxc_container :=
  LxcContainer x (container_ o) (privileged_ o) (rootfs_overlay_ o) (container_network_address_ o)
    (container_network_gateway_ o) (container_network_dns_servers_ o) (creds_ o) (binder_devices_ o)
    (runtime_directories_to_restore_ o).
Definition with_container (x : bool) (o : lxc_container) : lxc_container :=
  LxcContainer (state_ o) x (privileged_ o) (rootfs_overlay_ o) (container_network_address_ o)
    (container_network_gateway_ o) (container_network_dns_servers_ o) (creds_ o) (binder_devices_ o)
    (runtime_directories_to_restore_ o).
Definition with_binders (x : list bytes) (o : lxc_container) : lxc_container :=
  LxcContainer (state_ o) (container_ o) (privileged_ o) (rootfs_overlay_ o) (container_network_address_ o)
    (container_network_gateway_ o) (container_network_dns_servers_ o) (creds_ o) x
    (runtime_directories_to_restore_ o).
Definition with_restore (x : list bytes) (o : lxc_container) : lxc_container :=
  LxcContainer (state_ o) (container_ o) (privileged_ o) (rootfs_overlay_ o) (container_network_address_ o)
    (container_network_gateway_ o) (container_network_dns_servers_ o) (creds_ o) (binder_devices_ o) x.

Definition log (e : event) (w : world) : world := World (object w) (next_id w) (e :: trace w).
Definition update (f : lxc_container -> lxc_container) : M world unit :=
  modify (fun w => World (f (object w)) (next_id w) (trace w)).
Definition self : M world lxc_container := fun w => (w, Ret (object w)).

(** * Constants *)

Definition unprivileged_uid : Z := 100000.
Definition android_system_uid : Z := 1000.
Definition num_needed_binders : nat := 3.
Definition first_apex_loop : Z := 2.
Definition last_apex_loop : Z := 45.
Definition apex_loops : list Z := seqZ first_apex_loop (last_apex_loop - first_apex_loop + 1).

(** * Strings and paths *)

(** [fs::path::operator/]. *)
Definition join (a b : bytes) : bytes :=
  match a with
  | [] => b
  | _ => if ends_with a (str "/") then a ++ b else a ++ str "/" ++ b
  end.
(** [fs::path::filename]. *)
Definition file_name (p : bytes) : bytes :=
  if bytes_eqb p (str "/") then p
  else match p, base_name p with
       | [], _ => []
       | _, [] => str "."
       | _, n => n
       end.
Definition atoi (s : bytes) : Z := default 0 (scan_d s).

(** * User ids *)

Definition id_entry (kind : string) (a b c : Z) : bytes :=
  str kind ++ str " " ++ print_u 10 a ++ str " " ++ print_u 10 b ++ str " " ++ print_u 10 c.
Definition get_id_map (uid gid : Z) : list bytes :=
  let base_id := unprivileged_uid in
  let max_id := 100000 in [
    id_entry "u" 0 base_id (android_system_uid - 1);
    id_entry "g" 0 base_id (android_system_uid - 1);
    id_entry "u" android_system_uid uid 1;
    id_entry "g" android_system_uid gid 1;
    id_entry "u" (android_system_uid + 1) (base_id + android_system_uid + 1) (max_id - android_system_uid);
    id_entry "g" (android_system_uid + 1) (base_id + android_system_uid + 1) (max_id - android_system_uid)].

Definition should_mount_graphics_compatibility_bind (modern_gfxstream : bool) (bind_mount : bytes) : bool :=
  negb (modern_gfxstream && contains (str "/state/vendor-gles-compat/") bind_mount).

Section container.
Context (sys : system) (cfg : build).

(** * Calls *)

Definition asks (q : query) : M world bool := fun w =>
  let b := ask sys (trace w) q in (log (Asked q b) w, Ret b).
Definition attempt (o : op) : M world bool := fun w =>
  let b := act sys (trace w) o in (log (Did o b) w, Ret b).
Definition ignore (o : op) : M world unit := attempt o ≫= fun _ => mret tt.
Definition must (e : exn) (o : op) : M world unit :=
  b ← attempt o; if (b : bool) then mret tt else throw e.
Definition look {A} (f : list event -> A) : M world A := fun w => (w, Ret (f (trace w))).
Definition when (b : bool) (c : M world unit) : M world unit := if b then c else mret tt.
(** A file that is written as a whole, with its checks. *)
Definition write_checked (path content : bytes) : M world unit :=
  must RuntimeError (Create path);; must RuntimeError (Write path content).

(** ** SystemConfiguration *)

Definition data_dir : bytes := data_path cfg.
Definition rootfs_dir : bytes := join data_dir (str "rootfs").
Definition combined_rootfs_dir : bytes := join data_dir (str "combined-rootfs").
Definition log_dir : bytes := join data_dir (str "logs").
Definition container_config_dir : bytes := join data_dir (str "containers").
Definition container_devices_dir : bytes := join data_dir (str "devices").
Definition container_state_dir : bytes := join data_dir (str "state").

(** ** The keys of LXC *)

Definition key (old new : string) : bytes := if lxc2 cfg then str old else str new.
Definition idmap_key := key "lxc.id_map" "lxc.idmap".
Definition net_type_key := key "lxc.network.type" "lxc.net.0.type".
Definition net_flags_key := key "lxc.network.flags" "lxc.net.0.flags".
Definition net_link_key := key "lxc.network.link" "lxc.net.0.link".
Definition pty_max_key := key "lxc.pts" "lxc.pty.max".
Definition tty_max_key := key "lxc.tty" "lxc.tty.max".
Definition uts_name_key := key "lxc.utsname" "lxc.uts.name".
Definition tty_dir_key := key "lxc.devttydir" "lxc.tty.dir".
Definition init_cmd_key := key "lxc.init_cmd" "lxc.init.cmd".
Definition rootfs_path_key := key "lxc.rootfs" "lxc.rootfs.path".
Definition log_level_key := key "lxc.loglevel" "lxc.log.level".
Definition log_file_key := key "lxc.logfile" "lxc.log.file".
Definition apparmor_profile_key := key "lxc.aa_profile" "lxc.apparmor.profile".
Definition devices_deny_key := key "lxc.cgroup.devices.deny" "lxc.cgroup2.devices.deny".
Definition devices_allow_key := key "lxc.cgroup.devices.allow" "lxc.cgroup2.devices.allow".
Definition mount_key : bytes := str "lxc.mount.entry".

Definition set_config_item (k v : bytes) : M world unit := must RuntimeError (SetConfig k v).

(** * The signature-spoof overlay *)

Definition S_IFMT : Z := 61440.
Definition S_IFREG : Z := 32768.
Definition S_IFDIR : Z := 16384.
Definition is_secure_root_owned_path (path : bytes) (expected_type : Z) : M world bool :=
  s ← look (fun t => lstat sys t path);
  mret (match s with
        | Some st => (Z.land (st_mode st) S_IFMT =? expected_type) && (st_uid st =? 0) && (Z.land (st_mode st) 18 =? 0)
        | None => false
        end).
(** [a && b], the second asked only where the first holds. *)
Definition and_then (a b : M world bool) : M world bool := x ← a; if (x : bool) then b else mret false.

Definition generation_prefix : bytes := str "android-15-reboxed-v1-".
Definition hex_digit (b : byte) : bool :=
  ((48 <=? bval b) && (bval b <=? 57)) || ((97 <=? bval b) && (bval b <=? 102)).
Definition valid_generation (g : bytes) : bool :=
  (length g =? length generation_prefix + 16 + 1 + 8)%nat && starts_with g generation_prefix &&
  match drop (length generation_prefix + 16) g with b :: _ => Byte.eqb b x2d | [] => false end &&
  forallb hex_digit (take 16 (drop (length generation_prefix) g)) &&
  forallb hex_digit (drop (length generation_prefix + 17) g).

Record overlay := Overlay { services_jar : bytes; system_app_dir : bytes; init_rc : bytes; generation : bytes }.
Definition selected_signature_spoof_overlay : M world (option overlay) :=
  let root := join data_dir (str "state/signature-spoof") in
  let marker := join root (str "enabled") in
  b ← asks (Exists marker);
  if negb b then mret None
  else
    s ← is_secure_root_owned_path marker S_IFREG;
    if negb s then throw RuntimeError
    else
      c ← look (fun t => read_file sys t marker);
      match c ≫= fun text => head (getlines [] text) with
      | None => throw RuntimeError
      | Some g =>
          if negb (valid_generation g) then throw RuntimeError
          else
            let dir := join (join root (str "generations")) g in
            let o := Overlay (join dir (str "services.jar")) (join dir (str "system-app"))
                       (join dir (str "reboxed-signature-spoof.rc")) g in
            ok ← and_then (is_secure_root_owned_path dir S_IFDIR)
                (and_then (is_secure_root_owned_path (services_jar o) S_IFREG)
                (and_then (is_secure_root_owned_path (system_app_dir o) S_IFDIR)
                (and_then (is_secure_root_owned_path (join (system_app_dir o) (str "ReboxedSignatureSpoofPermission.apk")) S_IFREG)
                          (is_secure_root_owned_path (init_rc o) S_IFREG))));
            if (ok : bool) then mret (Some o) else throw RuntimeError
      end.

(** * Legacy app data *)

Definition migrate_entry (legacy canonical : bytes) (name : bytes) : M world unit :=
  let destination := join canonical name in
  b ← asks (Exists destination);
  if (b : bool) then mret tt else must SystemError (Rename (join legacy name) destination).
Definition migrate_legacy_credential_encrypted_app_data : M world unit :=
  let data_root := join data_dir (str "data") in
  let legacy_root := join data_root (str "data") in
  let canonical_root := join data_root (str "user/0") in
  b ← asks (IsDirectory legacy_root);
  if negb b then mret tt
  else
    must SystemError (CreateDirectories canonical_root);;
    l ← look (fun t => list_directory sys t legacy_root);
    match l with
    | None => throw SystemError
    | Some names => for_each (migrate_entry legacy_root canonical_root) names
    end.

(** * Binder devices *)

Definition binderfs_base_path : bytes := str "/dev/binderfs".
Definition max_name : nat := 255.
Definition max_binder_device_allocation_attempts : nat := 1024.
Definition take_id : M world Z := fun w =>
  (World (object w) (u32 (next_id w + 1)) (trace w), Ret (next_id w)).
(** [ioctl(BINDER_CTL_ADD)]. *)
Definition ctl_add (name : bytes) : M world binder_answer := fun w =>
  let a := add_binder sys (trace w) name in
  (log (Did (AddBinder name) (match a with BinderAdded => true | _ => false end)) w, Ret a).
(** The attempts of [new_device]; the constructor of [BinderDevice] changes the
    mode of the node. *)
Fixpoint allocate_binder (attempts : nat) : M world (option bytes) :=
  match attempts with
  | O => mret None
  | S attempts' =>
      id ← take_id;
      let name := str "binder" ++ print_u 10 id in
      if (max_name <? length name)%nat then mret None
      else
        a ← ctl_add name;
        match a with
        | BinderExists => allocate_binder attempts'
        | BinderFails => mret None
        | BinderAdded =>
            let path := binderfs_base_path ++ str "/" ++ name in
            b ← asks (Exists path);
            if negb b then mret None
            else ignore (Chmod path 438);; mret (Some path)
        end
  end.
Definition binder_control : bytes := binderfs_base_path ++ str "/binder-control".
Definition is_supported : M world bool := asks (Exists binder_control).
Definition new_device : M world (option bytes) :=
  b ← attempt OpenBinderControl;
  if (b : bool) then
    d ← allocate_binder max_binder_device_allocation_attempts; ignore CloseBinderControl;; mret d
  else mret None.
Definition release_binder (path : bytes) : M world unit := ignore (ReleaseBinder path).
(** [create_binder_devices], with the vector that the caller passes: the
    devices allocated, and whether all could be. *)
Fixpoint create_binder_devices (n : nat) : M world (list bytes * bool) :=
  match n with
  | O => mret ([], true)
  | S n' =>
      d ← new_device;
      match d with
      | None => mret ([], false)
      | Some path => r ← create_binder_devices n'; mret (path :: r.1, r.2)
      end
  end.

(** * Network *)

Definition setup_id_map : M world unit :=
  o ← self; for_each (set_config_item idmap_key) (get_id_map (creds_ o).1 (creds_ o).2).

Definition network_config (o : lxc_container) : ip_config :=
  let tokens := string_split (container_network_address_ o) x2f in
  let given := negb (is_empty (container_network_address_ o)) in
  let address := match tokens with
                 | [a] | [a; _] => if given then a else str "192.168.250.2"
                 | _ => str "192.168.250.2"
                 end in
  let prefix := match tokens with [_; p] => if given then u32 (atoi p) else 24 | _ => 24 end in
  let gateway := if is_empty (container_network_gateway_ o) then str "192.168.250.1" else container_network_gateway_ o in
  let dns := match container_network_dns_servers_ o with [] => [str "8.8.8.8"] | l => l end in
  IpConfig Version2 Static address prefix gateway dns 0.
(** What is written of the buffer of 512 bytes. *)
Definition network_file (o : lxc_container) : outcome bytes :=
  r <-! ip_config_write (little_endian cfg) (network_config o) (make_writer (little_endian cfg) (replicate 512 x00));
  Ret (take r.2 (buf r.1)).

Definition own_directory (path : bytes) : M world unit :=
  s ← look (fun t => stat sys t path);
  match s with
  | None => mret tt
  | Some st =>
      if negb (st_uid st =? 0) && negb (st_gid st =? 0) then mret tt
      else ignore (Chown path unprivileged_uid unprivileged_uid)
  end.
Definition setup_network : M world unit :=
  b ← asks (Exists (str "/sys/class/net/anbox0"));
  if negb b then mret tt
  else
    set_config_item net_type_key (str "veth");;
    set_config_item net_flags_key (str "up");;
    set_config_item net_link_key (str "anbox0");;
    o ← self;
    content ← lift (network_file o);
    let misc := join data_dir (str "data") in
    let ip_conf_dir := join (join misc (str "misc")) (str "ethernet") in
    b ← asks (Exists ip_conf_dir);
    when (negb b) (must SystemError (CreateDirectories ip_conf_dir));;
    for_each own_directory [misc; join misc (str "misc"); ip_conf_dir];;
    let path := join ip_conf_dir (str "ipconfig.txt") in
    b ← asks (Exists path);
    when b (must SystemError (Remove path));;
    b ← attempt (Create path);
    when b (ignore (Write path content)).

(** * Devices *)

(** [makedev] of [major] and [minor] is the number itself. *)
Definition node_mode (st : stat_t) (permission : Z) : Z :=
  Z.lor (Z.shiftl (Z.shiftr (st_mode st) 9) 9) (Z.land permission (Z.lnot (Z.shiftl 1 9))).
Definition node_path (device : bytes) : bytes := join container_devices_dir (file_name device).
Definition device_entry (device : bytes) : bytes :=
  let target := if starts_with device (str "/") then drop 1 device else device in
  node_path device ++ str " " ++ target ++ str " none bind,create=file,optional 0 0".
Definition base_uid (o : lxc_container) : Z := if privileged_ o then 0 else unprivileged_uid.
Definition add_device (d : bytes * (Z * bytes)) : M world unit :=
  let '(device, (permission, old_device_name)) := d in
  s ← look (fun t => stat sys t (if is_empty old_device_name then device else old_device_name));
  match s with
  | None => throw RuntimeError
  | Some st =>
      let mode := node_mode st permission in
      must RuntimeError (Mknod (node_path device) mode (st_rdev st));;
      o ← self;
      must RuntimeError (Chown (node_path device) (u32 (base_uid o + st_uid st)) (u32 (base_uid o + st_gid st)));;
      must RuntimeError (Chmod (node_path device) mode);;
      set_config_item mount_key (device_entry device)
  end.

(** * Starting *)

(** [Configuration]. *)
Record configuration := Configuration {
  bind_mounts : list (bytes * bytes);
  devices : list (bytes * (Z * bytes));
  extra_properties : list bytes
}.
(** [unordered_map::emplace] and [insert]: an entry that is there stays. *)
Definition emplace {A} (k : bytes) (v : A) (l : list (bytes * A)) : list (bytes * A) :=
  if existsb (fun e => bytes_eqb e.1 k) l then l else l ++ [(k, v)].

(** The handle, and what runs is stopped; the answers of [stop] are not
    looked at. *)
Definition open_container : M world unit :=
  o ← self;
  r ← (if container_ o then asks IsRunning else mret false);
  when r (ignore StopContainer);;
  if container_ o then mret tt
  else
    ignore (Unlink (container_config_dir ++ str "/default/config"));;
    b ← attempt NewContainer;
    if negb b then throw RuntimeError
    else
      update (with_container true);;
      r ← asks IsRunning;
      when r (ignore StopContainer).

Definition set_memory_limits : M world unit :=
  c ← look (fun t => load_configuration (memory_path sys) (join data_dir (str "memory.conf")) (memory_files sys t));
  c ← lift c;
  must RuntimeError (Prepare ConfiguredSwap);;
  l ← lift (apply_lxc_limits (cgroup2 sys) c);
  for_each (fun e => set_config_item e.1 e.2) l.

Definition rootfs_path (o : lxc_container) : bytes := if rootfs_overlay_ o then combined_rootfs_dir else rootfs_dir.
Definition configure_basics : M world unit :=
  set_config_item (str "lxc.mount.auto") (str "proc:mixed sys:mixed cgroup:mixed");;
  set_config_item (str "lxc.autodev") (str "1");;
  when (negb (lxc2 cfg)) (set_config_item (str "lxc.autodev.tmpfs.size") (str "134217728"));;
  set_config_item pty_max_key (str "1024");;
  set_config_item tty_max_key (str "0");;
  set_config_item uts_name_key (str "anbox");;
  set_config_item devices_deny_key [];;
  set_config_item devices_allow_key [];;
  set_config_item tty_dir_key [];;
  set_config_item (str "lxc.environment") (str "PATH=/system/bin:/system/sbin:/system/xbin");;
  set_memory_limits;;
  set_config_item (str "lxc.cap.drop") (str "sys_boot");;
  b ← (if snap_confinement cfg then asks (EnvSet (str "SNAP")) else mret false);
  when b (set_config_item (str "lxc.namespace.keep") (str "cgroup"));;
  o ← self;
  set_config_item rootfs_path_key (rootfs_path o).

Definition installed_dir : bytes := str "/usr/local/lib/anbox".
Definition compatibility_libraries : list bytes := str <$> [
  "libanbox_ashmem_ioctl_compat.so"; "libanbox_ashmem_ioctl_compat32.so"; "libanbox_pipe_compat.so";
  "libanbox_pipe_compat32.so"; "libanbox_installd_selinux_compat.so"]%string.
Fixpoint all_regular (l : list bytes) : M world bool :=
  match l with
  | [] => mret true
  | p :: l' => and_then (asks (IsRegular p)) (all_regular l')
  end.
Definition install_compatibility_library (dir name : bytes) : M world unit :=
  must SystemError (CopyFile (join installed_dir name) (join dir name));;
  must RuntimeError (Chmod (join dir name) 493).
Definition install_compatibility_libraries : M world unit :=
  ok ← all_regular (join installed_dir <$> compatibility_libraries);
  if negb ok then throw RuntimeError
  else
    let dir := join data_dir (str "data/anbox") in
    must SystemError (CreateDirectories dir);;
    for_each (install_compatibility_library dir) compatibility_libraries.

Definition graphics_properties (vendor_emulation angle : bool) : list bytes :=
  if vendor_emulation then str <$> [
    "ro.hardware.egl=emulation"; "persist.graphics.egl=emulation"; "ro.hardware.gralloc=ranchu"; "ro.kernel.qemu=1"]%string
  else if angle then str <$> ["ro.hardware.egl=angle"; "persist.graphics.egl=angle"]%string
  else [].
Definition modern_properties : list bytes := str <$> [
  "dalvik.vm.heapstartsize=16m"; "dalvik.vm.heapgrowthlimit=256m"; "dalvik.vm.heapsize=512m";
  "dalvik.vm.heaptargetutilization=0.75"; "dalvik.vm.heapminfree=512k"; "dalvik.vm.heapmaxfree=8m";
  "ro.boot.verifiedbootstate=orange"; "ro.boot.vbmeta.device_state=unlocked";
  "ro.boot.vbmeta.digest=0000000000000000000000000000000000000000000000000000000000000000";
  "ro.vendor.build.security_patch=2025-04-05"]%string.
Definition added_properties (modern_gsi : bool) (rootfs : bytes) : M world (list bytes) :=
  emulation ← asks (Exists (join rootfs (str "vendor/lib64/egl/libEGL_emulation.so")));
  angle ← (if modern_gsi && negb emulation then asks (Exists (join rootfs (str "system/lib64/libEGL_angle.so")))
           else mret false);
  mret (if modern_gsi then graphics_properties emulation angle ++ modern_properties else []).

(** * Loop devices *)

Definition loop_path (id : Z) : bytes := str "/dev/loop" ++ print_u 10 id.
Fixpoint add_loops (l : list Z) : M world unit :=
  match l with
  | [] => mret tt
  | id :: l' =>
      b ← attempt (AddLoop id);
      if (b : bool) then add_loops l' else ignore CloseLoopControl;; throw RuntimeError
  end.
Fixpoint wait_for (attempts : nat) (path : bytes) : M world unit :=
  match attempts with
  | O => mret tt
  | S attempts' =>
      b ← asks (Exists path);
      if (b : bool) then mret tt else ignore Sleep;; wait_for attempts' path
  end.
Definition wait_for_loop (id : Z) : M world unit :=
  wait_for 50 (loop_path id);;
  b ← asks (Exists (loop_path id));
  if (b : bool) then mret tt else throw RuntimeError.
Definition loop_control : bytes := str "/dev/loop-control".
Definition allocate_apex_loops (modern_gsi : bool) : M world unit :=
  b ← (if modern_gsi then asks (Exists loop_control) else mret false);
  if negb b then mret tt
  else
    must RuntimeError OpenLoopControl;;
    add_loops apex_loops;;
    ignore CloseLoopControl;;
    for_each wait_for_loop apex_loops.

Definition configure_init (rootfs : bytes) : M world unit :=
  anbox ← asks (Exists (join rootfs (str "anbox-init.sh")));
  if (anbox : bool) then set_config_item init_cmd_key (str "/anbox-init.sh")
  else
    android ← asks (Exists (join rootfs (str "system/bin/init")));
    if (android : bool) then set_config_item init_cmd_key (str "/system/bin/init second_stage")
    else
      root ← asks (Exists (join rootfs (str "init")));
      link ← (if (root : bool) then mret true else asks (IsSymlink (join rootfs (str "init"))));
      if (link : bool) then set_config_item init_cmd_key (str "/init") else throw RuntimeError.
Definition configure_logs : M world unit :=
  set_config_item log_level_key (str "0");;
  set_config_item log_file_key (log_dir ++ str "/container.log");;
  set_config_item (str "lxc.prlimit.nice") (str "1");;
  when (negb (lxc2 cfg))
    (set_config_item (str "lxc.console.logfile") (log_dir ++ str "/console.log");;
     set_config_item (str "lxc.console.rotate") (str "1")).
(** The snap's build writes the key itself, also for the old liblxc. *)
Definition isolation_key : bytes := if snap_confinement cfg then str "lxc.apparmor.profile" else apparmor_profile_key.
Definition configure_isolation : M world unit :=
  set_config_item isolation_key
    (if snap_confinement cfg then str "snap.anbox.container-manager//container" else str "unconfined");;
  o ← self;
  when (negb (privileged_ o)) setup_id_map.

(** * What a modern image gets *)

Abbreviation mounts := (list (bytes * bytes)).

(** [add_container_service_labels]; the copies are InitRc.v's. *)
Definition install_init_file (state_dir : bytes) (f : init_file) : M world unit :=
  must SystemError (CreateDirectories (join state_dir (take (length (relative f) - length (base_name (relative f)) - 1) (relative f))));;
  write_checked (join state_dir (relative f)) (content f);;
  must RuntimeError (Chmod (join state_dir (relative f)) 420).
(** [signature_init] is the path of the file that hw/init.rc ends with; the
    files are as they were when they were listed. *)
Definition read_signature_init (files : list init_file) (signature_init : option bytes) : M world (option bytes) :=
  match signature_init with
  | Some path =>
      if existsb (fun f : init_file => bytes_eqb (relative f) (str "hw/init.rc")) files then
        c ← look (fun t => read_file sys t path);
        match c with Some text => mret (Some text) | None => throw RuntimeError end
      else mret None
  | None => mret None
  end.
Definition label_services (source target state_dir : bytes) (signature_init : option bytes) (l : mounts) : M world mounts :=
  b ← asks (IsDirectory source);
  if negb b then mret l
  else
    files ← look (fun t => list_init sys t source);
    match files with
    | None => throw RuntimeError
    | Some files =>
        sig ← read_signature_init files signature_init;
        ashmem ← asks (Exists (str "/dev/ashmem"));
        let copies := add_container_service_labels ashmem sig files in
        for_each (install_init_file state_dir) copies;;
        mret (fold_left (fun (l : mounts) (f : init_file) => emplace (join state_dir (relative f)) (join target (relative f)) l) copies l)
    end.

(** ** The mount hook *)

Definition quoted (s : bytes) : bytes := [x22] ++ s ++ [x22].
Definition in_container (path : bytes) : bytes := quoted (str "${LXC_ROOTFS_MOUNT}" ++ path).
Definition pid_max_hook : bytes := print_lines [
  str "#!/bin/sh"; str "set -eu";
  str "if ! /usr/bin/mount -o remount,rw " ++ in_container (str "/proc/sys") ++ str "; then";
  str "  echo " ++ quoted (str "Anbox Reboxed: failed to remount /proc/sys writable for pid_max") ++ str " >&2";
  str "  exit 1"; str "fi";
  str "if ! echo 65535 > " ++ in_container (str "/proc/sys/kernel/pid_max") ++ str "; then";
  str "  echo " ++ quoted (str "Anbox Reboxed: failed to set container kernel.pid_max=65535") ++ str " >&2";
  str "  exit 1"; str "fi"].
Definition cgroup_hook : bytes := print_lines [
  str "/usr/bin/chown 1000:1000 " ++ in_container (str "/sys/fs/cgroup");
  str "/usr/bin/chmod 0775 " ++ in_container (str "/sys/fs/cgroup");
  str "/usr/bin/chown 1000:1000 " ++ in_container (str "/sys/fs/cgroup/cgroup.procs") ++ str " " ++
    in_container (str "/sys/fs/cgroup/cgroup.threads") ++ str " " ++
    in_container (str "/sys/fs/cgroup/cgroup.subtree_control")].
Definition bind_hook (source target : bytes) : bytes :=
  str "/usr/bin/mount --bind '" ++ source ++ str "' " ++ in_container target ++ [x0a].
Definition sockets_hook : bytes := print_lines [
  str "/usr/bin/rm -f " ++ in_container (str "/dev/qemu_pipe") ++ str " " ++
    in_container (str "/dev/goldfish_pipe_dprctd") ++ str " " ++ in_container (str "/dev/anbox_bridge") ++ str " " ++
    in_container (str "/dev/anbox_audio");
  str "/usr/bin/ln -s /dev/anbox_sockets/qemu_pipe " ++ in_container (str "/dev/qemu_pipe");
  str "/usr/bin/ln -s /dev/anbox_sockets/qemu_pipe " ++ in_container (str "/dev/goldfish_pipe_dprctd");
  str "/usr/bin/ln -s /dev/anbox_sockets/anbox_bridge " ++ in_container (str "/dev/anbox_bridge");
  str "/usr/bin/ln -s /dev/anbox_sockets/anbox_audio " ++ in_container (str "/dev/anbox_audio")].

(** The settings of a loop device, private to the container. *)
Definition loop_settings : list (bytes * bytes) := [
  (str "scheduler", str "none" ++ [x0a]); (str "nr_requests", str "128" ++ [x0a]); (str "read_ahead_kb", str "128" ++ [x0a])].
Definition setting_path (id : Z) (name : bytes) : bytes :=
  join container_state_dir (str "loop" ++ print_u 10 id ++ str "_" ++ name).
Definition add_private_loop_setting (s : Z * (bytes * bytes)) : M world unit :=
  let '(id, (name, value)) := s in
  write_checked (setting_path id name) value;;
  must RuntimeError (Chmod (setting_path id name) 420).
Definition all_loop_settings : list (Z * (bytes * bytes)) := id ← apex_loops; pair id <$> loop_settings.
Definition fuse_connections : bytes := join container_state_dir (str "fuse-connections").
Definition mount_hook : bytes :=
  pid_max_hook ++ cgroup_hook ++
  concat ((fun s : Z * (bytes * bytes) =>
             bind_hook (setting_path s.1 s.2.1)
               (str "/sys/block/loop" ++ print_u 10 s.1 ++ str "/queue/" ++ s.2.1)) <$> all_loop_settings) ++
  bind_hook fuse_connections (str "/sys/fs/fuse/connections") ++ sockets_hook.
(** The text reaches the file when the stream is closed, without a check. *)
Definition install_mount_hook : M world unit :=
  let path := join container_state_dir (str "mount-apex-loop-settings.sh") in
  must RuntimeError (Create path);;
  for_each add_private_loop_setting all_loop_settings;;
  b ← asks (Exists fuse_connections);
  when (negb b) (must SystemError (CreateDirectories fuse_connections));;
  must RuntimeError (Chmod fuse_connections 493);;
  ignore (Write path mount_hook);;
  must RuntimeError (Chmod path 493);;
  set_config_item (str "lxc.hook.mount") path.

(** ** The mounts of a modern image *)

Definition container_root_uid (o : lxc_container) : Z := base_uid o.
Definition prepare_metadata (o : lxc_container) : M world unit :=
  let dir := join data_dir (str "metadata") in
  must SystemError (CreateDirectories (join dir (str "apex/sessions")));;
  must RuntimeError (Chown dir (container_root_uid o) (container_root_uid o));;
  must RuntimeError (Chmod dir 504).
Definition modern_mounts (o : lxc_container) (l : mounts) : M world mounts :=
  let rootfs := rootfs_path o in
  let state_dir := container_state_dir in
  spoof ← selected_signature_spoof_overlay;
  let vold := str "/usr/local/bin/vold_prepare_subdirs_anbox" in
  b ← asks (IsRegular vold);
  if negb b then throw RuntimeError
  else
    let l := emplace vold (str "/system/bin/vold_prepare_subdirs") l in
    let l := emplace (join rootfs (str "system/bin/vold_prepare_subdirs")) (str "/system/bin/vold_prepare_subdirs.anbox-real") l in
    let stub := join data_dir (str "vendor-rootfs/framework/anbox-ondevicepersonalization-stub.jar") in
    b ← asks (IsRegular stub);
    let stub := if (b : bool) then stub else join rootfs (str "vendor/framework/anbox-ondevicepersonalization-stub.jar") in
    let framework := join state_dir (str "framework-with-anbox-compat") in
    must RuntimeError (Prepare (FrameworkView framework stub (from_option services_jar [] spoof)));;
    b ← asks (IsDirectory framework);
    let l := if (b : bool) then emplace framework (str "/system/framework") l else l in
    l ← (match spoof with
        | Some v =>
            let view := join state_dir (str "system-app-with-signature-compat") in
            must RuntimeError (Prepare (SystemAppView view (system_app_dir v)));;
            mret (emplace view (str "/system/app") l)
        | None => mret l
        end);
    prepare_metadata o;;
    let l := emplace (join data_dir (str "metadata")) (str "/metadata") l in
    let apex := join data_dir (str "gsi-apex") in
    must RuntimeError (Prepare (ApexView apex));;
    let l := emplace apex (str "/system/apex") l in
    let netbpfload := join state_dir (str "netbpfload_anbox") in
    must RuntimeError (Prepare (Netbpfload (join apex (str "com.android.tethering.apex")) netbpfload));;
    let l := emplace netbpfload (str "/system/bin/netutils-wrapper-1.0") l in
    let servicemanager := join state_dir (str "servicemanager_anbox") in
    must RuntimeError (Prepare (ServiceManager servicemanager));;
    let l := emplace servicemanager (str "/system/bin/servicemanager") l in
    let apexd := join state_dir (str "apexd_anbox.rc") in
    write_checked apexd compat_apexd_init;;
    let l := emplace apexd (str "/system/etc/init/apexd.rc") l in
    let bpf := join state_dir (str "netbpfload_anbox.rc") in
    write_checked bpf compat_bpf_init;;
    let l := emplace bpf (str "/system/etc/init/netbpfload.rc") l in
    l ← label_services (join rootfs (str "system/etc/init")) (str "/system/etc/init")
          (join state_dir (str "init-compat/system")) (init_rc <$> spoof) l;
    link ← asks (IsSymlink (join rootfs (str "system_ext")));
    dir ← asks (IsDirectory (join rootfs (str "system_ext/etc/init")));
    l ← label_services
          (join rootfs (if (dir : bool) then str "system_ext/etc/init" else str "system/system_ext/etc/init"))
          (if (link : bool) then str "/system/system_ext/etc/init" else str "/system_ext/etc/init")
          (join state_dir (str "init-compat/system_ext")) None l;
    install_mount_hook;;
    mret l.

(** ** What every image gets *)

Definition android_socket_dir : bytes := join data_dir (str "dev-socket").
Definition clear_directory (dir : bytes) : M world unit :=
  l ← look (fun t => list_directory sys t dir);
  match l with
  | None => throw SystemError
  | Some names => for_each (fun n => must SystemError (RemoveAll (join dir n))) names
  end.
Definition add_socket_alias (a : string * string) : M world unit :=
  let path := join android_socket_dir (str a.1) in
  b ← asks (Exists path);
  b ← (if (b : bool) then mret true else asks (IsSymlink path));
  when b (must SystemError (Remove path));;
  must SystemError (CreateSymlink (str a.2) path).
Definition socket_aliases : list (string * string) :=
  [("zygote_secondary", "zygote"); ("usap_pool_secondary", "usap_pool_primary")]%string.
Definition prepare_sockets (modern_gsi : bool) (o : lxc_container) : M world unit :=
  b ← asks (Exists android_socket_dir);
  (if negb b then must SystemError (CreateDirectories android_socket_dir)
   else when modern_gsi (clear_directory android_socket_dir));;
  must RuntimeError (Chown android_socket_dir (container_root_uid o) (container_root_uid o));;
  must RuntimeError (Chmod android_socket_dir 493);;
  when modern_gsi (for_each add_socket_alias socket_aliases).

(** The host's settings that are hidden: name, target and value. *)
Definition private_sysctls (modern_gsi : bool) : list (string * string * string) :=
  [("kptr_restrict", "/proc/sys/kernel/kptr_restrict", "2")]%string ++
  if modern_gsi then
    [("unprivileged_bpf_disabled", "/proc/sys/kernel/unprivileged_bpf_disabled", "2");
     ("mmap_rnd_bits", "/proc/sys/vm/mmap_rnd_bits", "32");
     ("mmap_rnd_compat_bits", "/proc/sys/vm/mmap_rnd_compat_bits", "16")]%string
  else [].
Definition sysctl_path (s : string * string * string) : bytes := join container_state_dir (str s.1.1).
Definition add_private_sysctl (o : lxc_container) (s : string * string * string) : M world unit :=
  write_checked (sysctl_path s) (str s.2 ++ [x0a]);;
  must RuntimeError (Chown (sysctl_path s) (container_root_uid o) (container_root_uid o));;
  must RuntimeError (Chmod (sysctl_path s) 420).

(** [binder_devices_ = std::move(...)] releases the devices of before. *)
Definition keep_binders (l : list bytes) : M world unit :=
  o ← self; update (with_binders l);; for_each release_binder (binder_devices_ o).
Definition setup_binders (l : mounts) (ds : list (bytes * (Z * bytes))) : M world (mounts * list (bytes * (Z * bytes))) :=
  b ← is_supported;
  if (b : bool) then
    r ← create_binder_devices num_needed_binders;
    match r with
    | ([a; b; c], true) =>
        keep_binders [a; b; c];;
        mret (emplace c (str "/dev/vndbinder") (emplace b (str "/dev/hwbinder") (emplace a (str "/dev/binder") l)), ds)
    | (allocated, _) => for_each release_binder allocated;; throw RuntimeError
    end
  else
    let ds := emplace (str "/dev/binder") (438, []) ds in
    b ← asks (Exists (str "/dev/hwbinder"));
    let ds := if (b : bool) then emplace (str "/dev/hwbinder") (438, []) ds else ds in
    b ← asks (Exists (str "/dev/vndbinder"));
    let ds := if (b : bool) then emplace (str "/dev/vndbinder") (438, []) ds else ds in
    mret (l, ds).

(** The mount entries, with targets below the root file system. *)
Definition absolute (path : bytes) : bytes := if starts_with path (str "/") then path else str "/" ++ path.
Definition mount_entry (source target kind : bytes) : bytes :=
  source ++ str " " ++ target ++ str " none bind,create=" ++ kind ++ str ",optional 0 0".
Definition mount_target (rootfs target : bytes) : bytes := rootfs ++ absolute target.
Definition add_mount (modern_gsi : bool) (rootfs : bytes) (m : bytes * bytes) : M world unit :=
  dir ← asks (IsDirectory m.1);
  set_config_item mount_key (mount_entry m.1 (mount_target rootfs m.2) (if (dir : bool) then str "dir" else str "file"));;
  when (modern_gsi && bytes_eqb m.2 (str "/dev/qemu_pipe"))
    (set_config_item mount_key (mount_entry m.1 (rootfs ++ str "/dev/goldfish_pipe_dprctd") (str "file"))).

Definition emplace_all {A} (l ds : list (bytes * A)) : list (bytes * A) := fold_left (fun ds d => emplace d.1 d.2 ds) l ds.
Definition device_table (l : list (string * Z)) : list (bytes * (Z * bytes)) := (fun d => (str d.1, (d.2, []))) <$> l.
(** Modes are octal in the code: 384 is 0600, 420 is 0644, 432 is 0660, 438 is
    0666, 493 is 0755, 504 is 0770. *)
Definition additional_devices (loops ashmem : bool) (ds : list (bytes * (Z * bytes))) : list (bytes * (Z * bytes)) :=
  let ds := emplace_all (device_table [("/dev/console", 384); ("/dev/full", 438); ("/dev/kmsg", 420)]%string) ds in
  let ds := if loops
            then emplace loop_control (384, []) (emplace_all ((fun id => (loop_path id, (384, []))) <$> apex_loops) ds)
            else ds in
  let ds := emplace_all (device_table [("/dev/null", 438); ("/dev/random", 438); ("/dev/tty", 438); ("/dev/urandom", 438);
                                       ("/dev/zero", 438)]%string) ds in
  let ds := emplace (str "/dev/tun") (432, str "/dev/net/tun") ds in
  if ashmem then emplace (str "/dev/ashmem") (438, []) ds else ds.
Definition setup_devices (modern_gsi : bool) (ds : list (bytes * (Z * bytes))) : M world unit :=
  loops ← (if modern_gsi then asks (Exists loop_control) else mret false);
  ashmem ← asks (Exists (str "/dev/ashmem"));
  must SystemError (RemoveAll container_devices_dir);;
  must SystemError (CreateDirectories container_devices_dir);;
  for_each add_device (iterate sys (additional_devices loops ashmem ds)).

(** ** Properties *)

Fixpoint first_existing (l : list bytes) : M world (option bytes) :=
  match l with
  | [] => mret None
  | p :: l' => b ← asks (Exists p); if (b : bool) then mret (Some p) else first_existing l'
  end.
Definition property_files : list bytes := str <$> ["default.prop"; "system/etc/prop.default"; "system/build.prop"]%string.
Definition properties_text (extra : list bytes) (old : bytes) : bytes :=
  str "# Properties added by Anbox Reboxed" ++ [x0a] ++ print_lines extra ++ [x0a] ++ old ++ [x0a].
Definition setup_properties (rootfs : bytes) (extra : list bytes) : M world unit :=
  match extra with
  | [] => mret tt
  | _ =>
      p ← first_existing (join rootfs <$> property_files);
      match p with
      | None => throw RuntimeError
      | Some source_prop_path =>
          let path := join container_state_dir (str "anbox.prop") in
          c ← look (fun t => read_file sys t source_prop_path);
          match c with
          | None => throw RuntimeError
          | Some old =>
              must RuntimeError (Create path);;
              ignore (Write path (properties_text extra old));;
              set_config_item mount_key (path ++ str " " ++ source_prop_path ++ str " none bind,optional,ro 0 0")
          end
      end
  end.

Definition add_bind (modern_gfxstream : bool) (line : bytes) : M world unit :=
  when (should_mount_graphics_compatibility_bind modern_gfxstream line && starts_with line (str "/"))
    (set_config_item mount_key line).
Definition setup_bindtab (modern_gfxstream : bool) : M world unit :=
  let bindtab := join data_dir (str "bindtab") in
  b ← and_then (asks (Exists bindtab)) (asks (IsRegular bindtab));
  if negb b then mret tt
  else
    c ← look (fun t => read_file sys t bindtab);
    match c with
    | None => mret tt
    | Some text => for_each (add_bind modern_gfxstream) (getlines [] text)
    end.

(** * [start] *)

Definition modern_image (rootfs : bytes) : M world bool :=
  a ← asks (Exists (join rootfs (str "anbox-init.sh")));
  if (a : bool) then mret false else asks (Exists (join rootfs (str "system/bin/init"))).
Definition gfxstream_property : bytes := str "ro.anbox.graphics_transport=gfxstream".
(** The items of the configuration and what they need. *)
Definition configure (c : configuration) : M world unit :=
  open_container;;
  configure_basics;;
  o ← self;
  let rootfs := rootfs_path o in
  modern_gsi ← modern_image rootfs;
  when modern_gsi install_compatibility_libraries;;
  more ← added_properties modern_gsi rootfs;
  let modern_gfxstream := existsb (bytes_eqb gfxstream_property) (extra_properties c) in
  allocate_apex_loops modern_gsi;;
  configure_init rootfs;;
  configure_logs;;
  setup_network;;
  configure_isolation;;
  l ← (if (modern_gsi : bool) then modern_mounts o (bind_mounts c) else mret (bind_mounts c));
  prepare_sockets modern_gsi o;;
  let l := emplace android_socket_dir (str "/dev/socket") l in
  for_each (add_private_sysctl o) (private_sysctls modern_gsi);;
  let l := emplace_all ((fun s => (sysctl_path s, str s.1.2)) <$> private_sysctls modern_gsi) l in
  b ← setup_binders l (devices c);
  for_each (add_mount modern_gsi rootfs) (iterate sys b.1);;
  setup_devices modern_gsi b.2;;
  setup_properties rootfs (extra_properties c ++ more);;
  setup_bindtab modern_gfxstream.

Definition input_directories (c : configuration) : list bytes :=
  omap (fun m => if bytes_eqb m.2 (str "/dev/input") then Some m.1 else None) (iterate sys (bind_mounts c)).
(** All that comes before the configuration is saved. *)
Definition prepare (c : configuration) : M world unit :=
  b ← asks IsRoot;
  if negb b then throw RuntimeError
  else migrate_legacy_credential_encrypted_app_data;; configure c.
Definition start (c : configuration) : M world unit :=
  update (with_restore (input_directories c));;
  prepare c;;
  must RuntimeError SaveConfig;;
  must RuntimeError StartContainer;;
  update (with_state running).

(** * [stop] and the destructor *)

Definition stop : M world unit :=
  o ← self;
  r ← (if container_ o then asks IsRunning else mret false);
  if negb r then mret tt
  else
    must RuntimeError StopContainer;;
    update (with_state inactive);;
    keep_binders [];;
    for_each (fun p => ignore (Chmod p 511)) (runtime_directories_to_restore_ o);;
    update (with_restore []).

(** [~LxcContainer]: an exception would leave a destructor. The devices are
    released with the object. *)
Definition destroy : M world unit := fun w =>
  match stop w with
  | (w, Throw _) => (w, Aborted)
  | (w, Ret _) =>
      (o ← self;
       when (container_ o) (ignore PutContainer);; update (with_container false);; keep_binders []) w
  | r => r
  end.
(** The constructor. *)
Definition ensure_path (path : bytes) : M world unit :=
  b ← asks (IsDirectory path); if (b : bool) then mret tt else must SystemError (CreateDirectories path).
Definition construct (privileged rootfs_overlay : bool) (address gateway : bytes) (dns : list bytes) (creds : Z * Z)
    : M world unit :=
  update (fun _ => LxcContainer inactive false privileged rootfs_overlay address gateway dns creds [] []);;
  for_each ensure_path [container_config_dir; container_state_dir; log_dir].

(** * The management API *)

(** What the response says. *)
Inductive response := Done | Error.
(** The request's lists make the maps: a key that is there stays. *)
Definition request_configuration (mounts : list (bytes * bytes)) (ds : list (bytes * Z)) (properties : list bytes)
    : configuration :=
  Configuration (emplace_all mounts []) (emplace_all ((fun d => (d.1, (d.2, []))) <$> ds) []) properties.
Definition answer (c : M world unit) : M world response := fun w =>
  match c w with
  | (w, Ret _) => (w, Ret Done)
  | (w, Throw _) => (w, Ret Error)
  | (w, Aborted) => (w, Aborted)
  | (w, Undef) => (w, Undef)
  end.
Definition start_container (c : configuration) : M world response :=
  o ← self;
  match state_ o with
  | running => mret Error
  | inactive => answer (start c)
  end.
Definition stop_container : M world response :=
  o ← self;
  match state_ o with
  | running => answer stop
  | inactive => mret Error
  end.

(** The requests of a session, one after the other. *)
Inductive request := Start (c : configuration) | Stop.
Definition serve (r : request) : M world response :=
  match r with Start c => start_container c | Stop => stop_container end.
Fixpoint session (l : list request) : M world (list response) :=
  match l with
  | [] => mret []
  | r :: l' => a ← serve r; rest ← session l'; mret (a :: rest)
  end.

(** * Specification *)

(** What a start may do, from the settings of [o]: it does not save or start
    (that comes last), gives ids only to an unprivileged container and only
    those of the map, drops the capability, and mounts nothing but devices,
    directories below the root file system, the property file, and the lines
    of the table. *)
Definition bind_line (v : bytes) : Prop :=
  exists t text, read_file sys t (join data_dir (str "bindtab")) = Some text /\
    v ∈ getlines [] text /\ starts_with v (str "/") = true.
Definition mount_allowed (o : lxc_container) (v : bytes) : Prop :=
  (exists d, v = device_entry d) \/
  (exists source target kind, v = mount_entry source (mount_target (rootfs_path o) target) kind) \/
  (exists source f, f ∈ property_files /\
     v = source ++ str " " ++ join (rootfs_path o) f ++ str " none bind,optional,ro 0 0") \/
  bind_line v.
Definition allowed (o : lxc_container) (e : event) : Prop :=
  match e with
  | Did (SetConfig k v) _ =>
      (k = idmap_key -> privileged_ o = false /\ v ∈ get_id_map (creds_ o).1 (creds_ o).2) /\
      (k = rootfs_path_key -> v = rootfs_path o) /\
      (k = str "lxc.cap.drop" -> v = str "sys_boot") /\
      (k = mount_key -> mount_allowed o v)
  | Did SaveConfig _ | Did StartContainer _ => False
  | _ => True
  end.
(** The operations that a call which returns has all done. *)
Definition required (o : op) : bool :=
  match o with
  | SetConfig _ _ | Mknod _ _ _ | CreateDirectories _ | RemoveAll _ | Remove _ | Rename _ _ | CopyFile _ _
  | CreateSymlink _ _ | OpenLoopControl | Prepare _ => true
  | _ => false
  end.
Definition accepted (e : event) : Prop :=
  match e with Did o b => required o = true -> b = true | _ => True end.
Definition configured (new : list event) (k v : bytes) : Prop := Did (SetConfig k v) true ∈ new.

(** A device of the container. *)
Definition device_made (o : lxc_container) (d : bytes * (Z * bytes)) (new : list event) : Prop :=
  let '(device, (permission, old_device_name)) := d in
  exists t st, stat sys t (if is_empty old_device_name then device else old_device_name) = Some st /\
    let mode := node_mode st permission in
    Did (Mknod (node_path device) mode (st_rdev st)) true ∈ new /\
    Did (Chown (node_path device) (u32 (base_uid o + st_uid st)) (u32 (base_uid o + st_gid st))) true ∈ new /\
    Did (Chmod (node_path device) mode) true ∈ new /\
    configured new mount_key (device_entry device).
Definition mounted (o : lxc_container) (m : bytes * bytes) (new : list event) : Prop :=
  exists kind, configured new mount_key (mount_entry m.1 (mount_target (rootfs_path o) m.2) kind).
(** The items that do not depend on the image. *)
Definition basic_items (o : lxc_container) : list (bytes * bytes) :=
  [(str "lxc.mount.auto", str "proc:mixed sys:mixed cgroup:mixed"); (str "lxc.autodev", str "1");
   (devices_deny_key, []); (devices_allow_key, []); (str "lxc.cap.drop", str "sys_boot"); (rootfs_path_key, rootfs_path o)].
Definition isolation_items (o : lxc_container) : list (bytes * bytes) :=
  (isolation_key, if snap_confinement cfg then str "snap.anbox.container-manager//container" else str "unconfined") ::
  if privileged_ o then [] else pair idmap_key <$> get_id_map (creds_ o).1 (creds_ o).2.
Definition base_devices : list bytes := str <$> [
  "/dev/console"; "/dev/full"; "/dev/kmsg"; "/dev/null"; "/dev/random"; "/dev/tty"; "/dev/urandom"; "/dev/zero"; "/dev/tun"]%string.

(** The settings of an object. *)
Definition settings (o : lxc_container) :=
  (state_ o, privileged_ o, rootfs_overlay_ o, container_network_address_ o, container_network_gateway_ o,
   container_network_dns_servers_ o, creds_ o, runtime_directories_to_restore_ o).
(** Every binder device that was made is held, by the object or in [extra],
    was released, or was not there when it was looked for. *)
Definition binder_node (name : bytes) : bytes := binderfs_base_path ++ str "/" ++ name.
Definition accounted (extra : list bytes) (w : world) : Prop :=
  forall name, Did (AddBinder name) true ∈ trace w ->
    binder_node name ∈ extra ++ binder_devices_ (object w) \/
    Asked (Exists (binder_node name)) false ∈ trace w \/
    exists b, Did (ReleaseBinder (binder_node name)) b ∈ trace w.

(** * Lemmas: calls *)

Section runs.
Context (o0 : lxc_container).

(** From any world with the settings of [o0], [c] adds events that are allowed;
    if it returns it has done what it had to, with [Q]; else it throws. *)
Definition runs_with {A} (ex : list bytes) (c : M world A) (ex' : A -> list bytes) (Q : A -> list event -> Prop) : Prop :=
  forall w, accounted ex w -> settings (object w) = settings o0 ->
  exists new, trace (c w).1 = new ++ trace w /\ settings (object (c w).1) = settings o0 /\ Forall (allowed o0) new /\
  match (c w).2 with
  | Ret x => accounted (ex' x) (c w).1 /\ Forall accepted new /\ Q x new
  | Throw _ => accounted [] (c w).1
  | _ => False
  end.
Abbreviation runs c Q := (runs_with [] c (fun _ => []) Q).
Definition any {A} : A -> list event -> Prop := fun _ _ => True.

Lemma accounted_sub ex ex' w : ex ⊆ ex' -> accounted ex w -> accounted ex' w.
Proof.
  intros Hs Ha name Hn. destruct (Ha name Hn) as [H|H]; [left|by right]. rewrite elem_of_app in *. naive_solver.
Qed.
Lemma runs_bind {A B} ex (c : M world A) ex1 Q (k : A -> M world B) ex2 R : runs_with ex c ex1 Q ->
  (forall x new, Q x new -> runs_with (ex1 x) (k x) ex2 (fun y new' => R y (new' ++ new))) ->
  runs_with ex (c ≫= k) ex2 R.
Proof.
  intros Hc Hk w Ha Hs. destruct (Hc w Ha Hs) as (new & Ht & Hs' & Hal & Hr). unfold mbind, M_bind.
  destruct (c w) as [w' [x|e| |]]; cbn [fst snd] in *; [|by exists new|done..].
  destruct Hr as (Ha' & Hac & HQ). destruct (Hk x new HQ w' Ha' Hs') as (new' & Ht' & Hs'' & Hal' & Hr').
  exists (new' ++ new). rewrite Ht', Ht, app_assoc. split_and!; [done|done|by apply Forall_app_2|].
  destruct (k x w') as [w'' [y|e| |]]; cbn [fst snd] in *; [|done..].
  destruct Hr' as (? & ? & ?). split_and!; [done|by apply Forall_app_2|done].
Qed.
Lemma runs_mono {A} ex (c : M world A) ex' (Q R : A -> list event -> Prop) : runs_with ex c ex' Q ->
  (forall x new, Forall (allowed o0) new -> Forall accepted new -> Q x new -> R x new) -> runs_with ex c ex' R.
Proof.
  intros Hc HR w Ha Hs. destruct (Hc w Ha Hs) as (new & Ht & Hs' & Hal & Hr). exists new. split_and!; [done..|].
  destruct (c w).2; [|done..]. destruct Hr as (? & ? & ?). split_and!; [done..|by apply HR].
Qed.
Lemma runs_then {A B} ex (c : M world A) ex1 (k : A -> M world B) ex2 : runs_with ex c ex1 any ->
  (forall x, runs_with (ex1 x) (k x) ex2 any) -> runs_with ex (c ≫= k) ex2 any.
Proof. intros Hc Hk. eapply runs_bind; [exact Hc|]. intros x new _. apply Hk. Qed.
Lemma runs_ret {A} (x : A) ex' (Q : A -> list event -> Prop) : Q x [] -> runs_with (ex' x) (mret x) ex' Q.
Proof. intros HQ w Ha Hs. exists []. split_and!; [done|done|constructor|]. split_and!; [done|constructor|done]. Qed.
Lemma runs_ret_sub {A} (x : A) ex ex' (Q : A -> list event -> Prop) : ex ⊆ ex' x -> Q x [] -> runs_with ex (mret x) ex' Q.
Proof.
  intros He HQ w Ha Hs. exists []. split_and!; [done|done|constructor|].
  split_and!; [by apply (accounted_sub ex)|constructor|done].
Qed.
Lemma runs_throw {A} e ex' (Q : A -> list event -> Prop) : runs_with [] (throw e) ex' Q.
Proof. intros w Ha Hs. exists []. split_and!; [done|done|constructor|done]. Qed.
Lemma runs_pure {A B} ex (c : M world A) (k : A -> M world B) ex' R (P : A -> Prop) :
  (forall w, settings (object w) = settings o0 -> exists x, c w = (w, Ret x) /\ P x) ->
  (forall x, P x -> runs_with ex (k x) ex' R) -> runs_with ex (c ≫= k) ex' R.
Proof.
  intros Hc Hk w Ha Hs. destruct (Hc w Hs) as (x & E & HP). unfold mbind, M_bind. rewrite E. by apply (Hk x HP w).
Qed.
Lemma runs_self {B} ex (k : lxc_container -> M world B) ex' R :
  (forall o, settings o = settings o0 -> runs_with ex (k o) ex' R) -> runs_with ex (self ≫= k) ex' R.
Proof. intros Hk. eapply runs_pure; [|exact Hk]. intros w Hs. by exists (object w). Qed.
Lemma runs_look {A B} ex (f : list event -> A) (k : A -> M world B) ex' R :
  (forall x, (exists t, x = f t) -> runs_with ex (k x) ex' R) -> runs_with ex (look f ≫= k) ex' R.
Proof. intros Hk. eapply runs_pure; [|exact Hk]. intros w Hs. exists (f (trace w)). split; [done|by eexists]. Qed.
Lemma runs_lift {A B} (x : outcome A) (k : A -> M world B) ex' R :
  match x with Ret a => runs_with [] (k a) ex' R | Throw _ => True | _ => False end ->
  runs_with [] (lift x ≫= k) ex' R.
Proof.
  intros Hk. destruct x as [a|e| |]; [|apply (runs_throw e)|done..].
  eapply (runs_pure _ _ _ _ _ (fun y => y = a)); [by intros w _; exists a|]. by intros ? ->.
Qed.

Lemma accounted_log ex e w : (forall name, e <> Did (AddBinder name) true) -> accounted ex w -> accounted ex (log e w).
Proof.
  intros He Ha name. cbn [trace log object]. rewrite elem_of_cons. intros [Hn|Hn]; [by destruct (He name)|].
  destruct (Ha name Hn) as [?|[?|[b ?]]]; [by left|right; left; by right|right; right; exists b; by right].
Qed.
Lemma runs_asks ex q : runs_with ex (asks q) (fun _ => ex) (fun b new => new = [Asked q b]).
Proof.
  intros w Ha Hs. unfold asks. exists [Asked q (ask sys (trace w) q)]. cbn [fst snd trace log object].
  split_and!; [done|done|by repeat constructor|by apply accounted_log|by repeat constructor|done].
Qed.
Lemma runs_attempt ex o : (forall b, allowed o0 (Did o b)) -> required o = false ->
  (forall name, o <> AddBinder name) ->
  runs_with ex (attempt o) (fun _ => ex) (fun b new => new = [Did o b]).
Proof.
  intros Hal Hr Hb w Ha Hs. unfold attempt. exists [Did o (act sys (trace w) o)]. cbn [fst snd trace log object].
  split_and!; [done|done|by repeat constructor| |by repeat constructor; cbn; rewrite Hr|done].
  apply accounted_log; [|done]. intros name [= E _]. by apply (Hb name).
Qed.
Lemma runs_ignore ex o : (forall b, allowed o0 (Did o b)) -> required o = false -> (forall name, o <> AddBinder name) ->
  runs_with ex (ignore o) (fun _ => ex) (fun _ new => exists b, Did o b ∈ new).
Proof.
  intros. eapply runs_bind; [by apply runs_attempt|]. intros b new ->. apply (runs_ret tt (fun _ => ex)).
  exists b. by left.
Qed.
Lemma runs_must e o : (forall b, allowed o0 (Did o b)) -> (forall name, o <> AddBinder name) ->
  runs (must e o) (fun _ new => Did o true ∈ new).
Proof.
  intros Hal Hb w Ha Hs. unfold must, attempt, mbind, M_bind. cbn [fst snd].
  exists [Did o (act sys (trace w) o)].
  assert (accounted [] (log (Did o (act sys (trace w) o)) w)) as Ha'.
  { apply accounted_log; [|done]. intros name [= E _]. by apply (Hb name). }
  destruct (act sys (trace w) o); cbn [fst snd trace log object mret M_ret]; split_and!; try done; try by repeat constructor.
Qed.
Lemma runs_when (b : bool) c : (b = true -> runs c any) -> runs (when b c) any.
Proof. destruct b; [auto|]. intros _. by apply (runs_ret tt (fun _ => [])). Qed.

Lemma sub_l (a b : list event) : a ⊆ a ++ b.
Proof. intros e He. apply elem_of_app. by left. Qed.
Lemma sub_r (a b : list event) : b ⊆ a ++ b.
Proof. intros e He. apply elem_of_app. by right. Qed.
Definition steady (P : list event -> Prop) : Prop := forall new new', new ⊆ new' -> P new -> P new'.
Lemma steady_elem e : steady (fun new => e ∈ new).
Proof. intros new new' H. apply H. Qed.
Lemma runs_for_each {A} (f : A -> M world unit) l (P : A -> list event -> Prop) :
  (forall x, steady (P x)) -> (forall x, x ∈ l -> runs (f x) (fun _ => P x)) ->
  runs (for_each f l) (fun _ new => forall x, x ∈ l -> P x new).
Proof.
  intros HP. induction l as [|x l IH]; intros Hf.
  { apply (runs_ret tt (fun _ => [])). intros x Hx. by apply elem_of_nil in Hx. }
  cbn [for_each]. eapply runs_bind; [apply Hf; by left|]. intros ? new Hx.
  eapply runs_mono; [apply IH; intros y Hy; apply Hf; by right|]. intros ? new' _ _ Hl y Hy. cbn beta.
  apply elem_of_cons in Hy as [->|Hy]; [apply (HP x new)|apply (HP y new')]; try done; [apply sub_r|apply sub_l|]. by apply Hl.
Qed.
Lemma runs_each {A} (f : A -> M world unit) l : (forall x, x ∈ l -> runs (f x) any) -> runs (for_each f l) any.
Proof.
  intros Hf. eapply runs_mono; [by apply (runs_for_each f l (fun _ _ => True))|]. done.
Qed.

Lemma runs_done {A} (x : A) : runs (mret x) any.
Proof. by apply (runs_ret x (fun _ => [])). Qed.
Lemma settings_fields o : settings o = settings o0 ->
  privileged_ o = privileged_ o0 /\ rootfs_path o = rootfs_path o0 /\ base_uid o = base_uid o0 /\
  network_config o = network_config o0 /\ creds_ o = creds_ o0.
Proof.
  intros H. unfold settings in H. injection H as H1 H2 H3 H4 H5 H6 H7 H8.
  unfold rootfs_path, base_uid, network_config. by rewrite H2, H3, H4, H5, H6, H7.
Qed.

(** A key that is none of those that are restricted. *)
Definition free_key (k : bytes) : Prop := k <> idmap_key /\ k <> rootfs_path_key /\ k <> str "lxc.cap.drop" /\ k <> mount_key.
Lemma runs_set k v : allowed o0 (Did (SetConfig k v) true) -> runs (set_config_item k v) (fun _ new => configured new k v).
Proof. intros Ha. by apply runs_must; [intros b|]. Qed.
Lemma runs_set_free k v : free_key k -> runs (set_config_item k v) (fun _ new => configured new k v).
Proof. intros (?&?&?&?). apply runs_set. by split_and!. Qed.
Lemma mount_key_free : mount_key <> idmap_key /\ mount_key <> rootfs_path_key /\ mount_key <> str "lxc.cap.drop".
Proof. unfold mount_key, idmap_key, rootfs_path_key, key. by destruct (lxc2 cfg). Qed.
Lemma runs_set_mount v : mount_allowed o0 v -> runs (set_config_item mount_key v) (fun _ new => configured new mount_key v).
Proof. intros H. destruct mount_key_free as (?&?&?). apply runs_set. by split_and!. Qed.

Ltac free := unfold free_key, mount_key, idmap_key, rootfs_path_key, net_type_key, net_flags_key, net_link_key, pty_max_key,
  tty_max_key, uts_name_key, tty_dir_key, init_cmd_key, log_level_key, log_file_key, isolation_key, apparmor_profile_key, devices_deny_key,
  devices_allow_key, key; destruct (lxc2 cfg), (snap_confinement cfg); split_and!; intros E; vm_compute in E; discriminate E.
Ltac run := repeat match goal with
  | |- runs_with _ (mret _) _ any => apply runs_done
  | |- runs_with _ (throw _) _ _ => apply runs_throw
  | |- runs_with _ (self ≫= _) _ _ => apply runs_self; intros ? ?
  | |- runs_with _ (look _ ≫= _) _ _ => apply runs_look; intros ? ?
  | |- runs_with _ (lift _ ≫= _) _ _ => apply runs_lift
  | |- runs_with _ (must _ _) _ any => eapply runs_mono; [apply runs_must; done|done]
  | |- runs_with _ (asks _) _ any => eapply runs_mono; [apply runs_asks|done]
  | |- runs_with _ (attempt _) _ any => eapply runs_mono; [apply runs_attempt; done|done]
  | |- runs_with _ (ignore _) _ any => eapply runs_mono; [apply runs_ignore; done|done]
  | |- runs_with _ (set_config_item _ _) _ any => eapply runs_mono; [apply runs_set_free; free|done]
  | |- runs_with _ (when _ _) _ any => apply runs_when; intros ?
  | |- runs_with _ (for_each _ _) _ any => apply runs_each; intros ? ?
  | |- runs_with _ (_ ≫= _) _ any => eapply (runs_then [] _ (fun _ => [])); [|intros ?]
  | |- runs_with _ (if ?b then _ else _) _ _ => destruct b
  | |- runs_with _ (match ?b with Some _ => _ | None => _ end) _ _ => destruct b
  end.

(** ** The parts *)

Lemma runs_write_checked path c : runs (write_checked path c) any.
Proof. unfold write_checked. run. Qed.
Lemma runs_migrate : runs migrate_legacy_credential_encrypted_app_data any.
Proof. unfold migrate_legacy_credential_encrypted_app_data. run. unfold migrate_entry. run. Qed.
Lemma runs_update f ex : (forall o, settings (f o) = settings o /\ binder_devices_ (f o) = binder_devices_ o) ->
  runs_with ex (update f) (fun _ => ex) any.
Proof.
  intros Hf w Ha Hs. exists []. unfold update, modify. cbn [fst snd object trace]. destruct (Hf (object w)) as [H1 H2].
  split_and!; [done|by rewrite H1|constructor| |constructor|done].
  intros name Hn. cbn [object trace]. rewrite H2. by apply Ha.
Qed.
Lemma runs_open : runs open_container any.
Proof. unfold open_container. run. by apply runs_update. Qed.

Lemma load_configuration_returns env_path path files :
  match load_configuration env_path path files with Ret _ | Throw _ => True | _ => False end.
Proof.
  unfold load_configuration. destruct (select _ _) as [p|]; [|done].
  destruct (files p) as [| |text]; cbn [read_config_file obind]; [done..|].
  destruct (read_lines_throws (getlines [] text) []) as [[vals ->]| ->]; cbn [obind]; [|done].
  destruct (handle_values_throws vals (Memory.Configuration false (str "/var/lib/anbox/anbox.swap") 0 [] [] [] p)) as [[c ->]| ->];
    cbn [obind]; [|done].
  unfold check_configuration. repeat (case_match; try done).
Qed.
Lemma runs_limits : runs set_memory_limits any.
Proof.
  unfold set_memory_limits. apply runs_look. intros x [t ->]. apply runs_lift.
  pose proof (load_configuration_returns (memory_path sys) (join data_dir (str "memory.conf")) (memory_files sys t)) as Hl.
  destruct (load_configuration _ _ _) as [c|e| |]; [|done..]. eapply (runs_then [] _ (fun _ => [])); [run|intros ?].
  apply runs_lift. unfold apply_lxc_limits.
  assert (forall l : list (bytes * bytes), (forall e, e ∈ l -> free_key e.1) ->
    runs (for_each (fun e => set_config_item e.1 e.2) l) any) as Hl'.
  { intros l Hf. apply runs_each. intros e He. eapply runs_mono; [by apply runs_set_free, Hf|done]. }
  destruct (_ && _ && _); [apply Hl'; intros e He; by apply elem_of_nil in He|].
  destruct (negb _); [done|]. apply Hl'. intros e. rewrite !elem_of_app.
  intros [He|[He|He]]; destruct (is_empty _); rewrite ?elem_of_nil, ?list_elem_of_singleton in He; try done; subst e; cbn [fst]; free.
Qed.

(** Facts about what was done stay true. *)
Lemma configured_app new new' k v : configured new k v -> configured (new' ++ new) k v.
Proof. apply sub_r. Qed.
Lemma configured_app_l new new' k v : configured new' k v -> configured (new' ++ new) k v.
Proof. apply sub_l. Qed.
Ltac fact := match goal with
  | H : configured ?n ?k ?v |- configured ?n ?k ?v => exact H
  | |- configured (_ ++ _) _ _ => first [apply configured_app_l; fact | apply configured_app; fact]
  end.
Ltac step := eapply (runs_bind [] _ (fun _ => [])); [first [apply runs_set_free; free|run]|intros ? ? ?].

Lemma runs_basics : runs configure_basics (fun _ new => Forall (fun i => configured new i.1 i.2) (basic_items o0)).
Proof.
  unfold configure_basics. do 2 step. eapply (runs_bind [] _ (fun _ => []) any); [run|intros ? ? _]. do 7 step.
  eapply (runs_bind [] _ (fun _ => []) any); [apply runs_limits|intros ? ? _].
  eapply (runs_bind [] _ (fun _ => [])).
  { apply (runs_set (str "lxc.cap.drop") (str "sys_boot")). unfold allowed, mount_key, idmap_key, rootfs_path_key, key.
    destruct (lxc2 cfg); split_and!; intros E; solve [done|vm_compute in E; discriminate E]. }
  intros ? ? ?. eapply (runs_bind [] _ (fun _ => []) any); [run|intros ? ? _].
  eapply (runs_bind [] _ (fun _ => []) any); [run|intros ? ? _]. apply runs_self. intros o Ho.
  destruct (settings_fields o Ho) as (_ & -> & _).
  eapply runs_mono.
  { apply (runs_set rootfs_path_key (rootfs_path o0)). unfold allowed, mount_key, idmap_key, rootfs_path_key, key.
    destruct (lxc2 cfg); split_and!; intros E; solve [done|vm_compute in E; discriminate E]. }
  intros ? ? _ _ ?. cbn beta in *. unfold basic_items. repeat (apply Forall_cons; split); try apply Forall_nil; try done; cbn [fst snd]; fact.
Qed.

Lemma runs_all_regular l : runs (all_regular l) any.
Proof. induction l as [|p l IH]; cbn [all_regular]; unfold and_then; [run|]. run. exact IH. Qed.
Lemma runs_libraries : runs install_compatibility_libraries any.
Proof.
  unfold install_compatibility_libraries. eapply (runs_then [] _ (fun _ => [])); [apply runs_all_regular|intros ok].
  run. unfold install_compatibility_library. run.
Qed.
Lemma runs_properties modern rootfs : runs (added_properties modern rootfs) any.
Proof. unfold added_properties. run. Qed.
Lemma runs_add_loops l : runs (add_loops l) any.
Proof. induction l as [|id l IH]; cbn [add_loops]; [run|]. run. exact IH. Qed.
Lemma runs_wait n path : runs (wait_for n path) any.
Proof. induction n as [|n IH]; cbn [wait_for]; [run|]. run. exact IH. Qed.
Lemma runs_loops modern : runs (allocate_apex_loops modern) any.
Proof.
  unfold allocate_apex_loops. run; [apply runs_add_loops|]. unfold wait_for_loop. run. apply runs_wait.
Qed.
Lemma runs_init rootfs : runs (configure_init rootfs) any.
Proof. unfold configure_init. run. Qed.
Lemma runs_logs : runs configure_logs any.
Proof. unfold configure_logs. run. Qed.
Lemma network_file_returns o : match network_file o with Ret _ => True | Throw e => e = OutOfRange | _ => False end.
Proof.
  unfold network_file. rewrite ip_config_write_put by (unfold wf; cbn; lia). unfold put. by destruct (_ <? _)%nat.
Qed.
Lemma runs_network : runs setup_network any.
Proof.
  unfold setup_network. eapply (runs_then [] _ (fun _ => [])); [run|intros b]. run.
  pose proof (network_file_returns o) as Hn. destruct (network_file o); [|done..].
  run. unfold own_directory. run.
Qed.
Lemma runs_isolation : runs configure_isolation (fun _ new => Forall (fun i => configured new i.1 i.2) (isolation_items o0)).
Proof.
  unfold configure_isolation. eapply (runs_bind [] _ (fun _ => [])); [apply runs_set_free; free|intros ? n1 H1].
  apply runs_self. intros o Ho. destruct (settings_fields o Ho) as (-> & _ & _ & _ & Hc). unfold isolation_items.
  destruct (privileged_ o0) eqn:Ep; cbn [negb when].
  { apply (runs_ret tt (fun _ => [])). by repeat constructor. }
  unfold setup_id_map. apply runs_self. intros o' Ho'. destruct (settings_fields o' Ho') as (_ & _ & _ & _ & Hc').
  rewrite Hc'. eapply runs_mono.
  { apply (runs_for_each _ _ (fun v new => configured new idmap_key v)); [intros v; apply steady_elem|].
    intros v Hv. apply runs_set. unfold allowed, mount_key, idmap_key, rootfs_path_key, key.
    destruct (lxc2 cfg); split_and!; intros E; solve [done|vm_compute in E; discriminate E]. }
  intros ? new' _ _ H. cbn beta in *. apply Forall_cons. split; [by apply configured_app|].
  apply Forall_fmap, Forall_forall. intros v Hv. cbn. by apply configured_app_l, H.
Qed.

(** The entries of a table stay. *)
Lemma emplace_grows {A} k (v : A) l : l ⊆ emplace k v l.
Proof. unfold emplace. destruct (existsb _ l); [done|]. intros e He. apply elem_of_app. by left. Qed.
Lemma emplace_key {A} k (v : A) l : exists w, (k, w) ∈ emplace k v l.
Proof.
  unfold emplace. destruct (existsb _ l) eqn:E.
  - apply existsb_exists in E as ([k' w] & Hin & Hk). apply bool_decide_eq_true in Hk. cbn in Hk. subst k'.
    exists w. by apply list_elem_of_In.
  - exists v. apply elem_of_app. right. by left.
Qed.
Lemma fold_emplace_grows {A B} (f : B -> bytes) (g : B -> A) ds : forall l,
  l ⊆ fold_left (fun l d => emplace (f d) (g d) l) ds l.
Proof.
  induction ds as [|d ds IH]; intros l; cbn [fold_left]; [done|]. intros e He. apply IH. by apply emplace_grows.
Qed.
Lemma emplace_all_grows {A} (ds l : list (bytes * A)) : l ⊆ emplace_all ds l.
Proof. apply (fold_emplace_grows fst snd). Qed.
Lemma emplace_all_keys {A} (ds l : list (bytes * A)) k v : (k, v) ∈ ds -> exists w, (k, w) ∈ emplace_all ds l.
Proof.
  revert l. induction ds as [|[k' v'] ds IH]; intros l H; [by apply elem_of_nil in H|]. cbn [emplace_all fold_left].
  apply elem_of_cons in H as [[= <- <-]|H]; [|by apply IH].
  destruct (emplace_key k v l) as [w Hw]. exists w. by apply (emplace_all_grows ds).
Qed.

Ltac skip := eapply (runs_bind [] _ (fun _ => []) any); [run|intros ? ? _].
Lemma runs_label source target dir sig l : runs (label_services source target dir sig l) (fun l' _ => l ⊆ l').
Proof.
  unfold label_services. skip. destruct (negb _); [by apply (runs_ret l (fun _ => []))|].
  apply runs_look. intros [files|] _; [|apply runs_throw].
  eapply (runs_bind [] _ (fun _ => []) any); [unfold read_signature_init; run|intros ? ? _].
  skip. eapply (runs_bind [] _ (fun _ => []) any); [unfold install_init_file; run; apply runs_write_checked|intros ? ? _].
  apply (runs_ret _ (fun _ => [])). apply (fold_emplace_grows (fun f => join dir (relative f)) (fun f => join target (relative f))).
Qed.
Lemma runs_secure path ty : runs (is_secure_root_owned_path path ty) any.
Proof. unfold is_secure_root_owned_path. run. Qed.
Lemma runs_and_then a b : runs a any -> runs b any -> runs (and_then a b) any.
Proof. intros Ha Hb. unfold and_then. eapply (runs_then [] _ (fun _ => [])); [done|intros [|]]; [done|run]. Qed.
Lemma runs_overlay : runs selected_signature_spoof_overlay any.
Proof.
  unfold selected_signature_spoof_overlay. run; [apply runs_secure|].
  repeat apply runs_and_then; apply runs_secure.
Qed.
Lemma runs_hook : runs install_mount_hook any.
Proof.
  unfold install_mount_hook. run. unfold add_private_loop_setting. destruct x0 as [id [name value]].
  eapply (runs_then [] _ (fun _ => [])); [apply runs_write_checked|intros ?]. run.
Qed.
Lemma runs_metadata o : runs (prepare_metadata o) any.
Proof. unfold prepare_metadata. run. Qed.
Ltac grows := intros ? ?; repeat match goal with
  | H : ?x ∈ ?l |- ?x ∈ ?l => exact H
  | |- _ ∈ emplace _ _ _ => apply emplace_grows
  | H : ?l ⊆ ?l' |- _ ∈ ?l' => apply H
  | |- _ ∈ (if ?b then _ else _) => destruct b
  end.
Lemma runs_modern o l : runs (modern_mounts o l) (fun l' _ => l ⊆ l').
Proof.
  unfold modern_mounts. eapply (runs_bind [] _ (fun _ => []) any); [apply runs_overlay|intros spoof ? _].
  skip. destruct (negb _); [apply runs_throw|]. do 3 skip.
  eapply (runs_bind [] _ (fun _ => [])
    (fun l' _ => emplace (join (rootfs_path o) (str "system/bin/vold_prepare_subdirs")) (str "/system/bin/vold_prepare_subdirs.anbox-real")
       (emplace (str "/usr/local/bin/vold_prepare_subdirs_anbox") (str "/system/bin/vold_prepare_subdirs") l) ⊆ l')).
  { destruct spoof as [v|]; [skip|]; apply (runs_ret _ (fun _ => [])); grows. }
  intros l1 ? H1. eapply (runs_bind [] _ (fun _ => []) any); [apply runs_metadata|intros ? ? _].
  do 3 skip. do 2 (eapply (runs_bind [] _ (fun _ => []) any); [apply runs_write_checked|intros ? ? _]).
  eapply (runs_bind [] _ (fun _ => [])); [apply runs_label|intros l2 ? H2]. do 2 skip.
  eapply (runs_bind [] _ (fun _ => [])); [apply runs_label|intros l3 ? H3].
  eapply (runs_bind [] _ (fun _ => []) any); [apply runs_hook|intros ? ? _].
  apply (runs_ret _ (fun _ => [])). cbn beta in *. intros e He. apply H3, H2. repeat apply emplace_grows. apply H1.
  by repeat apply emplace_grows.
Qed.

(** ** Binder devices *)

Lemma runs_ctl_add ex name : runs_with ex (ctl_add name)
  (fun a => match a with BinderAdded => binder_node name :: ex | _ => ex end) any.
Proof.
  intros w Ha Hs. unfold ctl_add. set (a := add_binder sys (trace w) name). eexists [_]. cbn [fst snd trace log object].
  split_and!; [done|done|by repeat constructor| |by repeat constructor|done].
  intros name'. cbn [trace log object]. rewrite elem_of_cons. intros [Hn|Hn].
  - destruct a; [|done..]. left. injection Hn as ->. by left.
  - destruct (Ha name' Hn) as [H|[H|[b H]]]; [left|right; left; by right|right; right; exists b; by right].
    destruct a; [cbn [app]; by right|exact H|exact H].
Qed.
Lemma runs_node_exists ex name : runs_with (binder_node name :: ex) (asks (Exists (binder_node name)))
  (fun b => if b then binder_node name :: ex else ex) any.
Proof.
  intros w Ha Hs. unfold asks. set (b := ask sys (trace w) _). eexists [_]. cbn [fst snd trace log object].
  split_and!; [done|done|by repeat constructor| |by repeat constructor|done].
  intros name'. cbn [trace log object]. rewrite elem_of_cons. intros [Hn|Hn]; [done|].
  destruct (Ha name' Hn) as [H|[H|[b' H]]]; [|right; left; by right|right; right; exists b'; by right].
  destruct b; [by left|]. cbn [app] in H. apply elem_of_cons in H as [H|H]; [|by left].
  right; left. rewrite H. by left.
Qed.
Abbreviation with_device ex d := (from_option (fun p => p :: ex) ex d).
Lemma runs_take_id ex : runs_with ex take_id (fun _ => ex) any.
Proof. intros w Ha Hs. by exists []. Qed.
Lemma runs_allocate n : forall ex, runs_with ex (allocate_binder n) (fun d => with_device ex d) any.
Proof.
  induction n as [|n IH]; intros ex; cbn [allocate_binder]; [by apply (runs_ret None (fun d => with_device ex d))|].
  eapply (runs_then ex _ (fun _ => ex)); [apply runs_take_id|intros id]. set (name := str "binder" ++ print_u 10 id).
  destruct (max_name <? length name)%nat; [by apply (runs_ret None (fun d => with_device ex d))|].
  eapply runs_then; [apply runs_ctl_add|]. intros [| |]; [|apply IH|by apply (runs_ret None (fun d => with_device ex d))].
  eapply runs_then; [apply runs_node_exists|]. intros [|]; cbn [negb]; [|by apply (runs_ret None (fun d => with_device ex d))].
  eapply (runs_then _ _ (fun _ => binder_node name :: ex)); [eapply runs_mono; [by apply runs_ignore|done]|].
  intros _. by apply (runs_ret (Some (binder_node name)) (fun d => with_device ex d)).
Qed.
Lemma runs_new_device ex : runs_with ex new_device (fun d => with_device ex d) any.
Proof.
  unfold new_device. eapply (runs_then ex _ (fun _ => ex)); [eapply runs_mono; [by apply runs_attempt|done]|].
  intros [|]; [|by apply (runs_ret None (fun d => with_device ex d))].
  eapply runs_then; [apply runs_allocate|]. intros d.
  eapply (runs_then _ _ (fun _ => with_device ex d)); [eapply runs_mono; [by apply runs_ignore|done]|].
  intros _. by apply (runs_ret d (fun d => with_device ex d)).
Qed.
Lemma runs_create n : forall ex, runs_with ex (create_binder_devices n) (fun r => r.1 ++ ex) any.
Proof.
  induction n as [|n IH]; intros ex; cbn [create_binder_devices]; [by apply (runs_ret ([], true) (fun r => r.1 ++ ex))|].
  eapply runs_then; [apply runs_new_device|]. intros [d|]; [|by apply (runs_ret ([], false) (fun r => r.1 ++ ex))].
  eapply runs_then; [apply IH|]. intros r. cbn [from_option].
  apply runs_ret_sub; [|done]. cbn. intros p. rewrite elem_of_cons, !elem_of_app, elem_of_cons. tauto.
Qed.
Lemma runs_release_each l : runs_with l (for_each release_binder l) (fun _ => []) any.
Proof.
  induction l as [|p l IH]; cbn [for_each]; [by apply (runs_ret tt (fun _ => []))|].
  eapply (runs_then _ _ (fun _ => l)); [|intros _; exact IH].
  intros w Ha Hs. unfold release_binder, ignore, attempt, mbind, M_bind. cbn [fst snd].
  eexists [_]. cbn [mret M_ret fst snd trace log object].
  split_and!; [done|done|by repeat constructor| |by repeat constructor|done].
  intros name. cbn [trace log object]. rewrite elem_of_cons. intros [Hn|Hn]; [done|].
  destruct (Ha name Hn) as [H|[H|[b' H]]]; [|right; left; by right|right; right; exists b'; by right].
  cbn [app] in H. apply elem_of_cons in H as [<-|H]; [|by left]. right; right. eexists. by left.
Qed.
Lemma runs_keep l : runs_with l (keep_binders l) (fun _ => []) any.
Proof.
  intros w Ha Hs.
  apply (runs_release_each (binder_devices_ (object w)) (World (with_binders l (object w)) (next_id w) (trace w))); [|done].
  intros name Hn. destruct (Ha name Hn) as [H|H]; [left|by right]. cbn [object with_binders binder_devices_].
  rewrite elem_of_app in *. tauto.
Qed.
Lemma runs_setup_binders l ds : runs (setup_binders l ds) (fun r _ => l ⊆ r.1 /\ ds ⊆ r.2).
Proof.
  unfold setup_binders, is_supported. skip. destruct x.
  - eapply (runs_bind [] _ (fun r => r.1 ++ []) any); [apply runs_create|]. intros r n0 _.
    assert (forall k, runs_with (r.1 ++ []) (for_each release_binder r.1;; throw RuntimeError) (fun _ => [])
      (fun (y : list (bytes * bytes) * list (bytes * (Z * bytes))) n1 => k y n1)) as Hfail.
    { intros k. eapply (runs_bind _ _ (fun _ => []) any); [rewrite app_nil_r; apply runs_release_each|].
      intros ? ? _. apply runs_throw. }
    destruct r as [[|a [|b [|c [|d r]]]] [|]]; try apply Hfail. cbn [fst app].
    eapply (runs_bind _ _ (fun _ => []) any); [apply runs_keep|]. intros ? ? _. apply (runs_ret _ (fun _ => [])).
    split; cbn [fst snd]; [grows|done].
  - do 2 skip. apply (runs_ret _ (fun _ => [])). split; cbn [fst snd]; [done|]. grows.
Qed.

(** ** Sockets, mounts, devices and properties *)

Lemma runs_sockets modern o : runs (prepare_sockets modern o) any.
Proof. unfold prepare_sockets, clear_directory. run. unfold add_socket_alias. run. Qed.
Lemma runs_sysctl o s : runs (add_private_sysctl o s) any.
Proof. unfold add_private_sysctl. eapply (runs_then [] _ (fun _ => [])); [apply runs_write_checked|intros ?]. run. Qed.

Lemma steady_mounted m : steady (mounted o0 m).
Proof. intros new new' Hs [kind H]. exists kind. by apply Hs. Qed.
Lemma runs_mount modern m : runs (add_mount modern (rootfs_path o0) m) (fun _ new => mounted o0 m new).
Proof.
  unfold add_mount. skip.
  eapply (runs_bind [] _ (fun _ => [])); [apply runs_set_mount; right; left; by do 3 eexists|]. intros ? n1 H1.
  assert (forall b : unit, runs (mret b) (fun _ n2 => mounted o0 m ((n2 ++ n1) ++ new))) as Hret.
  { intros b. apply (runs_ret b (fun _ => [])). eexists. apply configured_app_l, configured_app. exact H1. }
  destruct (modern && _); cbn [when]; [|apply Hret].
  eapply runs_mono; [apply runs_set_mount; right; left|].
  - exists m.1, (str "/dev/goldfish_pipe_dprctd"), (str "file"). done.
  - intros ? n2 _ _ _. eexists. apply configured_app_l, configured_app. exact H1.
Qed.

Lemma steady_made d : steady (device_made o0 d).
Proof.
  intros new new' Hs. destruct d as [device [permission old]]. unfold device_made, configured. intros (t & st & H & H1 & H2 & H3 & H4).
  exists t, st. split_and!; auto.
Qed.
Lemma runs_device d : runs (add_device d) (fun _ new => device_made o0 d new).
Proof.
  destruct d as [device [permission old]]. unfold add_device. apply runs_look. intros [st|] [t Ht]; [|apply runs_throw].
  eapply (runs_bind [] _ (fun _ => [])); [by apply runs_must|intros ? n1 H1]. apply runs_self. intros o Ho.
  destruct (settings_fields o Ho) as (_ & _ & -> & _).
  eapply (runs_bind [] _ (fun _ => [])); [by apply runs_must|intros ? n2 H2].
  eapply (runs_bind [] _ (fun _ => [])); [by apply runs_must|intros ? n3 H3].
  eapply runs_mono; [apply runs_set_mount; left; by eexists|]. intros ? n4 _ _ H4. cbn beta in *.
  exists t, st. unfold configured in *. rewrite !elem_of_app. split_and!; [done|tauto..].
Qed.

Context (iterate_permutation : forall A (l : list (bytes * A)), iterate sys l ≡ₚ l).
Definition standard (l : list (bytes * (Z * bytes))) : Prop := forall n, n ∈ base_devices -> exists spec, (n, spec) ∈ l.
Lemma additional_grows loops ashmem ds : ds ⊆ additional_devices loops ashmem ds.
Proof.
  unfold additional_devices. intros e He.
  assert (forall b : bool, forall (f : list (bytes * (Z * bytes)) -> list (bytes * (Z * bytes))) l,
    (forall l, l ⊆ f l) -> e ∈ l -> e ∈ (if b then f l else l)) as Hif by (intros [|] f l Hf Hl; [by apply Hf|done]).
  apply (Hif ashmem (fun l => emplace (str "/dev/ashmem") (438, []) l)); [intros; apply emplace_grows|].
  apply emplace_grows, emplace_all_grows.
  apply (Hif loops (fun l => emplace loop_control (384, []) (emplace_all ((fun id => (loop_path id, (384, []))) <$> apex_loops) l))).
  - intros l x Hx. by apply emplace_grows, emplace_all_grows.
  - by apply emplace_all_grows.
Qed.
Lemma additional_standard loops ashmem ds : standard (additional_devices loops ashmem ds).
Proof.
  intros n Hn. unfold additional_devices.
  set (d1 := emplace_all (device_table _) ds). set (d2 := if loops then _ else d1).
  set (d3 := emplace_all (device_table _) d2). set (d4 := emplace _ _ d3).
  assert (d4 ⊆ (if ashmem then emplace (str "/dev/ashmem") (438, []) d4 else d4)) as H4
    by (destruct ashmem; [apply emplace_grows|done]).
  assert (d1 ⊆ d2) as H2.
  { unfold d2. destruct loops; [|done]. intros e He. by apply emplace_grows, emplace_all_grows. }
  enough (exists spec, (n, spec) ∈ d4) as [spec Hs] by (exists spec; by apply H4).
  assert (forall spec, (n, spec) ∈ d1 -> exists spec, (n, spec) ∈ d4) as H1
    by (intros spec Hs; exists spec; by apply emplace_grows, emplace_all_grows, H2).
  assert (forall l v, (n, v) ∈ device_table l -> (exists spec, (n, spec) ∈ emplace_all (device_table l) ds) /\
    (exists spec, (n, spec) ∈ emplace_all (device_table l) d2)) as Hkeys by (intros l v Hv; split; by eapply emplace_all_keys).
  assert (forall l v, d1 = emplace_all (device_table l) ds -> (n, v) ∈ device_table l -> exists spec, (n, spec) ∈ d4) as Ha.
  { intros l v E Hv. destruct (Hkeys l v Hv) as [[spec Hs] _]. rewrite <- E in Hs. by eapply H1. }
  assert (forall l v, d3 = emplace_all (device_table l) d2 -> (n, v) ∈ device_table l -> exists spec, (n, spec) ∈ d4) as Hb.
  { intros l v E Hv. destruct (Hkeys l v Hv) as [_ [spec Hs]]. rewrite <- E in Hs. exists spec. by apply emplace_grows. }
  unfold base_devices in Hn. cbn [fmap list_fmap] in Hn. rewrite !elem_of_cons, elem_of_nil in Hn.
  destruct Hn as [->|[->|[->|[->|[->|[->|[->|[->|[->|[]]]]]]]]]];
    first [apply emplace_key
          |eapply Ha; [reflexivity|unfold device_table; cbn [fmap list_fmap fst snd]; rewrite !elem_of_cons; intuition reflexivity]
          |eapply Hb; [reflexivity|unfold device_table; cbn [fmap list_fmap fst snd]; rewrite !elem_of_cons; intuition reflexivity]].
Qed.
Definition devices_made (ds : list (bytes * (Z * bytes))) (new : list event) : Prop :=
  (forall d, d ∈ ds -> device_made o0 d new) /\
  (forall n, n ∈ base_devices -> exists spec, device_made o0 (n, spec) new).
Lemma runs_devices modern ds : runs (setup_devices modern ds) (fun _ new => devices_made ds new).
Proof.
  unfold setup_devices. eapply (runs_bind [] _ (fun _ => []) any); [run|intros loops ? _].
  eapply (runs_bind [] _ (fun _ => []) any); [run|intros ashmem ? _]. do 2 skip.
  eapply runs_mono; [apply (runs_for_each _ _ (device_made o0)); [apply steady_made|intros d _; apply runs_device]|].
  intros ? n' _ _ H. cbn beta in *.
  assert (forall d, d ∈ additional_devices loops ashmem ds -> device_made o0 d (n' ++ new2 ++ new1 ++ new0 ++ new)) as Hd.
  { intros d Hd. apply (steady_made d n'); [apply sub_l|]. apply H. by rewrite iterate_permutation. }
  rewrite <- !app_assoc. split.
  - intros d Hin. by apply Hd, additional_grows.
  - intros n Hn. destruct (additional_standard loops ashmem ds n Hn) as [spec Hs]. exists spec. by apply Hd.
Qed.

Lemma runs_first l : runs (first_existing l) (fun p _ => match p with Some p => p ∈ l | None => True end).
Proof.
  induction l as [|p l IH]; cbn [first_existing]; [by apply (runs_ret None (fun _ => []))|]. skip.
  destruct x; [apply (runs_ret _ (fun _ => [])); by left|]. eapply runs_mono; [exact IH|].
  intros [q|] ? _ _ H; [by right|done].
Qed.
Lemma runs_property_file extra : runs (setup_properties (rootfs_path o0) extra) any.
Proof.
  unfold setup_properties. destruct extra as [|e extra]; [run|].
  eapply (runs_bind [] _ (fun _ => [])); [apply runs_first|].
  intros p ? Hp. apply (runs_mono [] _ _ any); [|done]. destruct p as [p|]; [|run].
  apply list_elem_of_fmap in Hp as (f & -> & Hf). run.
  eapply runs_mono; [apply runs_set_mount|done]. right; right; left. by do 2 eexists.
Qed.
Lemma runs_bindtab gfx : runs (setup_bindtab gfx) any.
Proof.
  unfold setup_bindtab. eapply (runs_then [] _ (fun _ => [])); [apply runs_and_then; run|intros b].
  destruct (negb b); [run|]. apply runs_look. intros [text|] [t Ht]; [|run]. apply runs_each. intros line Hl. unfold add_bind.
  apply runs_when. intros Hb%andb_prop. destruct Hb as [_ Hb].
  eapply runs_mono; [apply runs_set_mount|done]. right; right; right. exists t, text. done.
Qed.

(** ** [configure] *)

Definition container_ready (c : configuration) (new : list event) : Prop :=
  Forall (fun i => configured new i.1 i.2) (basic_items o0 ++ isolation_items o0) /\
  (forall m, m ∈ bind_mounts c -> mounted o0 m new) /\ devices_made (devices c) new.
Lemma runs_configure c : runs (configure c) (fun _ => container_ready c).
Proof.
  unfold configure. eapply (runs_bind [] _ (fun _ => []) any); [apply runs_open|intros ? ? _].
  eapply (runs_bind [] _ (fun _ => [])); [apply runs_basics|intros ? nb Hb]. apply runs_self. intros o Ho.
  destruct (settings_fields o Ho) as (_ & -> & _).
  eapply (runs_bind [] _ (fun _ => []) any); [unfold modern_image; run|intros modern ? _].
  eapply (runs_bind [] _ (fun _ => []) any); [apply runs_when; intros _; apply runs_libraries|intros ? ? _].
  eapply (runs_bind [] _ (fun _ => []) any); [apply runs_properties|intros more ? _].
  eapply (runs_bind [] _ (fun _ => []) any); [apply runs_loops|intros ? ? _].
  eapply (runs_bind [] _ (fun _ => []) any); [apply runs_init|intros ? ? _].
  eapply (runs_bind [] _ (fun _ => []) any); [apply runs_logs|intros ? ? _].
  eapply (runs_bind [] _ (fun _ => []) any); [apply runs_network|intros ? ? _].
  eapply (runs_bind [] _ (fun _ => [])); [apply runs_isolation|intros ? ni Hi].
  eapply (runs_bind [] _ (fun _ => []) (fun l _ => bind_mounts c ⊆ l)).
  { destruct modern; [apply runs_modern|by apply (runs_ret _ (fun _ => []))]. }
  intros l ? Hl. eapply (runs_bind [] _ (fun _ => []) any); [apply runs_sockets|intros ? ? _].
  eapply (runs_bind [] _ (fun _ => []) any); [apply runs_each; intros ? _; apply runs_sysctl|intros ? ? _].
  eapply (runs_bind [] _ (fun _ => [])); [apply runs_setup_binders|intros b ? [Hb1 Hb2]].
  eapply (runs_bind [] _ (fun _ => [])).
  { apply (runs_for_each _ _ (mounted o0)); [apply steady_mounted|intros m _; apply runs_mount]. }
  intros ? nm Hm. eapply (runs_bind [] _ (fun _ => [])); [apply runs_devices|intros ? nd Hd].
  eapply (runs_bind [] _ (fun _ => []) any); [apply runs_property_file|intros ? ? _].
  eapply runs_mono; [apply runs_bindtab|]. intros ? ? _ _ _. cbn beta.
  set (all := (_ ++ _) : list event).
  assert (nb ⊆ all /\ ni ⊆ all /\ nm ⊆ all /\ nd ⊆ all) as (Snb & Sni & Snm & Snd).
  { unfold all. split_and!; intros e He; rewrite !elem_of_app; tauto. }
  split_and!.
  - apply Forall_app. split; eapply Forall_impl; [exact Hb| |exact Hi|]; intros i Hc; [by apply Snb|by apply Sni].
  - intros m Hin. apply (steady_mounted m nm); [done|]. apply Hm. rewrite iterate_permutation.
    apply Hb1, emplace_all_grows, emplace_grows, Hl, Hin.
  - destruct Hd as [Hd1 Hd2]. split.
    + intros d Hin. apply (steady_made d nd); [done|]. by apply Hd1, Hb2.
    + intros n Hn. destruct (Hd2 n Hn) as [spec Hs]. exists spec. by apply (steady_made _ nd).
Qed.
End runs.
End container.
