(* ===== verification/Container.v ===== *)
(** What [LxcContainer] guarantees (the model is Lxc.v): a start that is all or
    nothing, the life of a container over any sequence of requests, the ids it
    is given, and what the code gets wrong. *)

From S2P Require Import Prelude BinaryWriter Memory InitRc Lxc.

Local Open Scope Z_scope.

(** * Theorem: starting *)

Lemma start_configure sys cfg o c : (forall A (l : list (bytes * A)), iterate sys l ≡ₚ l) ->
  runs_with sys cfg o [] (prepare sys cfg c) (fun _ => [])
    (fun _ new => container_ready sys cfg o c new /\ Asked IsRoot true ∈ new).
Proof.
  intros Hi. unfold prepare. eapply (runs_bind sys cfg o [] _ (fun _ => [])); [apply runs_asks|]. intros b new ->.
  destruct b; cbn [negb]; [|apply runs_throw].
  eapply (runs_bind sys cfg o [] _ (fun _ => []) any); [apply runs_migrate|intros ? n1 _].
  eapply runs_mono; [by apply runs_configure|]. intros ? n2 _ _ (H1 & H2 & H3 & H4). cbn beta in *.
  split; [|rewrite !elem_of_app; right; by left].
  assert (n2 ⊆ (n2 ++ n1) ++ [Asked IsRoot true]) as Hs by (intros e He; rewrite !elem_of_app; tauto).
  split_and!.
  - eapply Forall_impl; [exact H1|]. intros i Hc. by apply Hs.
  - intros m Hm. apply (steady_mounted cfg o m n2 _ Hs). by apply H2.
  - split; [intros d Hd; apply (steady_made sys cfg o d n2 _ Hs); by apply H3|].
    intros n Hn. destruct (H4 n Hn) as [spec Hm]. exists spec. by apply (steady_made sys cfg o _ n2 _ Hs).
Qed.

(** The end of [start]. *)
Definition finish (sys : system) : M world unit :=
  must sys RuntimeError SaveConfig;; must sys RuntimeError StartContainer;; update (with_state running).
Lemma finish_spec sys w : let r := finish sys w in
  (r.2 = Ret tt /\ trace r.1 = Did StartContainer true :: Did SaveConfig true :: trace w /\
     object r.1 = with_state running (object w)) \/
  (r.2 = Throw RuntimeError /\ object r.1 = object w /\
     (trace r.1 = Did SaveConfig false :: trace w \/
      trace r.1 = Did StartContainer false :: Did SaveConfig true :: trace w)).
Proof.
  unfold finish, must, attempt, mbind, M_bind. cbn [fst snd].
  destruct (act sys (trace w) SaveConfig); cbn [fst snd mret M_ret throw lift log trace object]; [|right; split_and!; [done..|by left]].
  destruct (act sys _ StartContainer); cbn; [by left|right; split_and!; [done..|by right]].
Qed.
Lemma accounted_new new w w' : Forall (fun e => forall name, e <> Did (AddBinder name) true) new ->
  trace w' = new ++ trace w -> binder_devices_ (object w') = binder_devices_ (object w) -> accounted [] w -> accounted [] w'.
Proof.
  intros Hn Ht Hb Ha name Hin. rewrite Ht in *. rewrite Hb. apply elem_of_app in Hin as [Hin|Hin].
  { rewrite Forall_forall in Hn. by destruct (Hn _ Hin name). }
  destruct (Ha name Hin) as [H|[H|[b H]]]; [by left|right; left; apply elem_of_app; by right|].
  right; right. exists b. apply elem_of_app. by right.
Qed.

Lemma settings_with_state x a b : settings a = settings b -> settings (with_state x a) = settings (with_state x b).
Proof. unfold settings. intros [= H1 H2 H3 H4 H5 H6 H7 H8]. cbn. congruence. Qed.
Lemma not_started sys cfg o before new0 : Forall (allowed sys cfg o) before ->
  Forall (fun e => Did StartContainer true <> e) new0 -> Did StartContainer true ∉ new0 ++ before.
Proof.
  intros Hal Hn Hin. apply elem_of_app in Hin as [Hin|Hin]; [by eapply (proj1 (Forall_forall _ _) Hn)|].
  exact (proj1 (Forall_forall _ _) Hal _ Hin).
Qed.
Lemma root_refused sys cfg c w before : trace (prepare sys cfg c w).1 = before ++ trace w ->
  ask sys (trace w) IsRoot = false -> before = [Asked IsRoot false] /\ exists e, (prepare sys cfg c w).2 = Throw e.
Proof.
  intros Ht E. revert Ht. unfold prepare, asks, mbind, M_bind. cbn [fst snd]. rewrite E. cbn [negb fst trace throw lift log].
  intros Ht. split; [|by eexists]. apply (app_inv_tail (trace w)). by symmetry.
Qed.

Lemma start_outcome sys cfg c w :
  (forall A (l : list (bytes * A)), iterate sys l ≡ₚ l) -> accounted [] w ->
  let o := with_restore (input_directories sys c) (object w) in
  let r := start sys cfg c w in
  accounted [] r.1 /\ exists new : list event, trace r.1 = new ++ trace w /\
  match r.2 with
  | Ret _ => exists before, new = Did StartContainer true :: Did SaveConfig true :: before /\
      Forall (allowed sys cfg o) before /\ Forall accepted before /\ container_ready sys cfg o c before /\
      Asked IsRoot true ∈ before /\ settings (object r.1) = settings (with_state running o)
  | Throw _ => settings (object r.1) = settings o /\ Did StartContainer true ∉ new /\
      (ask sys (trace w) IsRoot = false -> new = [Asked IsRoot false])
  | _ => False
  end.
Proof.
  intros Hi Ha o r. set (w1 := World o (next_id w) (trace w)).
  assert (accounted [] w1) as Ha1 by exact Ha.
  destruct (start_configure sys cfg o c Hi w1 Ha1 eq_refl) as (before & Ht & Hs & Hal & Hr).
  assert (r = match prepare sys cfg c w1 with
    | (w2, Ret _) => finish sys w2 | (w2, Throw e) => (w2, Throw e) | (w2, Aborted) => (w2, Aborted) | (w2, Undef) => (w2, Undef) end)
    as -> by done.
  pose proof (root_refused sys cfg c w1 before Ht) as Hroot. change (trace w1) with (trace w) in *.
  destruct (prepare sys cfg c w1) as [w2 [u|e| |]]; cbn [fst snd] in *; [|clear Ha1|done..].
  - destruct Hr as (Ha2 & Hac & Hrdy & Hroot').
    assert (ask sys (trace w) IsRoot = true) as Eroot by (destruct (ask sys (trace w) IsRoot); [done|by destruct (Hroot eq_refl) as [_ [? ?]]]).
    destruct (finish_spec sys w2) as [(-> & Htr & Hob)|(-> & Hob & Htr)]; rewrite Hob.
    + split; [eapply (accounted_new [_; _]); [|exact Htr|by rewrite Hob|done]; by repeat constructor|].
      exists (Did StartContainer true :: Did SaveConfig true :: before). rewrite Htr, Ht. split; [done|]. exists before. split_and!; try done.
      by apply settings_with_state.
    + destruct Htr as [Htr|Htr].
      * split; [eapply (accounted_new [_]); [|exact Htr|by rewrite Hob|done]; by repeat constructor|].
        exists (Did SaveConfig false :: before). rewrite Htr, Ht. split_and!; [done|done| |by rewrite Eroot].
        apply (not_started sys cfg o before [_] Hal). by repeat constructor.
      * split; [eapply (accounted_new [_; _]); [|exact Htr|by rewrite Hob|done]; by repeat constructor|].
        exists (Did StartContainer false :: Did SaveConfig true :: before). rewrite Htr, Ht. split_and!; [done|done| |by rewrite Eroot].
        apply (not_started sys cfg o before [_; _] Hal). by repeat constructor.
  - split; [done|]. exists before. split_and!; [done|done| |intros E; by apply Hroot].
    by apply (not_started sys cfg o before [] Hal).
Qed.

(** C11: The container is started last, or not at all. Whatever the system
    answers and when, a start either throws, with the state as it was and the
    container not started by it; or liblxc has accepted every item and saved
    them before it started, every step that can fail has succeeded, and then
    the container has: its root file system, the capability dropped, for an
    unprivileged container the id map and nothing else of that kind; every
    directory it was configured with, mounted below the root file system;
    every device, with the type of the host's, its own permissions, an owner
    shifted into the container, and the entry that binds it. Nothing else is
    mounted but the property file and the lines of the table. A user who is
    not root changes nothing. *)
Theorem container_start sys cfg c w :
  (forall A (l : list (bytes * A)), iterate sys l ≡ₚ l) -> accounted [] w ->
  let o := with_restore (input_directories sys c) (object w) in
  let r := start sys cfg c w in
  accounted [] r.1 /\ exists new : list event, trace r.1 = new ++ trace w /\
  match r.2 with
  | Ret _ => exists before, new = Did StartContainer true :: Did SaveConfig true :: before /\
      Forall (allowed sys cfg o) before /\ Forall accepted before /\ container_ready sys cfg o c before /\
      Asked IsRoot true ∈ before /\ settings (object r.1) = settings (with_state running o)
  | Throw _ => settings (object r.1) = settings o /\ Did StartContainer true ∉ new /\
      (ask sys (trace w) IsRoot = false -> new = [Asked IsRoot false])
  | _ => False
  end.
Proof. apply start_outcome. Qed.

(** * Theorem: the life of a container *)

(** What liblxc was last told: the newest event comes first. *)
Fixpoint is_started (t : list event) : bool :=
  match t with
  | Did StartContainer true :: _ => true
  | Did StopContainer true :: _ => false
  | _ :: t' => is_started t'
  | [] => false
  end.

Lemma for_each_ignored {A} sys (f : A -> op) (l : list A) : forall w, exists new,
  for_each (fun x => ignore sys (f x)) l w = (World (object w) (next_id w) (new ++ trace w), Ret tt) /\
  Forall (fun e => exists x b, x ∈ l /\ e = Did (f x) b) new /\ (forall x, x ∈ l -> exists b, Did (f x) b ∈ new).
Proof.
  induction l as [|x l IH]; intros w.
  { exists []. split_and!; [by destruct w|constructor|]. intros x Hx. by apply elem_of_nil in Hx. }
  set (b := act sys (trace w) (f x)). destruct (IH (log (Did (f x) b) w)) as (new & E & Hf & Hx).
  exists (new ++ [Did (f x) b]). split_and!.
  - change (for_each (fun y => ignore sys (f y)) (x :: l) w) with (for_each (fun y => ignore sys (f y)) l (log (Did (f x) b) w)).
    rewrite E. by rewrite <- app_assoc.
  - apply Forall_app. split; [|constructor; [|constructor]; exists x, b; split; [by left|done]].
    eapply Forall_impl; [exact Hf|]. intros e (y & b' & Hy & ->). exists y, b'. split; [by right|done].
  - intros y Hy. apply elem_of_cons in Hy as [->|Hy]; [exists b; apply elem_of_app; right; by left|].
    destruct (Hx y Hy) as [b' Hb]. exists b'. apply elem_of_app. by left.
Qed.
Definition quiet_event (e : event) : Prop :=
  match e with Did (ReleaseBinder _) _ | Did (Chmod _ _) _ | Did PutContainer _ => True | _ => False end.
Definition cleanup (sys : system) (o : lxc_container) : M world unit :=
  update (with_state inactive);; keep_binders sys [];;
  for_each (fun p => ignore sys (Chmod p 511)) (runtime_directories_to_restore_ o);; update (with_restore []).
Lemma stop_cases sys o n t : stop sys (World o n t) =
  if container_ o then
    if ask sys t IsRunning then
      if act sys (Asked IsRunning true :: t) StopContainer
      then cleanup sys o (World o n (Did StopContainer true :: Asked IsRunning true :: t))
      else (World o n (Did StopContainer false :: Asked IsRunning true :: t), Throw RuntimeError)
    else (World o n (Asked IsRunning false :: t), Ret tt)
  else (World o n t, Ret tt).
Proof.
  unfold stop, self, asks, must, attempt, cleanup, mbind, M_bind. cbn [object fst snd].
  destruct (container_ o); [|done]. cbn [trace]. destruct (ask sys t IsRunning); [|done]. cbn [negb log trace object next_id].
  by destruct (act sys _ StopContainer).
Qed.
Lemma cleanup_outcome sys o n t : exists new,
  cleanup sys o (World o n t) = (World (with_restore [] (with_binders [] (with_state inactive o))) n (new ++ t), Ret tt) /\
  Forall quiet_event new /\
  (forall p, p ∈ binder_devices_ o -> exists b, Did (ReleaseBinder p) b ∈ new) /\
  (forall p, p ∈ runtime_directories_to_restore_ o -> exists b, Did (Chmod p 511) b ∈ new).
Proof.
  destruct (for_each_ignored sys ReleaseBinder (binder_devices_ o)
    (World (with_binders [] (with_state inactive o)) n t)) as (n1 & E1 & F1 & A1).
  destruct (for_each_ignored sys (fun p => Chmod p 511) (runtime_directories_to_restore_ o)
    (World (with_binders [] (with_state inactive o)) n (n1 ++ t))) as (n2 & E2 & F2 & A2).
  exists (n2 ++ n1). split_and!.
  - unfold cleanup, keep_binders, self, update, modify, mbind, M_bind. cbn [fst snd object trace next_id].
    change (for_each (release_binder sys) (binder_devices_ (with_state inactive o)))
      with (for_each (fun p => ignore sys (ReleaseBinder p)) (binder_devices_ o)).
    rewrite E1. cbn [object next_id trace]. rewrite E2. cbn [object next_id trace]. by rewrite app_assoc.
  - apply Forall_app. split; (eapply Forall_impl; [eassumption|]); by intros e (x & b & _ & ->).
  - intros p Hp. destruct (A1 p Hp) as [b Hb]. exists b. apply elem_of_app. by right.
  - intros p Hp. destruct (A2 p Hp) as [b Hb]. exists b. apply elem_of_app. by left.
Qed.
(** Stopping: nothing where the container does not run; refused; or done, with
    the devices released and the directories given back. *)
Lemma stop_outcome sys w : let r := stop sys w in let o := object w in
  (r.2 = Ret tt /\ object r.1 = o /\ (container_ o = false /\ trace r.1 = trace w \/
     trace r.1 = Asked IsRunning false :: trace w)) \/
  (r.2 = Throw RuntimeError /\ object r.1 = o /\ trace r.1 = Did StopContainer false :: Asked IsRunning true :: trace w) \/
  (r.2 = Ret tt /\ object r.1 = with_restore [] (with_binders [] (with_state inactive o)) /\
   exists new, trace r.1 = new ++ Did StopContainer true :: Asked IsRunning true :: trace w /\ Forall quiet_event new /\
     (forall p, p ∈ binder_devices_ o -> exists b, Did (ReleaseBinder p) b ∈ new) /\
     (forall p, p ∈ runtime_directories_to_restore_ o -> exists b, Did (Chmod p 511) b ∈ new)).
Proof.
  destruct w as [o n t]. rewrite stop_cases. cbn [object trace].
  destruct (container_ o); [|left; split_and!; [done..|by left]].
  destruct (ask sys t IsRunning); [|left; split_and!; [done..|by right]].
  destruct (act sys _ StopContainer); [|right; left; by split_and!].
  destruct (cleanup_outcome sys o n (Did StopContainer true :: Asked IsRunning true :: t)) as (new & -> & H).
  right; right. split_and!; [done..|]. by exists new.
Qed.

Definition consistent (w : world) : Prop :=
  accounted [] w /\ (state_ (object w) = running -> is_started (trace w) = true).
Lemma stop_accounted sys w : accounted [] w -> accounted [] (stop sys w).1.
Proof.
  intros Ha. destruct (stop_outcome sys w) as [(_ & Ho & Ht)|[(_ & Ho & Ht)|(_ & Ho & new & Ht & Hq & Hr & _)]].
  - destruct Ht as [[_ Ht]|Ht]; [eapply (accounted_new [])|eapply (accounted_new [_])]; try exact Ht; try done; try (by rewrite Ho); by repeat constructor.
  - eapply (accounted_new [_; _]); [|exact Ht|by rewrite Ho|done]. by repeat constructor.
  - intros name Hn. rewrite Ht in *. rewrite elem_of_app, !elem_of_cons in Hn.
    destruct Hn as [Hn|[Hn|[Hn|Hn]]]; [by destruct (proj1 (Forall_forall _ _) Hq _ Hn)|done|done|].
    destruct (Ha name Hn) as [H|[H|[b H]]]; right.
    + right. destruct (Hr _ H) as [b Hb]. exists b. apply elem_of_app. by left.
    + left. rewrite elem_of_app, !elem_of_cons. tauto.
    + right. exists b. rewrite elem_of_app, !elem_of_cons. tauto.
Qed.
Lemma stop_consistent sys w : consistent w -> consistent (stop sys w).1 /\
  ((stop sys w).2 = Ret tt \/ (stop sys w).2 = Throw RuntimeError).
Proof.
  intros [Ha Hs]. split; [split; [by apply stop_accounted|]|];
    destruct (stop_outcome sys w) as [(Hr & Ho & Ht)|[(Hr & Ho & Ht)|(Hr & Ho & _)]]; try (by left); try (by right); rewrite Ho.
  - intros H. destruct Ht as [[_ ->]| ->]; by apply Hs.
  - intros H. rewrite Ht. by apply Hs.
  - done.
Qed.
Section lifecycle.
Context (sys : system) (cfg : build) (iterate_permutation : forall A (l : list (bytes * A)), iterate sys l ≡ₚ l).
Lemma start_consistent c w : consistent w -> state_ (object w) = inactive -> consistent (start sys cfg c w).1 /\
  match (start sys cfg c w).2 with Ret _ | Throw _ => True | _ => False end.
Proof.
  intros [Ha _] Hi. destruct (start_outcome sys cfg c w iterate_permutation Ha) as (Ha' & new & Ht & H).
  destruct (start sys cfg c w) as [w' [u|e| |]]; cbn [fst snd] in *; [| |done..]; (split; [split; [done|]|done]).
  - destruct H as (before & -> & _). intros _. by rewrite Ht.
  - destruct H as (Hs & _). unfold settings in Hs. injection Hs as Hs. cbn in Hs. congruence.
Qed.
Lemma serve_consistent r w : consistent w -> consistent (serve sys cfg r w).1 /\ exists a, (serve sys cfg r w).2 = Ret a.
Proof.
  intros Hc. destruct r as [c|]; unfold serve, start_container, stop_container, self, mbind, M_bind.
  - destruct (state_ (object w)) eqn:Es; [|by split; [|eexists]].
    destruct (start_consistent c w Hc Es) as [Hc' Hr]. unfold answer.
    destruct (start sys cfg c w) as [w' [u|e| |]]; [by split; [|eexists]..|done|done].
  - destruct (state_ (object w)) eqn:Es; [by split; [|eexists]|].
    destruct (stop_consistent sys w Hc) as [Hc' Hr]. unfold answer.
    destruct (stop sys w) as [w' [u|e| |]]; [by split; [|eexists]..|by destruct Hr|by destruct Hr].
Qed.
Lemma session_consistent l : forall w, consistent w -> consistent (session sys cfg l w).1 /\
  exists rs, (session sys cfg l w).2 = Ret rs /\ length rs = length l.
Proof.
  induction l as [|r l IH]; intros w Hc; [by split; [|exists []]|]. cbn [session]. unfold mbind, M_bind.
  destruct (serve_consistent r w Hc) as [Hc1 [a Ea]]. destruct (serve sys cfg r w) as [w1 o1]. cbn [fst snd] in *. rewrite Ea.
  destruct (IH w1 Hc1) as [Hc2 (rs & Ers & Hl)]. destruct (session sys cfg l w1) as [w2 o2]. cbn [fst snd] in *. rewrite Ers.
  split; [done|]. exists (a :: rs). split; [done|]. cbn. by rewrite Hl.
Qed.
End lifecycle.

Definition put_container (sys : system) : M world unit :=
  o ← self; when (container_ o) (ignore sys PutContainer);; update (with_container false);; keep_binders sys [].
Lemma put_outcome sys w : exists new,
  put_container sys w = (World (with_binders [] (with_container false (object w))) (next_id w) (new ++ trace w), Ret tt) /\
  Forall quiet_event new /\ (forall p, p ∈ binder_devices_ (object w) -> exists b, Did (ReleaseBinder p) b ∈ new).
Proof.
  destruct w as [o n t]. assert (forall t, exists new,
    keep_binders sys [] (World (with_container false o) n t) =
      (World (with_binders [] (with_container false o)) n (new ++ t), Ret tt) /\
    Forall quiet_event new /\ (forall p, p ∈ binder_devices_ o -> exists b, Did (ReleaseBinder p) b ∈ new)) as Hk.
  { intros t'. destruct (for_each_ignored sys ReleaseBinder (binder_devices_ o)
      (World (with_binders [] (with_container false o)) n t')) as (new & E & F & A).
    exists new. split; [exact E|]. split; [|exact A]. eapply Forall_impl; [exact F|]. by intros e (x & b & _ & ->). }
  assert (put_container sys (World o n t) = keep_binders sys [] (World (with_container false o) n
    (if container_ o then Did PutContainer (act sys t PutContainer) :: t else t))) as ->.
  { unfold put_container, self, mbind, M_bind. cbn [object]. by destruct (container_ o). }
  cbn [object next_id trace]. destruct (container_ o).
  - destruct (Hk (Did PutContainer (act sys t PutContainer) :: t)) as (new & -> & F & A).
    exists (new ++ [Did PutContainer (act sys t PutContainer)]). split; [by rewrite <- app_assoc|]. split.
    + apply Forall_app. split; [done|by repeat constructor].
    + intros p Hp. destruct (A p Hp) as [b Hb]. exists b. apply elem_of_app. by left.
  - destruct (Hk t) as (new & -> & F & A). by exists new.
Qed.
Lemma destroy_outcome sys w : accounted [] w -> let d := destroy sys w in
  match d.2 with
  | Ret _ =>
      container_ (object d.1) = false /\ binder_devices_ (object d.1) = [] /\ accounted [] d.1 /\
      exists new, trace d.1 = new ++ trace w /\
        (container_ (object w) = true -> Asked IsRunning false ∈ new \/ Did StopContainer true ∈ new)
  | Aborted => trace d.1 = Did StopContainer false :: Asked IsRunning true :: trace w
  | _ => False
  end.
Proof.
  intros Ha. pose proof (stop_accounted sys w Ha) as Ha1.
  assert (destroy sys w = match stop sys w with (w1, Throw _) => (w1, Aborted) | (w1, Ret _) => put_container sys w1 | r => r end) as -> by done.
  pose proof (stop_outcome sys w) as H. destruct (stop sys w) as [w1 r]. cbn [fst snd] in *.
  destruct (put_outcome sys w1) as (new & E & F & A).
  assert (accounted [] (put_container sys w1).1) as Ha2.
  { rewrite E. intros name Hn. cbn [fst trace object] in *. apply elem_of_app in Hn as [Hn|Hn].
    - by destruct (proj1 (Forall_forall _ _) F _ Hn).
    - destruct (Ha1 name Hn) as [Hb|[Hb|[b Hb]]]; right.
      + right. destruct (A _ Hb) as [b Hb']. exists b. apply elem_of_app. by left.
      + left. apply elem_of_app. by right.
      + right. exists b. apply elem_of_app. by right. }
  destruct H as [(-> & Ho & Ht)|[(-> & Ho & Ht)|(-> & Ho & new1 & Ht & _)]]; rewrite ?E in *; cbn [fst snd object trace] in *; [|exact Ht|].
  - split_and!; [done|done|done|]. destruct Ht as [[Hc Ht]|Ht]; rewrite Ht.
    + exists new. split; [done|]. by rewrite Hc.
    + exists (new ++ [Asked IsRunning false]). split; [by rewrite <- app_assoc|]. intros _. left. apply elem_of_app. right. by left.
  - split_and!; [done|done|done|]. rewrite Ht. exists (new ++ new1 ++ [Did StopContainer true; Asked IsRunning true]).
    split; [by rewrite <- !app_assoc|]. intros _. right. rewrite !elem_of_app, elem_of_cons. tauto.
Qed.

(** C13: The life of a container. Whatever requests come and whatever the
    system answers, each is responded to; the object says that it runs only if
    the last thing liblxc accepted was to start it; and every binder device
    that was made is held, released, or was not there. The destructor asks
    whether the container runs, stops it, and leaves no device; it ends the
    program exactly if liblxc refuses to stop. *)
Theorem container_lifecycle sys cfg l w :
  (forall A (l : list (bytes * A)), iterate sys l ≡ₚ l) ->
  state_ (object w) = inactive -> trace w = [] ->
  let r := session sys cfg l w in
  let d := destroy sys r.1 in
  (exists responses, r.2 = Ret responses /\ length responses = length l) /\
  (state_ (object r.1) = running -> is_started (trace r.1) = true) /\ accounted [] r.1 /\
  match d.2 with
  | Ret _ =>
      container_ (object d.1) = false /\ binder_devices_ (object d.1) = [] /\ accounted [] d.1 /\
      exists new, trace d.1 = new ++ trace r.1 /\
        (container_ (object r.1) = true -> Asked IsRunning false ∈ new \/ Did StopContainer true ∈ new)
  | Aborted => trace d.1 = Did StopContainer false :: Asked IsRunning true :: trace r.1
  | _ => False
  end.
Proof.
  intros Hi Hs Ht r d. assert (consistent w) as Hc.
  { split; [intros name Hn; rewrite Ht in Hn; by apply elem_of_nil in Hn|by rewrite Hs]. }
  destruct (session_consistent sys cfg Hi l w Hc) as [[Ha Hrun] Hres]. fold r in Ha, Hrun, Hres.
  split; [done|]. split; [done|]. split; [done|]. by apply destroy_outcome.
Qed.

(** * Theorem: user ids *)

(** How liblxc reads an entry: the kind, the first id in the container, the
    first on the host, and how many. *)
Definition read_id_entry (s : bytes) : option (byte * Z * Z * Z) :=
  match s with
  | kind :: s =>
      a ← stoull s; b ← stoull a.2; c ← stoull b.2;
      if is_empty c.2 then Some (kind, a.1, b.1, c.1) else None
  | [] => None
  end.
(** The host's id of an id in the container. *)
Definition host_id (entries : list (byte * Z * Z * Z)) (kind : byte) (id : Z) : option Z :=
  match List.filter (fun '(k, a, _, n) => Byte.eqb k kind && (a <=? id) && (id <? a + n)) entries with
  | (_, a, b, _) :: _ => Some (b + (id - a))
  | [] => None
  end.

Lemma stoull_space n r : 0 <= n <= UINT64_MAX -> match r with b :: _ => is_digit b = false | [] => True end ->
  stoull (x20 :: print_u 10 n ++ r) = Some (n, r).
Proof.
  intros Hn Hr. change (stoull (x20 :: print_u 10 n ++ r)) with (stoull (print_u 10 n ++ r)).
  assert (print_u 10 n = print_d n) as -> by (unfold print_d; by rewrite (proj2 (Z.ltb_ge _ _)) by lia).
  rewrite stoull_print by (done || by apply uint64_decimal). by rewrite (proj2 (Z.leb_le _ _)) by lia.
Qed.
Lemma read_id_entry_print k a b c : 0 <= a <= UINT64_MAX -> 0 <= b <= UINT64_MAX -> 0 <= c <= UINT64_MAX ->
  read_id_entry (k :: str " " ++ print_u 10 a ++ str " " ++ print_u 10 b ++ str " " ++ print_u 10 c) = Some (k, a, b, c).
Proof.
  intros Ha Hb Hc. change (str " ") with [x20]. cbn [app]. unfold read_id_entry.
  rewrite stoull_space by done. cbn [mbind option_bind fst snd]. rewrite stoull_space by done. cbn [mbind option_bind fst snd].
  rewrite <- (app_nil_r (print_u 10 c)). rewrite stoull_space by done. done.
Qed.
Definition id_ranges (uid gid : Z) : list (byte * Z * Z * Z) :=
  [(x75, 0, 100000, 999); (x67, 0, 100000, 999); (x75, 1000, uid, 1); (x67, 1000, gid, 1);
   (x75, 1001, 101001, 99000); (x67, 1001, 101001, 99000)].
Lemma read_id_map uid gid : in_u32 uid -> in_u32 gid ->
  mapM read_id_entry (get_id_map uid gid) = Some (id_ranges uid gid).
Proof.
  intros Hu Hg. unfold in_u32 in *. assert (2 ^ 32 <= UINT64_MAX) by done.
  apply mapM_Some. unfold get_id_map, id_ranges, id_entry, android_system_uid, unprivileged_uid.
  repeat constructor; (apply read_id_entry_print; unfold UINT64_MAX in *; lia).
Qed.

Lemma host_id_ranges uid gid kind id : kind = x75 \/ kind = x67 -> 0 <= id <= 100000 ->
  host_id (id_ranges uid gid) kind id =
    if id =? 999 then None
    else Some (if id =? 1000 then if Byte.eqb kind x75 then uid else gid else 100000 + id).
Proof.
  intros Hk Hid. unfold host_id, id_ranges. cbn [List.filter].
  repeat match goal with |- context [?a <=? ?b] => destruct (Z.leb_spec a b) | |- context [?a <? ?b] => destruct (Z.ltb_spec a b) end;
    try lia; destruct Hk as [-> | ->];
    match goal with |- context [Byte.eqb] => idtac end;
    repeat match goal with |- context [?a =? ?b] => destruct (Z.eqb_spec a b) end; try lia;
    cbn; f_equal; lia.
Qed.
Lemma host_id_outside uid gid kind id : id < 0 \/ 100000 < id -> host_id (id_ranges uid gid) kind id = None.
Proof.
  intros Hid. unfold host_id, id_ranges. cbn [List.filter].
  repeat match goal with |- context [?a <=? ?b] => destruct (Z.leb_spec a b) | |- context [?a <? ?b] => destruct (Z.ltb_spec a b) end;
    try lia; by destruct (Byte.eqb x75 kind), (Byte.eqb x67 kind).
Qed.

(** C30: The ids of an unprivileged container. liblxc can read every entry of
    the map, for any user: the ids 0 to 100000 except 999 are mapped, 1000 to
    the user who started the client, every other one 100000 higher. So no id
    of the container is that of a host user below 100000 but the one user's;
    two ids are never the same host user unless the user who started the client
    is himself between 100000 and 200000. A device node that is made for a
    host device of owner 0 to 100000 belongs, in the container, to the same id
    as the device on the host; those of the owners 999 and 1000 belong to no id
    of the container (unless theirs is the id of the user). *)
Theorem container_ids uid gid :
  in_u32 uid -> in_u32 gid ->
  exists entries, mapM read_id_entry (get_id_map uid gid) = Some entries /\
  forall kind who, (kind, who) ∈ [(x75, uid); (x67, gid)] ->
  (forall id, host_id entries kind id =
     if (0 <=? id) && (id <=? 100000) && negb (id =? 999)
     then Some (if id =? 1000 then who else 100000 + id) else None) /\
  (forall id h, host_id entries kind id = Some h -> h = who \/ 100000 <= h <= 200000) /\
  (~ 100000 <= who <= 200000 -> forall i j h,
     host_id entries kind i = Some h -> host_id entries kind j = Some h -> i = j) /\
  (forall owner, 0 <= owner <= 100000 ->
     let node := u32 (unprivileged_uid + owner) in
     if (owner =? 999) || (owner =? 1000) then node <> who -> forall id, host_id entries kind id <> Some node
     else host_id entries kind owner = Some node).
Proof.
  intros Hu Hg. exists (id_ranges uid gid). split; [by apply read_id_map|]. intros kind who Hk.
  assert (forall id, host_id (id_ranges uid gid) kind id =
    if (0 <=? id) && (id <=? 100000) && negb (id =? 999) then Some (if id =? 1000 then who else 100000 + id) else None) as Heq.
  { intros id. destruct (Z.leb_spec 0 id), (Z.leb_spec id 100000); cbn [andb];
      try (apply host_id_outside; lia).
    rewrite !elem_of_cons, elem_of_nil in Hk.
    rewrite host_id_ranges by (lia || naive_solver). destruct (id =? 999); cbn [negb]; [done|].
    destruct Hk as [[= -> ->]|[[= -> ->]|[]]]; done. }
  split; [exact Heq|]. split_and!.
  - intros id h. rewrite Heq. destruct (Z.leb_spec 0 id), (Z.leb_spec id 100000); cbn [andb]; try done.
    destruct (negb _); [|done]. destruct (id =? 1000); intros [= <-]; [by left|right; lia].
  - intros Hw i j h. rewrite !Heq.
    destruct (Z.leb_spec 0 i), (Z.leb_spec i 100000), (Z.leb_spec 0 j), (Z.leb_spec j 100000); cbn [andb]; try done.
    destruct (negb (i =? 999)), (negb (j =? 999)); try done.
    destruct (Z.eqb_spec i 1000), (Z.eqb_spec j 1000); intros [= Hi] [= Hj]; lia.
  - intros owner Ho. unfold u32, unprivileged_uid. rewrite Z.mod_small by lia. cbv zeta.
    destruct (Z.eqb_spec owner 999), (Z.eqb_spec owner 1000); cbn [orb].
    1-3: intros Hw id; rewrite Heq; destruct (Z.leb_spec 0 id), (Z.leb_spec id 100000); cbn [andb]; try done;
      destruct (Z.eqb_spec id 999), (Z.eqb_spec id 1000); cbn [negb]; try done; intros [= E]; lia.
    rewrite Heq, !(proj2 (Z.leb_le _ _)), !(proj2 (Z.eqb_neq _ _)) by lia. done.
Qed.

(** The network file reads back as the configuration, where it fits. *)
Lemma network_file_reads_back cfg o : encodable (network_config o) ->
  match network_file cfg o with
  | Ret content => parse_ip_config content = Some (network_config o)
  | Throw _ => (512 < length (layout (network_config o)))%nat
  | _ => False
  end.
Proof.
  intros He. unfold network_file. rewrite ip_config_write_put by (unfold wf; cbn; lia).
  unfold put, write_at, make_writer, set_byte_order. cbn [buf current byte_order_].
  rewrite take_0, length_replicate, Nat.add_0_l. destruct (Nat.ltb_spec 512 (length (layout (network_config o)))); [done|].
  unfold bytes_written. cbn [obind fst snd buf current app].
  by rewrite take_app_length, parse_layout.
Qed.

(** * Witnesses *)

Definition ends_in (p : bytes) (s : string) : bool := ends_with p (str s).
(** A system in which everything works; [modern] says that the image is one
    without /anbox-init.sh, [fails] which operations fail. *)
Definition a_system (modern : bool) (fails : op -> bool) : system := {|
  ask := fun t q => match q with
    | IsRoot | IsRegular _ => true
    | IsRunning => is_started t
    | Exists p => negb (ends_in p "anbox-init.sh" && modern) && negb (ends_in p "signature-spoof/enabled")
    | _ => false
    end;
  act := fun _ o => negb (fails o);
  add_binder := fun _ _ => BinderAdded;
  stat := fun _ _ => Some (Stat 8576 0 0 259);
  lstat := fun _ _ => None;
  read_file := fun _ _ => Some [];
  list_directory := fun _ _ => Some [];
  list_init := fun _ _ => Some [];
  memory_files := fun _ _ => Absent;
  memory_path := [];
  cgroup2 := true;
  iterate := fun _ l => l
|}.
Definition a_build : build := Build false false true (str "/var/lib/anbox").
Definition a_container : lxc_container := LxcContainer inactive false false false [] [] [] (1000, 1000) [] [].
Definition a_world : world := World a_container 0 [].
Definition a_configuration : configuration :=
  Configuration [(str "/run/anbox/input", str "/dev/input")] [(str "/dev/dri/card0", (438, []))] [].
Abbreviation nothing_fails := (fun _ => false).

Lemma container_start_witness :
  let r := start (a_system false nothing_fails) a_build a_configuration a_world in
  r.2 = Ret tt /\ head (trace r.1) = Some (Did StartContainer true) /\
  configured (trace r.1) mount_key (str "/var/lib/anbox/devices/card0 dev/dri/card0 none bind,create=file,optional 0 0").
Proof.
  destruct (container_start (a_system false nothing_fails) a_build a_configuration a_world) as (_ & new & Ht & Hr);
    [done|intros name Hn; by apply elem_of_nil in Hn|]. intros r.
  assert (r.2 = Ret tt) as E by (by vm_compute). fold r in Ht, Hr. rewrite E in Hr.
  destruct Hr as (before & Hn & _ & _ & (_ & _ & Hd & _) & _). rewrite Ht, Hn. split_and!; [done|done|].
  destruct (Hd (str "/dev/dri/card0", (438, []))) as (t & st & _ & _ & _ & _ & Hc); [by left|].
  unfold configured in *. rewrite app_nil_r. do 2 right. exact Hc.
Defined.

Lemma container_lifecycle_witness :
  let s := a_system false nothing_fails in
  let r := session s a_build [Start a_configuration; Stop; Start a_configuration; Start a_configuration] a_world in
  r.2 = Ret [Done; Done; Done; Error] /\ is_started (trace r.1) = true /\ binder_devices_ (object (destroy s r.1).1) = [].
Proof.
  intros s r. destruct (container_lifecycle s a_build [Start a_configuration; Stop; Start a_configuration; Start a_configuration] a_world)
    as (_ & Hrun & _ & Hd); [done..|]. fold r in Hrun, Hd.
  split; [by vm_compute|]. split; [apply Hrun; by vm_compute|].
  assert ((destroy s r.1).2 = Ret tt) as E by (by vm_compute). rewrite E in Hd. by destruct Hd as (_ & ? & _).
Defined.

Lemma container_ids_witness :
  (get_id_map 1000 1000 !! 0%nat = Some (str "u 0 100000 999") /\ get_id_map 1000 1000 !! 4%nat = Some (str "u 1001 101001 99000")) /\
  exists entries, mapM read_id_entry (get_id_map 1000 1000) = Some entries /\
    host_id entries x75 0 = Some 100000 /\ host_id entries x75 999 = None /\ host_id entries x67 1000 = Some 1000.
Proof.
  split; [by vm_compute|].
  destruct (container_ids 1000 1000) as (entries & He & H); [done..|]. exists entries. split; [exact He|].
  destruct (H x75 1000) as [Hu _]; [by left|]. destruct (H x67 1000) as [Hg _]; [by right; left|]. by rewrite !Hu, Hg.
Defined.

(** * Where the code does not do what it means to *)

(** A container that has ended by itself cannot be stopped or started again:
    [stop] returns before it changes the state. *)
Lemma ended_container_stuck sys cfg c w : state_ (object w) = running -> (forall t, ask sys t IsRunning = false) ->
  let s := stop_container sys w in
  s.2 = Ret Done /\ state_ (object s.1) = running /\ (start_container sys cfg c s.1).2 = Ret Error.
Proof.
  intros Hs Hr. destruct w as [o n t]. cbn [object] in Hs. unfold stop_container, self, mbind, M_bind. cbn [object]. rewrite Hs.
  unfold answer. rewrite stop_cases, Hr. unfold start_container, self, mbind, M_bind.
  destruct (container_ o); cbn [fst snd object]; by rewrite Hs.
Qed.

(** A restart stops the container first; if it then fails, the object says
    that the container runs. *)
Lemma failed_restart_runs :
  let s := a_system false (fun o => match o with SetConfig _ _ => true | _ => false end) in
  let r := start s a_build a_configuration
    (World (with_state running (with_container true a_container)) 0 [Did StartContainer true]) in
  r.2 = Throw RuntimeError /\ state_ (object r.1) = running /\ is_started (trace r.1) = false.
Proof. by vm_compute. Qed.

(** The second start of an object configures the handle of the first again:
    the lists of its configuration, such as the id map, then hold every entry
    twice. *)
Definition occurrences (e : event) (t : list event) : nat := length (List.filter (fun x => bool_decide (x = e)) t).
Lemma handle_configured_twice :
  let s := a_system false nothing_fails in
  let r := session s a_build [Start a_configuration; Stop; Start a_configuration] a_world in
  occurrences (Did NewContainer true) (trace r.1) = 1%nat /\
  occurrences (Did (SetConfig (str "lxc.idmap") (str "u 0 100000 999")) true) (trace r.1) = 2%nat.
Proof. by vm_compute. Qed.

(** The destructor calls [stop], which throws when liblxc refuses: the program
    ends. *)
Lemma destructor_ends_program sys o n t : container_ o = true -> ask sys t IsRunning = true ->
  act sys (Asked IsRunning true :: t) StopContainer = false -> (destroy sys (World o n t)).2 = Aborted.
Proof. intros Hc Ha Hs. unfold destroy. by rewrite stop_cases, Hc, Ha, Hs. Qed.

(** The mount hook is the one file whose text is not checked after it is
    written: the container starts with whatever part of it was. *)
Lemma mount_hook_unchecked :
  let hook := str "/var/lib/anbox/state/mount-apex-loop-settings.sh" in
  let s := a_system true (fun o => match o with Write p _ => bytes_eqb p hook | _ => false end) in
  let r := start s a_build a_configuration a_world in
  r.2 = Ret tt /\ Did (Write hook (mount_hook a_build)) false ∈ trace r.1.
Proof. split; [by vm_compute|apply (bool_decide_unpack _); by vm_compute]. Qed.
