(* ===== verification/Mounts.v ===== *)
(** The mounts of the container manager (cmds/container_manager.cpp,
    common/mount_entry.cpp, common/loop_device.cpp,
    common/loop_device_allocator.cpp): which image is mounted where, who owns
    a mount, a loop device and a descriptor, and when each is given back. *)

From S2P Require Import Prelude Memory InitRc Lxc.

Local Open Scope Z_scope.

(** * Flags *)

Definition MS_RDONLY : Z := 1.
Definition MS_NOSUID : Z := 2.
Definition MS_NODEV : Z := 4.
Definition MS_NOATIME : Z := 1024.
Definition MS_BIND : Z := 4096.
Definition MS_UNBINDABLE : Z := 131072.
Definition MS_PRIVATE : Z := 262144.
Definition MS_SLAVE : Z := 524288.
Definition MS_SHARED : Z := 1048576.
Definition propagation : Z := Z.lor (Z.lor (Z.lor MS_SHARED MS_PRIVATE) MS_SLAVE) MS_UNBINDABLE.

(** * The system *)

Inductive action :=
  | Open (path : bytes) (fd : Z)
  | Close (fd : Z)
  | LoopSetFd (device file : bytes)
  | LoopSetStatus (device : bytes) (read_only : bool)
  | LoopClear (device : bytes)
  | Mount (source target fs_type : bytes) (flags : Z) (data : bytes)
  | SetPropagation (target : bytes) (flags : Z)
  | Umount (target : bytes)
  | MountSquashfuse (image target : bytes)
  | MakeDirectories (path : bytes)
  | MakeDirectory (path : bytes)
  | RemoveTree (path : bytes)
  | MakeSymlink (path : bytes)
  | MakeCopy (source path : bytes)
  | SetOwner (path : bytes) (uid gid : Z)
  | SetMode (path : bytes) (mode : Z)
  | CompatibilityTool (source : bytes)
  | Unshare
  | MakePrivate
  | StopStale
  | Serve.
(** What was done, and whether it succeeded. *)
Definition history : Type := list (action * bool).

Inductive removal := Removed | Busy | NotRemoved.
(** The answer of [umount2]. *)
Inductive umount_answer := Unmounted | NoMount | UmountFails.
(** The answers of the system, which may depend on what was done. *)
Record host_system := HostSystem {
  exists_path : history -> bytes -> bool;
  works : history -> action -> bool;
  umount2 : history -> bytes -> umount_answer;
  opens : history -> bytes -> option Z;
  get_free : history -> option Z;
  has_status : history -> bytes -> bool;
  mountinfo : history -> bytes;
  mtab : history -> list (bytes * bytes);
  file_contents : history -> bytes -> option bytes;
  lstat_of : history -> bytes -> option stat_t;
  entries_of : history -> bytes -> option (list bytes);
  remove_tree : history -> bytes -> removal;
  loop_files : history -> list (bytes * option bytes);
  stale_running : history -> bool;
  program_path : bytes;
  is_executable : history -> bytes -> bool;
  host_elf_machine : Z
}.

(** * Text of the system's tables *)

Definition octal_digit (b : byte) : bool := (48 <=? bval b) && (bval b <=? 55).
Fixpoint decode_mountinfo_path (s : bytes) : bytes :=
  match s with
  | b :: ((x :: y :: z :: rest') as rest) =>
      if Byte.eqb b x5c && octal_digit x && octal_digit y && octal_digit z
      then to_byte ((bval x - 48) * 64 + (bval y - 48) * 8 + (bval z - 48)) :: decode_mountinfo_path rest'
      else b :: decode_mountinfo_path rest
  | b :: rest => b :: decode_mountinfo_path rest
  | [] => []
  end.
(** [fields >> value]: the words of a line. *)
Fixpoint words (cur s : bytes) : list bytes :=
  match s with
  | [] => if is_empty cur then [] else [cur]
  | b :: s' =>
      if is_space b then (if is_empty cur then words [] s' else cur :: words [] s') else words (cur ++ [b]) s'
  end.
Definition mountinfo_line (line : bytes) : list bytes :=
  match words [] line !! 4%nat with Some value => [decode_mountinfo_path value] | None => [] end.
Definition mountpoints_of (text : bytes) : list bytes := concat (mountinfo_line <$> getlines [] text).

(** [utils::is_mounted] compares the first field of the table, the source. *)
Definition is_mounted_in (table : list (bytes * bytes)) (path : bytes) : bool :=
  existsb (fun e => bytes_eqb e.1 path) table.

(** [utils::find_program_on_path]: the text after the last colon is not
    looked at. *)
Fixpoint search_path (ok : bytes -> bool) (name cur path : bytes) : bytes :=
  match path with
  | [] => []
  | b :: path' =>
      if Byte.eqb b x3a then
        if ok (cur ++ str "/" ++ name) then cur ++ str "/" ++ name else search_path ok name [] path'
      else search_path ok name (cur ++ [b]) path'
  end.
Definition find_program_on_path (ok : bytes -> bool) (path name : bytes) : bytes := search_path ok name [] path.

(** * Images *)

Inductive AndroidImageFormat := squashfs | ext4 | erofs | f2fs | android_sparse | unknown.
Definition magic_at (data : bytes) (offset : nat) (magic : list Z) : bool :=
  bool_decide (take (length magic) (drop offset data) = (to_byte <$> magic)).
Definition detect_android_image_format (file : option bytes) : AndroidImageFormat :=
  match file with
  | None => unknown
  | Some content =>
      let data := take 4096 content in
      if magic_at data 0 [0x68; 0x73; 0x71; 0x73] then squashfs
      else if magic_at data 0 [0x3a; 0xff; 0x26; 0xed] then android_sparse
      else if magic_at data (1024 + 56) [0x53; 0xef] then ext4
      else if magic_at data 1024 [0xe2; 0xe1; 0xf5; 0xe0] then erofs
      else if magic_at data 1024 [0x10; 0x20; 0xf5; 0xf2] then f2fs
      else unknown
  end.
Definition filesystem_type_for (f : AndroidImageFormat) : option bytes :=
  match f with
  | squashfs => Some (str "squashfs")
  | ext4 => Some (str "ext4")
  | erofs => Some (str "erofs")
  | f2fs => Some (str "f2fs")
  | _ => None
  end.
(** The machine of an ELF executable; 0 where it cannot be told. *)
Definition read_elf_machine (file : option bytes) : Z :=
  match file with
  | None => 0
  | Some content =>
      let data := take 20 content in
      if negb (length data =? 20)%nat || negb (magic_at data 0 [0x7f; 69; 76; 70]) then 0
      else match data !! 5%nat, data !! 18%nat, data !! 19%nat with
           | Some e, Some lo, Some hi => if negb (bval e =? 1) then 0 else Z.lor (bval lo) (Z.shiftl (bval hi) 8)
           | _, _, _ => 0
           end
  end.

(** * State *)

Record loop_device := LoopDevice { l_path : bytes; l_fd : Z }.
(** A [MountEntry] that is active, with the loop device it owns. *)
Record entry := MountEntry { m_target : bytes; m_loop : option loop_device }.
Record manager := Manager {
  mounts_ : list entry;
  enable_rootfs_overlay_ : bool;
  use_combined_rootfs_ : bool;
  enable_squashfuse_ : bool;
  done_ : history
}.
Definition with_mounts (l : list entry) (s : manager) : manager :=
  Manager l (enable_rootfs_overlay_ s) (use_combined_rootfs_ s) (enable_squashfuse_ s) (done_ s).
Definition with_overlay (b : bool) (s : manager) : manager :=
  Manager (mounts_ s) b (use_combined_rootfs_ s) (enable_squashfuse_ s) (done_ s).
Definition with_combined (b : bool) (s : manager) : manager :=
  Manager (mounts_ s) (enable_rootfs_overlay_ s) b (enable_squashfuse_ s) (done_ s).
Definition with_squashfuse (b : bool) (s : manager) : manager :=
  Manager (mounts_ s) (enable_rootfs_overlay_ s) (use_combined_rootfs_ s) b (done_ s).
Definition note (a : action) (b : bool) (s : manager) : manager :=
  Manager (mounts_ s) (enable_rootfs_overlay_ s) (use_combined_rootfs_ s) (enable_squashfuse_ s) ((a, b) :: done_ s).

Section manager.
Context (sys : host_system) (cfg : build) (android_img_path_ vendor_img_path_ : bytes).

Definition view {A} (f : history -> A) : M manager A := fun s => (s, Ret (f (done_ s))).
Definition perform (a : action) : M manager bool := fun s =>
  let b := works sys (done_ s) a in (note a b s, Ret b).
Definition do_ (a : action) : M manager unit := perform a ≫= fun _ => mret tt.
Definition need (a : action) : M manager unit :=
  b ← perform a; if (b : bool) then mret tt else throw SystemError.
Definition on (b : bool) (c : M manager unit) : M manager unit := if b then c else mret tt.
(** A path that is made where it is not there. *)
Definition ensure_directory (path : bytes) : M manager unit :=
  b ← view (fun t => exists_path sys t path); on (negb b) (need (MakeDirectories path)).

(** * Loop devices *)

Definition open_file (path : bytes) : M manager (option Z) := fun s =>
  match opens sys (done_ s) path with
  | Some fd => (note (Open path fd) true s, Ret (Some fd))
  | None => (s, Ret None)
  end.
(** [LoopDeviceAllocator::new_device]; None where it throws, which its callers
    catch. *)
Definition loop_number_path (n : Z) : bytes := str "/dev/loop" ++ print_d n.
Definition new_loop_device : M manager (option loop_device) :=
  ctl_fd ← open_file (str "/dev/loop-control");
  match ctl_fd with
  | None => mret None
  | Some ctl_fd =>
      n ← view (get_free sys);
      match n with
      | None => do_ (Close ctl_fd);; mret None
      | Some n =>
          fd ← open_file (loop_number_path n);
          do_ (Close ctl_fd);; mret (LoopDevice (loop_number_path n) <$> fd)
      end
  end.
Definition attach_file (d : loop_device) (file : bytes) (read_only : bool) : M manager bool :=
  file_fd ← open_file file;
  match file_fd with
  | None => mret false
  | Some file_fd =>
      set ← perform (LoopSetFd (l_path d) file);
      if negb set then do_ (Close file_fd);; mret false
      else
        st ← view (fun t => has_status sys t (l_path d));
        ok ← (if (st : bool) then perform (LoopSetStatus (l_path d) read_only) else mret true);
        on (negb ok) (do_ (LoopClear (l_path d)));;
        do_ (Close file_fd);; mret ok
  end.
(** [~LoopDevice] closes the descriptor, which its member [Fd] closes again. *)
Definition release_loop (d : loop_device) : M manager unit :=
  do_ (LoopClear (l_path d));; do_ (Close (l_fd d));; do_ (Close (l_fd d)).

(** * Mount entries *)

Definition mount_entry_create (source target fs_type : bytes) (flags : Z) (data : bytes) : M manager bool :=
  let propagation_flags := Z.land flags propagation in
  let mount_flags := Z.land flags (Z.lnot propagation) in
  b ← perform (Mount source target fs_type mount_flags data);
  if negb b then mret false
  else if propagation_flags =? 0 then mret true
  else
    b ← perform (SetPropagation target propagation_flags);
    if (b : bool) then mret true else do_ (Umount target);; mret false.
(** [MountEntry::create] and [mounts_.push_back] where it succeeds. *)
Definition add_entry (e : entry) : M manager unit := modify (fun s => with_mounts (mounts_ s ++ [e]) s).
Definition mount_plain (source target fs_type : bytes) (flags : Z) (data : bytes) : M manager bool :=
  b ← mount_entry_create source target fs_type flags data;
  if (b : bool) then add_entry (MountEntry target None);; mret true else mret false.
(** From a loop device; the caller's reference to the device goes away. *)
Definition mount_loop (d : loop_device) (target fs_type : bytes) (flags : Z) : M manager bool :=
  b ← mount_entry_create (l_path d) target fs_type flags [];
  if (b : bool) then add_entry (MountEntry target (Some d));; mret true else mret false.
(** [~MountEntry]. *)
Definition release_entry (e : entry) : M manager unit :=
  do_ (Umount (m_target e));;
  match m_loop e with Some d => release_loop d | None => mret tt end.
(** [mounts_.clear()]: the entries go from the first to the last. *)
Definition clear_mounts : M manager unit := fun s =>
  for_each release_entry (mounts_ s) (with_mounts [] s).

(** * Stale mounts *)

Definition is_mountpoint (path : bytes) : M manager bool :=
  view (fun t => bool_decide (path ∈ mountpoints_of (mountinfo sys t))).
Definition umount (path : bytes) : M manager umount_answer := fun s =>
  let a := umount2 sys (done_ s) path in
  (note (Umount path) (match a with Unmounted => true | _ => false end) s, Ret a).
(** The loop of [safe_umount]; running out of fuel is [Undef]. *)
Fixpoint umount_all (fuel : nat) (path : bytes) : M manager bool :=
  match fuel with
  | O => lift Undef
  | S fuel' =>
      b ← is_mountpoint path;
      if negb b then mret true
      else
        a ← umount path;
        match a with
        | Unmounted => umount_all fuel' path
        | NoMount => mret true
        | UmountFails => mret false
        end
  end.
Definition safe_umount (path : bytes) : M manager bool := fun s =>
  umount_all (S (length (mountpoints_of (mountinfo sys (done_ s))))) path s.

(** Longer paths first, so that what is mounted below a path goes before it. *)
Definition deeper (a b : bytes) : Prop :=
  (length b < length a)%nat \/ length a = length b /\ bytes_ltb a b = false.
#[global] Instance deeper_dec a b : Decision (deeper a b).
Proof. unfold deeper. apply _. Defined.
Definition overlay_dir : bytes := join (data_dir cfg) (str "rootfs-overlay").
Definition vendor_rootfs : bytes := join (data_dir cfg) (str "vendor-rootfs").
Definition ours (p : bytes) : bool :=
  bytes_eqb p (combined_rootfs_dir cfg) || starts_with p (combined_rootfs_dir cfg ++ str "/") ||
  bytes_eqb p vendor_rootfs || bytes_eqb p (rootfs_dir cfg).
Definition stale_mounts (l : list bytes) : list bytes := merge_sort deeper (remove_dups (List.filter ours l)).
Fixpoint umount_each (l : list bytes) : M manager bool :=
  match l with
  | [] => mret true
  | p :: l' => a ← safe_umount p; b ← umount_each l'; mret (a && b)
  end.
Definition cleanup_anbox_mounts : M manager bool :=
  l ← view (fun t => mountpoints_of (mountinfo sys t)); umount_each (stale_mounts l).
Definition release_mounts : M manager unit := cleanup_anbox_mounts;; clear_mounts.

(** [stop_stale_container], with the handle opened for it. *)
Definition stop_stale_container : M manager bool :=
  r ← view (stale_running sys); if (r : bool) then perform StopStale else mret true.
(** [detach_stale_image_loops]: the names of /sys/block with the files behind
    them; a path is taken to be normal. *)
Definition detach_loop (expected : list bytes) (l : bytes * option bytes) : M manager bool :=
  let '(name, backing) := l in
  match backing with
  | Some backing =>
      if starts_with name (str "loop") && negb (is_empty backing) && existsb (bytes_eqb backing) expected then
        fd ← open_file (join (str "/dev") name);
        match fd with
        | None => mret false
        | Some fd => b ← perform (LoopClear (join (str "/dev") name)); do_ (Close fd);; mret b
        end
      else mret true
  | None => mret true
  end.
Fixpoint detach_each (expected : list bytes) (l : list (bytes * option bytes)) : M manager bool :=
  match l with
  | [] => mret true
  | x :: l' => a ← detach_loop expected x; b ← detach_each expected l'; mret (a && b)
  end.
Definition detach_stale_image_loops (images : list bytes) : M manager bool :=
  b ← view (fun t => exists_path sys t (str "/sys/block"));
  if negb b then mret true
  else l ← view (loop_files sys); detach_each (List.filter (fun p => negb (is_empty p)) images) l.

(** * Which images *)

Definition is_secure_root_owned (path : bytes) (expected_type : Z) : M manager bool :=
  s ← view (fun t => lstat_of sys t path);
  mret (match s with
        | Some st => (Z.land (st_mode st) S_IFMT =? expected_type) && (st_uid st =? 0) && (Z.land (st_mode st) 18 =? 0)
        | None => false
        end).
Definition selected_android_image (configured_image : bytes) : M manager bytes :=
  let native_bridge_root := join (join (data_dir cfg) (str "state")) (str "native-bridge") in
  let marker := join native_bridge_root (str "enabled") in
  b ← view (fun t => exists_path sys t marker);
  if negb b then mret configured_image
  else
    s ← is_secure_root_owned marker S_IFREG;
    if negb s then throw RuntimeError
    else
      c ← view (fun t => file_contents sys t marker);
      match c with
      | None => throw RuntimeError
      | Some text =>
          let marker_kind := default [] (head (getlines [] text)) in
          if bytes_eqb marker_kind (str "builtin-image-v1") then
            s ← is_secure_root_owned configured_image S_IFREG;
            if (s : bool) then mret configured_image else throw RuntimeError
          else if bytes_eqb marker_kind (str "managed-system-overlay-v1") then
            let managed_image := join native_bridge_root (str "managed-system.img") in
            s ← is_secure_root_owned managed_image S_IFREG;
            if (s : bool) then mret managed_image else throw RuntimeError
          else throw RuntimeError
      end.
(** Empty where there is none. *)
Definition selected_data_image : M manager bytes :=
  let managed_root := join (data_dir cfg) (str "state/data-image") in
  let marker := join managed_root (str "enabled") in
  b ← view (fun t => exists_path sys t marker);
  if negb b then mret []
  else
    let image := join managed_root (str "android-data.img") in
    s ← is_secure_root_owned marker S_IFREG;
    s ← (if (s : bool) then is_secure_root_owned image S_IFREG else mret false);
    if (s : bool) then mret image else throw RuntimeError.

Fixpoint first_machine (l : list bytes) : M manager (option Z) :=
  match l with
  | [] => mret None
  | p :: l' =>
      b ← view (fun t => exists_path sys t p);
      n ← (if (b : bool) then view (fun t => read_elf_machine (file_contents sys t p)) else mret 0);
      if n =? 0 then first_machine l' else mret (Some n)
  end.
Definition validate_guest_architecture (rootfs : bytes) : M manager bool :=
  if host_elf_machine sys =? 0 then mret true
  else
    n ← first_machine (join rootfs <$> (str <$> ["system/bin/app_process64"; "system/bin/app_process32"; "system/bin/init"]%string));
    mret (match n with Some n => n =? host_elf_machine sys | None => false end).

(** * Setting up *)

Definition is_mounted (path : bytes) : M manager bool := view (fun t => is_mounted_in (mtab sys t) path).
(** [release_mounts(); return false;] *)
Definition refuse : M manager bool := release_mounts;; mret false.
Definition refuse_loop (d : loop_device) : M manager bool := release_mounts;; release_loop d;; mret false.

(** The rest of a set-up step, where the step has succeeded. *)
Definition continue_if (b : bool) (k : M manager bool) : M manager bool := if b then k else refuse.

Definition bind_private : Z := Z.lor MS_BIND MS_PRIVATE.
Definition unmount_busy (path : bytes) : M manager unit := fun s =>
  match remove_tree sys (done_ s) path with
  | Removed => (note (RemoveTree path) true s, Ret tt)
  | NotRemoved => (note (RemoveTree path) false s, Throw SystemError)
  | Busy =>
      (b ← safe_umount path; if negb b then throw SystemError else need (RemoveTree path)) (note (RemoveTree path) false s)
  end.
Definition S_IFLNK : Z := 40960.
(** An entry of the image's root is made in the shell; false where it gives up. *)
Definition copy_root_entry (source_rootfs shell_rootfs name : bytes) : M manager bool :=
  let source := join source_rootfs name in
  let target := join shell_rootfs name in
  s ← view (fun t => lstat_of sys t source);
  match s with
  | None => refuse
  | Some st =>
      let kind := Z.land (st_mode st) S_IFMT in
      let finish :=
        b ← perform (SetOwner target (st_uid st) (st_gid st));
        if negb b then refuse
        else if kind =? S_IFLNK then mret true
        else b ← perform (SetMode target (Z.land (st_mode st) 4095)); if (b : bool) then mret true else refuse in
      if kind =? S_IFLNK then need (MakeSymlink target);; finish
      else if kind =? S_IFDIR then need (MakeDirectory target);; finish
      else if kind =? S_IFREG then need (MakeCopy source target);; finish
      else mret true
  end.
Fixpoint copy_root (source_rootfs shell_rootfs : bytes) (l : list bytes) : M manager bool :=
  match l with
  | [] => mret true
  | n :: l' =>
      b ← copy_root_entry source_rootfs shell_rootfs n;
      if (b : bool) then copy_root source_rootfs shell_rootfs l' else mret false
  end.
Fixpoint bind_points (shell_rootfs : bytes) (l : list bytes) : M manager bool :=
  match l with
  | [] => mret true
  | n :: l' =>
      b ← mount_plain (join shell_rootfs n) (join shell_rootfs n) [] bind_private [];
      continue_if b (bind_points shell_rootfs l')
  end.
Definition listing (dir : bytes) : M manager (list bytes) :=
  l ← view (fun t => entries_of sys t dir); match l with Some l => mret l | None => throw SystemError end.
Definition setup_gsi_rootfs_shell (source_rootfs : bytes) : M manager bool :=
  let shell_rootfs := combined_rootfs_dir cfg in
  b ← is_mounted shell_rootfs;
  if (b : bool) then refuse
  else
    ensure_directory shell_rootfs;;
    old ← listing shell_rootfs;
    for_each (fun n => unmount_busy (join shell_rootfs n)) old;;
    l ← listing source_rootfs;
    b ← copy_root source_rootfs shell_rootfs l;
    if negb b then mret false
    else
      b ← mount_plain (join source_rootfs (str "system")) (join shell_rootfs (str "system")) [] bind_private [];
      continue_if b (bind_points shell_rootfs [str "apex"; str "linkerconfig"]).

Definition setup_rootfs_overlay : M manager bool :=
  let upper_path := join overlay_dir (str "upper") in
  let work_path := join overlay_dir (str "work") in
  for_each ensure_directory [combined_rootfs_dir cfg; overlay_dir; upper_path; work_path];;
  b ← mount_plain (str "overlay") (combined_rootfs_dir cfg) (str "overlay") 0
    (str "lowerdir=" ++ rootfs_dir cfg ++ str ",upperdir=" ++ upper_path ++ str ",workdir=" ++ work_path);
  continue_if b (mret true).

(** The root file system, from a loop device or by squashfuse. *)
Definition mount_rootfs (image fs_type : bytes) (squashfuse : bool) : M manager bool :=
  if negb squashfuse then
    d ← new_loop_device;
    match d with
    | None => mret false
    | Some d =>
        b ← attach_file d image true;
        if negb b then release_loop d;; mret false
        else
          b ← mount_loop d (rootfs_dir cfg) fs_type (Z.lor MS_RDONLY MS_PRIVATE);
          if (b : bool) then mret true else release_loop d;; mret false
    end
  else
    fuse ← view (fun t => exists_path sys t (str "/dev/fuse"));
    found ← (if (fuse : bool)
             then view (fun t => negb (is_empty (find_program_on_path (is_executable sys t) (program_path sys) (str "squashfuse"))))
             else mret false);
    if negb found then mret false
    else
      b ← perform (MountSquashfuse image (rootfs_dir cfg));
      if (b : bool) then add_entry (MountEntry (rootfs_dir cfg) None);; mret true else mret false.
(** A loop device for an image, mounted; [k] is what follows. *)
Definition mount_image (image target fs_type : bytes) (read_only : bool) (flags : Z) (k : M manager bool) : M manager bool :=
  d ← new_loop_device;
  match d with
  | None => refuse
  | Some d =>
      b ← attach_file d image read_only;
      if negb b then refuse_loop d
      else
        b ← mount_loop d target fs_type flags;
        if (b : bool) then k else refuse_loop d
  end.

Definition mount_vendor (vendor_img_path : bytes) (k : M manager bool) : M manager bool :=
  b ← view (fun t => exists_path sys t vendor_img_path);
  if negb b then refuse
  else
    f ← view (fun t => detect_android_image_format (file_contents sys t vendor_img_path));
    match f with
    | ext4 =>
        b ← is_mounted vendor_rootfs;
        if (b : bool) then refuse
        else
          ensure_directory vendor_rootfs;;
          mount_image vendor_img_path vendor_rootfs (str "ext4") true (Z.lor MS_RDONLY MS_PRIVATE) k
    | _ => refuse
    end.
(** The vendor image at /vendor; the tools that make overlays may fail. *)
Definition bind_vendor (final_rootfs : bytes) (k : M manager bool) : M manager bool :=
  let vendor_target := join final_rootfs (str "vendor") in
  b ← view (fun t => exists_path sys t vendor_target);
  if negb b then refuse
  else
    b ← mount_plain vendor_rootfs vendor_target [] bind_private [];
    continue_if b (
      do_ (CompatibilityTool (join vendor_rootfs (str "lib64/libGLESv2_enc.so")));;
      do_ (CompatibilityTool (join vendor_rootfs (str "lib64/hw/android.hardware.graphics.mapper@3.0-impl-ranchu.so")));;
      k).
Definition mount_data_image (k : M manager bool) : M manager bool :=
  image ← selected_data_image;
  if is_empty image then k
  else
    let data_mountpoint := join (data_dir cfg) (str "data") in
    ensure_directory data_mountpoint;;
    mount_image image data_mountpoint (str "ext4") false
      (Z.lor (Z.lor (Z.lor MS_NOSUID MS_NODEV) MS_NOATIME) MS_PRIVATE) k.
(** [create_directory] that throws; where it only answers false, because the
    directory has come into being meanwhile, the code gives up like for [chown]. *)
Fixpoint bind_directories (final_rootfs : bytes) (l : list bytes) (k : M manager bool) : M manager bool :=
  match l with
  | [] => k
  | dir_name :: l' =>
      let src := join (data_dir cfg) dir_name in
      let bind :=
        b ← mount_plain src (join final_rootfs dir_name) [] bind_private [];
        continue_if b (bind_directories final_rootfs l' k) in
      b ← view (fun t => exists_path sys t src);
      if (b : bool) then bind
      else
        need (MakeDirectory src);;
        b ← perform (SetOwner src unprivileged_uid unprivileged_uid);
        continue_if b bind
  end.
Definition reverse_mounts : M manager bool := modify (fun s => with_mounts (reverse (mounts_ s)) s);; mret true.
(** From the root file system that the container gets to the end. *)
Definition finish_mounts (vendor : bool) (final_rootfs : bytes) : M manager bool :=
  let rest := mount_data_image (bind_directories final_rootfs [str "cache"; str "data"] reverse_mounts) in
  if vendor then bind_vendor final_rootfs rest else rest.
Definition choose_rootfs (vendor : bool) : M manager bool :=
  s ← get;
  on (enable_rootfs_overlay_ s && vendor) (modify (with_overlay false));;
  s ← get;
  if vendor then
    b ← setup_gsi_rootfs_shell (rootfs_dir cfg);
    if negb b then mret false else modify (with_combined true);; finish_mounts vendor (combined_rootfs_dir cfg)
  else if enable_rootfs_overlay_ s then
    b ← setup_rootfs_overlay;
    if negb b then mret false else modify (with_combined true);; finish_mounts vendor (combined_rootfs_dir cfg)
  else finish_mounts vendor (rootfs_dir cfg).
Definition setup_vendor : M manager bool :=
  let default_vendor_img := join (data_dir cfg) (str "vendor.img") in
  b ← (if is_empty vendor_img_path_ then view (fun t => exists_path sys t default_vendor_img) else mret false);
  let vendor_img_path := if is_empty vendor_img_path_ then (if (b : bool) then default_vendor_img else []) else vendor_img_path_ in
  if is_empty vendor_img_path then choose_rootfs false else mount_vendor vendor_img_path (choose_rootfs true).

Definition android_image : bytes :=
  if is_empty android_img_path_ then join (data_dir cfg) (str "android.img") else android_img_path_.
(** What follows the choice of the file system type. *)
Definition mount_android (image fs_type : bytes) (f : AndroidImageFormat) : M manager bool :=
  loops ← view (fun t => exists_path sys t (str "/dev/loop-control"));
  s ← get;
  let is_squashfs := match f with squashfs => true | _ => false end in
  if negb loops && negb (enable_squashfuse_ s) && negb is_squashfs then mret false
  else
    on (negb loops && negb (enable_squashfuse_ s)) (modify (with_squashfuse true));;
    s ← get;
    if enable_squashfuse_ s && negb is_squashfs then mret false
    else
      b ← mount_rootfs image fs_type (enable_squashfuse_ s);
      if negb b then mret false
      else b ← validate_guest_architecture (rootfs_dir cfg); continue_if b setup_vendor.
Definition setup_mounts : M manager bool :=
  modify (with_combined false);;
  android_img_path ← selected_android_image android_image;
  b ← view (fun t => exists_path sys t android_img_path);
  if negb b then mret false
  else
    b ← is_mounted (rootfs_dir cfg);
    if (b : bool) then mret false
    else
      b ← view (fun t => exists_path sys t (rootfs_dir cfg));
      on (negb b) (need (MakeDirectory (rootfs_dir cfg)));;
      f ← view (fun t => detect_android_image_format (file_contents sys t android_img_path));
      match filesystem_type_for f with
      | None => mret false
      | Some fs_type => mount_android android_img_path fs_type f
      end.

(** * The manager *)

(** The action of the command, from the mount namespace to the end of the
    service, which may throw; false is [EXIT_FAILURE]. *)
Definition container_manager : M manager bool :=
  a ← perform Unshare;
  b ← (if (a : bool) then perform MakePrivate else mret false);
  if negb b then mret false
  else
    android ← selected_android_image android_image;
    data ← selected_data_image;
    let vendor := if is_empty vendor_img_path_ then join (data_dir cfg) (str "vendor.img") else vendor_img_path_ in
    b ← stop_stale_container;
    if negb b then mret false
    else
      b ← cleanup_anbox_mounts;
      if negb b then mret false
      else
        b ← detach_stale_image_loops [android; vendor; data];
        if negb b then mret false
        else
          b ← setup_mounts;
          if negb b then mret false
          else need Serve;; release_mounts;; mret true.
(** [~ContainerManager], after which the process ends. *)
Definition end_manager : M manager unit := clear_mounts.
End manager.

(** * Specification *)

(** What a history leaves: the targets mounted whose unmount was not asked for
    since, the loop devices attached, the descriptors open. *)
Fixpoint remove_one {A} `{EqDecision A} (x : A) (l : list A) : list A :=
  match l with
  | [] => []
  | y :: l' => if decide (y = x) then l' else y :: remove_one x l'
  end.
Fixpoint mounted_now (t : history) : list bytes :=
  match t with
  | (Mount _ target _ _ _, true) :: t' | (MountSquashfuse _ target, true) :: t' => target :: mounted_now t'
  | (Umount target, _) :: t' => remove_one target (mounted_now t')
  | _ :: t' => mounted_now t'
  | [] => []
  end.
Fixpoint attached_now (t : history) : list bytes :=
  match t with
  | (LoopSetFd device _, true) :: t' => device :: attached_now t'
  | (LoopClear device, _) :: t' => remove_one device (attached_now t')
  | _ :: t' => attached_now t'
  | [] => []
  end.
Fixpoint open_now (t : history) : list Z :=
  match t with
  | (Open _ fd, true) :: t' => fd :: open_now t'
  | (Close fd, _) :: t' => remove_one fd (open_now t')
  | _ :: t' => open_now t'
  | [] => []
  end.
Definition nothing_left (t : history) : Prop := mounted_now t = [] /\ attached_now t = [] /\ open_now t = [].
(** The targets that were mounted, the newest first. *)
Fixpoint mounted_ever (t : history) : list bytes :=
  match t with
  | (Mount _ target _ _ _, true) :: t' | (MountSquashfuse _ target, true) :: t' => target :: mounted_ever t'
  | _ :: t' => mounted_ever t'
  | [] => []
  end.
(** The paths whose unmount was asked for, the newest first. *)
Definition umounts (t : history) : list bytes :=
  omap (fun e : action * bool => match e.1 with Umount p => Some p | _ => None end) t.

(** What is held besides the entries of the manager: loop devices and
    descriptors. *)
Record res := Res { r_loops : list bytes; r_fds : list Z }.
Definition nothing : res := Res [] [].
Definition loose (d : loop_device) : res := Res [l_path d] [l_fd d].
Definition fd_only (fd : Z) : res := Res [] [fd].
Definition with_fd (fd : Z) (x : res) : res := Res (r_loops x) (fd :: r_fds x).
Definition targets (l : list entry) : list bytes := m_target <$> l.
Definition entry_loops (l : list entry) : list loop_device := omap m_loop l.
Definition owned (x : res) (l : list entry) (t : history) : Prop :=
  mounted_now t ⊆+ targets l /\
  attached_now t ⊆+ r_loops x ++ (l_path <$> entry_loops l) /\
  open_now t ⊆+ r_fds x ++ (l_fd <$> entry_loops l).
(** The entries, in the order of their mounts. *)
Definition oldest_first (l : list entry) (t : history) : Prop := reverse (targets l) `sublist_of` mounted_ever t.
Definition ready (x : res) (l : list entry) (s : manager) : Prop :=
  mounts_ s = l /\ owned x l (done_ s) /\ oldest_first l (done_ s).

(** What [umount2] does to the table of mounts: one that succeeds takes a
    mount of the path away and adds none, one that fails changes nothing.  A
    path that [umount2] does not know as a mount point may be in the table: one
    that another mount covers stays listed. *)
Definition occurrences (p : bytes) (l : list bytes) : nat := length (List.filter (bytes_eqb p) l).
Record umount_law (sys : host_system) : Prop := {
  unmounted_fewer t p : umount2 sys t p = Unmounted ->
    p ∈ mountpoints_of (mountinfo sys t) ->
    (occurrences p (mountpoints_of (mountinfo sys ((Umount p, true) :: t))) <
     occurrences p (mountpoints_of (mountinfo sys t)))%nat;
  unmounted_none_added t p : umount2 sys t p = Unmounted ->
    mountpoints_of (mountinfo sys ((Umount p, true) :: t)) ⊆ mountpoints_of (mountinfo sys t);
  refused_same t p : umount2 sys t p <> Unmounted ->
    mountpoints_of (mountinfo sys ((Umount p, false) :: t)) = mountpoints_of (mountinfo sys t)
}.
(** In the history [t] the system has said that [p] is no mount point. *)
Definition no_mount_said (sys : host_system) (t : history) (p : bytes) : Prop :=
  exists later before, t = later ++ (Umount p, false) :: before /\ umount2 sys before p = NoMount.

(** * Lemmas: histories *)

Section remove_one.
Context {A} `{EqDecision A}.
Implicit Types l k : list A.
Lemma remove_one_notin (x : A) l : x ∉ l -> remove_one x l = l.
Proof.
  induction l as [|y l IH]; [done|]. intros H. cbn. destruct (decide (y = x)) as [->|]; [destruct H; by left|].
  f_equal. apply IH. intros Hx. apply H. by right.
Qed.
Lemma remove_one_in (x : A) l : x ∈ l -> l ≡ₚ x :: remove_one x l.
Proof.
  induction l as [|y l IH]; [intros H; by apply elem_of_nil in H|]. intros Hx. cbn. destruct (decide (y = x)) as [->|Hne]; [done|].
  apply elem_of_cons in Hx as [->|Hx]; [done|]. rewrite IH at 1 by done. apply Permutation_swap.
Qed.
Lemma remove_one_sub (x : A) l : remove_one x l ⊆+ l.
Proof.
  destruct (decide (x ∈ l)) as [H|H]; [|by rewrite remove_one_notin].
  rewrite (remove_one_in x l H) at 2. apply submseteq_cons. done.
Qed.
Lemma remove_one_less (x : A) l k : l ⊆+ k -> remove_one x l ⊆+ k.
Proof. intros H. etrans; [apply remove_one_sub|done]. Qed.
Lemma remove_one_held (x : A) l k : l ⊆+ x :: k -> remove_one x l ⊆+ k.
Proof.
  intros H. destruct (decide (x ∈ l)) as [Hx|Hx].
  - rewrite (remove_one_in x l Hx) in H. by apply (submseteq_app_inv_l (remove_one x l) k [x]) in H.
  - rewrite remove_one_notin by done. apply submseteq_cons_r in H as [H|(l' & Hl & _)]; [done|].
    destruct Hx. rewrite Hl. by left.
Qed.
End remove_one.
#[local] Hint Resolve remove_one_less : anbox.

(** An action that acquires nothing. *)
Definition acquires (a : action) : bool :=
  match a with Open _ _ | LoopSetFd _ _ | Mount _ _ _ _ _ | MountSquashfuse _ _ => true | _ => false end.
Lemma note_owned x l t a b : acquires a = false \/ b = false -> owned x l t -> owned x l ((a, b) :: t).
Proof. intros Ha (H1 & H2 & H3). destruct a, b, Ha as [Ha|Ha]; try done; split_and!; cbn; auto with anbox. Qed.
Lemma ever_extends a b t : mounted_ever t `sublist_of` mounted_ever ((a, b) :: t).
Proof. destruct a, b; cbn; try done; by apply sublist_cons. Qed.
Lemma note_ready x l a b s : acquires a = false \/ b = false -> ready x l s -> ready x l (note a b s).
Proof.
  intros Ha (H0 & H1 & H2). split; [done|]. split; [by apply note_owned|]. unfold oldest_first. etrans; [exact H2|]. apply ever_extends.
Qed.
Lemma owned_drop x l t : owned nothing l t -> owned x l t.
Proof. intros (H1 & H2 & H3). split_and!; [done| |]; cbn in *; by apply submseteq_inserts_l. Qed.
Lemma owned_clean t : owned nothing [] t <-> nothing_left t.
Proof. unfold owned, nothing_left. cbn. by rewrite !submseteq_nil_r. Qed.
Lemma close_owned x l t fd b : owned (with_fd fd x) l t -> owned x l ((Close fd, b) :: t).
Proof. intros (H1 & H2 & H3). split_and!; [done..|]. cbn. by apply remove_one_held. Qed.

(** * Lemmas: unmounting *)

Definition extend (new : history) (s : manager) : manager :=
  Manager (mounts_ s) (enable_rootfs_overlay_ s) (use_combined_rootfs_ s) (enable_squashfuse_ s) (new ++ done_ s).
Lemma extend_app new new' s : extend new (extend new' s) = extend (new ++ new') s.
Proof. unfold extend. cbn. by rewrite app_assoc. Qed.
Lemma extend_nil s : extend [] s = s.
Proof. by destruct s. Qed.
Lemma umounts_app a b : umounts (a ++ b) = umounts a ++ umounts b.
Proof. apply omap_app. Qed.
Lemma occurrences_in p l : p ∈ l -> (0 < occurrences p l)%nat.
Proof.
  intros H. assert (Hin : In p (List.filter (bytes_eqb p) l)).
  { apply filter_In. split; [by apply list_elem_of_In|]. by apply bool_decide_eq_true. }
  unfold occurrences. destruct (List.filter (bytes_eqb p) l); [done|cbn; lia].
Qed.
Lemma occurrences_le p l : (occurrences p l <= length l)%nat.
Proof. apply filter_length_le. Qed.

Lemma deeper_same p l : Forall (eq p) l -> StronglySorted deeper l.
Proof.
  induction 1 as [|q l <- Hl IH]; [constructor|]. constructor; [done|].
  apply (Forall_impl _ _ _ Hl). intros ? <-. right. split; [done|]. apply bytes_ltb_irrefl.
Qed.
#[local] Instance deeper_trans : Transitive deeper.
Proof.
  unfold deeper. intros a b c [H1|[H1 H2]] [H3|[H3 H4]]; [left; lia..|]. right. split; [congruence|].
  destruct (bytes_ltb a c) eqn:E; [|done]. destruct (decide (a = b)) as [->|Hne]; [congruence|].
  apply (bytes_ltb_total a b) in H2; [|done]. assert (bytes_ltb b c = true) by by eapply bytes_ltb_trans. congruence.
Qed.
#[local] Instance deeper_total : Total deeper.
Proof.
  intros a b. unfold deeper. destruct (lt_eq_lt_dec (length a) (length b)) as [[H|H]|H]; [by right; left| |by left; left].
  destruct (bytes_ltb a b) eqn:E; [|left; right; done]. right; right. split; [done|].
  destruct (bytes_ltb b a) eqn:E2; [|done]. pose proof (bytes_ltb_trans _ _ _ E E2) as Hx. by rewrite bytes_ltb_irrefl in Hx.
Qed.

Definition is_umount (e : action * bool) : Prop := exists p, e.1 = Umount p.
Lemma extend_ready x l new s : Forall is_umount new -> ready x l s -> ready x l (extend new s).
Proof.
  induction 1 as [|[a b] new [p Hp] _ IH]; intros Hs; [by rewrite extend_nil|].
  change (extend ((a, b) :: new) s) with (note a b (extend new s)). apply note_ready; [left; cbn in Hp; by subst|by apply IH].
Qed.

Section unmounting.
Context (sys : host_system) (cfg : build) (law : umount_law sys).
Definition now (s : manager) : list bytes := mountpoints_of (mountinfo sys (done_ s)).
(** Nothing is mounted on [p] any more, or the system says so. *)
Definition gone (p : bytes) (s : manager) : Prop := p ∉ now s \/ no_mount_said sys (done_ s) p.
Lemma gone_extend p new s : now (extend new s) ⊆ now s -> gone p s -> gone p (extend new s).
Proof.
  intros Hn [H|(later & before & Hd & Hu)]; [left; set_solver|]. right. exists (new ++ later), before.
  split; [|done]. cbn. by rewrite Hd, app_assoc.
Qed.

Lemma umount_all_spec p fuel : forall s, (occurrences p (now s) < fuel)%nat -> exists new b,
  umount_all sys fuel p s = (extend new s, Ret b) /\ Forall is_umount new /\ Forall (eq p) (umounts new) /\
  now (extend new s) ⊆ now s /\ (b = true -> gone p (extend new s)).
Proof.
  induction fuel as [|fuel IH]; intros s Hf; [lia|]. cbn [umount_all].
  unfold mbind at 1, M_bind at 1, is_mountpoint, view. case_bool_decide as Hin; cbn [negb].
  2: { exists [], true. rewrite extend_nil. split_and!; try done; [constructor..|by left]. }
  unfold mbind, M_bind, umount. destruct (umount2 sys (done_ s) p) eqn:Ha; cbn.
  - pose proof (unmounted_fewer _ law _ _ Ha Hin) as Hless. pose proof (unmounted_none_added _ law _ _ Ha) as Hsub.
    destruct (IH (note (Umount p) true s)) as (new & b & E & H1 & H2 & H3 & H4).
    { unfold now in *. cbn. lia. }
    exists (new ++ [(Umount p, true)]), b. change (note (Umount p) true s) with (extend [(Umount p, true)] s) in *.
    rewrite extend_app in *. split_and!; [done| | | |done].
    + apply Forall_app. split; [done|]. constructor; [by exists p|constructor].
    + rewrite umounts_app. apply Forall_app. split; [done|]. by repeat constructor.
    + etrans; [exact H3|]. exact Hsub.
  - exists [(Umount p, false)], true. split_and!; [done|by repeat constructor; exists p|by repeat constructor| |].
    + unfold now. cbn. rewrite (refused_same _ law); [done|congruence].
    + intros _. right. by exists [], (done_ s).
  - exists [(Umount p, false)], false. split_and!; [done|by repeat constructor; exists p|by repeat constructor| |done].
    unfold now. cbn. rewrite (refused_same _ law); [done|congruence].
Qed.
Lemma safe_umount_spec p s : exists new b,
  safe_umount sys p s = (extend new s, Ret b) /\ Forall is_umount new /\ Forall (eq p) (umounts new) /\
  now (extend new s) ⊆ now s /\ (b = true -> gone p (extend new s)).
Proof. apply umount_all_spec. unfold now. pose proof (occurrences_le p (mountpoints_of (mountinfo sys (done_ s)))). lia. Qed.

(** The unmounts follow the list of paths. *)
Lemma umount_each_spec l : forall s, StronglySorted deeper l -> exists new b,
  umount_each sys l s = (extend new s, Ret b) /\ Forall is_umount new /\
  (forall p, p ∈ umounts new -> p ∈ l) /\ StronglySorted deeper (reverse (umounts new)) /\
  now (extend new s) ⊆ now s /\ (b = true -> forall p, p ∈ l -> gone p (extend new s)).
Proof.
  induction l as [|p l IH]; intros s Hl.
  { exists [], true. rewrite extend_nil. split_and!; try done; [constructor..|]. intros _ p Hp. by apply elem_of_nil in Hp. }
  apply StronglySorted_cons in Hl as [Hp Hl]. rewrite Forall_forall in Hp. cbn [umount_each].
  destruct (safe_umount_spec p s) as (n1 & b1 & E1 & H1 & H2 & H3 & H4).
  destruct (IH (extend n1 s) Hl) as (n2 & b2 & E2 & K1 & K2 & K3 & K4 & K5).
  rewrite Forall_forall in H2. exists (n2 ++ n1), (b1 && b2). rewrite extend_app in *.
  split_and!.
  - rewrite (M_bind_ret _ _ _ _ _ E1), (M_bind_ret _ _ _ _ _ E2). done.
  - by apply Forall_app.
  - intros q. rewrite umounts_app, elem_of_app. intros [Hq|Hq]; [right; by apply K2|]. apply H2 in Hq as <-. by left.
  - rewrite umounts_app, reverse_app. apply StronglySorted_app. split_and!; [| |done].
    + intros a b Ha Hb. rewrite elem_of_reverse in Ha, Hb. apply H2 in Ha as <-. by apply Hp, K2.
    + apply (deeper_same p). apply Forall_reverse, Forall_forall, H2.
  - by etrans.
  - intros [? ?]%andb_true_iff q Hq. apply elem_of_cons in Hq as [->|Hq]; [|by apply K5].
    rewrite <- extend_app. apply gone_extend; [by rewrite extend_app|by apply H4].
Qed.

Lemma cleanup_spec s : exists new b,
  cleanup_anbox_mounts sys cfg s = (extend new s, Ret b) /\ Forall is_umount new /\
  (forall p, p ∈ umounts new -> ours cfg p = true /\ p ∈ now s) /\ StronglySorted deeper (reverse (umounts new)) /\
  (b = true -> forall p, p ∈ now (extend new s) -> ours cfg p = true -> no_mount_said sys (new ++ done_ s) p).
Proof.
  set (l := stale_mounts cfg (now s)).
  assert (Hl : forall p, p ∈ l <-> ours cfg p = true /\ p ∈ now s).
  { intros p. unfold l, stale_mounts. rewrite merge_sort_Permutation, elem_of_remove_dups.
    rewrite list_elem_of_In, filter_In, <- list_elem_of_In. tauto. }
  destruct (umount_each_spec l s) as (new & b & E & H1 & H2 & H3 & H4 & H5); [apply StronglySorted_merge_sort; apply _|].
  exists new, b. split_and!; [exact E|done| |done|].
  - intros p Hp. by apply Hl, H2.
  - intros -> p Hp Ho. destruct (H5 eq_refl p) as [H|H]; [by apply Hl; auto|done|exact H].
Qed.
End unmounting.

(** * Lemmas: giving back *)

Definition clean (s : manager) : Prop := mounts_ s = [] /\ nothing_left (done_ s).
Lemma ready_clean s : ready nothing [] s <-> clean s.
Proof. unfold ready, clean. rewrite owned_clean. split; [tauto|]. intros [H1 H2]. split_and!; try done. apply sublist_nil_l. Qed.
Lemma ready_weaken x l s : ready nothing l s -> ready x l s.
Proof. intros (H1 & H2 & H3). split_and!; [done| |done]. by apply owned_drop. Qed.

Section release.
Context (sys : host_system).
Lemma do_runs a s : exists b, do_ sys a s = (note a b s, Ret tt).
Proof. by exists (works sys (done_ s) a). Qed.

Lemma release_loop_runs d x l s : owned (Res (l_path d :: r_loops x) (l_fd d :: r_fds x)) l (done_ s) ->
  exists new, release_loop sys d s = (extend new s, Ret tt) /\ owned x l (new ++ done_ s) /\ umounts new = [].
Proof.
  intros (H1 & H2 & H3). cbn [r_loops r_fds app] in H2, H3. unfold release_loop.
  destruct (do_runs (LoopClear (l_path d)) s) as [b1 E1]. rewrite (M_bind_ret _ _ _ _ _ E1).
  destruct (do_runs (Close (l_fd d)) (note (LoopClear (l_path d)) b1 s)) as [b2 E2]. rewrite (M_bind_ret _ _ _ _ _ E2).
  destruct (do_runs (Close (l_fd d)) (note (Close (l_fd d)) b2 (note (LoopClear (l_path d)) b1 s))) as [b3 ->].
  exists [(Close (l_fd d), b3); (Close (l_fd d), b2); (LoopClear (l_path d), b1)]. split; [done|]. split; [|done]. split_and!; cbn.
  - exact H1.
  - by apply remove_one_held.
  - apply remove_one_less. by apply remove_one_held.
Qed.

Lemma release_entry_runs e x l s : owned x (e :: l) (done_ s) ->
  exists new, release_entry sys e s = (extend new s, Ret tt) /\ owned x l (new ++ done_ s) /\ umounts new = [m_target e].
Proof.
  intros (H1 & H2 & H3). unfold release_entry. destruct (do_runs (Umount (m_target e)) s) as [b E].
  rewrite (M_bind_ret _ _ _ _ _ E). destruct e as [target [d|]]; cbn [m_loop m_target] in *.
  - destruct (release_loop_runs d x l (note (Umount target) b s)) as (new & -> & H & Hu).
    { split_and!; cbn.
      - by apply remove_one_held.
      - etrans; [exact H2|]. cbn. by rewrite Permutation_middle.
      - etrans; [exact H3|]. cbn. by rewrite Permutation_middle. }
    exists (new ++ [(Umount target, b)]). rewrite <- extend_app, umounts_app, <- app_assoc, Hu. done.
  - exists [(Umount target, b)]. split; [done|]. split; [|done]. split_and!; [|exact H2|exact H3]. cbn. by apply remove_one_held.
Qed.

Lemma release_all_runs l : forall x s, owned x l (done_ s) ->
  exists new, for_each (release_entry sys) l s = (extend new s, Ret tt) /\ owned x [] (new ++ done_ s) /\
  umounts new = reverse (targets l).
Proof.
  induction l as [|e l IH]; intros x s H.
  { exists []. by rewrite extend_nil. }
  cbn [for_each]. destruct (release_entry_runs e x l s H) as (n1 & E & H1 & U1). rewrite (M_bind_ret _ _ _ _ _ E).
  destruct (IH x (extend n1 s) H1) as (n2 & -> & H2 & U2). exists (n2 ++ n1).
  rewrite extend_app, <- app_assoc, umounts_app, U1, U2. unfold targets. by rewrite fmap_cons, reverse_cons.
Qed.

(** [mounts_.clear()] asks for the unmount of each entry once, from the first
    to the last. *)
Lemma clear_mounts_runs x s : owned x (mounts_ s) (done_ s) ->
  exists new, clear_mounts sys s = (with_mounts [] (extend new s), Ret tt) /\ owned x [] (new ++ done_ s) /\
  umounts new = reverse (targets (mounts_ s)).
Proof.
  intros H. destruct (release_all_runs (mounts_ s) x (with_mounts [] s) H) as (new & E & H1 & H2).
  exists new. by split_and!.
Qed.
End release.

(** * Lemmas: the judgement *)

(** From a state with [P] the call returns with [Q], or throws with nothing
    held but the entries. *)
Definition does {A} (P : manager -> Prop) (c : M manager A) (Q : A -> manager -> Prop) : Prop := forall s, P s ->
  match c s with
  | (s', Ret a) => Q a s'
  | (s', Throw _) => owned nothing (mounts_ s') (done_ s')
  | _ => False
  end.

Lemma does_bind {A B} P R Q (c : M manager A) (k : A -> M manager B) :
  does P c R -> (forall a, does (R a) (k a) Q) -> does P (c ≫= k) Q.
Proof.
  intros H1 H2 s Hs. specialize (H1 s Hs). unfold mbind, M_bind. destruct (c s) as [s1 [a|e| |]]; try done. by apply H2.
Qed.
Lemma does_ret {A} (P : manager -> Prop) (a : A) Q : (forall s, P s -> Q a s) -> does P (mret a) Q.
Proof. intros H s Hs. by apply H. Qed.
Lemma does_throw {A} e l (Q : A -> manager -> Prop) : does (ready nothing l) (throw e) Q.
Proof. intros s (<- & H & _). done. Qed.
Lemma does_pre {A} (P P' : manager -> Prop) (c : M manager A) Q : (forall s, P s -> P' s) -> does P' c Q -> does P c Q.
Proof. intros H1 H2 s Hs. by apply H2, H1. Qed.
Lemma does_post {A} P (c : M manager A) (R Q : A -> manager -> Prop) : does P c R -> (forall a s, R a s -> Q a s) -> does P c Q.
Proof. intros H1 H2 s Hs. specialize (H1 s Hs). destruct (c s) as [s1 [a|e| |]]; try done. by apply H2. Qed.
Lemma does_view {A} P (f : history -> A) : does P (view f) (fun _ => P).
Proof. by intros s Hs. Qed.
Lemma does_get P : does P get (fun _ => P).
Proof. by intros s Hs. Qed.
Lemma does_on P (b : bool) c : does P c (fun _ => P) -> does P (on b c) (fun _ => P).
Proof. intros H. destruct b; [done|]. by apply does_ret. Qed.
Lemma does_for_each {A} P (f : A -> M manager unit) l : (forall x, does P (f x) (fun _ => P)) -> does P (for_each f l) (fun _ => P).
Proof.
  intros H. induction l as [|x l IH]; [by apply does_ret|]. cbn [for_each]. apply (does_bind _ (fun _ => P)); [apply H|done].
Qed.

(** The entries change on the way. *)
Definition settled (s : manager) : Prop := exists l, ready nothing l s.
Lemma does_settled {A} (c : M manager A) Q : (forall l, does (ready nothing l) c Q) -> does settled c Q.
Proof. intros H s [l Hs]. by apply (H l). Qed.
Lemma does_perform sys x l a : acquires a = false -> does (ready x l) (perform sys a) (fun _ => ready x l).
Proof. intros Ha s Hs. cbn. apply note_ready; auto. Qed.
Lemma does_do sys x l a : acquires a = false -> does (ready x l) (do_ sys a) (fun _ => ready x l).
Proof. intros Ha s Hs. cbn. apply note_ready; auto. Qed.
Lemma does_need sys l a : acquires a = false -> does (ready nothing l) (need sys a) (fun _ => ready nothing l).
Proof.
  intros Ha. apply (does_bind _ (fun _ => ready nothing l)); [by apply does_perform|].
  intros [|]; [by apply does_ret|]. apply does_throw.
Qed.
Lemma does_ensure sys l p : does (ready nothing l) (ensure_directory sys p) (fun _ => ready nothing l).
Proof.
  apply (does_bind _ (fun _ => ready nothing l)); [apply does_view|]. intros b. apply does_on. by apply does_need.
Qed.

(** * Lemmas: descriptors and loop devices *)

Lemma ready_close x l s fd b : ready (with_fd fd x) l s -> ready x l (note (Close fd) b s).
Proof. intros (H1 & H2 & H3). split_and!; [done| |done]. by apply close_owned. Qed.
Lemma does_close sys x l fd : does (ready (with_fd fd x) l) (do_ sys (Close fd)) (fun _ => ready x l).
Proof. intros s Hs. cbn. by apply ready_close. Qed.
Lemma does_open sys x l p : does (ready x l) (open_file sys p)
  (fun o => ready (match o with Some fd => with_fd fd x | None => x end) l).
Proof.
  intros s (H1 & (H2 & H3 & H4) & H5). unfold open_file. destruct (opens sys (done_ s) p); [|done].
  split_and!; [done| |done]. split_and!; [done..|]. cbn. by apply submseteq_skip.
Qed.
Definition fresh (d : loop_device) : res := Res [] [l_fd d].
Lemma fresh_loose d l s : ready (fresh d) l s -> ready (loose d) l s.
Proof. intros (H1 & (H2 & H3 & H4) & H5). split_and!; [done| |done]. split_and!; [done| |done]. by apply submseteq_cons. Qed.
Lemma ready_swap a b x l s : ready (with_fd a (with_fd b x)) l s -> ready (with_fd b (with_fd a x)) l s.
Proof.
  intros (H1 & (H2 & H3 & H4) & H5). split_and!; [done| |done]. split_and!; [done..|]. etrans; [exact H4|].
  cbn. by rewrite Permutation_swap.
Qed.
Lemma does_new_loop sys l : does (ready nothing l) (new_loop_device sys)
  (fun o => ready (match o with Some d => fresh d | None => nothing end) l).
Proof.
  eapply does_bind; [apply does_open|]. intros [ctl|]; [|by apply does_ret].
  apply (does_bind _ (fun _ => ready (with_fd ctl nothing) l)); [apply does_view|]. intros n. destruct n as [k|].
  2: { eapply does_bind; [apply does_close|]. intros ?. by apply does_ret. }
  eapply does_bind; [apply does_open|]. intros [fd|].
  - eapply does_bind; [eapply does_pre; [apply ready_swap|apply does_close]|]. intros ?. by apply does_ret.
  - eapply does_bind; [apply does_close|]. intros ?. by apply does_ret.
Qed.
Lemma does_release_loop sys d l : does (ready (loose d) l) (release_loop sys d) (fun _ => ready nothing l).
Proof.
  intros s (H1 & H2 & H3). destruct (release_loop_runs sys d nothing l s H2) as (new & -> & H & _).
  split_and!; [done..|]. unfold oldest_first. etrans; [exact H3|]. clear. induction new as [|[a b] new IH]; [done|].
  etrans; [exact IH|]. apply (ever_extends a b).
Qed.

Lemma set_fd_ready d file x l s : ready (Res (r_loops x) (r_fds x)) l s ->
  ready (Res (l_path d :: r_loops x) (r_fds x)) l (note (LoopSetFd (l_path d) file) true s).
Proof. intros (H1 & (H2 & H3 & H4) & H5). split_and!; [done| |done]. split_and!; [done| |done]. cbn. by apply submseteq_skip. Qed.
Lemma clear_ready d x l b s : ready (Res (l_path d :: r_loops x) (r_fds x)) l s ->
  ready x l (note (LoopClear (l_path d)) b s).
Proof. intros (H1 & (H2 & H3 & H4) & H5). split_and!; [done| |done]. split_and!; [done| |done]. cbn. by apply remove_one_held. Qed.
Lemma does_attach sys d file ro l :
  does (ready (fresh d) l) (attach_file sys d file ro) (fun _ => ready (loose d) l).
Proof.
  eapply does_bind; [apply does_open|]. intros [fd|]; [|apply does_ret; intros s; apply fresh_loose].
  apply (does_bind _ (fun b : bool => ready (if b then with_fd fd (loose d) else with_fd fd (fresh d)) l)).
  { intros s Hs. cbn. destruct (works sys (done_ s) _); [by apply (set_fd_ready d file (with_fd fd (fresh d)))|].
    apply note_ready; auto. }
  intros [|]; cbn [negb].
  2: { eapply does_bind; [apply does_close|]. intros ?. apply does_ret. intros s. apply fresh_loose. }
  apply (does_bind _ (fun _ => ready (with_fd fd (loose d)) l)); [apply does_view|]. intros st.
  apply (does_bind _ (fun _ => ready (with_fd fd (loose d)) l)).
  { destruct st; [by apply does_perform|by apply does_ret]. }
  intros ok. apply (does_bind _ (fun _ => ready (with_fd fd (loose d)) l)).
  { apply does_on. by apply does_do. }
  intros ?. eapply does_bind; [apply does_close|]. intros ?. by apply does_ret.
Qed.

(** * Lemmas: mounts *)

(** A mount of [target] that has no entry yet. *)
Definition pending (target : bytes) (x : res) (l : list entry) (s : manager) : Prop :=
  mounts_ s = l /\ owned x (l ++ [MountEntry target None]) (done_ s) /\
  oldest_first (l ++ [MountEntry target None]) (done_ s).
Lemma targets_snoc l e : targets (l ++ [e]) = targets l ++ [m_target e].
Proof. unfold targets. by rewrite fmap_app. Qed.
Lemma loops_snoc l e : entry_loops (l ++ [e]) = entry_loops l ++ option_list (m_loop e).
Proof. unfold entry_loops. rewrite omap_app. cbn. by destruct (m_loop e). Qed.
Lemma mounted_pending target x l a s : ready x l s ->
  (exists image, a = MountSquashfuse image target) \/ (exists u v w z, a = Mount u target v w z) ->
  pending target x l (note a true s).
Proof.
  intros (H1 & (H2 & H3 & H4) & H5) Ha.
  assert (E : mounted_now ((a, true) :: done_ s) = target :: mounted_now (done_ s) /\
    mounted_ever ((a, true) :: done_ s) = target :: mounted_ever (done_ s) /\
    attached_now ((a, true) :: done_ s) = attached_now (done_ s) /\ open_now ((a, true) :: done_ s) = open_now (done_ s)).
  { by destruct Ha as [[i ->]|(u & v & w & z & ->)]. }
  destruct E as (E1 & E2 & E3 & E4). unfold pending, owned, oldest_first. cbn [note done_ mounts_].
  rewrite E1, E2, E3, E4, loops_snoc, targets_snoc, reverse_snoc. cbn [m_loop m_target option_list]. rewrite app_nil_r.
  split_and!; try done; [|by apply sublist_skip]. rewrite <- Permutation_cons_append. by apply submseteq_skip.
Qed.
Lemma umount_pending target x l b s : pending target x l s -> ready x l (note (Umount target) b s).
Proof.
  intros (H1 & (H2 & H3 & H4) & H5). unfold oldest_first in H5. rewrite loops_snoc in *. rewrite targets_snoc in *.
  rewrite reverse_snoc in H5. cbn [m_loop m_target option_list] in *. rewrite app_nil_r in *.
  split_and!; [done| |]; [split_and!; [|done..]; cbn; apply remove_one_held; by rewrite Permutation_cons_append|].
  unfold oldest_first. cbn. etrans; [|exact H5]. by apply sublist_cons.
Qed.
Lemma note_pending target x l a b s : acquires a = false -> pending target x l s -> pending target x l (note a b s).
Proof.
  intros Ha (H1 & H2 & H3). split; [done|]. split; [apply note_owned; auto|]. unfold oldest_first. etrans; [exact H3|]. apply ever_extends.
Qed.
Lemma add_plain target l s : pending target nothing l s ->
  ready nothing (l ++ [MountEntry target None]) (with_mounts (mounts_ s ++ [MountEntry target None]) s).
Proof. intros (<- & H2 & H3). by split_and!. Qed.
Lemma add_loop target d l s : pending target (loose d) l s ->
  ready nothing (l ++ [MountEntry target (Some d)]) (with_mounts (mounts_ s ++ [MountEntry target (Some d)]) s).
Proof.
  intros (<- & (H2 & H3 & H4) & H5). unfold oldest_first in H5. rewrite loops_snoc in *. rewrite targets_snoc in *.
  cbn [m_loop m_target option_list] in *. rewrite app_nil_r in *.
  split; [done|]. unfold owned, oldest_first. rewrite loops_snoc, targets_snoc. cbn [m_loop m_target option_list done_ with_mounts].
  rewrite !fmap_app. split; [|done]. cbn in *. split_and!; [done| |]; by rewrite <- Permutation_cons_append.
Qed.

Section mounting.
Context (sys : host_system).
Lemma does_create source target fs_type flags data x l :
  does (ready x l) (mount_entry_create sys source target fs_type flags data)
    (fun b : bool => if b then pending target x l else ready x l).
Proof.
  unfold mount_entry_create.
  apply (does_bind _ (fun b : bool => if b then pending target x l else ready x l)).
  { intros s Hs. cbn. destruct (works sys (done_ s) _); [apply mounted_pending; eauto 10|apply note_ready; auto]. }
  intros [|]; cbn [negb]; [|by apply does_ret]. destruct (_ =? 0); [by apply does_ret|].
  apply (does_bind _ (fun _ => pending target x l)); [intros s Hs; cbn; by apply note_pending|].
  intros [|]; [by apply does_ret|]. apply (does_bind _ (fun _ => ready x l)); [|intros ?; by apply does_ret].
  intros s Hs. cbn. by apply umount_pending.
Qed.
Lemma does_plain source target fs_type flags data l :
  does (ready nothing l) (mount_plain sys source target fs_type flags data) (fun _ => settled).
Proof.
  eapply does_bind; [apply does_create|]. intros [|]; [|apply does_ret; intros s Hs; by exists l].
  intros s Hs. cbn. eexists. by apply add_plain.
Qed.
Lemma does_mount_loop d target fs_type flags l :
  does (ready (loose d) l) (mount_loop sys d target fs_type flags)
    (fun b : bool => if b then settled else ready (loose d) l).
Proof.
  eapply does_bind; [apply does_create|]. intros [|]; [|by apply does_ret].
  intros s Hs. cbn. eexists. by apply add_loop.
Qed.
(** The root file system: its mount, or nothing. *)
Lemma does_rootfs cfg image fs_type squashfuse :
  does clean (mount_rootfs sys cfg image fs_type squashfuse) (fun b : bool => if b then settled else clean).
Proof.
  apply (does_pre _ (ready nothing [])); [intros s; apply ready_clean|].
  apply (does_post _ _ (fun b : bool => if b then settled else ready nothing [])).
  2: { intros [|] s Hs; [done|]. by apply ready_clean. }
  unfold mount_rootfs. destruct squashfuse; cbn [negb].
  - apply (does_bind _ (fun _ => ready nothing [])); [apply does_view|]. intros fuse.
    apply (does_bind _ (fun _ => ready nothing [])); [destruct fuse; [apply does_view|by apply does_ret]|].
    intros [|]; cbn [negb]; [|by apply does_ret].
    apply (does_bind _ (fun b : bool => if b then pending (rootfs_dir cfg) nothing [] else ready nothing [])).
    + intros s Hs. unfold perform. destruct (works _ _ _); [apply mounted_pending; eauto|apply note_ready; auto].
    + intros [|]; [|by apply does_ret]. intros s Hs. eexists. by apply add_plain.
  - eapply does_bind; [apply does_new_loop|]. intros [d|]; [|by apply does_ret].
    eapply does_bind; [apply does_attach|]. intros [|]; cbn [negb].
    2: { eapply does_bind; [apply does_release_loop|]. intros ?. by apply does_ret. }
    eapply does_bind; [apply does_mount_loop|]. intros [|]; [by apply does_ret|].
    eapply does_bind; [apply does_release_loop|]. intros ?. by apply does_ret.
Qed.
End mounting.

(** * Lemmas: setting up *)

(** What a step leaves: [T] where it succeeds, nothing where it does not. *)
Definition or_clean (T : manager -> Prop) (b : bool) (s : manager) : Prop := if b then T s else clean s.
Definition newest_first (s : manager) : Prop := targets (mounts_ s) `sublist_of` mounted_ever (done_ s).
Definition finished (b : bool) (s : manager) : Prop :=
  or_clean (fun s => newest_first s /\ owned nothing (mounts_ s) (done_ s)) b s.
Lemma ready_settled l s : ready nothing l s -> settled s.
Proof. by exists l. Qed.
#[local] Hint Resolve ready_settled : anbox.

Section setting_up.
Context (sys : host_system) (cfg : build) (android_img_path_ vendor_img_path_ : bytes) (law : umount_law sys).

Lemma does_cleanup x l : does (ready x l) (cleanup_anbox_mounts sys cfg) (fun _ => ready x l).
Proof.
  intros s Hs. destruct (cleanup_spec sys cfg law s) as (new & b & -> & H & _). by apply extend_ready.
Qed.
Lemma does_clear x l : does (ready x l) (clear_mounts sys) (fun _ => ready x []).
Proof.
  intros s (H1 & H2 & _). rewrite <- H1 in H2. destruct (clear_mounts_runs sys x s H2) as (new & -> & H & _).
  split_and!; [done|exact H|apply sublist_nil_l].
Qed.
Lemma does_release x l : does (ready x l) (release_mounts sys cfg) (fun _ => ready x []).
Proof. apply (does_bind _ (fun _ => ready x l)); [apply does_cleanup|]. intros ?. apply does_clear. Qed.
Lemma does_refuse l T : does (ready nothing l) (refuse sys cfg) (or_clean T).
Proof.
  eapply does_bind; [apply does_release|]. intros ?. apply does_ret. intros s. apply ready_clean.
Qed.
Lemma does_refuse_loop d l T : does (ready (loose d) l) (refuse_loop sys cfg d) (or_clean T).
Proof.
  eapply does_bind; [apply does_release|]. intros ?. eapply does_bind; [apply does_release_loop|]. intros ?.
  apply does_ret. intros s. apply ready_clean.
Qed.
Lemma does_safe_umount p l : does (ready nothing l) (safe_umount sys p) (fun _ => ready nothing l).
Proof. intros s Hs. destruct (safe_umount_spec sys law p s) as (new & b & -> & H & _). by apply extend_ready. Qed.

(** One step of a call that keeps the entries. *)
Ltac keep P c := apply (does_bind P (fun _ => P)); [lazymatch goal with
    | |- does _ (view _) _ => apply does_view
    | |- does _ (perform _ _) _ => by apply does_perform
    | |- does _ (do_ _ _) _ => by apply does_do
    | |- does _ (need _ _) _ => by apply does_need
    | |- does _ (ensure_directory _ _) _ => apply does_ensure
    | |- does _ get _ => apply does_get
    | |- does _ (safe_umount _ _) _ => apply does_safe_umount
    | _ => c
    end|intros ?].
Ltac split_if :=
  match goal with
  | |- does _ (if negb ?b then _ else _) _ => destruct b; cbn [negb]
  | |- does _ (if ?b then _ else _) _ => destruct b
  | |- does _ (continue_if _ _ ?b _) _ => destruct b; cbn [continue_if]
  | |- does _ (match ?o with _ => _ end) _ => destruct o
  end.
Ltac go P c := repeat first [split_if|lazymatch goal with
  | |- does _ (mret _) _ => apply does_ret; cbn; by eauto with anbox
  | |- does _ (throw _) _ => apply does_throw
  | |- does _ (refuse _ _) _ => apply does_refuse
  | |- does _ (mbind _ _) _ => keep P c
  end].

Lemma does_secure path t l : does (ready nothing l) (is_secure_root_owned sys path t) (fun _ => ready nothing l).
Proof. unfold is_secure_root_owned. go (ready nothing l) fail. Qed.
Lemma does_android_selected image l :
  does (ready nothing l) (selected_android_image sys cfg image) (fun _ => ready nothing l).
Proof. unfold selected_android_image. go (ready nothing l) ltac:(apply does_secure). Qed.
Lemma does_data_selected l : does (ready nothing l) (selected_data_image sys cfg) (fun _ => ready nothing l).
Proof.
  unfold selected_data_image. keep (ready nothing l) fail. split_if; [|by apply does_ret].
  keep (ready nothing l) ltac:(apply does_secure). keep (ready nothing l) ltac:(split_if; [apply does_secure|by apply does_ret]).
  split_if; [by apply does_ret|apply does_throw].
Qed.
Lemma does_machine paths l : does (ready nothing l) (first_machine sys paths) (fun _ => ready nothing l).
Proof.
  induction paths as [|p paths IH]; cbn [first_machine]; [by apply does_ret|].
  keep (ready nothing l) fail. keep (ready nothing l) ltac:(split_if; [apply does_view|by apply does_ret]).
  split_if; [done|by apply does_ret].
Qed.
Lemma does_architecture rootfs l : does (ready nothing l) (validate_guest_architecture sys rootfs) (fun _ => ready nothing l).
Proof. unfold validate_guest_architecture. go (ready nothing l) ltac:(apply does_machine). Qed.

(** The shell of a generic system image. *)
Lemma does_unmount_busy p l : does (ready nothing l) (unmount_busy sys p) (fun _ => ready nothing l).
Proof.
  intros s Hs. unfold unmount_busy. destruct (remove_tree sys (done_ s) p).
  - apply note_ready; auto.
  - assert (H : does (ready nothing l) (b ← safe_umount sys p; if negb b then throw SystemError else need sys (RemoveTree p))
      (fun _ => ready nothing l)).
    { keep (ready nothing l) fail. split_if; [by apply does_need|apply does_throw]. }
    apply H. apply note_ready; auto.
  - destruct Hs as (<- & Hs & _). cbn. by apply note_owned; [left|].
Qed.
Lemma does_copy_entry source shell n l :
  does (ready nothing l) (copy_root_entry sys cfg source shell n) (or_clean (ready nothing l)).
Proof. unfold copy_root_entry. go (ready nothing l) fail. Qed.
Lemma does_copy_root source shell names l :
  does (ready nothing l) (copy_root sys cfg source shell names) (or_clean (ready nothing l)).
Proof.
  induction names as [|n names IH]; cbn [copy_root]; [by apply does_ret|].
  eapply does_bind; [apply does_copy_entry|]. intros [|]; [done|by apply does_ret].
Qed.
Lemma does_bind_points shell names : does settled (bind_points sys cfg shell names) (or_clean settled).
Proof.
  induction names as [|n names IH]; cbn [bind_points]; [by apply does_ret|]. apply does_settled. intros l.
  eapply does_bind; [apply does_plain|]. intros [|]; [done|]. apply does_settled. intros ?. apply does_refuse.
Qed.
Lemma does_listing dir l : does (ready nothing l) (listing sys dir) (fun _ => ready nothing l).
Proof. unfold listing. go (ready nothing l) fail. Qed.
Lemma does_shell source : does settled (setup_gsi_rootfs_shell sys cfg source) (or_clean settled).
Proof.
  apply does_settled. intros l. unfold setup_gsi_rootfs_shell. keep (ready nothing l) ltac:(apply does_view).
  split_if; [apply does_refuse|]. keep (ready nothing l) fail. keep (ready nothing l) ltac:(apply does_listing).
  keep (ready nothing l) ltac:(apply does_for_each; intros; apply does_unmount_busy).
  keep (ready nothing l) ltac:(apply does_listing).
  eapply does_bind; [apply does_copy_root|]. intros [|]; cbn [negb]; [|by apply does_ret].
  eapply does_bind; [apply does_plain|]. intros [|]; [apply does_bind_points|].
  apply does_settled. intros ?. apply does_refuse.
Qed.
Lemma does_overlay : does settled (setup_rootfs_overlay sys cfg) (or_clean settled).
Proof.
  apply does_settled. intros l. unfold setup_rootfs_overlay.
  keep (ready nothing l) ltac:(apply does_for_each; intros; apply does_ensure).
  eapply does_bind; [apply does_plain|]. intros [|]; [by apply does_ret|]. apply does_settled. intros ?. apply does_refuse.
Qed.

(** Steps with what follows them. *)
Context (T : bool -> manager -> Prop) (HT : forall s, clean s -> T false s).
Lemma does_refuse_to l : does (ready nothing l) (refuse sys cfg) T.
Proof.
  eapply does_post; [apply (does_refuse l (fun _ => False))|]. intros [|] s; [done|]. apply HT.
Qed.
Lemma does_image image target fs_type ro flags k : does settled k T ->
  does settled (mount_image sys cfg image target fs_type ro flags k) T.
Proof.
  intros Hk. apply does_settled. intros l. unfold mount_image.
  assert (Hg : forall d l, does (ready (loose d) l) (refuse_loop sys cfg d) T).
  { intros d l'. eapply does_post; [apply (does_refuse_loop d l' (fun _ => False))|]. intros [|] s; [done|]. apply HT. }
  eapply does_bind; [apply does_new_loop|]. intros [d|]; [|apply does_refuse_to].
  eapply does_bind; [apply does_attach|]. intros [|]; cbn [negb]; [|apply Hg].
  eapply does_bind; [apply does_mount_loop|]. intros [|]; [done|apply Hg].
Qed.
Lemma does_vendor image k : does settled k T -> does settled (mount_vendor sys cfg image k) T.
Proof.
  intros Hk. apply does_settled. intros l. unfold mount_vendor. keep (ready nothing l) fail.
  split_if; [|apply does_refuse_to]. keep (ready nothing l) fail. split_if; try apply does_refuse_to.
  keep (ready nothing l) ltac:(apply does_view). split_if; [apply does_refuse_to|]. keep (ready nothing l) fail.
  eapply does_pre; [apply ready_settled|]. by apply does_image.
Qed.
Lemma does_bind_vendor rootfs k : does settled k T -> does settled (bind_vendor sys cfg rootfs k) T.
Proof.
  intros Hk. apply does_settled. intros l. unfold bind_vendor. keep (ready nothing l) fail.
  split_if; [|apply does_refuse_to]. eapply does_bind; [apply does_plain|]. clear l. intros [|]; cbn [continue_if];
    apply does_settled; intros l; [|apply does_refuse_to].
  do 2 keep (ready nothing l) fail. eapply does_pre; [apply ready_settled|done].
Qed.
Lemma does_data_image k : does settled k T -> does settled (mount_data_image sys cfg k) T.
Proof.
  intros Hk. apply does_settled. intros l. unfold mount_data_image. keep (ready nothing l) ltac:(apply does_data_selected).
  split_if; [eapply does_pre; [apply ready_settled|done]|]. keep (ready nothing l) fail.
  eapply does_pre; [apply ready_settled|]. by apply does_image.
Qed.
Lemma does_directories rootfs names k : does settled k T -> does settled (bind_directories sys cfg rootfs names k) T.
Proof.
  intros Hk. induction names as [|n names IH]; cbn [bind_directories]; [done|]. apply does_settled. intros l.
  assert (Hb : does (ready nothing l) (b ← mount_plain sys (join (data_dir cfg) n) (join rootfs n) [] bind_private [];
    continue_if sys cfg b (bind_directories sys cfg rootfs names k)) T).
  { eapply does_bind; [apply does_plain|]. intros [|]; [done|]. apply does_settled. intros ?. apply does_refuse_to. }
  keep (ready nothing l) fail. split_if; [exact Hb|]. do 2 keep (ready nothing l) fail.
  split_if; [exact Hb|apply does_refuse_to].
Qed.
End setting_up.

Section finishing.
Context (sys : host_system) (cfg : build) (android_img_path_ vendor_img_path_ : bytes) (law : umount_law sys).

Lemma clean_finished s : clean s -> finished false s.
Proof. done. Qed.
#[local] Hint Resolve clean_finished : anbox.

Lemma does_reverse : does settled reverse_mounts finished.
Proof.
  intros s (l & <- & (H1 & H2 & H3) & H4). cbn. split; unfold newest_first, targets, entry_loops, owned in *; cbn.
  - by rewrite fmap_reverse.
  - unfold targets, entry_loops. by rewrite fmap_reverse, !reverse_Permutation.
Qed.
Lemma does_finish vendor rootfs : does settled (finish_mounts sys cfg vendor rootfs) finished.
Proof.
  assert (H : does settled (mount_data_image sys cfg (bind_directories sys cfg rootfs [str "cache"; str "data"] reverse_mounts)) finished).
  { apply does_data_image; [done..|]. apply does_directories; [done..|]. apply does_reverse. }
  unfold finish_mounts. destruct vendor; [|done]. by apply does_bind_vendor.
Qed.
Lemma does_modify (f : manager -> manager) : (forall s, mounts_ (f s) = mounts_ s /\ done_ (f s) = done_ s) ->
  does settled (modify f) (fun _ => settled).
Proof. intros Hf s [l Hs]. exists l. destruct (Hf s) as [E1 E2]. unfold ready. cbn. by rewrite E1, E2. Qed.
Lemma does_choose vendor : does settled (choose_rootfs sys cfg vendor) finished.
Proof.
  unfold choose_rootfs. apply (does_bind _ (fun _ => settled)); [apply does_get|]. intros s0.
  apply (does_bind _ (fun _ => settled)); [apply does_on; by apply does_modify|]. intros _.
  apply (does_bind _ (fun _ => settled)); [apply does_get|]. intros s1.
  assert (Hrest : does settled (modify (with_combined true) ≫= fun _ => finish_mounts sys cfg vendor (combined_rootfs_dir cfg)) finished).
  { apply (does_bind _ (fun _ => settled)); [by apply does_modify|]. intros _. apply does_finish. }
  destruct vendor; [|destruct (enable_rootfs_overlay_ s1); [|apply does_finish]].
  - eapply does_bind; [by apply does_shell|]. intros [|]; cbn [negb]; [exact Hrest|by apply does_ret].
  - eapply does_bind; [by apply does_overlay|]. intros [|]; cbn [negb]; [exact Hrest|by apply does_ret].
Qed.
Lemma does_setup_vendor : does settled (setup_vendor sys cfg vendor_img_path_) finished.
Proof.
  unfold setup_vendor. apply (does_bind _ (fun _ => settled)).
  { destruct (is_empty vendor_img_path_); [apply does_view|by apply does_ret]. }
  intros b. destruct (is_empty (if is_empty vendor_img_path_ then _ else _)); [apply does_choose|].
  apply does_vendor; [done..|]. apply does_choose.
Qed.
Lemma does_android image fs_type f : does clean (mount_android sys cfg vendor_img_path_ image fs_type f) finished.
Proof.
  unfold mount_android. apply (does_bind _ (fun _ => clean)); [apply does_view|]. intros b.
  apply (does_bind _ (fun _ => clean)); [apply does_get|]. intros s0. destruct (negb b && _ && _); [by apply does_ret|].
  apply (does_bind _ (fun _ => clean)); [by apply does_on; intros s|]. intros _.
  apply (does_bind _ (fun _ => clean)); [apply does_get|]. intros s1. destruct (enable_squashfuse_ s1 && _); [by apply does_ret|].
  eapply does_bind; [apply does_rootfs|]. intros [|]; cbn [negb]; [|by apply does_ret].
  apply does_settled. intros l. eapply does_bind; [by apply does_architecture|]. intros [|]; cbn [continue_if].
  - eapply does_pre; [apply ready_settled|apply does_setup_vendor].
  - by apply does_refuse_to.
Qed.
Lemma does_setup : does clean (setup_mounts sys cfg android_img_path_ vendor_img_path_) finished.
Proof.
  unfold setup_mounts. apply (does_bind _ (fun _ => ready nothing [])); [intros s Hs; by apply ready_clean|]. intros _.
  assert (Hret : does (ready nothing []) (mret false) finished) by (apply does_ret; intros s Hs; by apply ready_clean).
  apply (does_bind _ (fun _ => ready nothing [])); [apply does_android_selected|]. intros image.
  apply (does_bind _ (fun _ => ready nothing [])); [apply does_view|]. intros [|]; cbn [negb]; [|done].
  apply (does_bind _ (fun _ => ready nothing [])); [apply does_view|]. intros [|]; [done|].
  apply (does_bind _ (fun _ => ready nothing [])); [apply does_view|]. intros b.
  apply (does_bind _ (fun _ => ready nothing [])); [apply does_on; by apply does_need|]. intros _.
  apply (does_bind _ (fun _ => ready nothing [])); [apply does_view|]. intros f.
  destruct (filesystem_type_for f); [|done]. eapply does_pre; [intros s; apply ready_clean|apply does_android].
Qed.

Lemma does_detach expected files l : does (ready nothing l) (detach_each sys expected files) (fun _ => ready nothing l).
Proof.
  induction files as [|[name [backing|]] files IH]; cbn [detach_each detach_loop]; [by apply does_ret| |].
  - apply (does_bind _ (fun _ => ready nothing l)).
    + destruct (_ && _ && _); [|by apply does_ret]. eapply does_bind; [apply does_open|]. intros [fd|]; [|by apply does_ret].
      apply (does_bind _ (fun _ => ready (with_fd fd nothing) l)); [by apply does_perform|]. intros b.
      eapply does_bind; [apply does_close|]. intros ?. by apply does_ret.
    + intros a. apply (does_bind _ (fun _ => ready nothing l)); [done|]. intros b. by apply does_ret.
  - apply (does_bind _ (fun _ => ready nothing l)); [by apply does_ret|]. intros a.
    apply (does_bind _ (fun _ => ready nothing l)); [done|]. intros b. by apply does_ret.
Qed.
Lemma finished_held b s : finished b s -> owned nothing (mounts_ s) (done_ s).
Proof. destruct b; [by intros [_ H]|]. intros [-> H]. by apply owned_clean. Qed.
Lemma clear_held s : owned nothing (mounts_ s) (done_ s) -> exists s', clear_mounts sys s = (s', Ret tt) /\ clean s'.
Proof.
  intros H. destruct (clear_mounts_runs sys nothing s H) as (new & E & H1 & _). eexists. split; [exact E|].
  split; [done|]. by apply owned_clean.
Qed.
Lemma does_container_manager : does clean (container_manager sys cfg android_img_path_ vendor_img_path_) (fun _ => clean).
Proof.
  apply (does_pre _ (ready nothing [])); [intros s; apply ready_clean|].
  assert (Hret : does (ready nothing []) (mret false) (fun _ => clean)) by (apply does_ret; intros s Hs; by apply ready_clean).
  unfold container_manager. apply (does_bind _ (fun _ => ready nothing [])); [by apply does_perform|]. intros a.
  apply (does_bind _ (fun _ => ready nothing [])); [destruct a; [by apply does_perform|by apply does_ret]|]. intros [|]; cbn [negb]; [|done].
  apply (does_bind _ (fun _ => ready nothing [])); [apply does_android_selected|]. intros android.
  apply (does_bind _ (fun _ => ready nothing [])); [apply does_data_selected|]. intros data.
  apply (does_bind _ (fun _ => ready nothing [])).
  { apply (does_bind _ (fun _ => ready nothing [])); [apply does_view|]. intros [|]; [by apply does_perform|by apply does_ret]. }
  intros [|]; cbn [negb]; [|done].
  apply (does_bind _ (fun _ => ready nothing [])); [by apply does_cleanup|]. intros [|]; cbn [negb]; [|done].
  apply (does_bind _ (fun _ => ready nothing [])).
  { apply (does_bind _ (fun _ => ready nothing [])); [apply does_view|]. intros [|]; cbn [negb]; [|by apply does_ret].
    apply (does_bind _ (fun _ => ready nothing [])); [apply does_view|]. intros files. apply does_detach. }
  intros [|]; cbn [negb]; [|done]. eapply does_bind; [eapply does_pre; [intros s; apply ready_clean|apply does_setup]|].
  intros [|]; cbn [negb]; [|by apply does_ret].
  intros s Hs%finished_held. unfold need, perform, mbind, M_bind. set (b := works _ _ _). 
  assert (Hn : owned nothing (mounts_ s) ((Serve, b) :: done_ s)) by by apply note_owned; [left|].
  destruct b; [|done]. cbn. unfold release_mounts, mbind, M_bind.
  destruct (cleanup_spec sys cfg law (note Serve true s)) as (new & b' & -> & Hf & _).
  destruct (clear_held (extend new (note Serve true s))) as (s' & -> & H); [|done].
  clear -Hf Hn. cbn in *. induction Hf as [|[a b] t [p Ep] _ IH]; [done|]. apply note_owned; [|done]. left. cbn in Ep. by subst.
Qed.
End finishing.

(** * The table of mounts *)

(** A line of /proc/self/mountinfo as the kernel writes it: spaces, tabs, line
    ends and backslashes of the path in octal. *)
Definition octal_escape (b : byte) : bytes :=
  [x5c; to_byte (48 + bval b / 64); to_byte (48 + bval b / 8 mod 8); to_byte (48 + bval b mod 8)].
Definition escaped (b : byte) : bool := existsb (Byte.eqb b) [x20; x09; x0a; x5c].
Definition escape_path (p : bytes) : bytes := concat ((fun b => if escaped b then octal_escape b else [b]) <$> p).
Record mount_row := MountRow { row_id : bytes; row_parent : bytes; row_device : bytes; row_root : bytes; row_path : bytes; row_rest : bytes }.
Definition sp : bytes := [x20].
Definition row_text (r : mount_row) : bytes :=
  row_id r ++ sp ++ row_parent r ++ sp ++ row_device r ++ sp ++ row_root r ++ sp ++ escape_path (row_path r) ++ sp ++ row_rest r.
Definition table_text (rows : list mount_row) : bytes := concat ((fun r => row_text r ++ [x0a]) <$> rows).
Definition word (w : bytes) : Prop := w <> [] /\ Forall (fun b => is_space b = false) w.
(** The white space that the kernel does not escape. *)
Definition plain_path (p : bytes) : Prop := p <> [] /\ Forall (fun b => existsb (Byte.eqb b) [x0b; x0c; x0d] = false) p.
Definition row_ok (r : mount_row) : Prop :=
  word (row_id r) /\ word (row_parent r) /\ word (row_device r) /\ word (row_root r) /\ plain_path (row_path r) /\ x0a ∉ row_rest r.

Lemma decode_plain b s : Byte.eqb b x5c = false -> decode_mountinfo_path (b :: s) = b :: decode_mountinfo_path s.
Proof. intros H. cbn. rewrite H. by destruct s as [|x [|y [|z s]]]. Qed.
Lemma decode_escape p : decode_mountinfo_path (escape_path p) = p.
Proof.
  induction p as [|b p IH]; [done|]. unfold escape_path. rewrite fmap_cons. cbn [concat]. fold (escape_path p).
  destruct (escaped b) eqn:E.
  - unfold escaped in E. apply existsb_exists in E as (c & Hc & ->%Byte.byte_dec_bl).
    cbn in Hc. destruct Hc as [<-|[<-|[<-|[<-|[]]]]]; cbn [octal_escape app]; cbn -[escape_path]; by rewrite IH.
  - cbn [app]. rewrite decode_plain; [by rewrite IH|]. unfold escaped in E. cbn in E. by repeat apply orb_false_iff in E as [? E].
Qed.
Lemma escape_byte b : implb (negb (existsb (Byte.eqb b) [x0b; x0c; x0d]))
  (forallb (fun c => negb (is_space c)) (if escaped b then octal_escape b else [b])) = true.
Proof. by destruct b; vm_compute. Qed.
Lemma escape_word p : plain_path p -> word (escape_path p).
Proof.
  intros [Hne Hp]. unfold escape_path. split.
  - destruct p as [|b p]; [done|]. rewrite fmap_cons. cbn [concat]. by destruct (escaped b).
  - apply Forall_concat, Forall_fmap. apply (Forall_impl _ _ _ Hp). intros b Hb. pose proof (escape_byte b) as He. rewrite Hb in He.
    cbn [negb implb] in He. apply Forall_forall. intros c Hc%list_elem_of_In. rewrite forallb_forall in He.
    by apply negb_true_iff, He.
Qed.
Lemma words_word w : Forall (fun b => is_space b = false) w -> forall cur s, cur ++ w <> [] ->
  words cur (w ++ sp ++ s) = (cur ++ w) :: words [] s.
Proof.
  induction 1 as [|b w Hb _ IH]; intros cur s Hne.
  - rewrite app_nil_r in *. cbn. by destruct cur.
  - cbn [app words]. rewrite Hb, IH; rewrite <- app_assoc; [done|]. exact Hne.
Qed.
Lemma row_read r : row_ok r -> mountinfo_line (row_text r) = [row_path r].
Proof.
  intros ([N1 H1] & [N2 H2] & [N3 H3] & [N4 H4] & [N5 H5]%escape_word & _). unfold mountinfo_line, row_text.
  do 5 (rewrite words_word; [|done..]). cbn -[decode_mountinfo_path escape_path]. by rewrite decode_escape.
Qed.
Lemma word_no_newline w : Forall (fun b => is_space b = false) w -> x0a ∉ w.
Proof. intros H Hin. rewrite Forall_forall in H. by apply H in Hin. Qed.
Lemma row_text_line r : row_ok r -> x0a ∉ row_text r.
Proof.
  intros ([_ H1] & [_ H2] & [_ H3] & [_ H4] & [_ H5]%escape_word & H6). assert (Hsp : x0a ∉ sp) by by apply (bool_decide_unpack _).
  unfold row_text. rewrite !not_elem_of_app. split_and!; try (by apply word_no_newline); done.
Qed.
Lemma table_read rows : Forall row_ok rows -> mountpoints_of (table_text rows) = row_path <$> rows.
Proof.
  unfold mountpoints_of. induction 1 as [|r rows Hr _ IH]; [done|].
  unfold table_text in *. rewrite fmap_cons. cbn [concat]. rewrite <- app_assoc. cbn [app].
  rewrite getlines_line by (apply Forall_forall; intros b Hb ->; by apply (row_text_line r Hr)). rewrite fmap_cons. cbn [concat app]. rewrite row_read, IH by done. done.
Qed.

(** * Theorems *)

(** C12: who owns the mounts.  From a state in which nothing is mounted, attached
    or open, [setup_mounts] always ends.  Where it fails, every mount, loop
    device and descriptor that it took was given back; where it succeeds, the
    entries are in the order in which their mounts are to be undone, the newest
    first, and dropping them asks for the unmount of each one in that order and
    leaves nothing; where it throws, the entries account for everything that
    is held.  The whole command ends as well, and whatever its end, nothing is
    left once the manager is gone. *)
Theorem mounts_released sys cfg android vendor (law : umount_law sys) s : clean s ->
  (let (s', r) := setup_mounts sys cfg android vendor s in
   match r with
   | Ret true => exists t, clear_mounts sys s' = (with_mounts [] (extend t s'), Ret tt) /\ nothing_left (t ++ done_ s') /\
       reverse (umounts t) = targets (mounts_ s') /\ targets (mounts_ s') `sublist_of` mounted_ever (done_ s')
   | Ret false => clean s'
   | Throw _ => exists s2, end_manager sys s' = (s2, Ret tt) /\ clean s2
   | _ => False
   end) /\
  (let (s', r) := container_manager sys cfg android vendor s in
   (exists b, r = Ret b) \/ (exists e, r = Throw e)) /\
  exists s2, end_manager sys (container_manager sys cfg android vendor s).1 = (s2, Ret tt) /\ clean s2.
Proof.
  intros Hs. split; [|pose proof (does_container_manager sys cfg android vendor law s Hs) as H].
  - pose proof (does_setup sys cfg android vendor law s Hs) as H.
    destruct (setup_mounts sys cfg android vendor s) as [s' [[|]|e| |]]; try done; [|by apply clear_held].
    destruct H as [Hn Ho]. destruct (clear_mounts_runs sys nothing s' Ho) as (t & E & H1 & H2).
    exists t. split_and!; [exact E|by apply owned_clean| |done]. by rewrite H2, reverse_involutive.
  - destruct (container_manager sys cfg android vendor s) as [s' [b|e| |]]; try done; cbn.
    + split; [left; eauto|]. apply clear_held. destruct H as [-> H]. by apply owned_clean.
    + split; [right; eauto|]. by apply clear_held.
Qed.

(** C23: the clean-up of stale mounts ends, from any table of mounts, where an
    unmount that succeeds takes a mount of its path away and adds none, and one
    that fails changes nothing.  Only mount points of this program that are in
    the table are unmounted, a path never before the paths below it; and where
    the clean-up reports success, of each of its mount points that is still in
    the table the system has said that nothing is mounted there. *)
Theorem cleanup_terminates sys cfg (law : umount_law sys) s : exists new b,
  cleanup_anbox_mounts sys cfg s = (extend new s, Ret b) /\ Forall is_umount new /\
  (forall p, p ∈ umounts new -> ours cfg p = true /\ p ∈ mountpoints_of (mountinfo sys (done_ s))) /\
  (forall before after p q, reverse (umounts new) = before ++ after -> p ∈ before -> q ∈ after ->
     (length q <= length p)%nat /\ starts_with q (p ++ str "/") = false) /\
  (b = true -> forall p, p ∈ mountpoints_of (mountinfo sys (new ++ done_ s)) -> ours cfg p = true ->
     no_mount_said sys (new ++ done_ s) p).
Proof.
  destruct (cleanup_spec sys cfg law s) as (new & b & E & H1 & H2 & H3 & H4). exists new, b.
  split; [exact E|]. split; [exact H1|]. split; [exact H2|]. split; [|exact H4].
  intros before after p q Hu Hp Hq. rewrite Hu in H3. pose proof (StronglySorted_app_1_elem_of _ _ _ _ _ H3 Hp Hq) as Hd.
  assert (Hl : (length q <= length p)%nat) by (destruct Hd as [?|[? _]]; lia). split; [done|].
  apply not_true_is_false. intros [k ->]%starts_with_spec. rewrite !length_app in Hl. cbn in Hl. lia.
Qed.

(** * Witnesses *)

(** A system whose table follows the history. *)
Definition a_row (p : bytes) : mount_row :=
  MountRow (str "36") (str "35") (str "98:0") (str "/") p (str "rw,noatime master:1 - ext4 /dev/root rw").
#[global] Instance plain_path_dec p : Decision (plain_path p).
Proof. unfold plain_path. apply _. Defined.
Fixpoint table (first : list bytes) (t : history) : list bytes :=
  match t with
  | (Mount _ target _ _ _, true) :: t' | (MountSquashfuse _ target, true) :: t' =>
      if decide (plain_path target) then target :: table first t' else table first t'
  | (Umount target, true) :: t' => remove_one target (table first t')
  | _ :: t' => table first t'
  | [] => first
  end.
Definition ext4_image : bytes := replicate 1080 x00 ++ [x53; xef].
Definition x86_64_program : bytes := [x7f; x45; x4c; x46; x02; x01] ++ replicate 12 x00 ++ [x3e; x00].
Definition the_build : build := Build false false true (str "/var/lib/anbox").
Definition a_host (first : list bytes) (ok : history -> action -> bool) (there : bytes -> bool) : host_system := {|
  exists_path _ p := there p;
  works := ok;
  umount2 t p := if decide (p ∈ table first t) then Unmounted else NoMount;
  opens t _ := Some (Z.of_nat (length t));
  get_free _ := Some 0;
  has_status _ _ := true;
  mountinfo t := table_text (a_row <$> table first t);
  mtab _ := [];
  file_contents _ p := if ends_with p (str ".img") then Some ext4_image else Some x86_64_program;
  lstat_of _ _ := None;
  entries_of _ _ := Some [];
  remove_tree _ _ := Removed;
  loop_files _ := [];
  stale_running _ := false;
  program_path := [];
  is_executable _ _ := false;
  host_elf_machine := 62
|}.
Lemma remove_one_occurrences p l : p ∈ l -> (occurrences p (remove_one p l) < occurrences p l)%nat.
Proof.
  unfold occurrences. induction l as [|q l IH]; [by intros H%elem_of_nil|]. intros Hp. cbn [remove_one List.filter].
  destruct (decide (q = p)) as [->|Hne].
  - unfold bytes_eqb. rewrite bool_decide_true by done. cbn. lia.
  - apply elem_of_cons in Hp as [->|Hp]; [done|]. apply IH in Hp. cbn [List.filter]. unfold bytes_eqb in *.
    rewrite bool_decide_false by done. lia.
Qed.
Lemma table_plain first t : Forall plain_path first -> Forall plain_path (table first t).
Proof.
  intros Hf. induction t as [|[a [|]] t IH]; [done|..]; destruct a; cbn; try done; try (case_decide; [by constructor|done]).
  rewrite Forall_forall in *. intros p Hp. apply IH. eapply elem_of_submseteq; [exact Hp|apply remove_one_sub].
Qed.
Lemma a_host_table first ok there t : Forall plain_path first ->
  mountpoints_of (mountinfo (a_host first ok there) t) = table first t.
Proof.
  intros Hf. change (mountpoints_of (table_text (a_row <$> table first t)) = table first t). rewrite table_read.
  - rewrite <- list_fmap_compose. apply list_fmap_id.
  - apply Forall_fmap. apply (Forall_impl _ _ _ (table_plain first t Hf)). intros p Hp.
    unfold row_ok, word. cbn [a_row row_id row_parent row_device row_root row_path row_rest compose].
    split_and!; try done; try (vm_compute; by repeat constructor). by apply (bool_decide_unpack _).
Qed.
Lemma a_host_law first ok there : Forall plain_path first -> umount_law (a_host first ok there).
Proof.
  intros Hf. split; intros t p; rewrite ?a_host_table by done; cbn; case_decide; try done.
  - intros _ Hp. by apply remove_one_occurrences.
  - intros _ q Hq. eapply elem_of_submseteq; [exact Hq|apply remove_one_sub].
Qed.
Definition started : manager := Manager [] false false false [].
Definition usual (p : bytes) : bool := negb (ends_with p (str "enabled") || ends_with p (str "vendor.img")).
Abbreviation all_work := (fun (_ : history) (_ : action) => true).
(** The third mount fails. *)
Definition third_fails (t : history) (a : action) : bool :=
  match a with Mount _ _ _ _ _ => negb (length (mounted_ever t) =? 2)%nat | _ => true end.
Definition stale_table : list bytes :=
  str <$> ["/var/lib/anbox/rootfs"; "/var/lib/anbox/combined-rootfs"; "/home/user/my files";
           "/var/lib/anbox/combined-rootfs/system"; "/var/lib/anbox/rootfs"]%string.
Lemma stale_table_plain : Forall plain_path stale_table.
Proof. by apply (bool_decide_unpack _). Qed.

Lemma usual_setup :
  let (s', r) := setup_mounts (a_host [] all_work usual) the_build [] [] started in
  r = Ret true /\
  targets (mounts_ s') = (str <$> ["/var/lib/anbox/rootfs/data"; "/var/lib/anbox/rootfs/cache"; "/var/lib/anbox/rootfs"]%string).
Proof. by vm_compute. Qed.
Lemma failing_setup :
  let (s', r) := setup_mounts (a_host [] third_fails usual) the_build [] [] started in
  r = Ret false /\ length (mounted_ever (done_ s')) = 2%nat.
Proof. by vm_compute. Qed.

Lemma mounts_released_witness : umount_law (a_host [] third_fails usual) /\ clean started /\
  exists s2, end_manager (a_host [] third_fails usual)
    (container_manager (a_host [] third_fails usual) the_build [] [] started).1 = (s2, Ret tt) /\ clean s2.
Proof.
  assert (H : umount_law (a_host [] third_fails usual)) by by apply a_host_law.
  assert (Hc : clean started) by done. split; [exact H|]. split; [exact Hc|].
  destruct (mounts_released _ the_build [] [] H started Hc) as [_ [_ T]]. exact T.
Defined.
Lemma usual_cleanup :
  umounts (done_ (cleanup_anbox_mounts (a_host stale_table all_work usual) the_build started).1) =
    (str <$> ["/var/lib/anbox/rootfs"; "/var/lib/anbox/rootfs"; "/var/lib/anbox/combined-rootfs"; "/var/lib/anbox/combined-rootfs/system"]%string).
Proof. by vm_compute. Qed.
Lemma cleanup_terminates_witness :
  let sys := a_host stale_table all_work usual in
  umount_law sys /\
  exists new b, cleanup_anbox_mounts sys the_build started = (extend new started, Ret b) /\ Forall is_umount new.
Proof.
  assert (H : umount_law (a_host stale_table all_work usual)) by apply a_host_law, stale_table_plain.
  destruct (cleanup_terminates _ the_build H started) as (new & b & E & Hn & _).
  split; [exact H|]. exists new, b. split; [exact E|exact Hn].
Defined.

(** * What the code does besides *)

(** The destructor of a loop device closes its descriptor, and the member that
    holds it closes it again. *)
Lemma loop_fd_closed_twice sys d s : exists b1 b2 b3,
  done_ (release_loop sys d s).1 = (Close (l_fd d), b3) :: (Close (l_fd d), b2) :: (LoopClear (l_path d), b1) :: done_ s.
Proof. cbn. eauto. Qed.
(** A directory with something mounted on it is found only where the source has
    its name. *)
Lemma mounted_directory_unnoticed :
  is_mounted_in [(str "/dev/loop0", str "/var/lib/anbox/rootfs")] (str "/var/lib/anbox/rootfs") = false.
Proof. done. Qed.
(** The last directory of the path is never searched. *)
Lemma last_path_directory_ignored ok name path : x3a ∉ path -> find_program_on_path ok path name = [].
Proof.
  unfold find_program_on_path. enough (Hs : forall cur, x3a ∉ path -> search_path ok name cur path = []) by apply Hs.
  induction path as [|b path IH]; intros cur H; [done|].
  apply not_elem_of_cons in H as [Hb H]. cbn. destruct (Byte.eqb b x3a) eqn:E; [by apply Byte.byte_dec_bl in E|]. by apply IH.
Qed.
(** A mount that another one covers stays, and the clean-up reports success. *)
Definition covered : host_system :=
  let sys := a_host stale_table all_work usual in
  {| exists_path := exists_path sys; works := works sys;
     umount2 := fun t p => if bytes_eqb p (str "/var/lib/anbox/combined-rootfs/system") then NoMount else umount2 sys t p;
     opens := opens sys; get_free := get_free sys; has_status := has_status sys; mountinfo := mountinfo sys; mtab := mtab sys;
     file_contents := file_contents sys; lstat_of := lstat_of sys; entries_of := entries_of sys;
     remove_tree := remove_tree sys; loop_files := loop_files sys; stale_running := stale_running sys;
     program_path := program_path sys; is_executable := is_executable sys; host_elf_machine := host_elf_machine sys |}.
Lemma covered_mount_left :
  let (s, r) := cleanup_anbox_mounts covered the_build started in
  r = Ret true /\ str "/var/lib/anbox/combined-rootfs/system" ∈ mountpoints_of (mountinfo covered (done_ s)).
Proof. vm_compute. split; [done|]. right. left. Qed.
(** What is mounted below the root file system itself is not cleaned up. *)
Lemma nested_mounts_kept : ours the_build (str "/var/lib/anbox/rootfs/data") = false /\ ours the_build (str "/var/lib/anbox/data") = false.
Proof. by vm_compute. Qed.
(** After an exception the entries go from the oldest to the newest: the loop
    device is detached before the mount that lies above it. *)
Definition no_directory (t : history) (a : action) : bool := match a with MakeDirectory _ => false | _ => true end.
Lemma exception_releases_oldest_first :
  let sys := a_host [] no_directory (fun p => usual p && negb (ends_with p (str "cache"))) in
  let (s, r) := setup_mounts sys the_build [] [] (with_overlay true started) in
  r = Throw SystemError /\
  take 5 (fst <$> done_ (end_manager sys s).1) =
    [Umount (str "/var/lib/anbox/combined-rootfs"); Close 1; Close 1; LoopClear (str "/dev/loop0"); Umount (str "/var/lib/anbox/rootfs")].
Proof. by vm_compute. Qed.
