(* ===== verification/RenderControl.v ===== *)
(** The render control calls of a guest (graphics/emugl/RenderControl.cpp) and
    the configurations it can choose from (graphics/emugl/RendererConfig.cpp):
    a guest's decoder calls these functions, which use the [Renderer] and hand
    frames of layers to the composer.  The host's EGL and GLES are answers. *)

From S2P Require Import Prelude Geometry Renderer.

Local Open Scope Z_scope.

(** * Constants *)

Definition EGL_NONE : Z := 0x3038.
Definition EGL_CONFIG_ID : Z := 0x3028.
Definition EGL_BLUE_SIZE : Z := 0x3022.
Definition EGL_GREEN_SIZE : Z := 0x3023.
Definition EGL_RED_SIZE : Z := 0x3024.
Definition EGL_SURFACE_TYPE : Z := 0x3033.
Definition EGL_PBUFFER_BIT : Z := 1.
Definition EGL_WINDOW_BIT : Z := 4.
Definition EGL_EXTENSIONS : Z := 0x3055.
Definition EGL_RECORDABLE_ANDROID : Z := 0x3142.
Definition EGL_FRAMEBUFFER_TARGET_ANDROID : Z := 0x3147.
Definition GL_VERSION : Z := 0x1F02.
Definition GL_EXTENSIONS : Z := 0x1F03.
Definition GL_SHADING_LANGUAGE_VERSION : Z := 0x8B8C.
Definition FB_WIDTH : Z := 1.
Definition FB_HEIGHT : Z := 2.
Definition FB_XDPI : Z := 3.
Definition FB_YDPI : Z := 4.
Definition FB_FPS : Z := 5.
Definition FB_MIN_SWAP_INTERVAL : Z := 6.
Definition FB_MAX_SWAP_INTERVAL : Z := 7.
Definition kConfigAttributes : list Z :=
  [0x3025; 0x3026; 0x3040; 0x3033; 0x3028; 0x3020; 0x3021; 0x3022; 0x3023; 0x3024; 0x3027; 0x3029; 0x302A; 0x302B;
   0x302C; 0x302D; 0x302E; 0x302F; 0x3031; 0x3032; 0x3034; 0x3035; 0x3036; 0x3037; 0x3039; 0x303A; 0x303B; 0x303C;
   0x303D; 0x303E; 0x303F; 0x3042].
Definition kConfigAttributesLen : Z := 32.

(** * What the host's EGL and GLES answer *)

Record host_gl := HostGl {
  egl_version : Z * Z;
  (** None is NULL. *)
  egl_string : Z -> option bytes;
  (** Of the context of thread [t]; None where there is no context or no
      string. *)
  gl_string : nat -> Z -> option bytes;
  get_configs : option (list Z);
  get_attrib : Z -> Z -> Z;
  choose_host : list Z -> option (list Z);
  (** The answers of creations and bindings, and the clock, by the number of
      the question. *)
  gl_succeeds : nat -> bool;
  gl_image : nat -> Z;
  gl_clock : nat -> Z;
  resolution : Z * Z;
  density : Z
}.

(** * Strings *)

Definition filter_extensions (extensions : bytes) (whitelist : list bytes) : bytes :=
  fold_left (fun approved ext =>
      if existsb (bytes_eqb ext) whitelist
      then (if is_empty approved then [] else approved ++ str " ") ++ ext
      else approved)
    (string_split extensions x20) [].
Definition append_extension (extensions extension : bytes) : bytes :=
  if existsb (bytes_eqb extension) (string_split extensions x20) then extensions
  else (if is_empty extensions then extensions else extensions ++ str " ") ++ extension.

Definition whitelisted_egl : list bytes := str <$> ["EGL_KHR_image_base"; "EGL_KHR_gl_texture_2D_image"]%string.
Definition whitelisted_gl : list bytes := str <$>
  ["GL_OES_EGL_image"; "GL_OES_depth24"; "GL_OES_depth32"; "GL_OES_element_index_uint"; "GL_OES_texture_float";
   "GL_OES_texture_float_linear"; "GL_OES_compressed_paletted_texture"; "GL_OES_compressed_ETC1_RGB8_texture";
   "GL_OES_depth_texture"; "GL_OES_texture_half_float"; "GL_OES_texture_half_float_linear";
   "GL_OES_packed_depth_stencil"; "GL_OES_vertex_half_float"; "GL_OES_standard_derivatives"; "GL_OES_texture_npot";
   "GL_OES_rgb8_rgba8"]%string.

(** A number, with what was written to the guest's buffer. *)
Record reply := Reply { r_value : Z; r_buffer : option bytes }.
(** The string with its terminator, or the negated size that it needs. *)
Definition string_reply (result : bytes) (has_buffer : bool) (bufferSize : Z) : reply :=
  let len := i32 (Z.of_nat (length result) + 1) in
  if negb has_buffer || (bufferSize <? len) then Reply (i32 (- len)) None else Reply len (Some (result ++ [x00])).

(** * Configurations *)

Section configs.
Context (gl : host_gl).

Definition isCompatibleHostConfig (config : Z) : bool :=
  if Z.land (get_attrib gl config EGL_SURFACE_TYPE) EGL_PBUFFER_BIT =? 0 then false
  else
    negb ((get_attrib gl config EGL_RED_SIZE =? 0) || (get_attrib gl config EGL_GREEN_SIZE =? 0) ||
          (get_attrib gl config EGL_BLUE_SIZE =? 0)).
Record renderer_config := RendererConfig { mEglConfig : Z; mAttribValues : list Z }.
Definition attrib_value (hostConfig a : Z) : Z :=
  let v := get_attrib gl hostConfig a in if a =? EGL_SURFACE_TYPE then Z.lor v EGL_WINDOW_BIT else v.
Definition make_config (hostConfig : Z) : renderer_config := RendererConfig hostConfig (attrib_value hostConfig <$> kConfigAttributes).
Definition RendererConfigList : list renderer_config :=
  match get_configs gl with
  | None => []
  | Some hostConfigs => make_config <$> List.filter isCompatibleHostConfig hostConfigs
  end.
Definition mCount : Z := Z.of_nat (length RendererConfigList).
Definition getConfigId (c : renderer_config) : Z := default 0 (mAttribValues c !! 4%nat).
Definition get_config (guestId : Z) : option renderer_config :=
  if (0 <=? guestId) && (guestId <? mCount) then RendererConfigList !! Z.to_nat guestId else None.

(** The attributes for the host; reading past the guest's array is undefined. *)
Fixpoint host_attribs (attribs : list Z) : outcome (list Z * bool) :=
  match attribs with
  | [] => Undef
  | attribute :: rest =>
      if attribute =? EGL_NONE then Ret ([], false)
      else match rest with
           | [] => Undef
           | value :: rest' =>
               x <-! host_attribs rest';
               Ret (if (attribute =? EGL_RECORDABLE_ANDROID) || (attribute =? EGL_FRAMEBUFFER_TARGET_ANDROID) then x
                    else if attribute =? EGL_SURFACE_TYPE then (attribute :: EGL_PBUFFER_BIT :: x.1, true)
                    else (attribute :: value :: x.1, x.2))
           end
  end.
(** The index of the guest's configuration with the id of a host's. *)
Definition config_with_id (id : Z) : option Z :=
  Z.of_nat ∘ fst <$> list_find (fun c => getConfigId c = id) RendererConfigList.
(** The loop over what the host chose: [configs] is what was written, [result]
    the count. *)
Fixpoint match_configs (matched : list Z) (has_configs : bool) (configsSize : Z) (configs : list Z) (result : Z)
    : Z * list Z :=
  match matched with
  | [] => (result, configs)
  | c :: matched' =>
      if has_configs && (0 <? configsSize) && (configsSize <=? result) then (result, configs)
      else if negb (isCompatibleHostConfig c) then match_configs matched' has_configs configsSize configs result
      else match config_with_id (get_attrib gl c EGL_CONFIG_ID) with
           | None => match_configs matched' has_configs configsSize configs result
           | Some k =>
               let configs := if has_configs && (result <? configsSize) then configs ++ [k] else configs in
               match_configs matched' has_configs configsSize configs (result + 1)
           end
  end.
Definition chooseConfig (attribs : list Z) (has_configs : bool) (configsSize : Z) : outcome (Z * list Z) :=
  match get_configs gl with
  | None => Ret (0, [])
  | Some hostConfigs =>
      x <-! host_attribs attribs;
      let hostAttribs := x.1 ++ (if (x.2 : bool) then [] else [EGL_SURFACE_TYPE; EGL_PBUFFER_BIT]) ++ [EGL_NONE] in
      let matched := default [] (choose_host gl hostAttribs) in
      Ret (match_configs (take (length hostConfigs) matched) has_configs configsSize [] 0)
  end.
Definition packConfigs (bufferByteSize : Z) (has_buffer : bool) : Z * option (list Z) :=
  let neededByteSize := u32 ((mCount + 1) * kConfigAttributesLen * 4) in
  if negb has_buffer || (bufferByteSize <? neededByteSize) then (i32 (- neededByteSize), None)
  else (mCount, Some (kConfigAttributes ++ concat (mAttribValues <$> RendererConfigList))).
End configs.

(** * State *)

Inductive gl_effect :=
  | FlushSurface (h : Z)
  | BindTexture (cb : Z)
  | BindRenderbuffer (cb : Z)
  | ReadPixels (cb x y w h format type : Z)
  | UpdatePixels (cb x y w h format type : Z) (pixels : bytes)
  | CreateImage (context target buffer : Z)
  | DestroyImage (image : Z).
(** A frame handed to the composer: a batch of layers, or a posted buffer. *)
Record submission := Submission { by_thread : nat; is_post : bool; frame_of : list renderable }.
(** What the render threads share, and what is local to each. *)
Record control := Control {
  the_renderer : renderer;
  calls_made : list call;                       (* ghost, the newest first *)
  submitted : list submission;                  (* the oldest first *)
  effects : list gl_effect;                     (* ghost, the newest first *)
  frame_layers : nat -> list renderable;
  display_color_buffers : gmap Z Z;
  asked : nat
}.
Definition control_init : control := Control renderer_init [] [] [] (fun _ => []) ∅ 0.
Definition with_renderer (r : renderer) (c : call) (s : control) : control :=
  Control r (c :: calls_made s) (submitted s) (effects s) (frame_layers s) (display_color_buffers s) (asked s).
Definition with_effect (e : gl_effect) (s : control) : control :=
  Control (the_renderer s) (calls_made s) (submitted s) (e :: effects s) (frame_layers s) (display_color_buffers s) (asked s).
Definition with_layers (t : nat) (l : list renderable) (s : control) : control :=
  Control (the_renderer s) (calls_made s) (submitted s) (effects s)
    (fun t' => if decide (t = t') then l else frame_layers s t') (display_color_buffers s) (asked s).
Definition with_submitted (x : submission) (s : control) : control :=
  Control (the_renderer s) (calls_made s) (submitted s ++ [x]) (effects s) (frame_layers s) (display_color_buffers s) (asked s).
Definition with_displays (m : gmap Z Z) (s : control) : control :=
  Control (the_renderer s) (calls_made s) (submitted s) (effects s) (frame_layers s) m (asked s).
Definition with_asked (s : control) : control :=
  Control (the_renderer s) (calls_made s) (submitted s) (effects s) (frame_layers s) (display_color_buffers s) (S (asked s)).

Section control.
Context (gl : host_gl) (has_renderer has_composer : bool).

(** An operation of the renderer. A search for a handle that does not end is
    [Undef]. *)
Definition ask_renderer (c : call) : M control answer := fun s =>
  match exec c (the_renderer s) with Some (r, a) => (with_renderer r c s, Ret a) | None => (s, Undef) end.
Definition looked {A} (f : renderer -> A) : M control A := fun s => (s, Ret (f (the_renderer s))).
Definition do_gl (e : gl_effect) : M control unit := modify (with_effect e).
Definition gl_answer : M control bool := fun s => (with_asked s, Ret (gl_succeeds gl (asked s))).
Definition clock_now : M control Z := fun s => (with_asked s, Ret (gl_clock gl (asked s))).
Definition image_handle : M control Z := fun s => (with_asked s, Ret (gl_image gl (asked s))).
Definition handle_of (a : answer) : Z := match a with Handle h => h | _ => 0 end.

(** ** Operations of the renderer without a [call] (Renderer.cpp) *)

Definition flushWindowSurfaceColorBuffer (h : Z) : M control bool :=
  b ← looked (fun r => bool_decide (is_Some (m_windows r !! h)));
  if (b : bool) then do_gl (FlushSurface h);; mret true else mret false.
Definition has_colorbuffer (cb : Z) : M control bool := looked (fun r => bool_decide (is_Some (m_colorbuffers r !! cb))).
Definition bindColorBufferToTexture (cb : Z) : M control bool :=
  b ← has_colorbuffer cb; if (b : bool) then do_gl (BindTexture cb);; gl_answer else mret false.
Definition bindColorBufferToRenderbuffer (cb : Z) : M control bool :=
  b ← has_colorbuffer cb; if (b : bool) then do_gl (BindRenderbuffer cb);; gl_answer else mret false.
Definition readColorBuffer (cb x y w h format type : Z) : M control unit :=
  b ← has_colorbuffer cb; if (b : bool) then do_gl (ReadPixels cb x y w h format type) else mret tt.
Definition updateColorBuffer (cb x y w h format type : Z) (pixels : bytes) : M control bool :=
  b ← has_colorbuffer cb; if (b : bool) then do_gl (UpdatePixels cb x y w h format type pixels);; mret true else mret false.
(** The handle is the image's address without its upper half. *)
Definition createClientImage (context target buffer : Z) : M control Z :=
  b ← looked (fun r => bool_decide (context ∈ m_contexts r));
  if negb (context =? 0) && negb b then mret 0
  else do_gl (CreateImage context target buffer);; image ← image_handle; mret (u32 image).
Definition destroyClientImage (image : Z) : M control Z :=
  do_gl (DestroyImage image);; b ← gl_answer; mret (if (b : bool) then 1 else 0).

(** ** The calls (RenderControl.cpp) *)

Inductive rc_call :=
  | GetRendererVersion
  | GetEGLVersion
  | QueryEGLString (name : Z) (has_buffer : bool) (bufferSize : Z)
  | GetGLString (name : Z) (has_buffer : bool) (bufferSize : Z)
  | GetNumConfigs
  | GetConfigs (bufSize : Z) (has_buffer : bool)
  | ChooseConfig (attribs : list Z) (attribs_size : Z) (has_configs : bool) (configs_size : Z)
  | GetFBParam (param : Z)
  | RcCreateContext (config share glVersion : Z)
  | RcDestroyContext (context : Z)
  | RcCreateWindowSurface (config width height : Z)
  | RcDestroyWindowSurface (windowSurface : Z)
  | RcCreateColorBuffer (width height internalFormat : Z)
  | RcOpenColorBuffer2 (colorbuffer : Z)
  | RcOpenColorBuffer (colorbuffer : Z)
  | RcCloseColorBuffer (colorbuffer : Z)
  | FlushWindowColorBuffer (windowSurface : Z)
  | RcSetWindowColorBuffer (windowSurface colorBuffer : Z)
  | MakeCurrent (context drawSurf readSurf : Z)
  | FBPost (colorBuffer : Z)
  | FBSetSwapInterval (interval : Z)
  | RcBindTexture (colorBuffer : Z)
  | RcBindRenderbuffer (colorBuffer : Z)
  | ColorBufferCacheFlush
  | RcReadColorBuffer (colorBuffer x y width height format type : Z)
  | RcUpdateColorBuffer (colorBuffer x y width height format type : Z) (pixels : bytes)
  | RcCreateClientImage (context target buffer : Z)
  | RcDestroyClientImage (image : Z)
  | GetNumDisplays
  | GetDisplayWidth (display_id : Z)
  | GetDisplayHeight (display_id : Z)
  | GetDisplayDpi (display_id : Z)
  | GetDisplayVsyncPeriod (display_id : Z)
  | PostLayer (name : bytes) (color_buffer alpha : Z) (sourceCrop displayFrame : rect)
  | PostAllLayersDone.

Definition value (v : Z) : M control reply := mret (Reply v None).
Definition silent : M control reply := mret (Reply 0 None).
(** [if (!renderer) return v;] *)
Definition guarded (v : Z) (c : M control reply) : M control reply := if has_renderer then c else value v.

Definition rcQueryEGLString (name : Z) (has_buffer : bool) (bufferSize : Z) : M control reply :=
  guarded 0
    (match egl_string gl name with
     | None => lift Undef
     | Some [] => value 0
     | Some result =>
         mret (string_reply (if name =? EGL_EXTENSIONS then filter_extensions result whitelisted_egl else result)
                 has_buffer bufferSize)
     end).
Definition gl_identity (t : nat) (name : Z) : bytes :=
  let result := default [] (gl_string gl t name) in
  if name =? GL_VERSION then str "OpenGL ES 2.0 Anbox Reboxed compatibility"
  else if name =? GL_SHADING_LANGUAGE_VERSION then str "OpenGL ES GLSL ES 1.00 Anbox Reboxed compatibility"
  else if name =? GL_EXTENSIONS then
    append_extension (append_extension (filter_extensions result whitelisted_gl) (str "GL_OES_EGL_image_external"))
      (str "ANDROID_EMU_gles_max_version_3_0")
  else result.
Definition rcGetGLString (t : nat) (name : Z) (has_buffer : bool) (bufferSize : Z) : M control reply :=
  mret (string_reply (gl_identity t name) has_buffer bufferSize).
Definition rcChooseConfig (attribs : list Z) (attribs_size : Z) (has_configs : bool) (configs_size : Z) : M control reply :=
  if negb has_renderer || (attribs_size =? 0) then value 0
  else
    x ← lift (chooseConfig gl attribs has_configs (i32 configs_size));
    mret (Reply x.1 (Some (concat (le_bytes 4 <$> x.2)))).
Definition rcGetFBParam (param : Z) : M control reply :=
  guarded 0 (value (
    if param =? FB_WIDTH then i32 (resolution gl).1
    else if param =? FB_HEIGHT then i32 (resolution gl).2
    else if (param =? FB_XDPI) || (param =? FB_YDPI) then i32 (density gl)
    else if param =? FB_FPS then 60
    else if (param =? FB_MIN_SWAP_INTERVAL) || (param =? FB_MAX_SWAP_INTERVAL) then 1
    else 0)).
Definition rcCreateContext (t : nat) (config share : Z) : M control reply :=
  guarded 0 (
    b ← gl_answer;
    h ← ask_renderer (CreateContext t (bool_decide (is_Some (get_config gl (i32 config)))) b share);
    value (handle_of h)).
Definition rcDestroyContext (t : nat) (context : Z) : M control reply :=
  guarded 0 (n ← clock_now; ask_renderer (DestroyContext t n context);; silent).
Definition rcCreateWindowSurface (t : nat) (config : Z) : M control reply :=
  guarded 0 (
    b ← gl_answer;
    h ← ask_renderer (CreateWindow t (bool_decide (is_Some (get_config gl (i32 config)))) b);
    value (handle_of h)).
Definition rcDestroyWindowSurface (t : nat) (windowSurface : Z) : M control reply :=
  guarded 0 (n ← clock_now; ask_renderer (DestroyWindow t n windowSurface);; silent).
Definition create_color_buffer (width height internalFormat : Z) : M control Z :=
  b ← gl_answer; h ← ask_renderer (CreateColorBuffer b (i32 width) (i32 height) internalFormat); mret (handle_of h).
Definition rcCreateColorBuffer (width height internalFormat : Z) : M control reply :=
  guarded 0 (h ← create_color_buffer width height internalFormat; value h).
Definition rcOpenColorBuffer2 (colorbuffer : Z) : M control reply :=
  guarded (-1) (h ← ask_renderer (OpenColorBuffer colorbuffer); value (handle_of h)).
Definition rcOpenColorBuffer (colorbuffer : Z) : M control reply := rcOpenColorBuffer2 colorbuffer;; silent.
Definition rcCloseColorBuffer (colorbuffer : Z) : M control reply :=
  guarded 0 (ask_renderer (CloseColorBuffer colorbuffer);; silent).
Definition rcFlushWindowColorBuffer (windowSurface : Z) : M control reply :=
  guarded (-1) (b ← flushWindowSurfaceColorBuffer windowSurface; value (if (b : bool) then 0 else -1)).
Definition rcSetWindowColorBuffer (windowSurface colorBuffer : Z) : M control reply :=
  guarded 0 (n ← clock_now; ask_renderer (SetWindowColorBuffer n windowSurface colorBuffer);; silent).
(** [Renderer::bindContext], with its result. *)
Definition bind_context (context draw read : Z) : M control bool :=
  b ← gl_answer; n ← clock_now;
  ok ← looked (fun r => (bindContext b n context draw read r).2);
  ask_renderer (Bind b n context draw read);; mret ok.
Definition rcMakeCurrent (context drawSurf readSurf : Z) : M control reply :=
  guarded 0 (ok ← bind_context context drawSurf readSurf; value (if (ok : bool) then 1 else 0)).
Definition primary_display (colorBuffer : Z) (size : Z * Z) : renderable :=
  Renderable (str "org.anbox.primary-display") colorBuffer (Rect 0 0 size.1 size.2) (Rect 0 0 size.1 size.2) 1.
Definition submit_layers (x : submission) : M control unit := modify (with_submitted x).
Definition rcFBPost (t : nat) (colorBuffer : Z) : M control reply :=
  if negb has_renderer || negb has_composer then silent
  else
    n ← clock_now;
    size ← looked (fun r => (retainPostedColorBuffer n colorBuffer r).2);
    ask_renderer (Post n colorBuffer);;
    match size with
    | None => silent
    | Some size => submit_layers (Submission t true [primary_display colorBuffer size]);; silent
    end.
Definition rcBindTexture (colorBuffer : Z) : M control reply := guarded 0 (bindColorBufferToTexture colorBuffer;; silent).
Definition rcBindRenderbuffer (colorBuffer : Z) : M control reply :=
  guarded 0 (bindColorBufferToRenderbuffer colorBuffer;; silent).
Definition rcReadColorBuffer (colorBuffer x y width height format type : Z) : M control reply :=
  guarded 0 (readColorBuffer colorBuffer x y width height format type;; silent).
Definition rcUpdateColorBuffer (colorBuffer x y width height format type : Z) (pixels : bytes) : M control reply :=
  guarded (-1) (updateColorBuffer colorBuffer x y width height format type pixels;; value 0).
Definition rcPostLayer (t : nat) (name : bytes) (color_buffer alpha : Z) (sourceCrop displayFrame : rect) : M control reply :=
  modify (fun s => with_layers t (frame_layers s t ++ [Renderable name color_buffer displayFrame sourceCrop alpha]) s);; silent.
Definition rcPostAllLayersDone (t : nat) : M control reply :=
  s ← get;
  (if has_composer then submit_layers (Submission t false (frame_layers s t)) else mret tt);;
  modify (with_layers t []);; silent.

(** [initRenderControlContext]: the function behind each call, on the render
    thread [t]. *)
Definition render_control (t : nat) (c : rc_call) : M control reply :=
  match c with
  | GetRendererVersion => value 1
  | GetEGLVersion => guarded 0 (mret (Reply 1 (Some (le_bytes 4 (i32 (egl_version gl).1) ++ le_bytes 4 (i32 (egl_version gl).2)))))
  | QueryEGLString name b n => rcQueryEGLString name b n
  | GetGLString name b n => rcGetGLString t name b n
  | GetNumConfigs => if has_renderer then mret (Reply (mCount gl) (Some (le_bytes 4 kConfigAttributesLen))) else lift Undef
  | GetConfigs n b =>
      if has_renderer then
        let x := packConfigs gl n b in mret (Reply x.1 ((fun l => concat (le_bytes 4 <$> l)) <$> x.2))
      else lift Undef
  | ChooseConfig l n b m => rcChooseConfig l n b m
  | GetFBParam p => rcGetFBParam p
  | RcCreateContext cf sh _ => rcCreateContext t cf sh
  | RcDestroyContext c => rcDestroyContext t c
  | RcCreateWindowSurface cf _ _ => rcCreateWindowSurface t cf
  | RcDestroyWindowSurface w => rcDestroyWindowSurface t w
  | RcCreateColorBuffer w h f => rcCreateColorBuffer w h f
  | RcOpenColorBuffer2 cb => rcOpenColorBuffer2 cb
  | RcOpenColorBuffer cb => rcOpenColorBuffer cb
  | RcCloseColorBuffer cb => rcCloseColorBuffer cb
  | FlushWindowColorBuffer w => rcFlushWindowColorBuffer w
  | RcSetWindowColorBuffer w cb => rcSetWindowColorBuffer w cb
  | MakeCurrent c d r => rcMakeCurrent c d r
  | FBPost cb => rcFBPost t cb
  | FBSetSwapInterval _ => silent
  | RcBindTexture cb => rcBindTexture cb
  | RcBindRenderbuffer cb => rcBindRenderbuffer cb
  | ColorBufferCacheFlush => value 0
  | RcReadColorBuffer cb x y w h f ty => rcReadColorBuffer cb x y w h f ty
  | RcUpdateColorBuffer cb x y w h f ty p => rcUpdateColorBuffer cb x y w h f ty p
  | RcCreateClientImage c ta b => guarded 0 (i ← createClientImage c ta b; value i)
  | RcDestroyClientImage i => guarded 0 (b ← destroyClientImage i; value b)
  | GetNumDisplays => value 1
  | GetDisplayWidth _ => value (i32 (resolution gl).1)
  | GetDisplayHeight _ => value (i32 (resolution gl).2)
  | GetDisplayDpi _ => value (i32 (density gl))
  | GetDisplayVsyncPeriod _ => value 16666666
  | PostLayer name cb a sc df => rcPostLayer t name cb a sc df
  | PostAllLayersDone => rcPostAllLayersDone t
  end.
End control.

(** [is_layer_blacklisted]; no call uses it. *)
Definition is_layer_blacklisted (name : bytes) : bool := bytes_eqb name (str "Sprite").

(** * Specification *)

(** The words of a list of extensions. *)
Definition words_of (s : bytes) : list bytes := List.filter (fun w => negb (is_empty w)) (string_split s x20).
Definition plain_word (w : bytes) : Prop := w <> [] /\ Forall (fun b => Byte.eqb b x20 = false) w.
Definition listed (l : list bytes) (w : bytes) : bool := existsb (bytes_eqb w) l.

(** The batches of a thread: the layers posted since the last one was done. *)
Fixpoint batches (layers : list renderable) (cs : list rc_call) : list (list renderable) :=
  match cs with
  | [] => []
  | PostLayer name cb a sc df :: cs' => batches (layers ++ [Renderable name cb df sc a]) cs'
  | PostAllLayersDone :: cs' => layers :: batches [] cs'
  | _ :: cs' => batches layers cs'
  end.
Definition calls_of (t : nat) (cs : list (nat * rc_call)) : list rc_call := snd <$> List.filter (fun c => (c.1 =? t)%nat) cs.
Definition frames_of (t : nat) (post : bool) (l : list submission) : list (list renderable) :=
  frame_of <$> List.filter (fun x => (by_thread x =? t)%nat && Bool.eqb (is_post x) post) l.
(** Calls of any threads, one after the other: each runs under the lock of its
    connections or on thread-local data. *)
Definition rc_run gl r c (cs : list (nat * rc_call)) : M control unit :=
  for_each (fun x : nat * rc_call => render_control gl r c x.1 x.2;; mret tt) cs.

(** * Lemmas: words *)

Fixpoint tokens (cur s : bytes) : list bytes :=
  match s with
  | [] => if is_empty cur then [] else [cur]
  | b :: s' =>
      if Byte.eqb b x20 then (if is_empty cur then tokens [] s' else cur :: tokens [] s') else tokens (cur ++ [b]) s'
  end.
Lemma split_tokens s : forall run cur, (run = true -> cur = []) ->
  List.filter (fun w => negb (is_empty w)) (split_run x20 run cur s) = tokens cur s.
Proof.
  induction s as [|b s IH]; intros run cur Hr; cbn [split_run tokens].
  - cbn. by destruct cur.
  - destruct (Byte.eqb b x20) eqn:Eb.
    + destruct run.
      * rewrite (Hr eq_refl). by apply IH.
      * cbn [List.filter]. rewrite IH by done. by destruct cur.
    + apply IH. done.
Qed.
Lemma words_tokens s : words_of s = tokens [] s.
Proof. by apply split_tokens. Qed.
Lemma tokens_word w : Forall (fun b => Byte.eqb b x20 = false) w -> forall cur s, tokens cur (w ++ s) = tokens (cur ++ w) s.
Proof.
  induction 1 as [|b w Hb _ IH]; intros cur s; [by rewrite app_nil_r|]. cbn [app tokens]. rewrite Hb, IH. by rewrite <- app_assoc.
Qed.
Lemma tokens_app s : forall cur w, tokens cur (s ++ x20 :: w) = tokens cur s ++ tokens [] w.
Proof.
  induction s as [|b s IH]; intros cur w; cbn [app tokens].
  - change (Byte.eqb x20 x20) with true. cbv iota. by destruct cur.
  - destruct (Byte.eqb b x20); [|apply IH]. rewrite IH. by destruct cur.
Qed.
Lemma words_plain w : plain_word w -> words_of w = [w].
Proof.
  intros [Hne Hw]. rewrite words_tokens. rewrite <- (app_nil_r w) at 1. rewrite tokens_word by done. cbn. by destruct w.
Qed.
Lemma words_snoc s w : plain_word w -> words_of ((if is_empty s then s else s ++ str " ") ++ w) = words_of s ++ [w].
Proof.
  intros Hw. destruct s as [|b s]; cbn [is_empty]; [by apply words_plain|]. rewrite <- app_assoc, words_tokens.
  change (str " " ++ w) with (x20 :: w). rewrite tokens_app, <- !words_tokens. by rewrite (words_plain w).
Qed.
Lemma listed_spec l w : listed l w = true <-> w ∈ l.
Proof.
  unfold listed. rewrite existsb_exists. split.
  - intros (x & Hx & E). apply bool_decide_eq_true in E. subst. by apply list_elem_of_In.
  - intros Hw. exists w. split; [by apply list_elem_of_In|]. by apply bool_decide_eq_true.
Qed.
Lemma filter_words s wl : Forall plain_word wl -> words_of (filter_extensions s wl) = List.filter (listed wl) (words_of s).
Proof.
  intros Hwl. unfold filter_extensions, words_of at 2. rewrite Forall_forall in Hwl.
  assert (H : forall l acc, words_of (fold_left (fun approved ext =>
      if listed wl ext then (if is_empty approved then [] else approved ++ str " ") ++ ext else approved) l acc) =
    words_of acc ++ List.filter (listed wl) (List.filter (fun w => negb (is_empty w)) l)).
  { induction l as [|e l IH]; intros acc; cbn [fold_left List.filter]; [by rewrite app_nil_r|]. rewrite IH.
    destruct (listed wl e) eqn:E.
    - pose proof (proj1 (listed_spec wl e) E) as He. apply Hwl in He.
      assert (Hn : negb (is_empty e) = true) by (destruct He as [? _]; by destruct e).
      rewrite Hn. cbn [List.filter]. rewrite E.
      assert (Hs : words_of ((if is_empty acc then [] else acc ++ str " ") ++ e) = words_of acc ++ [e]).
      { rewrite <- (words_snoc acc e He). by destruct acc. }
      rewrite Hs. by rewrite <- app_assoc.
    - destruct (negb (is_empty e)); cbn [List.filter]; [by rewrite E|done]. }
  apply H.
Qed.
Lemma append_words s w : plain_word w ->
  words_of (append_extension s w) = if listed (words_of s) w then words_of s else words_of s ++ [w].
Proof.
  intros Hw. unfold append_extension. fold (listed (string_split s x20) w).
  assert (Hl : listed (string_split s x20) w = listed (words_of s) w).
  { apply eq_true_iff_eq. rewrite !listed_spec. unfold words_of. rewrite !list_elem_of_In, filter_In.
    split; [|tauto]. intros H. split; [done|]. destruct Hw as [? _]. by destruct w. }
  rewrite Hl. destruct (listed (words_of s) w); [done|]. by apply words_snoc.
Qed.

(** * Lemmas: replies *)

Lemma string_reply_cases s b n : Z.of_nat (length s) + 1 < 2 ^ 31 ->
  (b = true /\ Z.of_nat (length s) + 1 <= n /\ string_reply s b n = Reply (Z.of_nat (length s) + 1) (Some (s ++ [x00]))) \/
  ((b = false \/ n < Z.of_nat (length s) + 1) /\ string_reply s b n = Reply (- (Z.of_nat (length s) + 1)) None).
Proof.
  intros Hs. unfold string_reply. cbv zeta. rewrite !i32_id by (unfold in_i32; lia). destruct b; cbn [negb orb].
  - destruct (Z.ltb_spec n (Z.of_nat (length s) + 1)); [right; split; [by right|done]|left; split_and!; [done|lia|done]].
  - right. split; [by left|done].
Qed.

(** * Lemmas: configurations *)

Section config_lemmas.
Context (gl : host_gl).
Lemma config_with_id_spec id k : config_with_id gl id = Some k ->
  0 <= k < mCount gl /\ exists c, get_config gl k = Some c /\ getConfigId c = id.
Proof.
  unfold config_with_id. destruct (list_find _ _) as [[i c]|] eqn:E; [|done]. intros [= <-].
  apply list_find_Some in E as (Hi & Hc & _). pose proof (lookup_lt_Some _ _ _ Hi) as Hl. cbn. unfold mCount.
  split; [lia|]. exists c. split; [|done]. unfold get_config, mCount. rewrite (proj2 (Z.leb_le 0 _)) by lia.
  rewrite (proj2 (Z.ltb_lt _ _)) by lia. cbn. by rewrite Nat2Z.id.
Qed.
(** The configurations of the host that count. *)
Definition known_config (c : Z) : option Z :=
  if isCompatibleHostConfig gl c then config_with_id gl (get_attrib gl c EGL_CONFIG_ID) else None.
Lemma step_known {A} c (skip : A) (found : Z -> A) :
  (if negb (isCompatibleHostConfig gl c) then skip
   else match config_with_id gl (get_attrib gl c EGL_CONFIG_ID) with None => skip | Some k => found k end) =
  match known_config c with None => skip | Some k => found k end.
Proof. unfold known_config. by destruct (isCompatibleHostConfig gl c). Qed.
Lemma match_configs_spec matched hc n : forall configs result, result = Z.of_nat (length configs) \/ hc = false \/ n <= 0 ->
  0 <= result -> (hc = true -> 0 < n -> result <= n) ->
  match_configs gl matched hc n configs result =
    if hc && (0 <? n) then
      let l := take (Z.to_nat (n - result)) (omap known_config matched) in (result + Z.of_nat (length l), configs ++ l)
    else (result + Z.of_nat (length (omap known_config matched)), configs).
Proof.
  induction matched as [|c l IH]; intros configs result Hr H0 Hle; cbn [match_configs omap list_omap].
  { destruct (hc && _); cbn; rewrite ?take_nil, ?app_nil_r, Z.add_0_r; done. }
  destruct (hc && (0 <? n)) eqn:Eh.
  - apply andb_true_iff in Eh as [-> Hn%Z.ltb_lt]. cbn [andb].
    destruct (Z.leb_spec n result) as [Hfull|Hroom].
    { specialize (Hle eq_refl Hn). replace (n - result) with 0 by lia. cbn. by rewrite app_nil_r, Z.add_0_r. }
    assert (Hres : result = Z.of_nat (length configs)) by (destruct Hr as [?|[?|?]]; [done|done|lia]).
    rewrite step_known. destruct (known_config c) as [k|]; [|by rewrite IH by (auto || lia)].
    rewrite (proj2 (Z.ltb_lt _ _)) by lia. rewrite IH; [|left; len; cbn; lia|lia|lia].
    replace (Z.to_nat (n - result)) with (S (Z.to_nat (n - (result + 1)))) by lia. cbn [take length].
    rewrite <- app_assoc. cbn [app]. cbv zeta. f_equal. lia.
  - assert (Hc : hc && (result <? n) = false).
    { destruct hc; [|done]. cbn [andb] in *. apply Z.ltb_ge in Eh. apply Z.ltb_ge. lia. }
    assert (Hf : hc = false \/ n <= 0) by (destruct hc; [right; cbn in Eh; by apply Z.ltb_ge|by left]).
    cbn [andb]. rewrite step_known. destruct (known_config c) as [k|]; [|by rewrite IH by (auto || lia)].
    rewrite Hc, IH; [|by right|lia|intros -> ?; cbn in Eh; apply Z.ltb_ge in Eh; lia].
    cbn [length]. f_equal. lia.
Qed.

(** The attribute list without the pairs that the host does not know. *)
Definition for_host (pairs : list (Z * Z)) : list Z :=
  concat ((fun p => if p.1 =? EGL_SURFACE_TYPE then [p.1; EGL_PBUFFER_BIT] else [p.1; p.2]) <$>
    List.filter (fun p => negb ((p.1 =? EGL_RECORDABLE_ANDROID) || (p.1 =? EGL_FRAMEBUFFER_TARGET_ANDROID))) pairs).
Definition flat (pairs : list (Z * Z)) : list Z := concat ((fun p => [p.1; p.2]) <$> pairs).
Lemma host_attribs_spec pairs rest : Forall (fun p => p.1 <> EGL_NONE) pairs ->
  host_attribs (flat pairs ++ EGL_NONE :: rest) =
    Ret (for_host pairs, existsb (fun p => p.1 =? EGL_SURFACE_TYPE) pairs).
Proof.
  induction 1 as [|[a v] pairs Ha _ IH]; [done|]. cbn [fst] in Ha. unfold flat in *. rewrite fmap_cons. cbn [concat app fst snd].
  cbn [host_attribs]. destruct (Z.eqb_spec a EGL_NONE); [done|]. rewrite IH. cbn [obind fst snd existsb].
  unfold for_host. cbn [List.filter fst].
  destruct (Z.eqb_spec a EGL_RECORDABLE_ANDROID) as [->|]; [done|].
  destruct (Z.eqb_spec a EGL_FRAMEBUFFER_TARGET_ANDROID) as [->|]; [done|]. cbn [orb negb].
  rewrite fmap_cons. cbn [concat fst]. by destruct (Z.eqb_spec a EGL_SURFACE_TYPE).
Qed.
End config_lemmas.

(** * Lemmas: calls *)

(** A call that is not one of the composer's or of a frame. *)
Definition by_guest (c : call) : Prop := match c with RetainFrame _ _ | ReleaseFrame _ => False | _ => True end.
(** The books: the renderer is what the calls of the guests made of it. *)
Definition booked (s : control) : Prop :=
  run (reverse (calls_made s)) renderer_init = Some (the_renderer s) /\ Forall by_guest (calls_made s).
(** The frames and layers are those of [s0]. *)
Definition quiet (s0 s : control) : Prop := frame_layers s = frame_layers s0 /\ submitted s = submitted s0.

Lemma run_calls_app a b r : run (a ++ b) r = match run a r with Some r' => run b r' | None => None end.
Proof. revert r. induction a as [|c a IH]; intros r; [done|]. cbn [app run]. destruct (exec c r) as [[]|]; [apply IH|done]. Qed.

Section calls.
Context (gl : host_gl) (r c : bool).

Lemma booked_ask x : by_guest x -> keeps booked (ask_renderer x).
Proof.
  intros Hx s [H1 H2]. unfold ask_renderer. destruct (exec x (the_renderer s)) as [[r' a]|] eqn:E; [|done].
  split; [|by constructor]. change (calls_made (with_renderer r' x s, Ret a).1) with (x :: calls_made s).
  rewrite reverse_cons, run_calls_app, H1. cbn. by rewrite E.
Qed.
Lemma booked_looked {A} (f : renderer -> A) : keeps booked (looked f).
Proof. by intros s. Qed.
Lemma booked_do_gl e : keeps booked (do_gl e).
Proof. by intros s. Qed.
Lemma booked_answer : keeps booked (gl_answer gl).
Proof. by intros s. Qed.
Lemma booked_now : keeps booked (clock_now gl).
Proof. by intros s. Qed.
Lemma booked_image : keeps booked (image_handle gl).
Proof. by intros s. Qed.
Lemma booked_modify f : (forall s, the_renderer (f s) = the_renderer s /\ calls_made (f s) = calls_made s) -> keeps booked (modify f).
Proof. intros Hf s [H1 H2]. destruct (Hf s) as [E1 E2]. unfold booked. cbn. by rewrite E1, E2. Qed.
Lemma booked_submit x : keeps booked (submit_layers x).
Proof. by apply booked_modify. Qed.
Lemma quiet_ask s0 x : keeps (quiet s0) (ask_renderer x).
Proof. intros s Hs. unfold ask_renderer. by destruct (exec x (the_renderer s)) as [[r' a]|]. Qed.
Lemma quiet_looked s0 {A} (f : renderer -> A) : keeps (quiet s0) (looked f).
Proof. by intros s. Qed.
Lemma quiet_effect s0 e : keeps (quiet s0) (do_gl e).
Proof. by intros s. Qed.
Lemma quiet_answer s0 : keeps (quiet s0) (gl_answer gl).
Proof. by intros s. Qed.
Lemma quiet_now s0 : keeps (quiet s0) (clock_now gl).
Proof. by intros s. Qed.
Lemma quiet_image s0 : keeps (quiet s0) (image_handle gl).
Proof. by intros s. Qed.
Lemma keeps_if {St A} (P : St -> Prop) (b : bool) (x y : M St A) : keeps P x -> keeps P y -> keeps P (if b then x else y).
Proof. by destruct b. Qed.
Lemma keeps_value P v : keeps P (value v).
Proof. apply keeps_ret. Qed.
Lemma keeps_silent P : keeps P silent.
Proof. apply keeps_ret. Qed.
Lemma keeps_guarded P v x : keeps P x -> keeps P (guarded r v x).
Proof. intros H. unfold guarded. destruct r; [done|apply keeps_value]. Qed.
Create HintDb calls.
#[local] Hint Resolve booked_looked booked_do_gl booked_answer booked_now booked_image booked_submit quiet_ask quiet_looked
  quiet_effect quiet_answer quiet_now quiet_image keeps_if keeps_value keeps_silent keeps_guarded : calls.
#[local] Hint Extern 2 (keeps booked (ask_renderer _)) => (apply booked_ask; exact I) : calls.
Ltac unfold_calls :=
  unfold rcQueryEGLString, rcGetGLString, rcChooseConfig, rcGetFBParam, rcCreateContext,
    rcDestroyContext, rcCreateWindowSurface, rcDestroyWindowSurface, rcCreateColorBuffer, create_color_buffer, rcOpenColorBuffer,
    rcOpenColorBuffer2, rcCloseColorBuffer, rcFlushWindowColorBuffer, flushWindowSurfaceColorBuffer, rcSetWindowColorBuffer,
    rcMakeCurrent, bind_context, rcFBPost, rcBindTexture, bindColorBufferToTexture, rcBindRenderbuffer,
    bindColorBufferToRenderbuffer, rcReadColorBuffer, readColorBuffer, rcUpdateColorBuffer, updateColorBuffer, has_colorbuffer,
    createClientImage, destroyClientImage, rcPostLayer, rcPostAllLayersDone.
Ltac call_by := repeat first [apply keeps_bind; [|intros ?]|apply keeps_if|apply keeps_guarded|apply keeps_ret|apply keeps_lift
  |solve [auto with calls]|case_match].

Lemma booked_call t x : keeps booked (render_control gl r c t x).
Proof.
  destruct x; cbn [render_control]; unfold_calls; call_by;
    solve [by apply booked_modify|apply keeps_get].
Qed.
Definition frame_call (x : rc_call) : bool :=
  match x with PostLayer _ _ _ _ _ | PostAllLayersDone | FBPost _ => true | _ => false end.
Lemma quiet_call s0 t x : frame_call x = false -> keeps (quiet s0) (render_control gl r c t x).
Proof.
  intros Hx. destruct x; try discriminate Hx; cbn [render_control]; unfold_calls; call_by.
Qed.
End calls.

(** * Lemmas: frames *)

Definition next_layers (x : rc_call) (l : list renderable) : list renderable :=
  match x with
  | PostLayer name cb a sc df => l ++ [Renderable name cb df sc a]
  | PostAllLayersDone => []
  | _ => l
  end.
Definition done_layers (x : rc_call) (l : list renderable) : list (list renderable) :=
  match x with PostAllLayersDone => [l] | _ => [] end.
Lemma batches_cons l x cs : batches l (x :: cs) = done_layers x l ++ batches (next_layers x l) cs.
Proof. by destruct x. Qed.
Definition posted_by (x : rc_call) (y : submission) : Prop :=
  is_post y = true -> exists cb size, x = FBPost cb /\ frame_of y = [primary_display cb size].
(** What a call of thread [t] does to the frames. *)
Definition frames_by (c : bool) (t : nat) (x : rc_call) (s s' : control) : Prop :=
  (forall t', frame_layers s' t' = if decide (t = t') then next_layers x (frame_layers s t) else frame_layers s t') /\
  exists new, submitted s' = submitted s ++ new /\ Forall (fun y => by_thread y = t /\ posted_by x y) new /\
    frames_of t false new = if c then done_layers x (frame_layers s t) else [].
Lemma framed_quiet c t x s s' : next_layers x (frame_layers s t) = frame_layers s t -> done_layers x (frame_layers s t) = [] ->
  quiet s s' -> frames_by c t x s s'.
Proof.
  intros Hn Hd [E1 E2]. split.
  - intros t'. rewrite Hn, E1. by case_decide; subst.
  - exists []. rewrite app_nil_r, Hd. split_and!; [done|constructor|by destruct c].
Qed.

Section frames.
Context (gl : host_gl) (r c : bool).
Lemma ask_returns x s s' a : ask_renderer x s = (s', Ret a) -> quiet s s'.
Proof. unfold ask_renderer. destruct (exec x (the_renderer s)) as [[r' a']|]; [|done]. intros [= <- <-]. done. Qed.
Lemma framed_call t x s s' a : render_control gl r c t x s = (s', Ret a) -> frames_by c t x s s'.
Proof.
  intros H. destruct (frame_call x) eqn:Hx.
  2: { apply framed_quiet; [by destruct x..|]. pose proof (quiet_call gl r c s t x Hx s (conj eq_refl eq_refl)) as Hq. by rewrite H in Hq. }
  destruct x; try discriminate Hx; cbn [render_control] in H.
  - unfold rcFBPost in H. destruct (negb r || negb c); [injection H as <- _; by apply framed_quiet|].
    apply M_bind_ret_inv in H as (s1 & n & [= <- _] & H). apply M_bind_ret_inv in H as (s2 & size & [= <- _] & H).
    apply M_bind_ret_inv in H as (s3 & a1 & [Q1 Q2]%ask_returns & H). cbn in Q1, Q2.
    destruct size as [size|]; injection H as <- _.
    2: { apply framed_quiet; [done..|]. by split. }
    split; [intros t'; cbn; rewrite Q1; by case_decide; subst|].
    exists [Submission t true [primary_display colorBuffer size]]. cbn. rewrite Q2. split_and!; [done| |].
    + constructor; [split; [done|]|constructor]. intros _. by exists colorBuffer, size.
    + unfold frames_of. cbn. rewrite andb_false_r. by destruct c.
  - injection H as <- _. split; [done|]. exists []. rewrite app_nil_r. split_and!; [done|constructor|by destruct c].
  - unfold rcPostAllLayersDone in H. destruct c; injection H as <- _; (split; [done|]).
    + exists [Submission t false (frame_layers s t)]. cbn. split_and!; [done| |].
      * constructor; [split; [done|]|constructor]. done.
      * unfold frames_of. cbn. by rewrite Nat.eqb_refl.
    + exists []. rewrite app_nil_r. by split_and!; [|constructor|].
Qed.

Lemma frames_app t b l k : frames_of t b (l ++ k) = frames_of t b l ++ frames_of t b k.
Proof. unfold frames_of. by rewrite List.filter_app, fmap_app. Qed.
Lemma frames_other t t' b l : t <> t' -> Forall (fun y => by_thread y = t) l -> frames_of t' b l = [].
Proof.
  intros Hne. induction 1 as [|y l Hy _ IH]; [done|]. unfold frames_of in *. cbn [List.filter].
  rewrite (proj2 (Nat.eqb_neq _ _)) by congruence. done.
Qed.
Lemma run_frames cs : forall s s', rc_run gl r c cs s = (s', Ret tt) -> forall t,
  frames_of t false (submitted s') = frames_of t false (submitted s) ++ (if c then batches (frame_layers s t) (calls_of t cs) else []) /\
  exists new, submitted s' = submitted s ++ new /\ Forall (fun y => exists x, (by_thread y, x) ∈ cs /\ posted_by x y) new.
Proof.
  induction cs as [|[t0 x] cs IH]; intros s s' H t.
  { injection H as <-. cbn. split; [by destruct c; rewrite app_nil_r|]. exists []. rewrite app_nil_r. by split; [|constructor]. }
  unfold rc_run in H. cbn [for_each fst snd] in H. apply M_bind_ret_inv in H as (s1 & [] & H1 & H2).
  apply M_bind_ret_inv in H1 as (s0 & a & H0 & H1). injection H1 as <-. apply framed_call in H0 as (F1 & new & F2 & F3 & F4).
  destruct (IH s0 s' H2 t) as (G1 & new' & G2 & G3). split.
  - rewrite G1, F2, frames_app, <- app_assoc. f_equal. rewrite F1. unfold calls_of. cbn [List.filter fst].
    destruct (Nat.eqb_spec t0 t) as [->|Hne].
    + rewrite decide_True by done. rewrite fmap_cons, F4. destruct c; [|done]. cbn [snd]. by rewrite batches_cons.
    + rewrite decide_False by done. rewrite (frames_other t0 t); [done..|]. eapply Forall_impl; [exact F3|]. by intros y [Hy _].
  - exists (new ++ new'). rewrite G2, F2, <- app_assoc. split; [done|]. apply Forall_app. split.
    + eapply Forall_impl; [exact F3|]. intros y [<- Hy]. exists x. split; [by left|done].
    + eapply Forall_impl; [exact G3|]. intros y (x' & Hx & Hy). exists x'. split; [by right|done].
Qed.
End frames.

(** * Theorems *)

(** C20: The frames of a guest are its own.  Whatever calls the render threads
    make, in any order, the batches of layers that reach the composer from a
    thread are exactly those that the thread posted between two ends of a batch,
    with every layer, in their order, and none of another thread's; every other
    frame is a color buffer that a thread posted. *)
Theorem frame_batches gl r c cs s' : rc_run gl r c cs control_init = (s', Ret tt) ->
  (forall t, frames_of t false (submitted s') = if c then batches [] (calls_of t cs) else []) /\
  (forall y, y ∈ submitted s' -> is_post y = true ->
     exists cb size, (by_thread y, FBPost cb) ∈ cs /\ frame_of y = [primary_display cb size]).
Proof.
  intros H. split.
  - intros t. destruct (run_frames gl r c cs _ _ H t) as [E _]. exact E.
  - destruct (run_frames gl r c cs _ _ H 0%nat) as (_ & new & E & Hf). cbn in E. rewrite E.
    intros y Hy Hp. rewrite Forall_forall in Hf. destruct (Hf y Hy) as (x & Hx & Hq).
    destruct (Hq Hp) as (cb & size & -> & Hfr). by exists cb, size.
Qed.

(** The GL strings of a guest.  A buffer that is large enough gets the whole
    string with its terminator and its size; another one is left alone and the
    answer is the size to ask again with, which then succeeds.  The extensions
    are those of the host that are in the list of the supported ones, in the
    host's order, and the two of the guest's encoder; the version is never the
    host's. *)
Theorem gl_strings gl t name has_buffer n s :
  let text := gl_identity gl t name in
  let len := Z.of_nat (length text) + 1 in
  len < 2 ^ 31 ->
  (exists rep, rcGetGLString gl t name has_buffer n s = (s, Ret rep) /\
    ((has_buffer = true /\ len <= n /\ rep = Reply len (Some (text ++ [x00]))) \/
     ((has_buffer = false \/ n < len) /\ r_buffer rep = None /\
      rcGetGLString gl t name true (- r_value rep) s = (s, Ret (Reply len (Some (text ++ [x00]))))))) /\
  (name = GL_EXTENSIONS -> words_of text =
     List.filter (listed whitelisted_gl) (words_of (default [] (gl_string gl t name))) ++
     [str "GL_OES_EGL_image_external"; str "ANDROID_EMU_gles_max_version_3_0"]) /\
  (name = GL_VERSION -> text = str "OpenGL ES 2.0 Anbox Reboxed compatibility").
Proof.
  intros text len Hlen. split_and!.
  - eexists. split; [done|]. destruct (string_reply_cases text has_buffer n Hlen) as [(H1 & H2 & E)|(H1 & E)]; fold text; rewrite E.
    + left. by split_and!.
    + right. split; [done|]. split; [done|]. cbn [r_value]. rewrite Z.opp_involutive. unfold rcGetGLString. fold text.
      destruct (string_reply_cases text true (Z.of_nat (length text) + 1) Hlen) as [(_ & _ & ->)|([?|?] & _)]; [done|done|lia].
  - intros ->. unfold text, gl_identity. cbn [Z.eqb]. change (GL_EXTENSIONS =? GL_VERSION) with false.
    change (GL_EXTENSIONS =? GL_SHADING_LANGUAGE_VERSION) with false. change (GL_EXTENSIONS =? GL_EXTENSIONS) with true. cbv iota.
    set (host := default [] _).
    assert (Hwl : Forall plain_word whitelisted_gl) by by apply (bool_decide_unpack _).
    assert (Hno : forall w, listed whitelisted_gl w = false -> listed (List.filter (listed whitelisted_gl) (words_of host)) w = false).
    { intros w Hw. apply not_true_is_false. rewrite listed_spec, list_elem_of_In, filter_In. intros [_ E]. congruence. }
    rewrite (append_words _ (str "ANDROID_EMU_gles_max_version_3_0")), (append_words _ (str "GL_OES_EGL_image_external")),
      (filter_words host), (Hno (str "GL_OES_EGL_image_external")) by first [done|by apply (bool_decide_unpack _)].
    assert (E : listed (List.filter (listed whitelisted_gl) (words_of host) ++ [str "GL_OES_EGL_image_external"])
      (str "ANDROID_EMU_gles_max_version_3_0") = false).
    { unfold listed at 1. rewrite existsb_app. fold (listed (List.filter (listed whitelisted_gl) (words_of host)) (str "ANDROID_EMU_gles_max_version_3_0")).
      by rewrite Hno. }
    rewrite E. by rewrite <- app_assoc.
  - by intros ->.
Qed.

(** The choice of a configuration, for a well-formed attribute list.  The
    host is asked for pixel buffers, where the guest wants windows, and without
    the attributes that only Android knows; of what it answers, the
    configurations that the guest was told about are returned by their index,
    in the host's order, as many as there is room for. *)
Theorem choose_config gl pairs rest has_configs n : Forall (fun p => p.1 <> EGL_NONE) pairs ->
  let wanted := for_host pairs ++ (if existsb (fun p => p.1 =? EGL_SURFACE_TYPE) pairs then []
                                   else [EGL_SURFACE_TYPE; EGL_PBUFFER_BIT]) ++ [EGL_NONE] in
  (forall hosts, get_configs gl = Some hosts ->
     let found := omap (known_config gl) (take (length hosts) (default [] (choose_host gl wanted))) in
     chooseConfig gl (flat pairs ++ EGL_NONE :: rest) has_configs n =
       Ret (if has_configs && (0 <? n) then (Z.of_nat (length (take (Z.to_nat n) found)), take (Z.to_nat n) found)
            else (Z.of_nat (length found), []))) /\
  (forall c k, known_config gl c = Some k -> 0 <= k < mCount gl /\ isCompatibleHostConfig gl c = true /\
     exists cfg, get_config gl k = Some cfg /\ getConfigId cfg = get_attrib gl c EGL_CONFIG_ID).
Proof.
  intros Hp wanted. split.
  - intros hosts Hh found. unfold chooseConfig. rewrite Hh, host_attribs_spec by done. cbn [obind fst snd].
    fold wanted. rewrite match_configs_spec by (auto || lia). rewrite Z.sub_0_r. fold found.
    by destruct (has_configs && (0 <? n)).
  - intros c k. unfold known_config. destruct (isCompatibleHostConfig gl c); [|done]. intros H.
    apply config_with_id_spec in H as (H1 & H2). done.
Qed.

(** * Witnesses *)

Definition the_extensions : bytes := str " GL_OES_depth24 GL_EXT_debug_marker  GL_OES_texture_npot".
(** Three configurations, of which the second has no pixel buffers. *)
Definition the_gl : host_gl := {|
  egl_version := (1, 5);
  egl_string n := if n =? EGL_EXTENSIONS then Some (str "EGL_KHR_image_base EGL_KHR_fence_sync") else None;
  gl_string _ n := Some (if n =? GL_EXTENSIONS then the_extensions else str "OpenGL ES 3.2 Mesa");
  get_configs := Some [11; 12; 13];
  get_attrib c a := if a =? EGL_SURFACE_TYPE then (if c =? 12 then 4 else 5) else if a =? EGL_CONFIG_ID then c else 8;
  choose_host _ := Some [13; 12; 11];
  gl_succeeds _ := true;
  gl_image _ := 2 ^ 32;
  gl_clock _ := 0;
  resolution := (1920, 1080);
  density := 160
|}.
Definition a_layer (cb : Z) : rc_call := PostLayer (str "app") cb 1 (Rect 0 0 8 8) (Rect 0 0 8 8).
(** Two threads whose batches are interleaved, and a posted buffer. *)
Definition interleaved : list (nat * rc_call) :=
  [(0%nat, RcCreateColorBuffer 8 8 GL_RGBA); (0%nat, a_layer 1); (1%nat, a_layer 2); (1%nat, PostAllLayersDone); (0%nat, FBPost 1);
   (0%nat, a_layer 3); (0%nat, PostAllLayersDone)].
Definition after_interleaved : control := (rc_run the_gl true true interleaved control_init).1.
Lemma interleaved_runs : rc_run the_gl true true interleaved control_init = (after_interleaved, Ret tt).
Proof. by vm_compute. Qed.
Lemma frame_batches_witness : rc_run the_gl true true interleaved control_init = (after_interleaved, Ret tt) /\
  frames_of 0 false (submitted after_interleaved) = batches [] (calls_of 0 interleaved) /\
  buffer <$> concat (batches [] (calls_of 0 interleaved)) = [1; 3].
Proof.
  destruct (frame_batches the_gl true true interleaved after_interleaved interleaved_runs) as [H _].
  split; [exact interleaved_runs|]. split; [exact (H 0%nat)|reflexivity].
Defined.
Lemma gl_strings_witness : Z.of_nat (length (gl_identity the_gl 0 GL_EXTENSIONS)) + 1 < 2 ^ 31 /\
  words_of (gl_identity the_gl 0 GL_EXTENSIONS) =
    (str <$> ["GL_OES_depth24"; "GL_OES_texture_npot"; "GL_OES_EGL_image_external"; "ANDROID_EMU_gles_max_version_3_0"]%string).
Proof.
  assert (H : Z.of_nat (length (gl_identity the_gl 0 GL_EXTENSIONS)) + 1 < 2 ^ 31) by (vm_compute; reflexivity).
  split; [exact H|]. destruct (gl_strings the_gl 0 GL_EXTENSIONS true 10 control_init H) as (_ & E & _).
  rewrite (E eq_refl). vm_compute. reflexivity.
Defined.
Definition windowed : list (Z * Z) := [(EGL_RED_SIZE, 8); (EGL_SURFACE_TYPE, EGL_WINDOW_BIT); (EGL_RECORDABLE_ANDROID, 1)].
Lemma choose_config_witness : Forall (fun p => p.1 <> EGL_NONE) windowed /\
  chooseConfig the_gl (flat windowed ++ EGL_NONE :: []) true 8 = Ret (2, [1; 0]).
Proof.
  assert (H : Forall (fun p : Z * Z => p.1 <> EGL_NONE) windowed) by (repeat constructor; discriminate).
  split; [exact H|]. destruct (choose_config the_gl windowed [] true 8 H) as [E _].
  rewrite (E [11; 12; 13] eq_refl). vm_compute. reflexivity.
Defined.

(** * What the code does besides *)

(** A name that EGL does not know makes eglQueryString answer NULL, from which a
    string is constructed: undefined behaviour that any guest can cause. *)
Lemma query_egl_null gl name b n s : egl_string gl name = None -> rcQueryEGLString gl true name b n s = (s, Undef).
Proof. intros H. unfold rcQueryEGLString, guarded. by rewrite H. Qed.
(** The size of the attribute list is not looked at: without an end in it the
    host reads on. *)
Lemma choose_config_overread gl attribs size b n : get_configs gl <> None -> size <> 0 -> EGL_NONE ∉ attribs ->
  forall s, rcChooseConfig gl true attribs size b n s = (s, Undef).
Proof.
  intros Hg Hs Hn s. unfold rcChooseConfig. rewrite (proj2 (Z.eqb_neq size 0)) by done. cbn [negb orb].
  assert (H : host_attribs attribs = Undef).
  { revert attribs Hn. fix IH 1. intros [|x [|v l]] Hn; [done| |]; cbn [host_attribs].
    - apply not_elem_of_cons in Hn as [Hn _]. by rewrite (proj2 (Z.eqb_neq _ _)).
    - apply not_elem_of_cons in Hn as [Hn Hl]. apply not_elem_of_cons in Hl as [_ Hl].
      rewrite (proj2 (Z.eqb_neq _ _)) by done. by rewrite IH. }
  unfold mbind, M_bind, lift, chooseConfig. destruct (get_configs gl); [|done]. by rewrite H.
Qed.
(** The handle of an image is its address without the upper half: images of
    different addresses share a handle, and it may be that of a failure. *)
Lemma client_image_truncated :
  (createClientImage the_gl 0 0 7 control_init).2 = Ret 0 /\ gl_image the_gl (asked control_init) <> 0.
Proof. by vm_compute. Qed.
(** The layer of the mouse pointer is shown like any other. *)
Lemma pointer_layer_shown : is_layer_blacklisted (str "Sprite") = true /\
  (frame_of <$> submitted (rc_run the_gl true true
     [(0%nat, PostLayer (str "Sprite") 1 1 (Rect 0 0 8 8) (Rect 0 0 8 8)); (0%nat, PostAllLayersDone)] control_init).1) =
  [[Renderable (str "Sprite") 1 (Rect 0 0 8 8) (Rect 0 0 8 8) 1]].
Proof. by vm_compute. Qed.
