(* ===== verification/RenderThread.v ===== *)
(** A render thread (graphics/emugl/RenderThread.cpp, graphics/emugl/ReadBuffer.cpp):
    the bytes of a guest's pipe are cut into packets, each of which is handled
    by the calls of newer guests, by one of the decoders of GLES, or as a call
    of [RenderControl].  The decoders are generated and are parameters. *)

From S2P Require Import Prelude Geometry Renderer RenderControl.

Local Open Scope Z_scope.

Definition STREAM_BUFFER_SIZE : Z := 4 * 1024 * 1024.
Definition kRcGetHostExtensionsString : Z := 10069.
Definition kApi35RcSetPuid : Z := 10033.
Definition kApi35RcFlushWindowColorBufferAsync : Z := 10031.
Definition kApi35RcSetDisplayColorBuffer : Z := 10040.
Definition kApi35RcGetDisplayColorBuffer : Z := 10041.
Definition kApi35RcCreateDisplayById : Z := 10062.
Definition kApi35RcSetDisplayPoseDpi : Z := 10063.
Definition kApi35RcCreateColorBufferDma : Z := 10035.
Definition kRcBindTexture : Z := 10020.
Definition INT_MAX : Z := 2 ^ 31 - 1.

(** * The read buffer *)

(** What is in the memory that [malloc] and [realloc] give, and whether they
    do. *)
Record allocator := Allocator { fresh_bytes : nat -> bytes; grows : Z -> bool }.
Definition allocates (a : allocator) : Prop := forall n, length (fresh_bytes a n) = n.

Record read_buffer := ReadBuffer { m_buf : bytes; m_readPtr : nat; m_validData : nat }.
Definition m_size (b : read_buffer) : Z := Z.of_nat (length (m_buf b)).
Definition make_buffer (a : allocator) (bufsize : nat) : read_buffer := ReadBuffer (fresh_bytes a bufsize) 0 0.
Definition move_down (b : read_buffer) : bytes :=
  if (0 <? m_validData b)%nat && (0 <? m_readPtr b)%nat
  then take (m_validData b) (drop (m_readPtr b) (m_buf b)) ++ drop (m_validData b) (m_buf b) else m_buf b.
Definition grown_size (size : Z) : Z := let new_size := u64 (size * 2) in if new_size <? size then INT_MAX else new_size.
(** The chunks are what the stream still gives, each to a read that has room for
    it; at their end it is closed. *)
Definition getData (a : allocator) (b : read_buffer) (chunks : list bytes) : read_buffer * Z * list bytes :=
  let buf := move_down b in
  let full := (length buf - m_validData b =? 0)%nat in
  let new_size := grown_size (Z.of_nat (length buf)) in
  if full && negb (grows a new_size) then (ReadBuffer buf (m_readPtr b) (m_validData b), -1, chunks)
  else
    let buf := if full then buf ++ drop (length buf) (fresh_bytes a (Z.to_nat new_size)) else buf in
    let len := (length buf - m_validData b)%nat in
    match chunks with
    | [] => (ReadBuffer buf 0 (m_validData b), -1, [])
    | c :: rest =>
        let n := (len `min` length c)%nat in
        let buf := take (m_validData b) buf ++ take n c ++ drop (m_validData b + n) buf in
        (ReadBuffer buf 0 (m_validData b + n), i32 (Z.of_nat n), if (n <? length c)%nat then drop n c :: rest else rest)
    end.
Definition consume (amount : nat) (b : read_buffer) : read_buffer :=
  ReadBuffer (m_buf b) (m_readPtr b + amount) (m_validData b - amount).

(** * Packets *)

(** [readProtocolU32], in the host's byte order, which is little endian; past
    the allocation it is undefined. *)
Definition readProtocolU32 (mem : bytes) (word : nat) : outcome Z :=
  if (4 * word + 4 <=? length mem)%nat then Ret (le_value (take 4 (drop (4 * word) mem))) else Undef.

Record decoders (D : Type) := Decoders {
  gles1 : D -> bytes -> D * list bytes * nat;
  gles2 : D -> bytes -> D * list bytes * nat;
  rc_parse : bytes -> option rc_call;
  rc_encode : rc_call -> reply -> list bytes;
  free_programs : D -> D
}.
Arguments gles1 {D}.
Arguments gles2 {D}.
Arguments rc_parse {D}.
Arguments rc_encode {D}.
Arguments free_programs {D}.
(** A decoder takes a whole packet, or leaves it and everything else alone. *)
Definition whole_packet {D} (f : D -> bytes -> D * list bytes * nat) : Prop := forall d p, p <> [] ->
  (f d p).2 = length p \/ f d p = (d, [], 0%nat).

(** What a thread works on, besides its buffer: its decoders, the messages to
    its guest, and what it shares. *)
Record core (D : Type) := Core { dec : D; sent : list bytes; shared : control }.
Arguments Core {D}.
Arguments dec {D}.
Arguments sent {D}.
Arguments shared {D}.

Section thread.
Context {D : Type} (ds : decoders D) (gl : host_gl) (has_renderer has_composer : bool) (t : nat).

Definition on_shared {A} (c : M control A) : M (core D) A := fun s =>
  let (k, r) := c (shared s) in (Core (dec s) (sent s) k, r).
(** [stream->alloc], the copy into it and [stream->flush]. *)
Definition respond (m : bytes) : M (core D) unit := modify (fun s => Core (dec s) (sent s ++ [m]) (shared s)).
Definition respond_u32 (v : Z) : M (core D) unit := respond (le_bytes 4 v).
Definition word_at (mem : bytes) (n : nat) : M (core D) Z := lift (readProtocolU32 mem n).

Definition extensions : bytes := str "ANDROID_EMU_gles_max_version_3_0" ++ [x00].
Definition host_extensions (output_size guest_buffer_size : Z) : bytes :=
  let copy_size := Z.to_nat (Z.min (Z.of_nat (length extensions)) (Z.min output_size guest_buffer_size)) in
  let extension_size := if guest_buffer_size =? 0 then 0 else Z.of_nat (length extensions) in
  take copy_size extensions ++ replicate (Z.to_nat output_size - copy_size) x00 ++ le_bytes 4 extension_size.

(** [mem] is the memory from the packet on, [len] the size of the packet. *)
Definition decodeModernRenderControlCompatibility (mem : bytes) (len : nat) : M (core D) nat :=
  if (len <? 8)%nat then mret 0%nat
  else
    opcode ← word_at mem 0;
    packet_length ← word_at mem 1;
    let size := Z.to_nat packet_length in
    let packet op n := (opcode =? op) && (packet_length =? n) in
    if (packet_length <? 8) || (Z.of_nat len <? packet_length) then mret 0%nat
    else if packet kApi35RcSetPuid 16 then mret size
    else if packet kApi35RcFlushWindowColorBufferAsync 12 then
      window_surface ← word_at mem 2;
      on_shared (flushWindowSurfaceColorBuffer window_surface);; mret size
    else if packet kApi35RcCreateDisplayById 12 then
      word_at mem 2;; respond_u32 0;; mret size
    else if packet kApi35RcSetDisplayColorBuffer 16 then
      display_id ← word_at mem 2;
      color_buffer ← word_at mem 3;
      on_shared (modify (fun k => with_displays (<[display_id := color_buffer]> (display_color_buffers k)) k));;
      respond_u32 0;; mret size
    else if packet kApi35RcGetDisplayColorBuffer 16 then
      display_id ← word_at mem 2;
      k ← on_shared get;
      respond_u32 (default 0 (display_color_buffers k !! display_id));; mret size
    else if packet kApi35RcSetDisplayPoseDpi 32 then
      respond_u32 0;; word_at mem 2;; word_at mem 5;; word_at mem 6;; word_at mem 7;; mret size
    else if packet kApi35RcCreateColorBufferDma 24 then
      host_format ← word_at mem 4;
      width ← word_at mem 2;
      height ← word_at mem 3;
      handle ← on_shared (create_color_buffer gl width height host_format);
      respond_u32 handle;; word_at mem 5;; mret size
    else if packet kRcBindTexture 12 then
      color_buffer ← word_at mem 2;
      on_shared (bindColorBufferToTexture gl color_buffer);; mret size
    else if negb (opcode =? kRcGetHostExtensionsString) then mret 0%nat
    else
      output_size ← word_at mem 2;
      guest_buffer_size ← word_at mem 3;
      respond (host_extensions output_size guest_buffer_size);; mret size.

Definition gles_decode (f : D -> bytes -> D * list bytes * nat) (p : bytes) : M (core D) nat := fun s =>
  let '(d, ms, n) := f (dec s) p in (Core d (sent s ++ ms) (shared s), Ret n).
Definition rc_decode (p : bytes) : M (core D) nat :=
  match rc_parse ds p with
  | None => mret 0%nat
  | Some c =>
      r ← on_shared (render_control gl has_renderer has_composer t c);
      modify (fun s => Core (dec s) (sent s ++ rc_encode ds c r) (shared s));; mret (length p)
  end.
(** The decoders in turn; the answer is what one of them took. *)
Definition decode_packet (mem : bytes) (size : nat) : M (core D) nat :=
  last ← decodeModernRenderControlCompatibility mem size;
  if (0 <? last)%nat then mret last
  else
    last ← gles_decode (gles1 ds) (take size mem);
    if (0 <? last)%nat then mret last
    else
      last ← gles_decode (gles2 ds) (take size mem);
      if (0 <? last)%nat then mret last else rc_decode (take size mem).

(** * The thread *)

Definition on_core {A} (c : M (core D) A) : M (read_buffer * core D) A := fun s =>
  let (k, r) := c s.2 in ((s.1, k), r).
Definition buffered : M (read_buffer * core D) read_buffer := fun s => (s, Ret s.1).
(** A turn of the inner loop, under the lock; the answer is [progress]. *)
Definition packet_step : M (read_buffer * core D) bool :=
  b ← buffered;
  if (m_validData b <? 8)%nat then mret false
  else
    let mem := drop (m_readPtr b) (m_buf b) in
    on_core (word_at mem 0);;
    packet_size ← on_core (word_at mem 1);
    if (packet_size <? 8) || (Z.of_nat (m_validData b) <? packet_size) then mret false
    else
      last ← on_core (decode_packet mem (Z.to_nat packet_size));
      if (0 <? last)%nat then modify (fun s => (consume last s.1, s.2));; mret true else mret false.
Fixpoint packets (fuel : nat) : M (read_buffer * core D) unit :=
  match fuel with
  | O => lift Undef
  | S fuel' => progress ← packet_step; if (progress : bool) then packets fuel' else mret tt
  end.
Fixpoint serve_stream (a : allocator) (fuel : nat) (chunks : list bytes) : M (read_buffer * core D) unit :=
  match fuel with
  | O => lift Undef
  | S fuel' =>
      b ← buffered;
      let '(b, stat, chunks) := getData a b chunks in
      modify (fun s => (b, s.2));;
      if stat <=? 0 then mret tt
      else packets (S (m_validData b));; serve_stream a fuel' chunks
  end.
Definition finish_thread : M (core D) unit :=
  on_shared (bind_context gl 0 0 0);;
  modify (fun s => Core (free_programs ds (dec s)) (sent s) (shared s));;
  n ← on_shared (clock_now gl);
  on_shared (ask_renderer (Defer t n));; mret tt.
Definition serve_fuel (chunks : list bytes) : nat := S (length chunks + length (concat chunks)).
Definition main (a : allocator) (bufsize : nat) (chunks : list bytes) : M (core D) unit := fun s =>
  match serve_stream a (serve_fuel chunks) chunks (make_buffer a bufsize, s) with
  | (s', Ret _) => finish_thread s'.2
  | (s', Throw e) => (s'.2, Throw e)
  | (s', Aborted) => (s'.2, Aborted)
  | (s', Undef) => (s'.2, Undef)
  end.
End thread.

(** * Specification *)

Section stream.
Context {D : Type} (ds : decoders D) (gl : host_gl) (has_renderer has_composer : bool) (t : nat).

(** The whole stream at once: packets from its front, until one is incomplete,
    ill-formed or taken by no decoder.  A decoder that reads past its packet is
    undefined. *)
Fixpoint stream_spec (fuel : nat) (data : bytes) : M (core D) bytes :=
  match fuel with
  | O => lift Undef
  | S fuel' =>
      if (length data <? 8)%nat then mret data
      else
        let size := le_value (take 4 (drop 4 data)) in
        if (size <? 8) || (Z.of_nat (length data) <? size) then mret data
        else
          last ← decode_packet ds gl has_renderer has_composer t (take (Z.to_nat size) data) (Z.to_nat size);
          if (0 <? last)%nat then stream_spec fuel' (drop last data) else mret data
  end.
Definition guest_stream (data : bytes) : M (core D) bytes := stream_spec (S (length data)) data.
End stream.

(** The bytes that were read and not consumed. *)
Definition contents (b : read_buffer) : bytes := take (m_validData b) (drop (m_readPtr b) (m_buf b)).
Definition buffer_ok (b : read_buffer) : Prop := (m_readPtr b + m_validData b <= length (m_buf b))%nat.

(** * Lemmas: the read buffer *)

Lemma contents_length b : buffer_ok b -> length (contents b) = m_validData b.
Proof. unfold buffer_ok, contents. intros H. len. lia. Qed.
Lemma move_down_length b : buffer_ok b -> length (move_down b) = length (m_buf b).
Proof. unfold buffer_ok, move_down. intros H. destruct (_ && _) eqn:E; [|done]. len. lia. Qed.
Lemma move_down_contents b : buffer_ok b -> take (m_validData b) (move_down b) = contents b.
Proof.
  intros H. unfold move_down, contents. destruct (Nat.ltb_spec 0 (m_validData b)) as [Hv|Hv]; cbn [andb].
  - destruct (Nat.ltb_spec 0 (m_readPtr b)) as [Hr|Hr].
    + rewrite take_app_le by (unfold buffer_ok in H; len; lia). by rewrite take_take, Nat.min_id.
    + replace (m_readPtr b) with 0%nat by lia. done.
  - replace (m_validData b) with 0%nat by lia. done.
Qed.
Lemma grown_size_more size : 0 < size < 2 ^ 31 -> size < grown_size size.
Proof.
  intros H. unfold grown_size. cbv zeta. unfold u64. rewrite Z.mod_small by lia.
  destruct (Z.ltb_spec (size * 2) size); unfold INT_MAX; lia.
Qed.
(** A read that has room appends the front of the next chunk. *)
Lemma getData_ok a b c rest : allocates a -> (forall n, grows a n = true) -> buffer_ok b -> 0 < m_size b < 2 ^ 31 -> c <> [] ->
  exists b' n, (0 < n <= length c)%nat /\ buffer_ok b' /\ 0 < m_size b' /\ (length (m_buf b) <= length (m_buf b'))%nat /\
    m_size b' <= Z.max (m_size b) (if (m_validData b =? length (m_buf b))%nat then 2 * m_size b else 0) /\
    contents b' = contents b ++ take n c /\ m_validData b' = (m_validData b + n)%nat /\
    getData a b (c :: rest) = (b', i32 (Z.of_nat n), if (n <? length c)%nat then drop n c :: rest else rest).
Proof.
  intros Ha Hg Hb Hs Hc. unfold getData. cbv zeta. rewrite move_down_length by done. rewrite Hg, andb_false_r. unfold m_size in *.
  set (full := (length (m_buf b) - m_validData b =? 0)%nat).
  set (new := Z.to_nat (grown_size (Z.of_nat (length (m_buf b))))).
  set (buf := if full then move_down b ++ drop (length (m_buf b)) (fresh_bytes a new) else move_down b).
  assert (Hnew : (length (m_buf b) < new)%nat) by (unfold new; pose proof (grown_size_more (Z.of_nat (length (m_buf b)))); lia).
  assert (Hnew2 : new = (2 * length (m_buf b))%nat).
  { unfold new, grown_size. cbv zeta. unfold u64. rewrite Z.mod_small by lia. destruct (Z.ltb_spec (Z.of_nat (length (m_buf b)) * 2) (Z.of_nat (length (m_buf b)))); lia. }
  assert (Hbuf : length buf = if full then new else length (m_buf b)).
  { unfold buf. destruct full; [|by apply move_down_length]. len. rewrite move_down_length, Ha by done. lia. }
  assert (Htake : take (m_validData b) buf = contents b).
  { rewrite <- move_down_contents by done. unfold buf. destruct full; [|done]. apply take_app_le.
    rewrite move_down_length by done. unfold buffer_ok in Hb. lia. }
  assert (Hroom : (m_validData b < length buf)%nat).
  { rewrite Hbuf. unfold buffer_ok in Hb. unfold full. destruct (Nat.eqb_spec (length (m_buf b) - m_validData b) 0); lia. }
  assert (Hfull : full = (m_validData b =? length (m_buf b))%nat).
  { unfold full, buffer_ok in *. destruct (Nat.eqb_spec (length (m_buf b) - m_validData b) 0), (Nat.eqb_spec (m_validData b) (length (m_buf b))); lia || done. }
  set (n := ((length buf - m_validData b) `min` length c)%nat).
  assert (Hn : (0 < n <= length c)%nat) by (unfold n; destruct c; [done|]; cbn [length]; lia).
  assert (Hl : length (take (m_validData b) buf ++ take n c ++ drop (m_validData b + n) buf) = length buf) by (len; lia).
  exists (ReadBuffer (take (m_validData b) buf ++ take n c ++ drop (m_validData b + n) buf) 0 (m_validData b + n)), n.
  split; [done|]. cbn [m_buf m_validData m_readPtr contents]. unfold buffer_ok. cbn [m_buf m_validData m_readPtr]. rewrite Hl.
  split; [unfold n; lia|]. split; [lia|]. split; [rewrite Hbuf; destruct full; lia|].
  split; [rewrite Hbuf, <- Hfull; destruct full; lia|]. split; [|by split].
  unfold contents at 1. cbn [m_buf m_validData m_readPtr]. rewrite drop_0, app_assoc, take_app_le; [|len; lia].
  rewrite Htake. apply take_ge. len. rewrite contents_length by done. lia.
Qed.
Lemma consume_contents n b : (n <= m_validData b)%nat -> buffer_ok b -> buffer_ok (consume n b) /\ contents (consume n b) = drop n (contents b).
Proof.
  unfold buffer_ok, contents, consume. cbn. intros Hn Hb. split; [lia|].
  rewrite skipn_firstn_comm, drop_drop. f_equal.
Qed.

(** * Lemmas: decoding one packet *)

(** Where the first call returns, the second does the same. *)
Definition refines_to {St A} (c1 c2 : M St A) : Prop := forall s s' a, c1 s = (s', Ret a) -> c2 s = (s', Ret a).
Lemma includes_refl {St A} (c : M St A) : refines_to c c.
Proof. by intros s s' a. Qed.
Lemma includes_bind {St A B} (c1 c2 : M St A) (k1 k2 : A -> M St B) :
  refines_to c1 c2 -> (forall a, refines_to (k1 a) (k2 a)) -> refines_to (c1 ≫= k1) (c2 ≫= k2).
Proof.
  intros H1 H2 s s' a (s1 & b & E1 & E2)%M_bind_ret_inv. apply H1 in E1. apply H2 in E2. by rewrite (M_bind_ret _ _ _ _ _ E1).
Qed.
Lemma includes_if {St A} (b : bool) (c1 c2 d1 d2 : M St A) :
  refines_to c1 c2 -> refines_to d1 d2 -> refines_to (if b then c1 else d1) (if b then c2 else d2).
Proof. by destruct b. Qed.
(** The call takes [n] bytes, or none and changes nothing. *)
Definition eats {St} (n : nat) (c : M St nat) : Prop := forall s s' k, c s = (s', Ret k) -> k = n \/ (k = 0%nat /\ s' = s).
Definition ends {St} (n : nat) (c : M St nat) : Prop := forall s s' k, c s = (s', Ret k) -> k = n.
Lemma ends_ret {St} n : ends (St:=St) n (mret n).
Proof. by intros s s' k [= _ <-]. Qed.
Lemma ends_bind {St A} n (c : M St A) k : (forall a, ends n (k a)) -> ends n (c ≫= k).
Proof. intros H s s' j (s1 & a & _ & E)%M_bind_ret_inv. by apply H in E. Qed.
Lemma eats_ends {St} n (c : M St nat) : ends n c -> eats n c.
Proof. intros H s s' k E. left. by apply H in E. Qed.
Lemma eats_none {St} n : eats (St:=St) n (mret 0%nat).
Proof. intros s s' k [= <- <-]. by right. Qed.
Lemma eats_else {St} n (c : M St nat) (k : M St nat) : (0 < n)%nat -> eats n c -> eats n k ->
  eats n (c ≫= fun last => if (0 <? last)%nat then mret last else k).
Proof.
  intros Hn Hc Hk s s' j (s1 & a & E1 & E2)%M_bind_ret_inv. apply Hc in E1 as [->|[-> ->]].
  - rewrite (proj2 (Nat.ltb_lt _ _) Hn) in E2. injection E2 as _ <-. by left.
  - by apply Hk in E2.
Qed.

Section decoding.
Context {D : Type} (ds : decoders D) (gl : host_gl) (has_renderer has_composer : bool) (t : nat).
Context (H1 : whole_packet (gles1 ds)) (H2 : whole_packet (gles2 ds)).

Lemma includes_word p rest n : refines_to (word_at (D:=D) p n) (word_at (p ++ rest) n).
Proof.
  intros s s' a. unfold word_at, lift, readProtocolU32. destruct (Nat.leb_spec (4 * n + 4) (length p)); [|done].
  rewrite (proj2 (Nat.leb_le _ _)) by (len; lia). intros [= <- <-]. rewrite drop_app_le, take_app_le by (len; lia). done.
Qed.
Lemma includes_modern p rest len :
  refines_to (decodeModernRenderControlCompatibility (D:=D) gl p len) (decodeModernRenderControlCompatibility gl (p ++ rest) len).
Proof.
  unfold decodeModernRenderControlCompatibility. cbv zeta. apply includes_if; [apply includes_refl|].
  repeat first [apply includes_bind; [first [apply includes_word|apply includes_refl]|intros ?]|apply includes_if|apply includes_refl].
Qed.
Lemma includes_decode p rest : refines_to (decode_packet ds gl has_renderer has_composer t p (length p))
  (decode_packet ds gl has_renderer has_composer t (p ++ rest) (length p)).
Proof.
  unfold decode_packet. apply includes_bind; [apply includes_modern|]. intros last. rewrite take_app_length, take_ge by done. apply includes_refl.
Qed.

Lemma eats_modern p : (8 <= length p)%nat -> le_value (take 4 (drop 4 p)) = Z.of_nat (length p) ->
  eats (length p) (decodeModernRenderControlCompatibility (D:=D) gl p (length p)).
Proof.
  intros Hl Hw s s' k E. unfold decodeModernRenderControlCompatibility in E. cbv zeta in E.
  rewrite (proj2 (Nat.ltb_ge _ _)) in E by lia. apply M_bind_ret_inv in E as (s0 & opcode & E0 & E).
  assert (s0 = s) as ->.
  { unfold word_at, lift, readProtocolU32 in E0. rewrite (proj2 (Nat.leb_le _ _)) in E0 by lia. by injection E0 as <-. }
  assert (Hw1 : word_at (D:=D) p 1 s = (s, Ret (Z.of_nat (length p)))).
  { unfold word_at, lift, readProtocolU32. rewrite (proj2 (Nat.leb_le _ _)) by lia. change (4 * 1)%nat with 4%nat. by rewrite Hw. }
  rewrite (M_bind_ret _ _ _ _ _ Hw1), Nat2Z.id in E. revert E. generalize s s' k.
  repeat match goal with |- context [if ?b then _ else _] => destruct b end;
    first [apply eats_none|apply eats_ends; repeat first [apply ends_ret|apply ends_bind; intros ?]].
Qed.
Lemma eats_gles f p : whole_packet f -> p <> [] -> eats (length p) (gles_decode (D:=D) f p).
Proof.
  intros Hf Hp s s' k. unfold gles_decode. destruct (Hf (dec s) p Hp) as [E|E].
  - destruct (f (dec s) p) as [[d ms] n]. intros [= <- <-]. by left.
  - rewrite E. intros [= <- <-]. right. rewrite app_nil_r. by destruct s.
Qed.
Lemma eats_rc p : eats (length p) (rc_decode ds gl has_renderer has_composer t p).
Proof.
  unfold rc_decode. destruct (rc_parse ds p); [|apply eats_none]. apply eats_ends. repeat first [apply ends_ret|apply ends_bind; intros ?].
Qed.
Lemma eats_decode p : (8 <= length p)%nat -> le_value (take 4 (drop 4 p)) = Z.of_nat (length p) ->
  eats (length p) (decode_packet ds gl has_renderer has_composer t p (length p)).
Proof.
  intros Hl Hw. unfold decode_packet. rewrite take_ge by lia. assert (Hp : p <> []) by (destruct p; [cbn in Hl; lia|done]).
  apply eats_else; [lia|by apply eats_modern|]. apply eats_else; [lia|by apply eats_gles|].
  apply eats_else; [lia|by apply eats_gles|apply eats_rc].
Qed.

(** * Lemmas: the stream *)

Abbreviation the_spec := (stream_spec ds gl has_renderer has_composer t).
Abbreviation one_step := (packet_step ds gl has_renderer has_composer t).
Abbreviation loop_packets := (packets ds gl has_renderer has_composer t).

Lemma contents_prefix b : buffer_ok b -> exists rest, drop (m_readPtr b) (m_buf b) = contents b ++ rest.
Proof. intros Hb. exists (drop (m_validData b) (drop (m_readPtr b) (m_buf b))). unfold contents. by rewrite take_drop. Qed.
Lemma word_contents b n : buffer_ok b -> (4 * n + 4 <= m_validData b)%nat -> forall s : core D,
  word_at (drop (m_readPtr b) (m_buf b)) n s = (s, Ret (le_value (take 4 (drop (4 * n) (contents b))))).
Proof.
  intros Hb Hn s. destruct (contents_prefix b Hb) as [rest ->]. pose proof (contents_length b Hb) as Hl.
  unfold word_at, lift, readProtocolU32. rewrite (proj2 (Nat.leb_le _ _)) by (len; lia).
  by rewrite drop_app_le, take_app_le by (len; lia).
Qed.
Definition packet_size (b : read_buffer) : Z := le_value (take 4 (drop 4 (contents b))).
Lemma step_stops b s : buffer_ok b ->
  (m_validData b < 8)%nat \/ (packet_size b <? 8) || (Z.of_nat (m_validData b) <? packet_size b) = true ->
  one_step (b, s) = ((b, s), Ret false).
Proof.
  intros Hb Hc. unfold packet_step, buffered, mbind, M_bind, on_core. cbn [fst snd].
  destruct (Nat.ltb_spec (m_validData b) 8) as [Hsm|Hge]; [done|]. destruct Hc as [Hc|Hc]; [lia|].
  rewrite !word_contents by (done || lia). cbn [fst snd]. change (4 * 1)%nat with 4%nat. fold (packet_size b). by rewrite Hc.
Qed.
Lemma step_decodes b s s1 last : buffer_ok b -> (8 <= m_validData b)%nat ->
  (packet_size b <? 8) || (Z.of_nat (m_validData b) <? packet_size b) = false ->
  decode_packet ds gl has_renderer has_composer t (drop (m_readPtr b) (m_buf b)) (Z.to_nat (packet_size b)) s = (s1, Ret last) ->
  one_step (b, s) = if (0 <? last)%nat then ((consume last b, s1), Ret true) else ((b, s1), Ret false).
Proof.
  intros Hb Hge Hc Hd. unfold packet_step, buffered, mbind, M_bind, on_core. cbn [fst snd].
  rewrite (proj2 (Nat.ltb_ge _ _)) by lia. rewrite !word_contents by (done || lia). cbn [fst snd].
  change (4 * 1)%nat with 4%nat. fold (packet_size b). rewrite Hc. cbn [fst snd]. rewrite Hd. by destruct (0 <? last)%nat.
Qed.
(** A turn of the loop does what the specification does with the front. *)
Lemma step_spec n b s s' rest : buffer_ok b -> the_spec (S n) (contents b) s = (s', Ret rest) ->
  (one_step (b, s) = ((b, s'), Ret false) /\ s' = s /\ rest = contents b) \/
  (exists b1 s1, one_step (b, s) = ((b1, s1), Ret true) /\ buffer_ok b1 /\ m_buf b1 = m_buf b /\ (m_validData b1 < m_validData b)%nat /\
     the_spec n (contents b1) s1 = (s', Ret rest)).
Proof.
  intros Hb Hs. cbn [stream_spec] in Hs. rewrite (contents_length b Hb) in Hs. cbv zeta in Hs.
  destruct (Nat.ltb_spec (m_validData b) 8) as [Hsm|Hge].
  { injection Hs as <- <-. left. split; [|done]. apply step_stops; [done|by left]. }
  fold (packet_size b) in Hs.
  destruct ((packet_size b <? 8) || (Z.of_nat (m_validData b) <? packet_size b)) eqn:Ec.
  { injection Hs as <- <-. left. split; [|done]. apply step_stops; [done|by right]. }
  set (size := packet_size b) in *. pose proof Ec as [E8 Ev]%orb_false_iff.
  apply Z.ltb_ge in E8, Ev. set (p := take (Z.to_nat size) (contents b)) in *.
  assert (Hp : length p = Z.to_nat size) by (unfold p; len; rewrite contents_length by done; lia).
  assert (Hw : le_value (take 4 (drop 4 p)) = Z.of_nat (length p)).
  { rewrite Hp, Z2Nat.id by lia. unfold p. rewrite skipn_firstn_comm, take_take, Nat.min_l by lia. done. }
  apply M_bind_ret_inv in Hs as (s1 & last & E1 & Hs).
  assert (Hd : decode_packet ds gl has_renderer has_composer t (drop (m_readPtr b) (m_buf b)) (Z.to_nat size) s = (s1, Ret last)).
  { destruct (contents_prefix b Hb) as [r ->]. rewrite <- (take_drop (Z.to_nat size) (contents b)), <- app_assoc. fold p.
    rewrite <- Hp. apply includes_decode. by rewrite Hp. }
  apply step_decodes in Hd; [|done..]. rewrite Hd.
  rewrite <- Hp in E1. apply eats_decode in E1; [|lia|done]. destruct (Nat.ltb_spec 0 last) as [Hpos|Hz].
  - right. exists (consume last b), s1. assert (Hlast : last = Z.to_nat size) by lia.
    destruct (consume_contents last b) as [C1 C2]; [lia|done|]. split_and!; [done..| |].
    + cbn. lia.
    + by rewrite C2.
  - destruct E1 as [E1|[_ ->]]; [lia|]. injection Hs as <- <-. left. by split_and!.
Qed.
Lemma packets_spec n : forall fuel b s s' rest, buffer_ok b -> (m_validData b < fuel)%nat ->
  the_spec n (contents b) s = (s', Ret rest) ->
  exists b', loop_packets fuel (b, s) = ((b', s'), Ret tt) /\ buffer_ok b' /\ length (m_buf b') = length (m_buf b) /\
    (m_validData b' <= m_validData b)%nat /\ contents b' = rest.
Proof.
  induction n as [|n IH]; intros fuel b s s' rest Hb Hf Hs; [done|]. destruct fuel as [|fuel]; [lia|]. cbn [packets].
  destruct (step_spec n b s s' rest Hb Hs) as [(E & -> & ->)|(b1 & s1 & E & Hb1 & Hm & Hlt & Hs1)]; rewrite (M_bind_ret _ _ _ _ _ E).
  - by exists b.
  - destruct (IH fuel b1 s1 s' rest Hb1) as (b' & E' & ? & Hm' & ? & ?); [lia|done|]. exists b'. split_and!; [done..|congruence|lia|done].
Qed.

(** More fuel does not matter, and a stream can be handled in two parts. *)
Lemma spec_more n : forall m data s s' rest, the_spec n data s = (s', Ret rest) -> (length data < m)%nat -> the_spec m data s = (s', Ret rest).
Proof.
  induction n as [|n IH]; intros m data s s' rest Hs Hm; [done|]. destruct m as [|m]; [lia|]. cbn [stream_spec] in *.
  destruct (Nat.ltb_spec (length data) 8); [done|]. cbv zeta in *. destruct (_ || _); [done|].
  apply M_bind_ret_inv in Hs as (s1 & last & E1 & Hs). rewrite (M_bind_ret _ _ _ _ _ E1).
  destruct (Nat.ltb_spec 0 last); [|done]. apply IH with (m := m) in Hs; [done|]. len. lia.
Qed.
Lemma spec_split n : forall d1 d2 s s' rest, the_spec n (d1 ++ d2) s = (s', Ret rest) -> (length (d1 ++ d2) < n)%nat ->
  exists s1 rest1, the_spec n d1 s = (s1, Ret rest1) /\ the_spec n (rest1 ++ d2) s1 = (s', Ret rest) /\ (length rest1 <= length d1)%nat.
Proof.
  induction n as [|n IH]; intros d1 d2 s s' rest Hs Hn; [done|].
  assert (Hstop : the_spec (S n) d1 s = (s, Ret d1) ->
    exists s1 rest1, the_spec (S n) d1 s = (s1, Ret rest1) /\ the_spec (S n) (rest1 ++ d2) s1 = (s', Ret rest) /\ (length rest1 <= length d1)%nat).
  { intros E. by exists s, d1. }
  cbn [stream_spec] in Hstop |- *. destruct (Nat.ltb_spec (length d1) 8) as [Hsm|Hge]; [by apply Hstop|]. cbv zeta in *.
  set (size := le_value (take 4 (drop 4 d1))) in *.
  destruct (size <? 8) eqn:E8; cbn [orb] in *; [by apply Hstop|].
  destruct (Z.of_nat (length d1) <? size) eqn:Ev; [by apply Hstop|].
  clear Hstop. apply Z.ltb_ge in E8, Ev. pose proof Hs as Hs0. cbn [stream_spec] in Hs0.
  rewrite (proj2 (Nat.ltb_ge _ _)) in Hs0 by (len; lia). cbv zeta in Hs0.
  assert (Hw : le_value (take 4 (drop 4 (d1 ++ d2))) = size) by (unfold size; by rewrite drop_app_le, take_app_le by (len; lia)).
  rewrite Hw, (proj2 (Z.ltb_ge size 8)) in Hs0 by lia. cbn [orb] in Hs0. rewrite (proj2 (Z.ltb_ge _ size)) in Hs0 by (len; lia).
  rewrite take_app_le in Hs0 by lia. set (p := take (Z.to_nat size) d1) in *.
  assert (Hp : length p = Z.to_nat size) by (unfold p; len; lia).
  assert (Hwp : le_value (take 4 (drop 4 p)) = Z.of_nat (length p)).
  { rewrite Hp, Z2Nat.id by lia. unfold p. rewrite skipn_firstn_comm, take_take, Nat.min_l by lia. done. }
  apply M_bind_ret_inv in Hs0 as (s1 & last & E1 & Hs1). rewrite <- Hp in E1 |- *. pose proof E1 as E1'.
  apply eats_decode in E1'; [|lia|done]. setoid_rewrite (M_bind_ret _ _ _ _ _ E1).
  destruct (Nat.ltb_spec 0 last) as [Hpos|Hz].
  - assert (Hlast : last = Z.to_nat size) by lia. rewrite drop_app_le in Hs1 by lia.
    destruct (IH (drop last d1) d2 s1 s' rest Hs1) as (s2 & r1 & F1 & F2 & F3); [len; lia|].
    exists s2, r1. split; [done|]. split; [|len; lia]. change (the_spec (S n) (r1 ++ d2) s2 = (s', Ret rest)).
    apply spec_more with (n := n); [done|]. len. lia.
  - destruct E1' as [E1'|[_ ->]]; [lia|]. exists s, d1. split; [done|]. split; [|done]. exact Hs.
Qed.
(** What is left is left again. *)
Lemma spec_settled n d s s1 rest1 : the_spec n d s = (s1, Ret rest1) -> (length d < n)%nat -> the_spec n rest1 s1 = (s1, Ret rest1).
Proof.
  intros Hs Hn. rewrite <- (app_nil_r d) in Hs. destruct (spec_split n d [] s s1 rest1 Hs) as (s2 & r2 & E1 & E2 & _); [by rewrite app_nil_r|].
  rewrite app_nil_r in Hs, E2. rewrite Hs in E1. by injection E1 as -> ->.
Qed.

Lemma serve_spec a N B : allocates a -> (forall n, grows a n = true) -> 2 * N <= B < 2 ^ 31 ->
  forall fuel chunks b s s' rest n, buffer_ok b -> 0 < m_size b <= B -> Forall (fun c => c <> []) chunks ->
  Z.of_nat (length (contents b) + length (concat chunks)) <= N -> (length chunks + length (concat chunks) < fuel)%nat ->
  (length (contents b ++ concat chunks) < n)%nat -> the_spec n (contents b) s = (s, Ret (contents b)) ->
  the_spec n (contents b ++ concat chunks) s = (s', Ret rest) ->
  exists b', serve_stream ds gl has_renderer has_composer t a fuel chunks (b, s) = ((b', s'), Ret tt) /\ contents b' = rest.
Proof.
  intros Ha Hg HN. induction fuel as [|fuel IH]; intros chunks b s s' rest n Hb Hsz Hne Htot Hfuel Hn Hset Hs; [lia|]. cbn [serve_stream].
  unfold mbind at 1, M_bind at 1, buffered. cbn [fst]. destruct chunks as [|c chunks].
  { rewrite app_nil_r, Hset in Hs. injection Hs as <- <-. unfold getData. rewrite Hg, andb_false_r. cbv zeta.
    eexists. split; [done|]. unfold contents at 1. cbn [m_buf m_readPtr m_validData]. rewrite drop_0.
    rewrite <- (move_down_contents b Hb). destruct (_ =? _)%nat; [|done]. apply take_app_le.
    rewrite move_down_length by done. unfold buffer_ok in Hb. lia. }
  apply Forall_cons in Hne as [Hc Hne]. cbn [concat] in *. rewrite length_app in Htot. cbn [length] in Hfuel. rewrite length_app in Hfuel.
  destruct (getData_ok a b c chunks Ha Hg Hb) as (b1 & k & Hk & Hb1 & Hp1 & _ & Hs1 & Hc1 & Hv1 & ->); [lia|done|].
  set (chunks1 := if (k <? length c)%nat then drop k c :: chunks else chunks).
  assert (Hcat : concat chunks1 = drop k c ++ concat chunks).
  { unfold chunks1. destruct (Nat.ltb_spec k (length c)); [done|]. rewrite drop_ge by lia. done. }
  assert (Hi : i32 (Z.of_nat k) = Z.of_nat k) by (apply i32_small; lia).
  rewrite Hi. cbn [fst snd mbind M_bind modify]. unfold mbind at 1, M_bind at 1. cbn [modify].
  rewrite (proj2 (Z.leb_gt _ 0)) by lia.
  assert (Hdata : contents b ++ c ++ concat chunks = contents b1 ++ concat chunks1).
  { rewrite Hc1, Hcat, <- app_assoc. f_equal. by rewrite app_assoc, take_drop. }
  rewrite Hdata in Hs, Hn.
  destruct (spec_split n (contents b1) (concat chunks1) s s' rest Hs Hn) as (s1 & r1 & E1 & E2 & Hr1).
  destruct (packets_spec n (S (m_validData b1)) b1 s s1 r1 Hb1) as (b2 & E3 & Hb2 & Hm2 & Hv2 & Hc2); [lia|done|].
  cbn [snd fst]. rewrite (M_bind_ret _ _ _ _ _ E3).
  assert (Hl1 : (length (contents b2) <= length (contents b1))%nat) by (rewrite Hc2; done).
  assert (Hcl : length (contents b1) = (length (contents b) + k)%nat) by (rewrite Hc1; len; lia).
  rewrite length_app in Hn.
  assert (Hcc : length (concat chunks1) = (length c - k + length (concat chunks))%nat) by (rewrite Hcat; len; lia).
  apply (IH chunks1 b2 s1 s' rest n); try done.
  - unfold m_size in *. rewrite Hm2. split; [lia|]. rewrite contents_length in Htot by done.
    destruct (Nat.eqb_spec (m_validData b) (length (m_buf b))) as [Hfull|]; lia.
  - unfold chunks1. destruct (Nat.ltb_spec k (length c)); [|done]. constructor; [|done].
    intros Hd. apply (f_equal length) in Hd. rewrite length_drop in Hd. cbn in Hd. lia.
  - lia.
  - rewrite Hcc. unfold chunks1. destruct (Nat.ltb_spec k (length c)); cbn [length]; lia.
  - rewrite length_app. lia.
  - rewrite Hc2. apply (spec_settled n (contents b1) s); [done|lia].
  - by rewrite Hc2.
Qed.
End decoding.

(** * Theorems *)

(** C17: How the pipe's reads cut the stream does not matter.  Whatever pieces a
    guest's bytes arrive in, up to a gigabyte, and whatever the memory holds, the render
    thread does what handling the whole stream at once does: every packet is
    given whole, once and in order to the first decoder that takes it, and what
    is after the first packet that none takes, or that is incomplete or
    ill-formed, stays in the buffer.  (The decoders, which are generated, take
    a packet whole or leave everything alone.) *)
Theorem render_stream {D} (ds : decoders D) gl has_renderer has_composer t a bufsize chunks s s' rest :
  whole_packet (gles1 ds) -> whole_packet (gles2 ds) -> allocates a -> (forall n, grows a n = true) ->
  0 < Z.of_nat bufsize < 2 ^ 31 -> Forall (fun c => c <> []) chunks -> Z.of_nat (length (concat chunks)) < 2 ^ 30 ->
  guest_stream ds gl has_renderer has_composer t (concat chunks) s = (s', Ret rest) ->
  exists b, serve_stream ds gl has_renderer has_composer t a (serve_fuel chunks) chunks (make_buffer a bufsize, s) = ((b, s'), Ret tt) /\
    contents b = rest.
Proof.
  intros Hw1 Hw2 Ha Hg Hb Hne Hlen Hs. unfold guest_stream in Hs.
  apply (serve_spec ds gl has_renderer has_composer t Hw1 Hw2 a (Z.of_nat (length (concat chunks))) (2 ^ 31 - 1) Ha Hg)
    with (n := S (length (concat chunks))); try done; unfold m_size, make_buffer, serve_fuel; cbn [m_buf contents]; try lia.
  - unfold buffer_ok. cbn. lia.
  - rewrite Ha. lia.
  - apply Nat.lt_succ_diag_r.
Qed.

(** * Lemmas: the books *)

Section books.
Context {D : Type} (ds : decoders D) (gl : host_gl) (has_renderer has_composer : bool) (t : nat).
Definition core_booked (s : core D) : Prop := booked (shared s).
Definition thread_booked (s : read_buffer * core D) : Prop := core_booked s.2.
Lemma keeps_shared {A} (c : M control A) : keeps booked c -> keeps core_booked (on_shared c).
Proof. intros H s Hs. unfold on_shared. specialize (H (shared s) Hs). by destruct (c (shared s)). Qed.
Lemma keeps_core {A} (c : M (core D) A) : keeps core_booked c -> keeps thread_booked (on_core c).
Proof. intros H s Hs. unfold on_core. specialize (H s.2 Hs). by destruct (c s.2). Qed.
Lemma keeps_respond m : keeps core_booked (respond m).
Proof. by apply keeps_modify. Qed.
Lemma keeps_word mem n : keeps core_booked (word_at mem n).
Proof. apply keeps_lift. Qed.
Lemma keeps_create w h f : keeps booked (create_color_buffer gl w h f).
Proof.
  unfold create_color_buffer. apply keeps_bind; [apply booked_answer|]. intros ?. apply keeps_bind; [by apply booked_ask|]. intros ?. apply keeps_ret.
Qed.
Lemma keeps_flush w : keeps booked (flushWindowSurfaceColorBuffer w).
Proof. apply (booked_call gl true true 0 (FlushWindowColorBuffer w)) || (unfold flushWindowSurfaceColorBuffer; apply keeps_bind; [apply booked_looked|]; intros [|]; [apply keeps_bind; [apply booked_do_gl|]; intros; apply keeps_ret|apply keeps_ret]). Qed.
Lemma keeps_texture cb : keeps booked (bindColorBufferToTexture gl cb).
Proof.
  unfold bindColorBufferToTexture, has_colorbuffer. apply keeps_bind; [apply booked_looked|]. intros [|]; [|apply keeps_ret].
  apply keeps_bind; [apply booked_do_gl|]. intros. apply booked_answer.
Qed.
#[local] Hint Resolve keeps_respond keeps_word keeps_shared keeps_create keeps_flush keeps_texture : calls.
Ltac keep_all := repeat first [apply keeps_bind; [|intros ?]|apply keeps_if|apply keeps_ret|apply keeps_lift|solve [auto with calls]].

Lemma keeps_modern mem len : keeps core_booked (decodeModernRenderControlCompatibility gl mem len).
Proof.
  unfold decodeModernRenderControlCompatibility, respond_u32. cbv zeta. keep_all; apply keeps_shared; first [by apply booked_modify|apply keeps_get].
Qed.
Lemma keeps_gles f p : keeps core_booked (gles_decode f p).
Proof. intros s Hs. unfold gles_decode. by destruct (f (dec s) p) as [[d ms] n]. Qed.
Lemma keeps_rc p : keeps core_booked (rc_decode ds gl has_renderer has_composer t p).
Proof.
  unfold rc_decode. destruct (rc_parse ds p) as [c|]; [|apply keeps_ret]. apply keeps_bind; [apply keeps_shared, booked_call|].
  intros r. apply keeps_bind; [by apply keeps_modify|]. intros. apply keeps_ret.
Qed.
Lemma keeps_decode mem size : keeps core_booked (decode_packet ds gl has_renderer has_composer t mem size).
Proof.
  unfold decode_packet. apply keeps_bind; [apply keeps_modern|]. intros. apply keeps_if; [apply keeps_ret|].
  apply keeps_bind; [apply keeps_gles|]. intros. apply keeps_if; [apply keeps_ret|].
  apply keeps_bind; [apply keeps_gles|]. intros. apply keeps_if; [apply keeps_ret|]. apply keeps_rc.
Qed.
Lemma keeps_step : keeps thread_booked (packet_step ds gl has_renderer has_composer t).
Proof.
  unfold packet_step. apply keeps_bind; [by intros s|]. intros b. apply keeps_if; [apply keeps_ret|].
  apply keeps_bind; [apply keeps_core, keeps_word|]. intros. apply keeps_bind; [apply keeps_core, keeps_word|]. intros.
  apply keeps_if; [apply keeps_ret|]. apply keeps_bind; [apply keeps_core, keeps_decode|]. intros.
  apply keeps_if; [|apply keeps_ret]. apply keeps_bind; [by apply keeps_modify|]. intros. apply keeps_ret.
Qed.
Lemma keeps_packets fuel : keeps thread_booked (packets ds gl has_renderer has_composer t fuel).
Proof.
  induction fuel as [|fuel IH]; [apply keeps_lift|]. cbn [packets]. apply keeps_bind; [apply keeps_step|]. intros.
  apply keeps_if; [apply IH|apply keeps_ret].
Qed.
Lemma keeps_serve a fuel : forall chunks, keeps thread_booked (serve_stream ds gl has_renderer has_composer t a fuel chunks).
Proof.
  induction fuel as [|fuel IH]; intros chunks; [apply keeps_lift|]. cbn [serve_stream]. apply keeps_bind; [by intros s|]. intros b.
  destruct (getData a b chunks) as [[b1 stat] chunks1]. apply keeps_bind; [by apply keeps_modify|]. intros. apply keeps_if; [apply keeps_ret|].
  apply keeps_bind; [apply keeps_packets|]. intros. apply IH.
Qed.
Lemma keeps_finish : keeps core_booked (finish_thread ds gl t).
Proof.
  unfold finish_thread. apply keeps_bind.
  { apply keeps_shared. unfold bind_context. apply keeps_bind; [apply booked_answer|]. intros. apply keeps_bind; [apply booked_now|]. intros.
    apply keeps_bind; [apply booked_looked|]. intros. apply keeps_bind; [by apply booked_ask|]. intros. apply keeps_ret. }
  intros. apply keeps_bind; [by apply keeps_modify|]. intros. apply keeps_bind; [apply keeps_shared, booked_now|]. intros.
  apply keeps_bind; [apply keeps_shared; by apply booked_ask|]. intros. apply keeps_ret.
Qed.
Lemma keeps_main a bufsize chunks : keeps core_booked (main ds gl has_renderer has_composer t a bufsize chunks).
Proof.
  intros s Hs. unfold main. pose proof (keeps_serve a (serve_fuel chunks) chunks (make_buffer a bufsize, s) Hs) as H.
  destruct (serve_stream _ _ _ _ _ _ _ _ _) as [s1 [u|e| |]]; try exact H. by apply keeps_finish.
Qed.
End books.

(** * Lemmas: the end of a thread *)

(** What of [i] is live has an end. *)
Definition contexts_expire (l : list Z) (r : renderer) : Prop :=
  forall h, h ∈ l -> h ∈ m_contexts r -> is_Some (m_deferredContexts r !! h).
Definition windows_expire (l : list Z) (r : renderer) : Prop :=
  forall h, h ∈ l -> is_Some (m_windows r !! h) -> is_Some (m_deferredWindows r !! h).
Lemma defer_context_keeps e r h l : contexts_expire l r -> contexts_expire (h :: l) (defer_context e r h).
Proof.
  intros H h' Hin. unfold defer_context. case_bool_decide as Hm; [|intros Hc].
  - destruct (_ && _); cbn.
    + intros [Hc Hne]%elem_of_difference. apply elem_of_cons in Hin as [->|Hin]; [set_solver|]. by apply H.
    + intros Hc. destruct (decide (h' = h)) as [->|Hne]; [by rewrite lookup_insert_eq|]. rewrite lookup_insert_ne by done.
      apply elem_of_cons in Hin as [?|Hin]; [done|]. by apply H.
  - apply elem_of_cons in Hin as [->|Hin]; [done|]. by apply H.
Qed.
Lemma defer_contexts e l : forall r l0, contexts_expire l0 r -> contexts_expire (reverse l ++ l0) (fold_left (defer_context e) l r).
Proof.
  induction l as [|h l IH]; intros r l0 H; [done|]. cbn [fold_left]. rewrite reverse_cons, <- app_assoc. cbn [app].
  apply IH. by apply defer_context_keeps.
Qed.
Lemma destroyed_windows r h : m_contexts (destroyDeferredWindow r h) = m_contexts r /\
  m_deferredContexts (destroyDeferredWindow r h) = m_deferredContexts r /\
  m_deferredWindows (destroyDeferredWindow r h) = m_deferredWindows r /\
  m_windows (destroyDeferredWindow r h) = delete h (m_windows r) /\ threads (destroyDeferredWindow r h) = threads r.
Proof.
  unfold destroyDeferredWindow. destruct (m_windows r !! h) as [cb|] eqn:E.
  - unfold releaseWindowSurfaceColorBuffer, drop_reference. destruct (cb =? 0); [done|]. destruct (m_colorbuffers r !! cb) as [c|]; [|done].
    destruct (refcount c =? 0); [done|]. cbn [fst]. by destruct (_ =? 0).
  - by rewrite delete_id.
Qed.
Lemma defer_window_contexts e r h l : contexts_expire l r -> contexts_expire l (defer_window e r h).
Proof.
  intros H. unfold defer_window. case_bool_decide; [|done]. destruct (_ && _); [|done].
  destruct (destroyed_windows r h) as (E1 & E2 & _). intros h' Hin. rewrite E1, E2. by apply H.
Qed.
Lemma defer_window_keeps e r h l : windows_expire l r -> windows_expire (h :: l) (defer_window e r h).
Proof.
  intros H h' Hin. unfold defer_window. case_bool_decide as Hm.
  - destruct (_ && _); cbn.
    + destruct (destroyed_windows r h) as (_ & _ & E3 & E4 & _). rewrite E3, E4. intros Hw.
      destruct (decide (h = h')) as [->|Hne]; [rewrite lookup_delete_eq in Hw; by destruct Hw|]. rewrite lookup_delete_ne in Hw by done.
      apply elem_of_cons in Hin as [->|Hin]; [done|]. by apply H.
    + intros Hc. destruct (decide (h' = h)) as [->|Hne]; [by rewrite lookup_insert_eq|]. rewrite lookup_insert_ne by done.
      apply elem_of_cons in Hin as [?|Hin]; [done|]. by apply H.
  - intros Hc. apply elem_of_cons in Hin as [->|Hin]; [done|]. by apply H.
Qed.
Lemma defer_windows e l l1 : forall r l0, windows_expire l0 r -> contexts_expire l1 r ->
  windows_expire (reverse l ++ l0) (fold_left (defer_window e) l r) /\ contexts_expire l1 (fold_left (defer_window e) l r).
Proof.
  induction l as [|h l IH]; intros r l0 H Hc; [done|]. cbn [fold_left]. rewrite reverse_cons, <- app_assoc. cbn [app].
  apply IH; [by apply defer_window_keeps|by apply defer_window_contexts].
Qed.
Lemma in_ascending h (s : gset Z) : h ∈ ascending s <-> h ∈ s.
Proof. unfold ascending. rewrite merge_sort_Permutation. apply elem_of_elements. Qed.
Lemma threads_destroy t i r h : threads r t = i -> threads (destroyDeferredWindow r h) t = i.
Proof. destruct (destroyed_windows r h) as (_ & _ & _ & _ & E). by rewrite E. Qed.
Lemma threads_reap t i clock_now r : threads r t = i -> threads (reapDeferredResources clock_now r) t = i.
Proof. apply (stable_reap (fun r => threads r t = i)); intros; first [by apply threads_destroy|done]. Qed.
Lemma defer_leaves t clock_now r i : threads r t = i -> let r' := deferCurrentThreadResources t clock_now r in
  threads r' t = ThreadInfo ∅ ∅ /\ (forall h, h ∈ m_contextSet i -> h ∈ m_contexts r' -> is_Some (m_deferredContexts r' !! h)) /\
  (forall h, h ∈ m_windowSet i -> is_Some (m_windows r' !! h) -> is_Some (m_deferredWindows r' !! h)).
Proof.
  intros H. apply (threads_reap t i clock_now) in H. unfold deferCurrentThreadResources. cbv zeta. rewrite H.
  set (r0 := reapDeferredResources clock_now r). set (e := clock_now + kDeferredLifetime).
  pose proof (defer_contexts e (ascending (m_contextSet i)) r0 []) as Hc. rewrite app_nil_r in Hc.
  specialize (Hc ltac:(by intros h Hh%elem_of_nil)). set (r1 := fold_left (defer_context e) _ r0) in *.
  destruct (defer_windows e (ascending (m_windowSet i)) (reverse (ascending (m_contextSet i))) r1 []) as [Hw Hc'];
    [by intros h Hh%elem_of_nil|done|]. rewrite app_nil_r in Hw.
  split; [cbn; by rewrite decide_True|]. split; intros h Hh; cbn.
  - apply Hc'. by rewrite elem_of_reverse, in_ascending.
  - apply Hw. by rewrite elem_of_reverse, in_ascending.
Qed.

(** * Several threads *)

(** Render threads take turns: a turn is a packet, handled under the lock they
    share, or the end of a thread. *)
Inductive turn := Packet (t : nat) (mem : bytes) (size : nat) | Leave (t : nat).
Record machine (D : Type) := Machine { of_thread : nat -> D * list bytes; common : control }.
Arguments Machine {D}.
Arguments of_thread {D}.
Arguments common {D}.

Section machine.
Context {D : Type} (ds : decoders D) (gl : host_gl) (has_renderer has_composer : bool) (d0 : D).
Definition machine_init : machine D := Machine (fun _ => (d0, [])) control_init.
Definition run_on {A} (t : nat) (c : M (core D) A) : M (machine D) A := fun m =>
  let (s, r) := c (Core (of_thread m t).1 (of_thread m t).2 (common m)) in
  (Machine (fun t' => if decide (t = t') then (dec s, sent s) else of_thread m t') (shared s), r).
Definition take_turn (x : turn) : M (machine D) unit :=
  match x with
  | Packet t mem size => run_on t (decode_packet ds gl has_renderer has_composer t mem size);; mret tt
  | Leave t => run_on t (finish_thread ds gl t)
  end.
Definition take_turns (l : list turn) : M (machine D) unit := for_each take_turn l.

Lemma keeps_run_on {A} t (c : M (core D) A) : keeps core_booked c -> keeps (fun m => booked (common m)) (run_on t c).
Proof.
  intros H m Hm. unfold run_on. specialize (H (Core (of_thread m t).1 (of_thread m t).2 (common m)) Hm).
  by destruct (c _).
Qed.
Lemma keeps_turns l : keeps (fun m => booked (common m)) (take_turns l).
Proof.
  apply keeps_for_each. intros [t mem size|t]; cbn [take_turn]; [|by apply keeps_run_on, keeps_finish].
  apply keeps_bind; [by apply keeps_run_on, keeps_decode|]. intros. apply keeps_ret.
Qed.
Lemma booked_init : booked control_init.
Proof. by split; [|constructor]. Qed.
(** What the end of a thread does to the renderer. *)
Lemma finish_leaves t m : exists m', take_turn (Leave t) m = (m', Ret tt) /\
  let i := threads (the_renderer (common m)) t in let r' := the_renderer (common m') in
  threads r' t = ThreadInfo ∅ ∅ /\ (forall h, h ∈ m_contextSet i -> h ∈ m_contexts r' -> is_Some (m_deferredContexts r' !! h)) /\
  (forall h, h ∈ m_windowSet i -> is_Some (m_windows r' !! h) -> is_Some (m_deferredWindows r' !! h)).
Proof.
  eexists. split; [reflexivity|]. cbv zeta. cbn. apply defer_leaves. by apply threads_reap.
Qed.
End machine.

(** C16: The books balance whatever the guests send.  For any bytes as packets of
    any number of render threads, in any order, with any answers of the host,
    also where a turn ends in an exception or in undefined behaviour: as long
    as fewer than 2^32 handles were asked for, the bytes that the renderer has
    recorded are those of the live buffers and within the budget, and at most
    128 buffers live.  From every such state a thread can end: then nothing is
    recorded as its own any more, and every context and window surface of its
    that still lives has an end. *)
Theorem render_books {D} (ds : decoders D) gl has_renderer has_composer d0 turns :
  let m := (take_turns ds gl has_renderer has_composer turns (machine_init d0)).1 in
  let r := the_renderer (common m) in
  handles_needed (reverse (calls_made (common m))) < 2 ^ 32 ->
  m_colorBufferBytes r = total (m_colorbuffers r) /\ m_colorBufferBytes r <= max_color_buffer_bytes /\
  count r <= max_color_buffers /\
  forall t, exists m', take_turn ds gl has_renderer has_composer (Leave t) m = (m', Ret tt) /\
    let r' := the_renderer (common m') in
    threads r' t = ThreadInfo ∅ ∅ /\
    (forall h, h ∈ m_contextSet (threads r t) -> h ∈ m_contexts r' -> is_Some (m_deferredContexts r' !! h)) /\
    (forall h, h ∈ m_windowSet (threads r t) -> is_Some (m_windows r' !! h) -> is_Some (m_deferredWindows r' !! h)).
Proof.
  intros m r Hh. destruct (keeps_turns ds gl has_renderer has_composer turns (machine_init d0) booked_init) as [Hrun _].
  destruct (run_racc (reverse (calls_made (common m))) 0 renderer_init) as (r1 & n & E & [[Hb Hl Hc _ _ _] _]);
    [by split; [apply racc_init|]|lia|lia|].
  fold m in Hrun. rewrite Hrun in E. injection E as <-. split_and!; [done..|]. intros t. apply finish_leaves.
Qed.

(** * The calls of newer guests *)

Inductive modern :=
  | SetPuid (high low : Z)
  | FlushAsync (window_surface : Z)
  | CreateDisplay (display_id : Z)
  | SetDisplay (display_id color_buffer : Z)
  | GetDisplay (display_id checksum : Z)
  | SetPose (display_id x y width height dpi : Z)
  | CreateDma (width height host_format framework_format : Z)
  | BindTextureTo (color_buffer : Z)
  | HostExtensions (output_size guest_buffer_size : Z).
(** Operation code and arguments, as the guest's encoder writes them. *)
Definition wire (c : modern) : Z * list Z :=
  match c with
  | SetPuid h l => (kApi35RcSetPuid, [h; l])
  | FlushAsync w => (kApi35RcFlushWindowColorBufferAsync, [w])
  | CreateDisplay d => (kApi35RcCreateDisplayById, [d])
  | SetDisplay d cb => (kApi35RcSetDisplayColorBuffer, [d; cb])
  | GetDisplay d n => (kApi35RcGetDisplayColorBuffer, [d; n])
  | SetPose d x y w h dpi => (kApi35RcSetDisplayPoseDpi, [d; x; y; w; h; dpi])
  | CreateDma w h f ff => (kApi35RcCreateColorBufferDma, [w; h; f; ff])
  | BindTextureTo cb => (kRcBindTexture, [cb])
  | HostExtensions o g => (kRcGetHostExtensionsString, [o; g])
  end.
Definition wire_words (l : list Z) : bytes := concat (le_bytes 4 <$> l).
Definition packet (c : modern) : bytes :=
  wire_words ((wire c).1 :: 8 + 4 * Z.of_nat (length (wire c).2) :: (wire c).2).
Definition words_ok (c : modern) : Prop := Forall (fun v => 0 <= v < 2 ^ 32) (wire c).2.
(** The bytes that the guest waits for. *)
Definition reply_size (c : modern) : nat :=
  match c with
  | SetPuid _ _ | FlushAsync _ | BindTextureTo _ => 0
  | HostExtensions o _ => Z.to_nat o + 4
  | _ => 4
  end.
(** The color buffers of the displays, and what is sent for a call. *)
Definition displays_after (c : modern) (m : gmap Z Z) : gmap Z Z :=
  match c with SetDisplay d cb => <[d := cb]> m | _ => m end.
Definition answered_by (c : modern) (m : gmap Z Z) (reply : bytes) : Prop :=
  match c with
  | SetPuid _ _ | FlushAsync _ | BindTextureTo _ => reply = []
  | GetDisplay d _ => reply = le_bytes 4 (default 0 (m !! d))
  | CreateDma _ _ _ _ => exists handle, reply = le_bytes 4 handle
  | HostExtensions o g => reply = host_extensions o g
  | _ => reply = le_bytes 4 0
  end.
Fixpoint conversation (cs : list modern) (m : gmap Z Z) (replies : list bytes) : Prop :=
  match cs, replies with
  | [], [] => True
  | c :: cs', r :: replies' => answered_by c m r /\ length r = reply_size c /\ conversation cs' (displays_after c m) replies'
  | _, _ => False
  end.

Lemma length_words l : length (wire_words l) = (4 * length l)%nat.
Proof. induction l as [|v l IH]; [done|]. unfold wire_words in *. cbn [fmap list_fmap concat length]. rewrite length_app, IH, length_le_bytes. lia. Qed.
Lemma word_of_words {D} l n v rest (s : core D) : Forall (fun v => 0 <= v < 2 ^ 32) l -> l !! n = Some v ->
  word_at (wire_words l ++ rest) n s = (s, Ret v).
Proof.
  intros Hall Hl. assert (Hv : 0 <= v < 2 ^ 32) by (by eapply Forall_lookup_1 in Hall). pose proof (lookup_lt_Some _ _ _ Hl) as Hlt. unfold word_at, lift, readProtocolU32.
  rewrite (proj2 (Nat.leb_le _ _)) by (rewrite length_app, length_words; lia). do 2 f_equal.
  rewrite <- (take_drop_middle l n v Hl). unfold wire_words. rewrite fmap_app, concat_app, fmap_cons. cbn [concat]. rewrite <- !app_assoc.
  fold (wire_words (take n l)). rewrite drop_app_length'; [|rewrite length_words, length_take; lia].
  rewrite take_app_length' by (by rewrite length_le_bytes). rewrite le_value_bytes. apply Z.mod_small. done.
Qed.
Lemma packet_length c : length (packet c) = (8 + 4 * length (wire c).2)%nat.
Proof. unfold packet. rewrite length_words. cbn [length]. lia. Qed.
Lemma host_extensions_length o g : 0 <= o -> length (host_extensions o g) = (Z.to_nat o + 4)%nat.
Proof.
  intros Ho. unfold host_extensions. cbv zeta. rewrite !length_app, length_take, length_replicate, length_le_bytes.
  lia.
Qed.

Section modern_calls.
Context {D : Type} (ds : decoders D) (gl : host_gl) (has_renderer has_composer : bool) (t : nat).
Definition handles_at (n : Z) (s : core D) : Prop := at_most n (the_renderer (shared s)).

Lemma create_returns w h f n k : at_most n (the_renderer k) -> 0 <= n < 2 ^ 32 - 1 ->
  exists k' handle n', create_color_buffer gl w h f k = (k', Ret handle) /\ at_most n' (the_renderer k') /\ n <= n' <= n + 1 /\
    display_color_buffers k' = display_color_buffers k.
Proof.
  intros Hk Hn. unfold create_color_buffer. rewrite (M_bind_ret _ _ _ _ _ (eq_refl : gl_answer gl k = (with_asked k, Ret _))).
  destruct (exec_racc (CreateColorBuffer (gl_succeeds gl (asked k)) (i32 w) (i32 h) f) n (the_renderer k) Hk) as (r' & a & n' & E & Hr & Hle);
    [lia|cbn; lia|]. unfold mbind, M_bind, ask_renderer. cbn [the_renderer with_asked]. rewrite E.
  eexists _, _, n'. split; [done|]. split; [done|]. split; [exact Hle|done].
Qed.
Ltac eval_sizes := repeat match goal with
  | |- context [8 + 4 * Z.of_nat ?k] => let v := eval vm_compute in (8 + 4 * Z.of_nat k) in change (8 + 4 * Z.of_nat k) with v in *
  | |- context [Z.of_nat ?k] => let v := eval vm_compute in (Z.of_nat k) in change (Z.of_nat k) with v
  end.
Lemma on_shared_ret {A} (c : M control A) (s : core D) k a : c (shared s) = (k, Ret a) -> on_shared c s = (Core (dec s) (sent s) k, Ret a).
Proof. intros H. unfold on_shared. by rewrite H. Qed.
Lemma modify_ret {St} (f : St -> St) s : modify f s = (f s, Ret tt).
Proof. done. Qed.
Lemma concat_snoc {A} (l : list (list A)) x : concat (l ++ [x]) = concat l ++ x.
Proof. rewrite concat_app. cbn. by rewrite app_nil_r. Qed.
Lemma flush_returns w k : exists k' b, flushWindowSurfaceColorBuffer w k = (k', Ret b) /\ the_renderer k' = the_renderer k /\ display_color_buffers k' = display_color_buffers k.
Proof. unfold flushWindowSurfaceColorBuffer, looked, mbind, M_bind. destruct (bool_decide _); by eexists _, _. Qed.
Lemma texture_returns cb k : exists k' b, bindColorBufferToTexture gl cb k = (k', Ret b) /\ the_renderer k' = the_renderer k /\ display_color_buffers k' = display_color_buffers k.
Proof. unfold bindColorBufferToTexture, has_colorbuffer, looked, mbind, M_bind. destruct (bool_decide _); by eexists _, _. Qed.
Ltac read_word := match goal with
  | Hall : Forall _ ?l |- context [(word_at (wire_words ?l ++ ?rest) ?k ≫= ?f) ?s0] =>
      rewrite (M_bind_ret (word_at (wire_words l ++ rest) k) f s0 _ _ (word_of_words l k _ rest s0 Hall eq_refl))
  end.
(** Nothing is sent; four bytes are. *)
Ltac stays := eexists _, [], _; split; [done|]; split; [|split; [by split; [apply Z.le_refl|lia]|]]; [try done|rewrite app_nil_r; by split_and!].
Ltac answers := eexists _, (le_bytes 4 _), _; split; [done|]; split; [done|]; split; [by split; [apply Z.le_refl|lia]|];
  split; [cbn -[le_bytes]; apply concat_snoc|]; split; [done|]; split; [apply length_le_bytes|done].
(** One call: its packet is taken whole and its reply sent. *)
Lemma modern_call c rest n s : words_ok c -> handles_at n s -> 0 <= n < 2 ^ 32 - 1 ->
  exists s' reply n', decodeModernRenderControlCompatibility gl (packet c ++ rest) (length (packet c)) s =
      (s', Ret (length (packet c))) /\ handles_at n' s' /\ n <= n' <= n + 1 /\
    concat (sent s') = concat (sent s) ++ reply /\
    answered_by c (display_color_buffers (shared s)) reply /\ length reply = reply_size c /\
    display_color_buffers (shared s') = displays_after c (display_color_buffers (shared s)).
Proof.
  intros Hc Hs Hn. unfold packet. rewrite length_words. set (l := (wire c).1 :: _).
  assert (Hall : Forall (fun v => 0 <= v < 2 ^ 32) l).
  { unfold l. repeat (constructor; [destruct c; split; by vm_compute|]). done. }
  unfold decodeModernRenderControlCompatibility.
  assert (Hlen : (4 * length l <? 8)%nat = false) by (by destruct c).
  rewrite Hlen, (M_bind_ret _ _ _ _ _ (word_of_words l 0 _ rest s Hall eq_refl)),
    (M_bind_ret _ _ _ _ _ (word_of_words l 1 _ rest s Hall eq_refl)).
  destruct c; unfold l in *; clear l Hlen; cbn -[wire_words le_bytes host_extensions] in Hall |- *; eval_sizes;
    cbn -[wire_words le_bytes host_extensions];
    repeat read_word; unfold respond_u32.
  - by stays.
  - destruct (flush_returns window_surface (shared s)) as (k' & b & E & E1 & E2). rewrite (M_bind_ret _ _ _ _ _ (on_shared_ret _ _ _ _ E)).
    stays. unfold handles_at. cbn. by rewrite E1.
  - by answers.
  - by answers.
  - by answers.
  - by answers.
  - destruct (create_returns width height host_format n (shared s) Hs Hn) as (k' & h & n' & E & E1 & E2 & E3).
    rewrite (M_bind_ret _ _ _ _ _ (on_shared_ret _ _ _ _ E)). unfold respond. rewrite (M_bind_ret _ _ _ _ _ (modify_ret _ _)). repeat read_word.
    eexists _, (le_bytes 4 h), n'. split; [done|]. split; [done|]. split; [done|]. split; [cbn -[le_bytes]; by rewrite concat_snoc|].
    split; [by exists h|]. split; [apply length_le_bytes|done].
  - destruct (texture_returns color_buffer (shared s)) as (k' & b & E & E1 & E2). rewrite (M_bind_ret _ _ _ _ _ (on_shared_ret _ _ _ _ E)).
    stays. unfold handles_at. cbn. by rewrite E1.
  - eexists _, _, n. split; [done|]. split; [done|]. split; [lia|]. split; [cbn -[host_extensions]; apply concat_snoc|]. split; [done|].
    split; [|done]. apply host_extensions_length. unfold words_ok in Hc. cbn in Hc. by apply Forall_cons in Hc as [[? _] _].
Qed.
End modern_calls.

Section conversation.
Context {D : Type} (ds : decoders D) (gl : host_gl) (has_renderer has_composer : bool) (t : nat).
Lemma packet_size_word c rest : words_ok c -> le_value (take 4 (drop 4 (packet c ++ rest))) = Z.of_nat (length (packet c)).
Proof.
  intros Hc. assert (Hall : Forall (fun v => 0 <= v < 2 ^ 32) ((wire c).1 :: 8 + 4 * Z.of_nat (length (wire c).2) :: (wire c).2)).
  { repeat (constructor; [destruct c; split; by vm_compute|]). done. }
  pose proof (word_of_words _ 1 _ rest (Core tt [] control_init) Hall eq_refl) as H. fold (packet c) in H.
  unfold word_at, lift, readProtocolU32 in H. destruct (_ <=? _)%nat; [|done].
  apply (f_equal (fun x => match x.2 with Ret v => v | _ => 0 end)) in H. cbn beta iota delta [snd] in H. rewrite packet_length.
  change (4 * 1)%nat with 4%nat in H. rewrite H. lia.
Qed.
Lemma spec_modern k c rest n s : words_ok c -> handles_at n s -> 0 <= n < 2 ^ 32 - 1 ->
  exists s' reply n', stream_spec ds gl has_renderer has_composer t (S k) (packet c ++ rest) s =
      stream_spec ds gl has_renderer has_composer t k rest s' /\ handles_at n' s' /\ n <= n' <= n + 1 /\
    concat (sent s') = concat (sent s) ++ reply /\
    answered_by c (display_color_buffers (shared s)) reply /\ length reply = reply_size c /\
    display_color_buffers (shared s') = displays_after c (display_color_buffers (shared s)).
Proof.
  intros Hc Hs Hn. destruct (modern_call gl c [] n s Hc Hs Hn) as (s' & reply & n' & E & Hrest).
  exists s', reply, n'. split; [|exact Hrest]. rewrite app_nil_r in E. cbn [stream_spec].
  pose proof (packet_length c) as Hl. rewrite (proj2 (Nat.ltb_ge _ _)) by (len; lia). cbv zeta.
  rewrite packet_size_word by done. rewrite (proj2 (Z.ltb_ge _ 8)) by lia. rewrite (proj2 (Z.ltb_ge _ _)) by (len; lia). cbn [orb].
  rewrite Nat2Z.id, take_app_length.
  assert (Hd : decode_packet ds gl has_renderer has_composer t (packet c) (length (packet c)) s = (s', Ret (length (packet c)))).
  { unfold decode_packet. rewrite (M_bind_ret _ _ _ _ _ E). by rewrite (proj2 (Nat.ltb_lt 0 _)) by lia. }
  rewrite (M_bind_ret _ _ _ _ _ Hd), (proj2 (Nat.ltb_lt 0 _)) by lia. by rewrite drop_app_length.
Qed.
Lemma spec_conversation cs : forall k n s, Forall words_ok cs -> handles_at n s -> 0 <= n -> n + Z.of_nat (length cs) < 2 ^ 32 ->
  (length cs < k)%nat ->
  exists s' replies, stream_spec ds gl has_renderer has_composer t k (concat (packet <$> cs)) s = (s', Ret []) /\
    concat (sent s') = concat (sent s) ++ concat replies /\ conversation cs (display_color_buffers (shared s)) replies /\
    display_color_buffers (shared s') = fold_left (fun m c => displays_after c m) cs (display_color_buffers (shared s)).
Proof.
  induction cs as [|c cs IH]; intros k n s Hcs Hs Hn Hlen Hk; (destruct k as [|k]; [cbn in Hk; lia|]).
  { exists s, []. by rewrite app_nil_r. }
  apply Forall_cons in Hcs as [Hc Hcs]. cbn [length] in *. rewrite fmap_cons. cbn [concat].
  destruct (spec_modern k c (concat (packet <$> cs)) n s Hc Hs) as (s1 & reply & n1 & -> & Hs1 & Hn1 & Es & Ha & Hr & Ed); [lia|].
  destruct (IH k n1 s1 Hcs Hs1) as (s' & replies & -> & Es' & Hconv & Ed'); [lia..|].
  exists s', (reply :: replies). rewrite Es', Es, Ed', Ed, <- Ed. cbn [conversation concat fold_left]. rewrite <- app_assoc, <- Ed.
  by split_and!.
Qed.
End conversation.

(** C19: The calls of newer guests.  However many of them a guest sends, every
    packet is taken, and it is sent, in their order, exactly the bytes it waits
    for: none for the asynchronous calls, the requested size and a length for
    the extensions of the host, four bytes for the others.  So the next reply
    on the pipe is never misread.  A display's color buffer is the one that was
    set last. *)
Theorem modern_protocol {D} (ds : decoders D) gl has_renderer has_composer t cs n s :
  Forall words_ok cs -> racc (the_renderer (shared s)) -> s_nextHandle (the_renderer (shared s)) = n -> 0 <= n ->
  n + Z.of_nat (length cs) < 2 ^ 32 ->
  exists s' replies, guest_stream ds gl has_renderer has_composer t (concat (packet <$> cs)) s = (s', Ret []) /\
    concat (sent s') = concat (sent s) ++ concat replies /\ conversation cs (display_color_buffers (shared s)) replies /\
    display_color_buffers (shared s') = fold_left (fun m c => displays_after c m) cs (display_color_buffers (shared s)).
Proof.
  intros Hcs Hr Hn H0 Hlen. apply (spec_conversation ds gl has_renderer has_composer t cs _ n); try done.
  assert (Hl : (length cs <= length (concat (packet <$> cs)))%nat).
  { clear. induction cs as [|c cs IH]; [done|]. rewrite fmap_cons. cbn [concat length]. rewrite length_app, packet_length. lia. }
  lia.
Qed.

(** * Witnesses *)

(** Decoders of which the first takes the packets of one operation. *)
Definition some_decoders : decoders nat := {|
  gles1 d p := if bool_decide (le_value (take 4 p) = 1024) then (S d, [str "drawn"], length p) else (d, [], 0%nat);
  gles2 d p := (d, [], 0%nat);
  rc_parse p := if bool_decide (le_value (take 4 p) = 10012) then Some (RcCreateColorBuffer 8 8 GL_RGBA) else None;
  rc_encode _ r := [le_bytes 4 (r_value r)];
  free_programs _ := 0%nat
|}.
Lemma some_decoders_whole : whole_packet (gles1 some_decoders) /\ whole_packet (gles2 some_decoders).
Proof.
  split; intros d p _; cbn; [|by right]. case_bool_decide; [by left|by right].
Qed.
Definition plain_memory : allocator := Allocator (fun n => replicate n x00) (fun _ => true).
Definition a_stream : bytes := wire_words [1024; 12; 7] ++ wire_words [10012; 8] ++ wire_words [10040; 16; 3; 5] ++ wire_words [10041; 16; 3; 0] ++ wire_words [77; 8].
Definition some_core : core nat := Core 0%nat [] control_init.
(** The stream in pieces that end in the middle of packets, into a buffer of
    sixteen bytes. *)
Definition pieces : list bytes := [take 5 a_stream; take 30 (drop 5 a_stream); drop 35 a_stream].
Definition streamed : core nat := (guest_stream some_decoders the_gl true true 0 a_stream some_core).1.
Lemma render_stream_witness :
  (exists b, serve_stream some_decoders the_gl true true 0 plain_memory (serve_fuel pieces) pieces
    (make_buffer plain_memory 16, some_core) = ((b, streamed), Ret tt) /\ contents b = wire_words [77; 8]) /\
  sent streamed = [str "drawn"; le_bytes 4 1; le_bytes 4 0; le_bytes 4 5].
Proof.
  split; [|vm_compute; reflexivity]. destruct some_decoders_whole as [H1 H2].
  apply (render_stream some_decoders the_gl true true 0 plain_memory 16 pieces some_core streamed (wire_words [77; 8]) H1 H2).
  - intros n. apply length_replicate.
  - reflexivity.
  - lia.
  - repeat constructor; discriminate.
  - vm_compute. reflexivity.
  - vm_compute. reflexivity.
Defined.
Definition some_turns : list turn :=
  [Packet 0 (wire_words [10012; 8]) 8; Packet 1 (wire_words [10035; 24; 16; 16; 6408; 0]) 24; Leave 0].
Lemma render_books_witness :
  handles_needed (reverse (calls_made (common (take_turns some_decoders the_gl true true some_turns (machine_init 0%nat)).1))) < 2 ^ 32 /\
  m_colorBufferBytes (the_renderer (common (take_turns some_decoders the_gl true true some_turns (machine_init 0%nat)).1)) <= max_color_buffer_bytes.
Proof.
  assert (H : handles_needed (reverse (calls_made (common
    (take_turns some_decoders the_gl true true some_turns (machine_init 0%nat)).1))) < 2 ^ 32) by (vm_compute; reflexivity).
  split; [exact H|]. destruct (render_books some_decoders the_gl true true 0%nat some_turns H) as (_ & Hb & _). exact Hb.
Defined.
Definition some_calls : list modern := [SetPuid 0 7; SetDisplay 1 9; CreateDma 8 8 GL_RGBA 1; FlushAsync 4; HostExtensions 2 64; GetDisplay 1 0].
Lemma modern_protocol_witness : Forall words_ok some_calls /\
  exists s', guest_stream some_decoders the_gl true true 0 (concat (packet <$> some_calls)) some_core = (s', Ret []) /\
    display_color_buffers (shared s') = {[1 := 9]}.
Proof.
  assert (H : Forall words_ok some_calls) by (repeat constructor; vm_compute; congruence).
  split; [exact H|].
  destruct (modern_protocol some_decoders the_gl true true 0 some_calls 0 some_core H racc_init eq_refl (Z.le_refl 0) eq_refl)
    as (s' & replies & E & _ & _ & Ed).
  exists s'. split; [exact E|]. rewrite Ed. vm_compute. reflexivity.
Defined.

(** * What the code does besides *)

(** The words of a request for the extensions are read behind a packet that is
    too short for them: past the allocation, or as what lies behind it. *)
Lemma extensions_overread {D} (gl : host_gl) (s : core D) :
  decodeModernRenderControlCompatibility gl (wire_words [kRcGetHostExtensionsString; 8]) 8 s = (s, Undef).
Proof. by vm_compute. Qed.
Lemma extensions_of_the_next_packet (gl : host_gl) :
  (decodeModernRenderControlCompatibility gl (wire_words [kRcGetHostExtensionsString; 8] ++ wire_words [kRcBindTexture; 12; 6]) 8 some_core).2 = Ret 8%nat /\
  length <$> sent (decodeModernRenderControlCompatibility gl (wire_words [kRcGetHostExtensionsString; 8] ++ wire_words [kRcBindTexture; 12; 6]) 8 some_core).1 =
    [Z.to_nat kRcBindTexture + 4]%nat.
Proof. by vm_compute. Qed.
(** A packet that no decoder takes is never given up: all that follows stays in
    the buffer, which grows. *)
Lemma unknown_packet_stalls {D} (ds : decoders D) gl r c t p rest s : length p = 8%nat ->
  le_value (take 4 (drop 4 p)) = 8 -> decode_packet ds gl r c t p 8 s = (s, Ret 0%nat) ->
  guest_stream ds gl r c t (p ++ rest) s = (s, Ret (p ++ rest)).
Proof.
  intros Hp Hw Hd. unfold guest_stream. cbn [stream_spec]. rewrite (proj2 (Nat.ltb_ge _ _)) by (len; lia). cbv zeta.
  rewrite drop_app_le, take_app_le by (len; lia). rewrite Hw. change (8 <? 8) with false. cbn [orb]. rewrite (proj2 (Z.ltb_ge _ 8)) by (len; lia).
  change (Z.to_nat 8) with 8%nat. rewrite take_app_length' by done. by rewrite (M_bind_ret _ _ _ _ _ Hd).
Qed.
