(* ===== verification/Service.v ===== *)
(** The container service and its client: what a session asks of the container
    manager (container/client.cpp, container/management_api_stub.cpp), the
    connection of the manager that answers it (container/service.cpp,
    container/management_api_message_processor.cpp), and the two together with
    the messages between them. The messages themselves, their framing and the
    cache of pending calls are those of [Rpc], the waits those of [Bridge], the
    table of connections that of [Network], the container that of [Lxc]. *)

From S2P Require Import Prelude Rpc Bridge Network Lxc Container.

Local Open Scope Z_scope.

(** * The session's side (ManagementApiStub, Client) *)

(** A request of the session: what it asks, and the handle its caller waits
    on. The response object and the closure of a request have its number. *)
Record pending_request := Request { asks_for : Lxc.request; wh : Bridge.wait_handle }.
(** [returned] is what the callers got, the newest first. *)
Record client := Client {
  rpc_channel : Rpc.state;
  live_requests : gmap nat pending_request;
  allocated : nat;
  returned : list (nat * outcome bytes);
  receiving : bool;
  terminated : bool
}.
Definition client_init : client := Client Rpc.init ∅ 0 [] true false.
Definition with_rpc (s : Rpc.state) (c : client) : client :=
  Client s (live_requests c) (allocated c) (returned c) (receiving c) (terminated c).
Definition with_requests (m : gmap nat pending_request) (c : client) : client :=
  Client (rpc_channel c) m (allocated c) (returned c) (receiving c) (terminated c).
Definition with_receiving (b : bool) (c : client) : client :=
  Client (rpc_channel c) (live_requests c) (allocated c) (returned c) b (terminated c).
Definition terminate (c : client) : client :=
  Client (rpc_channel c) (live_requests c) (allocated c) (returned c) (receiving c) true.

(** [container_started], [container_stopped]: the closure has the address of its
    request. *)
Definition container_answered (o : nat) : M client unit :=
  c ← get;
  match live_requests c !! o with
  | Some q => modify (with_requests (<[o := Request (asks_for q) (Bridge.result_received (wh q))]> (live_requests c)))
  | None => lift Undef
  end.
(** A call of the channel or the message processor, with the closures it runs. *)
Definition on_rpc {A} (x : M Rpc.state A) : M client A := fun c =>
  let (s, r) := x (rpc_channel c) in
  match for_each container_answered (drop (length (Rpc.runs (rpc_channel c))) (Rpc.runs s)) (with_rpc s c) with
  | (c', Ret _) => (c', r)
  | (c', _) => (c', Undef)
  end.
Definition new_request (r : Lxc.request) : M client nat := fun c =>
  (Client (rpc_channel c) (<[allocated c := Request r (Bridge.expect_result Bridge.wait_handle_init)]> (live_requests c))
     (S (allocated c)) (returned c) (receiving c) (terminated c), Ret (allocated c)).
(** The caller returns: its request goes, and [Client::start] catches. *)
Definition leave (o : nat) (result : outcome bytes) : M client unit := fun c =>
  let c' := Client (rpc_channel c) (delete o (live_requests c)) (allocated c) ((o, result) :: returned c)
              (receiving c) (terminated c) in
  (match live_requests c !! o, result with
   | Some (Request (Start _) _), Throw _ => terminate c'
   | _, _ => c'
   end, Ret tt).

Definition method (r : Lxc.request) : bytes :=
  match r with Start _ => str "start_container" | Stop => str "stop_container" end.

Section service.
Context `{Protobuf}.
(** The messages of anbox_container.proto and the response, and whether it has
    an error; an object that nothing was parsed into is empty. *)
Context (to_message : Lxc.request -> bytes) (from_message : bytes -> bytes -> option Lxc.request).
Context (to_response : Lxc.response -> bytes) (has_error : bytes -> bool).

(** The first half of [start_container] and [stop_container], until the wait;
    [sent]: whether the socket takes messages.
    The answer is whether the message was sent. *)
Definition ask_container (r : Lxc.request) (sent : bool) : M client bool := fun c =>
  let (c1, o) := new_request r c in
  match o with
  | Ret o =>
      match on_rpc (Rpc.call_method sent (method r) (Some (to_message r)) o (Some o)) c1 with
      | (c2, Ret _) => (c2, Ret true)
      | (c2, Throw e) => (leave o (Throw e);; mret false) c2
      | (c2, _) => (c2, Undef)
      end
  | _ => (c1, Undef)
  end.
(** The second half: what the response object says. *)
Definition read_response (o : nat) : M client unit :=
  c ← get;
  let raw := default [] (Rpc.objects (rpc_channel c) !! o) in
  leave o (if has_error raw then Throw RuntimeError else Ret raw).
(** The wait of a request that is over: for [start_container] all expected
    results are there, for [stop_container] also. *)
Definition return_from (o : nat) : M client unit :=
  c ← get;
  match live_requests c !! o with
  | Some q => if Bridge.received (wh q) =? Bridge.expecting (wh q) then read_response o else mret tt
  | None => mret tt
  end.
(** [wait_for_pending] at its limit. *)
Definition time_out (o : nat) : M client unit :=
  c ← get;
  match live_requests c !! o with
  | Some (Request Stop _) => read_response o
  | _ => mret tt
  end.
(** [Client::on_read_size] with one message; writing to the response object of
    a request that is gone is undefined. *)
Definition receive_result (r : Rpc.result) : M client unit :=
  c ← get;
  let writes := match Rpc.result_id r with Some rid => Rpc.pending_calls_ (rpc_channel c) !! i32 rid | None => None end in
  match writes with
  | Some p =>
      if bool_decide (is_Some (live_requests c !! Rpc.resp p)) then
        go_on ← on_rpc (Rpc.handle_response r);
        if (go_on : bool) then mret tt else modify (with_receiving false)
      else lift Undef
  | None =>
      go_on ← on_rpc (Rpc.handle_response r);
      if (go_on : bool) then mret tt else modify (with_receiving false)
  end.
(** [Client::on_read_size] with an error. *)
Definition read_error : M client unit := modify (fun c => terminate (with_receiving false c)).

(** * The manager's side *)

Context {C : Type} (perform : Lxc.request -> M C Lxc.response) (close_container : C -> C).

(** [invoke] with the method of the skeleton; an exception of it becomes an
    error of the response. *)
Definition invoke (r : option Lxc.request) (i : Rpc.invocation) : M C (list Rpc.result) :=
  match r with
  | None => throw RuntimeError
  | Some r => fun c =>
      let respond a := [Rpc.Result (Some (Rpc.id i)) (Some (to_response a)) []] in
      match perform r c with
      | (c', Ret a) => (c', Ret (respond a))
      | (c', Throw _) => (c', Ret (respond Error))
      | (c', Aborted) => (c', Aborted)
      | (c', Undef) => (c', Undef)
      end
  end.
(** [ManagementApiMessageProcessor::dispatch]; the answer is what is sent. *)
Definition dispatch_management (i : Rpc.invocation) : M C (list Rpc.result) :=
  if bytes_eqb (Rpc.method_name i) (str "start_container") ||
     bytes_eqb (Rpc.method_name i) (str "stop_container")
  then invoke (from_message (Rpc.method_name i) (Rpc.parameters i)) i
  else mret [].

(** * Both sides *)

(** [gone] are the containers of connections that are closed. *)
Record both := Both {
  session_client : client;
  up : list Rpc.invocation;
  down : list Rpc.result;
  connected : bool;
  served_by : option C;
  gone : list C
}.
Definition both_init (c : C) : both := Both client_init [] [] true (Some c) [].
Definition on_client {A} (x : M client A) : M both A := fun s =>
  let (c, r) := x (session_client s) in (Both c (up s) (down s) (connected s) (served_by s) (gone s), r).

Inductive step_of :=
  | Ask (r : Lxc.request)     (* a thread of the session calls *)
  | Handle                    (* the manager reads the next message *)
  | Deliver                   (* the session reads the next message *)
  | Return (o : nat)          (* a caller wakes up *)
  | TimeOut (o : nat)
  | Lose                      (* the manager's end of the connection goes *)
  | ReadEnd.                  (* the session reads the end of the stream *)
Definition take_step (e : step_of) : M both unit := fun s =>
  match e with
  | Ask r =>
      let n := Rpc.next_message_id (rpc_channel (session_client s)) in
      match on_client (ask_container r (connected s)) s with
      | (s', Ret true) =>
          (Both (session_client s') (up s' ++ [Rpc.Invocation n (method r) (to_message r) 1]) (down s') (connected s')
             (served_by s') (gone s'), Ret tt)
      | (s', Ret false) => (s', Ret tt)
      | (s', _) => (s', Undef)
      end
  | Handle =>
      match up s, served_by s with
      | i :: up', Some c =>
          match dispatch_management i c with
          | (c', Ret rs) => (Both (session_client s) up' (down s ++ rs) (connected s) (Some c') (gone s), Ret tt)
          | (c', Throw x) => (Both (session_client s) up' (down s) (connected s) (Some c') (gone s), Throw x)
          | (c', Aborted) => (Both (session_client s) up' (down s) (connected s) (Some c') (gone s), Aborted)
          | (c', Undef) => (Both (session_client s) up' (down s) (connected s) (Some c') (gone s), Undef)
          end
      | _, _ => (s, Ret tt)
      end
  | Deliver =>
      match down s with
      | r :: down' =>
          if receiving (session_client s) then
            on_client (receive_result r) (Both (session_client s) (up s) down' (connected s) (served_by s) (gone s))
          else (s, Ret tt)
      | [] => (s, Ret tt)
      end
  | Return o => on_client (return_from o) s
  | TimeOut o => on_client (time_out o) s
  | Lose =>
      (Both (session_client s) [] (down s) false None (option_list (close_container <$> served_by s) ++ gone s), Ret tt)
  | ReadEnd =>
      match down s with
      | [] => if connected s then (s, Ret tt) else on_client read_error s
      | _ => (s, Ret tt)
      end
  end.
Definition take_steps (es : list step_of) : M both unit := for_each take_step es.

(** * Specification *)

(** The calls of a session, and the container asked directly, one call after
    the other. *)
Definition asked_by (es : list step_of) : list Lxc.request :=
  omap (fun e => match e with Ask r => Some r | _ => None end) es.
Fixpoint directly (l : list Lxc.request) : M C (list Lxc.response) :=
  match l with
  | [] => mret []
  | r :: l' => a ← perform r; rest ← directly l'; mret (a :: rest)
  end.
Definition answer_reported (raw : bytes) : outcome bytes := if has_error raw then Throw RuntimeError else Ret raw.
End service.
Arguments both : clear implicits.
Arguments both_init {C}.

(** * The connections of the service (Service::new_client) *)

Section connections.
Context {P E : Type} `{!MessageProcessor P E}.
(** [socket->close()] leaves the table alone. *)
Definition new_client (p : P) : M (net P E) unit :=
  s ← get;
  if (1 <=? net_size s)%nat then mret tt else establish (str "container-service") p.
End connections.

(** * Lemmas: closures *)

Definition answer_one (q : pending_request) : pending_request := Request (asks_for q) (Bridge.result_received (wh q)).
Definition answer_all (fs : list nat) (m : gmap nat pending_request) : gmap nat pending_request :=
  fold_left (fun m f => alter answer_one f m) fs m.
Lemma answer_all_lookup fs : NoDup fs -> forall m o,
  answer_all fs m !! o = if bool_decide (o ∈ fs) then answer_one <$> m !! o else m !! o.
Proof.
  induction 1 as [|f fs Hf _ IH]; intros m o; cbn [answer_all fold_left]; [done|].
  fold (answer_all fs (alter answer_one f m)). rewrite IH. destruct (decide (o = f)) as [->|Hne].
  - rewrite (bool_decide_eq_false_2 (f ∈ fs)) by done. rewrite bool_decide_eq_true_2 by left. apply lookup_alter_eq.
  - rewrite lookup_alter_ne by done. by rewrite (bool_decide_ext (o ∈ f :: fs) (o ∈ fs)) by set_solver.
Qed.
Lemma with_requests_twice m m' c : with_requests m (with_requests m' c) = with_requests m c.
Proof. done. Qed.
(** Either every closure finds its request, or one does not. *)
Lemma answered_all fs : forall c,
  (for_each container_answered fs c = (with_requests (answer_all fs (live_requests c)) c, Ret tt)) \/
  ((for_each container_answered fs c).2 = Undef /\ exists f, f ∈ fs /\ live_requests c !! f = None).
Proof.
  induction fs as [|f fs IH]; intros c; [left; destruct c; reflexivity|]. cbn [for_each].
  assert (Hc : container_answered f c = match live_requests c !! f with
      Some q => (with_requests (<[f := answer_one q]> (live_requests c)) c, Ret tt) | None => (c, Undef) end).
  { unfold container_answered, get, modify, mbind, M_bind. cbn. by destruct (live_requests c !! f). }
  destruct (live_requests c !! f) as [q|] eqn:Eq.
  2: { right. unfold mbind, M_bind. rewrite Hc. split; [done|]. exists f. split; [by left|done]. }
  rewrite (M_bind_ret _ _ _ _ _ Hc).
  set (c1 := with_requests _ c). destruct (IH c1) as [E|[E (g & Hg & Hn)]].
  - left. rewrite E. unfold c1. rewrite with_requests_twice. unfold answer_all at 2. cbn [fold_left]. do 3 f_equal.
    unfold answer_all. f_equal. cbn. apply map_eq. intros o. destruct (decide (o = f)) as [->|Hne].
    + by rewrite lookup_insert_eq, lookup_alter_eq, Eq.
    + by rewrite lookup_insert_ne, lookup_alter_ne by done.
  - right. split; [exact E|]. exists g. split; [by right|]. cbn in Hn. destruct (decide (g = f)) as [->|Hne].
    + by rewrite lookup_insert_eq in Hn.
    + by rewrite lookup_insert_ne in Hn by done.
Qed.
Lemma on_rpc_spec {A} (x : M Rpc.state A) c s r fs : x (rpc_channel c) = (s, r) -> Rpc.runs s = Rpc.runs (rpc_channel c) ++ fs ->
  on_rpc x c = (with_requests (answer_all fs (live_requests c)) (with_rpc s c), r) \/
  ((on_rpc x c).2 = Undef /\ exists f, f ∈ fs /\ live_requests c !! f = None).
Proof.
  intros Hx Hr. unfold on_rpc. rewrite Hx, Hr, drop_app_length. destruct (answered_all fs (with_rpc s c)) as [E|[E Hf]].
  - left. by rewrite E.
  - right. destruct (for_each _ _ _) as [c' o]. cbn in E. subst o. by split.
Qed.

(** * Lemmas: the channel *)

Section rpc_calls.
Context `{Protobuf}.
Lemma fits_call (s : Rpc.state) m b o n : Rpc.next_message_id s = n ->
  Rpc.size_fits_protobuf_int (length b) = true ->
  Rpc.size_fits_protobuf_int (length (Rpc.ser_invocation (Rpc.Invocation n m b 1))) = true ->
  exists log, Rpc.call_method true m (Some b) o (Some o) s =
    (Rpc.State (Rpc.buffer_ s) (<[i32 n := Rpc.PendingCall o (Some o)]> (Rpc.pending_calls_ s)) (Rpc.objects s) (u32 (n + 1)) log, Ret tt) /\
    log ≫= Rpc.run_of = Rpc.runs s.
Proof.
  intros <- H1 H2. unfold Rpc.call_method, Rpc.invocation_for, Rpc.serialize_to_array_or_throw. rewrite H1.
  unfold Rpc.next_id, get, modify, mbind, M_bind, mret, M_ret, Rpc.save_completion_details, Rpc.send_message, Rpc.serialize_to_array_or_throw. cbn.
  rewrite H2. eexists. split; [reflexivity|]. cbn. rewrite bind_app. cbn. by rewrite app_nil_r.
Qed.
Definition all_closed (p : gmap Z Rpc.pending_call) : Prop := forall k c, p !! k = Some c -> is_Some (Rpc.complete c).
Lemma force_run l : forall s : Rpc.state, Forall (fun kc : Z * Rpc.pending_call => is_Some (Rpc.complete kc.2)) l ->
  exists log, for_each (fun kc : Z * Rpc.pending_call =>
      match Rpc.complete kc.2 with Some f => Rpc.emit (Rpc.Run f) | None => lift Undef end) l s =
    (Rpc.State (Rpc.buffer_ s) (Rpc.pending_calls_ s) (Rpc.objects s) (Rpc.next_message_id s) log, Ret tt) /\
    log ≫= Rpc.run_of = Rpc.runs s ++ omap (fun kc : Z * Rpc.pending_call => Rpc.complete kc.2) l.
Proof.
  induction l as [|[k c] l IH]; intros s Hl.
  { exists (Rpc.log s). split; [by destruct s|]. by rewrite app_nil_r. }
  apply Forall_cons in Hl as [[f Hf] Hl]. cbn [snd] in Hf. set (s1 := (Rpc.emit (Rpc.Run f) s).1).
  destruct (IH s1 Hl) as (lg & E & Elog). exists lg. cbn [for_each snd]. rewrite Hf, (M_bind_ret (Rpc.emit (Rpc.Run f)) _ s s1 tt eq_refl), E. split; [done|].
  rewrite Elog. unfold s1. rewrite Rpc.runs_emit. cbn [Rpc.run_of omap list_omap snd]. rewrite Hf, <- app_assoc. done.
Qed.
Lemma lost_call (s : Rpc.state) m b o n : Rpc.next_message_id s = n ->
  Rpc.size_fits_protobuf_int (length b) = true ->
  Rpc.size_fits_protobuf_int (length (Rpc.ser_invocation (Rpc.Invocation n m b 1))) = true ->
  all_closed (Rpc.pending_calls_ s) ->
  exists log, Rpc.call_method false m (Some b) o (Some o) s =
    (Rpc.State (Rpc.buffer_ s) ∅ (Rpc.objects s) (u32 (n + 1)) log, Throw SystemError) /\
    log ≫= Rpc.run_of = Rpc.runs s ++ omap (fun kc : Z * Rpc.pending_call => Rpc.complete kc.2)
      (by_key (<[i32 n := Rpc.PendingCall o (Some o)]> (Rpc.pending_calls_ s))).
Proof.
  intros <- H1 H2 Hall. unfold Rpc.call_method, Rpc.invocation_for, Rpc.serialize_to_array_or_throw. rewrite H1.
  unfold Rpc.next_id, Rpc.save_completion_details, Rpc.send_message, Rpc.serialize_to_array_or_throw, Rpc.notify_disconnected, Rpc.force_completion.
  unfold get, modify, mbind, M_bind, mret, M_ret. cbn. rewrite H2. cbn. set (p := <[_ := _]> _).
  match goal with |- context [for_each _ (by_key p) ?x] => set (s1 := x) end. destruct (force_run (by_key p) s1) as (log & E & Elog).
  { apply Forall_forall. intros [k c] Hin. unfold by_key in Hin. rewrite merge_sort_Permutation, elem_of_map_to_list in Hin. cbn.
    unfold p in Hin. apply lookup_insert_Some in Hin as [[_ <-]|[_ Hin]]; [by eexists|by apply (Hall k)]. }
  rewrite E. exists log. split; [done|]. exact Elog.
Qed.
Lemma response_known (s : Rpc.state) rid raw o f : Rpc.pending_calls_ s !! i32 rid = Some (Rpc.PendingCall o (Some f)) ->
  Rpc.parse_into o raw = true ->
  exists log, Rpc.handle_response (Rpc.Result (Some rid) (Some raw) []) s =
    (Rpc.State (Rpc.buffer_ s) (delete (i32 rid) (Rpc.pending_calls_ s)) (<[o := raw]> (Rpc.objects s)) (Rpc.next_message_id s) log, Ret true) /\
    log ≫= Rpc.run_of = Rpc.runs s ++ [f].
Proof.
  intros Hp Hparse. unfold Rpc.handle_response, Rpc.populate_message_for_result, Rpc.complete_response, get, modify, mbind, M_bind, mret, M_ret.
  cbn -[lookup delete insert i32]. rewrite Hp. cbn -[lookup delete insert i32]. rewrite Hparse. cbn -[lookup delete insert i32]. rewrite Hp. cbn -[lookup delete insert i32]. eexists. split; [reflexivity|]. rewrite bind_app. cbn. done.
Qed.
Lemma response_unknown (s : Rpc.state) rid raw : Rpc.pending_calls_ s !! i32 rid = None ->
  Rpc.handle_response (Rpc.Result (Some rid) (Some raw) []) s = (s, Throw OutOfRange).
Proof.
  intros Hp. unfold Rpc.handle_response, Rpc.populate_message_for_result, get, mbind, M_bind. cbn -[lookup i32]. by rewrite Hp.
Qed.
End rpc_calls.

(** * Lemmas: the two sides *)

Section both_sides.
Context `{Protobuf}.
Context (to_message : Lxc.request -> bytes) (from_message : bytes -> bytes -> option Lxc.request).
Context (to_response : Lxc.response -> bytes) (has_error : bytes -> bool).
Context {C : Type} (perform : Lxc.request -> M C Lxc.response) (close_container : C -> C) (c0 : C).
Context (Hparse : forall o a, Rpc.parse_into o (to_response a) = true).
Context (Hempty : has_error [] = false).
Context (I : C -> Prop) (Hperform : forall r c, I c -> exists c' a, perform r c = (c', Ret a) /\ I c').

Fixpoint wire_from (k : nat) (l : list Lxc.request) : list Rpc.invocation :=
  match l with [] => [] | r :: l' => Rpc.Invocation (Z.of_nat k) (method r) (to_message r) 1 :: wire_from (S k) l' end.
Fixpoint replies_from (k : nat) (l : list Lxc.response) : list Rpc.result :=
  match l with [] => [] | a :: l' => Rpc.Result (Some (Z.of_nat k)) (Some (to_response a)) [] :: replies_from (S k) l' end.
Lemma wire_snoc l r : forall k, wire_from k (l ++ [r]) = wire_from k l ++ [Rpc.Invocation (Z.of_nat (k + length l)) (method r) (to_message r) 1].
Proof. induction l as [|x l IH]; intros k; cbn; [by rewrite Nat.add_0_r|]. rewrite IH. by rewrite <- plus_n_Sm. Qed.
Lemma replies_snoc l x : forall k, replies_from k (l ++ [x]) = replies_from k l ++ [Rpc.Result (Some (Z.of_nat (k + length l))) (Some (to_response x)) []].
Proof. induction l as [|y l IH]; intros k; cbn; [by rewrite Nat.add_0_r|]. rewrite IH. by rewrite <- plus_n_Sm. Qed.
Lemma directly_app l1 l2 c c1 rs1 : directly perform l1 c = (c1, Ret rs1) ->
  directly perform (l1 ++ l2) c = match directly perform l2 c1 with
    | (c2, Ret rs2) => (c2, Ret (rs1 ++ rs2)) | (c2, Throw e) => (c2, Throw e) | (c2, Aborted) => (c2, Aborted) | (c2, Undef) => (c2, Undef) end.
Proof.
  revert c rs1. induction l1 as [|r l1 IH]; intros c rs1.
  { intros [= <- <-]. cbn [app]. by destruct (directly perform l2 c) as [? []]. }
  cbn [app directly]. intros (c2 & a & E1 & E2)%M_bind_ret_inv. apply M_bind_ret_inv in E2 as (c3 & rs & E2 & E3). injection E3 as -> <-.
  rewrite (M_bind_ret _ _ _ _ _ E1). unfold mbind, M_bind. rewrite (IH _ _ E2). by destruct (directly perform l2 c1) as [? []].
Qed.
Lemma directly_length l : forall c c' rs, directly perform l c = (c', Ret rs) -> length rs = length l.
Proof.
  induction l as [|r l IH]; intros c c' rs; [by intros [= _ <-]|]. cbn [directly].
  intros (c2 & a & E1 & E2)%M_bind_ret_inv. apply M_bind_ret_inv in E2 as (c3 & rs' & E2 & E3). injection E3 as _ <-.
  cbn. f_equal. by eapply IH.
Qed.
Lemma asked_snoc es e : asked_by (es ++ [e]) = asked_by es ++ match e with Ask r => [r] | _ => [] end.
Proof. unfold asked_by. rewrite omap_app. by destruct e. Qed.

Abbreviation cl s := (session_client s).
(** The message of a request is parsed to it, and is not too large. *)
Definition sendable (r : Lxc.request) : Prop :=
  from_message (method r) (to_message r) = Some r /\
  Rpc.size_fits_protobuf_int (length (to_message r)) = true /\
  forall n, 0 <= n < 2 ^ 32 ->
    Rpc.size_fits_protobuf_int (length (Rpc.ser_invocation (Rpc.Invocation n (method r) (to_message r) 1))) = true.
Definition waiting_for (q : pending_request) : Prop := wh q = Bridge.WaitHandle 1 0.
Definition completed (q : pending_request) : Prop := wh q = Bridge.WaitHandle 1 1.
(** Whether a wait was given up for its time. *)
Definition timed (es : list step_of) : bool := existsb (fun e => match e with TimeOut _ => true | _ => false end) es.
(** What may have been returned for the call [o], a call of [r]. *)
Definition rightly (es : list step_of) (rs : list Lxc.response) (o : nat) (r : Lxc.request) (out : outcome bytes) : Prop :=
  (exists a, rs !! o = Some a /\ out = answer_reported has_error (to_response a)) \/
  (out = Ret [] /\ r = Stop /\ TimeOut o ∈ es) \/
  ((out = Ret [] \/ out = Throw SystemError) /\ Lose ∈ es).
(** [a] calls were handled, [b] answers were delivered; [forced]: a send failed,
    and all pending calls were completed. *)
Record session_inv (es : list step_of) (a b : nat) (rs : list Lxc.response) (forced : bool) (s : both C) : Prop := {
  i_allocated : allocated (cl s) = length (asked_by es);
  i_next : Rpc.next_message_id (rpc_channel (cl s)) = Z.of_nat (length (asked_by es));
  i_order : (b <= a <= length (asked_by es))%nat;
  i_direct : exists c, directly perform (take a (asked_by es)) c0 = (c, Ret rs) /\ I c /\
    if connected s then served_by s = Some c /\ gone s = [] else served_by s = None /\ gone s = [close_container c];
  i_up : up s = if connected s then wire_from a (drop a (asked_by es)) else [];
  i_down : down s = replies_from b (drop b rs);
  i_pending k p : Rpc.pending_calls_ (rpc_channel (cl s)) !! k = Some p <->
    forced = false /\ exists o, (b <= o < length (asked_by es))%nat /\ k = Z.of_nat o /\ p = Rpc.PendingCall o (Some o);
  i_forced : forced = true -> connected s = false;
  i_lost : connected s = false -> Lose ∈ es;
  i_objects o raw : Rpc.objects (rpc_channel (cl s)) !! o = Some raw -> (o < b)%nat /\ exists x, rs !! o = Some x /\ raw = to_response x;
  i_written o : (o < b)%nat -> is_Some (Rpc.objects (rpc_channel (cl s)) !! o);
  i_live o q : live_requests (cl s) !! o = Some q -> asked_by es !! o = Some (asks_for q) /\
    if bool_decide (o < b)%nat || forced then completed q else waiting_for q;
  i_alive o : timed es = false -> forced = false -> (b <= o < length (asked_by es))%nat -> is_Some (live_requests (cl s) !! o);
  i_returned o out : (o, out) ∈ returned (cl s) -> live_requests (cl s) !! o = None /\
    exists r, asked_by es !! o = Some r /\ rightly es rs o r out;
  i_once : NoDup (returned (cl s)).*1;
  i_all o : (o < length (asked_by es))%nat -> is_Some (live_requests (cl s) !! o) \/ o ∈ (returned (cl s)).*1;
  i_reading : connected s = true -> receiving (cl s) = true;
  i_sendable : Forall sendable (asked_by es)
}.
Lemma inv_init : I c0 -> session_inv [] 0 0 [] false (both_init c0).
Proof.
  intros Hc. split; cbn; try done; try lia.
  - by exists c0.
  - intros k p. rewrite lookup_empty. split; [done|]. intros (_ & o & ? & _). lia.
  - intros o out Ho. by apply elem_of_nil in Ho.
  - constructor.
Qed.
Lemma rightly_more es e rs x o r out : rightly es rs o r out -> rightly (es ++ [e]) (rs ++ x) o r out.
Proof.
  intros [(a & Ha & ->)|[(-> & -> & Ht)|(Hout & Hl)]].
  - left. exists a. split; [by apply lookup_app_l_Some|done].
  - right. left. split_and!; [done..|]. apply elem_of_app. by left.
  - right. right. split; [done|]. apply elem_of_app. by left.
Qed.

Abbreviation service_step := (take_step to_message from_message to_response has_error perform close_container).
(** What a step may lead to. *)
Definition stepped (es : list step_of) (e : step_of) (r : both C * outcome unit) : Prop :=
  match r.2 with
  | Ret _ => exists a b rs f, session_inv (es ++ [e]) a b rs f r.1
  | Throw x => x = OutOfRange /\ Lose ∈ es
  | Undef => timed es = true
  | Aborted => False
  end.
Definition quiet_step (e : step_of) : Prop := match e with Ask _ => False | _ => True end.
Lemma asked_quiet es e : quiet_step e -> asked_by (es ++ [e]) = asked_by es.
Proof. intros He. rewrite asked_snoc. destruct e; by rewrite ?app_nil_r. Qed.
Lemma timed_snoc es e : timed (es ++ [e]) = false -> timed es = false.
Proof. unfold timed. rewrite existsb_app. by intros [? _]%orb_false_iff. Qed.
Lemma elem_of_more (e x : step_of) es : x ∈ es -> x ∈ es ++ [e].
Proof. intros Hx. apply elem_of_app. by left. Qed.
(** A step that changes nothing. *)
Lemma inv_more es e a b rs f s : quiet_step e -> session_inv es a b rs f s -> session_inv (es ++ [e]) a b rs f s.
Proof.
  intros He Hs. pose proof (asked_quiet es e He) as Ha. destruct Hs. split; rewrite ?Ha; auto using elem_of_more.
  - intros o Ht. apply i_alive0. by eapply timed_snoc.
  - intros o out Ho. destruct (i_returned0 o out Ho) as (H1 & r & H2 & H3). split; [done|]. exists r. split; [done|].
    rewrite <- (app_nil_r rs). by apply rightly_more.
Qed.
Lemma leave_fields o out c : (leave o out c).2 = Ret tt /\ rpc_channel (leave o out c).1 = rpc_channel c /\
  live_requests (leave o out c).1 = delete o (live_requests c) /\ allocated (leave o out c).1 = allocated c /\
  returned (leave o out c).1 = (o, out) :: returned c /\ receiving (leave o out c).1 = receiving c.
Proof. unfold leave. cbn. destruct (live_requests c !! o) as [[[] ?]|]; destruct out; done. Qed.
(** A caller returns. *)
Lemma inv_leave es e a b rs f s o q r out : quiet_step e -> session_inv es a b rs f s ->
  live_requests (cl s) !! o = Some q -> asked_by es !! o = Some r -> rightly (es ++ [e]) rs o r out ->
  timed (es ++ [e]) = true \/ (o < b)%nat \/ f = true ->
  session_inv (es ++ [e]) a b rs f (on_client (leave o out) s).1.
Proof.
  intros He Hs Hq Hr Hout Hgone. apply (inv_more es e) in Hs; [|done]. pose proof (asked_quiet es e He) as Ha.
  destruct (leave_fields o out (cl s)) as (F0 & F1 & F2 & F3 & F4 & F5). unfold on_client.
  destruct (leave o out (cl s)) as [c' x]. cbn [fst snd] in *. subst x.
  assert (Hnew : o ∉ (returned (cl s)).*1).
  { intros Hin. apply list_elem_of_fmap in Hin as ([o' out'] & Heq & Hin). cbn in Heq. subst o'. apply (i_returned _ _ _ _ _ _ Hs) in Hin as [Hn _]. congruence. }
  destruct Hs. split; cbn [session_client up down connected served_by gone fst]; rewrite ?F1, ?F2, ?F3, ?F4, ?F5; try done.
  - intros o' q'. intros [_ Hl]%lookup_delete_Some. by apply i_live0.
  - intros o' Ht Hf Hlt. destruct (decide (o' = o)) as [->|Hne]; [|rewrite lookup_delete_ne by done; by apply i_alive0].
    destruct Hgone as [?|[?|?]]; [congruence|lia|congruence].
  - intros o' out' [[= -> ->]|Hin]%elem_of_cons.
    + split; [apply lookup_delete_eq|]. exists r. by rewrite Ha.
    + destruct (i_returned0 o' out' Hin) as [Hn Hx]. split; [|done]. destruct (decide (o' = o)) as [->|]; [apply lookup_delete_eq|by rewrite lookup_delete_ne].
  - rewrite fmap_cons. by constructor.
  - intros o' Hlt. rewrite fmap_cons. destruct (decide (o' = o)) as [->|Hne]; [right; by left|].
    rewrite lookup_delete_ne by done. destruct (i_all0 o' Hlt); [by left|right; by right].
Qed.
(** The response object of a request that is over. *)
Lemma object_cases es a b rs f s o : session_inv es a b rs f s ->
  (exists x, rs !! o = Some x /\ (o < b)%nat /\ Rpc.objects (rpc_channel (cl s)) !! o = Some (to_response x)) \/
  ((b <= o)%nat /\ Rpc.objects (rpc_channel (cl s)) !! o = None).
Proof.
  intros Hs. destruct (Rpc.objects (rpc_channel (cl s)) !! o) as [raw|] eqn:E.
  - left. destruct (i_objects _ _ _ _ _ _ Hs o raw E) as (Hlt & x & Hx & ->). by exists x.
  - right. split; [|done]. destruct (decide (b <= o)%nat); [done|]. destruct (i_written _ _ _ _ _ _ Hs o); [lia|congruence].
Qed.
Lemma read_response_run o (s : both C) : on_client (read_response has_error o) s =
  on_client (leave o (answer_reported has_error (default [] (Rpc.objects (rpc_channel (cl s)) !! o)))) s.
Proof. done. Qed.
Lemma on_client_leave o out (s : both C) : (on_client (leave o out) s).2 = Ret tt.
Proof. unfold on_client. destruct (leave_fields o out (cl s)) as [E _]. by destruct (leave o out (cl s)). Qed.
Lemma stepped_leave es e a b rs f s o q r out : quiet_step e -> session_inv es a b rs f s ->
  live_requests (cl s) !! o = Some q -> asked_by es !! o = Some r -> rightly (es ++ [e]) rs o r out ->
  timed (es ++ [e]) = true \/ (o < b)%nat \/ f = true -> stepped es e (on_client (leave o out) s).
Proof. intros. unfold stepped. rewrite on_client_leave. exists a, b, rs, f. by eapply inv_leave. Qed.
Lemma step_same es e a b rs f s : quiet_step e -> session_inv es a b rs f s -> stepped es e (s, Ret tt).
Proof. intros He Hs. exists a, b, rs, f. by apply inv_more. Qed.

Lemma return_run o (s : both C) : on_client (return_from has_error o) s = match live_requests (cl s) !! o with
  | Some q => if Bridge.received (wh q) =? Bridge.expecting (wh q)
      then on_client (leave o (answer_reported has_error (default [] (Rpc.objects (rpc_channel (cl s)) !! o)))) s else (s, Ret tt)
  | None => (s, Ret tt) end.
Proof.
  unfold on_client, return_from, read_response, get, mbind, M_bind. cbn -[Z.eqb leave]. destruct (live_requests (cl s) !! o) as [q|]; [|by destruct s].
  destruct (_ =? _); [done|by destruct s].
Qed.
Lemma step_return es a b rs f s o : session_inv es a b rs f s -> stepped es (Return o) (service_step (Return o) s).
Proof.
  intros Hs. cbn [take_step]. rewrite return_run.
  destruct (live_requests (cl s) !! o) as [q|] eqn:Eq; [|by eapply step_same].
  destruct (i_live _ _ _ _ _ _ Hs o q Eq) as [Hr Hq]. destruct (_ =? _) eqn:Ew; [|by eapply step_same].
  apply Z.eqb_eq in Ew. assert (Hover : (o < b)%nat \/ f = true).
  { case_bool_decide; [by left|]. destruct f; [by right|]. cbn in Hq. rewrite Hq in Ew. discriminate. }
  eapply stepped_leave; [done|exact Hs|exact Eq|exact Hr| |by right].
  destruct (object_cases _ _ _ _ _ _ o Hs) as [(x & Hx & _ & ->)|[Hge ->]].
  - left. exists x. by split.
  - right. right. cbn. unfold answer_reported. rewrite Hempty. split; [by left|]. apply elem_of_more.
    destruct Hover as [?|Hf]; [lia|]. by apply (i_lost _ _ _ _ _ _ Hs), (i_forced _ _ _ _ _ _ Hs).
Qed.
Lemma step_timeout es a b rs f s o : session_inv es a b rs f s -> stepped es (TimeOut o) (service_step (TimeOut o) s).
Proof.
  intros Hs. cbn [take_step].
  assert (E : on_client (time_out has_error o) s = match live_requests (cl s) !! o with
      | Some (Request Stop _) => on_client (leave o (answer_reported has_error (default [] (Rpc.objects (rpc_channel (cl s)) !! o)))) s
      | _ => (s, Ret tt) end).
  { unfold on_client, time_out, read_response, get, mbind, M_bind. cbn -[leave]. destruct (live_requests (cl s) !! o) as [[[] w]|]; done || by destruct s. }
  rewrite E. destruct (live_requests (cl s) !! o) as [[[cfg|] w]|] eqn:Eq; [by eapply step_same| |by eapply step_same].
  destruct (i_live _ _ _ _ _ _ Hs o _ Eq) as [Hr _].
  eapply stepped_leave; [done|exact Hs|exact Eq|exact Hr| |left; unfold timed; rewrite existsb_app; apply orb_true_r].
  destruct (object_cases _ _ _ _ _ _ o Hs) as [(x & Hx & _ & ->)|[Hge ->]].
  - left. exists x. by split.
  - right. left. cbn. unfold answer_reported. rewrite Hempty. split_and!; [done..|]. apply elem_of_app. right. by left.
Qed.

Lemma step_handle es a b rs f s : session_inv es a b rs f s -> stepped es Handle (service_step Handle s).
Proof.
  intros Hs. cbn [take_step]. destruct (up s) as [|i up'] eqn:Eu; [by eapply step_same|].
  pose proof (i_up _ _ _ _ _ _ Hs) as Hup. rewrite Eu in Hup. destruct (connected s) eqn:Ec; [|done].
  destruct (i_direct _ _ _ _ _ _ Hs) as (c & Hd & Hc & Hserved). rewrite Ec in Hserved. destruct Hserved as [Hv Hg]. rewrite Hv.
  destruct (drop a (asked_by es)) as [|r l] eqn:Edrop; [done|]. cbn [wire_from] in Hup. injection Hup as -> ->.
  assert (Hr : asked_by es !! a = Some r) by (rewrite <- (Nat.add_0_r a), <- lookup_drop, Edrop; done).
  destruct (Hperform r c Hc) as (c' & x & Ep & Hc').
  assert (Ed : dispatch_management from_message to_response perform (Rpc.Invocation (Z.of_nat a) (method r) (to_message r) 1) c =
    (c', Ret [Rpc.Result (Some (Z.of_nat a)) (Some (to_response x)) []])).
  { unfold dispatch_management. cbn [Rpc.method_name Rpc.parameters].
    pose proof (i_sendable _ _ _ _ _ _ Hs) as Hok. rewrite Forall_lookup in Hok. destruct (Hok a r Hr) as [-> _].
    assert (Hm : bytes_eqb (method r) (str "start_container") || bytes_eqb (method r) (str "stop_container") = true) by (by destruct r).
    rewrite Hm. unfold invoke. by rewrite Ep. }
  rewrite Ed. pose proof (asked_quiet es Handle Logic.I) as Ha. apply (inv_more es Handle) in Hs; [|done].
  assert (Hlen : length rs = a).
  { rewrite (directly_length _ _ _ _ Hd). destruct Hs. rewrite Ha in i_order0. len. lia. }
  exists (S a), b, (rs ++ [x]), f. cbn [fst]. destruct Hs. rewrite Ha in *.
  assert (Hlt : (a < length (asked_by es))%nat) by by eapply lookup_lt_Some.
  split; rewrite ?Ha; cbn [session_client up down connected served_by gone]; try done.
  - lia.
  - exists c'. split; [|by split]. rewrite (take_S_r _ _ _ Hr), (directly_app _ _ _ _ _ Hd). cbn [directly]. unfold mbind, M_bind. rewrite Ep. done.
  - assert (E : drop (S a) (asked_by es) = l) by (rewrite <- Nat.add_1_r, <- drop_drop, Edrop; done). by rewrite E.
  - rewrite i_down0, drop_app_le by lia. rewrite replies_snoc, length_drop. do 4 f_equal. lia.
  - intros Hf. by rewrite (i_forced0 Hf) in Ec.
  - intros o raw Ho. destruct (i_objects0 o raw Ho) as (? & y & Hy & ?). split; [done|]. exists y. split; [by apply lookup_app_l_Some|done].
  - intros o out Ho. destruct (i_returned0 o out Ho) as (H1 & r' & H2 & H3). split; [done|]. exists r'. split; [done|].
    destruct H3 as [(y & Hy & ->)|H3]; [left|by right]. exists y. split; [by apply lookup_app_l_Some|done].
  - intros _. by apply i_reading0.
Qed.
Lemma step_lose es a b rs f s : session_inv es a b rs f s -> stepped es Lose (service_step Lose s).
Proof.
  intros Hs. exists a, b, rs, f. cbn [take_step fst]. pose proof (asked_quiet es Lose Logic.I) as Ha. apply (inv_more es Lose) in Hs; [|done].
  destruct Hs. rewrite Ha in *. split; rewrite ?Ha; cbn [session_client up down connected served_by gone]; try done.
  - destruct i_direct0 as (c & H1 & H2 & H3). exists c. split; [done|]. split; [done|]. destruct (connected s), H3 as [-> ->]; done.
  - intros _. apply elem_of_app. right. by left.
Qed.
Lemma step_read_end es a b rs f s : session_inv es a b rs f s -> stepped es ReadEnd (service_step ReadEnd s).
Proof.
  intros Hs. cbn [take_step]. destruct (down s) eqn:Ed; [|by eapply step_same]. destruct (connected s) eqn:Ec; [by eapply step_same|].
  exists a, b, rs, f. cbn. pose proof (asked_quiet es ReadEnd Logic.I) as Ha. apply (inv_more es ReadEnd) in Hs; [|done].
  destruct Hs. rewrite Ha in *. split; rewrite ?Ha; cbn; try done; rewrite ?Ec in *; try done.
Qed.
Lemma i32_of_nat n : Z.of_nat n < 2 ^ 31 -> i32 (Z.of_nat n) = Z.of_nat n.
Proof. intros Hn. unfold i32. rewrite Z.mod_small; lia. Qed.

Lemma step_deliver es a b rs f s : Z.of_nat (length (asked_by es)) < 2 ^ 31 -> session_inv es a b rs f s ->
  stepped es Deliver (service_step Deliver s).
Proof.
  intros Hmax Hs. cbn [take_step]. destruct (down s) as [|r down'] eqn:Ed; [by eapply step_same|].
  destruct (receiving (cl s)) eqn:Erec; [|by eapply step_same].
  pose proof (i_down _ _ _ _ _ _ Hs) as Hdown. rewrite Ed in Hdown. destruct (drop b rs) as [|x l] eqn:Edrop; [done|].
  cbn [replies_from] in Hdown. injection Hdown as -> ->.
  assert (Hx : rs !! b = Some x) by (rewrite <- (Nat.add_0_r b), <- lookup_drop, Edrop; done).
  pose proof (lookup_lt_Some _ _ _ Hx) as Hlt.
  assert (Hlen : length rs = a).
  { destruct (i_direct _ _ _ _ _ _ Hs) as (c & Hd & _). rewrite (directly_length _ _ _ _ Hd). destruct Hs. len. lia. }
  pose proof (i_order _ _ _ _ _ _ Hs) as Hord. assert (Hb : i32 (Z.of_nat b) = Z.of_nat b) by (apply i32_of_nat; lia).
  unfold on_client, receive_result, get. unfold mbind at 1, M_bind at 1. cbn [session_client Rpc.result_id].
  rewrite Hb. destruct f.
  - assert (Hnone : Rpc.pending_calls_ (rpc_channel (cl s)) !! Z.of_nat b = None).
    { apply eq_None_not_Some. intros [p [? _]%(i_pending _ _ _ _ _ _ Hs)]. done. }
    rewrite Hnone. rewrite <- Hb in Hnone. pose proof (response_unknown _ _ (to_response x) Hnone) as Er. unfold mbind, M_bind.
    destruct (on_rpc_spec _ (cl s) _ _ [] Er) as [->|[_ (g & Hg & _)]]; [by rewrite app_nil_r| |by apply elem_of_nil in Hg].
    split; [done|]. by apply (i_lost _ _ _ _ _ _ Hs), (i_forced _ _ _ _ _ _ Hs).
  - assert (Hsome : Rpc.pending_calls_ (rpc_channel (cl s)) !! Z.of_nat b = Some (Rpc.PendingCall b (Some b))).
    { apply (i_pending _ _ _ _ _ _ Hs). split; [done|]. exists b. split; [lia|done]. }
    rewrite Hsome. cbn [Rpc.resp]. case_bool_decide as Hl.
    2: { cbn. destruct (timed es) eqn:Et; [done|]. exfalso. apply Hl. by apply (i_alive _ _ _ _ _ _ Hs b); [..|lia]. }
    destruct (response_known (rpc_channel (cl s)) (Z.of_nat b) (to_response x) b b) as (lg & Er & Elg); [by rewrite Hb|apply Hparse|].
    rewrite Hb in Er. unfold mbind, M_bind.
    destruct (on_rpc_spec _ (cl s) _ _ [b] Er Elg) as [->|[_ (g & Hg & Hn)]].
    2: { apply list_elem_of_singleton in Hg as ->. rewrite Hn in Hl. by destruct Hl. }
    exists a, (S b), rs, false. unfold mret, M_ret. cbn [fst snd]. pose proof (asked_quiet es Deliver Logic.I) as Ha. apply (inv_more es Deliver) in Hs; [|done].
    destruct Hs. rewrite Ha in *.
    split; rewrite ?Ha; cbn [session_client up down connected served_by gone with_requests with_rpc allocated rpc_channel Rpc.next_message_id
      Rpc.pending_calls_ Rpc.objects live_requests returned receiving]; try done.
    + lia.
    + assert (E : drop (S b) rs = l) by (rewrite <- Nat.add_1_r, <- drop_drop, Edrop; done). by rewrite E.
    + intros k p. rewrite lookup_delete_Some, i_pending0. split.
      * intros (Hne & _ & o & Ho & -> & ->). split; [done|]. exists o. split_and!; [|lia|done..]. assert (o <> b) by congruence. lia.
      * intros (_ & o & Ho & -> & ->). split; [lia|]. split; [done|]. exists o. split; [lia|done].
    + intros o raw [[<- <-]|[Hne Ho]]%lookup_insert_Some; [split; [lia|by exists x]|].
      destruct (i_objects0 o raw Ho) as (? & Hy). split; [lia|done].
    + intros o Ho. destruct (decide (o = b)) as [->|Hne]; [by rewrite lookup_insert_eq|]. rewrite lookup_insert_ne by done. apply i_written0. lia.
    + intros o q. rewrite answer_all_lookup by apply NoDup_singleton. intros Hq. destruct (decide (o = b)) as [->|Hne].
      * rewrite bool_decide_eq_true_2 in Hq by by apply list_elem_of_singleton. apply fmap_Some in Hq as (q' & Hq' & ->).
        destruct (i_live0 b q' Hq') as [H1 H2]. split; [done|]. rewrite bool_decide_eq_false_2 in H2 by lia. rewrite bool_decide_eq_true_2 by lia.
        unfold completed, answer_one. cbn. by rewrite H2.
      * rewrite bool_decide_eq_false_2 in Hq by by rewrite list_elem_of_singleton. destruct (i_live0 o q Hq) as [H1 H2]. split; [done|].
        by rewrite (bool_decide_ext (o < S b)%nat (o < b)%nat) by lia.
    + intros o Ht _ Ho. rewrite answer_all_lookup, bool_decide_eq_false_2 by first [apply NoDup_singleton|rewrite list_elem_of_singleton; lia].
      apply i_alive0; [done..|lia].
    + intros o out Ho. destruct (i_returned0 o out Ho) as [Hn Hr]. split; [|done]. rewrite answer_all_lookup, Hn by apply NoDup_singleton. by case_bool_decide.
    + intros o Ho. rewrite answer_all_lookup by apply NoDup_singleton. destruct (i_all0 o Ho) as [Hs|?]; [left|by right].
      case_bool_decide; [by apply fmap_is_Some|done].
Qed.

(** The closures of the calls that are pending when a send fails. *)
Definition forced_ids (p : gmap Z Rpc.pending_call) : list nat := omap (fun kc : Z * Rpc.pending_call => Rpc.complete kc.2) (by_key p).
Lemma forced_ids_spec p : (forall k c, p !! k = Some c -> exists o, k = Z.of_nat o /\ c = Rpc.PendingCall o (Some o)) ->
  NoDup (forced_ids p) /\ forall o, o ∈ forced_ids p <-> p !! Z.of_nat o = Some (Rpc.PendingCall o (Some o)).
Proof.
  intros Hp.
  assert (E : forced_ids p ≡ₚ (Z.to_nat ∘ fst) <$> map_to_list p).
  { unfold forced_ids. rewrite by_key_perm. 
    assert (Hl : forall l : list (Z * Rpc.pending_call), l ⊆ map_to_list p ->
      omap (fun kc : Z * Rpc.pending_call => Rpc.complete kc.2) l = (Z.to_nat ∘ fst) <$> l).
    { induction l as [|[k c] l IH]; intros Hsub; [done|]. cbn [omap list_omap fmap list_fmap snd].
      destruct (Hp k c) as (o & -> & ->); [apply elem_of_map_to_list, Hsub; by left|]. cbn [Rpc.complete].
      f_equal; [cbn; by rewrite Nat2Z.id|]. apply IH. intros y Hy. apply Hsub. by right. }
    by rewrite Hl. }
  split.
  - rewrite E. apply NoDup_fmap_2_strong; [|apply NoDup_map_to_list].
    intros [k1 v1] [k2 v2] H1%elem_of_map_to_list H2%elem_of_map_to_list. cbn. intros Heq.
    destruct (Hp _ _ H1) as (o1 & -> & ->), (Hp _ _ H2) as (o2 & -> & ->). rewrite !Nat2Z.id in Heq. by subst.
  - intros o. rewrite E, list_elem_of_fmap. split.
    + intros ([k c] & -> & Hin%elem_of_map_to_list). cbn. destruct (Hp _ _ Hin) as (o & -> & ->). by rewrite Nat2Z.id.
    + intros Hin. exists (Z.of_nat o, Rpc.PendingCall o (Some o)). split; [cbn; by rewrite Nat2Z.id|]. by apply elem_of_map_to_list.
Qed.
Lemma closed_pending es a b rs f s : session_inv es a b rs f s -> forall k c, Rpc.pending_calls_ (rpc_channel (cl s)) !! k = Some c ->
  exists o, k = Z.of_nat o /\ c = Rpc.PendingCall o (Some o) /\ f = false /\ (b <= o < length (asked_by es))%nat.
Proof. intros Hs k c [-> (o & Ho & -> & ->)]%(i_pending _ _ _ _ _ _ Hs). by exists o. Qed.

Definition after_new (r : Lxc.request) (c : client) : client := (new_request r c).1.
Lemma step_ask_sent es a b rs f s r : sendable r -> Z.of_nat (length (asked_by es)) + 1 < 2 ^ 31 -> session_inv es a b rs f s -> connected s = true ->
  stepped es (Ask r) (service_step (Ask r) s).
Proof.
  intros Hok Hmax Hs Ec. pose proof (i_allocated _ _ _ _ _ _ Hs) as Hn. pose proof (i_next _ _ _ _ _ _ Hs) as Hnext.
  remember (length (asked_by es)) as n eqn:Hlen. set (s1 := rpc_channel (cl s)) in *. destruct Hok as (Hok1 & F1 & F2'). pose proof (F2' (Z.of_nat n) ltac:(lia)) as F2.
  destruct (fits_call s1 (method r) (to_message r) n _ Hnext F1 F2) as (lg & E & Elg).
  assert (Ei : i32 (Z.of_nat n) = Z.of_nat n) by (apply i32_of_nat; lia).
  assert (Eu : u32 (Z.of_nat n + 1) = Z.of_nat (S n)) by (unfold u32; rewrite Z.mod_small; lia).
  rewrite Ei, Eu in E. set (c1 := after_new r (cl s)).
  assert (Hstep : ask_container to_message r true (cl s) =
    match on_rpc (Rpc.call_method true (method r) (Some (to_message r)) n (Some n)) c1 with
    | (c2, Ret _) => (c2, Ret true) | (c2, Throw e) => (leave n (Throw e);; mret false) c2 | (c2, _) => (c2, Undef) end).
  { unfold ask_container, c1, after_new, new_request. cbn. by rewrite Hn. }
  destruct (on_rpc_spec _ c1 _ _ [] E) as [E1|[_ (g & Hg & _)]]; [by rewrite app_nil_r| |by apply elem_of_nil in Hg].
  rewrite E1 in Hstep. assert (Hf : f = false) by (destruct f; [by rewrite (i_forced _ _ _ _ _ _ Hs eq_refl) in Ec|done]). subst f.
  assert (Hasked : asked_by (es ++ [Ask r]) = asked_by es ++ [r]) by apply asked_snoc.
  assert (Hlast : (asked_by es ++ [r]) !! n = Some r) by (apply list_lookup_middle; done).
  unfold stepped. cbn [take_step]. fold s1. rewrite Hnext. rewrite Ec. unfold on_client. rewrite Hstep. cbn [snd fst].
  exists a, b, rs, false. destruct Hs. rewrite <- ?Hlen in *. rewrite Ec in *. unfold s1 in *.
  split; rewrite ?Hasked, ?length_app, <- ?Hlen; cbn [length session_client up down connected served_by gone with_requests with_rpc allocated rpc_channel
    Rpc.next_message_id Rpc.pending_calls_ Rpc.objects live_requests returned receiving after_new c1 new_request fst answer_all fold_left]; try done.
  - lia.
  - lia.
  - lia.
  - destruct i_direct0 as (c & Hd & Hrest). exists c. split; [|done]. by rewrite take_app_le by lia.
  - rewrite i_up0, drop_app_le by lia. rewrite wire_snoc, length_drop, <- Hlen. do 4 f_equal. lia.
  - intros k p. rewrite lookup_insert_Some, i_pending0. split.
    + intros [[<- <-]|[Hne (_ & o & Ho & -> & ->)]]; (split; [done|]); [exists n; split; [lia|done]|exists o; split; [lia|done]].
    + intros (_ & o & Ho & -> & ->). destruct (decide (o = n)) as [->|Hne]; [by left|]. right. split; [lia|]. split; [done|]. exists o. split; [lia|done].
  - intros o q [[<- <-]|[Hne Hq]]%lookup_insert_Some; cbn.
    + rewrite Hn. split; [done|]. by rewrite bool_decide_eq_false_2 by lia.
    + destruct (i_live0 o q Hq) as [Hl Hw]. split; [by apply lookup_app_l_Some|done].
  - intros o Ht%timed_snoc _ Ho. rewrite Hn. destruct (decide (o = n)) as [->|Hne]; [by rewrite lookup_insert_eq|].
    rewrite lookup_insert_ne by done. apply i_alive0; [done..|lia].
  - intros o out Ho. destruct (i_returned0 o out Ho) as (H1 & r' & H2 & H3). pose proof (lookup_lt_Some _ _ _ H2) as Hlt. split.
    + rewrite Hn, lookup_insert_ne by lia. done.
    + exists r'. split; [by apply lookup_app_l_Some|]. rewrite <- (app_nil_r rs). by apply rightly_more.
  - intros o Ho. rewrite Hn. destruct (decide (o = n)) as [->|Hne]; [left; by rewrite lookup_insert_eq|].
    rewrite lookup_insert_ne by done. apply i_all0. lia.
  - apply Forall_app. split; [done|]. constructor; [by split_and!|constructor].
Qed.
Lemma step_ask_lost es a b rs f s r : sendable r -> Z.of_nat (length (asked_by es)) + 1 < 2 ^ 31 -> session_inv es a b rs f s -> connected s = false ->
  stepped es (Ask r) (service_step (Ask r) s).
Proof.
  intros Hok Hmax Hs Ec. pose proof (i_allocated _ _ _ _ _ _ Hs) as Hn. pose proof (i_next _ _ _ _ _ _ Hs) as Hnext.
  pose proof (closed_pending _ _ _ _ _ _ Hs) as Hclosed.
  remember (length (asked_by es)) as n eqn:Hlen. set (s1 := rpc_channel (cl s)) in *. destruct Hok as (Hok1 & F1 & F2'). pose proof (F2' (Z.of_nat n) ltac:(lia)) as F2.
  destruct (lost_call s1 (method r) (to_message r) n _ Hnext F1 F2) as (lg & E & Elg).
  { intros k c Hk. destruct (Hclosed k c Hk) as (o & _ & -> & _). by eexists. }
  assert (Ei : i32 (Z.of_nat n) = Z.of_nat n) by (apply i32_of_nat; lia).
  assert (Eu : u32 (Z.of_nat n + 1) = Z.of_nat (S n)) by (unfold u32; rewrite Z.mod_small; lia).
  rewrite Eu in E. rewrite Ei in Elg. set (p1 := <[_ := _]> _) in Elg. fold (forced_ids p1) in Elg.
  destruct (forced_ids_spec p1) as [Hnd Hids].
  { intros k c [[<- <-]|[_ Hk]]%lookup_insert_Some; [by exists n|]. destruct (Hclosed k c Hk) as (o & -> & -> & _). by exists o. }
  assert (Hin : forall o, o ∈ forced_ids p1 <-> o = n \/ ((b <= o < n)%nat /\ f = false)).
  { intros o. rewrite Hids. unfold p1. rewrite lookup_insert_Some. split.
    - intros [[Heq _]|[_ Hk]]; [left; lia|right]. apply (i_pending _ _ _ _ _ _ Hs) in Hk as [-> (o' & Ho & Heq & _)].
      rewrite <- Hlen in Ho. split; [lia|done].
    - intros [->|[Ho ->]]; [by left|right]. split; [lia|]. apply (i_pending _ _ _ _ _ _ Hs). split; [done|]. exists o. rewrite <- Hlen. by split. }
  set (c1 := after_new r (cl s)).
  assert (Hlive1 : live_requests c1 = <[n := Request r (Bridge.expect_result Bridge.wait_handle_init)]> (live_requests (cl s))) by (cbn; by rewrite Hn).
  assert (Hstep : ask_container to_message r false (cl s) =
    match on_rpc (Rpc.call_method false (method r) (Some (to_message r)) n (Some n)) c1 with
    | (c2, Ret _) => (c2, Ret true) | (c2, Throw e) => (leave n (Throw e);; mret false) c2 | (c2, _) => (c2, Undef) end).
  { unfold ask_container, c1, after_new, new_request. cbn. by rewrite Hn. }
  destruct (on_rpc_spec _ c1 _ _ (forced_ids p1) E Elg) as [E1|[Eund (g & Hg & Hdead)]].
  2: { unfold stepped. cbn [take_step]. fold s1. rewrite Ec. unfold on_client. rewrite Hstep.
    destruct (on_rpc _ c1) as [c2 x]. cbn in Eund. subst x. cbn [snd]. destruct (timed es) eqn:Et; [done|]. exfalso.
    apply Hin in Hg as [->|[Hg Hf]]; rewrite Hlive1 in Hdead; [by rewrite lookup_insert_eq in Hdead|]. rewrite lookup_insert_ne in Hdead by lia.
    destruct (i_alive _ _ _ _ _ _ Hs g Et Hf); [lia|congruence]. }
  rewrite E1 in Hstep. set (c2 := with_requests _ _) in Hstep.
  destruct (leave_fields n (Throw SystemError) c2) as (L0 & L1 & L2 & L3 & L4 & L5).
  assert (Hdone : ask_container to_message r false (cl s) = ((leave n (Throw SystemError) c2).1, Ret false)).
  { rewrite Hstep. unfold mbind, M_bind. destruct (leave n (Throw SystemError) c2) as [c3 x]. cbn in L0. by subst x. }
  set (c3 := (leave n (Throw SystemError) c2).1) in *. clearbody c3.
  assert (Hasked : asked_by (es ++ [Ask r]) = asked_by es ++ [r]) by apply asked_snoc.
  assert (Hlast : (asked_by es ++ [r]) !! n = Some r) by (apply list_lookup_middle; done).
  assert (Hlose : Lose ∈ es ++ [Ask r]) by by apply elem_of_more, (i_lost _ _ _ _ _ _ Hs).
  assert (Hlive3 : forall o, live_requests c3 !! o = if decide (o = n) then None
      else if bool_decide (o ∈ forced_ids p1) then answer_one <$> live_requests (cl s) !! o else live_requests (cl s) !! o).
  { intros o. rewrite L2. destruct (decide (o = n)) as [->|Hne]; [apply lookup_delete_eq|]. rewrite lookup_delete_ne by done.
    unfold c2. cbn [live_requests with_requests]. rewrite answer_all_lookup, Hlive1 by done. by rewrite lookup_insert_ne. }
  unfold stepped. cbn [take_step]. fold s1. rewrite Ec. unfold on_client. rewrite Hdone. cbn [snd fst].
  exists a, b, rs, true. clear Hclosed E Elg E1 Hstep Hdone Hids Hnd L2. clearbody p1. destruct Hs. rewrite <- ?Hlen in *. rewrite Ec in *. unfold s1 in *.
  split; rewrite ?Hasked, ?length_app, <- ?Hlen; cbn [length session_client up down connected served_by gone]; rewrite ?L1, ?L3, ?L4, ?L5;
    cbn [c2 with_requests with_rpc allocated rpc_channel Rpc.next_message_id Rpc.pending_calls_ Rpc.objects returned receiving c1 after_new new_request fst]; try done.
  - lia.
  - lia.
  - lia.
  - destruct i_direct0 as (c & Hd & Hrest). exists c. split; [|done]. by rewrite take_app_le by lia.
  - intros k p. rewrite lookup_empty. split; [done|]. by intros [? _].
  - intros o q. rewrite Hlive3. destruct (decide (o = n)) as [->|Hne]; [done|]. rewrite orb_true_r. intros Hq.
    destruct (bool_decide_reflect (o ∈ forced_ids p1)) as [Hf|Hf].
    + apply fmap_Some in Hq as (q' & Hq' & ->). destruct (i_live0 o q' Hq') as [Hl Hw]. split; [by apply lookup_app_l_Some|].
      apply Hin in Hf as [?|[Ho ->]]; [done|]. rewrite bool_decide_eq_false_2 in Hw by lia. cbn in Hw. unfold completed, answer_one. cbn. by rewrite Hw.
    + destruct (i_live0 o q Hq) as [Hl Hw]. split; [by apply lookup_app_l_Some|].
      assert (Hready : bool_decide (o < b)%nat || f = true).
      { destruct f; [apply orb_true_r|]. rewrite orb_false_r. apply bool_decide_eq_true_2. destruct (decide (o < b)%nat); [done|]. exfalso. apply Hf, Hin.
        right. split; [|done]. apply lookup_lt_Some in Hl. lia. }
      by rewrite Hready in Hw.
  - intros o out [[= -> ->]|Ho]%elem_of_cons.
    + rewrite Hlive3, decide_True by done. split; [done|]. exists r. split; [done|]. right. right. split; [by right|done].
    + destruct (i_returned0 o out Ho) as (H1 & r' & H2 & H3). pose proof (lookup_lt_Some _ _ _ H2) as Hlt. split.
      * rewrite Hlive3, decide_False, H1 by lia. by case_bool_decide.
      * exists r'. split; [by apply lookup_app_l_Some|]. rewrite <- (app_nil_r rs). by apply rightly_more.
  - rewrite fmap_cons. constructor; [|done]. intros Ho. apply list_elem_of_fmap in Ho as ([o' out] & Heq & Ho). cbn in Heq. subst o'.
    destruct (i_returned0 n out Ho) as (_ & r' & Hr' & _). apply lookup_lt_Some in Hr'. lia.
  - intros o Ho. rewrite Hlive3, fmap_cons. destruct (decide (o = n)) as [->|Hne]; [right; by left|].
    destruct (i_all0 o) as [Hl|Hr]; [lia| |right; by right]. left. case_bool_decide; [by apply fmap_is_Some|done].
  - apply Forall_app. split; [done|]. constructor; [by split_and!|constructor].
Qed.
Definition asks_sendable (e : step_of) : Prop := match e with Ask r => sendable r | _ => True end.
Lemma service_step_inv e es a b rs f s : asks_sendable e -> Z.of_nat (length (asked_by (es ++ [e]))) < 2 ^ 31 -> session_inv es a b rs f s -> stepped es e (service_step e s).
Proof.
  rewrite asked_snoc, length_app. intros Hok Hmax Hs. destruct e as [r| | |o|o| |].
  - cbn [length] in Hmax. destruct (connected s) eqn:Ec; [eapply step_ask_sent|eapply step_ask_lost]; first [exact Hs|exact Ec|exact Hok|lia].
  - by eapply step_handle.
  - eapply step_deliver; [|exact Hs]. cbn in Hmax. lia.
  - by eapply step_return.
  - by eapply step_timeout.
  - by eapply step_lose.
  - by eapply step_read_end.
Qed.
Abbreviation service_steps := (take_steps to_message from_message to_response has_error perform close_container).
Definition run_of_steps (es : list step_of) (r : both C * outcome unit) : Prop :=
  match r.2 with
  | Ret _ => exists a b rs f, session_inv es a b rs f r.1
  | Throw x => x = OutOfRange /\ Lose ∈ es
  | Undef => timed es = true
  | Aborted => False
  end.
Lemma timed_app es es' : timed es = true -> timed (es ++ es') = true.
Proof. unfold timed. intros H1. by rewrite existsb_app, H1. Qed.
Lemma asked_app es es' : asked_by (es ++ es') = asked_by es ++ asked_by es'.
Proof. unfold asked_by. apply omap_app. Qed.
Lemma steps_inv es2 : forall es a b rs f s, Forall sendable (asked_by es2) -> Z.of_nat (length (asked_by (es ++ es2))) < 2 ^ 31 -> session_inv es a b rs f s ->
  run_of_steps (es ++ es2) (service_steps es2 s).
Proof.
  induction es2 as [|e es2 IH]; intros es a b rs f s Hok Hmax Hs; [rewrite app_nil_r; by exists a, b, rs, f|].
  assert (Hsplit : es ++ e :: es2 = (es ++ [e]) ++ es2) by (by rewrite <- app_assoc). rewrite Hsplit in *.
  pose proof (service_step_inv e es a b rs f s) as Hstep. unfold take_steps. cbn [for_each]. unfold mbind, M_bind.
  assert (Hb : Z.of_nat (length (asked_by (es ++ [e]))) < 2 ^ 31) by (rewrite asked_app, length_app in Hmax; lia).
  assert (He : asks_sendable e /\ Forall sendable (asked_by es2)).
  { destruct e; try by split. by apply Forall_cons in Hok. }
  destruct He as [He Hok2]. specialize (Hstep He Hb Hs). unfold stepped in Hstep. destruct (service_step e s) as [s' [u|x| |]]; cbn [fst snd] in *.
  - destruct Hstep as (a' & b' & rs' & f' & Hs'). by eapply IH.
  - destruct Hstep as [-> Hl]. split; [done|]. by apply elem_of_app; left; apply elem_of_more.
  - done.
  - by apply timed_app, timed_app.
Qed.

(** Progress: the manager handles what was sent, the session reads the answers
    and every caller wakes up. *)
Definition settle (n : nat) : list step_of := replicate n Handle ++ replicate n Deliver ++ (Return <$> seq 0 n).
Lemma asked_settle n : asked_by (settle n) = [].
Proof.
  unfold settle. rewrite !asked_app. 
  assert (H1 : forall k, asked_by (replicate k Handle) = []) by (induction k; done).
  assert (H2 : forall k, asked_by (replicate k Deliver) = []) by (induction k; done).
  rewrite H1, H2. generalize 0%nat. induction n as [|n IH]; intros k; [done|]. apply IH.
Qed.
Lemma steps_app es1 es2 s s1 : service_steps es1 s = (s1, Ret tt) -> service_steps (es1 ++ es2) s = service_steps es2 s1.
Proof.
  revert s. induction es1 as [|e es1 IH]; intros s; [by intros [= ->]|]. unfold take_steps in *. cbn [for_each app].
  intros (s2 & u & E1 & E2)%M_bind_ret_inv. rewrite (M_bind_ret _ _ _ _ _ E1). by apply IH.
Qed.
(** In a connected session no step fails. *)
Lemma step_connected e es a b rs f s : quiet_step e -> timed (es ++ [e]) = false -> Lose ∉ es ++ [e] ->
  Z.of_nat (length (asked_by es)) < 2 ^ 31 -> session_inv es a b rs f s ->
  exists s' a' b' rs' f', service_step e s = (s', Ret tt) /\ session_inv (es ++ [e]) a' b' rs' f' s'.
Proof.
  intros He Ht Hl Hmax Hs. pose proof (service_step_inv e es a b rs f s) as Hstep. rewrite (asked_quiet es e He) in Hstep. assert (Hok : asks_sendable e) by by destruct e. specialize (Hstep Hok Hmax Hs).
  unfold stepped in Hstep. destruct (service_step e s) as [s' [[]|x| |]]; cbn [fst snd] in *.
  - destruct Hstep as (a' & b' & rs' & f' & Hs'). by exists s', a', b', rs', f'.
  - destruct Hstep as [_ Hin]. destruct Hl. by apply elem_of_more.
  - done.
  - apply timed_snoc in Ht. congruence.
Qed.
Lemma is_connected es a b rs f s : Lose ∉ es -> session_inv es a b rs f s -> connected s = true.
Proof. intros Hl Hs. destruct (connected s) eqn:E; [done|]. by destruct (Hl (i_lost _ _ _ _ _ _ Hs E)). Qed.
Lemma wire_length l : forall k, length (wire_from k l) = length l.
Proof. induction l as [|r l IH]; intros k; [done|]. cbn. f_equal. apply IH. Qed.
Lemma replies_length l : forall k, length (replies_from k l) = length l.
Proof. induction l as [|r l IH]; intros k; [done|]. cbn. f_equal. apply IH. Qed.
Lemma responses_length es a b rs f s : session_inv es a b rs f s -> length rs = a.
Proof.
  intros Hs. destruct (i_direct _ _ _ _ _ _ Hs) as (c & Hd & _). rewrite (directly_length _ _ _ _ Hd).
  pose proof (i_order _ _ _ _ _ _ Hs). len. lia.
Qed.
Lemma up_length es a b rs f s : session_inv es a b rs f s -> connected s = true -> length (up s) = (length (asked_by es) - a)%nat.
Proof. intros Hs Hc. by rewrite (i_up _ _ _ _ _ _ Hs), Hc, wire_length, length_drop. Qed.
Lemma down_length es a b rs f s : session_inv es a b rs f s -> length (down s) = (a - b)%nat.
Proof. intros Hs. by rewrite (i_down _ _ _ _ _ _ Hs), replies_length, length_drop, (responses_length _ _ _ _ _ _ Hs). Qed.
Lemma handle_shrinks s s' : service_step Handle s = (s', Ret tt) -> is_Some (served_by s) -> length (up s') = pred (length (up s)).
Proof.
  cbn [take_step]. intros E [c Hc]. rewrite Hc in E. destruct (up s) as [|i l] eqn:Eu; [injection E as <-; by rewrite Eu|].
  destruct (dispatch_management _ _ _ i c) as [c' [rs|x| |]]; by injection E as <-.
Qed.
Lemma on_client_ends {A} (x : M client A) (s s' : both C) r : on_client x s = (s', r) -> up s' = up s /\ down s' = down s.
Proof. unfold on_client. destruct (x (cl s)). by intros [= <- _]. Qed.
Lemma deliver_shrinks s s' : service_step Deliver s = (s', Ret tt) -> receiving (cl s) = true -> up s' = up s /\ length (down s') = pred (length (down s)).
Proof.
  cbn [take_step]. intros E Hr. rewrite Hr in E. destruct (down s) as [|r l] eqn:Ed; [injection E as <-; by rewrite Ed|].
  apply on_client_ends in E as [-> ->]. by cbn.
Qed.
Definition calm (es : list step_of) : Prop := timed es = false /\ Lose ∉ es.
Definition calm_step (e : step_of) : Prop := match e with Ask _ | TimeOut _ | Lose => False | _ => True end.
Lemma calm_snoc es e : calm es -> calm_step e -> calm (es ++ [e]).
Proof.
  intros [Ht Hl] He. split.
  - unfold timed in *. rewrite existsb_app, Ht. by destruct e.
  - rewrite elem_of_app, list_elem_of_singleton. intros [?|?]; [done|by subst].
Qed.
Definition in_order (es : list step_of) (s : both C) : Prop :=
  calm es /\ Z.of_nat (length (asked_by es)) < 2 ^ 31 /\ exists a b rs f, session_inv es a b rs f s.
Lemma held_step e es s : calm_step e -> in_order es s -> exists s', service_step e s = (s', Ret tt) /\ in_order (es ++ [e]) s' /\ asked_by (es ++ [e]) = asked_by es.
Proof.
  intros He (Hc & Hmax & a & b & rs & f & Hs). destruct (calm_snoc es e Hc He) as [Ht Hl]. assert (Hq : quiet_step e) by by destruct e.
  destruct (step_connected e es a b rs f s Hq Ht Hl Hmax Hs) as (s' & a' & b' & rs' & f' & E & Hs').
  pose proof (asked_quiet es e Hq) as Ha. exists s'. split; [done|]. split; [|done]. split; [by apply calm_snoc|]. rewrite Ha. split; [done|]. by exists a', b', rs', f'.
Qed.
Lemma held_connected es s : in_order es s -> connected s = true /\ is_Some (served_by s) /\ receiving (cl s) = true.
Proof.
  intros ([_ Hl] & _ & a & b & rs & f & Hs). pose proof (is_connected _ _ _ _ _ _ Hl Hs) as Hc. split; [done|].
  destruct (i_direct _ _ _ _ _ _ Hs) as (c & _ & _ & Hd). rewrite Hc in Hd. destruct Hd as [-> _]. split; [by eexists|]. by apply (i_reading _ _ _ _ _ _ Hs).
Qed.
Lemma phase e k (Q : nat -> both C -> Prop) : calm_step e ->
  (forall es s s' n, in_order es s -> service_step e s = (s', Ret tt) -> Q n s -> Q (pred n) s') ->
  forall es s n, in_order es s -> Q n s ->
  exists s', service_steps (replicate k e) s = (s', Ret tt) /\ in_order (es ++ replicate k e) s' /\ asked_by (es ++ replicate k e) = asked_by es /\ Q (n - k)%nat s'.
Proof.
  intros He HQ. induction k as [|k IH]; intros es s n Hs Hn.
  { exists s. rewrite app_nil_r, Nat.sub_0_r. by split_and!. }
  destruct (held_step e es s He Hs) as (s1 & E & Hs1 & Ha). destruct (IH (es ++ [e]) s1 (pred n) Hs1) as (s' & E' & Hs' & Ha' & Hn').
  { exact (HQ es s s1 n Hs E Hn). }
  exists s'. cbn [replicate]. unfold take_steps in *. cbn [for_each]. rewrite (M_bind_ret _ _ _ _ _ E). split; [done|].
  rewrite <- app_assoc in Hs', Ha'. cbn [app] in Hs', Ha'. split; [done|]. split; [by rewrite Ha'|]. by replace (n - S k)%nat with (pred n - k)%nat by lia.
Qed.
Lemma return_clears es s s' o : in_order es s -> up s = [] -> down s = [] -> service_step (Return o) s = (s', Ret tt) ->
  live_requests (cl s') = delete o (live_requests (cl s)) /\ up s' = [] /\ down s' = [].
Proof.
  intros ([_ Hl] & _ & a & b & rs & f & Hs) Hup Hdown E. pose proof (is_connected _ _ _ _ _ _ Hl Hs) as Hc.
  pose proof (up_length _ _ _ _ _ _ Hs Hc) as H1. pose proof (down_length _ _ _ _ _ _ Hs) as H2. rewrite Hup in H1. rewrite Hdown in H2. cbn in H1, H2.
  cbn [take_step] in E. destruct (on_client_ends _ _ _ _ E) as [-> ->]. split; [|by split].
  unfold on_client, return_from, get, mbind, M_bind in E. destruct (live_requests (cl s) !! o) as [q|] eqn:Eq.
  - destruct (i_live _ _ _ _ _ _ Hs o q Eq) as [Hr Hq]. apply lookup_lt_Some in Hr.
    pose proof (i_order _ _ _ _ _ _ Hs). rewrite bool_decide_eq_true_2 in Hq by lia. cbn in Hq. rewrite Hq in E. cbn [Bridge.received Bridge.expecting Z.eqb] in E.
    change (Pos.eqb 1 1) with true in E. cbv iota in E. unfold read_response, get, mbind, M_bind in E. cbn -[leave] in E.
    destruct (leave_fields o (answer_reported has_error (default [] (Rpc.objects (rpc_channel (cl s)) !! o))) (cl s)) as (_ & _ & F & _).
    unfold answer_reported in F. destruct (leave _ _ _) as [c' x]. injection E as <- _. exact F.
  - cbn in E. injection E as <-. by rewrite delete_id.
Qed.
Lemma return_phase l : forall es s, in_order es s -> up s = [] -> down s = [] ->
  exists s', service_steps (Return <$> l) s = (s', Ret tt) /\ in_order (es ++ (Return <$> l)) s' /\ asked_by (es ++ (Return <$> l)) = asked_by es /\
    up s' = [] /\ down s' = [] /\ (forall o, is_Some (live_requests (cl s') !! o) -> is_Some (live_requests (cl s) !! o) /\ o ∉ l).
Proof.
  induction l as [|o l IH]; intros es s Hs Hup Hdown.
  { exists s. rewrite app_nil_r. split_and!; [done..|]. intros o Ho. split; [done|]. apply not_elem_of_nil. }
  destruct (held_step (Return o) es s Logic.I Hs) as (s1 & E & Hs1 & Ha). destruct (return_clears es s s1 o Hs Hup Hdown E) as (Hlive & Hup1 & Hdown1).
  destruct (IH (es ++ [Return o]) s1 Hs1 Hup1 Hdown1) as (s' & E' & Hs' & Ha' & Hu' & Hd' & Hl'). exists s'. rewrite fmap_cons.
  unfold take_steps in *. cbn [for_each]. rewrite (M_bind_ret _ _ _ _ _ E). rewrite <- app_assoc in Hs', Ha'. cbn [app] in Hs', Ha'.
  split_and!; [done|done|by rewrite Ha'|done|done|]. intros o' Ho'. destruct (Hl' o' Ho') as [H1 H2]. rewrite Hlive in H1. apply lookup_delete_is_Some in H1 as [Hne H1].
  split; [done|]. apply not_elem_of_cons. by split.
Qed.
(** Every caller returns. *)
Lemma settles es s : in_order es s -> let n := length (asked_by es) in
  exists s', service_steps (settle n) s = (s', Ret tt) /\ in_order (es ++ settle n) s' /\ up s' = [] /\ down s' = [] /\ live_requests (cl s') = ∅.
Proof.
  intros Hs n. unfold settle.
  assert (Hfirst : (length (up s) <= n)%nat /\ forall es s a b rs f, session_inv es a b rs f s -> (length (down s) <= length (asked_by es))%nat).
  { split.
    - destruct (held_connected _ _ Hs) as [Hc _]. destruct Hs as (_ & _ & a & b & rs & f & Hs). rewrite (up_length _ _ _ _ _ _ Hs Hc). unfold n. lia.
    - intros. rewrite (down_length _ _ _ _ _ _ ltac:(eassumption)). pose proof (i_order _ _ _ _ _ _ ltac:(eassumption)). lia. }
  destruct Hfirst as [Hu Hd].
  destruct (phase Handle n (fun k s => length (up s) <= k)%nat Logic.I) with (es := es) (s := s) (n := n) as (s1 & E1 & Hs1 & Ha1 & Hu1); [|done..|].
  { intros es0 s0 s0' k Hs0 E0 Hk. rewrite (handle_shrinks _ _ E0); [lia|]. by apply held_connected in Hs0 as (_ & ? & _). }
  rewrite Nat.sub_diag in Hu1. apply Nat.le_0_r, length_zero_iff_nil in Hu1.
  destruct (phase Deliver n (fun k s => up s = [] /\ length (down s) <= k)%nat Logic.I) with (es := es ++ replicate n Handle) (s := s1) (n := n)
    as (s2 & E2 & Hs2 & Ha2 & Hu2 & Hd2); [|done|..].
  { intros es0 s0 s0' k Hs0 E0 [Hk1 Hk2]. destruct (deliver_shrinks _ _ E0) as [-> ->]; [by apply held_connected in Hs0 as (_ & _ & ?)|]. split; [done|lia]. }
  { split; [done|]. destruct Hs1 as (_ & _ & a & b & rs & f & Hs1). apply Hd in Hs1. by rewrite Ha1 in Hs1. }
  rewrite Nat.sub_diag in Hd2. apply Nat.le_0_r, length_zero_iff_nil in Hd2.
  destruct (return_phase (seq 0 n) _ s2 Hs2 Hu2 Hd2) as (s3 & E3 & Hs3 & Ha3 & Hu3 & Hd3 & Hl3).
  exists s3. rewrite (steps_app _ _ _ _ E1), (steps_app _ _ _ _ E2). split; [done|]. rewrite <- !app_assoc in Hs3. split; [done|].
  split_and!; [done..|]. apply map_empty. intros o. destruct (live_requests (cl s3) !! o) as [q|] eqn:Eq; [|done].
  exfalso. destruct (Hl3 o) as [[q' Hq'] Hno]; [by eexists|]. apply Hno, elem_of_seq. split; [lia|].
  destruct Hs2 as (_ & _ & a & b & rs & f & Hs2). destruct (i_live _ _ _ _ _ _ Hs2 o q' Hq') as [Hr%lookup_lt_Some _]. rewrite Ha2, Ha1 in Hr. fold n in Hr. lia.
Qed.
End both_sides.

(** * The container behind the service *)

(** What the responses and the container have to satisfy: a response can be
    parsed, one without content has no error, and the container answers every
    request. *)
Record contract `{Protobuf} (to_response : Lxc.response -> bytes) (has_error : bytes -> bool)
    {C : Type} (perform : Lxc.request -> M C Lxc.response) (I : C -> Prop) : Prop := {
  readable o a : Rpc.parse_into o (to_response a) = true;
  no_error : has_error [] = false;
  performs r c : I c -> exists c' a, perform r c = (c', Ret a) /\ I c'
}.
(** The container of [Lxc] does. *)
Lemma lxc_performs sys cfg : (forall A (l : list (bytes * A)), iterate sys l ≡ₚ l) ->
  forall r w, consistent w -> exists w' a, Lxc.serve sys cfg r w = (w', Ret a) /\ consistent w'.
Proof.
  intros Hi r w Hw. destruct (serve_consistent sys cfg Hi r w Hw) as [H1 [a Ha]]. destruct (Lxc.serve sys cfg r w) as [w' x]. cbn in *. subst x.
  by exists w', a.
Qed.
Lemma directly_session sys cfg l : forall w, directly (Lxc.serve sys cfg) l w = session sys cfg l w.
Proof.
  induction l as [|r l IH]; intros w; [done|]. cbn [directly session]. unfold mbind, M_bind.
  destruct (Lxc.serve sys cfg r w) as [w' [a| | |]]; [|done..]. by rewrite IH.
Qed.

(** * Theorem *)

(** C14: A session gets the answers of its container. For any calls of the
    session's threads and any order of what the manager reads, the session reads
    and its threads wake up: each caller returns at most once, with what the
    container, asked directly with the calls in their order, answered to this
    call; only a stop that was not waited for, or a call when the connection was
    lost, returns without that answer. Nothing undefined happens unless a wait
    was given up. While there is a connection, and no wait was given up, all
    calls can be completed, and then each has its answer and the container is
    the one that direct calls leave. *)
Theorem manager_answers `{Protobuf} to_message from_message to_response has_error
    {C} (perform : Lxc.request -> M C Lxc.response) (close_container : C -> C) I c0 es :
  contract to_response has_error perform I -> I c0 -> Forall (sendable to_message from_message) (asked_by es) ->
  Z.of_nat (length (asked_by es)) < 2 ^ 31 ->
  let run es := take_steps to_message from_message to_response has_error perform close_container es (both_init c0) in
  let s := (run es).1 in
  match (run es).2 with
  | Ret _ =>
      NoDup (returned (session_client s)).*1 /\
      exists k c rs, directly perform (take k (asked_by es)) c0 = (c, Ret rs) /\
        (if connected s then served_by s = Some c /\ gone s = [] else served_by s = None /\ gone s = [close_container c]) /\
        (forall o out, (o, out) ∈ returned (session_client s) ->
           exists r, asked_by es !! o = Some r /\ rightly to_response has_error es rs o r out)
  | Throw x => x = OutOfRange /\ Lose ∈ es
  | Undef => timed es = true
  | Aborted => False
  end /\
  (timed es = false -> Lose ∉ es -> exists s' c rs,
     run (es ++ settle (length (asked_by es))) = (s', Ret tt) /\ directly perform (asked_by es) c0 = (c, Ret rs) /\
     served_by s' = Some c /\ length rs = length (asked_by es) /\
     forall o a, rs !! o = Some a -> (o, answer_reported has_error (to_response a)) ∈ returned (session_client s')).
Proof.
  intros [H3 H4 H5] Hc Hok Hmax run s.
  pose proof (inv_init to_message from_message to_response has_error perform close_container c0 I Hc) as H0.
  pose proof (steps_inv to_message from_message to_response has_error perform close_container c0 H3 H4 I H5 es [] 0 0 [] false (both_init c0) Hok Hmax H0) as Hr.
  cbn [app] in Hr. unfold run_of_steps in Hr. fold (run es) in Hr. subst s. destruct (run es) as [s x] eqn:Erun. cbn [fst snd] in *.
  split.
  - destruct x as [[]|x| |]; try done. destruct Hr as (a & b & rs & f & Hs). split; [by apply (i_once _ _ _ _ _ _ _ _ _ _ _ _ _ _ Hs)|].
    destruct (i_direct _ _ _ _ _ _ _ _ _ _ _ _ _ _ Hs) as (c & Hd & _ & Hconn). exists a, c, rs. split; [done|]. split; [done|].
    intros o out Ho. by destruct (i_returned _ _ _ _ _ _ _ _ _ _ _ _ _ _ Hs o out Ho) as [_ ?].
  - intros Ht Hl. destruct x as [[]|x| |]; [|by destruct Hr|done|congruence].
    destruct (settles to_message from_message to_response has_error perform close_container c0 H3 H4 I H5 es s) as (s' & E & Hheld & Hu & Hd & Hempty); [by split_and!|].
    destruct Hheld as ([Ht' Hl'] & _ & a & b & rs & f & Hs). pose proof (is_connected _ _ _ _ _ _ _ _ _ _ _ _ _ _ Hl' Hs) as Hconn.
    pose proof (up_length _ _ _ _ _ _ _ _ _ _ _ _ _ _ Hs Hconn) as Hul. pose proof (down_length _ _ _ _ _ _ _ _ _ _ _ _ _ _ Hs) as Hdl.
    pose proof (responses_length _ _ _ _ _ _ _ _ _ _ _ _ _ _ Hs) as Hlen. pose proof (i_order _ _ _ _ _ _ _ _ _ _ _ _ _ _ Hs) as Hord.
    assert (Hasked : asked_by (es ++ settle (length (asked_by es))) = asked_by es) by (rewrite asked_app, asked_settle; apply app_nil_r).
    rewrite Hu in Hul. rewrite Hd in Hdl. cbn [length] in Hul, Hdl. rewrite Hasked in *. assert (a = length (asked_by es) /\ b = a) as [-> ->] by lia.
    destruct (i_direct _ _ _ _ _ _ _ _ _ _ _ _ _ _ Hs) as (c & Hdir & _ & Hserved). rewrite Hconn in Hserved. destruct Hserved as [Hserved _].
    rewrite Hasked, take_ge in Hdir by lia. exists s', c, rs. split; [unfold run; by rewrite (steps_app _ _ _ _ _ _ es _ _ s Erun)|]. split_and!; [done..|].
    intros o x Hx. pose proof (lookup_lt_Some _ _ _ Hx) as Hlt.
    destruct (i_all _ _ _ _ _ _ _ _ _ _ _ _ _ _ Hs o) as [[q Hq]|Hret]; [rewrite Hasked; lia|by rewrite Hempty in Hq|].
    apply list_elem_of_fmap in Hret as ([o' out] & Heq & Hin). cbn in Heq. subst o'.
    destruct (i_returned _ _ _ _ _ _ _ _ _ _ _ _ _ _ Hs o out Hin) as (_ & r & _ & [(y & Hy & ->)|[(_ & _ & Hto)|[_ Hlo]]]); [|exfalso|done].
    + congruence.
    + apply not_true_iff_false in Ht'. apply Ht'. unfold timed. apply existsb_exists. exists (TimeOut o). split; [by apply list_elem_of_In|done].
Qed.

(** The service keeps one connection. *)
Lemma one_client {P E} `{!MessageProcessor P E} (p : P) : keeps (fun s : net P E => (net_size s <= 1)%nat) (new_client p).
Proof.
  intros s Hs. unfold new_client, get, mbind, M_bind. destruct (Nat.leb_spec 1 (net_size s)) as [|Hlt]; [done|].
  destruct s as [m n l]. unfold net_size in *. cbn [connections] in *.
  assert (Hz : m = ∅) by (apply map_size_empty_iff; lia). subst m.
  unfold establish, Network.next_id, get, modify, mbind, M_bind, mret, M_ret, Network.add. cbn -[size insert lookup].
  rewrite lookup_empty. cbn -[size insert lookup]. rewrite lookup_empty. cbn [set_connections connections].
  rewrite map_size_insert_None, map_size_empty by apply lookup_empty. done.
Qed.

(** * Witness *)

Definition to_message (r : Lxc.request) : bytes := match r with Start _ => [x01] | Stop => [] end.
Definition from_message (m b : bytes) : option Lxc.request :=
  if bytes_eqb m (str "start_container") then Some (Start a_configuration) else Some Stop.
Definition to_response (a : Lxc.response) : bytes := match a with Done => [x00] | Error => [x01] end.
Definition has_error (raw : bytes) : bool := bytes_eqb raw [x01].
#[local] Instance short_protobuf : Protobuf := {
  ser_invocation i := Rpc.method_name i ++ Rpc.parameters i;
  parse_invocation _ := None;
  ser_result _ := [];
  parse_result _ := None;
  parse_into _ _ := true
}.
Lemma short_sendable r : r = Start a_configuration \/ r = Stop -> sendable to_message from_message r.
Proof. intros [-> | ->]; split_and!; done. Qed.
Definition the_system : system := a_system false nothing_fails.
Definition lxc_steps := take_steps to_message from_message to_response has_error (Lxc.serve the_system a_build)
  (fun w => (Lxc.destroy the_system w).1).
(** Two threads of the session, whose calls overlap. *)
Definition overlapping : list step_of :=
  [Ask (Start a_configuration); Ask Stop; Handle; Return 0; Deliver; Ask (Start a_configuration); Return 0].
Lemma manager_answers_witness :
  timed overlapping = false /\ Lose ∉ overlapping /\
  exists s', lxc_steps (overlapping ++ settle 3) (both_init a_world) = (s', Ret tt) /\
    (0%nat, Ret [x00]) ∈ returned (session_client s') /\ (2%nat, Ret [x00]) ∈ returned (session_client s').
Proof.
  assert (Ht : timed overlapping = false) by reflexivity.
  assert (Hl : Lose ∉ overlapping) by (unfold overlapping; rewrite !not_elem_of_cons; split_and!; try discriminate; apply not_elem_of_nil).
  split; [exact Ht|]. split; [exact Hl|].
  destruct (manager_answers to_message from_message to_response has_error (Lxc.serve the_system a_build)
    (fun w => (Lxc.destroy the_system w).1) consistent a_world overlapping) as [_ H].
  - split; [done|done|]. by apply lxc_performs.
  - split; [|done]. intros name Hn. by apply elem_of_nil in Hn.
  - cbn. repeat (apply Forall_cons; split; [apply short_sendable; first [by left|by right]|]). constructor.
  - by vm_compute.
  - destruct (H Ht Hl) as (s' & c & rs & E & Hd & _ & _ & Ha). exists s'. split; [exact E|].
    assert (Hrs : rs = [Done; Done; Done]).
    { assert (E' : (directly (Lxc.serve the_system a_build) (asked_by overlapping) a_world).2 = Ret [Done; Done; Done]) by (by vm_compute).
      rewrite Hd in E'. cbn in E'. congruence. }
    subst rs. split; [apply (Ha 0%nat Done eq_refl)|apply (Ha 2%nat Done eq_refl)].
Defined.

(** * Where the code does not do what it means to *)

(** A stop that is not waited for leaves its request behind: the pending call
    still has the addresses of its response and of its handle, and the answer is
    written there. *)
Lemma late_answer : (lxc_steps [Ask Stop; TimeOut 0; Handle; Deliver] (both_init a_world)).2 = Undef.
Proof. by vm_compute. Qed.
(** When the connection is lost, the pending calls are not completed: the
    thread that waits for its start waits forever, whatever happens on the
    connection. *)
Definition stuck (s : both world) : Prop :=
  up s = [] /\ down s = [] /\ connected s = false /\ exists r, live_requests (session_client s) !! 0%nat = Some (Request r (Bridge.WaitHandle 1 0)).
Lemma start_waits_forever es : Forall (fun e => match e with Ask _ | TimeOut _ | Lose => False | _ => True end) es ->
  exists s, lxc_steps ([Ask (Start a_configuration); Lose] ++ es) (both_init a_world) = (s, Ret tt) /\ stuck s.
Proof.
  intros Hes. set (s0 := (lxc_steps [Ask (Start a_configuration); Lose] (both_init a_world)).1).
  assert (E : lxc_steps [Ask (Start a_configuration); Lose] (both_init a_world) = (s0, Ret tt)) by by vm_compute.
  assert (H0 : stuck s0) by (split_and!; [done..|]; eexists; by vm_compute).
  unfold lxc_steps. rewrite (steps_app _ _ _ _ _ _ _ _ _ _ E). clear E. clearbody s0. revert s0 H0.
  induction Hes as [|e es He _ IH]; intros s (Hu & Hd & Hc & r & Hr); [exists s; split; [done|]; split_and!; [done..|by exists r]|].
  unfold take_steps. cbn [for_each].
  assert (Hstep : exists s1, take_step to_message from_message to_response has_error (Lxc.serve the_system a_build)
      (fun w => (Lxc.destroy the_system w).1) e s = (s1, Ret tt) /\ stuck s1).
  { destruct e as [|  | |o| | |]; try done; cbn [take_step].
    - rewrite Hu. exists s. split; [done|]. split_and!; [done..|by exists r].
    - rewrite Hd. exists s. split; [done|]. split_and!; [done..|by exists r].
    - rewrite return_run. destruct (live_requests (session_client s) !! o) as [q|] eqn:Eq; [|exists s; split; [done|]; split_and!; [done..|by exists r]].
      destruct (_ =? _) eqn:Ew; [|exists s; split; [done|]; split_and!; [done..|by exists r]].
      assert (Hne : o <> 0%nat) by (intros ->; rewrite Hr in Eq; by injection Eq as <-).
      match goal with |- context [leave o ?out] => destruct (leave_fields o out (session_client s)) as (F0 & _ & F2 & _) end.
      unfold on_client. destruct (leave _ _ _) as [c x]. cbn in F0, F2. subst x. eexists. split; [reflexivity|].
      split_and!; [done..|]. exists r. cbn. by rewrite F2, lookup_delete_ne.
    - rewrite Hd, Hc. eexists. split; [reflexivity|]. split_and!; [done..|by exists r]. }
  destruct Hstep as (s1 & E1 & H1). rewrite (M_bind_ret _ _ _ _ _ E1). by apply IH.
Qed.
(** Unless another call is made: it fails, and completes the waiting one, whose
    response is empty and thus says that the container was started. *)
Lemma lost_start_succeeds :
  let s := (lxc_steps [Ask (Start a_configuration); Lose; Ask Stop; Return 0] (both_init a_world)).1 in
  returned (session_client s) = [(0%nat, Ret []); (1%nat, Throw SystemError)] /\ served_by s = None.
Proof. by vm_compute. Qed.
(** A method that the manager does not know is not answered at all. *)
Lemma unknown_method_unanswered m p n w : m <> str "start_container" -> m <> str "stop_container" ->
  dispatch_management from_message to_response (Lxc.serve the_system a_build) (Rpc.Invocation n m p 1) w = (w, Ret []).
Proof.
  intros H1 H2. unfold dispatch_management, bytes_eqb. cbn [Rpc.method_name]. by rewrite !bool_decide_eq_false_2.
Qed.
