(* ===== verification/Audio.v ===== *)
(** The sound of the guest: the socket on which its players connect
    (audio/server.cpp) and the sink that hands their bytes to SDL
    (platform/sdl/audio_sink.cpp).  Sockets and connections are those of
    Network.v; the sink is a client of the bounded queues of BufferQueue.v, and
    its reading is that of BufferedIOStream.v.  SDL is outside: whether it opens
    a device, and when it asks for how many bytes, are arguments. *)

From S2P Require Import Prelude BufferQueue BufferedIOStream Network.

Local Open Scope nat_scope.

(** * The sink *)

Section sink.
Context {Q : Type} `{BoundedQueue Q bytes} `{!PollableQueue Q bytes}.

(** [woken]: the wake-ups issued by the queue. *)
Record sink := Sink {
  device_id_ : Z;
  queue_ : Q;
  read_buffer_ : bytes;
  read_buffer_left_ : nat;
  woken : list notification
}.
Definition AudioSink (q : Q) : sink := Sink 0 q [] 0 [].
Definition with_device_id (id : Z) (s : sink) : sink :=
  Sink id (queue_ s) (read_buffer_ s) (read_buffer_left_ s) (woken s).
Definition with_reads (q : Q) (buf : bytes) (left : nat) (ns : list notification) (s : sink) : sink :=
  Sink (device_id_ s) q buf left (woken s ++ ns).

(** [device] is what [SDL_OpenAudioDevice] answers, if it is asked. *)
Definition connect_audio (device : Z) (s : sink) : sink * bool :=
  if (0 <? device_id_ s)%Z then (s, true)
  else (with_device_id (u32 device) s, negb (u32 device =? 0)%Z).
Definition disconnect_audio (s : sink) : sink :=
  if (device_id_ s =? 0)%Z then s else with_device_id 0 s.

(** [WriteAsleep]: waiting in [push_locked], the lock released. *)
Inductive write_end := Skipped (s : sink) | Pushed (rc : Z) (s : sink) | WriteAsleep (s : sink).
Definition write_data (device : Z) (data : bytes) (s : sink) : outcome write_end :=
  let (s, connected) := connect_audio device s in
  if negb connected then Ret (Skipped s)
  else
    match bq_push (queue_ s) data with
    | None => Ret (WriteAsleep s)
    | Some o =>
        r <-! o;
        let '(rc, q, ns) := r in
        Ret (Pushed rc (with_reads q (read_buffer_ s) (read_buffer_left_ s) ns s))
    end.

(** [read_data] fills the first bytes of SDL's buffer; [ReadNothing] is the
    return after a failed [pop_locked], [ReadAsleep] the wait inside it. *)
Inductive read_end := Filled (data : bytes) (s : sink) | ReadNothing (s : sink) | ReadAsleep (s : sink).
Definition popped_into (s : sink) (count : nat) (dst : bytes)
    (o : outcome (Z * option bytes * Q * list notification)) : (sink * bytes) + outcome read_end :=
  match o with
  | Ret (result, ob, q, ns) =>
      if (result =? 0)%Z then
        match ob with
        | Some b => inl (with_reads q b (length b) ns s, dst)
        | None => inr Undef
        end
      else
        let s := with_reads q (read_buffer_ s) (read_buffer_left_ s) ns s in
        if 0 <? count then inr (Ret (Filled dst s)) else inr (Ret (ReadNothing s))
  | Throw e => inr (Throw e)
  | Aborted => inr Aborted
  | Undef => inr Undef
  end.
Definition read_data_body (wanted : nat) (st : sink * bytes) : (sink * bytes) + outcome read_end :=
  let (s, dst) := st in
  let count := length dst in
  if count <? wanted then
    if 0 <? read_buffer_left_ s then
      let avail := (wanted - count) `min` read_buffer_left_ s in
      if length (read_buffer_ s) <? read_buffer_left_ s then inr Undef
      else
        let chunk := take avail (drop (length (read_buffer_ s) - read_buffer_left_ s) (read_buffer_ s)) in
        inl (with_reads (queue_ s) (read_buffer_ s) (read_buffer_left_ s - avail) [] s, dst ++ chunk)
    else
      let blocking := count =? 0 in
      if blocking then
        match bq_pop (queue_ s) with
        | None => inr (Ret (ReadAsleep s))
        | Some o => popped_into s count dst o
        end
      else popped_into s count dst (bq_try_pop (queue_ s))
  else inr (Ret (Filled dst s)).
(** Every turn copies a byte or takes a buffer off the queue. *)
Definition read_data_fuel (s : sink) (wanted : nat) : nat := S (wanted + length (bq_items (queue_ s))).
Definition read_data (wanted : nat) (s : sink) : option (outcome read_end) :=
  loop (read_data_fuel s wanted) (read_data_body wanted) (s, []).
End sink.
Arguments sink Q : clear implicits.
Arguments write_end Q : clear implicits.
Arguments read_end Q : clear implicits.

(** * A player: its connection's thread and SDL's audio thread over one sink *)

Section player.
Context {Q : Type} `{BoundedQueue Q bytes} `{!PollableQueue Q bytes}.

(** SDL's thread is outside the callback, in [read_data] before it has the
    lock, or asleep in it; with SDL's buffer as it was handed over. *)
Inductive device_thread := DIdle | DReady (buffer : bytes) | DAsleep (buffer : bytes).

(** [received]: the reads of the connection; [played]: SDL's buffers before and
    after each callback. *)
Record player := Player {
  snk : sink Q;
  writer : producer bytes;
  device : device_thread;
  received : list bytes;
  skipped : list bytes;
  accepted : list bytes;
  played : list (bytes * bytes);
  destroyed : bool
}.
Definition player_init (q : Q) : player := Player (AudioSink q) PIdle DIdle [] [] [] [] false.

Definition wake_device (ns : list notification) (d : device_thread) : device_thread :=
  match d with
  | DAsleep b => match wake_consumer ns CAsleep with CAsleep => d | _ => DReady b end
  | _ => d
  end.
Definition unwoken (s : sink Q) : sink Q :=
  Sink (device_id_ s) (queue_ s) (read_buffer_ s) (read_buffer_left_ s) [].

(** [AudioForwarder::process_data], once the connection has read [data]. *)
Definition receive_packet (data : bytes) (a : player) : player :=
  Player (snk a) (PReady data) (device a) (received a ++ [data]) (skipped a) (accepted a) (played a) (destroyed a).
(** [write_data] with the lock, from its start or when it wakes up. *)
Definition write_turn (answer : Z) (data : bytes) (a : player) : outcome player :=
  if destroyed a then Undef
  else
    r <-! write_data answer data (unwoken (snk a));
    Ret match r with
        | Skipped s => Player s PIdle (device a) (received a) (skipped a ++ [data]) (accepted a) (played a) false
        | WriteAsleep s => Player s (PAsleep data) (device a) (received a) (skipped a) (accepted a) (played a) false
        | Pushed rc s =>
            Player s PIdle (wake_device (woken s) (device a)) (received a)
              (if (rc =? 0)%Z then skipped a else skipped a ++ [data])
              (if (rc =? 0)%Z then accepted a ++ [data] else accepted a) (played a) false
        end.
(** [on_data_requested] with the lock, from its start or when it wakes up. *)
Definition callback_turn (buffer : bytes) (a : player) : outcome player :=
  if destroyed a then Undef
  else
    match read_data (length buffer) (unwoken (snk a)) with
    | None => Undef
    | Some o =>
        r <-! o;
        Ret match r with
            | Filled data s =>
                Player s (wake_producer (woken s) (writer a)) DIdle (received a) (skipped a) (accepted a)
                  (played a ++ [(buffer, data ++ drop (length data) buffer)]) false
            | ReadNothing s =>
                Player s (wake_producer (woken s) (writer a)) DIdle (received a) (skipped a) (accepted a)
                  (played a ++ [(buffer, buffer)]) false
            | ReadAsleep s =>
                Player s (wake_producer (woken s) (writer a)) (DAsleep buffer) (received a) (skipped a) (accepted a)
                  (played a) false
            end
    end.
(** [~AudioSink] with the connection; the device stays as it is. *)
Definition destroy_sink (a : player) : player :=
  Player (snk a) (writer a) (device a) (received a) (skipped a) (accepted a) (played a) true.

Definition with_writer (w : producer bytes) (a : player) : player :=
  Player (snk a) w (device a) (received a) (skipped a) (accepted a) (played a) (destroyed a).
Definition with_thread (d : device_thread) (a : player) : player :=
  Player (snk a) (writer a) d (received a) (skipped a) (accepted a) (played a) (destroyed a).

(** What can happen to a player, spurious wake-ups included. *)
Inductive player_step : player -> player -> Prop :=
  | on_packet data a : writer a = PIdle -> destroyed a = false -> player_step a (receive_packet data a)
  | on_write answer data a a' : writer a = PReady data -> write_turn answer data a = Ret a' -> player_step a a'
  | writer_wakes data a : writer a = PAsleep data -> player_step a (with_writer (PReady data) a)
  | on_request buffer a : device a = DIdle -> (0 < device_id_ (snk a))%Z -> player_step a (with_thread (DReady buffer) a)
  | on_callback buffer a a' : device a = DReady buffer -> callback_turn buffer a = Ret a' -> player_step a a'
  | device_wakes buffer a : device a = DAsleep buffer -> player_step a (with_thread (DReady buffer) a)
  | on_destroy a : writer a = PIdle -> player_step a (destroy_sink a).
End player.
Arguments player Q : clear implicits.

(** * Lemmas: the sink reads like a [BufferedIOStream] *)

Section reads_like.
Context {Q : Type} `{BoundedQueueLaws Q bytes} `{!PollableQueue Q bytes} `{!ClosableQueue Q bytes}.
Implicit Types (s : sink Q).

(** A sink as the reading half of a stream whose other queue is [oq]. *)
Definition as_stream (oq : Q) (s : sink Q) : BufferedIOStream.stream Q :=
  BufferedIOStream.Stream (queue_ s) (read_buffer_ s) (read_buffer_left_ s) oq [] false (woken s) 0 0 0 0 0.
Definition as_read_end (oq : Q) (o : outcome (read_end Q)) : outcome (BufferedIOStream.read_result Q) :=
  r <-! o;
  Ret match r with
      | Filled data s => BufferedIOStream.RData data (as_stream oq s)
      | ReadNothing s => BufferedIOStream.RNull (as_stream oq s)
      | ReadAsleep s => BufferedIOStream.RBlocked (as_stream oq s)
      end.
Definition as_turn (oq : Q) (r : (sink Q * bytes) + outcome (read_end Q)) :=
  match r with
  | inl (s, dst) => inl (as_stream oq s, dst)
  | inr o => inr (as_read_end oq o)
  end.

Lemma popped_into_stream oq s dst o :
  BufferedIOStream.after_pop (as_stream oq s) (length dst) dst o =
  as_turn oq (popped_into s (length dst) dst o).
Proof.
  destruct o as [[[[rc [b|]] q] ns]| | |]; try done; simpl; destruct (rc =? 0)%Z; try done; by destruct dst.
Qed.

Lemma read_data_body_stream oq wanted s dst :
  BufferedIOStream.read_body wanted (as_stream oq s, dst) = as_turn oq (read_data_body wanted (s, dst)).
Proof.
  unfold BufferedIOStream.read_body, read_data_body. cbn [as_stream BufferedIOStream.read_buffer_left_
    BufferedIOStream.read_buffer_ BufferedIOStream.in_queue_].
  destruct (length dst <? wanted); [|done].
  destruct (0 <? read_buffer_left_ s).
  { destruct (length (read_buffer_ s) <? read_buffer_left_ s); [done|]. done. }
  destruct (length dst =? 0); [destruct (bq_pop (queue_ s)); [|done]|]; apply popped_into_stream.
Qed.

(** The one is the other: the loop of [read_data] is the loop of
    [BufferedIOStream::read]. *)
Lemma read_data_stream oq wanted s :
  BufferedIOStream.read (as_stream oq s) wanted = as_read_end oq <$> read_data wanted s.
Proof.
  unfold BufferedIOStream.read, read_data. change (BufferedIOStream.read_fuel (as_stream oq s) wanted)
    with (read_data_fuel s wanted).
  generalize (read_data_fuel s wanted) as n, (@nil Byte.byte) as dst. intros n. revert s.
  induction n as [|n IH]; intros s dst; [done|]. cbn [loop].
  rewrite read_data_body_stream. destruct (read_data_body wanted (s, dst)) as [[s' dst']|r]; simpl; [apply IH|done].
Qed.

(** The bytes a sink holds, in order. *)
Definition unplayed (s : sink Q) : bytes :=
  drop (length (read_buffer_ s) - read_buffer_left_ s) (read_buffer_ s) ++ concat (bq_items (queue_ s)).
Definition sink_wf (s : sink Q) : Prop := bq_wf (queue_ s) /\ read_buffer_left_ s <= length (read_buffer_ s).

(** What a callback leaves alone, and that it wakes a writer if it takes a
    buffer off a full queue. *)
Definition kept (s0 s : sink Q) : Prop :=
  bq_wf (queue_ s) /\ device_id_ s = device_id_ s0 /\ bq_cap (queue_ s) = bq_cap (queue_ s0) /\
  bq_closed (queue_ s) = bq_closed (queue_ s0) /\
  (bq_items (queue_ s) = bq_items (queue_ s0) \/
   (length (bq_items (queue_ s0)) = bq_cap (queue_ s0) -> WakePush ∈ woken s)).
Definition read_kept (s0 : sink Q) (o : outcome (read_end Q)) : Prop :=
  match o with
  | Ret (Filled _ s) => kept s0 s
  | Ret (ReadNothing s) => kept s0 s
  | Ret (ReadAsleep s) => kept s0 s /\ bq_pop (queue_ s) = None
  | _ => True
  end.

Lemma kept_pop s0 s count dst o :
  kept s0 s -> bq_pop (queue_ s) = Some o ->
  match popped_into s count dst o with inl st => kept s0 st.1 | inr r => read_kept s0 r end.
Proof.
  intros (Hwf & Hd & Hcap & Hcl & Hit) Hp.
  destruct (pop_cases _ _ Hwf Hp) as [[-> _]|(b & q' & ns & -> & Hwf' & Hi & Hc' & Hcl' & Hw)]; simpl.
  - assert (kept s0 (with_reads (queue_ s) (read_buffer_ s) (read_buffer_left_ s) [] s)).
    { do 4 (split; [done|]). simpl. by rewrite app_nil_r. }
    by destruct (0 <? count).
  - split; [done|]. split; [done|]. split; [simpl; congruence|]. split; [simpl; congruence|]. right.
    intros Hf. apply elem_of_app. destruct Hit as [Hit|Hit]; [right; apply Hw; congruence|left; by apply Hit].
Qed.

Lemma kept_body s0 wanted s dst :
  kept s0 s ->
  match read_data_body wanted (s, dst) with inl st => kept s0 st.1 | inr r => read_kept s0 r end.
Proof.
  intros Hk. pose proof Hk as (Hwf & Hd & Hcap & Hcl & Hit). unfold read_data_body.
  destruct (length dst <? wanted); [|done]. destruct (0 <? read_buffer_left_ s).
  { destruct (length (read_buffer_ s) <? read_buffer_left_ s); [done|].
    do 4 (split; [done|]). simpl. by rewrite app_nil_r. }
  destruct (length dst =? 0).
  - destruct (bq_pop (queue_ s)) as [o|] eqn:Hp; [by apply kept_pop|by split].
  - rewrite bq_try_pop_spec by done. destruct (bq_pop (queue_ s)) as [o|] eqn:Hp; [by apply kept_pop|].
    simpl. assert (kept s0 (with_reads (queue_ s) (read_buffer_ s) (read_buffer_left_ s) [] s)).
    { do 4 (split; [done|]). simpl. by rewrite app_nil_r. }
    by destruct (0 <? length dst).
Qed.

Lemma read_data_kept s wanted o : bq_wf (queue_ s) -> read_data wanted s = Some o -> read_kept s o.
Proof.
  intros Hwf. unfold read_data. assert (Hk : kept s s) by (do 4 (split; [done|]); by left).
  revert Hk. generalize (read_data_fuel s wanted) as n, (@nil Byte.byte) as dst.
  generalize s at 2 3 as s'. intros s' n. revert s'. induction n as [|n IH]; intros s' dst Hk; [done|].
  cbn [loop]. pose proof (kept_body s wanted s' dst Hk) as Hb.
  destruct (read_data_body wanted (s', dst)) as [[s1 dst1]|r]; [by apply IH|]. by intros [= <-].
Qed.

(** One callback: the oldest bytes, as many as asked for or as there are. *)
Lemma read_data_spec s wanted :
  sink_wf s ->
  exists r, read_data wanted s = Some (Ret r) /\
    match r with
    | Filled data s' => data = take wanted (unplayed s) /\ (0 < wanted -> data <> []) /\
                        unplayed s' = drop wanted (unplayed s) /\ sink_wf s' /\ kept s s'
    | ReadNothing s' => bq_closed (queue_ s) = true
    | ReadAsleep s' => 0 < wanted /\ unplayed s' = [] /\ unplayed s = [] /\ sink_wf s' /\ kept s s' /\
                       bq_items (queue_ s') = [] /\ bq_closed (queue_ s') = false
    end.
Proof.
  intros [Hq Hl]. pose proof (read_data_stream (queue_ s) wanted s) as He.
  destruct (read_spec (as_stream (queue_ s) s) wanted) as (r & Hr & Hpost); [done|].
  rewrite Hr in He. destruct (read_data wanted s) as [o|] eqn:Ho; [|done].
  pose proof (read_data_kept s wanted o Hq Ho) as Hk. injection He as ->. simpl in *.
  destruct o as [e| | |]; try done. exists e. split; [done|].
  destruct e as [data s'|s'|s']; simpl in *.
  - destruct Hpost as (? & ? & ? & ? & _ & ?). done.
  - destruct Hpost as (_ & _ & _ & _ & Hcl). destruct Hk as (_ & _ & _ & Hs & _). congruence.
  - destruct Hpost as (? & ? & ? & (? & _ & ?) & Hcl). destruct Hk as [Hk Hp].
    do 5 (split; [done|]). split; [|done].
    destruct (bq_items (queue_ s')) as [|b rest] eqn:Hi; [done|].
    destruct (bq_pop_ok (queue_ s') b rest) as (? & ? & Hp' & _); [done|done|]. by rewrite Hp' in Hp.
Qed.
End reads_like.

(** * Lemmas: the player *)

Section player_lemmas.
Context {Q : Type} `{BoundedQueueLaws Q bytes} `{!PollableQueue Q bytes} `{!ClosableQueue Q bytes}.
Implicit Types (s : sink Q) (a : player Q).

Definition opened_device (s : sink Q) : Prop := (0 < device_id_ s)%Z.

Lemma write_data_spec answer data s :
  sink_wf s -> bq_closed (queue_ s) = false ->
  exists r, write_data answer data s = Ret r /\
    match r with
    | Skipped s' => ~ opened_device s /\ exists id, s' = with_device_id id s
    | Pushed rc s' =>
        rc = 0%Z /\ opened_device s' /\ sink_wf s' /\ bq_closed (queue_ s') = false /\
        bq_cap (queue_ s') = bq_cap (queue_ s) /\ unplayed s' = unplayed s ++ data /\
        (bq_items (queue_ s) = [] -> WakePop ∈ woken s')
    | WriteAsleep s' =>
        opened_device s' /\ length (bq_items (queue_ s)) = bq_cap (queue_ s) /\ exists id, s' = with_device_id id s
    end.
Proof.
  intros [Hq Hl] Hcl. unfold write_data. destruct (connect_audio answer s) as [s1 ok] eqn:Hc.
  assert (Hs1 : (exists id, s1 = with_device_id id s) /\ if ok then opened_device s1 else ~ opened_device s).
  { unfold connect_audio in Hc. unfold opened_device. destruct (Z.ltb_spec 0 (device_id_ s)) as [Hd|Hd]; simplify_eq.
    - split; [exists (device_id_ s1); by destruct s1|done].
    - split; [by eexists|]. simpl. pose proof (Z.mod_pos_bound answer (2 ^ 32) ltac:(lia)).
      destruct (Z.eqb_spec (u32 answer) 0); simpl; [lia|]. unfold u32 in *. lia. }
  destruct Hs1 as [[id ->] Hok]. destruct ok; simpl; [|eexists; split; [done|]; split; [done|by eexists]].
  destruct (bq_push (queue_ s) data) as [o|] eqn:Hp.
  - destruct (push_cases _ _ _ Hq Hp) as [[_ Ht]|(q' & ns & -> & Hq' & Hlt & Hi & Hcap & Hcl' & Hw)]; [congruence|].
    simpl. eexists. split; [done|]. do 2 (split; [done|]). split; [done|]. do 2 (split; [done|]).
    split; [|intros Hn; apply elem_of_app; right; by apply Hw].
    unfold unplayed. simpl. rewrite Hi, concat_app, app_assoc. simpl. by rewrite app_nil_r.
  - eexists. split; [done|]. split; [done|]. split; [|by eexists].
    pose proof (bq_bound _ Hq). destruct (decide (length (bq_items (queue_ s)) = bq_cap (queue_ s))); [done|].
    destruct (bq_push_ok (queue_ s) data Hq) as (? & ? & Hp' & _); [lia|done|]. by rewrite Hp' in Hp.
Qed.

(** A callback gives SDL [d], and what is left of the buffer as it was. *)
Definition callback_answered (d : bytes) (b : bytes * bytes) : Prop :=
  b.2 = d ++ drop (length d) b.1 /\ length d <= length b.1 /\ (b.1 <> [] -> d <> []).
Definition in_hand (w : producer bytes) : list bytes :=
  match w with PIdle => [] | PReady d | PAsleep d => [d] end.

Record player_inv (cap : nat) (a : player Q) : Prop := {
  pi_sink : sink_wf (snk a);
  pi_cap : bq_cap (queue_ (snk a)) = cap;
  pi_closed : bq_closed (queue_ (snk a)) = false;
  pi_open : opened_device (snk a) \/
            accepted a = [] /\ device a = DIdle /\ (forall d, writer a <> PAsleep d);
  pi_received : received a = skipped a ++ accepted a ++ in_hand (writer a);
  pi_played : exists ds, concat (accepted a) = concat ds ++ unplayed (snk a) /\ Forall2 callback_answered ds (played a);
  pi_device : forall b, device a = DAsleep b ->
    unplayed (snk a) = [] /\ bq_items (queue_ (snk a)) = [] /\ b <> [];
  pi_writer : forall d, writer a = PAsleep d -> length (bq_items (queue_ (snk a))) = cap
}.

Lemma inv_write cap answer data a :
  player_inv cap a -> destroyed a = false -> in_hand (writer a) = [data] ->
  exists a', write_turn answer data a = Ret a' /\ player_inv cap a'.
Proof.
  intros [Hwf Hcap Hcl Ho Hr (ds & Hp & Hds) Hd Hw] Hdead Hh. unfold write_turn. rewrite Hdead.
  destruct (write_data_spec answer data (unwoken (snk a)) Hwf Hcl) as (r & -> & Hpost). simpl.
  rewrite Hh in Hr. destruct r as [s|rc s|s]; simpl in Hpost; eexists; (split; [reflexivity|]).
  - destruct Hpost as [Hn [id ->]]. destruct Ho as [Ho|(Ha & Hdv & _)]; [done|].
    split; simpl; try done.
    + right. by split_and!.
    + rewrite Hr, Ha. simpl. by rewrite app_nil_r.
    + by exists ds.
  - destruct Hpost as (-> & Hop & Hwf' & Hcl' & Hcap' & Hu & Hwk). simpl in *.
    split; simpl; try done.
    + by rewrite Hcap'.
    + by left.
    + by rewrite Hr, app_nil_r.
    + exists ds. rewrite concat_app, Hp, Hu. simpl. by rewrite app_nil_r, <- app_assoc.
    + intros b Hb. destruct (device a) as [|b'|b'] eqn:Hda; try done. simpl in Hb.
      destruct (Hd b' eq_refl) as (_ & Hi & _). 
      destruct (existsb _ (woken s)) eqn:E; [done|]. exfalso.
      apply not_true_iff_false in E. apply E, existsb_exists. exists WakePop.
      split; [by apply list_elem_of_In, Hwk|done].
  - destruct Hpost as (Hop & Hf & [id ->]). simpl in *. split; simpl; try done.
    + by left.
    + by exists ds.
    + intros d _. by rewrite Hf.
Qed.

(** A writer that still sleeps after a callback still faces a full queue. *)
Lemma still_full cap s s' (w : producer bytes) :
  kept (unwoken s) s' -> bq_cap (queue_ s) = cap ->
  (forall d, w = PAsleep d -> length (bq_items (queue_ s)) = cap) ->
  forall d, wake_producer (woken s') w = PAsleep d -> length (bq_items (queue_ s')) = cap.
Proof.
  intros (_ & _ & _ & _ & Hit) Hcap Hw d Hs. simpl in *.
  pose proof (Hw _ (wake_producer_was _ _ _ Hs)) as Hlen. destruct Hit as [->|Hit]; [done|].
  exfalso. eapply wake_producer_asleep; [left; apply Hit; congruence|exact Hs].
Qed.

Lemma inv_callback cap buffer a :
  player_inv cap a -> destroyed a = false -> device a <> DIdle ->
  exists a', callback_turn buffer a = Ret a' /\ player_inv cap a'.
Proof.
  intros [Hwf Hcap Hcl Ho Hr (ds & Hp & Hds) Hd Hw] Hdead Hh. unfold callback_turn. rewrite Hdead.
  destruct Ho as [Ho|(_ & ? & _)]; [|done].
  destruct (read_data_spec (unwoken (snk a)) (length buffer) Hwf) as (r & -> & Hpost). simpl.
  destruct r as [d s|s|s]; simpl in Hpost; eexists; (split; [reflexivity|]); [| congruence |].
  - destruct Hpost as (Hdata & Hne & Hu & Hwf' & Hk).
    pose proof (still_full cap _ _ (writer a) Hk Hcap Hw). destruct Hk as (_ & Hdv & Hcap' & Hcl' & _). simpl in *.
    split; simpl; try done.
    + congruence.
    + congruence.
    + left. unfold opened_device. by rewrite Hdv.
    + rewrite Hr. by destruct (writer a) as [|b|b]; simpl; [| |case_match].
    + exists (ds ++ [d]). split.
      * rewrite Hp, concat_app. simpl. by rewrite app_nil_r, <- app_assoc, Hdata, Hu, take_drop.
      * apply Forall2_app; [done|]. constructor; [|constructor]. split; [done|]. simpl.
        split; [rewrite Hdata; slen|]. intros Hb. apply Hne. destruct buffer; [done|simpl; lia].
  - destruct Hpost as (Hpos & Hu & Hu0 & Hwf' & Hk & Hi & _).
    pose proof (still_full cap _ _ (writer a) Hk Hcap Hw). destruct Hk as (_ & Hdv & Hcap' & Hcl' & _). simpl in *.
    split; simpl; try done.
    + congruence.
    + congruence.
    + left. unfold opened_device. by rewrite Hdv.
    + rewrite Hr. by destruct (writer a) as [|b|b]; simpl; [| |case_match].
    + exists ds. rewrite Hu, Hp. split; [|done]. f_equal. exact Hu0.
    + intros b [= <-]. split_and!; [done|done|]. intros ->. simpl in Hpos. lia.
Qed.

Lemma player_step_inv cap a a' : player_inv cap a -> player_step a a' -> player_inv cap a'.
Proof.
  intros Hinv Hs. destruct Hs as [data a Hw Hd|answer data a a' Hw Ht|data a Hw|buffer a Hd Ho|buffer a a' Hd Ht|buffer a Hd|a Hw].
  - destruct Hinv as [? ? ? Ho Hr ? ? ?]. split; simpl; try done.
    + destruct Ho as [?|(? & ? & ?)]; [by left|right; by split_and!].
    + rewrite Hr, Hw. simpl. by rewrite app_nil_r, <- app_assoc.
  - destruct (destroyed a) eqn:Hdead; [unfold write_turn in Ht; by rewrite Hdead in Ht|].
    destruct (inv_write cap answer data a Hinv Hdead) as (a1 & Ht' & ?); [by rewrite Hw|]. congruence.
  - destruct Hinv as [? ? ? Ho Hr ? ? ?]. split; simpl; try done.
    + destruct Ho as [?|(? & ? & ?)]; [by left|right; by split_and!].
    + by rewrite Hr, Hw.
  - destruct Hinv as [? ? ? _ ? ? ? ?]. split; simpl; try done. by left.
  - destruct (destroyed a) eqn:Hdead; [unfold callback_turn in Ht; by rewrite Hdead in Ht|].
    destruct (inv_callback cap buffer a Hinv Hdead) as (a1 & Ht' & ?); [by rewrite Hd|]. congruence.
  - destruct Hinv as [? ? ? Ho ? ? ? ?]. split; simpl; try done.
    destruct Ho as [?|(_ & ? & _)]; [by left|congruence].
  - by destruct Hinv; split.
Qed.

Lemma player_reachable q a :
  bq_wf q -> bq_items q = [] -> bq_closed q = false -> rtc player_step (player_init q) a ->
  player_inv (bq_cap q) a.
Proof.
  intros Hq Hi Hc. revert a. apply (rtc_ind_r (fun a => player_inv (bq_cap q) a)).
  - split; simpl; try done.
    + by right.
    + exists []. unfold unplayed. simpl. by rewrite Hi.
  - intros a a' _ Hs Ha. by eapply player_step_inv.
Qed.
End player_lemmas.

(** * The player over [BufferQueue] *)

Section bounded_player.
Context (moved_from : bytes -> bytes).
#[local] Instance audio_queue : BoundedQueue (buffer_queue bytes) bytes := buffer_queue_bounded moved_from.
#[local] Instance audio_queue_laws : BoundedQueueLaws (buffer_queue bytes) bytes := buffer_queue_laws moved_from.
#[local] Instance audio_queue_pollable : PollableQueue (buffer_queue bytes) bytes := buffer_queue_pollable moved_from.

Definition max_queue_size : nat := 16.
Definition new_player : player (buffer_queue bytes) := player_init (BufferQueue max_queue_size []).

(** C21: for every interleaving of the reads of a player's connection, the
    callbacks of SDL with buffers of any size, sleeping, waking up (spuriously
    too) and the failures to open a device: until the connection ends no turn
    touches memory outside a buffer or fails; the packets received are those
    skipped while no device could be opened followed by the accepted ones in
    their order; the callbacks have answered with the accepted bytes, in order,
    without loss or repetition, each with at least one byte and no more than
    asked for, what they lack being in the queue of at most 16 packets or the
    rest of one; a sleeping callback has had everything, a sleeping writer
    faces a full queue, so that they never both sleep. *)
Theorem audio_stream a :
  rtc player_step new_player a -> destroyed a = false ->
  received a = skipped a ++ accepted a ++ in_hand (writer a) /\
  (exists ds, concat (accepted a) = concat ds ++ unplayed (snk a) /\ Forall2 callback_answered ds (played a)) /\
  length (queue_items (queue_ (snk a))) <= max_queue_size /\
  (accepted a <> [] -> opened_device (snk a)) /\
  (forall answer data, writer a = PReady data -> exists a', write_turn answer data a = Ret a') /\
  (forall buffer, device a = DReady buffer -> exists a', callback_turn buffer a = Ret a') /\
  (forall b, device a = DAsleep b -> unplayed (snk a) = [] /\ forall d, writer a <> PAsleep d) /\
  (forall d, writer a = PAsleep d -> length (queue_items (queue_ (snk a))) = max_queue_size).
Proof.
  intros Ha Hdead.
  apply player_reachable in Ha; [|apply queue_empty_wf|done|done]. pose proof Ha as [[Hq ?] Hcap ? Ho Hr Hp Hd Hw].
  simpl in Hcap. do 2 (split; [done|]). split; [rewrite <- Hcap; exact (bq_bound (queue_ (snk a)) Hq)|].
  split; [by destruct Ho as [?|(? & _ & _)]|].
  split; [intros answer data Hs; destruct (inv_write _ answer data a Ha Hdead) as (a' & ? & _); [by rewrite Hs|by exists a']|].
  split; [intros buffer Hs; destruct (inv_callback _ buffer a Ha Hdead) as (a' & ? & _); [by rewrite Hs|by exists a']|].
  split; [|done]. intros b Hs. destruct (Hd b Hs) as (? & Hi & _). split; [done|]. intros d Hs'.
  specialize (Hw d Hs'). simpl in *. rewrite Hi in Hw. done.
Qed.
End bounded_player.

(** A run of the player: one packet, and a callback that asks for more. *)
Definition demo_played : player (buffer_queue bytes) :=
  let a := receive_packet (str "abc") (new_player) in
  match write_turn (H := audio_queue (fun b => b)) 2 (str "abc") a with
  | Ret a =>
      match callback_turn (H := audio_queue (fun b => b)) (PollableQueue0 := audio_queue_pollable (fun b => b))
              (str "....") (with_thread (DReady (str "....")) a) with
      | Ret a => a
      | _ => new_player
      end
  | _ => new_player
  end.

Lemma demo_played_reachable :
  rtc (player_step (H := audio_queue (fun b => b)) (PollableQueue0 := audio_queue_pollable (fun b => b)))
    new_player demo_played.
Proof.
  eapply rtc_l; [by apply (on_packet (str "abc"))|].
  eapply rtc_l; [by eapply (on_write 2 (str "abc"))|].
  eapply rtc_l; [by apply (on_request (str "...."))|].
  eapply rtc_l; [by eapply (on_callback (str "...."))|]. apply rtc_refl.
Qed.

Lemma audio_stream_witness :
  played demo_played = [(str "....", str "abc.")] /\
  received demo_played = skipped demo_played ++ accepted demo_played ++ in_hand (writer demo_played).
Proof.
  split; [reflexivity|].
  apply (audio_stream (fun b => b) demo_played demo_played_reachable eq_refl).
Defined.

(** The end of SDL's buffer stays as it was when the queue runs dry. *)
Lemma short_callback :
  exists a, rtc (player_step (H := audio_queue (fun b => b)) (PollableQueue0 := audio_queue_pollable (fun b => b)))
              new_player a /\ played a = [(str "....", str "abc.")].
Proof. exists demo_played. split; [apply demo_played_reachable|reflexivity]. Qed.

(** The connection ends; its device goes on asking, from a sink that is gone. *)
Lemma sink_outlived :
  exists a, rtc (player_step (H := audio_queue (fun b => b)) (PollableQueue0 := audio_queue_pollable (fun b => b)))
              new_player a /\ device a = DReady (str "....") /\
            callback_turn (H := audio_queue (fun b => b)) (PollableQueue0 := audio_queue_pollable (fun b => b))
              (str "....") a = Undef.
Proof.
  exists (with_thread (DReady (str "....")) (destroy_sink demo_played)). split; [|by split].
  etransitivity; [apply demo_played_reachable|].
  eapply rtc_l; [by apply on_destroy|]. eapply rtc_l; [by apply on_request|]. apply rtc_refl.
Qed.

(** * The server *)

(** [None]: the platform made no sink. *)
Inductive audio_processor := AudioForwarder (sink : option Z) | NoProcessor.
Inductive audio_event := CreateSink (k : Z) | Approve (wire : bytes) | WriteData (k : Z) (data : bytes) | DestroySink (k : Z).

#[export] Instance audio_message_processor : MessageProcessor audio_processor audio_event := {
  process_data data p :=
    match p with
    | AudioForwarder (Some k) => (p, [WriteData k data], Ret true)
    | AudioForwarder None | NoProcessor => (p, [], Undef)
    end;
  destroy p := match p with AudioForwarder (Some k) => [DestroySink k] | _ => [] end
}.

Record server := Server { server_net : net audio_processor audio_event; sinks_made : Z }.
Definition server_init : server := Server net_init 0.
Definition on_server {A} (c : M (net audio_processor audio_event) A) : M server A := fun s =>
  let (n, o) := c (server_net s) in (Server n (sinks_made s), o).

Section server.
(** Whether the platform is SDL's, or the null platform. *)
Context (sdl : bool).

Definition create_audio_sink : M server (option Z) :=
  if sdl then
    s ← get;
    modify (fun s => Server (server_net s) (sinks_made s + 1)) ≫= fun _ =>
    on_server (emit [CreateSink (sinks_made s)]) ≫= fun _ =>
    mret (Some (sinks_made s))
  else mret None.

Inductive client_kind := Playback | Recording | InvalidClient.
Definition client_kind_of (info : bytes) : client_kind :=
  match le_value info with 0 => Playback | 1 => Recording | _ => InvalidClient end%Z.

(** The approval [info] on the wire and the end of its sending: an exception
    destroys the processor. *)
Definition approve_client (p : audio_processor) (wire : bytes) (sent : outcome unit) : M server unit :=
  on_server (emit [Approve wire]) ≫= fun _ =>
  match sent with
  | Ret _ => on_server (establish [] p)
  | o => on_server (emit (destroy p)) ≫= fun _ => lift o
  end.

(** The socket's answers to the blocking read of the client info and to the
    sending of the approval; [None] while the handler is in one of the two. *)
Definition create_audio_connection_for (info : list (bytes * option io_error)) (answers : list (nat * option io_error))
    : option (M server unit) :=
  match receive_msg 1 [] None info with
  | None => None
  | Some (_, Some _) => Some (mret tt)
  | Some (client_info, None) =>
      match client_kind_of client_info with
      | InvalidClient => Some (mret tt)
      | kind =>
          match Network.send client_info answers with
          | (_, None) => None
          | (wire, Some sent) => Some (
              p ← (match kind with
                   | Playback => create_audio_sink ≫= fun k => mret (AudioForwarder k)
                   | _ => mret NoProcessor
                   end);
              approve_client p wire sent)
          end
      end
  end.
End server.

(** * The clients *)

(** The handler asks again while the client has sent nothing. *)
Lemma receive_waits n e rest : receive_msg 1 [] e (replicate n ([], Some TryAgain) ++ rest) =
  receive_msg 1 [] (if decide (n = 0) then e else Some TryAgain) rest.
Proof.
  revert e; induction n as [|n IH]; intros e; [done|]. cbn [replicate app receive_msg length Nat.ltb Nat.leb].
  rewrite IH. by destruct n.
Qed.

(** A client that sends nothing keeps the handler, and with it the acceptor. *)
Lemma silent_client sdl n answers :
  create_audio_connection_for sdl (replicate n ([], Some TryAgain)) answers = None.
Proof.
  unfold create_audio_connection_for. rewrite <- (app_nil_r (replicate n _)), receive_waits. done.
Qed.

(** A guest player: its first byte is 0; it is approved with the same byte,
    gets a sink of its own, and every later read of its connection goes to this
    sink as it is. *)
Theorem playback_client n (s : server) :
  connections (server_net s) !! next_connection_id_ (server_net s) = None ->
  let id := next_connection_id_ (server_net s) in
  let k := sinks_made s in
  exists c s1, create_audio_connection_for true (replicate n ([], Some TryAgain) ++ [([x00], None)]) [(1, None)] = Some c /\
    c s = (s1, Ret tt) /\
    connections (server_net s1) !! id = Some (Connection [] (AudioForwarder (Some k)) true) /\
    log (server_net s1) = log (server_net s) ++ [CreateSink k; Approve [x00]] /\
    forall data, exists s2, on_read_size id (Some data) (server_net s1) = (s2, Ret tt) /\
      log s2 = log (server_net s1) ++ [WriteData k data] /\ connections s2 = connections (server_net s1).
Proof.
  intros Hfree id k.
  unfold create_audio_connection_for. rewrite receive_waits. cbn -[Z.add].
  eexists _, (Server (Net (<[id := Connection [] (AudioForwarder (Some k)) true]> (connections (server_net s)))
    (i32 (id + 1)) (log (server_net s) ++ [CreateSink k; Approve [x00]])) (k + 1)).
  split; [reflexivity|]. split; [|split; [apply lookup_insert_eq|split; [done|]]].
  - unfold get, modify, mret, M_ret, mbind, M_bind, approve_client, on_server, emit. cbn -[Z.add establish].
    unfold mbind, M_bind. cbn -[Z.add establish]. rewrite establish_run by done. cbn -[Z.add]. by rewrite <- app_assoc.
  - intros data. eexists. erewrite on_read_size_run; [|apply lookup_insert_eq|reflexivity]. cbn.
    split; [reflexivity|]. split; [done|]. cbn. by rewrite insert_insert_eq, alter_insert_eq.
Qed.

(** A recording client is approved without a processor, and so is a player on
    the null platform without a sink: their first bytes are fatal. *)
Lemma null_processor sdl info :
  sdl = true /\ info = x01 \/ sdl = false /\ info = x00 ->
  exists c s1, create_audio_connection_for sdl [([info], None)] [(1, None)] = Some c /\ c server_init = (s1, Ret tt) /\
    log (server_net s1) = [Approve [info]] /\
    forall data, (on_read_size 0%Z (Some data) (server_net s1)).2 = Undef.
Proof.
  intros [[-> ->]|[-> ->]]; eexists _, _; (split; [reflexivity|]); (split; [reflexivity|]); (split; [reflexivity|]); done.
Qed.

(** A client that leaves before its approval ends the service: the exception
    leaves the handler before the next accept is started. *)
Lemma vanished_client :
  exists c s1, create_audio_connection_for true [([x00], None)] [(0, Some OtherError)] = Some c /\
    published_on_new_connection Accepted c (true, server_init) = (s1, Throw SystemError) /\ s1.1 = false /\
    log (server_net s1.2) = [CreateSink 0; Approve []; DestroySink 0].
Proof. eexists _, _. split; [reflexivity|]. split; [reflexivity|]. done. Qed.

(** The first client of a server. *)
Lemma playback_client_witness :
  exists c s1, create_audio_connection_for true [([], Some TryAgain); ([x00], None)] [(1, None)] = Some c /\
    c server_init = (s1, Ret tt) /\ log (server_net s1) = [CreateSink 0; Approve [x00]].
Proof.
  destruct (playback_client 1 server_init) as (c & s1 & Hc & Hs & _ & Hl & _); [reflexivity|].
  by exists c, s1.
Defined.
