(* ===== verification/SdlWindow.v ===== *)
(** The host windows of the SDL platform (platform/sdl/window.cpp) and their
    place in the event thread (platform/sdl/platform.cpp): how a window is
    placed and made, which part of it the user drags and resizes, its own
    buttons, and how its events become the callbacks of Sdl.v.  SDL's windows,
    displays and the X server are outside: their answers are arguments, the
    calls made to SDL are recorded. *)

From S2P Require Import Prelude Geometry Input Sdl.

Local Open Scope Z_scope.

(** * The work area *)

Definition intersect_rect (r bounds : rect) : rect :=
  if rect_eqb r Invalid || rect_eqb bounds Invalid then Invalid
  else
    let intersection := Rect (Z.max (left_ r) (left_ bounds)) (Z.max (top_ r) (top_ bounds))
                          (Z.min (right_ r) (right_ bounds)) (Z.min (bottom_ r) (bottom_ bounds)) in
    if (width intersection <=? 0) || (height intersection <=? 0) then Invalid else intersection.

(** The displays in SDL's order with their bounds, where SDL has them; the
    pointer; [x11_root_bounds]; and the usable bounds of a display. *)
Record displays := Displays {
  bounds_ : list (option rect);
  pointer_at : Z * Z;
  root_bounds : rect;
  usable_bounds_of : Z -> option rect
}.
Record work_area := WorkArea { display_index : Z; area : rect; usable_bounds : bool }.

Fixpoint display_at (index : Z) (l : list (option rect)) (x y : Z) : option Z :=
  match l with
  | [] => None
  | None :: l' => display_at (index + 1) l' x y
  | Some b :: l' =>
      if (left_ b <=? x) && (x <? right_ b) && (top_ b <=? y) && (y <? bottom_ b) then Some index
      else display_at (index + 1) l' x y
  end.
Definition initial_display_work_area (s : displays) (fallback : rect) : work_area :=
  let index := default 0 (display_at 0 (bounds_ s) (pointer_at s).1 (pointer_at s).2) in
  match mjoin (bounds_ s !! Z.to_nat index) with
  | None => WorkArea index fallback false
  | Some monitor =>
      let root := root_bounds s in
      let visible_monitor := intersect_rect monitor root in
      let monitor := if rect_eqb visible_monitor Invalid then monitor else visible_monitor in
      let (usable_area, usable) :=
        match usable_bounds_of s index with
        | Some u =>
            if (0 <? width u) && (0 <? height u) then
              let usable_area := if rect_eqb root Invalid then u else intersect_rect u root in
              (usable_area, negb (rect_eqb usable_area monitor))
            else (Invalid, false)
        | None => (Invalid, false)
        end in
      WorkArea index (select_window_work_area usable_area monitor) usable
  end.

(** * The window object *)

Inductive window_control := ControlNone | ControlClose | ControlMaximize.
#[global] Instance window_control_eq_dec : EqDecision window_control.
Proof. solve_decision. Defined.

(** Beside its frame and task, which the platform's [host_window] has. SDL's
    window is its id; the observer is the platform. *)
Record sdl_window := Window {
  window_ : Z;
  native_window_ : Z;
  fixed_width_ : Z;
  fixed_height_ : Z;
  client_side_decorations_ : bool;
  pressed_window_control_ : window_control
}.
Definition with_pressed (c : window_control) (w : sdl_window) : sdl_window :=
  Window (window_ w) (native_window_ w) (fixed_width_ w) (fixed_height_ w) (client_side_decorations_ w) c.

(** Calls of SDL and the renderer for a window. *)
Inductive sdl_call :=
  | VideoInit
  | CreateWindow (frame : rect) (resizable borderless : bool)
  | SetResizable (sdl : Z) (b : bool)
  | SetMinimumSize (sdl w h : Z)
  | SetMaximumSize (sdl w h : Z)
  | SetHitTest (sdl : Z)
  | ShowWindow (sdl : Z)
  | RestoreWindow (sdl : Z)
  | MaximizeWindow (sdl : Z)
  | SetWindowSize (sdl w h : Z)
  | ReleaseSurface (native : Z)   (* [release] of wm/window.cpp *)
  | DestroyWindow (sdl : Z).

(** SDL's answers while a window is made: its id, whether the hit test could
    be set, and the native handle if the subsystem is known. *)
Record creation := Creation { made : option Z; hit_test_set : bool; native : option Z }.

Record window_config := WindowConfig {
  platform_config : config;
  rootless : bool;
  window_size_immutable_ : bool;
  server_side_decoration : bool;
  force_client_side_decoration : bool;   (* ANBOX_FORCE_CLIENT_SIDE_DECORATION *)
  no_hit_test : bool                     (* ANBOX_NO_SDL_WINDOW_HIT_TEST *)
}.

(** The constructor: what it calls before it returns or throws. *)
Definition new_sdl_window (c : window_config) (a : creation) (task : Z) (frame : rect) (resizable borderless : bool)
    : list sdl_call * outcome (sdl_window * host_window) :=
  let create := [CreateWindow frame resizable borderless] in
  match made a with
  | None => (create, Throw RuntimeError)
  | Some id =>
      let constraints := fixed_size_constraints frame in
      let fix_size := if resizable then []
                      else [SetResizable id false;
                            SetMinimumSize id (minimum_width constraints) (minimum_height constraints);
                            SetMaximumSize id (maximum_width constraints) (maximum_height constraints)] in
      let hit := if borderless && negb (no_hit_test c) then [SetHitTest id] else [] in
      let calls := create ++ fix_size ++ hit in
      if borderless && negb (no_hit_test c) && negb (hit_test_set a) then (calls, Throw RuntimeError)
      else
        match native a with
        | None => (calls, Throw RuntimeError)
        | Some handle => 
            (calls ++ [ShowWindow id],
             Ret (Window id handle (if resizable then 0 else width frame) (if resizable then 0 else height frame)
                    (borderless && force_client_side_decoration c) ControlNone,
                  HostWindow id handle frame task))
        end
  end.
Definition destroy_window (w : sdl_window) : list sdl_call := [ReleaseSurface (native_window_ w); DestroyWindow (window_ w)].

(** * Dragging and resizing *)

Definition window_resize_border : Z := 10.
Definition top_drag_area : Z := 42.
Definition button_size : Z := 32.
Definition button_margin : Z := 5.
Definition button_padding : Z := 0.

(** [SDL_GetWindowFlags], with the current density. *)
Record window_facts := WindowState { size_ : Z * Z; fullscreen : bool; resizable_ : bool; maximized : bool; density : Z }.

Inductive hit_test_result :=
  | HITTEST_NORMAL | HITTEST_DRAGGABLE
  | HITTEST_RESIZE_TOPLEFT | HITTEST_RESIZE_TOP | HITTEST_RESIZE_TOPRIGHT | HITTEST_RESIZE_RIGHT
  | HITTEST_RESIZE_BOTTOMRIGHT | HITTEST_RESIZE_BOTTOM | HITTEST_RESIZE_BOTTOMLEFT | HITTEST_RESIZE_LEFT.

Definition button_area (s : window_facts) : Z := dp_to_pixel (density s) (button_size + button_padding * 2 + button_margin * 2).
Definition drag_height (s : window_facts) : Z := dp_to_pixel (density s) top_drag_area.
Definition border_size (s : window_facts) : Z := dp_to_pixel (density s) window_resize_border.

Definition on_window_hit (s : window_facts) (x y : Z) : hit_test_result :=
  let (w, h) := size_ s in
  let border := border_size s in
  let area := button_area s in
  if fullscreen s then HITTEST_NORMAL
  else if negb (resizable_ s) then if y <? border then HITTEST_DRAGGABLE else HITTEST_NORMAL
  else if y <? drag_height s then
    if (w - area <? x) && (x <? w) then HITTEST_NORMAL
    else if (w - area * 2 <? x) && (x <? w - area) then HITTEST_NORMAL
    else HITTEST_DRAGGABLE
  else if maximized s then HITTEST_NORMAL
  else if (x <? border) && (y <? border) then HITTEST_RESIZE_TOPLEFT
  else if (border <? x) && (x <? w - border) && (y <? border) then HITTEST_RESIZE_TOP
  else if (w - border <? x) && (y <? border) then HITTEST_RESIZE_TOPRIGHT
  else if (w - border <? x) && (border <? y) && (y <? h - border) then HITTEST_RESIZE_RIGHT
  else if (w - border <? x) && (h - border <? y) then HITTEST_RESIZE_BOTTOMRIGHT
  else if (x <? w - border) && (border <? x) && (h - border <? y) then HITTEST_RESIZE_BOTTOM
  else if (x <? border) && (h - border <? y) then HITTEST_RESIZE_BOTTOMLEFT
  else if (x <? border) && (y <? h - border) && (border <? y) then HITTEST_RESIZE_LEFT
  else HITTEST_NORMAL.

(** * The buttons *)

Definition window_control_at (s : window_facts) (x y : Z) : window_control :=
  let (w, h) := size_ s in
  if (x <? 0) || (y <? 0) || (w <=? x) || (h <=? y) || (drag_height s <=? y) then ControlNone
  else if w - button_area s <=? x then ControlClose
  else if w - button_area s * 2 <=? x then ControlMaximize
  else ControlNone.

(** What a window does about an event: it tells the platform, or asks SDL. *)
Inductive window_action := Notify (c : callback) | Ask (c : sdl_call).

Definition close (id : Z) : list window_action := [Notify (Deleted id)].
Definition switch_window_state (s : window_facts) (w : sdl_window) : list window_action :=
  [Ask (if maximized s then RestoreWindow (window_ w) else MaximizeWindow (window_ w))].

(** The answer is whether the event ends here. *)
Definition process_window_control_event (s : window_facts) (id : Z) (e : host_event) (w : sdl_window)
    : sdl_window * bool * list window_action :=
  if negb (client_side_decorations_ w) then (w, false, [])
  else
    match e with
    | SdlMotion window_id _ _ _ _ _ =>
        (w, negb (bool_decide (pressed_window_control_ w = ControlNone)) && (window_id =? window_ w), [])
    | SdlButton down window_id ButtonLeft x y _ =>
        if negb (window_id =? window_ w) then (w, false, [])
        else
          let hovered := window_control_at s x y in
          if down then (with_pressed hovered w, negb (bool_decide (hovered = ControlNone)), [])
          else
            let pressed := pressed_window_control_ w in
            let w := with_pressed ControlNone w in
            if bool_decide (pressed = ControlNone) then (w, false, [])
            else
              (w, true,
               if bool_decide (pressed = hovered) then
                 match pressed with
                 | ControlClose => close id
                 | ControlMaximize => switch_window_state s w
                 | ControlNone => []
                 end
               else [])
    | _ => (w, false, [])
    end.

(** * The events of a window *)

Inductive window_event :=
  | FocusGained | FocusLost | SizeChanged (w h : Z) | WindowMoved (x y : Z) | Shown | Exposed
  | WindowHidden | Minimized | Maximized | Restored | DisplayChanged | CloseRequested | OtherWindowEvent.

Definition process_window_event (id : Z) (e : window_event) (w : sdl_window) : sdl_window * list window_action :=
  match e with
  | FocusGained => (w, [Notify (WantsFocus id)])
  | FocusLost => (with_pressed ControlNone w, [Notify (LostFocus id)])
  | SizeChanged x y =>
      (w, if (0 <? fixed_width_ w) && (0 <? fixed_height_ w) &&
             (negb (x =? fixed_width_ w) || negb (y =? fixed_height_ w))
          then [Ask (SetWindowSize (window_ w) (fixed_width_ w) (fixed_height_ w))]
          else [Notify (Resized id x y)])
  | WindowMoved x y => (w, [Notify (Moved id x y)])
  | Shown | Exposed | Maximized | Restored | DisplayChanged => (w, [Notify (LifecycleChanged id)])
  | WindowHidden | Minimized => (w, [Notify (Hidden id)])
  | CloseRequested => (w, close id)
  | OtherWindowEvent => (w, [])
  end.

(** * The windows on the event thread *)

(** The platform of Sdl.v with the window objects behind its map. *)
Record desktop := Desktop {
  plat : platform;
  objects : gmap Z sdl_window;
  next_window_id_ : Z;
  calls : list sdl_call
}.
Definition desktop_init (i : input) : desktop := Desktop (platform_init i) ∅ 0 [].
Definition with_platform (f : platform -> platform) (d : desktop) : desktop :=
  Desktop (f (plat d)) (objects d) (next_window_id_ d) (calls d).
Definition with_object (id : Z) (w : sdl_window) (d : desktop) : desktop :=
  Desktop (plat d) (<[id := w]> (objects d)) (next_window_id_ d) (calls d).
Definition ask (cs : list sdl_call) (d : desktop) : desktop :=
  Desktop (plat d) (objects d) (next_window_id_ d) (calls d ++ cs).
Definition next_window_id (d : desktop) : Z * desktop :=
  (next_window_id_ d, Desktop (plat d) (objects d) (next_window_id_ d + 1) (calls d)).

Section desktop.
Context (c : window_config).

(** [Platform::create_window], with a renderer set: None is the null pointer. *)
Definition create_host_window (env : sdl) (screen : displays) (display_frame : rect) (a : creation)
    (task : Z) (frame : rect) (d : desktop) : desktop * outcome (option Z) :=
  let d := if rootless c && video_closed_ (plat d) then with_platform (with_video false) (ask [VideoInit] d) else d in
  let initial_frame :=
    if single_window (platform_config c)
    then calculate_single_window_frame frame (area (initial_display_work_area screen display_frame))
    else frame in
  if single_window (platform_config c) && rect_eqb initial_frame Invalid then (d, Ret None)
  else
    let (id, d) := next_window_id d in
    let resizable := negb (single_window (platform_config c)) && negb (window_size_immutable_ c) in
    let (cs, o) := new_sdl_window c a task initial_frame resizable (negb (server_side_decoration c)) in
    let d := ask cs d in
    match o with
    | Ret (w, h) => (with_platform (run_callback (platform_config c) env (Created id h)) (with_object id w d), Ret (Some id))
    | Throw e => (d, Throw e)
    | Aborted => (d, Aborted)
    | Undef => (d, Undef)
    end.

(** The first live window with the SDL id, with its number. *)
Fixpoint find_live (window_id : Z) (l : list (Z * option host_window)) : option Z :=
  match l with
  | [] => None
  | (id, Some h) :: l' => if sdl_id h =? window_id then Some id else find_live window_id l'
  | (_, None) :: l' => find_live window_id l'
  end.
Definition window_of_event (window_id : Z) (d : desktop) : option Z :=
  find_live window_id (by_key (windows_ (plat d))).

Definition run_action (env : sdl) (d : desktop) (x : window_action) : desktop :=
  match x with
  | Notify k => with_platform (run_callback (platform_config c) env k) d
  | Ask k => ask [k] d
  end.
Definition run_actions (env : sdl) (xs : list window_action) (d : desktop) : desktop := foldl (run_action env) d xs.

(** The case [SDL_WINDOWEVENT] of [process_events]. *)
Definition deliver_window_event (env : sdl) (window_id : Z) (e : window_event) (d : desktop) : desktop :=
  match window_of_event window_id d with
  | None => d
  | Some id =>
      match objects d !! id with
      | None => d
      | Some w => let (w, xs) := process_window_event id e w in run_actions env xs (with_object id w d)
      end
  end.

Definition set_control (b : bool) (e : host_event) : host_event :=
  match e with
  | SdlMotion w x y xr yr _ => SdlMotion w x y xr yr b
  | SdlButton down w k x y _ => SdlButton down w k x y b
  | e => e
  end.
Definition of_mouse (e : host_event) : bool :=
  match e with SdlMotion _ _ _ _ _ _ | SdlButton _ _ _ _ _ _ => true | _ => false end.

(** The other cases: a window's buttons come first. [states] are the states
    of the windows by number. *)
Definition deliver_host_event (env : sdl) (states : Z -> window_facts) (e : host_event) (d : desktop) : desktop :=
  if of_mouse e then
    match window_of_event (event_window e) d with
    | None => with_platform (process_event (platform_config c) env (set_control false e)) d
    | Some id =>
        match objects d !! id with
        | None => d
        | Some w =>
            let '(w, control, xs) := process_window_control_event (states id) id e w in
            let d := run_actions env xs (with_object id w d) in
            if control then d else with_platform (process_event (platform_config c) env (set_control false e)) d
        end
    end
  else with_platform (process_event (platform_config c) env e) d.

(** The owner of a window lets it go. *)
Definition drop_window (env : sdl) (id : Z) (d : desktop) : desktop :=
  let cs := match objects d !! id with Some w => destroy_window w | None => [] end in
  let d := with_platform (run_callback (platform_config c) env (Expired id)) (ask cs d) in
  Desktop (plat d) (delete id (objects d)) (next_window_id_ d) (calls d).

(** SDL numbers its windows from 1; the counter of the windows is an [int],
    which must not overflow.  The steps are atomic: the source guards [windows_]
    and the focus by no lock, although windows are made on the threads of the
    RPC service while the event thread walks the map. *)
Inductive desktop_step : desktop -> desktop -> Prop :=
  | on_create env screen display_frame a task frame d :
      next_window_id_ d < 2 ^ 31 - 1 -> made a <> Some 0 ->
      desktop_step d (create_host_window env screen display_frame a task frame d).1
  | on_window_event env window_id e d : desktop_step d (deliver_window_event env window_id e d)
  | on_host_event env states e d : event_ok e -> desktop_step d (deliver_host_event env states e d)
  | on_drop env id d : desktop_step d (drop_window env id d)
  | on_dispatcher p d : background (plat d) p -> desktop_step d (with_platform (fun _ => p) d).
End desktop.

(** * Lemmas: the map of the platform *)

Section windows.
Context (cfg : config) (env : sdl).
Implicit Types (p : platform).

Lemma update_windows w p : windows_ (update_host_window env w p) = windows_ p.
Proof. unfold update_host_window. by case_match. Qed.
Lemma lock_windows b p : windows_ (set_pointer_locked env b p) = windows_ p.
Proof. unfold set_pointer_locked. by case_match. Qed.
Lemma released_windows p : windows_ (release_reboxed_input cfg env p) = windows_ p.
Proof. by destruct (release_reboxed_input_handled cfg env p) as (_ & -> & _). Qed.
Lemma event_windows e p : windows_ (process_event cfg env e p) = windows_ p.
Proof. by destruct (process_event_handled cfg env e p) as (_ & -> & _). Qed.

Definition with_frame (h : host_window) (f : rect) : host_window := HostWindow (sdl_id h) (native_handle h) f (w_task h).

(** What each callback does to the map. *)
Lemma callback_windows k p :
  windows_ (run_callback cfg env k p) =
    match k with
    | Created id h => match windows_ p !! id with Some _ => windows_ p | None => <[id := Some h]> (windows_ p) end
    | Deleted id => delete id (windows_ p)
    | Moved id x y =>
        match live id p with
        | Some h => if single_window cfg then windows_ p else <[id := Some (with_frame h (translate (w_frame h) x y))]> (windows_ p)
        | None => windows_ p
        end
    | Resized id w h =>
        match live id p with
        | Some win =>
            <[id := Some (with_frame win (resize (if single_window cfg then translate (w_frame win) 0 0 else w_frame win) w h))]> (windows_ p)
        | None => windows_ p
        end
    | Expired id => match windows_ p !! id with Some _ => <[id := None]> (windows_ p) | None => windows_ p end
    | _ => windows_ p
    end.
Proof.
  destruct k as [id h|id|id|id|id|id x y|id w h|id|id]; cbn [run_callback].
  - unfold create_window. rewrite update_windows. cbn. by destruct (windows_ p !! id).
  - unfold window_deleted. destruct (windows_ p !! id) as [[h|]|] eqn:E.
    + set (q := tell (RemoveTask _) _). assert (windows_ q = windows_ p) as Hq.
      { unfold q. cbn. destruct (_ =? _); by rewrite ?lock_windows, released_windows. }
      transitivity (delete id (windows_ q)); [by case_match|by rewrite Hq].
    + case_match; done.
    + symmetry. by apply delete_id.
  - unfold window_wants_focus. by destruct (live id p).
  - unfold window_lost_focus. destruct (live id p); [|done]. case_match; [|done]. cbn. by rewrite lock_windows, released_windows.
  - unfold window_hidden, invalidate_window_viewport.
    assert (forall q : platform, windows_ (match live id q with Some w => if sdl_id w =? focused_ q then with_focus 0 q else q | None => q end) = windows_ q) as Hf.
    { intros q. by repeat case_match. }
    rewrite Hf. case_match; rewrite ?lock_windows, released_windows; (destruct (live id p); [apply update_windows|done]).
  - unfold window_moved. destruct (live id p) as [h|]; [|done]. case_match; [apply update_windows|]. cbn. by rewrite update_windows.
  - unfold window_resized. by destruct (live id p).
  - unfold invalidate_window_viewport. destruct (live id p); [apply update_windows|done].
  - by destruct (windows_ p !! id).
Qed.
End windows.

(** * Lemmas: the windows of the desktop *)

(** A window that is not resizable has a frame of its fixed size. *)
Definition fixed_fit (w : sdl_window) (h : host_window) : Prop :=
  0 < fixed_width_ w -> 0 < fixed_height_ w ->
  width (w_frame h) = fixed_width_ w /\ height (w_frame h) = fixed_height_ w.
Definition belongs (w : sdl_window) (h : host_window) : Prop :=
  sdl_id h = window_ w /\ native_handle h = native_window_ w /\ fixed_fit w h.
Record desktop_inv (d : desktop) : Prop := {
  di_fresh : forall id, next_window_id_ d <= id -> windows_ (plat d) !! id = None /\ objects d !! id = None;
  di_live : forall id h, live id (plat d) = Some h -> exists w, objects d !! id = Some w /\ belongs w h;
  di_pressed : forall id w, objects d !! id = Some w ->
    pressed_window_control_ w <> ControlNone -> client_side_decorations_ w = true
}.

Lemma live_lookup id (p : platform) h : live id p = Some h <-> windows_ p !! id = Some (Some h).
Proof. unfold live. destruct (windows_ p !! id) as [[h'|]|]; cbn; split; congruence. Qed.

Lemma with_frame_belongs w h f :
  belongs w h -> (0 < fixed_width_ w -> 0 < fixed_height_ w -> width f = fixed_width_ w /\ height f = fixed_height_ w) ->
  belongs w (with_frame h f).
Proof. by intros (? & ? & _) Hf. Qed.

Section steps.
Context (c : window_config).

(** A callback that a window makes on its own behalf. *)
Definition own_callback (id : Z) (w : sdl_window) (k : callback) : Prop :=
  match k with
  | Created _ _ | Expired _ => False
  | Resized j x y => j = id /\ (0 < fixed_width_ w -> 0 < fixed_height_ w -> x = fixed_width_ w /\ y = fixed_height_ w)
  | _ => True
  end.

(** Such a callback takes windows away or gives them a new frame: of the
    same size, or of the one it tells. *)
Lemma own_callback_live env k id w p j h' :
  own_callback id w k -> live j (run_callback (platform_config c) env k p) = Some h' ->
  exists h f, live j p = Some h /\ h' = with_frame h f /\
    (width f = width (w_frame h) /\ height f = height (w_frame h) \/ k = Resized j (width f) (height f)).
Proof.
  intros Hk Hj. rewrite live_lookup, callback_windows in Hj.
  assert (windows_ p !! j = Some (Some h') -> exists h f, live j p = Some h /\ h' = with_frame h f /\
    (width f = width (w_frame h) /\ height f = height (w_frame h) \/ k = Resized j (width f) (height f))) as Hsame.
  { intros E. exists h', (w_frame h'). split; [by apply live_lookup|]. split; [by destruct h'|by left]. }
  destruct k as [i h|i|i|i|i|i x y|i x y|i|i]; try done; try by apply Hsame.
  - apply lookup_delete_Some in Hj as [_ Hj]. by apply Hsame.
  - destruct (live i p) as [h|] eqn:E; [|by apply Hsame]. destruct (single_window _); [by apply Hsame|].
    apply lookup_insert_Some in Hj as [[<- [= <-]]|[_ Hj]]; [|by apply Hsame].
    exists h, (translate (w_frame h) x y). split; [done|]. split; [done|]. left. cbn. unfold width, height. cbn. unfold width, height. lia.
  - destruct (live i p) as [h|] eqn:E; [|by apply Hsame].
    apply lookup_insert_Some in Hj as [[<- [= <-]]|[_ Hj]]; [|by apply Hsame].
    eexists h, _. split; [done|]. split; [done|]. right. f_equal; unfold width, height; cbn; lia.
Qed.
Lemma own_callback_none env k id w p j :
  own_callback id w k -> windows_ p !! j = None -> windows_ (run_callback (platform_config c) env k p) !! j = None.
Proof.
  intros Hk Hj. rewrite callback_windows. assert (live j p = None) as Hlj by (unfold live; by rewrite Hj).
  destruct k as [i h|i|i|i|i|i x y|i x y|i|i]; try done; [by apply lookup_delete_None; right| |];
    (destruct (decide (i = j)) as [->|]; [by rewrite Hlj|]); destruct (live i p); try done; try case_match; try done;
    by rewrite lookup_insert_ne.
Qed.

Lemma callback_inv env k id w d :
  desktop_inv d -> objects d !! id = Some w -> own_callback id w k ->
  desktop_inv (with_platform (run_callback (platform_config c) env k) d).
Proof.
  intros [Hf Hl Hp] Hw Hk. split; [|intros j h' Hj|exact Hp].
  - intros j Hj. destruct (Hf j Hj). split; [by eapply own_callback_none|done].
  - destruct (own_callback_live _ _ _ _ _ _ _ Hk Hj) as (h & f & Hh & -> & Hsize).
    destruct (Hl j h Hh) as (w' & Hw' & Hb). exists w'. split; [done|]. apply with_frame_belongs; [done|].
    intros H1 H2. destruct Hsize as [[-> ->]| ->]; [by apply Hb|]. destruct Hk as [-> Hk].
    cbn in *. assert (w' = w) as -> by congruence. by apply Hk.
Qed.

Definition own_action (id : Z) (w : sdl_window) (x : window_action) : Prop :=
  match x with Notify k => own_callback id w k | Ask _ => True end.

(** Between events the platform takes steps of Sdl.v, and the invariant
    holds. *)
Definition desktop_run (d d' : desktop) : Prop :=
  rtc (platform_step (platform_config c)) (plat d) (plat d') /\ desktop_inv d'.

Lemma run_actions_run env xs id w d :
  desktop_inv d -> objects d !! id = Some w -> Forall (own_action id w) xs ->
  desktop_run d (run_actions c env xs d).
Proof.
  intros Hi Hw Hx. revert d Hi Hw. induction Hx as [|x xs Hx _ IH]; intros d Hi Hw; [by split; [apply rtc_refl|]|].
  destruct x as [k|k].
  - destruct (IH (with_platform (run_callback (platform_config c) env k) d)) as [Hr Hi']; [by eapply callback_inv|done|].
    split; [|done]. eapply rtc_l; [|exact Hr]. apply (on_callback _ env k). by destruct k.
  - apply (IH (ask [k] d)); [by destruct Hi; split|done].
Qed.

(** What an event may do to a window's own state. *)
Definition same_window (w w' : sdl_window) : Prop :=
  window_ w' = window_ w /\ native_window_ w' = native_window_ w /\ fixed_width_ w' = fixed_width_ w /\
  fixed_height_ w' = fixed_height_ w /\ client_side_decorations_ w' = client_side_decorations_ w /\
  (pressed_window_control_ w' = ControlNone \/ pressed_window_control_ w' = pressed_window_control_ w \/
   client_side_decorations_ w = true).

Lemma with_object_inv id w w' d :
  desktop_inv d -> objects d !! id = Some w -> same_window w w' -> desktop_inv (with_object id w' d).
Proof.
  intros [Hf Hl Hp] Hw (E1 & E2 & E3 & E4 & E5 & E6). split.
  - intros j Hj. destruct (Hf j Hj) as [? Hn]. split; [done|]. cbn. rewrite lookup_insert_ne; [done|]. intros ->. congruence.
  - intros j h Hj. destruct (Hl j h Hj) as (w0 & Hw0 & Hb). cbn. destruct (decide (id = j)) as [->|].
    + exists w'. rewrite lookup_insert_eq. split; [done|]. assert (w0 = w) as -> by congruence.
      destruct Hb as (? & ? & Hb). split; [congruence|]. split; [congruence|]. unfold fixed_fit. by rewrite E3, E4.
    + exists w0. by rewrite lookup_insert_ne.
  - intros j w0 Hj Hn. cbn in Hj. apply lookup_insert_Some in Hj as [[<- <-]|[_ Hj]]; [|by eapply Hp].
    rewrite E5. destruct E6 as [E6|[E6|E6]]; [done| |done]. apply (Hp id w Hw). congruence.
Qed.

Lemma process_window_event_own id e w w' xs : process_window_event id e w = (w', xs) ->
  same_window w w' /\ Forall (own_action id w') xs.
Proof.
  destruct e; cbn; intros [= <- <-];
    (split; [split_and!; try done; auto|]); try (by repeat constructor); try (by constructor).
  destruct (_ && _) eqn:E; repeat constructor; cbn; intros; try done; lia.
Qed.

Lemma process_window_control_event_own s id e w w' b xs : process_window_control_event s id e w = (w', b, xs) ->
  same_window w w' /\ Forall (own_action id w') xs.
Proof.
  unfold process_window_control_event. destruct (client_side_decorations_ w) eqn:Ec; cbn.
  2: { intros [= <- <- <-]. split; [split_and!; auto|done]. }
  intros H. repeat case_match; simplify_eq; (split; [split_and!; auto|]); repeat constructor.
Qed.

Lemma platform_inv_windows f d : desktop_inv d -> windows_ (f (plat d)) = windows_ (plat d) -> desktop_inv (with_platform f d).
Proof.
  intros [Hf Hl Hp] Hw. split; [|intros id h Hh; apply Hl|exact Hp].
  - intros id Hid. cbn. rewrite Hw. by apply Hf.
  - rewrite live_lookup in *. cbn in Hh. by rewrite Hw in Hh.
Qed.

Lemma event_run env e d : desktop_inv d -> event_ok e ->
  desktop_run d (with_platform (process_event (platform_config c) env e) d).
Proof.
  intros Hi He. split; [by apply rtc_once, on_event|]. apply platform_inv_windows; [done|apply event_windows].
Qed.

Lemma desktop_run_trans d d' d'' : desktop_run d d' -> (desktop_inv d' -> desktop_run d' d'') -> desktop_run d d''.
Proof. intros [H1 Hi] H. destruct (H Hi) as [H2 ?]. split; [by etrans|done]. Qed.

Lemma window_event_run env window_id e d : desktop_inv d -> desktop_run d (deliver_window_event c env window_id e d).
Proof.
  intros Hi. unfold deliver_window_event. assert (desktop_run d d) by (by split).
  destruct (window_of_event window_id d) as [id|]; [|done]. destruct (objects d !! id) as [w|] eqn:Hw; [|done].
  destruct (process_window_event id e w) as [w' xs] eqn:E. destruct (process_window_event_own _ _ _ _ _ E) as [Hs Hx].
  apply (run_actions_run env xs id w' (with_object id w' d)); [by eapply with_object_inv|apply lookup_insert_eq|done].
Qed.

Lemma event_ok_control b e : event_ok e -> event_ok (set_control b e).
Proof. by destruct e. Qed.

Lemma host_event_run env states e d : desktop_inv d -> event_ok e -> desktop_run d (deliver_host_event c env states e d).
Proof.
  intros Hi He. unfold deliver_host_event. destruct (of_mouse e); [|by apply event_run].
  destruct (window_of_event (event_window e) d) as [id|]; [|by apply event_run, event_ok_control].
  destruct (objects d !! id) as [w|] eqn:Hw; [|by split].
  destruct (process_window_control_event (states id) id e w) as [[w' b] xs] eqn:E.
  destruct (process_window_control_event_own _ _ _ _ _ _ _ E) as [Hs Hx].
  eapply (desktop_run_trans _ (run_actions c env xs (with_object id w' d))).
  - apply (run_actions_run env xs id w' (with_object id w' d)); [by eapply with_object_inv|apply lookup_insert_eq|done].
  - intros Hi'. destruct b; [by split|]. by apply event_run, event_ok_control.
Qed.

Lemma new_window_spec a task frame resizable borderless cs w h :
  new_sdl_window c a task frame resizable borderless = (cs, Ret (w, h)) ->
  made a = Some (sdl_id h) /\ belongs w h /\ pressed_window_control_ w = ControlNone.
Proof.
  unfold new_sdl_window. intros H. repeat case_match; simplify_eq; try done.
  all: split; [done|]; split; [|done]; split; [done|]; split; [done|]; by intros ??; cbn in *.
Qed.

Lemma create_run env screen display_frame a task frame d :
  desktop_inv d -> made a <> Some 0 ->
  desktop_run d (create_host_window c env screen display_frame a task frame d).1.
Proof.
  intros Hi Ha. unfold create_host_window. set (d0 := if rootless c && _ then _ else d).
  assert (desktop_run d d0) as Hd0.
  { unfold d0. destruct (_ && _); [|by split]. split; [by apply rtc_once, on_video_init|].
    apply (platform_inv_windows (with_video false) (ask [VideoInit] d)); [by destruct Hi; split|done]. }
  clearbody d0. eapply desktop_run_trans; [exact Hd0|]. clear d Hi Hd0. intros Hi. set (f := if single_window _ then _ else _).
  destruct (_ && _); [by split|]. unfold next_window_id.
  destruct (new_sdl_window _ _ _ _ _ _) as [cs [[w h]| | |]] eqn:E; try (by destruct Hi as [Hf Hl Hp]; split;
    [apply rtc_refl|split; [intros id Hid; apply Hf; cbn in Hid; lia|exact Hl|exact Hp]]).
  destruct (new_window_spec _ _ _ _ _ _ _ _ E) as (Hm & Hb & Hn). destruct Hi as [Hf Hl Hp].
  set (id := next_window_id_ d0). destruct (Hf id) as [Hf1 Hf2]; [done|].
  split; [cbn; apply rtc_once, (on_callback _ env (Created id h)); cbn; congruence|].
  split; cbn -[run_callback]; rewrite ?callback_windows.
  - intros j Hj. assert (id <> j) as Hne by lia. rewrite Hf1, !lookup_insert_ne by done. apply Hf. lia.
  - intros j h' Hj. rewrite live_lookup, callback_windows, Hf1 in Hj.
    apply lookup_insert_Some in Hj as [[<- [= <-]]|[Hne Hj]]; [exists w; by rewrite lookup_insert_eq|].
    rewrite lookup_insert_ne by done. apply Hl. by apply live_lookup.
  - intros j w' Hj. apply lookup_insert_Some in Hj as [[<- <-]|[_ Hj]]; [done|by eapply Hp].
Qed.

Lemma drop_run env id d : desktop_inv d -> desktop_run d (drop_window c env id d).
Proof.
  intros [Hf Hl Hp]. split; [cbn; by apply rtc_once, (on_callback _ env (Expired id))|].
  split; cbn -[run_callback]; rewrite ?callback_windows.
  - intros j Hj. destruct (Hf j Hj) as [H1 H2]. split; [|apply lookup_delete_None; by right].
    destruct (windows_ (plat d) !! id) eqn:E; [|done]. apply lookup_insert_None. split; [done|congruence].
  - intros j h Hj. rewrite live_lookup, callback_windows in Hj. destruct (decide (id = j)) as [->|Hne].
    + destruct (windows_ (plat d) !! j) eqn:E; [by rewrite lookup_insert_eq in Hj|congruence].
    + rewrite lookup_delete_ne by done. apply Hl, live_lookup.
      destruct (windows_ (plat d) !! id); [by rewrite lookup_insert_ne in Hj|done].
  - intros j w Hj. apply lookup_delete_Some in Hj as [_ Hj]. by eapply Hp.
Qed.

Lemma desktop_step_run d d' : desktop_inv d -> desktop_step c d d' -> desktop_run d d'.
Proof.
  intros Hi Hs. destruct Hs as [env screen df a task frame d Hn Ha|env id e d|env st e d He|env id d|p d Hb].
  - by apply create_run.
  - by apply window_event_run.
  - by apply host_event_run.
  - by apply drop_run.
  - split; [by apply rtc_once, on_background|]. apply platform_inv_windows; [done|]. by destruct Hb.
Qed.
End steps.

(** * Theorems *)

(** C15: Every run of the desktop (windows placed and made, their events and
    buttons, the other host events, windows dropped, the dispatcher beside
    them) is a run of the platform of Sdl.v, so that all that is proved there
    holds; behind every live window stands its object with the same SDL id and
    native handle; a window that is not resizable always has a frame of the
    size it was made with, whatever sizes its events tell; and only windows
    with buttons of their own ever have one pressed. *)
Theorem desktop_windows c i d :
  rtc (desktop_step c) (desktop_init i) d ->
  rtc (platform_step (platform_config c)) (platform_init i) (plat d) /\
  (forall id h, live id (plat d) = Some h -> exists w, objects d !! id = Some w /\ belongs w h) /\
  (forall id w, objects d !! id = Some w ->
     pressed_window_control_ w <> ControlNone -> client_side_decorations_ w = true).
Proof.
  intros Hd. enough (desktop_run c (desktop_init i) d) as [? [_ ??]] by done.
  revert d Hd. apply (rtc_ind_r (desktop_run c (desktop_init i))).
  - split; [apply rtc_refl|]. by split.
  - intros d d' _ Hs Hd. eapply desktop_run_trans; [exact Hd|]. intros Hi. by eapply desktop_step_run.
Qed.

(** The events of a mouse whose button goes down on a window's button, moves
    and goes up. *)
Definition deliver_all (c : window_config) (env : sdl) (l : list ((Z -> window_facts) * host_event)) (d : desktop) : desktop :=
  foldl (fun d e => deliver_host_event c env e.1 e.2 d) d l.
Definition motion_on (window_id : Z) (e : host_event) : Prop :=
  match e with SdlMotion w _ _ _ _ _ => w = window_id | _ => False end.

Section click.
Context (c : window_config) (env : sdl).

Lemma deliver_control states e d id w w' xs :
  of_mouse e = true -> window_of_event (event_window e) d = Some id -> objects d !! id = Some w ->
  process_window_control_event (states id) id e w = (w', true, xs) ->
  deliver_host_event c env states e d = run_actions c env xs (with_object id w' d).
Proof. intros Hm He Hw Hp. unfold deliver_host_event. by rewrite Hm, He, Hw, Hp. Qed.

Lemma press_again k w : pressed_window_control_ w = k -> with_pressed k w = w.
Proof. intros <-. by destruct w. Qed.

Lemma hold_control id w l d :
  window_of_event (window_ w) d = Some id -> objects d !! id = Some w -> client_side_decorations_ w = true ->
  pressed_window_control_ w <> ControlNone -> Forall (fun e => motion_on (window_ w) e.2) l -> deliver_all c env l d = d.
Proof.
  intros He Hw Hc Hp Hl. induction Hl as [|[st e] l Hm _ IH]; [done|]. cbn in Hm |- *.
  destruct e as [| |window_id x y xr yr k| | |]; try done. cbn in Hm. subst window_id.
  erewrite deliver_control; [|done|exact He|exact Hw|].
  2: { unfold process_window_control_event. rewrite Hc. cbn. rewrite bool_decide_false, Z.eqb_refl by done. reflexivity. }
  cbn. replace (with_object id w d) with d; [exact IH|]. destruct d. unfold with_object. cbn in *. f_equal. by rewrite insert_id.
Qed.

(** The left button goes down on one of a window's own buttons, the pointer
    moves, the button goes up: if it is still on the same one, the platform is
    told to close the window, or SDL is asked to maximise or restore it; if
    not, nothing happens. Either way no part of the click reaches the input
    of the guest. *)
Theorem control_click id w s1 x1 y1 k1 l s2 x2 y2 k2 d :
  window_of_event (window_ w) d = Some id -> objects d !! id = Some w -> client_side_decorations_ w = true ->
  window_control_at (s1 id) x1 y1 <> ControlNone -> Forall (fun e => motion_on (window_ w) e.2) l ->
  let control := window_control_at (s1 id) x1 y1 in
  let d' := deliver_all c env ((s1, SdlButton true (window_ w) ButtonLeft x1 y1 k1) :: l ++
                               [(s2, SdlButton false (window_ w) ButtonLeft x2 y2 k2)]) d in
  let same := bool_decide (window_control_at (s2 id) x2 y2 = control) in
  objects d' = <[id := with_pressed ControlNone w]> (objects d) /\
  plat d' = (if same && bool_decide (control = ControlClose)
             then run_callback (platform_config c) env (Deleted id) (plat d) else plat d) /\
  calls d' = calls d ++ (if same && bool_decide (control = ControlMaximize)
                         then [if maximized (s2 id) then RestoreWindow (window_ w) else MaximizeWindow (window_ w)] else []).
Proof.
  intros He Hw Hc Hn Hl control d' same. unfold d', deliver_all. cbn [foldl fst snd].
  erewrite deliver_control; [|done|exact He|exact Hw|].
  2: { unfold process_window_control_event. rewrite Hc, Z.eqb_refl. cbn. fold control. rewrite bool_decide_false by done. reflexivity. }
  cbn [run_actions foldl]. set (w1 := with_pressed control w). set (d1 := with_object id w1 d).
  assert (He1 : window_of_event (window_ w1) d1 = Some id) by exact He.
  assert (Hw1 : objects d1 !! id = Some w1) by apply lookup_insert_eq.
  rewrite foldl_app. fold (deliver_all c env l d1). rewrite (hold_control id w1 l d1) by done.
  cbn [foldl fst snd]. erewrite deliver_control; [|done|exact He1|exact Hw1|].
  2: { unfold process_window_control_event. cbn [client_side_decorations_ w1 with_pressed]. rewrite Hc, Z.eqb_refl. cbn.
       rewrite bool_decide_false by done. reflexivity. }
  replace same with (bool_decide (control = window_control_at (s2 id) x2 y2)) by (apply bool_decide_ext; split; congruence).
  destruct (bool_decide (control = _)) eqn:E; cbn.
  - destruct control eqn:Ek; try done; cbn; rewrite ?app_nil_r, insert_insert_eq; done.
  - by rewrite insert_insert_eq, app_nil_r.
Qed.
End click.

(** * Where a window is grabbed *)

Ltac compare_all :=
  repeat (match goal with
          | |- context [?a <? ?b] => destruct (Z.ltb_spec a b)
          | |- context [?a <=? ?b] => destruct (Z.leb_spec a b)
          | |- context [?a =? ?b] => destruct (Z.eqb_spec a b)
          end; cbn [andb orb negb]; try lia).

(** Densities for which the borders are a pixel and more, and no overflow
    occurs. *)
Definition plain_density (s : window_facts) : Prop := 160 <= density s < 2 ^ 24.

Lemma dp_to_pixel_plain s dp : plain_density s -> 0 <= dp <= 42 -> dp_to_pixel (density s) dp = dp * density s / 160.
Proof.
  intros Hd Hdp. unfold plain_density in Hd. unfold dp_to_pixel, DensityType_medium, u32.
  rewrite (Z.mod_small dp), (Z.mod_small (density s)), Z.mod_small by nia.
  apply i32_id. assert (0 <= dp * density s / 160 <= 4500000); [|unfold in_i32; lia].
  split; [apply Z.div_pos; nia|]. apply Z.div_le_upper_bound; nia.
Qed.
Lemma border_below_drag s : plain_density s -> 0 < border_size s < drag_height s.
Proof.
  intros Hd. unfold border_size, drag_height, window_resize_border, top_drag_area. rewrite !dp_to_pixel_plain by (done || lia).
  unfold plain_density in Hd. split; [apply Z.div_str_pos; lia|].
  apply Z.lt_le_trans with (10 * density s / 160 + 1); [lia|]. rewrite <- Z.div_add by done. apply Z.div_le_mono; lia.
Qed.

Inductive column := LeftEdge | RightEdge | Between | OnLine.
Definition column_of (border size v : Z) : column :=
  if v <? border then LeftEdge else if v =? border then OnLine
  else if v <? size - border then Between else if v =? size - border then OnLine else RightEdge.

(** The edges of a resizable window: its title bar is dragged, but for its two
    buttons; under it, each edge and lower corner resizes. The upper edge
    never does: the title bar covers it. The lines on which one region ends
    belong to none, and the first column of each button is dragged. *)
Theorem title_bar s x y :
  plain_density s -> resizable_ s = true -> fullscreen s = false -> 2 * border_size s < (size_ s).1 ->
  0 <= x < (size_ s).1 -> 0 <= y < (size_ s).2 ->
  (y < drag_height s ->
     (window_control_at s x y <> ControlNone <-> (size_ s).1 - button_area s * 2 <= x) /\
     on_window_hit s x y =
       if bool_decide (window_control_at s x y = ControlNone) || (x =? (size_ s).1 - button_area s) ||
          (x =? (size_ s).1 - button_area s * 2)
       then HITTEST_DRAGGABLE else HITTEST_NORMAL) /\
  (drag_height s <= y ->
     window_control_at s x y = ControlNone /\
     on_window_hit s x y =
       if maximized s then HITTEST_NORMAL
       else match column_of (border_size s) (size_ s).1 x,
                  (if y <? (size_ s).2 - border_size s then Between
                   else if y =? (size_ s).2 - border_size s then OnLine else RightEdge) with
            | LeftEdge, Between => HITTEST_RESIZE_LEFT
            | LeftEdge, RightEdge => HITTEST_RESIZE_BOTTOMLEFT
            | Between, RightEdge => HITTEST_RESIZE_BOTTOM
            | RightEdge, RightEdge => HITTEST_RESIZE_BOTTOMRIGHT
            | RightEdge, Between => HITTEST_RESIZE_RIGHT
            | _, _ => HITTEST_NORMAL
            end).
Proof.
  intros Hd Hr Hf Hw Hx Hy. pose proof (border_below_drag s Hd) as Hb.
  assert (Ha : 0 < button_area s).
  { unfold button_area, button_size, button_padding, button_margin. cbn. rewrite dp_to_pixel_plain by (done || lia).
    unfold plain_density in Hd. apply Z.div_str_pos. lia. }
  unfold on_window_hit, window_control_at, column_of. destruct (size_ s) as [w h]. cbn [fst snd] in *. rewrite Hr, Hf. cbn [negb].
  revert Ha Hb Hw. generalize (button_area s) as a, (border_size s) as b, (drag_height s) as t. intros a b t Ha Hb Hw.
  split; intros Ht.
  - split; [split|]; compare_all; try done; try lia.
  - split; [|destruct (maximized s); [|clear Ha]]; compare_all; done.
Qed.

(** * The place of a new window *)

Definition encloses (outer inner : rect) : Prop :=
  left_ outer <= left_ inner /\ top_ outer <= top_ inner /\ right_ inner <= right_ outer /\ bottom_ inner <= bottom_ outer.

Lemma rect_eqb_false a b : rect_eqb a b = false <-> a <> b.
Proof. rewrite <- not_true_iff_false, rect_eqb_eq. done. Qed.

Lemma intersect_inside a b : intersect_rect a b <> Invalid ->
  encloses a (intersect_rect a b) /\ encloses b (intersect_rect a b) /\
  0 < width (intersect_rect a b) /\ 0 < height (intersect_rect a b).
Proof.
  unfold intersect_rect. destruct (_ || _); [done|]. set (r := Rect _ _ _ _).
  destruct (width r <=? 0) eqn:E1; [done|]. destruct (height r <=? 0) eqn:E2; [done|]. intros _. cbn.
  bdestruct_all. unfold encloses, r. cbn. split_and!; try lia; by apply Z.gt_lt, Z.lt_gt.
Qed.

Lemma display_at_spec l i x y n : display_at i l x y = Some n ->
  exists b, i <= n /\ l !! Z.to_nat (n - i) = Some (Some b) /\ left_ b <= x < right_ b /\ top_ b <= y < bottom_ b.
Proof.
  revert i; induction l as [|[b|] l IH]; intros i H; cbn in H; [done| |].
  - destruct (_ && _) eqn:E.
    + simplify_eq. bdestruct_all. exists b. rewrite Z.sub_diag. split_and!; try done; lia.
    + destruct (IH _ H) as (b' & ? & ? & ?). exists b'. split; [lia|].
      replace (Z.to_nat (n - i)) with (S (Z.to_nat (n - (i + 1)))) by lia. done.
  - destruct (IH _ H) as (b' & ? & ? & ?). exists b'. split; [lia|].
    replace (Z.to_nat (n - i)) with (S (Z.to_nat (n - (i + 1)))) by lia. done.
Qed.

(** The work area is part of the monitor under the pointer, and of the X
    screen if there is one in sight, when the usable bounds are. *)
Theorem work_area_on_monitor screen fallback b n :
  display_at 0 (bounds_ screen) (pointer_at screen).1 (pointer_at screen).2 = Some n ->
  bounds_ screen !! Z.to_nat n = Some (Some b) -> usable b = true ->
  (forall u, usable_bounds_of screen n = Some u -> encloses b u) ->
  let area := area (initial_display_work_area screen fallback) in
  encloses b area /\ usable area = true.
Proof.
  intros Hn Hb Hu Hin. unfold initial_display_work_area. rewrite Hn. change (default 0 (Some n)) with n. rewrite Hb. cbn [mjoin option_join].
  set (m := if rect_eqb (intersect_rect b (root_bounds screen)) Invalid then _ else _).
  assert (Hm : encloses b m /\ usable m = true).
  { unfold m. destruct (rect_eqb _ _) eqn:E; [by split; [unfold encloses; lia|]|].
    pose proof E as E'. apply rect_eqb_false in E'. destruct (intersect_inside _ _ E') as (? & _ & ? & ?).
    split; [done|]. unfold usable. rewrite E. bdestruct_all. cbn.
    by rewrite !(proj2 (Z.ltb_lt _ _)) by done. }
  clearbody m. unfold select_window_work_area.
  destruct (usable_bounds_of screen n) as [u|] eqn:Eu; [|exact Hm]. specialize (Hin u eq_refl).
  destruct (_ && _); [|exact Hm]. cbn. set (ua := if rect_eqb (root_bounds screen) Invalid then u else _).
  destruct (usable ua) eqn:Ea; [|exact Hm]. split; [|done]. unfold ua in *.
  destruct (rect_eqb (root_bounds screen) Invalid); [done|].
  assert (Hne : intersect_rect u (root_bounds screen) <> Invalid) by (intros Heq; by rewrite Heq in Ea).
  destruct (intersect_inside _ _ Hne) as (Hc & _). unfold encloses in *. lia.
Qed.

(** * Witnesses *)

Definition fixed_config : window_config := WindowConfig reboxed_cfg false true false true false.
Definition a_creation : creation := Creation (Some 7) true (Some 1).
Definition no_displays : displays := Displays [] (0, 0) Invalid (fun _ => None).
Definition a_state : window_facts := WindowState (400, 300) false true false 160.
(** A window of a fixed size is made, another client resizes it, and its close
    button is clicked. *)
Definition made_desktop : desktop :=
  (create_host_window fixed_config an_env no_displays Invalid a_creation 3 (Rect 0 0 400 300) (desktop_init an_input)).1.
Definition resized_desktop : desktop := deliver_window_event fixed_config an_env 7 (SizeChanged 50 60) made_desktop.
Definition close_click : list ((Z -> window_facts) * host_event) :=
  [(fun _ => a_state, SdlButton true 7 ButtonLeft 380 10 false); (fun _ => a_state, SdlMotion 7 381 11 1 1 false);
   (fun _ => a_state, SdlButton false 7 ButtonLeft 381 11 false)].

Lemma desktop_windows_witness :
  calls resized_desktop = calls made_desktop ++ [SetWindowSize 7 400 300] /\
  exists w, objects resized_desktop !! 0 = Some w /\ fixed_width_ w = 400 /\
    belongs w (HostWindow 7 1 (Rect 0 0 400 300) 3).
Proof.
  assert (H : rtc (desktop_step fixed_config) (desktop_init an_input) resized_desktop).
  { eapply rtc_l; [apply (on_create fixed_config an_env no_displays Invalid a_creation 3 (Rect 0 0 400 300)); done|].
    eapply rtc_l; [apply (on_window_event fixed_config an_env 7 (SizeChanged 50 60))|apply rtc_refl]. }
  split; [by vm_compute|].
  destruct (desktop_windows fixed_config an_input resized_desktop H) as (_ & Hw & _).
  destruct (Hw 0 (HostWindow 7 1 (Rect 0 0 400 300) 3)) as (w & Ho & Hb); [by vm_compute|].
  exists w. split; [exact Ho|]. split; [|exact Hb].
  assert (Hc : objects resized_desktop !! 0 = Some (Window 7 1 400 300 true ControlNone)) by (by vm_compute).
  rewrite Hc in Ho. by injection Ho as <-.
Defined.

Lemma control_click_witness :
  plat (deliver_all fixed_config an_env close_click resized_desktop) =
    run_callback reboxed_cfg an_env (Deleted 0) (plat resized_desktop) /\
  windows_ (plat (deliver_all fixed_config an_env close_click resized_desktop)) = ∅.
Proof.
  assert (plat (deliver_all fixed_config an_env close_click resized_desktop) =
    run_callback reboxed_cfg an_env (Deleted 0) (plat resized_desktop)) as H.
  { apply (control_click fixed_config an_env 0 (Window 7 1 400 300 true ControlNone) (fun _ => a_state) 380 10 false
      [(fun _ => a_state, SdlMotion 7 381 11 1 1 false)] (fun _ => a_state) 381 11 false resized_desktop);
      [by vm_compute|by vm_compute|done|by vm_compute|by repeat constructor]. }
  split; [exact H|]. rewrite H. by vm_compute.
Defined.

Lemma title_bar_witness :
  on_window_hit a_state 380 10 = HITTEST_NORMAL /\ on_window_hit a_state 5 295 = HITTEST_RESIZE_BOTTOMLEFT.
Proof.
  assert (Hd : plain_density a_state) by (split; [by vm_compute|by vm_compute]).
  destruct (title_bar a_state 380 10 Hd eq_refl eq_refl) as [H1 _]; [by vm_compute|by vm_compute|by vm_compute|].
  destruct (title_bar a_state 5 295 Hd eq_refl eq_refl) as [_ H2]; [by vm_compute|by vm_compute|by vm_compute|].
  destruct (H1 ltac:(by vm_compute)) as [_ ->]. destruct (H2 ltac:(by vm_compute)) as [_ ->]. split; by vm_compute.
Defined.

(** A window whose hit test or subsystem is refused: the constructor throws
    and SDL's window stays. *)
Lemma window_left_behind :
  let r := new_sdl_window fixed_config (Creation (Some 7) true None) 3 (Rect 0 0 400 300) true true in
  r.2 = Throw RuntimeError /\ CreateWindow (Rect 0 0 400 300) true true ∈ r.1 /\ DestroyWindow 7 ∉ r.1.
Proof. split; [done|]. split; [left|]. cbn. intros H. repeat (apply elem_of_cons in H as [H|H]; [done|]). by apply elem_of_nil in H. Qed.

(** The first column of the close button is a button, but SDL drags it. *)
Lemma dragged_button : window_control_at a_state 358 10 = ControlClose /\ on_window_hit a_state 358 10 = HITTEST_DRAGGABLE.
Proof. by vm_compute. Qed.
