(* ===== verification/Gfxstream.v ===== *)
(** The modern graphics path: the life of the gfxstream backend and its frames
    (graphics/gfxstream_backend.cpp), and a guest's stream through it
    (graphics/gfxstream_message_processor.cpp).  The gfxstream library and its
    render channels are outside: their answers are arguments, the calls made
    to them are recorded.  The frames go to the renderer of Viewport.v, the
    color buffers and processes are those of the pipes in Pipe.v. *)

From S2P Require Import Prelude BufferedIOStream Renderer Viewport Network Pipe.

Local Open Scope Z_scope.

(** * The backend *)

(** Calls of the library. *)
Inductive lib_call :=
  | LibInit (w h : Z) (vulkan : bool)
  | LibManagedLifetime
  | LibPostCallback (set : bool)
  | LibTeardown
  | LibCreateChannel
  | LibOpenColorBuffer (h : Z)
  | LibCloseColorBuffer (h : Z)
  | LibCreateProcess (id : Z)
  | LibCleanupProcess (id : Z).

(** What the library answers to the constructor: whether it could be
    initialised, whether it lets the guest manage the lifetime of color
    buffers, its strings, asynchronous readback, and its read-pixels function,
    which gives the bytes of a frame. *)
Record library := Library {
  init_ok : bool;
  lifetime_hook : bool;
  vendor : option bytes;
  renderer_name : option bytes;
  version : option bytes;
  async_readback : bool;
  read_pixels : option (Z -> bytes)
}.

Record backend := Backend {
  initialized_ : bool;
  vulkan_enabled_ : bool;
  async_readback_ : bool;
  read_pixels_ : option (Z -> bytes);
  gl_vendor_ : bytes;
  gl_renderer_ : bytes;
  gl_version_ : bytes
}.

(** The renderer the frames go to, and the calls of the library. *)
Record graphics := Graphics { presentation_renderer_ : host; lib_calls : list lib_call }.
Definition library_call (k : lib_call) : M graphics unit :=
  modify (fun s => Graphics (presentation_renderer_ s) (lib_calls s ++ [k])).
Definition on_presentation {A} (c : M host A) : M graphics A := fun s =>
  let (h, o) := c (presentation_renderer_ s) in (Graphics h (lib_calls s), o).

(** [compiled_in]: without the library the constructor only throws. *)
Definition GfxstreamBackend (compiled_in : bool) (lib : library) (w h : Z) (require_vulkan : bool) : M graphics backend :=
  if negb compiled_in then throw RuntimeError
  else
    library_call (LibInit w h require_vulkan) ≫= fun _ =>
    if negb (init_ok lib) then throw RuntimeError
    else if lifetime_hook lib then
      library_call LibManagedLifetime ≫= fun _ =>
      if async_readback lib && negb (bool_decide (is_Some (read_pixels lib))) then
        library_call LibTeardown ≫= fun _ => throw RuntimeError
      else
        on_presentation (enableExternalFrameSource w h) ≫= fun _ =>
        library_call (LibPostCallback true) ≫= fun _ =>
        mret (Backend true require_vulkan (async_readback lib)
                (if async_readback lib then read_pixels lib else None)
                (default [] (vendor lib)) (default [] (renderer_name lib)) (default [] (version lib)))
    else library_call LibTeardown ≫= fun _ => throw RuntimeError.

Definition destroy_backend (b : backend) : M graphics unit :=
  if negb (initialized_ b) then mret tt
  else
    library_call (LibPostCallback false) ≫= fun _ =>
    on_presentation disableExternalFrameSource ≫= fun _ =>
    library_call LibTeardown.

(** [present]: whether the library has a renderer with the function called. *)
Definition create_render_channel (present : bool) : M graphics bool :=
  if present then library_call LibCreateChannel ≫= fun _ => mret true else mret false.
Definition open_color_buffer (present : bool) (h : Z) : M graphics unit :=
  if present then library_call (LibOpenColorBuffer h) else mret tt.
Definition close_color_buffer (present : bool) (h : Z) : M graphics unit :=
  if present then library_call (LibCloseColorBuffer h) else mret tt.
Definition create_process (present : bool) (id : Z) : M graphics unit :=
  if present then library_call (LibCreateProcess id) else mret tt.
Definition cleanup_process (present : bool) (id : Z) : M graphics unit :=
  if present then library_call (LibCleanupProcess id) else mret tt.

(** [post_frame] of the backend [b]; [memory] is what is at the library's
    pointer, or null. With asynchronous readback the library's function first
    fills its beginning. *)
Definition post_frame (b : option backend) (display_id w h y_direction format type : Z) (memory : option bytes)
    : M graphics unit :=
  match b, memory with
  | Some b, Some pixels =>
      if negb (display_id =? 0) || (w <=? 0) || (h <=? 0) then mret tt
      else
        let size := u64 (u64 (w * h) * 4) in
        if (max_frame_bytes <? size) || (2 ^ 32 - 1 <? size) then mret tt
        else
          match (if async_readback_ b then
                   match read_pixels_ b with
                   | Some f => if (length pixels <? Z.to_nat size)%nat then Undef
                               else Ret (f size ++ drop (length (f size)) pixels)
                   | None => Undef
                   end
                 else Ret pixels) with
          | Ret pixels => on_presentation (postExternalFrame w h y_direction format type (Some pixels))
          | Throw e => throw e | Aborted => lift Aborted | Undef => lift Undef
          end
  | _, _ => mret tt
  end.

(** What the processors of the pipes ask of the backend. *)
Definition run_pipe_event (e : Pipe.event) : M graphics unit :=
  match e with
  | OpenColorBuffer h => open_color_buffer true h
  | CloseColorBuffer h => close_color_buffer true h
  | CreateProcess id => create_process true id
  | CleanupProcess id => cleanup_process true id
  | Reply _ | RendererClose _ => mret tt
  end.
Definition run_pipe_events (es : list Pipe.event) : M graphics unit := for_each run_pipe_event es.

(** * A guest's stream *)

(** The response thread: at the head of its loop, waiting for the channel,
    about to read it, before the test of the loop that sends the buffer from an
    offset, in a call that sends it, or ended. *)
Inductive response_thread :=
  | ThreadLoop | ThreadWaiting | ThreadReading
  | ThreadTesting (incoming : bytes) (offset : nat) | ThreadSending (incoming : bytes) (offset : nat)
  | ThreadEnded.

(** [outgoing]: the buffers the channel took; [fetched]: the buffers read from
    it; [wire]: what was sent; [channel_stopped]: [channel_->stop()] was called. *)
Record gfx_stream := GfxStream {
  stopping_ : bool;
  thread : response_thread;
  outgoing : list bytes;
  fetched : list bytes;
  wire : bytes;
  channel_stopped : bool
}.
Definition set_thread (t : response_thread) (s : gfx_stream) : gfx_stream :=
  GfxStream (stopping_ s) t (outgoing s) (fetched s) (wire s) (channel_stopped s).

(** The constructor: a channel, or an exception. *)
Definition GfxstreamMessageProcessor (present : bool) : M graphics gfx_stream :=
  channel ← create_render_channel present;
  if (channel : bool) then mret (GfxStream false ThreadLoop [] [] [] false) else throw RuntimeError.

(** The answers of the channel's [tryWrite]; a buffer that is not taken stays
    with the caller. None: still in [waitUntilWritable]. *)
Inductive io_result := IoOk | IoTryAgain | IoError.
Fixpoint gfx_process_data (data : bytes) (answers : list io_result) (s : gfx_stream) : option (gfx_stream * bool) :=
  match answers with
  | [] => None
  | IoOk :: _ =>
      Some (GfxStream (stopping_ s) (thread s) (outgoing s ++ [data]) (fetched s) (wire s) (channel_stopped s), true)
  | IoError :: _ => Some (s, false)
  | IoTryAgain :: answers => gfx_process_data data answers s
  end.

(** What the channel and the socket answer to the response thread. *)
Inductive channel_answer :=
  | Nothing                        (* a test of the thread's own *)
  | ChannelReadable                (* [waitUntilReadable] returns *)
  | TryRead (r : io_result) (incoming : bytes)
  | SendRaw (r : send_result).

(** One step of [drain_responses]: a test of [stopping_] and a call are steps of
    their own, since the destructor runs on another thread. *)
Definition drain_step (a : channel_answer) (s : gfx_stream) : option gfx_stream :=
  match thread s, a with
  | ThreadLoop, Nothing => Some (set_thread (if stopping_ s then ThreadEnded else ThreadWaiting) s)
  | ThreadWaiting, ChannelReadable => Some (set_thread (if stopping_ s then ThreadEnded else ThreadReading) s)
  | ThreadReading, TryRead IoTryAgain _ => Some (set_thread ThreadLoop s)
  | ThreadReading, TryRead IoError _ => Some (set_thread ThreadEnded s)
  | ThreadReading, TryRead IoOk incoming =>
      Some (GfxStream (stopping_ s) (ThreadTesting incoming 0) (outgoing s) (fetched s ++ [incoming]) (wire s)
              (channel_stopped s))
  | ThreadTesting incoming offset, Nothing =>
      Some (set_thread (if (offset <? length incoming)%nat && negb (stopping_ s) then ThreadSending incoming offset
                        else ThreadReading) s)
  | ThreadSending incoming offset, SendRaw r =>
      match r with
      | Sent (S n) =>
          let written := (S n `min` (length incoming - offset))%nat in
          Some (GfxStream (stopping_ s) (ThreadTesting incoming (offset + written)) (outgoing s) (fetched s)
                  (wire s ++ take written (drop offset incoming)) (channel_stopped s))
      | Failed e =>
          if (e =? EINTR) || (e =? BufferQueue.EAGAIN) then Some (set_thread (ThreadTesting incoming offset) s)
          else Some (GfxStream (stopping_ s) ThreadEnded (outgoing s) (fetched s) (wire s) true)
      | Sent 0 => Some (GfxStream (stopping_ s) ThreadEnded (outgoing s) (fetched s) (wire s) true)
      end
  | _, _ => None
  end.

(** [~GfxstreamMessageProcessor], up to the join of the thread: first
    [stopping_], then the channel. *)
Definition set_stopping (s : gfx_stream) : gfx_stream :=
  GfxStream true (thread s) (outgoing s) (fetched s) (wire s) (channel_stopped s).
Definition stop_channel (s : gfx_stream) : gfx_stream :=
  GfxStream (stopping_ s) (thread s) (outgoing s) (fetched s) (wire s) true.
Definition destroy_stream (s : gfx_stream) : gfx_stream := stop_channel (set_stopping s).

Inductive gfx_step : gfx_stream -> gfx_stream -> Prop :=
  | on_data data answers s s' b : stopping_ s = false -> gfx_process_data data answers s = Some (s', b) -> gfx_step s s'
  | on_response a s s' : drain_step a s = Some s' -> gfx_step s s'
  | on_destroy s : gfx_step s (set_stopping s)
  | on_stop_channel s : stopping_ s = true -> gfx_step s (stop_channel s).

Definition gfx_init : gfx_stream := GfxStream false ThreadLoop [] [] [] false.

(** * Lemmas: the stream *)

(** What the thread has still to send of the buffers it read. *)
Definition unsent (s : gfx_stream) : bytes :=
  match thread s with ThreadTesting incoming offset | ThreadSending incoming offset => drop offset incoming | _ => [] end.
Definition in_send (s : gfx_stream) : bool := match thread s with ThreadSending _ _ => true | _ => false end.
Record stream_inv (s : gfx_stream) : Prop := {
  si_prefix : exists rest, concat (fetched s) = wire s ++ rest;
  si_exact : in_send s = true \/ stopping_ s = false /\ channel_stopped s = false ->
    concat (fetched s) = wire s ++ unsent s;
  si_ended : channel_stopped s = true -> stopping_ s = true \/ thread s = ThreadEnded
}.

Lemma gfx_process_data_spec data answers s s' b : gfx_process_data data answers s = Some (s', b) ->
  s' = GfxStream (stopping_ s) (thread s) (outgoing s ++ if b then [data] else []) (fetched s) (wire s) (channel_stopped s).
Proof.
  induction answers as [|[] answers IH]; cbn; intros H; simplify_eq; [done|by apply IH|]. rewrite app_nil_r. by destruct s'.
Qed.

(** The thread moves on, and may leave what is unsent behind once it is told to
    stop. *)
Lemma set_thread_inv t s : stream_inv s -> thread s <> ThreadEnded ->
  unsent (set_thread t s) = unsent s \/ stopping_ s = true ->
  (in_send (set_thread t s) = true -> stopping_ s = false) -> stream_inv (set_thread t s).
Proof.
  intros [Hp He Hn] Ht Hu Hsend. split; [exact Hp| |].
  - intros H. assert (Hc : in_send s = true \/ stopping_ s = false /\ channel_stopped s = false).
    { destruct H as [H|H]; [|by right]. right. split; [by apply Hsend|]. pose proof (Hsend H).
      destruct (channel_stopped s); [|done]. destruct (Hn eq_refl); [congruence|done]. }
    specialize (He Hc). destruct Hu as [Hu|Hu]; [by rewrite Hu|].
    destruct H as [H|[H _]]; [apply Hsend in H; congruence|cbn in H; congruence].
  - intros H. destruct (Hn H); [by left|done].
Qed.

Lemma send_inv n s incoming offset : stream_inv s -> thread s = ThreadSending incoming offset ->
  let written := (S n `min` (length incoming - offset))%nat in
  stream_inv (GfxStream (stopping_ s) (ThreadTesting incoming (offset + written)) (outgoing s) (fetched s)
    (wire s ++ take written (drop offset incoming)) (channel_stopped s)).
Proof.
  intros [_ He Hn] Et written. unfold in_send, unsent in He. rewrite Et in He. specialize (He (or_introl eq_refl)).
  split; cbn.
  - eexists. rewrite He, <- app_assoc. f_equal. symmetry. apply take_drop.
  - intros _. rewrite He, <- app_assoc. f_equal. unfold unsent. cbn. by rewrite <- drop_drop, take_drop.
  - intros H. destruct (Hn H); [by left|congruence].
Qed.

Lemma drain_step_inv a s s' : stream_inv s -> drain_step a s = Some s' -> stream_inv s'.
Proof.
  intros Hi H. unfold drain_step in H. destruct (thread s) as [| | |incoming offset|incoming offset|] eqn:Et; [| | | | |done].
  - destruct a; simplify_eq. apply set_thread_inv; [done|congruence| |]; unfold unsent, in_send; rewrite ?Et; cbn; destruct (stopping_ s); auto.
  - destruct a; simplify_eq. apply set_thread_inv; [done|congruence| |]; unfold unsent, in_send; rewrite ?Et; cbn; destruct (stopping_ s); auto.
  - destruct a as [| |[] incoming|]; simplify_eq;
      try (apply set_thread_inv; [done|congruence|left; unfold unsent; by rewrite Et|done]).
    destruct Hi as [[rest Hp] He Hn]. unfold unsent, in_send in *. rewrite Et in *. split; cbn in *; [|intros [H|H]|].
    + exists (rest ++ incoming). rewrite concat_app, Hp, <- app_assoc. cbn. by rewrite app_nil_r.
    + done.
    + rewrite concat_app, He by auto. cbn. by rewrite !app_nil_r.
    + intros H. destruct (Hn H); [by left|done].
  - destruct a; simplify_eq. apply set_thread_inv; [done|congruence| |]; unfold unsent, in_send; rewrite ?Et;
      cbn [set_thread thread].
    + destruct (Nat.ltb_spec offset (length incoming)), (stopping_ s); cbn; auto.
      left. by rewrite drop_ge by lia.
    + destruct (_ <? _)%nat, (stopping_ s); cbn; auto.
  - destruct a as [| | |r]; try done.
    assert (Hend : stream_inv (GfxStream (stopping_ s) ThreadEnded (outgoing s) (fetched s) (wire s) true)).
    { destruct Hi as [Hp He Hn]. split; cbn; [done| |by right]. intros [H'|[_ H']]; done. }
    destruct r as [[|n]|e]; [| |destruct (_ || _)]; simplify_eq; [done|by apply send_inv| |done].
    apply set_thread_inv; [done|congruence| |done]. left. unfold unsent. by rewrite Et.
Qed.

Lemma gfx_step_inv s s' : stream_inv s -> gfx_step s s' -> stream_inv s'.
Proof.
  intros Hi Hs. destruct Hs as [data answers s s' b Hst Hd|a s s' Hd|s|s Hst].
  - rewrite (gfx_process_data_spec _ _ _ _ _ Hd). by destruct Hi as [Hp He Hn]; split.
  - by eapply drain_step_inv.
  - destruct Hi as [Hp He Hn]. split; cbn; [done| |by left]. intros [H|[H _]]; [|done]. apply He. by left.
  - destruct Hi as [Hp He Hn]. split; cbn; [done| |by left]. intros [H|[_ H]]; [|done]. apply He. by left.
Qed.

(** The steps that the thread takes with the answers it gets. *)
Fixpoint drain_run (l : list channel_answer) (s : gfx_stream) : option gfx_stream :=
  match l with [] => Some s | a :: l' => drain_step a s ≫= drain_run l' end.
Definition takes_buffer (a : channel_answer) : bool := match a with TryRead IoOk _ => true | _ => false end.
Definition buffers_taken (l : list channel_answer) : nat := length (List.filter takes_buffer l).
Definition is_send (a : channel_answer) : bool := match a with SendRaw _ => true | _ => false end.
Definition sends (l : list channel_answer) : nat := length (List.filter is_send l).
Definition steps_left (t : response_thread) : nat :=
  match t with
  | ThreadEnded => 0 | ThreadLoop | ThreadWaiting => 1 | ThreadReading => 2 | ThreadTesting _ _ => 3 | ThreadSending _ _ => 4
  end.

(** A thread that is told to stop: a send that is under way is its last. *)
Lemma drain_step_ends a s s' : stopping_ s = true -> drain_step a s = Some s' ->
  stopping_ s' = true /\ in_send s' = false /\ is_send a = in_send s /\
  (S (steps_left (thread s')) <= steps_left (thread s) + if takes_buffer a then 2 else 0)%nat /\
  exists sent, wire s' = wire s ++ sent /\ (if in_send s then sent `prefix_of` unsent s else sent = []).
Proof.
  intros Hs H. unfold drain_step, set_thread in H. unfold in_send, unsent.
  destruct (thread s) as [| | |incoming offset|incoming offset|]; [| | | | |done];
    destruct a as [| |[]|[[|n]|e]]; cbn in H; rewrite ?Hs in H; cbn in H; rewrite ?andb_false_r in H;
    try (destruct (_ || _)); simplify_eq; cbn; split_and!; try done; try lia;
    try (exists []; rewrite app_nil_r; split; [done|apply prefix_nil || done]).
  eexists. split; [done|]. apply prefix_take.
Qed.
Lemma drain_run_ends l s s' : stopping_ s = true -> drain_run l s = Some s' ->
  stopping_ s' = true /\ (length l + steps_left (thread s') <= steps_left (thread s) + 2 * buffers_taken l)%nat /\
  (sends l <= if in_send s then 1 else 0)%nat /\
  exists sent, wire s' = wire s ++ sent /\ (if in_send s then sent `prefix_of` unsent s else sent = []).
Proof.
  revert s; induction l as [|a l IH]; intros s Hs H; cbn in H.
  { simplify_eq. split_and!; [done|cbn; lia|cbn; lia|]. exists []. rewrite app_nil_r. split; [done|].
    destruct (in_send s'); [apply prefix_nil|done]. }
  destruct (drain_step a s) as [s1|] eqn:E; [|done].
  destruct (drain_step_ends _ _ _ Hs E) as (Hs1 & Hn & Ha & Hl & sent & Hw & Hsent).
  destruct (IH _ Hs1 H) as (? & Hl' & Hc & sent' & Hw' & Hsent'). rewrite Hn in Hc, Hsent'. subst sent'. rewrite app_nil_r in Hw'.
  unfold buffers_taken, sends in *. cbn [List.filter length]. split_and!; [done| | |exists sent; split; [congruence|done]].
  - destruct (takes_buffer a); cbn [length] in *; lia.
  - rewrite Ha. destruct (in_send s); cbn [length]; lia.
Qed.

(** C24: For any reads of the connection, answers of the channel and of the
    socket and any moment of the destructor: the channel takes exactly the
    buffers whose processing reported success, in order; what was sent is a
    prefix of what the response thread read from the channel, and until the
    destructor begins or the channel is stopped nothing of it is lost, the rest
    being in the thread's hands; once the destructor has set [stopping_] the
    thread finishes the one send it may be in, which sends more of the buffer in
    its hands, and sends nothing else; it always has a next step when the
    channel's wait returns, and ends after at most two steps for each buffer
    that the channel still gives it and four. *)
Theorem gfx_responses s :
  rtc gfx_step gfx_init s ->
  (exists rest, concat (fetched s) = wire s ++ rest) /\
  (stopping_ s = false -> channel_stopped s = false -> concat (fetched s) = wire s ++ unsent s) /\
  (forall data answers s' b, gfx_process_data data answers s = Some (s', b) ->
     outgoing s' = outgoing s ++ (if b then [data] else []) /\ fetched s' = fetched s /\ wire s' = wire s) /\
  let s1 := set_stopping s in
  (thread s1 <> ThreadEnded -> exists a, is_Some (drain_step a s1)) /\
  forall l s2, drain_run l s1 = Some s2 ->
    (sends l <= if in_send s then 1 else 0)%nat /\
    (exists sent, wire s2 = wire s ++ sent /\ if in_send s then sent `prefix_of` unsent s else sent = []) /\
    (length l <= 4 + 2 * buffers_taken l)%nat /\
    (thread s2 <> ThreadEnded -> exists a, is_Some (drain_step a s2)).
Proof.
  intros Hs. assert (Hi : stream_inv s).
  { revert s Hs. apply (rtc_ind_r stream_inv); [|intros s s' _ Hst Hi; by eapply gfx_step_inv].
    split; cbn; [by exists []|done|done]. }
  destruct Hi as [Hp He _]. split; [exact Hp|]. split; [by auto|].
  split. { intros data answers s' b Hd. by rewrite (gfx_process_data_spec _ _ _ _ _ Hd). }
  intros s1. assert (Hgo : forall s, thread s <> ThreadEnded -> exists a, is_Some (drain_step a s)).
  { intros s0 Ht. unfold drain_step. destruct (thread s0) as [| | |incoming offset|incoming offset|]; [by exists Nothing|by exists ChannelReadable|
      by exists (TryRead IoError [])|by exists Nothing|by exists (SendRaw (Sent 0))|done]. }
  split; [by apply Hgo|]. intros l s2 Hr. destruct (drain_run_ends l s1 s2 eq_refl Hr) as (Hs2 & Hl & Hc & Hw).
  split; [exact Hc|]. split; [exact Hw|]. split; [|by apply Hgo].
  cut (steps_left (thread s1) <= 4)%nat; [lia|]. destruct (thread s1); cbn; lia.
Qed.

(** A buffer goes in, one comes back in two pieces with a busy socket between. *)
Definition demo_answers : list channel_answer :=
  [Nothing; ChannelReadable; TryRead IoOk (str "hello"); Nothing; SendRaw (Sent 2); Nothing; SendRaw (Failed EINTR); Nothing;
   SendRaw (Sent 9); Nothing; TryRead IoTryAgain []].
Lemma drain_run_steps l s s' : drain_run l s = Some s' -> rtc gfx_step s s'.
Proof.
  revert s; induction l as [|a l IH]; intros s H; cbn in H; [simplify_eq; apply rtc_refl|].
  destruct (drain_step a s) as [s1|] eqn:E; [|done]. eapply rtc_l; [by eapply on_response|by apply IH].
Qed.
Lemma gfx_responses_witness :
  exists s, drain_run demo_answers gfx_init = Some s /\ wire s = str "hello" /\ concat (fetched s) = wire s ++ unsent s.
Proof.
  destruct (drain_run demo_answers gfx_init) as [s|] eqn:E; [|vm_compute in E; discriminate E].
  exists s. split; [reflexivity|]. split; [by (vm_compute in E; injection E as <-)|].
  destruct (gfx_responses s (drain_run_steps _ _ _ E)) as (_ & H & _). apply H; by (vm_compute in E; injection E as <-).
Defined.

(** * The life of the backend *)

(** The library between its initialisation and its end; with a post callback. *)
Definition made_calls (w h : Z) (vulkan : bool) : list lib_call := [LibInit w h vulkan; LibManagedLifetime; LibPostCallback true].

(** A constructor that returns leaves the library initialised with guest
    managed color buffers and a callback, and the renderer waiting for frames;
    one that throws has undone what it did and left the renderer alone; and
    the destructor stops the callback before the renderer and the library. *)
Theorem backend_lifecycle compiled_in lib w h vulkan s :
  match GfxstreamBackend compiled_in lib w h vulkan s with
  | (s1, Ret b) =>
      lib_calls s1 = lib_calls s ++ made_calls w h vulkan /\
      m_externalFrameSource (ext (presentation_renderer_ s1)) = true /\
      initialized_ b = true /\ (async_readback_ b = true -> is_Some (read_pixels_ b)) /\
      forall s2, exists s3, destroy_backend b s2 = (s3, Ret tt) /\
        lib_calls s3 = lib_calls s2 ++ [LibPostCallback false; LibTeardown] /\
        m_externalFrameSource (ext (presentation_renderer_ s3)) = false
  | (s1, Throw e) =>
      e = RuntimeError /\ presentation_renderer_ s1 = presentation_renderer_ s /\
      lib_calls s1 = lib_calls s ++
        (if negb compiled_in then []
         else if negb (init_ok lib) then [LibInit w h vulkan]
         else if lifetime_hook lib then [LibInit w h vulkan; LibManagedLifetime; LibTeardown]
         else [LibInit w h vulkan; LibTeardown])
  | _ => False
  end.
Proof.
  unfold GfxstreamBackend, library_call, throw, lift, on_presentation, modify, mret, M_ret, mbind, M_bind.
  destruct compiled_in; cbn; [|by rewrite app_nil_r]. destruct (init_ok lib); cbn; [|done].
  destruct (lifetime_hook lib); cbn; [|by rewrite <- app_assoc].
  destruct (async_readback lib) eqn:Ea, (read_pixels lib) as [f|] eqn:Er; cbn; rewrite <- ?app_assoc; cbn;
    try (split_and!; [done|done|done|by eauto|]; intros s2; eexists;
      unfold destroy_backend, library_call, on_presentation, modify, mret, M_ret, mbind, M_bind; cbn;
      rewrite <- ?app_assoc; done); done.
Qed.

(** * Frames *)

Definition frame_bytes (w h : Z) : Z := w * h * 4.
Lemma frame_bytes_exact w h : in_i32 w -> in_i32 h -> 0 < w -> 0 < h -> u64 (u64 (w * h) * 4) = frame_bytes w h.
Proof. unfold in_i32, frame_bytes, u64. intros. rewrite (Z.mod_small (w * h)) by nia. apply Z.mod_small. nia. Qed.

(** A posted frame is the one of the given size at the head of the memory,
    as the readback filled it. *)
Definition read_back (b : backend) (size : Z) (pixels : bytes) : bytes :=
  match read_pixels_ b with
  | Some f => if async_readback_ b then f size ++ drop (length (f size)) pixels else pixels
  | None => pixels
  end.

(** For the frames of any [int] sizes the size in bytes is computed without
    overflow; a frame is refused by its display, an empty size, a size of more
    than 64 MiB or a format, without touching its memory; any other becomes
    the frame of the renderer while it takes frames. No frame whose memory is
    as long as its pixels makes an access outside it. *)
Theorem post_frame_spec b display_id w h y_direction format type pixels s :
  in_i32 w -> in_i32 h -> (async_readback_ b = true -> is_Some (read_pixels_ b)) ->
  (forall f n, read_pixels_ b = Some f -> 0 <= n -> Z.of_nat (length (f n)) = n) ->
  (0 < w -> 0 < h -> frame_bytes w h <= max_frame_bytes -> frame_bytes w h <= Z.of_nat (length pixels)) ->
  exists s', post_frame (Some b) display_id w h y_direction format type (Some pixels) s = (s', Ret tt) /\
    lib_calls s' = lib_calls s /\
    let x := ext (presentation_renderer_ s) in let x' := ext (presentation_renderer_ s') in
    if (display_id =? 0) && (0 <? w) && (0 <? h) && (frame_bytes w h <=? max_frame_bytes) && (format =? GL_RGBA) &&
       (type =? GL_UNSIGNED_BYTE) && m_externalFrameSource x
    then m_externalFrame x' = Frame w h (take (Z.to_nat (frame_bytes w h)) (read_back b (frame_bytes w h) pixels)) /\
         m_externalFrameYDirection x' = y_direction /\
         m_externalFrameGeneration x' = u64 (m_externalFrameGeneration x + 1)
    else x' = x.
Proof.
  intros Hw Hh Hasync Hlen Hmem. unfold post_frame.
  destruct (display_id =? 0); cbn [negb orb andb]; [|by eexists].
  destruct (Z.leb_spec w 0) as [?|Hw0]; cbn [orb].
  { rewrite (proj2 (Z.ltb_ge _ _)) by done. by eexists. }
  destruct (Z.leb_spec h 0) as [?|Hh0]; cbn [orb].
  { rewrite (proj2 (Z.ltb_ge 0 h)), andb_false_r by done. by eexists. }
  rewrite !(proj2 (Z.ltb_lt 0 _)) by done. cbn [andb]. rewrite frame_bytes_exact by done.
  destruct (Z.ltb_spec max_frame_bytes (frame_bytes w h)) as [?|Hsz]; cbn [orb].
  { rewrite (proj2 (Z.leb_gt _ _)) by done. by eexists. }
  assert (Hmax : max_frame_bytes = 67108864) by done.
  rewrite (proj2 (Z.ltb_ge (2 ^ 32 - 1) _)), (proj2 (Z.leb_le _ _)) by lia. cbn [andb].
  specialize (Hmem Hw0 Hh0 Hsz). assert (Hpos : 0 < frame_bytes w h) by (unfold frame_bytes; nia).
  assert (Hr : (if async_readback_ b then
                  match read_pixels_ b with
                  | Some f => if (length pixels <? Z.to_nat (frame_bytes w h))%nat then Undef
                              else Ret (f (frame_bytes w h) ++ drop (length (f (frame_bytes w h))) pixels)
                  | None => Undef
                  end else Ret pixels) = Ret (read_back b (frame_bytes w h) pixels) /\
               frame_bytes w h <= Z.of_nat (length (read_back b (frame_bytes w h) pixels))).
  { unfold read_back. destruct (async_readback_ b) eqn:Ea; [|by destruct (read_pixels_ b)].
    destruct (Hasync eq_refl) as [f Hf]. rewrite Hf. specialize (Hlen f (frame_bytes w h) Hf ltac:(lia)).
    destruct (Nat.ltb_spec (length pixels) (Z.to_nat (frame_bytes w h))); [lia|]. split; [done|]. slen. }
  destruct Hr as [-> Hl]. unfold on_presentation, postExternalFrame.
  rewrite !(proj2 (Z.leb_gt _ 0)) by done. cbn [orb].
  destruct (format =? GL_RGBA); cbn [negb orb andb]; [|by eexists].
  destruct (type =? GL_UNSIGNED_BYTE); cbn [negb orb andb]; [|by eexists].
  rewrite frame_bytes_exact, (proj2 (Z.ltb_ge _ _)) by done.
  unfold get, modify, mret, M_ret, mbind, M_bind. cbn -[frame_bytes].
  destruct (m_externalFrameSource (ext (presentation_renderer_ s))) eqn:Es; [|by eexists].
  rewrite (proj2 (Z.ltb_ge _ _)) by done. eexists. cbn -[frame_bytes]. split; [reflexivity|]. split; [done|].
  unfold redraw. by destruct (m_redrawRequester _).
Qed.

(** * The pipes of Pipe.v on the backend *)

Definition lib_opened (k : lib_call) : option Z := match k with LibOpenColorBuffer h => Some h | _ => None end.
Definition lib_closed (k : lib_call) : option Z := match k with LibCloseColorBuffer h => Some h | _ => None end.
Definition lib_created (k : lib_call) : option Z := match k with LibCreateProcess id => Some id | _ => None end.
Definition lib_cleaned (k : lib_call) : option Z := match k with LibCleanupProcess id => Some id | _ => None end.

(** What the pipes acquire and release, the library is asked to open and
    close, in the same order: that they balance (Pipe.v) is a balance of the
    library's color buffers and processes. *)
Theorem pipe_calls es s :
  exists s' cs, run_pipe_events es s = (s', Ret tt) /\ presentation_renderer_ s' = presentation_renderer_ s /\
    lib_calls s' = lib_calls s ++ cs /\
    omap lib_opened cs = omap Pipe.opened es /\ omap lib_closed cs = omap Pipe.closed es /\
    omap lib_created cs = omap Pipe.created es /\ omap lib_cleaned cs = omap Pipe.cleaned es.
Proof.
  revert s; induction es as [|e es IH]; intros s.
  { exists s, []. by rewrite app_nil_r. }
  assert (exists c, run_pipe_event e s = (Graphics (presentation_renderer_ s) (lib_calls s ++ c), Ret tt) /\
    omap lib_opened c = option_list (Pipe.opened e) /\ omap lib_closed c = option_list (Pipe.closed e) /\
    omap lib_created c = option_list (Pipe.created e) /\ omap lib_cleaned c = option_list (Pipe.cleaned e)) as (c & Hc & H1 & H2 & H3 & H4).
  { destruct e; cbn; unfold mret, M_ret; try (eexists; split; [reflexivity|by split_and!]); exists [];
      rewrite app_nil_r; (split; [by destruct s|by split_and!]). }
  destruct (IH (Graphics (presentation_renderer_ s) (lib_calls s ++ c))) as (s' & cs & Hs & Hp & Hl & H1' & H2' & H3' & H4').
  exists s', (c ++ cs). unfold run_pipe_events in *. cbn [for_each]. unfold mbind, M_bind. rewrite Hc.
  split; [exact Hs|]. split; [exact Hp|]. split; [rewrite Hl; cbn; by rewrite <- app_assoc|].
  rewrite !omap_app, H1, H2, H3, H4, H1', H2', H3', H4'. cbn.
  by destruct (Pipe.opened e), (Pipe.closed e), (Pipe.created e), (Pipe.cleaned e).
Qed.

(** A frame of one pixel, read back. *)
Definition a_backend : backend := Backend true false true (Some (fun n => replicate (Z.to_nat n) x01)) [] [] [].
Lemma post_frame_spec_witness :
  exists s', post_frame (Some a_backend) 0 1 1 1 GL_RGBA GL_UNSIGNED_BYTE (Some [x00; x00; x00; x00; x02])
               (Graphics (upd_ext (External true 1 1 no_frame 1 GL_RGBA GL_UNSIGNED_BYTE 0 0 None) host_init) []) = (s', Ret tt) /\
    m_externalFrame (ext (presentation_renderer_ s')) = Frame 1 1 [x01; x01; x01; x01].
Proof.
  destruct (post_frame_spec a_backend 0 1 1 1 GL_RGBA GL_UNSIGNED_BYTE [x00; x00; x00; x00; x02]
    (Graphics (upd_ext (External true 1 1 no_frame 1 GL_RGBA GL_UNSIGNED_BYTE 0 0 None) host_init) [])) as (s' & Hs & _ & Hf).
  - by vm_compute.
  - by vm_compute.
  - intros _. by eexists.
  - intros f n [= <-] Hn. rewrite length_replicate. by apply Z2Nat.id.
  - by vm_compute.
  - exists s'. split; [exact Hs|]. vm_compute in Hf. apply Hf.
Defined.
